(* ===== verification/_CoqProject ===== *)
-Q . S2P
Prelude.v
Strs.v
Storage.v
Types.v
Metrics.v
Disk.v
Pool.v
PoolLemmas.v
PoolInv.v
PoolFrame.v
PoolSys.v
PoolProps.v
PoolDisk.v
PoolConc.v
Continuation.v
ContinuationProps.v
Resources.v
Mount.v
GuestFile.v
GuestScan.v
Frame.v
Inject.v
Annotations.v
Box.v
BlockImage.v
StorageOps.v
Handlers.v
BoxCalm.v
StorageProps.v
DeviceGraph.v
StorageClaims.v
HandlerProps.v
Sandboxer.v
SandboxerInv.v
SandboxerProps.v
HostInv.v
Builder.v
Service.v
ServiceApi.v
ServiceInv.v
SandboxerSys.v
ServiceProps.v
HostCases.v
SandboxerPolicy.v
Fs.v
Descriptors.v
ChConfig.v
ChSnapshot.v
ChDriver.v
ChLemmas.v
ChSample.v
ChRestore.v
ChProcess.v
ChShared.v
ChCapture.v
ChWorks.v
ChAttach.v
Net.v
NetProps.v
GuestDevice.v
GuestMonitor.v
GuestStorage.v
GuestText.v
GuestStorageProps.v
GuestHistory.v
GuestVerify.v
GuestLog.v
GuestContainer.v
GuestContainerProps.v
GuestPod.v
GuestExit.v
GuestStream.v
GuestStreamProps.v
QemuConfig.v
QemuDriver.v
QemuSlots.v
QemuProps.v
QemuLife.v
Strato.v
StratoProps.v
