(* ===== verification/Prelude.v ===== *)
(** * Kuasar: a verification development

    Kuasar runs the pods of a Kubernetes node in virtual machines. This library
    models the sandboxer of the VM flavour ([src/vmm/sandbox]), the agent that
    runs inside the guest ([src/vmm/task]) and what they share
    ([src/vmm/common]), and proves the properties they rely on.

    ** The parts and how they interact

    - The _sandboxer_ ([vmm/sandbox/src/sandbox.rs]) answers containerd: it
      creates, starts, stops and deletes sandboxes. A start either boots a VM
      or restores one from a snapshot.
    - The _template pool_ ([template/pool.rs]) keeps snapshots that many
      sandboxes (shared leases) or one (exclusive leases) restore from; the
      _continuation store_ ([template/continuation.rs]) keeps snapshots of one
      workload. Both live in directories that survive a restart.
    - The _admin service_ ([service/mod.rs]) takes requests on a socket:
      snapshot a running sandbox, refill or inspect the pool, run a sandbox
      from a template. Background tasks refill and collect.
    - Containers are added by a chain of _handlers_ ([container/handler/])
      which attach _storages_ ([storage/]) to the VM through a hypervisor
      driver, and the _network_ ([network/]) gives the VM its interfaces.
    - The _drivers_ run the hypervisor: Cloud Hypervisor
      ([cloud_hypervisor/]), which also snapshots and restores, QEMU
      ([qemu/]) and StratoVirt ([stratovirt/]).
    - The _guest agent_ ([vmm/task/src]) waits for devices, mounts storages,
      runs containers through an OCI runtime, streams their standard streams
      to connections, and injects tasks into warm containers by a two-phase
      protocol ([common/src/warmfork/message.rs]).

    ** Files

    Shared: [Prelude] (results, machine integers, the state monad [M] with
    panics, Hoare triples, preservation and its automation, list lemmas),
    [Strs] (strings of the Rust standard library), [Frame] (message framing),
    [Fs] (a file store with links), [Descriptors] ([set_cmd_fd]).

    Templates: [Types], [Metrics], [Disk] (the store's directories and calls
    that fail), [Pool] (every operation of the pool), [PoolLemmas], [PoolInv],
    [PoolFrame], [PoolSys] (the pool with everybody who holds a claim),
    [PoolProps], [PoolDisk] (restarts), [PoolConc] (interleaved lock scopes of
    leases and evictions, damaged stores); [Continuation], [ContinuationProps].

    Sandboxes: [Annotations], [Resources], [Mount] ([common/src/mount.rs]),
    [Box] (a sandbox and its calls to the outside), [Storage] (records and the
    device graph), [BlockImage], [StorageOps] ([storage/mod.rs]), [Handlers],
    [GuestFile] and [GuestScan] ([storage/guest_file.rs]), with [BoxCalm],
    [StorageProps], [DeviceGraph], [StorageClaims] and [HandlerProps];
    [Sandboxer] (life cycle, restore paths, recovery),
    [Builder] (template worker and background tasks), [Service] and
    [ServiceApi] (the admin service), with [SandboxerInv], [SandboxerProps],
    [HostInv], [ServiceInv], [SandboxerSys] (the host as a transition system),
    [SandboxerPolicy] (fallback and recovery), [ServiceProps] and the cases in
    [HostCases].

    Hypervisors and network: [ChConfig] (configuration, devices, the command
    line of [param.rs] and the derive macros), [ChSnapshot] (the configuration
    inside a snapshot), [ChDriver] (the driver over a VM value, a file store,
    processes and guests), with [ChLemmas], [ChSample], [ChRestore],
    [ChProcess], [ChShared], [ChCapture], [ChWorks], [ChAttach];
    [Net] and [NetProps]; [QemuConfig] (buses and slots of [device.rs], QEMU's
    devices, configuration, command line), [QemuDriver] (factory, QMP, hot
    plugging, start and stop), [QemuSlots], [QemuProps], [QemuLife]; [Strato]
    (devices, configuration and driver) and [StratoProps].

    Guest agent: [Inject] (task injection, [sandbox_service.rs]), [GuestDevice]
    and [GuestMonitor] ([device.rs]), [GuestStorage], [GuestText],
    [GuestStorageProps], [GuestHistory], [GuestVerify] (storages of
    [sandbox.rs]), [GuestPod] (the pod's namespaces), [GuestLog],
    [GuestContainer], [GuestContainerProps] ([container.rs]), [GuestExit]
    (children that end), [GuestStream] and [GuestStreamProps]
    ([streaming.rs]).

    ** How code becomes definitions

    A struct is a record and an enum an inductive type with the source's
    variants. An operation on shared state is a computation [M S A], which maps
    a state to a value and a state, or to [None] for a panic (an [unwrap] of
    nothing, [unimplemented!], an unreachable channel); [Result] is [result],
    and [?] the notation of each component ([let?], [do?], [try]). [PoolSys]
    and [SandboxerSys] run whole operations one after the other, with any outcome
    of every call in them; [PoolConc], [GuestMonitor] and [GuestStream] interleave
    their threads, one lock scope or one call to the outside per step.
    Sets and maps are [gmap]; where the order in which a hash map is walked
    matters, the order is an argument. Unsigned integers are [N] with [uwrap]
    where they wrap, signed ones [Z].

    Code outside the repository is a parameter: [serde_json] is the class
    [MsgCodec] in [Frame], [from_str] in [ServiceApi] and a codec with
    [JsonLaws] for the driver (instantiated in [ChSample]); the text of
    [/proc/mounts] is the class [ProcMounts] whose laws [GuestText] states and
    instantiates; the parser of a log line is [LogReader]. The kernel, the
    hypervisors, runc and netlink answer every call with an outcome the theorems
    quantify over: a list of outcomes consumed call by call, and when it is
    empty the call succeeds ([Box], [ChDriver], [Net], [GuestStorage]) or is done
    ([QemuDriver]). So a theorem about all lists of outcomes is about every
    pattern of failures, and the examples write down only the failures they
    need. Files and processes a call creates are part of the state, so that a
    failure that leaves something behind is visible.

    ** What the theorems show

    - Pool: when operations run one after the other, leases keep their
      directories and are counted exactly ([PoolSys]). Under every interleaving
      of lock scopes an exclusive template has one owner, and the directory of
      a template on a lease outlives every eviction that chooses after the lease
      was granted; one that had chosen before is a race the code has ([PoolConc]).
      Restarts without faults do not offer a template of a live lease
      ([PoolDisk]); a successful add keeps the bounds ([PoolProps]).
    - Host: for operations, requests and background rounds that run one after
      the other and start no sandbox twice, the claims the sandboxes record are
      those the pool counts, templates in use stay, and a failed start gives
      back what it took ([SandboxerSys]); a start without fallback never boots
      where restores are configured, and recovery rebuilds the counts
      ([SandboxerPolicy]).
    - Admin service: a workload is snapshotted right after its readiness probe,
      a continuation is restored as it was, refills settle ([ServiceProps]).
    - Storages and containers: the device graph invariant, what attaching a
      mount records, exact release, and that a failed append is undone
      ([StorageClaims], [HandlerProps]).
    - Cloud Hypervisor: a restore from a complete template succeeds; a failed
      one gives the images back and leaves no VMM; shared restores are
      isolated; a snapshot that paused the guest asks for its resume;
      configuration patching and the descriptors of the child ([ChWorks], [ChRestore], [ChProcess],
      [ChShared], [ChCapture], [ChSnapshot], [Descriptors]).
    - Network: every veth reaches the VMM with the descriptors of its own tap
      when none is clobbered, physical devices come back ([NetProps]).
    - QEMU: hot-plugged devices have places of their own, unplugging undoes
      plugging, and how many disks fit ([QemuLife]). StratoVirt: every disk has
      a root port of its own, and the guest finds it by the address it is told
      ([StratoProps]).
    - Guest agent: the commit barrier and rollback of the two-phase injection
      ([Inject]); device requests are served unless one timed out before
      ([GuestMonitor]); new storages are mounted as asked, they stay while they
      are used and are then released ([GuestVerify], [GuestHistory]); operations on a container reach it or the orphan it
      adopted ([GuestContainerProps]); the newest runtime error is found
      ([GuestLog]); exit codes survive ([GuestExit]); output streams lose,
      repeat and reorder nothing ([GuestStreamProps]).
    - [HostCases] and the ends of other files hold evaluated runs of what the
      code does unexpectedly.

    ** Bounds and fuel

    The scan of a directory ([GuestScan.scan_loop]) and the walk that counts
    the entries of an image run with fuel; termination theorems give enough of
    it for every tree. [Fs] follows at most 40 links, as the kernel does.
    Escaped octal digits and hexadecimal numbers are read and written with a
    fuel of the length of the text or the size of the number. Loops that poll
    (connecting to a socket, waiting for a pid file) run over the list of answers, which
    ends when the source's deadline does; [detect_pid] makes the 1000 reads of
    the source. The 32-bit reference and device counters wrap; the theorems
    that need it assume that fewer than 2^32 have been drawn.

    ** Not modelled

    - The text of JSON, of error messages and of logs; times other than the
      order of events; tracing.
    - Sandboxer operations that overlap on one sandbox, but for two deletions
      ([HostCases]); entries of the working directory that cannot be read at
      start.
    - Cloud Hypervisor: the vCPU threads, the pid file and output readers of
      the task that waits for the VMM. QEMU: features other than the default
      ones, other architectures, watchers of events, the search for a vsock
      context id. StratoVirt: the vCPU threads and the search for a context id.
    - IP addresses as text (they stay numbers); [network/netlink.rs], which
      nothing calls; the cgroup library ([cgroup.rs]), whose calls are outcomes.
    - The guest agent's copying between pipes and sockets, its own netlink
      client, debug console and the youki runtime, which move bytes between
      sockets or are behind a feature flag; the wiring of [main.rs].
    - Configuration files and command-line arguments, read by serde and clap;
      [kuasar-ctl], a terminal client; the shim; and the runc, quark and wasm
      sandboxers, which are separate programs. *)
From stdpp Require Export base tactics numbers list gmap sets strings pretty sorting.
From Stdlib Require Export ZArith Lia.

#[export] Set Default Goal Selector "!".

(** ** Results

    [Result<T, E>] of the sources. Error values carry the variant and the
    branch that produced them; the formatted message is not modelled. *)
Inductive result (A E : Type) : Type :=
  | Ok (a : A)
  | Err (e : E).
Arguments Ok {A E} a.
Arguments Err {A E} e.

#[global] Instance result_eq_dec `{EqDecision A, EqDecision E} : EqDecision (result A E).
Proof. solve_decision. Defined.

Definition is_ok {A E} (r : result A E) : bool :=
  match r with Ok _ => true | Err _ => false end.

Declare Scope kuasar_scope.
Delimit Scope kuasar_scope with kuasar.

(** [r?]: continue with the value, return the error. *)
Notation "'let?' x ':=' r 'in' k" :=
  (match r with Ok x => k | Err e => Err e end)
  (at level 10, x pattern, r at level 100, k at level 200) : kuasar_scope.

(** ** Machine integers

    Unsigned values are [N]; [uwrap w] is the wrap-around of a [w]-bit
    register (the release profile compiles [+] without overflow checks, and
    [AtomicU64::fetch_add] wraps in every profile). *)
Definition uwrap (w n : N) : N := (n `mod` 2 ^ w)%N.
Definition u32_max : N := 4294967295%N.
Definition u64_max : N := 18446744073709551615%N.

Lemma uwrap_small w n : (n < 2 ^ w)%N → uwrap w n = n.
Proof. apply N.mod_small. Qed.

Lemma uwrap_lt w n : (uwrap w n < 2 ^ w)%N.
Proof. apply N.mod_lt. by apply N.pow_nonzero. Qed.

Lemma uwrap_add_l w x y : uwrap w (uwrap w x + y) = uwrap w (x + y).
Proof. unfold uwrap. apply N.Div0.add_mod_idemp_l. Qed.

Lemma uwrap_add_r w x y : uwrap w (x + uwrap w y) = uwrap w (x + y).
Proof. unfold uwrap. apply N.Div0.add_mod_idemp_r. Qed.

(** ** A state monad with panics

    [M S A]: a computation over a state [S]; [None] is a Rust panic. *)
Definition M (S A : Type) : Type := S → option (A * S).

#[global] Instance M_ret {S} : MRet (M S) := λ A a s, Some (a, s).
#[global] Instance M_bind {S} : MBind (M S) :=
  λ A B k m s, match m s with Some (a, s') => k a s' | None => None end.

Definition gets {S A} (f : S → A) : M S A := λ s, Some (f s, s).
Definition modify {S} (f : S → S) : M S unit := λ s, Some ((), f s).
Definition panic {S A} : M S A := λ _, None.

(** One bind. *)
Lemma bind_run {S A B} (m : M S A) (k : A → M S B) s :
  (m ≫= k) s = match m s with Some (a, s') => k a s' | None => None end.
Proof. done. Qed.

Lemma bind_inv {S A B} (m : M S A) (k : A → M S B) s b s' :
  (m ≫= k) s = Some (b, s') → ∃ a s1, m s = Some (a, s1) ∧ k a s1 = Some (b, s').
Proof. rewrite bind_run. destruct (m s) as [[a s1]|]; [eauto|done]. Qed.

(** Total correctness: from a state of [P] the computation does not panic and
    ends in [Q]. *)
Definition hoare {S A} (P : S → Prop) (m : M S A) (Q : A → S → Prop) : Prop :=
  ∀ s, P s → ∃ a s', m s = Some (a, s') ∧ Q a s'.

Section hoare_rules.
Context {S : Type}.
Implicit Types P : S → Prop.

Lemma hoare_ret {A} (a : A) P (Q : A → S → Prop) :
  (∀ s, P s → Q a s) → hoare P (mret a) Q.
Proof. intros H s Hs. eexists _, _. split; [done|]. by apply H. Qed.

Lemma hoare_bind {A B} (m : M S A) (k : A → M S B) P (R : A → S → Prop) Q :
  hoare P m R → (∀ a, hoare (R a) (k a) Q) → hoare P (m ≫= k) Q.
Proof.
  intros Hm Hk s Hs. destruct (Hm s Hs) as (a & s' & E & HR).
  destruct (Hk a s' HR) as (b & s'' & E' & HQ).
  exists b, s''. split; [|done]. unfold mbind, M_bind. by rewrite E.
Qed.

(** Sequencing under an invariant. *)
Lemma hoare_seq {A B} (m : M S A) (k : A → M S B) P Q :
  hoare P m (λ _, P) → (∀ a, hoare P (k a) Q) → hoare P (m ≫= k) Q.
Proof. apply hoare_bind. Qed.

Lemma hoare_ignore {A} (m : M S A) P (Q : S → Prop) :
  hoare P m (λ _, Q) → hoare P (m ≫= λ _, mret tt) (λ _, Q).
Proof. intros Hm. eapply hoare_bind; [exact Hm|]. intros a. by apply hoare_ret. Qed.

Lemma hoare_gets {A} (f : S → A) P (Q : A → S → Prop) :
  (∀ s, P s → Q (f s) s) → hoare P (gets f) Q.
Proof. intros H s Hs. eexists _, _. split; [done|]. by apply H. Qed.

Lemma hoare_modify (f : S → S) P (Q : unit → S → Prop) :
  (∀ s, P s → Q tt (f s)) → hoare P (modify f) Q.
Proof. intros H s Hs. eexists _, _. split; [done|]. by apply H. Qed.

Lemma hoare_conseq {A} (m : M S A) P P' (Q Q' : A → S → Prop) :
  hoare P' m Q' → (∀ s, P s → P' s) → (∀ a s, Q' a s → Q a s) → hoare P m Q.
Proof. intros Hm HP HQ s Hs. destruct (Hm s (HP s Hs)) as (a & s' & E & H). eauto. Qed.

Lemma hoare_pure {A} (φ : Prop) (m : M S A) P (Q : A → S → Prop) :
  (φ → hoare P m Q) → hoare (λ s, φ ∧ P s) m Q.
Proof. intros H s [Hφ Hs]. by apply H. Qed.

Lemma hoare_run {A} (m : M S A) P (Q : A → S → Prop) s a s' :
  hoare P m Q → P s → m s = Some (a, s') → Q a s'.
Proof. intros Hm Hs E. destruct (Hm s Hs) as (a' & s'' & E' & H). congruence. Qed.

(** An invariant of every iteration is an invariant of the loop. *)
Lemma hoare_foldM {A B} (f : B → A → M S B) P (Q : B → S → Prop) l b :
  (∀ s, P s → Q b s) →
  (∀ x b, x ∈ l → hoare (Q b) (f b x) Q) →
  hoare P (foldl (λ m x, m ≫= λ b, f b x) (mret b) l) Q.
Proof.
  intros Hb Hf.
  cut (∀ m0, hoare P m0 Q → hoare P (foldl (λ m x, m ≫= λ b, f b x) m0 l) Q).
  { intros H. apply H. by apply hoare_ret. }
  clear Hb. revert Hf. induction l as [|x l IH]; intros Hf m0 H0; [done|].
  simpl. apply IH.
  { intros y b' Hy. apply Hf. by right. }
  eapply hoare_bind; [done|]. intros b'. apply Hf. by left.
Qed.
End hoare_rules.

(** [for x in l { b = f b x }] *)
Definition foldM {S A B} (f : B → A → M S B) (b : B) (l : list A) : M S B :=
  foldl (λ m x, m ≫= λ b, f b x) (mret b) l.

Lemma foldM_nil {S A B} (f : B → A → M S B) b : foldM f b [] = mret b.
Proof. done. Qed.

Lemma foldl_bind {S A B} (f : B → A → M S B) l (m : M S B) s :
  foldl (λ m x, m ≫= λ b, f b x) m l s = (m ≫= λ b, foldM f b l) s.
Proof.
  revert m s. induction l as [|x l IH]; intros m s; simpl.
  - unfold mbind, M_bind, foldM, mret, M_ret. simpl. by destruct (m s) as [[]|].
  - rewrite IH. unfold mbind at 1 2 3, M_bind. destruct (m s) as [[b s']|]; [|done].
    symmetry. exact (IH (mret b ≫= λ b, f b x) s').
Qed.

Lemma foldM_cons {S A B} (f : B → A → M S B) b x l s :
  foldM f b (x :: l) s =
    match f b x s with Some (b', s') => foldM f b' l s' | None => None end.
Proof. unfold foldM at 1. simpl. rewrite foldl_bind. done. Qed.

(** ** Preservation

    [preserves P m]: every run of [m] that ends keeps [P]. *)
Definition preserves {S A} (P : S → Prop) (m : M S A) : Prop :=
  ∀ s a s', P s → m s = Some (a, s') → P s'.

Section preserves.
Context {S : Type} (P : S → Prop).

Lemma preserves_ret {A} (a : A) : preserves P (mret a).
Proof. by intros s a' s' Hs [= <- <-]. Qed.
Lemma preserves_panic {A} : preserves P (panic (A := A)).
Proof. by intros s a s'. Qed.
Lemma preserves_gets {A} (f : S → A) : preserves P (gets f).
Proof. by intros s a s' Hs [= <- <-]. Qed.
Lemma preserves_modify (f : S → S) : (∀ s, P s → P (f s)) → preserves P (modify f).
Proof. intros Hf s a s' Hs [= <- <-]. by apply Hf. Qed.
Lemma preserves_bind {A B} (m : M S A) (k : A → M S B) :
  preserves P m → (∀ a, preserves P (k a)) → preserves P (m ≫= k).
Proof.
  intros Hm Hk s b s' Hs. unfold mbind, M_bind. destruct (m s) as [[a s1]|] eqn:E; [|done].
  intros E'. eapply Hk; [|exact E']. by eapply Hm.
Qed.
Lemma preserves_foldM {A B} (f : B → A → M S B) b l :
  (∀ b x, preserves P (f b x)) → preserves P (foldM f b l).
Proof.
  intros Hf s b' s' Hs. revert b s Hs. induction l as [|x l IH]; intros b s Hs.
  - rewrite foldM_nil. by intros [= <- <-].
  - rewrite foldM_cons. destruct (f b x s) as [[b1 s1]|] eqn:E; [|done].
    apply IH. by eapply Hf.
Qed.
End preserves.

Create HintDb preserve.
#[export] Hint Resolve preserves_ret preserves_panic preserves_gets : preserve.

(** Walk over a program; what is left is one goal per state update and per
    call without a [preserve] hint. *)
Ltac preserve :=
  repeat first
    [ done
    | solve [eauto 2 with preserve nocore]
    | apply preserves_bind; [|intros ?]
    | apply preserves_foldM; intros ? ?
    | apply preserves_modify; intros ? ?
    | progress (repeat case_match; try discriminate) ].

(** ** Tactics *)
Ltac munfold := unfold mbind, M_bind, mret, M_ret, gets, modify, panic in *.

(** Take a run apart, as far as its branches are decided. *)
Ltac minv H :=
  lazymatch type of H with
  | (_ ≫= _) _ = Some _ =>
      let a := fresh "a" in let s := fresh "s" in let H1 := fresh "H" in
      apply bind_inv in H as (a & s & H1 & H); minv H1; minv H
  | mret _ _ = Some _ => injection H as ? ?; subst
  | gets _ _ = Some _ => injection H as ? ?; subst
  | modify _ _ = Some _ => injection H as ? ?; subst
  | _ => idtac
  end.

(** One step of symbolic execution of a match in the goal or a hypothesis. *)
Ltac msplit :=
  match goal with
  | |- context [match ?x with _ => _ end] => destruct x eqn:?
  | H : context [match ?x with _ => _ end] |- _ => destruct x eqn:?
  end.

(** ** Lists *)
Definition nat_sum (l : list nat) : nat := foldr Nat.add 0 l.

#[global] Instance nat_sum_proper : Proper ((≡ₚ) ==> (=)) nat_sum.
Proof. induction 1; simpl; lia. Qed.

Lemma nat_sum_app l k : nat_sum (l ++ k) = nat_sum l + nat_sum k.
Proof. induction l; simpl; lia. Qed.

(** [Iterator::position] *)
Fixpoint position {A} (p : A → bool) (l : list A) : option nat :=
  match l with
  | [] => None
  | x :: l => if p x then Some 0 else S <$> position p l
  end.

(** [Iterator::find] *)
Fixpoint find_first {A} (p : A → bool) (l : list A) : option A :=
  match l with
  | [] => None
  | x :: l => if p x then Some x else find_first p l
  end.

Lemma find_first_Some {A} (p : A → bool) l x :
  find_first p l = Some x → x ∈ l ∧ p x = true.
Proof.
  induction l as [|y l IH]; simpl; [done|]. destruct (p y) eqn:E.
  - intros [= ->]. split; [by left|done].
  - intros H. destruct (IH H). split; [by right|done].
Qed.

Lemma find_first_None {A} (p : A → bool) l :
  find_first p l = None ↔ ∀ x, x ∈ l → p x = false.
Proof.
  induction l as [|y l IH]; simpl.
  - split; [|done]. intros _ x Hx. by apply elem_of_nil in Hx.
  - destruct (p y) eqn:E; split; try done.
    + intros H. specialize (H y). rewrite H in E; [done|by left].
    + intros H x [->|Hx]%elem_of_cons; [done|]. by apply IH.
    + intros H. apply IH. intros x Hx. apply H. by right.
Qed.

Lemma find_first_is_Some {A} (p : A → bool) l x :
  x ∈ l → p x = true → is_Some (find_first p l).
Proof.
  intros Hx Hp. destruct (find_first p l) eqn:E; [eauto|].
  rewrite (proj1 (find_first_None p l) E x Hx) in Hp. done.
Qed.

Lemma position_lookup {A} (p : A → bool) l i :
  position p l = Some i → ∃ x, l !! i = Some x ∧ p x = true ∧ find_first p l = Some x.
Proof.
  revert i. induction l as [|y l IH]; intros i; simpl; [done|].
  destruct (p y) eqn:E.
  - intros [= <-]. eauto.
  - intros (j & Hj & ->)%fmap_Some. destruct (IH j Hj) as (x & ? & ? & ?). eauto.
Qed.

Lemma position_find {A} (p : A → bool) l :
  position p l = None ↔ find_first p l = None.
Proof.
  induction l as [|y l IH]; simpl; [done|]. destruct (p y); [done|].
  rewrite fmap_None. done.
Qed.

(** [Vec::retain] *)
Definition retain {A} (p : A → bool) (l : list A) : list A := List.filter p l.

Lemma elem_of_retain {A} (p : A → bool) l x : x ∈ retain p l ↔ x ∈ l ∧ p x = true.
Proof. unfold retain. by rewrite !list_elem_of_In, filter_In. Qed.

Lemma retain_id {A} (p : A → bool) l : (∀ x, x ∈ l → p x = true) → retain p l = l.
Proof.
  induction l as [|y l IH]; intros H; simpl; [done|].
  rewrite (H y) by (by left). rewrite IH; [done|]. intros x Hx. apply H. by right.
Qed.

Lemma retain_sublist {A} (p : A → bool) l : retain p l `sublist_of` l.
Proof. induction l as [|x l IH]; simpl; [constructor|]. destruct (p x); by constructor. Qed.

Lemma retain_ext_in {A} (p q : A → bool) l : (∀ x, x ∈ l → p x = q x) → retain p l = retain q l.
Proof.
  induction l as [|x l IH]; intros Hp; simpl; [done|]. rewrite (Hp x) by (by left). rewrite IH; [done|].
  intros y Hy. apply Hp. by right.
Qed.
Lemma retain_ext {A} (p q : A → bool) l : (∀ x, p x = q x) → retain p l = retain q l.
Proof. intros Hp. by apply retain_ext_in. Qed.
Lemma retain_retain {A} (p q : A → bool) l : retain p (retain q l) = retain (λ x, q x && p x) l.
Proof. induction l as [|x l IH]; simpl; [done|]. destruct (q x); simpl; [destruct (p x)|]; by rewrite IH. Qed.
Lemma retain_nil {A} (p : A → bool) l : retain p l = [] ↔ ∀ x, x ∈ l → p x = false.
Proof.
  split.
  - intros Hn x Hx. destruct (p x) eqn:E; [|done]. assert (x ∈ retain p l) as Hin by (by apply elem_of_retain).
    rewrite Hn in Hin. by apply elem_of_nil in Hin.
  - induction l as [|y l IH]; intros Hp; simpl; [done|]. rewrite Hp by (by left). apply IH. intros x Hx. apply Hp. by right.
Qed.
Lemma length_retain_pos {A} (p : A → bool) l x : x ∈ l → p x = true → 0 < length (retain p l).
Proof.
  intros Hx Hp. assert (x ∈ retain p l) as Hin by (by apply elem_of_retain). destruct (retain p l); [by apply elem_of_nil in Hin|simpl; lia].
Qed.
Lemma length_retain_le {A} (p : A → bool) l : length (retain p l) ≤ length l.
Proof. induction l as [|y l IH]; simpl; [done|]. destruct (p y); simpl; lia. Qed.

Lemma length_retain_lt {A} (p : A → bool) l x :
  x ∈ l → p x = false → length (retain p l) < length l.
Proof.
  intros Hx Hp. induction l as [|y l IH]; [by apply elem_of_nil in Hx|].
  simpl. pose proof (length_retain_le p l).
  apply elem_of_cons in Hx as [->|Hx].
  - rewrite Hp. lia.
  - specialize (IH Hx). destruct (p y); simpl; lia.
Qed.

(** [slice::sort_by] and [sort_by_key]: a stable sort. *)
Fixpoint insert_sorted {A} (le : A → A → bool) (x : A) (l : list A) : list A :=
  match l with
  | [] => [x]
  | y :: l' => if le x y then x :: l else y :: insert_sorted le x l'
  end.
Fixpoint sort_by {A} (le : A → A → bool) (l : list A) : list A :=
  match l with [] => [] | x :: l' => insert_sorted le x (sort_by le l') end.

Lemma insert_sorted_perm {A} (le : A → A → bool) x l : insert_sorted le x l ≡ₚ x :: l.
Proof.
  induction l as [|y l IH]; simpl; [done|]. destruct (le x y); [done|].
  rewrite IH. apply Permutation_swap.
Qed.

Lemma sort_by_perm {A} (le : A → A → bool) l : sort_by le l ≡ₚ l.
Proof. induction l as [|x l IH]; simpl; [done|]. by rewrite insert_sorted_perm, IH. Qed.

Section sorting.
Context {A : Type} (le : A → A → bool).
Hypothesis le_total : ∀ x y, le x y = true ∨ le y x = true.
Hypothesis le_trans : ∀ x y z, le x y = true → le y z = true → le x z = true.
Let R x y := le x y = true.

Lemma insert_sorted_sorted x l : StronglySorted R l → StronglySorted R (insert_sorted le x l).
Proof.
  induction 1 as [|y l Hl IH Hy]; simpl; [by repeat constructor|].
  destruct (le x y) eqn:E.
  - constructor; [by constructor|]. constructor; [done|].
    eapply Forall_impl; [exact Hy|]. intros z Hz. by eapply le_trans.
  - constructor; [done|]. rewrite insert_sorted_perm. constructor; [|done].
    destruct (le_total x y); [congruence|done].
Qed.

Lemma sort_by_sorted l : StronglySorted R (sort_by le l).
Proof. induction l; simpl; [constructor|]. by apply insert_sorted_sorted. Qed.

(** What is taken from the front is below what is left. *)
Lemma sort_by_take_le n l x y : x ∈ take n (sort_by le l) → y ∈ drop n (sort_by le l) → R x y.
Proof.
  intros Hx Hy. pose proof (sort_by_sorted l) as HS.
  rewrite <- (take_drop n (sort_by le l)) in HS. revert Hx Hy HS.
  generalize (take n (sort_by le l)) (drop n (sort_by le l)). intros k1 k2 Hx Hy HS.
  induction k1 as [|z k1 IH]; [by apply elem_of_nil in Hx|].
  simpl in HS. apply StronglySorted_inv in HS as [HS Hz].
  apply elem_of_cons in Hx as [->|Hx]; [|by apply IH].
  rewrite Forall_forall in Hz. apply Hz. apply elem_of_app. by right.
Qed.
End sorting.

(** A filter whose predicate may panic. *)
Fixpoint try_filter {A} (p : A → option bool) (l : list A) : option (list A) :=
  match l with
  | [] => Some []
  | x :: l' => b ← p x; k ← try_filter p l'; Some (if b : bool then x :: k else k)
  end.

Lemma try_filter_total {A} (p : A → option bool) (f : A → bool) l :
  (∀ x, x ∈ l → p x = Some (f x)) → try_filter p l = Some (retain f l).
Proof.
  induction l as [|x l IH]; intros H; simpl; [done|].
  rewrite (H x) by (by left). simpl. rewrite IH by (intros y Hy; apply H; by right).
  simpl. by destruct (f x).
Qed.

Lemma try_filter_elem {A} (p : A → option bool) l k x :
  try_filter p l = Some k → x ∈ k → x ∈ l ∧ p x = Some true.
Proof.
  revert k. induction l as [|y l IH]; intros k; simpl.
  - intros [= <-] Hx. by apply elem_of_nil in Hx.
  - destruct (p y) as [b|] eqn:E; simpl; [|done].
    destruct (try_filter p l) as [k'|]; simpl; [|done]. intros [= <-] Hx.
    destruct b; [apply elem_of_cons in Hx as [->|Hx]; [split; [by left|done]|]|];
      destruct (IH k' eq_refl Hx); (split; [by right|done]).
Qed.

Lemma try_filter_sublist {A} (p : A → option bool) l k :
  try_filter p l = Some k → k `sublist_of` l.
Proof.
  revert k. induction l as [|y l IH]; intros k; simpl; [by intros [= <-]|].
  destruct (p y) as [b|]; simpl; [|done].
  destruct (try_filter p l) as [k'|]; simpl; [|done]. intros [= <-].
  destruct b; constructor; by apply IH.
Qed.

(** ** HashMap iteration

    [std::collections::HashMap] iterates in an unspecified order: an instance
    of [HashOrder] is one such order, and every theorem about code that
    iterates a map holds for all of them. *)
Class HashOrder := {
  hash_iter : ∀ {K} `{Countable K} {V}, gmap K V → list (K * V);
  hash_iter_perm : ∀ {K} `{Countable K} {V} (m : gmap K V), hash_iter m ≡ₚ map_to_list m
}.

Definition hash_keys `{HashOrder} `{Countable K} {V} (m : gmap K V) : list K := (hash_iter m).*1.
Definition hash_values `{HashOrder} `{Countable K} {V} (m : gmap K V) : list V := (hash_iter m).*2.

(** The order in which stdpp lists a map is one of them. *)
Definition listing_order : HashOrder := {|
  hash_iter K _ _ V m := map_to_list m;
  hash_iter_perm K _ _ V m := Permutation_refl _
|}.

Section hash_order.
Context `{HashOrder} `{Countable K} {V : Type}.
Implicit Types m : gmap K V.

Lemma elem_of_hash_iter m k v : (k, v) ∈ hash_iter m ↔ m !! k = Some v.
Proof. rewrite hash_iter_perm. by rewrite elem_of_map_to_list. Qed.

Lemma elem_of_hash_keys m k : k ∈ hash_keys m ↔ is_Some (m !! k).
Proof.
  unfold hash_keys. rewrite list_elem_of_fmap. split.
  - intros ([k' v] & -> & Hin%elem_of_hash_iter). eauto.
  - intros [v Hv]. exists (k, v). by rewrite elem_of_hash_iter.
Qed.

Lemma elem_of_hash_values m v : v ∈ hash_values m ↔ ∃ k, m !! k = Some v.
Proof.
  unfold hash_values. rewrite list_elem_of_fmap. split.
  - intros ([k v'] & -> & Hin%elem_of_hash_iter). eauto.
  - intros [k Hk]. exists (k, v). by rewrite elem_of_hash_iter.
Qed.
End hash_order.

(** ** Hint database of the development *)
Create HintDb kuasar.
#[export] Hint Resolve hoare_ret hoare_gets hoare_modify : kuasar.

Create Rewrite HintDb kuasar.
#[export] Hint Rewrite @nat_sum_app @uwrap_add_l @uwrap_add_r : kuasar.
