(* ===== verification/Strs.v ===== *)
(** * Strings and integer formatting of the Rust standard library

    Rust's [str] is modelled byte-wise by [string]. Every separator the
    sources split or trim on is ASCII, so byte-wise splitting agrees with
    splitting a UTF-8 string; [char::is_whitespace] is restricted to its ASCII
    part. *)
From S2P Require Import Prelude.
From Stdlib Require Export Ascii.
From Stdlib Require String.

Open Scope string_scope.

#[global] Arguments String.append !_ _ / : simpl nomatch.

(** ** Prefixes *)
Fixpoint strip_prefix (p s : string) : option string :=
  match p, s with
  | "", _ => Some s
  | String a p', String b s' => if decide (a = b) then strip_prefix p' s' else None
  | String _ _, "" => None
  end.

Definition starts_with (s p : string) : bool :=
  match strip_prefix p s with Some _ => true | None => false end.

(** [str::contains(&str)] *)
Fixpoint contains (s p : string) : bool :=
  starts_with s p || match s with "" => false | String _ s' => contains s' p end.

(** [str::contains(char)] *)
Fixpoint contains_char (s : string) (c : ascii) : bool :=
  match s with
  | "" => false
  | String a s' => if decide (a = c) then true else contains_char s' c
  end.

Fixpoint all_chars (p : ascii → bool) (s : string) : bool :=
  match s with "" => true | String a s' => p a && all_chars p s' end.

(** [str::trim_start_matches(&str)]: the prefix is removed as often as it
    occurs. The string's own length is enough fuel because every removal of a
    non-empty prefix shortens it. *)
Fixpoint trim_start_matches_fuel (n : nat) (p s : string) : string :=
  match n with
  | 0 => s
  | S n => match p, strip_prefix p s with
           | "", _ | _, None => s
           | _, Some s' => trim_start_matches_fuel n p s'
           end
  end.
Definition trim_start_matches (p s : string) : string :=
  trim_start_matches_fuel (String.length s) p s.

(** [str::trim_end_matches(char)] *)
Fixpoint trim_end_char (c : ascii) (s : string) : string :=
  match s with
  | "" => ""
  | String a s' =>
      match trim_end_char c s' with
      | "" => if decide (a = c) then "" else String a ""
      | t => String a t
      end
  end.

(** ** Splitting and joining *)
Fixpoint split (c : ascii) (s : string) : list string :=
  match s with
  | "" => [""]
  | String a s' =>
      if decide (a = c) then "" :: split c s'
      else match split c s' with
           | [] => [String a ""]
           | w :: ws => String a w :: ws
           end
  end.

Fixpoint join (sep : string) (l : list string) : string :=
  match l with
  | [] => ""
  | [w] => w
  | w :: ws => w +:+ sep +:+ join sep ws
  end.

Definition is_ws (a : ascii) : bool :=
  bool_decide (a ∈ [" "; "009"; "010"; "011"; "012"; "013"]%char).

Fixpoint trim_start (s : string) : string :=
  match s with
  | "" => ""
  | String a s' => if is_ws a then trim_start s' else s
  end.

Fixpoint trim_end (s : string) : string :=
  match s with
  | "" => ""
  | String a s' =>
      match trim_end s' with
      | "" => if is_ws a then "" else String a ""
      | t => String a t
      end
  end.

Definition trim (s : string) : string := trim_end (trim_start s).

(** [str::split_whitespace] *)
Fixpoint split_ws_acc (w : string) (s : string) : list string :=
  match s with
  | "" => match w with "" => [] | _ => [w] end
  | String a s' =>
      if is_ws a then match w with "" => split_ws_acc "" s' | _ => w :: split_ws_acc "" s' end
      else split_ws_acc (w +:+ String a "") s'
  end.
Definition split_whitespace (s : string) : list string := split_ws_acc "" s.

(** [str::lines]: a final newline does not start another line. *)
Fixpoint drop_last_empty (l : list string) : list string :=
  match l with
  | [] => []
  | [""] => []
  | x :: l' => x :: drop_last_empty l'
  end.
Definition lines (s : string) : list string := drop_last_empty (split "010"%char s).

(** [str::replace(char, &str)] *)
Fixpoint replace_char (c : ascii) (r s : string) : string :=
  match s with
  | "" => ""
  | String a s' => (if decide (a = c) then r else String a "") +:+ replace_char c r s'
  end.

Definition is_ascii_alphanumeric (a : ascii) : bool :=
  let n := nat_of_ascii a in
  (((48 <=? n) && (n <=? 57)) || ((65 <=? n) && (n <=? 90)) || ((97 <=? n) && (n <=? 122)))%nat.

Definition to_ascii_lowercase1 (a : ascii) : ascii :=
  let n := nat_of_ascii a in
  if ((65 <=? n) && (n <=? 90))%nat then ascii_of_nat (n + 32) else a.
Fixpoint to_ascii_lowercase (s : string) : string :=
  match s with "" => "" | String a s' => String (to_ascii_lowercase1 a) (to_ascii_lowercase s') end.

(** ** Unsigned integers: [to_string] is stdpp's decimal [pretty] *)
Definition digit (a : ascii) : option N :=
  let n := N_of_ascii a in
  if ((48 <=? n) && (n <=? 57))%N then Some (n - 48)%N else None.

Fixpoint parse_digits (acc : N) (s : string) : option N :=
  match s with
  | "" => Some acc
  | String a s' => d ← digit a; parse_digits (acc * 10 + d) s'
  end.

(** [str::parse::<u32>] ([max] = [u32_max]) and [::<u64>]: an optional [+],
    at least one digit, and no overflow. *)
Definition parse_uint (max : N) (s : string) : option N :=
  let body := match s with String "+" s' => s' | _ => s end in
  match body with
  | "" => None
  | _ => n ← parse_digits 0 body; if (n <=? max)%N then Some n else None
  end.

(** ** Lemmas *)
Lemma app_nil_r_str s : s +:+ "" = s.
Proof. induction s as [|a s IH]; simpl; [done|]. by rewrite IH. Qed.

Lemma app_assoc_str s t u : (s +:+ t) +:+ u = s +:+ (t +:+ u).
Proof. induction s as [|a s IH]; simpl; [done|]. by rewrite IH. Qed.

Lemma strip_prefix_Some p s t : strip_prefix p s = Some t ↔ s = p +:+ t.
Proof.
  revert s. induction p as [|a p IH]; intros s; simpl.
  - split; [by intros [= ->]|by intros ->].
  - destruct s as [|b s]; simpl; [done|]. case_decide as E.
    + subst. rewrite IH. split; [by intros ->|by intros [= ->]].
    + split; [done|]. by intros [= ? ?].
Qed.

Lemma strip_prefix_app p t : strip_prefix p (p +:+ t) = Some t.
Proof. by apply strip_prefix_Some. Qed.

Lemma starts_with_spec s p : starts_with s p = true ↔ ∃ t, s = p +:+ t.
Proof.
  unfold starts_with. destruct (strip_prefix p s) eqn:E.
  - apply strip_prefix_Some in E. split; eauto.
  - split; [done|]. intros [t Ht]. apply strip_prefix_Some in Ht. congruence.
Qed.

Lemma split_not_nil c s : split c s ≠ [].
Proof. destruct s as [|a s]; simpl; [done|]. case_decide as Hdec; [done|]. by destruct (split c s). Qed.

(** No separator is left in a part. *)
Lemma split_no_sep c s w : w ∈ split c s → contains_char w c = false.
Proof.
  revert w. induction s as [|a s IH]; intros w; simpl.
  - by intros ->%list_elem_of_singleton.
  - case_decide as E.
    + intros [->|H]%elem_of_cons; [done|]. by apply IH.
    + destruct (split c s) as [|x xs] eqn:Es; [by apply split_not_nil in Es|].
      intros [->|H]%elem_of_cons; simpl.
      * rewrite decide_False by done. apply IH. by left.
      * apply IH. by right.
Qed.

(** Joining the parts gives the string back. *)
Lemma join_split c s : join (String c "") (split c s) = s.
Proof.
  induction s as [|a s IH]; simpl; [done|]. case_decide as E.
  - subst. destruct (split c s) as [|x xs] eqn:Es; [by apply split_not_nil in Es|].
    simpl. f_equal. exact IH.
  - destruct (split c s) as [|x xs] eqn:Es; [by apply split_not_nil in Es|].
    destruct xs; simpl in *; by rewrite IH.
Qed.

Lemma split_no_char c s : contains_char s c = false → split c s = [s].
Proof.
  induction s as [|a s IH]; simpl; [done|]. case_decide as Hdec; [done|].
  intros H. by rewrite IH.
Qed.

Lemma split_app_sep c s t :
  contains_char s c = false → split c (s +:+ String c t) = s :: split c t.
Proof.
  induction s as [|a s IH]; simpl; intros H.
  - by rewrite decide_True.
  - case_decide as Hdec; [done|]. by rewrite IH.
Qed.

Lemma split_app c s t : split c (s +:+ String c t) = (split c s ++ split c t)%list.
Proof.
  induction s as [|a s IH]; simpl.
  - by rewrite decide_True.
  - case_decide as Hdec; rewrite IH; [done|].
    destruct (split c s) eqn:Es; [by apply split_not_nil in Es|]. done.
Qed.

Lemma split_inj c s t : split c s = split c t → s = t.
Proof. intros H. rewrite <- (join_split c s), H. apply join_split. Qed.

(** A string is determined by its prefix up to the first separator and the rest. *)
Lemma app_sep_inj c s s' t t' :
  contains_char s c = false → contains_char s' c = false →
  s +:+ String c t = s' +:+ String c t' → s = s' ∧ t = t'.
Proof.
  intros Hs Hs' E. apply (f_equal (split c)) in E.
  rewrite !split_app_sep in E by done. injection E as -> E.
  split; [done|]. by eapply split_inj.
Qed.

(** ... and by its suffix after the last separator and what is before it. *)
Lemma app_sep_inj_r c s s' t t' :
  contains_char t c = false → contains_char t' c = false →
  s +:+ String c t = s' +:+ String c t' → s = s' ∧ t = t'.
Proof.
  intros Ht Ht' E. apply (f_equal (split c)) in E.
  rewrite !split_app, (split_no_char c t), (split_no_char c t') in E by done.
  apply app_inj_tail in E as [E ->]. split; [|done]. by eapply split_inj.
Qed.

(** Splitting a join of separator-free parts gives the parts back. *)
Lemma split_join c l :
  l ≠ [] → (∀ w, w ∈ l → contains_char w c = false) → split c (join (String c "") l) = l.
Proof.
  induction l as [|w l IH]; intros Hne H; [done|].
  destruct l as [|w' l]; simpl.
  - apply split_no_char, H. by left.
  - rewrite split_app_sep by (apply H; by left). f_equal.
    apply IH; [done|]. intros x Hx. apply H. by right.
Qed.

Lemma contains_char_app s t c :
  contains_char (s +:+ t) c = contains_char s c || contains_char t c.
Proof. induction s as [|a s IH]; simpl; [done|]. by case_decide. Qed.

Lemma all_chars_app p s t : all_chars p (s +:+ t) = all_chars p s && all_chars p t.
Proof. induction s as [|a s IH]; simpl; [done|]. by rewrite IH, andb_assoc. Qed.

Lemma all_chars_contains p s c :
  p c = false → all_chars p s = true → contains_char s c = false.
Proof.
  intros Hc. induction s as [|a s IH]; simpl; [done|].
  intros [Ha Hs]%andb_prop. case_decide; [by subst; congruence|]. by apply IH.
Qed.

Lemma digit_pretty_char m : (m < 10)%N → digit (pretty_N_char m) = Some m.
Proof.
  intros H.
  assert (m = 0 ∨ m = 1 ∨ m = 2 ∨ m = 3 ∨ m = 4 ∨ m = 5 ∨ m = 6 ∨ m = 7 ∨ m = 8 ∨ m = 9)%N
    as Hm by lia.
  repeat (destruct Hm as [->|Hm]; [reflexivity|]). by subst.
Qed.

Lemma parse_pretty_go x s : parse_digits 0 (pretty_N_go x s) = parse_digits x s.
Proof.
  revert s. induction (N.lt_wf_0 x) as [x _ IH]. intros s.
  destruct (decide (0 < x)%N) as [Hx|Hx].
  - rewrite pretty_N_go_step by done. rewrite IH by (apply N.div_lt; lia). simpl.
    rewrite digit_pretty_char by (apply N.mod_lt; lia). simpl. f_equal.
    pose proof (N.div_mod x 10). lia.
  - assert (x = 0%N) as -> by lia. by rewrite pretty_N_go_0.
Qed.

(** Decimal output starts with a digit. *)
Lemma pretty_go_head x m s :
  (m < 10)%N → ∃ d t, (d < 10)%N ∧ pretty_N_go x (String (pretty_N_char m) s) = String (pretty_N_char d) t.
Proof.
  revert m s. induction (N.lt_wf_0 x) as [x _ IH]. intros m s Hm.
  destruct (decide (0 < x)%N) as [Hx|Hx].
  - rewrite pretty_N_go_step by done. apply IH; [apply N.div_lt; lia|].
    apply N.mod_lt; lia.
  - assert (x = 0%N) as -> by lia. rewrite pretty_N_go_0. eauto.
Qed.

Lemma pretty_N_unfold n : (0 < n)%N → pretty n = pretty_N_go n "".
Proof. intros H. unfold pretty, pretty_N. by rewrite decide_False by lia. Qed.

Lemma pretty_head (n : N) : ∃ d t, (d < 10)%N ∧ pretty n = String (pretty_N_char d) t.
Proof.
  destruct (decide (n = 0)%N) as [->|Hn]; [by exists 0%N, ""|].
  rewrite pretty_N_unfold by lia. rewrite pretty_N_go_step by lia.
  apply pretty_go_head. apply N.mod_lt. lia.
Qed.

(** Parsing is the inverse of printing, up to the bound of the type. *)
Lemma parse_uint_pretty max (n : N) : (n ≤ max)%N → parse_uint max (pretty n) = Some n.
Proof.
  intros Hn. unfold parse_uint.
  assert (parse_digits 0 (pretty n) = Some n) as Hp.
  { destruct (decide (n = 0)%N) as [->|H0]; [done|].
    rewrite pretty_N_unfold by lia. by rewrite parse_pretty_go. }
  destruct (pretty_head n) as (d & t & Hd & E). rewrite E in *.
  assert (match String (pretty_N_char d) t with String "+" s' => s' | _ => String (pretty_N_char d) t end
          = String (pretty_N_char d) t) as ->.
  { pose proof (digit_pretty_char d Hd) as Hdig.
    destruct (pretty_N_char d) as [[] [] [] [] [] [] [] []]; done. }
  rewrite Hp. simpl. by rewrite (proj2 (N.leb_le n max) Hn).
Qed.

(** Everything the parser accepts is within the bound of the type. *)
Lemma parse_uint_bound max s n : parse_uint max s = Some n → (n ≤ max)%N.
Proof.
  unfold parse_uint. intros H.
  destruct (match s with String "+" s' => s' | _ => s end) as [|b t]; [done|].
  destruct (parse_digits 0 (String b t)) as [m|]; simpl in H; [|done].
  destruct (m <=? max)%N eqn:Em; [|done]. injection H as ->. by apply N.leb_le.
Qed.

Lemma digit_not_char a d c : digit a = Some d → digit c = None → a ≠ c.
Proof. intros H1 H2 ->. congruence. Qed.

Lemma pretty_go_no_char x s c :
  digit c = None → contains_char s c = false → contains_char (pretty_N_go x s) c = false.
Proof.
  intros Hc. revert s. induction (N.lt_wf_0 x) as [x _ IH]. intros s Hs.
  destruct (decide (0 < x)%N) as [Hx|Hx].
  - rewrite pretty_N_go_step by done. apply IH; [apply N.div_lt; lia|].
    simpl. rewrite decide_False; [done|].
    eapply digit_not_char; [|done]. apply digit_pretty_char. apply N.mod_lt. lia.
  - assert (x = 0%N) as -> by lia. by rewrite pretty_N_go_0.
Qed.

(** Decimal output holds digits only. *)
Lemma pretty_no_char (n : N) c : digit c = None → contains_char (pretty n) c = false.
Proof.
  intros Hc. destruct (decide (n = 0)%N) as [->|H0].
  - change (pretty 0%N) with "0". simpl. rewrite decide_False; [done|].
    intros <-. done.
  - rewrite pretty_N_unfold by lia. by apply pretty_go_no_char.
Qed.

(** [++] is list concatenation in the files that use this one; strings are
    appended with [+:+]. *)
Open Scope nat_scope.
Open Scope list_scope.
