(* ===== verification/Storage.v ===== *)
(** * Storages and the device graph of a sandbox

    [vmm/common/src/storage.rs] (the record and its reference counts),
    [vmm/sandbox/src/storage/device_graph.rs] (which storage a mount may
    reuse, which orphan owns it) and the mount predicates of
    [vmm/sandbox/src/storage/mount.rs]. *)
From S2P Require Import Prelude Strs.

(** ** Data *)

(** [containerd_sandbox::spec::Mount] *)
Record Mount := mkMount {
  m_destination : string;
  m_type : string;
  m_source : string;
  m_options : list string
}.

Record Storage := mkStorage {
  host_source : string;
  s_type : string;
  s_id : string;
  device_id : option string;
  ref_container : gmap string N;
  need_guest_handle : bool;
  s_source : string;
  driver : string;
  driver_options : list string;
  fstype : string;
  s_options : list string;
  mount_point : string;
  lower_dirs : option string;
  cleanup_path : option string;
  owned_by_runtime : bool;
  source_identity : option string
}.

#[global] Instance Storage_eq_dec : EqDecision Storage.
Proof. solve_decision. Defined.

Definition set_ref_container (f : gmap string N → gmap string N) (s : Storage) : Storage :=
  {| host_source := host_source s; s_type := s_type s; s_id := s_id s;
     device_id := device_id s; ref_container := f (ref_container s);
     need_guest_handle := need_guest_handle s; s_source := s_source s; driver := driver s;
     driver_options := driver_options s; fstype := fstype s; s_options := s_options s;
     mount_point := mount_point s; lower_dirs := lower_dirs s; cleanup_path := cleanup_path s;
     owned_by_runtime := owned_by_runtime s; source_identity := source_identity s |}.

Definition set_cleanup_path (p : option string) (s : Storage) : Storage :=
  {| host_source := host_source s; s_type := s_type s; s_id := s_id s;
     device_id := device_id s; ref_container := ref_container s;
     need_guest_handle := need_guest_handle s; s_source := s_source s; driver := driver s;
     driver_options := driver_options s; fstype := fstype s; s_options := s_options s;
     mount_point := mount_point s; lower_dirs := lower_dirs s; cleanup_path := p;
     owned_by_runtime := owned_by_runtime s; source_identity := source_identity s |}.

(** ** Storage operations *)
Definition is_for_mount (s : Storage) (m : Mount) : bool :=
  bool_decide (host_source s = m_source m) && bool_decide (s_type s = m_type m).

(** [u32] additions wrap in the release profile. *)
Definition ref_count (s : Storage) : N :=
  map_fold (λ _ v acc, uwrap 32 (acc + v)) 0%N (ref_container s).

Definition refer (container_id : string) (s : Storage) : Storage :=
  set_ref_container
    (λ m, match m !! container_id with
          | None => <[container_id := 1%N]> m
          | Some r => <[container_id := uwrap 32 (r + 1)]> m
          end) s.

Definition defer (container_id : string) (s : Storage) : Storage :=
  set_ref_container (delete container_id) s.

(** ** Mount predicates *)
Definition DEV_SHM : string := "/dev/shm".

Definition is_bind (m : Mount) : bool :=
  bool_decide (m_type m = "bind") && negb (bool_decide (m_source m = "")).
Definition is_bind_shm (m : Mount) : bool :=
  is_bind m && bool_decide (m_destination m = DEV_SHM).
Definition is_overlay (m : Mount) : bool := bool_decide (m_type m = "overlay").

Definition is_propagation_option (o : string) : bool :=
  bool_decide (o ∈ ["shared"; "rshared"; "slave"; "rslave"; "private"; "rprivate";
                    "unbindable"; "runbindable"]).

Definition extract_lower_dirs (options : list string) : option string :=
  o ← find_first (λ o, starts_with o "lowerdir=") options;
  Some (trim_start_matches "lowerdir=" o).

(** ** Device graph *)
Definition source_identity_for_mount (m : Mount) : option string :=
  match extract_lower_dirs (m_options m) with
  | Some lower => Some ("overlay:" +:+ lower)
  | None =>
      if bool_decide (m_source m = "") then None
      else Some (m_type m +:+ ":" +:+ m_source m)
  end.

Definition storage_matches_mount (s : Storage) (m : Mount) (is_rootfs_mount : bool) : bool :=
  match source_identity s, source_identity_for_mount m with
  | Some si, Some ri => bool_decide (si = ri) && bool_decide (s_type s = m_type m)
  | _, _ =>
      if negb is_rootfs_mount && is_for_mount s m then true
      else match lower_dirs s, extract_lower_dirs (m_options m) with
           | Some sl, Some rl => bool_decide (sl = rl) && bool_decide (s_type s = m_type m)
           | _, _ => false
           end
  end.

Definition find_reusable_storage_index (storages : list Storage) (m : Mount) (rootfs : bool)
  : option nat :=
  position (λ s, storage_matches_mount s m rootfs) storages.

Section orphan.
Context `{HashOrder}.

(** First matching storage that some orphan container references, with the
    first such container in the iteration order of the map. *)
Fixpoint find_orphan_for_mount (storages : list Storage) (orphans : list string)
    (m : Mount) (rootfs : bool) : option (string * string) :=
  match storages with
  | [] => None
  | s :: rest =>
      if storage_matches_mount s m rootfs then
        match find_first (λ c, bool_decide (c ∈ orphans)) (hash_keys (ref_container s)) with
        | Some c => Some (c, s_id s)
        | None => find_orphan_for_mount rest orphans m rootfs
        end
      else find_orphan_for_mount rest orphans m rootfs
  end.
End orphan.

(** ** Reference counts *)

(** No container holds more than [u32_max] references and neither do all of
    them together. *)
Definition refs_sum (m : gmap string N) : N := map_fold (λ _ v acc, acc + v)%N 0%N m.
Definition refs_pos (m : gmap string N) : Prop := map_Forall (λ _ v, 0 < v)%N m.

Lemma refs_sum_insert_new m c v :
  m !! c = None → refs_sum (<[c := v]> m) = (refs_sum m + v)%N.
Proof.
  intros Hc. unfold refs_sum. rewrite map_fold_insert_L; [done| |done]. intros. lia.
Qed.

Lemma refs_sum_delete m c v : m !! c = Some v → refs_sum m = (refs_sum (delete c m) + v)%N.
Proof.
  intros Hc. rewrite <- (insert_delete_id m c v Hc) at 1.
  apply refs_sum_insert_new. apply lookup_delete_eq.
Qed.

Lemma ref_count_wrap s : ref_count s = uwrap 32 (refs_sum (ref_container s)).
Proof.
  unfold ref_count, refs_sum. destruct s as [? ? ? ? m]; simpl. clear.
  induction m as [|c v m Hc IH] using map_ind; [done|].
  rewrite !map_fold_insert_L; try done; try (intros; lia).
  - rewrite IH. by rewrite uwrap_add_l.
  - intros. autorewrite with kuasar. f_equal. lia.
Qed.

Lemma refs_sum_zero m : refs_pos m → refs_sum m = 0%N ↔ m = ∅.
Proof.
  intros Hp. split; [|by intros ->]. intros H0. apply map_empty. intros c.
  destruct (m !! c) as [v|] eqn:E; [|done].
  pose proof (refs_sum_delete m c v E). specialize (Hp c v E). simpl in Hp. lia.
Qed.

Lemma refer_ref_container c s :
  ref_container (refer c s) =
  <[c := uwrap 32 (default 0 (ref_container s !! c) + 1)%N]> (ref_container s).
Proof. destruct s as [? ? ? ? m]; simpl. by destruct (m !! c). Qed.

Lemma refer_lookup_ne c c' s :
  c ≠ c' → ref_container (refer c s) !! c' = ref_container s !! c'.
Proof. intros. rewrite refer_ref_container. by rewrite lookup_insert_ne. Qed.
