(* ===== verification/Types.v ===== *)
(** * Template types

    [vmm/sandbox/src/template/types.rs], the lease and memory modes of
    [vmm/sandbox/src/sandbox.rs], and the disk-image and injection-target
    records of [vmm/sandbox/src/vm.rs]. *)
From S2P Require Import Prelude Strs Storage.

(** ** Snapshot type *)
Inductive SnapshotType := Environment | WarmFork | Continuation.

#[global] Instance SnapshotType_eq_dec : EqDecision SnapshotType.
Proof. solve_decision. Defined.

(** [#[serde(rename_all = "snake_case")]] of [Serialize]. *)
Definition SnapshotType_serialize (t : SnapshotType) : string :=
  match t with
  | Environment => "environment"
  | WarmFork => "warm_fork"
  | Continuation => "continuation"
  end.

Definition SnapshotType_deserialize (s : string) : option SnapshotType :=
  if bool_decide (s = "environment") then Some Environment
  else if bool_decide (s = "warm_fork") then Some WarmFork
  else if bool_decide (s = "continuation") then Some Continuation
  else None.

Definition from_annotation (value : string) : option SnapshotType :=
  if bool_decide (value = "warm-fork") || bool_decide (value = "warm_fork") then Some WarmFork
  else if bool_decide (value = "continuation") then Some Continuation
  else None.

Definition requires_network_hotplug (t : SnapshotType) : bool :=
  match t with Environment | WarmFork => true | Continuation => false end.

(** ** Lease and memory modes *)
Inductive TemplateLeaseMode := Shared | Exclusive.

#[global] Instance TemplateLeaseMode_eq_dec : EqDecision TemplateLeaseMode.
Proof. solve_decision. Defined.

Definition TemplateLeaseMode_fmt (m : TemplateLeaseMode) : string :=
  match m with Shared => "shared" | Exclusive => "exclusive" end.

Inductive MemoryRestoreMode := Copy | OnDemand | FileBackend | ExternalUffd.

#[global] Instance MemoryRestoreMode_eq_dec : EqDecision MemoryRestoreMode.
Proof. solve_decision. Defined.

(** The derived [Serialize] writes the variant name. *)
Definition MemoryRestoreMode_serialize (m : MemoryRestoreMode) : string :=
  match m with
  | Copy => "Copy"
  | OnDemand => "OnDemand"
  | FileBackend => "FileBackend"
  | ExternalUffd => "ExternalUffd"
  end.

Definition MemoryRestoreMode_deserialize (s : string) : option MemoryRestoreMode :=
  let s := to_ascii_lowercase s in
  if bool_decide (s = "copy") then Some Copy
  else if bool_decide (s = "ondemand") then Some OnDemand
  else if bool_decide (s = "filebackend") then Some FileBackend
  else if bool_decide (s = "externaluffd") then Some ExternalUffd
  else None.

(** ** Keys and identities *)
Record WorkloadIdentity := mkIdentity { pod_uid : string; generation : N }.

#[global] Instance WorkloadIdentity_eq_dec : EqDecision WorkloadIdentity.
Proof. solve_decision. Defined.

Record TemplateKey := mkKey { key : string }.

#[global] Instance TemplateKey_eq_dec : EqDecision TemplateKey.
Proof. solve_decision. Defined.
#[global] Instance TemplateKey_countable : Countable TemplateKey.
Proof. apply (inj_countable' key mkKey). by intros []. Defined.

Definition from_vm_config (kernel_path image_path : string) (vcpus memory_mb : N)
    (kernel_params storage_backend : string) : TemplateKey :=
  mkKey (kernel_path +:+ ":" +:+ image_path +:+ ":" +:+ pretty vcpus +:+ ":"
         +:+ pretty memory_mb +:+ ":" +:+ kernel_params +:+ ":" +:+ storage_backend).

Definition user (k : string) : TemplateKey := mkKey k.

Definition from_workload_identity (uid : string) (gen : N) : TemplateKey :=
  mkKey (uid +:+ ":" +:+ pretty gen).

(** ** Templates *)
Record SnapshotContainerMeta := mkContainerMeta {
  cm_id : string;
  cm_lower_dirs : string;
  cm_storage_id : string;
  cm_device_id : string;
  cm_img_path : string
}.

Record DiskImageEntry := mkDiskImage {
  di_storage_id : string;
  di_device_id : string;
  di_filename : string
}.

Record WarmForkTarget := mkTarget {
  container_name : string;
  container_id : string;
  socket_path : string;
  env_overrides : gmap string string;
  context : string
}.

Record WarmForkParams := mkParams {
  task_id : option string;
  targets : list WarmForkTarget;
  prepare_timeout_ms : N;
  commit_timeout_ms : N
}.

Record PooledTemplate := mkTemplate {
  pt_id : string;
  pt_key : TemplateKey;
  snapshot_dir : string;
  pmem_path : string;
  kernel_path : string;
  vcpus : N;
  memory_mb : N;
  created_at_secs : N;
  original_task_vsock : string;
  original_console_path : string;
  hypervisor_api_version : string;
  snapshot_type : SnapshotType;
  id_generator : N;
  disk_images : list DiskImageEntry;
  storages : list Storage;
  orphan_container_ids : list string;
  snapshot_containers : list SnapshotContainerMeta;
  ready_protocol_version : option string;
  workload_identity : option WorkloadIdentity;
  warm_fork_targets : list WarmForkTarget
}.

(** [PooledTemplate::new] with the clock reading as an argument. *)
Definition PooledTemplate_new (now : N) (id : string) (k : TemplateKey)
    (dir pmem kernel : string) (cpus mem : N) (vsock console : string) : PooledTemplate :=
  {| pt_id := id; pt_key := k; snapshot_dir := dir; pmem_path := pmem; kernel_path := kernel;
     vcpus := cpus; memory_mb := mem; created_at_secs := now; original_task_vsock := vsock;
     original_console_path := console; hypervisor_api_version := "";
     snapshot_type := Environment; id_generator := 0; disk_images := []; storages := [];
     orphan_container_ids := []; snapshot_containers := []; ready_protocol_version := None;
     workload_identity := None; warm_fork_targets := [] |}.

Definition set_snapshot_type (ty : SnapshotType) (t : PooledTemplate) : PooledTemplate :=
  {| pt_id := pt_id t; pt_key := pt_key t; snapshot_dir := snapshot_dir t;
     pmem_path := pmem_path t; kernel_path := kernel_path t; vcpus := vcpus t;
     memory_mb := memory_mb t; created_at_secs := created_at_secs t;
     original_task_vsock := original_task_vsock t;
     original_console_path := original_console_path t;
     hypervisor_api_version := hypervisor_api_version t; snapshot_type := ty;
     id_generator := id_generator t; disk_images := disk_images t; storages := storages t;
     orphan_container_ids := orphan_container_ids t;
     snapshot_containers := snapshot_containers t;
     ready_protocol_version := ready_protocol_version t;
     workload_identity := workload_identity t; warm_fork_targets := warm_fork_targets t |}.

(** ** Serialized templates

    [serde_json] is a third-party package: what the store relies on is that a
    serialized template parses back to itself. *)
Class TemplateCodec := {
  Json : Type;
  to_json : PooledTemplate → Json;
  from_json : Json → option PooledTemplate;
  json_roundtrip : ∀ t, from_json (to_json t) = Some t
}.

(** A codec, with a value that does not parse. *)
Definition plain_codec : TemplateCodec := {|
  Json := option PooledTemplate;
  to_json := Some;
  from_json j := j;
  json_roundtrip t := eq_refl
|}.

(** ** Properties *)

Lemma snapshot_type_roundtrip t :
  SnapshotType_deserialize (SnapshotType_serialize t) = Some t.
Proof. by destruct t. Qed.

Lemma memory_mode_roundtrip m :
  MemoryRestoreMode_deserialize (MemoryRestoreMode_serialize m) = Some m.
Proof. by destruct m. Qed.

Lemma pretty_no_colon (n : N) : contains_char (pretty n) ":"%char = false.
Proof. by apply pretty_no_char. Qed.
#[export] Hint Resolve pretty_no_colon : kuasar.

(** The key of a continuation snapshot determines the workload identity:
    two different (pod UID, generation) pairs never share a key, whatever
    characters the pod UID has. *)
Theorem workload_key_injective uid gen uid' gen' :
  from_workload_identity uid gen = from_workload_identity uid' gen' ↔ uid = uid' ∧ gen = gen'.
Proof.
  split; [|by intros [-> ->]]. unfold from_workload_identity. intros [= E].
  apply app_sep_inj_r in E as [-> E]; auto with kuasar.
  split; [done|]. by apply (inj pretty).
Qed.

(** The key of a bare-VM template determines every parameter it is built
    from, provided the kernel path, the image path and the storage backend have
    no colon. Kernel parameters may have colons: they are delimited on both
    sides. *)
Theorem vm_config_key_injective k i c m p b k' i' c' m' p' b' :
  contains_char k ":"%char = false → contains_char k' ":"%char = false →
  contains_char i ":"%char = false → contains_char i' ":"%char = false →
  contains_char b ":"%char = false → contains_char b' ":"%char = false →
  from_vm_config k i c m p b = from_vm_config k' i' c' m' p' b' →
  k = k' ∧ i = i' ∧ c = c' ∧ m = m' ∧ p = p' ∧ b = b'.
Proof.
  intros Hk Hk' Hi Hi' Hb Hb'. unfold from_vm_config. intros [= E].
  apply app_sep_inj in E as [-> E]; [|done..].
  apply app_sep_inj in E as [-> E]; [|done..].
  apply app_sep_inj in E as [Ec%(inj pretty) E]; auto with kuasar.
  apply app_sep_inj in E as [Em%(inj pretty) E]; auto with kuasar.
  apply app_sep_inj_r in E as [-> ->]; [|done..]. done.
Qed.

Lemma vm_config_key_injective_witness :
  from_vm_config "/k" "/i" 2 512 "a:b" "virtio-blk" ≠ from_vm_config "/k" "/i" 2 512 "a" "virtio-blk".
Proof.
  intros E. apply (vm_config_key_injective "/k" "/i" 2 512 "a:b" "virtio-blk"
    "/k" "/i" 2 512 "a" "virtio-blk") in E as (_ & _ & _ & _ & E & _); done.
Defined.

(** A colon in the image path breaks the delimiting: two configurations that
    differ in every path have one key. *)
Lemma vm_config_key_collision :
  from_vm_config "/k" "/i:2" 3 4 "p" "b" = from_vm_config "/k" "/i" 2 3 "4:p" "b".
Proof. reflexivity. Qed.
