(* ===== verification/Metrics.v ===== *)
(** * Pool metrics

    [vmm/sandbox/src/template/metrics.rs]: fifteen [AtomicU64] counters,
    updated with wrapping [fetch_add]. The [f64] rates derived from them are
    not modelled. *)
From S2P Require Import Prelude.
Local Open Scope N_scope.

Record TemplateMetrics := mkMetrics {
  templates_created : N;
  total_starts : N;
  pool_hits : N;
  pool_misses : N;
  restore_total_ms : N;
  restore_count : N;
  environment_hits : N;
  warmfork_hits : N;
  continuation_hits : N;
  environment_restore_ms : N;
  warmfork_restore_ms : N;
  continuation_restore_ms : N;
  environment_restore_count : N;
  warmfork_restore_count : N;
  continuation_restore_count : N
}.

Definition metrics_default : TemplateMetrics := mkMetrics 0 0 0 0 0 0 0 0 0 0 0 0 0 0 0.

Definition fetch_add (c d : N) : N := uwrap 64 (c + d).

Definition record_environment_hit (ms : N) (x : TemplateMetrics) : TemplateMetrics :=
  {| templates_created := templates_created x;
     total_starts := fetch_add (total_starts x) 1;
     pool_hits := fetch_add (pool_hits x) 1;
     pool_misses := pool_misses x;
     restore_total_ms := fetch_add (restore_total_ms x) ms;
     restore_count := fetch_add (restore_count x) 1;
     environment_hits := fetch_add (environment_hits x) 1;
     warmfork_hits := warmfork_hits x;
     continuation_hits := continuation_hits x;
     environment_restore_ms := fetch_add (environment_restore_ms x) ms;
     warmfork_restore_ms := warmfork_restore_ms x;
     continuation_restore_ms := continuation_restore_ms x;
     environment_restore_count := fetch_add (environment_restore_count x) 1;
     warmfork_restore_count := warmfork_restore_count x;
     continuation_restore_count := continuation_restore_count x |}.

Definition record_warmfork_hit (ms : N) (x : TemplateMetrics) : TemplateMetrics :=
  {| templates_created := templates_created x;
     total_starts := fetch_add (total_starts x) 1;
     pool_hits := fetch_add (pool_hits x) 1;
     pool_misses := pool_misses x;
     restore_total_ms := fetch_add (restore_total_ms x) ms;
     restore_count := fetch_add (restore_count x) 1;
     environment_hits := environment_hits x;
     warmfork_hits := fetch_add (warmfork_hits x) 1;
     continuation_hits := continuation_hits x;
     environment_restore_ms := environment_restore_ms x;
     warmfork_restore_ms := fetch_add (warmfork_restore_ms x) ms;
     continuation_restore_ms := continuation_restore_ms x;
     environment_restore_count := environment_restore_count x;
     warmfork_restore_count := fetch_add (warmfork_restore_count x) 1;
     continuation_restore_count := continuation_restore_count x |}.

Definition record_continuation_hit (ms : N) (x : TemplateMetrics) : TemplateMetrics :=
  {| templates_created := templates_created x;
     total_starts := fetch_add (total_starts x) 1;
     pool_hits := fetch_add (pool_hits x) 1;
     pool_misses := pool_misses x;
     restore_total_ms := fetch_add (restore_total_ms x) ms;
     restore_count := fetch_add (restore_count x) 1;
     environment_hits := environment_hits x;
     warmfork_hits := warmfork_hits x;
     continuation_hits := fetch_add (continuation_hits x) 1;
     environment_restore_ms := environment_restore_ms x;
     warmfork_restore_ms := warmfork_restore_ms x;
     continuation_restore_ms := fetch_add (continuation_restore_ms x) ms;
     environment_restore_count := environment_restore_count x;
     warmfork_restore_count := warmfork_restore_count x;
     continuation_restore_count := fetch_add (continuation_restore_count x) 1 |}.

Definition record_miss (x : TemplateMetrics) : TemplateMetrics :=
  {| templates_created := templates_created x;
     total_starts := fetch_add (total_starts x) 1;
     pool_hits := pool_hits x;
     pool_misses := fetch_add (pool_misses x) 1;
     restore_total_ms := restore_total_ms x;
     restore_count := restore_count x;
     environment_hits := environment_hits x;
     warmfork_hits := warmfork_hits x;
     continuation_hits := continuation_hits x;
     environment_restore_ms := environment_restore_ms x;
     warmfork_restore_ms := warmfork_restore_ms x;
     continuation_restore_ms := continuation_restore_ms x;
     environment_restore_count := environment_restore_count x;
     warmfork_restore_count := warmfork_restore_count x;
     continuation_restore_count := continuation_restore_count x |}.

Definition record_template_created (x : TemplateMetrics) : TemplateMetrics :=
  {| templates_created := fetch_add (templates_created x) 1;
     total_starts := total_starts x;
     pool_hits := pool_hits x;
     pool_misses := pool_misses x;
     restore_total_ms := restore_total_ms x;
     restore_count := restore_count x;
     environment_hits := environment_hits x;
     warmfork_hits := warmfork_hits x;
     continuation_hits := continuation_hits x;
     environment_restore_ms := environment_restore_ms x;
     warmfork_restore_ms := warmfork_restore_ms x;
     continuation_restore_ms := continuation_restore_ms x;
     environment_restore_count := environment_restore_count x;
     warmfork_restore_count := warmfork_restore_count x;
     continuation_restore_count := continuation_restore_count x |}.

(** The calls a metrics object receives. *)
Inductive MetricsEvent :=
  | EnvironmentHit (ms : N)
  | WarmforkHit (ms : N)
  | ContinuationHit (ms : N)
  | Miss
  | TemplateCreated.

Definition record (e : MetricsEvent) : TemplateMetrics → TemplateMetrics :=
  match e with
  | EnvironmentHit ms => record_environment_hit ms
  | WarmforkHit ms => record_warmfork_hit ms
  | ContinuationHit ms => record_continuation_hit ms
  | Miss => record_miss
  | TemplateCreated => record_template_created
  end.

Definition record_all (es : list MetricsEvent) : TemplateMetrics :=
  foldl (λ x e, record e x) metrics_default es.

(** The counters are consistent with one another, modulo the register width. *)
Record metrics_ok (x : TemplateMetrics) : Prop := {
  ok_starts : total_starts x = uwrap 64 (pool_hits x + pool_misses x);
  ok_hits : pool_hits x = uwrap 64 (environment_hits x + warmfork_hits x + continuation_hits x);
  ok_count : restore_count x = pool_hits x;
  ok_ms : restore_total_ms x =
    uwrap 64 (environment_restore_ms x + warmfork_restore_ms x + continuation_restore_ms x);
  ok_env : environment_restore_count x = environment_hits x;
  ok_wf : warmfork_restore_count x = warmfork_hits x;
  ok_cont : continuation_restore_count x = continuation_hits x
}.

Lemma uwrap_add3 w a b c : uwrap w (uwrap w a + b + uwrap w c) = uwrap w (a + b + c).
Proof.
  replace (uwrap w a + b + uwrap w c) with (uwrap w a + (b + uwrap w c)) by lia.
  rewrite uwrap_add_l. replace (a + (b + uwrap w c)) with (a + b + uwrap w c) by lia.
  by rewrite uwrap_add_r.
Qed.

(** Both sides of a counter equation are pushed under one [uwrap]. *)
Ltac metrics_eq :=
  unfold fetch_add in *; simpl in *;
  repeat first [rewrite uwrap_add_l | rewrite uwrap_add_r];
  repeat match goal with
  | |- context [uwrap ?w (?a + ?b + uwrap ?w ?c)] => rewrite (uwrap_add_r w (a + b) c)
  | |- context [uwrap ?w (uwrap ?w ?a + ?b + ?c)] =>
      replace (uwrap w a + b + c) with (uwrap w a + (b + c)) by lia; rewrite (uwrap_add_l w a)
  | |- context [uwrap ?w (?a + uwrap ?w ?b + ?c)] =>
      replace (a + uwrap w b + c) with (uwrap w b + (a + c)) by lia; rewrite (uwrap_add_l w b)
  end;
  try done; try (f_equal; lia).

Lemma record_preserves_ok e x : metrics_ok x → metrics_ok (record e x).
Proof.
  intros [H1 H2 H3 H4 H5 H6 H7].
  destruct e; split; simpl; try congruence;
    rewrite ?H1, ?H2, ?H3, ?H4, ?H5, ?H6, ?H7; metrics_eq.
Qed.

(** After any sequence of calls the counters agree modulo 2^64: starts are
    hits plus misses, hits are the sum of the per-kind hits, every hit recorded
    one restore latency, and the overall latency is the sum of the per-kind
    latencies. *)
Theorem metrics_consistent es : metrics_ok (record_all es).
Proof.
  unfold record_all. cut (∀ x, metrics_ok x → metrics_ok (foldl (λ x e, record e x) x es)).
  { intros H. apply H. by split. }
  induction es as [|e es IH]; intros x Hx; simpl; [done|].
  apply IH. by apply record_preserves_ok.
Qed.
