(* ===== verification/Disk.v ===== *)
(** * The template store on disk

    The template pool keeps one directory per template under
    [{store_dir}/environment/{id}] or [{store_dir}/warmfork/{id}] with a
    [pooled_template.json] and, once the template is consumed, a [consumed]
    marker. This file models those directories and the file-system calls of
    [template/pool.rs] and [template/types.rs] on them.

    Every call asks the environment for an outcome: [IoOk], where the call
    does what the file-system state allows, or [IoFault], where it fails with
    an error other than [NotFound]. A failing [remove_dir_all] leaves any part
    of the directory ([keep_meta], [keep_marker]); a failing marker write
    leaves the marker behind or not ([keep_marker]: the file was created but
    [sync_all] failed). Theorems quantify over all outcome lists. *)
From S2P Require Import Prelude Strs Storage Types.

Inductive Subdir := sub_environment | sub_warmfork.

#[global] Instance Subdir_eq_dec : EqDecision Subdir.
Proof. solve_decision. Defined.
#[global] Instance Subdir_countable : Countable Subdir.
Proof.
  apply (inj_countable' (λ s, match s with sub_environment => true | sub_warmfork => false end)
           (λ b : bool, if b then sub_environment else sub_warmfork)). by intros [].
Defined.

(** [{store_dir}/{subdir}/{id}]; template ids are single path components. *)
Abbreviation DirKey := (Subdir * string)%type.

Record Dir `{TemplateCodec} := mkDir {
  d_meta : option Json;
  d_consumed : bool
}.

Arguments mkDir {_} _ _.

Inductive IoOut := IoOk | IoFault (keep_meta keep_marker : bool).

Inductive IoError := NotFound | OtherIo.

#[global] Instance IoError_eq_dec : EqDecision IoError.
Proof. solve_decision. Defined.

(** ** The state a pool operation works on *)
Record World `{TemplateCodec} := mkWorld {
  (** [TemplatePool::available] *)
  avail : gmap TemplateKey (list PooledTemplate);
  (** [in_flight_refills] *)
  refills : gmap TemplateKey nat;
  (** [in_flight_restores] *)
  restores : gmap string nat;
  (** [in_use_count] *)
  in_use : gmap string nat;
  (** the version of the [template_ready] watch channel *)
  ready : N;
  disk : gmap DirKey Dir;
  (** outcomes of the I/O calls to come; [IoOk] when it is empty *)
  io : list IoOut
}.

Arguments mkWorld {_} _ _ _ _ _ _ _.

Section disk.
Context `{TemplateCodec}.

Definition set_avail (f : gmap TemplateKey (list PooledTemplate) → gmap TemplateKey (list PooledTemplate))
    (w : World) : World :=
  mkWorld (f (avail w)) (refills w) (restores w) (in_use w) (ready w) (disk w) (io w).
Definition set_refills (f : gmap TemplateKey nat → gmap TemplateKey nat) (w : World) : World :=
  mkWorld (avail w) (f (refills w)) (restores w) (in_use w) (ready w) (disk w) (io w).
Definition set_restores (f : gmap string nat → gmap string nat) (w : World) : World :=
  mkWorld (avail w) (refills w) (f (restores w)) (in_use w) (ready w) (disk w) (io w).
Definition set_in_use (f : gmap string nat → gmap string nat) (w : World) : World :=
  mkWorld (avail w) (refills w) (restores w) (f (in_use w)) (ready w) (disk w) (io w).
Definition set_ready (f : N → N) (w : World) : World :=
  mkWorld (avail w) (refills w) (restores w) (in_use w) (f (ready w)) (disk w) (io w).
Definition set_disk (f : gmap DirKey Dir → gmap DirKey Dir) (w : World) : World :=
  mkWorld (avail w) (refills w) (restores w) (in_use w) (ready w) (f (disk w)) (io w).
Definition set_io (l : list IoOut) (w : World) : World :=
  mkWorld (avail w) (refills w) (restores w) (in_use w) (ready w) (disk w) l.

Definition io_next : M World IoOut := λ w,
  match io w with [] => Some (IoOk, w) | o :: l => Some (o, set_io l w) end.

(** ** File-system calls *)
Definition create_dir_all (d : DirKey) : M World (result unit IoError) :=
  o ← io_next;
  match o with
  | IoOk => modify (set_disk (λ m, match m !! d with
                                   | Some _ => m
                                   | None => <[d := mkDir None false]> m
                                   end));; mret (Ok tt)
  | IoFault _ _ => mret (Err OtherIo)
  end.

Definition remove_dir_all (d : DirKey) : M World (result unit IoError) :=
  o ← io_next;
  m ← gets disk;
  match o with
  | IoOk => match m !! d with
            | None => mret (Err NotFound)
            | Some _ => modify (set_disk (delete d));; mret (Ok tt)
            end
  | IoFault km kc =>
      modify (set_disk (alter (λ x, mkDir (if km then d_meta x else None)
                                            (kc && d_consumed x)) d));;
      mret (Err OtherIo)
  end.

(** [TemplatePool::write_consumed_marker] on [{dir}/consumed] *)
Definition write_consumed_marker (d : DirKey) : M World (result unit IoError) :=
  o ← io_next;
  m ← gets disk;
  match o with
  | IoOk => match m !! d with
            | None => mret (Err NotFound)
            | Some x => modify (set_disk (insert d (mkDir (d_meta x) true)));; mret (Ok tt)
            end
  | IoFault _ kc =>
      modify (set_disk (alter (λ x, mkDir (d_meta x) (kc || d_consumed x)) d));;
      mret (Err OtherIo)
  end.

(** [tokio::fs::remove_file] on [{dir}/consumed] *)
Definition remove_marker (d : DirKey) : M World (result unit IoError) :=
  o ← io_next;
  m ← gets disk;
  match o with
  | IoOk => match m !! d with
            | Some (mkDir j true) =>
                modify (set_disk (insert d (mkDir j false)));; mret (Ok tt)
            | _ => mret (Err NotFound)
            end
  | IoFault _ _ => mret (Err OtherIo)
  end.

(** [tokio::fs::try_exists] on [{dir}/consumed] *)
Definition marker_exists (d : DirKey) : M World (result bool IoError) :=
  o ← io_next;
  m ← gets disk;
  match o with
  | IoOk => mret (Ok (match m !! d with Some x => d_consumed x | None => false end))
  | IoFault _ _ => mret (Err OtherIo)
  end.

(** [Path::exists] on a template directory: an error counts as absent. *)
Definition dir_exists (d : DirKey) : M World bool :=
  o ← io_next;
  m ← gets disk;
  match o with
  | IoOk => mret (match m !! d with Some _ => true | None => false end)
  | IoFault _ _ => mret false
  end.

(** [PooledTemplate::save]: [write_file_atomic] replaces the file or leaves
    it as it was. *)
Definition save (t : PooledTemplate) (d : DirKey) : M World (result unit IoError) :=
  o ← io_next;
  m ← gets disk;
  match o, m !! d with
  | IoOk, Some x =>
      modify (set_disk (insert d (mkDir (Some (to_json t)) (d_consumed x))));; mret (Ok tt)
  | IoOk, None => mret (Err NotFound)
  | IoFault _ _, _ => mret (Err OtherIo)
  end.

(** [PooledTemplate::load] *)
Definition load (d : DirKey) : M World (result PooledTemplate IoError) :=
  o ← io_next;
  m ← gets disk;
  match o with
  | IoOk =>
      match m !! d with
      | Some (mkDir (Some j) _) =>
          match from_json j with Some t => mret (Ok t) | None => mret (Err OtherIo) end
      | _ => mret (Err NotFound)
      end
  | IoFault _ _ => mret (Err OtherIo)
  end.
End disk.
