(* ===== verification/Pool.v ===== *)
(** * The template pool

    [vmm/sandbox/src/template/pool.rs]: every operation of [TemplatePool] and
    [TemplateLease]. Each operation is one [M World] computation; a lock scope
    of the source is one read or one update of the state, and the I/O between
    the scopes is the calls of [Disk]. Interleavings of the scopes of several
    operations are the subject of [PoolConc]. [usize] counters count live
    leases and refills and are [nat]. *)
From S2P Require Import Prelude Strs Storage Types Disk.

(** The immutable fields of [TemplatePool]. *)
Record PoolConfig := mkPoolConfig {
  environment_max_per_key : nat;
  warmfork_max_per_key : nat;
  gc_watermark : nat;
  lease_mode : TemplateLeaseMode;
  reflink_supported : bool
}.

(** Why [add], [remove_by_id] and the scans fail. *)
Inductive PoolError :=
  | CreateDirFailed
  | WatermarkEvictFailed (id : string)
  | WatermarkExceeded
  | MaxPerKeyExceeded (id : string)
  | EvictFailed (id : string)
  | SaveFailed
  | KindMismatch
  | BeingRestored
  | InUse
  | RemoveDirFailed.

#[global] Instance PoolError_eq_dec : EqDecision PoolError.
Proof. solve_decision. Defined.

Section pool.
Context `{TemplateCodec} `{HashOrder} (cfg : PoolConfig).

(** ** Paths and queues *)
Definition template_dir (t : PooledTemplate) : option DirKey :=
  match snapshot_type t with
  | Environment => Some (sub_environment, pt_id t)
  | WarmFork => Some (sub_warmfork, pt_id t)
  | Continuation => None
  end.

(** [unreachable!] when the pool meets a Continuation template. *)
Definition dir_of (t : PooledTemplate) : M World DirKey :=
  match template_dir t with Some d => mret d | None => panic end.

Definition find_template_dir (id : string) : M World DirKey :=
  e ← dir_exists (sub_environment, id);
  if e : bool then mret (sub_environment, id) else
  f ← dir_exists (sub_warmfork, id);
  mret (if f : bool then (sub_warmfork, id) else (sub_environment, id)).

(** [available.values().flat_map(|q| q.iter())] *)
Definition all_templates (m : gmap TemplateKey (list PooledTemplate)) : list PooledTemplate :=
  mjoin (hash_values m).

(** [map.entry(key).or_default().push_back(tmpl)] *)
Definition push_back (t : PooledTemplate) (m : gmap TemplateKey (list PooledTemplate)) :=
  <[pt_key t := default [] (m !! pt_key t) ++ [t]]> m.

(** [values_mut().for_each(|q| q.retain(|t| t.id != id))] *)
Definition unlist (id : string) (m : gmap TemplateKey (list PooledTemplate)) :=
  retain (λ t, negb (bool_decide (pt_id t = id))) <$> m.

Definition total_depth (w : World) : nat := nat_sum (length <$> hash_values (avail w)).
Definition depth (k : TemplateKey) (w : World) : nat :=
  match avail w !! k with Some q => length q | None => 0 end.
Definition key_count (w : World) : nat :=
  length (retain (λ q, negb (bool_decide (length q = 0))) (hash_values (avail w))).

Definition depth_by_key (w : World) : list (string * nat) :=
  (λ p, (key p.1, length p.2)) <$>
    retain (λ p, negb (bool_decide (length p.2 = 0))) (hash_iter (avail w)).

Definition depth_by_type (w : World) : list (string * nat) :=
  let count ty := length (retain (λ t, bool_decide (snapshot_type t = ty)) (all_templates (avail w))) in
  [("environment", count Environment); ("warm_fork", count WarmFork)].

Definition restoring (w : World) (id : string) : bool := bool_decide (is_Some (restores w !! id)).
Definition referenced (w : World) (id : string) : bool := bool_decide (is_Some (in_use w !! id)).

(** ** [add] *)

(** The eligibility test of the water-level scan; [None] is [unreachable!]. *)
Definition watermark_evictable (w : World) (t : PooledTemplate) : option bool :=
  if restoring w (pt_id t) then Some false else
  match snapshot_type t with
  | Environment => Some (negb (referenced w (pt_id t)))
  | WarmFork => Some (bool_decide (lease_mode cfg = Shared) && negb (referenced w (pt_id t)))
  | Continuation => None
  end.

Definition older (t : PooledTemplate) (c : option PooledTemplate) : bool :=
  match c with None => true | Some o => (created_at_secs t <? created_at_secs o)%N end.

Fixpoint oldest_candidate (w : World) (c : option PooledTemplate) (l : list PooledTemplate)
  : option (option PooledTemplate) :=
  match l with
  | [] => Some c
  | t :: l' =>
      b ← watermark_evictable w t;
      oldest_candidate w (if (b && older t c)%bool then Some t else c) l'
  end.

(** Step 1: the total is at the water level; evict the oldest idle template
    or give up. [d] is the directory of the template being added. *)
Definition watermark_step (d : DirKey) : M World (result unit PoolError) :=
  w ← gets id;
  match oldest_candidate w None (all_templates (avail w)) with
  | None => panic
  | Some (Some c) =>
      old ← dir_of c;
      r ← remove_dir_all old;
      match r with
      | Err _ => _ ← remove_dir_all d; mret (Err (WatermarkEvictFailed (pt_id c)))
      | Ok _ => modify (set_avail (unlist (pt_id c)));; mret (Ok tt)
      end
  | Some None => _ ← remove_dir_all d; mret (Err WatermarkExceeded)
  end.

Definition kind_max (t : PooledTemplate) : option nat :=
  match snapshot_type t with
  | Environment => Some (environment_max_per_key cfg)
  | WarmFork => Some (warmfork_max_per_key cfg)
  | Continuation => None
  end.

(** The eviction decision of step 2: the oldest template of the key, and
    whether it may go. *)
Definition per_key_eviction (t : PooledTemplate) (kmax : nat) (w : World)
  : option (PooledTemplate * bool) :=
  q ← avail w !! pt_key t;
  if (kmax <=? length q)%nat then
    o ← head q;
    Some (o, negb (restoring w (pt_id o)) && negb (referenced w (pt_id o)))
  else None.

Definition per_key_step (t : PooledTemplate) (d : DirKey) : M World (result unit PoolError) :=
  match kind_max t with
  | None => panic
  | Some kmax =>
      ev ← gets (per_key_eviction t kmax);
      match ev with
      | None => mret (Ok tt)
      | Some (o, false) => _ ← remove_dir_all d; mret (Err (MaxPerKeyExceeded (pt_id o)))
      | Some (o, true) =>
          old ← dir_of o;
          r ← remove_dir_all old;
          match r with
          | Err _ => _ ← remove_dir_all d; mret (Err (EvictFailed (pt_id o)))
          | Ok _ =>
              modify (set_avail (alter (retain (λ x, negb (bool_decide (pt_id x = pt_id o)))) (pt_key t)));;
              mret (Ok tt)
          end
      end
  end.

Definition insert_step (t : PooledTemplate) (d : DirKey) : M World (result unit PoolError) :=
  r ← save t d;
  match r with
  | Err _ => mret (Err SaveFailed)
  | Ok _ =>
      modify (set_avail (push_back t));;
      modify (set_ready (λ v, uwrap 64 (v + 1)));;
      mret (Ok tt)
  end.

Definition add (t : PooledTemplate) : M World (result unit PoolError) :=
  d ← dir_of t;
  r ← create_dir_all d;
  match r with
  | Err _ => mret (Err CreateDirFailed)
  | Ok _ =>
      total ← gets total_depth;
      r1 ← (if (gc_watermark cfg <=? total)%nat then watermark_step d else mret (Ok tt));
      match r1 with
      | Err e => mret (Err e)
      | Ok _ =>
          r2 ← per_key_step t d;
          match r2 with
          | Err e => mret (Err e)
          | Ok _ => insert_step t d
          end
      end
  end.

(** ** Refills *)
Definition begin_refill (k : TemplateKey) : M World unit :=
  modify (set_refills (λ m, <[k := default 0 (m !! k) + 1]> m)).

Definition end_refill (k : TemplateKey) : M World unit :=
  modify (set_refills (λ m, match m !! k with
                            | Some c => if bool_decide (c - 1 = 0) then delete k m
                                        else <[k := c - 1]> m
                            | None => m
                            end));;
  modify (set_ready (λ v, uwrap 64 (v + 1))).

Definition in_flight_count_for_key (k : TemplateKey) (w : World) : nat :=
  default 0 (refills w !! k).
Definition in_flight_count (w : World) : nat := nat_sum (hash_values (refills w)).

(** ** Acquire and release *)

(** The epilogue shared by [acquire] and [acquire_by_id]: mark the removed
    template consumed, or put it back. *)
Definition consume (t : PooledTemplate) : M World (option PooledTemplate) :=
  d ← dir_of t;
  r ← write_consumed_marker d;
  match r with
  | Err _ => modify (set_avail (push_back t));; mret None
  | Ok _ => mret (Some t)
  end.

Definition acquire (k : TemplateKey) : M World (option PooledTemplate) :=
  m ← gets avail;
  match m !! k with
  | None => mret None
  | Some q =>
      match last q with
      | None => mret None
      | Some t => modify (set_avail (insert k (take (length q - 1) q)));; consume t
      end
  end.

(** The first queue, in iteration order, that has the id, with the position. *)
Fixpoint locate (id : string) (l : list (TemplateKey * list PooledTemplate))
  : option (TemplateKey * list PooledTemplate * nat * PooledTemplate) :=
  match l with
  | [] => None
  | (k, q) :: l' =>
      match position (λ t, bool_decide (pt_id t = id)) q with
      | Some i => t ← q !! i; Some (k, q, i, t)
      | None => locate id l'
      end
  end.

Definition acquire_by_id (id : string) : M World (option PooledTemplate) :=
  m ← gets avail;
  match locate id (hash_iter m) with
  | None => mret None
  | Some (k, q, i, t) => modify (set_avail (insert k (delete i q)));; consume t
  end.

Definition release (t : PooledTemplate) : M World unit :=
  d ← dir_of t;
  _ ← remove_marker d;
  modify (set_avail (push_back t)).

(** ** Shared leases *)
Definition bump (id : string) (m : gmap string nat) : gmap string nat :=
  <[id := default 0 (m !! id) + 1]> m.

Definition peek_latest (k : TemplateKey) (w : World) : option PooledTemplate :=
  q ← avail w !! k; last q.

Definition peek_with_ref (k : TemplateKey) : M World (option PooledTemplate) :=
  o ← gets (peek_latest k);
  match o with
  | None => mret None
  | Some t =>
      if bool_decide (lease_mode cfg = Shared)
      then modify (set_in_use (bump (pt_id t)));; mret (Some t)
      else mret None
  end.

Definition peek_latest_for_restore (k : TemplateKey) : M World (option PooledTemplate) :=
  o ← gets (peek_latest k);
  match o with
  | None => mret None
  | Some t => modify (set_restores (bump (pt_id t)));; mret (Some t)
  end.

Definition get_template (id : string) (w : World) : option PooledTemplate :=
  find_first (λ t, bool_decide (pt_id t = id)) (all_templates (avail w)).

Definition peek_by_id_for_restore (id : string) : M World (option PooledTemplate) :=
  o ← gets (get_template id);
  match o with
  | None => mret None
  | Some t => modify (set_restores (bump (pt_id t)));; mret (Some t)
  end.

Definition peek_by_id_with_ref (id : string) : M World (option PooledTemplate) :=
  o ← gets (get_template id);
  match o with
  | None => mret None
  | Some t =>
      if bool_decide (lease_mode cfg = Shared)
      then modify (set_in_use (bump (pt_id t)));; mret (Some t)
      else mret None
  end.

Definition ref_template (id : string) : M World unit := modify (set_in_use (bump id)).

Definition acquire_for_restore (k : TemplateKey) : M World (option PooledTemplate) :=
  o ← gets (peek_latest k);
  match o with
  | None => mret None
  | Some t =>
      match snapshot_type t with
      | Environment => peek_latest_for_restore k
      | WarmFork => if bool_decide (lease_mode cfg = Shared) then peek_with_ref k else acquire k
      | Continuation => panic
      end
  end.

Definition acquire_by_id_for_restore (id : string) : M World (option PooledTemplate) :=
  o ← gets (get_template id);
  match o with
  | None => mret None
  | Some t =>
      match snapshot_type t with
      | Environment => peek_by_id_for_restore id
      | WarmFork =>
          if bool_decide (lease_mode cfg = Shared) then peek_by_id_with_ref id else acquire_by_id id
      | Continuation => panic
      end
  end.

(** ** Garbage collection *)
Definition gc_candidate (w : World) (t : PooledTemplate) : bool :=
  negb (restoring w (pt_id t)) && negb (referenced w (pt_id t)) &&
  negb (bool_decide (snapshot_type t = WarmFork) && negb (bool_decide (lease_mode cfg = Shared))).

Definition by_age (t u : PooledTemplate) : bool := (created_at_secs t <=? created_at_secs u)%N.

(** One iteration of the deletion loops of [gc_if_needed] and
    [evict_by_kind]: the count goes up when the template is gone. *)
Definition evict_one (n : nat) (t : PooledTemplate) : M World nat :=
  d ← dir_of t;
  r ← remove_dir_all d;
  match r with
  | Err OtherIo => mret n
  | Err NotFound | Ok _ => modify (set_avail (unlist (pt_id t)));; mret (n + 1)
  end.

Definition gc_candidates (w : World) : list PooledTemplate :=
  sort_by by_age (retain (gc_candidate w) (all_templates (avail w))).

Definition gc_if_needed : M World unit :=
  w ← gets id;
  if (total_depth w <=? gc_watermark cfg)%nat then mret tt else
  _ ← foldM evict_one 0 (take (total_depth w - gc_watermark cfg) (gc_candidates w));
  mret tt.

Definition end_restore (id : string) : M World unit :=
  m ← gets restores;
  match m !! id with
  | Some (S c) =>
      if bool_decide (c = 0) then modify (set_restores (delete id));; gc_if_needed
      else modify (set_restores (insert id c))
  | _ => mret tt
  end.

Definition deref (id : string) : M World unit :=
  m ← gets in_use;
  match m !! id with
  | Some (S c) =>
      if bool_decide (c = 0) then modify (set_in_use (delete id));; gc_if_needed
      else modify (set_in_use (insert id c))
  | _ => mret tt
  end.

Definition rebuild_active_refs (shared pinned : list string) : M World unit :=
  modify (set_in_use (λ _, foldl (λ m id, bump id m) ∅ (shared ++ pinned))).

Definition evict_candidate (kind : SnapshotType) (w : World) (t : PooledTemplate) : option bool :=
  if (negb (bool_decide (snapshot_type t = kind)) || restoring w (pt_id t))%bool then Some false else
  match snapshot_type t with
  | Environment => Some (negb (referenced w (pt_id t)))
  | WarmFork => Some (negb (bool_decide (lease_mode cfg = Shared)) || negb (referenced w (pt_id t)))
  | Continuation => None
  end%bool.

Definition evict_by_kind (kind : SnapshotType) (target_depth : nat) : M World nat :=
  w ← gets id;
  match try_filter (evict_candidate kind w) (all_templates (avail w)) with
  | None => panic
  | Some cands =>
      if (length cands <=? target_depth)%nat then mret 0 else
      foldM evict_one 0 (take (length cands - target_depth) (sort_by by_age cands))
  end.

Definition remove_by_id (id : string) (expected : SnapshotType) : M World (result bool PoolError) :=
  w ← gets Datatypes.id;
  match get_template id w with
  | None => mret (Ok false)
  | Some t =>
      if negb (bool_decide (snapshot_type t = expected)) then mret (Err KindMismatch)
      else if restoring w (pt_id t) then mret (Err BeingRestored)
      else if referenced w (pt_id t) then mret (Err InUse)
      else
        d ← dir_of t;
        r ← remove_dir_all d;
        match r with
        | Err OtherIo => mret (Err RemoveDirFailed)
        | Err NotFound | Ok _ => modify (set_avail (unlist id));; mret (Ok true)
        end
  end.

Definition cleanup_consumed (id : string) : M World unit :=
  d ← find_template_dir id;
  r ← marker_exists d;
  match r with
  | Ok true => _ ← remove_dir_all d; mret tt
  | _ => mret tt
  end.

(** ** Recovery after a restart *)

(** The entries of one subdirectory, in the order [read_dir] gives them. *)
Definition entries_of (s : Subdir) (w : World) : list DirKey :=
  retain (λ d, bool_decide (d.1 = s)) (hash_keys (disk w)).

(** [while let Some(entry) = entries.next_entry()]: an error ends the loop. *)
Fixpoint for_entries (body : DirKey → M World unit) (l : list DirKey) : M World unit :=
  o ← io_next;
  match o with
  | IoFault _ _ => mret tt
  | IoOk => match l with
            | [] => mret tt
            | d :: l' => body d;; for_entries body l'
            end
  end.

(** [read_dir]: an error skips the subdirectory. *)
Definition scan_subdir (body : DirKey → M World unit) (s : Subdir) : M World unit :=
  o ← io_next;
  match o with
  | IoFault _ _ => mret tt
  | IoOk => l ← gets (entries_of s); for_entries body l
  end.

Definition load_entry (d : DirKey) : M World unit :=
  r ← marker_exists d;
  match r with
  | Ok true => mret tt
  | _ => t ← load d;
         match t with
         | Ok t => modify (set_avail (push_back t))
         | Err _ => mret tt
         end
  end.

(** [TemplatePool::new] over an existing store. *)
Definition fresh_pool (w : World) : World :=
  mkWorld ∅ ∅ ∅ ∅ 0 (disk w) (io w).

Definition load_from_disk : M World (result unit PoolError) :=
  o ← io_next;
  match o with
  | IoFault _ _ => mret (Err CreateDirFailed)
  | IoOk =>
      modify fresh_pool;;
      scan_subdir load_entry sub_environment;;
      scan_subdir load_entry sub_warmfork;;
      mret (Ok tt)
  end.

Definition gc_orphan_entry (active : gset string) (d : DirKey) : M World unit :=
  r ← marker_exists d;
  match r with
  | Ok true => if bool_decide (d.2 ∈ active) then mret tt else _ ← remove_dir_all d; mret tt
  | _ => mret tt
  end.

Definition gc_orphaned_consumed (active : gset string) : M World unit :=
  scan_subdir (gc_orphan_entry active) sub_environment;;
  scan_subdir (gc_orphan_entry active) sub_warmfork.

(** ** Status reporting *)
Definition by_id (t u : PooledTemplate) : bool := String.leb (pt_id t) (pt_id u).
Definition by_fst {A} (x y : string * A) : bool := String.leb x.1 y.1.

Definition list_templates (w : World) : list PooledTemplate := sort_by by_id (all_templates (avail w)).
Definition active_shared_refs (w : World) : list (string * nat) := sort_by by_fst (hash_iter (in_use w)).
Definition in_flight_restores_by_template (w : World) : list (string * nat) :=
  sort_by by_fst (hash_iter (restores w)).

Definition gc_blocked_templates (w : World) : list (string * string) :=
  sort_by by_fst
    (omap (λ t, if restoring w (pt_id t) then Some (pt_id t, "restore_in_flight")
                else if referenced w (pt_id t) then Some (pt_id t, "shared_refcount")
                else None) (all_templates (avail w))).

(** ** Leases *)
Inductive RestoreLeaseKind := SharedLease | SharedRef | ExclusiveLease.

Record TemplateLease := mkLease { l_tmpl : PooledTemplate; l_kind : RestoreLeaseKind }.

Definition lease_kind (t : PooledTemplate) : option RestoreLeaseKind :=
  match snapshot_type t with
  | Environment => Some SharedLease
  | WarmFork => Some (if bool_decide (lease_mode cfg = Shared) then SharedRef else ExclusiveLease)
  | Continuation => None
  end.

Definition lease_new (t : PooledTemplate) : M World TemplateLease :=
  match lease_kind t with Some k => mret (mkLease t k) | None => panic end.

(** [complete] and [fail] take the lease by value, so each runs at most once. *)
Definition lease_complete (l : TemplateLease) : M World unit :=
  match l_kind l with
  | SharedLease => end_restore (pt_id (l_tmpl l))
  | SharedRef | ExclusiveLease => mret tt
  end.

Definition lease_fail (l : TemplateLease) : M World unit :=
  match l_kind l with
  | SharedLease => end_restore (pt_id (l_tmpl l))
  | SharedRef => deref (pt_id (l_tmpl l))
  | ExclusiveLease => release (l_tmpl l)
  end.

(** ** Waiting for a refill

    What happens before the deadline, seen by one waiter: each [Changed f]
    is a wake-up of the watch channel after the other tasks took the pool
    from [w] to [f w]; the list ends when the deadline passes. *)
Inductive Wake := Changed (others : World → World) | SenderDropped | SleepElapsed.

Fixpoint wait_loop (acq : M World (option PooledTemplate)) (k : TemplateKey) (wakes : list Wake)
  : M World (option PooledTemplate) :=
  o ← acq;
  match o with
  | Some t => mret (Some t)
  | None =>
      n ← gets (in_flight_count_for_key k);
      if bool_decide (n = 0) then mret None else
      match wakes with
      | [] | SenderDropped :: _ | SleepElapsed :: _ => mret None
      | Changed f :: wakes' => modify f;; wait_loop acq k wakes'
      end
  end.

Definition wait_for_template (k : TemplateKey) := wait_loop (acquire k) k.
Definition wait_and_peek_with_ref (k : TemplateKey) := wait_loop (peek_with_ref k) k.
Definition wait_and_acquire_for_restore (k : TemplateKey) := wait_loop (acquire_for_restore k) k.
End pool.
