(* ===== verification/PoolLemmas.v ===== *)
(** * Lemmas on the template pool

    What the file-system calls touch, the well-formedness of the available
    map, and depth arithmetic. *)
From S2P Require Import Prelude Strs Storage Types Disk Pool.

Section frames.
Context `{TemplateCodec}.

(** The in-memory part of the pool is the same. *)
Record same_pool (w w' : World) : Prop := {
  sp_avail : avail w' = avail w;
  sp_refills : refills w' = refills w;
  sp_restores : restores w' = restores w;
  sp_in_use : in_use w' = in_use w;
  sp_ready : ready w' = ready w
}.

(** Only the directory [d] and the outcome list may differ. *)
Definition touches (d : DirKey) (w w' : World) : Prop :=
  same_pool w w' ∧ ∀ d', d' ≠ d → disk w' !! d' = disk w !! d'.

#[global] Instance same_pool_preorder : PreOrder same_pool.
Proof. split; [by split|]. intros ??? [] []; split; congruence. Qed.

#[global] Instance touches_preorder d : PreOrder (touches d).
Proof.
  split.
  - intros w. by split.
  - intros w1 w2 w3 [S1 D1] [S2 D2]. split; [by transitivity w2|].
    intros d' Hd. rewrite D2 by done. by apply D1.
Qed.

(** No call fails for an outside reason. *)
Definition fault_free (w : World) : Prop := Forall (λ o, o = IoOk) (io w).
End frames.

(** Symbolic execution of one file-system call. *)
Ltac io_cases :=
  intros;
  repeat match goal with
  | E : _ = Some _ |- _ =>
      progress (unfold create_dir_all, remove_dir_all, write_consumed_marker, remove_marker,
        marker_exists, dir_exists, save, load, io_next in E; munfold; simpl in E)
  end;
  repeat (msplit; simplify_eq/=).

(** ... and its effect on the other directories. *)
Ltac io_frame :=
  io_cases; (split; [by split|]); intros; simpl; repeat case_match; try done;
  first [ by rewrite lookup_insert_ne | by rewrite lookup_delete_ne | by rewrite lookup_alter_ne ].

Section calls.
Context `{TemplateCodec}.
Implicit Types (w : World) (d : DirKey).

Lemma create_dir_all_touches d w r w' : create_dir_all d w = Some (r, w') → touches d w w'.
Proof. io_frame. Qed.
Lemma remove_dir_all_touches d w r w' : remove_dir_all d w = Some (r, w') → touches d w w'.
Proof. io_frame. Qed.
Lemma write_consumed_marker_touches d w r w' :
  write_consumed_marker d w = Some (r, w') → touches d w w'.
Proof. io_frame. Qed.
Lemma remove_marker_touches d w r w' : remove_marker d w = Some (r, w') → touches d w w'.
Proof. io_frame. Qed.
Lemma marker_exists_touches d w r w' : marker_exists d w = Some (r, w') → touches d w w'.
Proof. io_frame. Qed.
Lemma save_touches t d w r w' : save t d w = Some (r, w') → touches d w w'.
Proof. io_frame. Qed.

(** No file-system call panics. *)
Lemma create_dir_all_total d w : is_Some (create_dir_all d w).
Proof.
  unfold create_dir_all, io_next. munfold. destruct (io w) as [|[]]; simpl; eauto.
Qed.
Lemma remove_dir_all_total d w : is_Some (remove_dir_all d w).
Proof.
  unfold remove_dir_all, io_next. munfold. destruct (io w) as [|[]]; simpl; eauto;
    destruct (disk w !! d); eauto.
Qed.
Lemma write_consumed_marker_total d w : is_Some (write_consumed_marker d w).
Proof.
  unfold write_consumed_marker, io_next. munfold. destruct (io w) as [|[]]; simpl; eauto;
    destruct (disk w !! d); eauto.
Qed.
Lemma remove_marker_total d w : is_Some (remove_marker d w).
Proof.
  unfold remove_marker, io_next. munfold. destruct (io w) as [|[]]; simpl; eauto;
    destruct (disk w !! d) as [[? []]|]; eauto.
Qed.
Lemma save_total t d w : is_Some (save t d w).
Proof.
  unfold save, io_next. munfold. destruct (io w) as [|[]]; simpl; eauto;
    destruct (disk w !! d); eauto.
Qed.

(** A successful marker write is on disk. *)
Lemma write_consumed_marker_ok d w w' :
  write_consumed_marker d w = Some (Ok tt, w') →
  ∃ x, disk w !! d = Some x ∧ disk w' = <[d := mkDir (d_meta x) true]> (disk w).
Proof. io_cases; eauto. Qed.

Lemma remove_dir_all_ok d w w' :
  remove_dir_all d w = Some (Ok tt, w') → disk w' = delete d (disk w).
Proof. by io_cases. Qed.
End calls.

(** ** The available map *)
Definition listed (t : PooledTemplate) (m : gmap TemplateKey (list PooledTemplate)) : Prop :=
  ∃ k q, m !! k = Some q ∧ t ∈ q.

(** Every template is in the queue of its key, ids are unique across the
    whole pool, and no Continuation template is listed. *)
Record avail_ok (m : gmap TemplateKey (list PooledTemplate)) : Prop := {
  ao_key : ∀ k q t, m !! k = Some q → t ∈ q → pt_key t = k;
  ao_kind : ∀ k q t, m !! k = Some q → t ∈ q → snapshot_type t ≠ Continuation;
  ao_nodup : ∀ k q, m !! k = Some q → NoDup (pt_id <$> q);
  ao_ids : ∀ k k' q q' t t', m !! k = Some q → m !! k' = Some q' → t ∈ q → t' ∈ q' →
    pt_id t = pt_id t' → k = k'
}.

Definition fresh_id (id : string) (m : gmap TemplateKey (list PooledTemplate)) : Prop :=
  ∀ t, listed t m → pt_id t ≠ id.


Lemma avail_ok_shrink m m' :
  avail_ok m →
  (∀ k q', m' !! k = Some q' → ∃ q, m !! k = Some q ∧ q' `sublist_of` q) →
  avail_ok m'.
Proof.
  intros [K1 K2 K3 K4] Hs.
  assert (∀ k q' t, m' !! k = Some q' → t ∈ q' → ∃ q, m !! k = Some q ∧ t ∈ q) as Hin.
  { intros k q' t Hk Ht. destruct (Hs k q' Hk) as (q & Hq & Hsub).
    exists q. split; [done|]. by eapply elem_of_sublist. }
  split.
  - intros k q' t Hk Ht. destruct (Hin _ _ _ Hk Ht) as (q & ? & ?). eauto.
  - intros k q' t Hk Ht. destruct (Hin _ _ _ Hk Ht) as (q & ? & ?). eauto.
  - intros k q' Hk. destruct (Hs k q' Hk) as (q & Hq & Hsub).
    eapply sublist_NoDup; [exact (K3 k q Hq)|]. by apply fmap_sublist.
  - intros k k' q q' t t' Hk Hk' Ht Ht' E.
    destruct (Hin _ _ _ Hk Ht) as (r & ? & ?). destruct (Hin _ _ _ Hk' Ht') as (r' & ? & ?).
    eauto.
Qed.

Lemma avail_ok_empty : avail_ok ∅.
Proof. split; intros *; rewrite lookup_empty; done. Qed.

Lemma avail_ok_unlist id m : avail_ok m → avail_ok (unlist id m).
Proof.
  intros Hok. eapply avail_ok_shrink; [done|]. intros k q'. unfold unlist.
  rewrite lookup_fmap. intros (q & Hq & ->)%fmap_Some. exists q. split; [done|].
  apply retain_sublist.
Qed.

Lemma avail_ok_insert_sub k q q' m :
  avail_ok m → m !! k = Some q → q' `sublist_of` q → avail_ok (<[k := q']> m).
Proof.
  intros Hok Hk Hs. eapply avail_ok_shrink; [done|]. intros k' r.
  rewrite lookup_insert. case_decide as E; [|eauto]. intros [= <-]. subst. eauto.
Qed.

Lemma avail_ok_alter_retain p k m : avail_ok m → avail_ok (alter (retain p) k m).
Proof.
  intros Hok. eapply avail_ok_shrink; [done|]. intros k' q'. rewrite lookup_alter.
  case_decide; [|eauto]. intros (q & Hq & ->)%fmap_Some. subst. exists q.
  split; [done|]. apply retain_sublist.
Qed.

Lemma listed_push_back t u m : listed u (push_back t m) ↔ listed u m ∨ u = t.
Proof.
  unfold push_back, listed. split.
  - intros (k & q & Hk & Hu). rewrite lookup_insert in Hk. case_decide as E.
    + injection Hk as <-. apply elem_of_app in Hu as [Hu|Hu%list_elem_of_singleton]; [|by right].
      destruct (m !! pt_key t) eqn:E'; simpl in Hu; [|by apply elem_of_nil in Hu].
      left. eauto.
    + left. eauto.
  - intros [(k & q & Hk & Hu)| ->].
    + destruct (decide (pt_key t = k)) as [<-|Hne].
      * exists (pt_key t), (q ++ [t]). rewrite Hk, lookup_insert_eq. simpl.
        split; [done|]. apply elem_of_app. by left.
      * exists k, q. by rewrite lookup_insert_ne.
    + eexists (pt_key t), _. rewrite lookup_insert_eq. split; [done|].
      apply elem_of_app. right. by left.
Qed.

Lemma avail_ok_push_back t m :
  avail_ok m → snapshot_type t ≠ Continuation → fresh_id (pt_id t) m → avail_ok (push_back t m).
Proof.
  intros [K1 K2 K3 K4] Hkind Hfresh. unfold push_back.
  assert (∀ k q u, <[pt_key t := default [] (m !! pt_key t) ++ [t]]> m !! k = Some q → u ∈ q →
            (u = t ∧ k = pt_key t) ∨ (∃ q', m !! k = Some q' ∧ u ∈ q')) as Hin.
  { intros k q u Hk Hu. rewrite lookup_insert in Hk. case_decide as E; [|by right; eauto].
    injection Hk as <-. subst. apply elem_of_app in Hu as [Hu|Hu%list_elem_of_singleton]; [|by left].
    right. destruct (m !! pt_key t) eqn:E'; simpl in Hu; [eauto|by apply elem_of_nil in Hu]. }
  split.
  - intros k q u Hk Hu. destruct (Hin _ _ _ Hk Hu) as [[-> ->]|(q' & ? & ?)]; eauto.
  - intros k q u Hk Hu. destruct (Hin _ _ _ Hk Hu) as [[-> ->]|(q' & ? & ?)]; eauto.
  - intros k q Hk. rewrite lookup_insert in Hk. case_decide as E; [|eauto].
    injection Hk as <-. subst. rewrite fmap_app. apply NoDup_app. split_and!.
    + destruct (m !! pt_key t) eqn:E'; simpl; [by eapply K3|constructor].
    + intros x (u & -> & Hu)%list_elem_of_fmap Hx.
      simpl in Hx. apply list_elem_of_singleton in Hx.
      destruct (m !! pt_key t) eqn:E'; simpl in Hu; [|by apply elem_of_nil in Hu].
      eapply Hfresh; [|done]. unfold listed. eauto.
    + apply NoDup_singleton.
  - intros k k' q q' u u' Hk Hk' Hu Hu' E.
    destruct (Hin _ _ _ Hk Hu) as [[-> ->]|(r & ? & ?)];
      destruct (Hin _ _ _ Hk' Hu') as [[-> ->]|(r' & ? & ?)]; try done.
    + exfalso. eapply Hfresh; [|symmetry; exact E]. unfold listed. eauto.
    + exfalso. eapply Hfresh; [|exact E]. unfold listed. eauto.
    + eauto.
Qed.

(** Two listed templates with one id are one template. *)
Lemma listed_inj m t t' :
  avail_ok m → listed t m → listed t' m → pt_id t = pt_id t' → t = t'.
Proof.
  intros [K1 K2 K3 K4] (k & q & Hk & Ht) (k' & q' & Hk' & Ht') E.
  assert (k = k') as <- by eauto. rewrite Hk in Hk'. injection Hk' as <-.
  specialize (K3 k q Hk). apply list_elem_of_lookup in Ht as [i Hi], Ht' as [j Hj].
  assert (i = j) as ->; [|congruence].
  eapply NoDup_lookup; [exact K3| |]; rewrite list_lookup_fmap; [by rewrite Hi|].
  rewrite Hj. simpl. by rewrite E.
Qed.

Lemma listed_unlist id u m : listed u (unlist id m) ↔ listed u m ∧ pt_id u ≠ id.
Proof.
  unfold listed, unlist. split.
  - intros (k & q & Hk & Hu). rewrite lookup_fmap in Hk. apply fmap_Some in Hk as (q' & Hq & ->).
    apply elem_of_retain in Hu as [Hu Hp]. split; [eauto|].
    intros <-. by rewrite bool_decide_true in Hp.
  - intros ((k & q & Hk & Hu) & Hne). eexists k, _. rewrite lookup_fmap, Hk. split; [done|].
    apply elem_of_retain. split; [done|]. by rewrite bool_decide_false.
Qed.

Section all_templates.
Context `{HashOrder}.

Lemma elem_of_all_templates m t : t ∈ all_templates m ↔ listed t m.
Proof.
  unfold all_templates, listed. rewrite list_elem_of_join. setoid_rewrite elem_of_hash_values.
  split; intros (q & Hq); [destruct Hq as (Ht & k & Hk)|destruct Hq as (q' & Hk & Ht)]; eauto.
Qed.

Lemma get_template_Some `{TemplateCodec} id w t :
  get_template id w = Some t → listed t (avail w) ∧ pt_id t = id.
Proof.
  unfold get_template. intros [Ht Hb]%find_first_Some. apply bool_decide_eq_true in Hb.
  by rewrite <- elem_of_all_templates.
Qed.

(** ** Depth *)
Definition depth_of (m : gmap TemplateKey (list PooledTemplate)) : nat :=
  nat_sum (length <$> (map_to_list m).*2).

Lemma total_depth_of `{TemplateCodec} w : total_depth w = depth_of (avail w).
Proof. unfold total_depth, depth_of, hash_values. by rewrite hash_iter_perm. Qed.

Lemma length_all_templates m : length (all_templates m) = depth_of m.
Proof.
  unfold all_templates, depth_of, hash_values. rewrite <- hash_iter_perm.
  generalize ((hash_iter m).*2). intros l. rewrite length_join.
  induction l as [|q l IH]; [done|]. csimpl. lia.
Qed.
End all_templates.

Lemma depth_of_insert_new k q m :
  m !! k = None → depth_of (<[k := q]> m) = length q + depth_of m.
Proof. intros Hk. unfold depth_of. by rewrite map_to_list_insert. Qed.

Lemma depth_of_delete k q m :
  m !! k = Some q → depth_of m = length q + depth_of (delete k m).
Proof.
  intros Hk. rewrite <- (insert_delete_id m k q Hk) at 1.
  apply depth_of_insert_new, lookup_delete_eq.
Qed.

Lemma depth_of_insert k q q' m :
  m !! k = Some q → depth_of (<[k := q']> m) + length q = depth_of m + length q'.
Proof.
  intros Hk. rewrite (depth_of_delete k q m Hk), <- insert_delete_eq.
  rewrite depth_of_insert_new by apply lookup_delete_eq. lia.
Qed.

Lemma depth_of_push_back t m : depth_of (push_back t m) = depth_of m + 1.
Proof.
  unfold push_back. destruct (m !! pt_key t) as [q|] eqn:E; simpl.
  - pose proof (depth_of_insert _ _ (q ++ [t]) _ E) as Hd. rewrite length_app in Hd. simpl in Hd. lia.
  - rewrite depth_of_insert_new by done. simpl. lia.
Qed.

Lemma retain_one l t :
  NoDup (pt_id <$> l) → t ∈ l →
  length (retain (λ x, negb (bool_decide (pt_id x = pt_id t))) l) + 1 = length l.
Proof.
  induction l as [|x l IH]; intros Hn Ht; [by apply elem_of_nil in Ht|].
  simpl in Hn. apply NoDup_cons in Hn as [Hx Hn]. simpl.
  apply elem_of_cons in Ht as [->|Ht].
  - rewrite bool_decide_true by done. simpl. rewrite retain_id; [lia|].
    intros y Hy. rewrite bool_decide_false; [done|]. intros E. apply Hx. rewrite <- E.
    by apply list_elem_of_fmap_2.
  - rewrite bool_decide_false.
    + simpl. rewrite IH by done. done.
    + intros E. apply Hx. rewrite E. by apply list_elem_of_fmap_2.
Qed.

(** Removing a listed id touches one queue only. *)
Lemma unlist_insert t k q m :
  avail_ok m → m !! k = Some q → t ∈ q →
  unlist (pt_id t) m = <[k := retain (λ x, negb (bool_decide (pt_id x = pt_id t))) q]> m.
Proof.
  intros Hok Hk Ht. apply map_eq. intros k'. unfold unlist. rewrite lookup_fmap, lookup_insert.
  case_decide as E; [subst; by rewrite Hk|].
  destruct (m !! k') as [q'|] eqn:E'; simpl; [|done]. f_equal. apply retain_id.
  intros x Hx. rewrite bool_decide_false; [done|]. intros Eid. apply E.
  eapply (ao_ids m Hok k k' q q' t x); eauto.
Qed.

Lemma depth_of_unlist t m :
  avail_ok m → listed t m → depth_of (unlist (pt_id t) m) + 1 = depth_of m.
Proof.
  intros Hok (k & q & Hk & Ht). rewrite (unlist_insert t k q) by done.
  pose proof (depth_of_insert k q (retain (λ x, negb (bool_decide (pt_id x = pt_id t))) q) m Hk).
  pose proof (retain_one q t (ao_nodup m Hok k q Hk) Ht). lia.
Qed.

Lemma depth_of_unlist_le id m : depth_of (unlist id m) ≤ depth_of m.
Proof.
  unfold depth_of, unlist. rewrite map_to_list_fmap.
  induction (map_to_list m) as [|[k q] l IH]; csimpl; [done|].
  pose proof (length_retain_le (λ x, negb (bool_decide (pt_id x = id))) q). lia.
Qed.

Lemma unlist_not_listed id m : fresh_id id m → unlist id m = m.
Proof.
  intros Hf. apply map_eq. intros k. unfold unlist. rewrite lookup_fmap.
  destruct (m !! k) as [q|] eqn:E; simpl; [|done]. f_equal. apply retain_id.
  intros x Hx. rewrite bool_decide_false; [done|]. apply Hf. unfold listed. eauto.
Qed.
