(* ===== verification/PoolInv.v ===== *)
(** * The pool invariant

    Every operation of the pool keeps the pool well formed and none of them
    panics, whatever the file system answers. *)
From S2P Require Import Prelude Strs Storage Types Disk Pool PoolLemmas.

Section inv.
Context `{TemplateCodec} `{HashOrder} (cfg : PoolConfig).
Implicit Types (w : World) (d : DirKey) (P : World → Prop).

(** The available map is well formed and every counter present is positive
    (the code removes a counter when it reaches zero). *)
Record pool_ok w : Prop := {
  po_avail : avail_ok (avail w);
  po_restores : map_Forall (λ _ n, 0 < n) (restores w);
  po_in_use : map_Forall (λ _ n, 0 < n) (in_use w);
  po_refills : map_Forall (λ _ n, 0 < n) (refills w)
}.

(** ... and the id [i] is not in the pool. *)
Definition pool_ok_without (i : string) w : Prop := pool_ok w ∧ fresh_id i (avail w).

(** ** Predicates on the in-memory state *)
Definition mem_prop P : Prop := ∀ w w', same_pool w w' → P w → P w'.

Lemma pool_ok_mem : mem_prop pool_ok.
Proof. intros w w' [Ea Er Es Ei _] [? ? ? ?]. split; by rewrite ?Ea, ?Er, ?Es, ?Ei. Qed.
Lemma pool_ok_without_mem i : mem_prop (pool_ok_without i).
Proof. intros w w' Hs [Ho Hf]. split; [by eapply pool_ok_mem|]. by rewrite (sp_avail _ _ Hs). Qed.
Lemma hoare_io {A} (m : M World A) d P :
  (∀ w, is_Some (m w)) → (∀ w r w', m w = Some (r, w') → touches d w w') →
  mem_prop P → hoare P m (λ _, P).
Proof.
  intros Ht Hf HP w Hw. destruct (Ht w) as [[r w'] E]. exists r, w'. split; [done|].
  destruct (Hf _ _ _ E) as [Hs _]. by eapply HP.
Qed.

Lemma hoare_create_dir_all d P : mem_prop P → hoare P (create_dir_all d) (λ _, P).
Proof. apply (hoare_io _ d); [apply create_dir_all_total|apply create_dir_all_touches]. Qed.
Lemma hoare_remove_dir_all d P : mem_prop P → hoare P (remove_dir_all d) (λ _, P).
Proof. apply (hoare_io _ d); [apply remove_dir_all_total|apply remove_dir_all_touches]. Qed.
Lemma hoare_write_consumed_marker d P : mem_prop P → hoare P (write_consumed_marker d) (λ _, P).
Proof.
  apply (hoare_io _ d); [apply write_consumed_marker_total|apply write_consumed_marker_touches].
Qed.
Lemma hoare_remove_marker d P : mem_prop P → hoare P (remove_marker d) (λ _, P).
Proof. apply (hoare_io _ d); [apply remove_marker_total|apply remove_marker_touches]. Qed.
Lemma hoare_save t d P : mem_prop P → hoare P (save t d) (λ _, P).
Proof. apply (hoare_io _ d); [apply save_total|apply save_touches]. Qed.

Lemma hoare_dir_of t P : snapshot_type t ≠ Continuation → hoare P (dir_of t) (λ _, P).
Proof.
  intros Hk. unfold dir_of, template_dir. destruct (snapshot_type t); try done;
    by apply hoare_ret.
Qed.

(** ** Memory updates *)
Lemma pool_ok_set_avail f w :
  pool_ok w → avail_ok (f (avail w)) → pool_ok (set_avail f w).
Proof. intros [? ? ? ?] Hf. by split. Qed.
Lemma pool_ok_set_ready f w : pool_ok w → pool_ok (set_ready f w).
Proof. intros [? ? ? ?]. by split. Qed.

Lemma bump_pos id m : map_Forall (λ _ n, 0 < n) m → map_Forall (λ _ n, 0 < n) (bump id m).
Proof. intros Hm. apply map_Forall_insert_2; [lia|done]. Qed.

Lemma pool_ok_unlist i j w :
  pool_ok_without i w → pool_ok_without i (set_avail (unlist j) w).
Proof.
  intros [Ho Hf]. split.
  - apply pool_ok_set_avail; [done|]. apply avail_ok_unlist, Ho.
  - intros t Ht. simpl in Ht. apply listed_unlist in Ht as [Ht _]. by apply Hf.
Qed.

Lemma pool_ok_unlist' j w : pool_ok w → pool_ok (set_avail (unlist j) w).
Proof. intros Ho. apply pool_ok_set_avail; [done|]. apply avail_ok_unlist, Ho. Qed.

Lemma listed_alter_retain p k u m : listed u (alter (retain p) k m) → listed u m.
Proof.
  intros (k' & q & Hk & Hu). rewrite lookup_alter in Hk. case_decide; [|unfold listed; eauto].
  apply fmap_Some in Hk as (q' & ? & ->). subst. apply elem_of_retain in Hu as [Hu _].
  unfold listed. eauto.
Qed.

(** ** Add *)
Lemma oldest_candidate_total w c l :
  (∀ t, t ∈ l → snapshot_type t ≠ Continuation) → is_Some (oldest_candidate cfg w c l).
Proof.
  revert c. induction l as [|t l IH]; intros c Hl; simpl; [eauto|].
  unfold watermark_evictable. destruct (restoring w (pt_id t)); simpl.
  { apply IH. intros u Hu. apply Hl. by right. }
  specialize (Hl t) as Ht. destruct (snapshot_type t); try (exfalso; apply Ht; [by left|done]);
    simpl; apply IH; intros u Hu; apply Hl; by right.
Qed.

(** The candidate is listed, is neither being restored nor referenced, and is
    no younger than any other evictable template. *)
Lemma oldest_candidate_spec w c l o :
  oldest_candidate cfg w c l = Some (Some o) →
  (c = Some o ∨ (o ∈ l ∧ watermark_evictable cfg w o = Some true)) ∧
  (∀ u, c = Some u → (created_at_secs o ≤ created_at_secs u)%N) ∧
  (∀ u, u ∈ l → watermark_evictable cfg w u = Some true →
        (created_at_secs o ≤ created_at_secs u)%N).
Proof.
  revert c. induction l as [|t l IH]; intros c; simpl.
  - intros [= ->]. split_and!; [by left| |].
    + intros u [= ->]. lia.
    + intros u Hu. by apply elem_of_nil in Hu.
  - destruct (watermark_evictable cfg w t) as [b|] eqn:E; simpl; [|done].
    intros Hrec. destruct (IH _ Hrec) as (H1 & H2 & H3). split_and!.
    + destruct H1 as [H1|[H1 H1']]; [|right; split; [by right|done]].
      destruct b; simpl in H1; [|by left]. destruct (older t c) eqn:Eo; [|by left].
      injection H1 as ->. right. split; [by left|done].
    + intros u ->. destruct b; simpl in H2; [|by apply H2].
      destruct (created_at_secs t <? created_at_secs u)%N eqn:Eo; [|by apply H2].
      apply N.ltb_lt in Eo. specialize (H2 t eq_refl). lia.
    + intros u [->|Hu]%elem_of_cons Hev; [|by apply H3].
      rewrite E in Hev. injection Hev as ->. simpl in H2.
      destruct (older t c) eqn:Eo; [by apply H2|].
      destruct c as [x|]; simpl in Eo; [|done]. apply N.ltb_ge in Eo.
      specialize (H2 x eq_refl). lia.
Qed.

Lemma oldest_candidate_listed w o :
  oldest_candidate cfg w None (all_templates (avail w)) = Some (Some o) →
  listed o (avail w) ∧ watermark_evictable cfg w o = Some true.
Proof.
  intros Hc. destruct (oldest_candidate_spec w None _ o Hc) as ([|[Ho Hev]] & _); [done|].
  by rewrite elem_of_all_templates in Ho.
Qed.

Lemma listed_kind w t : pool_ok w → listed t (avail w) → snapshot_type t ≠ Continuation.
Proof. intros Hok (k & q & Hk & Ht). by eapply (ao_kind _ (po_avail _ Hok)). Qed.

Lemma watermark_step_ok i d :
  hoare (pool_ok_without i) (watermark_step cfg d) (λ _, pool_ok_without i).
Proof.
  intros w Hw. unfold watermark_step. unfold mbind at 1, M_bind, gets. simpl.
  destruct (oldest_candidate_total w None (all_templates (avail w))) as [[c|] Hc].
  { intros t Ht. rewrite elem_of_all_templates in Ht. eapply listed_kind; [apply Hw|done]. }
  - rewrite Hc. destruct (oldest_candidate_listed w c Hc) as [Hl _].
    revert w Hw Hl Hc. intros w Hw Hl _.
    eapply (hoare_seq _ _ (pool_ok_without i)); [|intros old|done].
    { apply hoare_dir_of. eapply listed_kind; [apply Hw|done]. }
    eapply hoare_seq; [apply hoare_remove_dir_all, pool_ok_without_mem|]. intros [|].
    + eapply hoare_seq; [apply hoare_modify; intros; by apply pool_ok_unlist|].
      intros. apply hoare_ret. done.
    + eapply hoare_seq; [apply hoare_remove_dir_all, pool_ok_without_mem|].
      intros. apply hoare_ret. done.
  - rewrite Hc.
    eapply (hoare_seq _ _ (pool_ok_without i)); [|intros|done].
    + apply hoare_remove_dir_all, pool_ok_without_mem.
    + by apply hoare_ret.
Qed.

Lemma per_key_eviction_head w t kmax o b :
  per_key_eviction t kmax w = Some (o, b) →
  ∃ q, avail w !! pt_key t = Some q ∧ o ∈ q ∧ kmax ≤ length q ∧
    b = negb (restoring w (pt_id o)) && negb (referenced w (pt_id o)).
Proof.
  unfold per_key_eviction. destruct (avail w !! pt_key t) as [q|] eqn:E; simpl; [|done].
  destruct (kmax <=? length q)%nat eqn:El; [|done]. destruct q as [|x q]; simpl; [done|].
  intros [= <- <-]. exists (x :: q). split_and!; [done|by left|by apply Nat.leb_le|done].
Qed.

Lemma per_key_step_ok i t d :
  snapshot_type t ≠ Continuation →
  hoare (pool_ok_without i) (per_key_step cfg t d) (λ _, pool_ok_without i).
Proof.
  intros Hk w Hw. unfold per_key_step.
  assert (∃ n, kind_max cfg t = Some n) as [n ->].
  { unfold kind_max. destruct (snapshot_type t); eauto; done. }
  unfold mbind at 1, M_bind, gets. simpl.
  destruct (per_key_eviction t n w) as [[o [|]]|] eqn:E.
  - destruct (per_key_eviction_head _ _ _ _ _ E) as (q & Hq & Ho & _).
    eapply (hoare_seq _ _ (pool_ok_without i)); [|intros old|done].
    { apply hoare_dir_of. eapply listed_kind; [apply Hw|]. unfold listed. eauto. }
    eapply hoare_seq; [apply hoare_remove_dir_all, pool_ok_without_mem|]. intros [|].
    + eapply hoare_seq; [|intros; by apply hoare_ret].
      apply hoare_modify. intros w' [Ho' Hf']. split.
      * apply pool_ok_set_avail; [done|]. apply avail_ok_alter_retain, Ho'.
      * intros u Hu. apply listed_alter_retain in Hu. by apply Hf'.
    + eapply hoare_seq; [apply hoare_remove_dir_all, pool_ok_without_mem|].
      intros. by apply hoare_ret.
  - eapply (hoare_seq _ _ (pool_ok_without i)); [|intros|done].
    + apply hoare_remove_dir_all, pool_ok_without_mem.
    + by apply hoare_ret.
  - eexists _, _. split; [done|]. done.
Qed.

(** A template that was not added is still not in the pool. *)
Definition added (t : PooledTemplate) (r : result unit PoolError) w : Prop :=
  pool_ok w ∧ if is_ok r then listed t (avail w) else fresh_id (pt_id t) (avail w).

Lemma insert_step_ok t d :
  snapshot_type t ≠ Continuation →
  hoare (pool_ok_without (pt_id t)) (insert_step t d) (added t).
Proof.
  intros Hk. unfold insert_step.
  eapply hoare_seq; [apply hoare_save, pool_ok_without_mem|]. intros [|].
  - eapply (hoare_bind _ _ _ (λ _, added t (Ok tt))).
    { apply hoare_modify. intros w [Ho Hf]. split; [|apply listed_push_back; by right].
      apply pool_ok_set_avail; [done|]. apply avail_ok_push_back; [apply Ho|done..]. }
    intros _. eapply (hoare_bind _ _ _ (λ _, added t (Ok tt))).
    { apply hoare_modify. intros w [Ho Hl]. split; [by apply pool_ok_set_ready|done]. }
    intros. by apply hoare_ret.
  - apply hoare_ret. by intros w [].
Qed.

Lemma add_spec t :
  snapshot_type t ≠ Continuation →
  hoare (pool_ok_without (pt_id t)) (add cfg t) (added t).
Proof.
  intros Hk. unfold add. eapply hoare_seq; [by apply hoare_dir_of|]. intros d.
  eapply hoare_seq; [apply hoare_create_dir_all, pool_ok_without_mem|]. intros [|].
  - eapply hoare_seq; [by apply hoare_gets|]. intros n.
    eapply hoare_seq.
    { destruct (gc_watermark cfg <=? n)%nat; [apply watermark_step_ok|by apply hoare_ret]. }
    intros [|]; [|apply hoare_ret; by intros w []].
    eapply hoare_seq; [by apply per_key_step_ok|]. intros [|].
    + by apply insert_step_ok.
    + apply hoare_ret. by intros w [].
  - apply hoare_ret. by intros w [].
Qed.

(** Adding a template with a new id never panics and keeps the pool well
    formed: queues match keys, ids stay unique across keys, no counter is
    zero. This holds for every outcome of every file-system call. *)
Lemma add_total t :
  snapshot_type t ≠ Continuation →
  hoare (pool_ok_without (pt_id t)) (add cfg t) (λ _, pool_ok).
Proof. intros Hk. eapply hoare_conseq; [by apply add_spec|done|by intros r w []]. Qed.

(** ** Eviction loops *)
Lemma evict_one_ok n t :
  snapshot_type t ≠ Continuation → hoare pool_ok (evict_one n t) (λ _, pool_ok).
Proof.
  intros Hk. unfold evict_one. eapply hoare_seq; [by apply hoare_dir_of|]. intros d.
  eapply hoare_seq; [apply hoare_remove_dir_all, pool_ok_mem|].
  intros [[]|[]]; try (by apply hoare_ret);
    (eapply (hoare_bind _ _ _ (λ _, pool_ok));
      [apply hoare_modify; intros; by apply pool_ok_unlist'|intros; by apply hoare_ret]).
Qed.

Lemma evict_all_ok n l :
  (∀ t, t ∈ l → snapshot_type t ≠ Continuation) → hoare pool_ok (foldM evict_one n l) (λ _, pool_ok).
Proof.
  intros Hl. apply hoare_foldM; [done|]. intros t n' Ht. by apply evict_one_ok, Hl.
Qed.

Lemma elem_of_gc_candidates w t :
  t ∈ gc_candidates cfg w ↔ listed t (avail w) ∧ gc_candidate cfg w t = true.
Proof.
  unfold gc_candidates. rewrite sort_by_perm, elem_of_retain. by rewrite elem_of_all_templates.
Qed.

Lemma take_subset {A} n (l : list A) x : x ∈ take n l → x ∈ l.
Proof. intros Hx. eapply elem_of_sublist; [exact Hx|]. apply sublist_take. Qed.

Lemma gc_if_needed_ok : hoare pool_ok (gc_if_needed cfg) (λ _, pool_ok).
Proof.
  intros w Hw. unfold gc_if_needed. unfold mbind at 1, M_bind, gets. simpl.
  destruct (total_depth w <=? gc_watermark cfg)%nat; [eexists _, _; split; done|].
  eapply (hoare_seq _ _ pool_ok); [|intros; by apply hoare_ret|done].
  apply evict_all_ok. intros t Ht%take_subset. apply elem_of_gc_candidates in Ht as [Ht _].
  by eapply listed_kind.
Qed.

Lemma pool_ok_set_restores f w :
  pool_ok w → map_Forall (λ _ n, 0 < n) (f (restores w)) → pool_ok (set_restores f w).
Proof. intros [? ? ? ?] Hf. by split. Qed.
Lemma pool_ok_set_in_use f w :
  pool_ok w → map_Forall (λ _ n, 0 < n) (f (in_use w)) → pool_ok (set_in_use f w).
Proof. intros [? ? ? ?] Hf. by split. Qed.

(** Dropping one reference in a counter map, with the collection it triggers. *)
Lemma end_restore_ok id : hoare pool_ok (end_restore cfg id) (λ _, pool_ok).
Proof.
  intros w Hw. unfold end_restore. unfold mbind at 1, M_bind, gets. simpl.
  destruct (restores w !! id) as [[|c]|] eqn:E; try (eexists _, _; split; done).
  case_bool_decide.
  - eapply (hoare_seq _ _ pool_ok); [|intros; apply gc_if_needed_ok|done].
    apply hoare_modify. intros w' Hw'. apply pool_ok_set_restores; [done|].
    apply map_Forall_delete, Hw'.
  - apply (hoare_modify _ pool_ok (λ _, pool_ok)); [|done]. intros w' Hw'.
    apply pool_ok_set_restores; [done|]. apply map_Forall_insert_2; [lia|apply Hw'].
Qed.

Lemma deref_ok id : hoare pool_ok (deref cfg id) (λ _, pool_ok).
Proof.
  intros w Hw. unfold deref. unfold mbind at 1, M_bind, gets. simpl.
  destruct (in_use w !! id) as [[|c]|] eqn:E; try (eexists _, _; split; done).
  case_bool_decide.
  - eapply (hoare_seq _ _ pool_ok); [|intros; apply gc_if_needed_ok|done].
    apply hoare_modify. intros w' Hw'. apply pool_ok_set_in_use; [done|].
    apply map_Forall_delete, Hw'.
  - apply (hoare_modify _ pool_ok (λ _, pool_ok)); [|done]. intros w' Hw'.
    apply pool_ok_set_in_use; [done|]. apply map_Forall_insert_2; [lia|apply Hw'].
Qed.

Lemma evict_candidate_total kind w t :
  snapshot_type t ≠ Continuation → is_Some (evict_candidate cfg kind w t).
Proof.
  intros Ht. unfold evict_candidate. destruct (_ || _)%bool; [eauto|].
  destruct (snapshot_type t); eauto; done.
Qed.

Lemma try_filter_is_Some {A} (p : A → option bool) l :
  (∀ x, x ∈ l → is_Some (p x)) → is_Some (try_filter p l).
Proof.
  induction l as [|x l IH]; intros Hl; simpl; [eauto|].
  destruct (Hl x) as [b ->]; [by left|]. simpl.
  destruct IH as [k ->]; [intros y Hy; apply Hl; by right|]. simpl. eauto.
Qed.

Lemma evict_by_kind_ok kind n : hoare pool_ok (evict_by_kind cfg kind n) (λ _, pool_ok).
Proof.
  intros w Hw. unfold evict_by_kind. unfold mbind at 1, M_bind, gets. simpl.
  destruct (try_filter_is_Some (evict_candidate cfg kind w) (all_templates (avail w))) as [l Hl].
  { intros t Ht%elem_of_all_templates. by eapply evict_candidate_total, listed_kind. }
  rewrite Hl. destruct (length l <=? n)%nat; [eexists _, _; split; done|].
  apply evict_all_ok; [|done]. intros t Ht%take_subset. rewrite sort_by_perm in Ht.
  destruct (try_filter_elem _ _ _ _ Hl Ht) as [Ht' _].
  apply elem_of_all_templates in Ht'. by eapply listed_kind.
Qed.

Lemma remove_by_id_ok id kind : hoare pool_ok (remove_by_id id kind) (λ _, pool_ok).
Proof.
  intros w Hw. unfold remove_by_id. unfold mbind at 1, M_bind, gets. simpl.
  destruct (get_template id w) as [t|] eqn:E; [|eexists _, _; split; done].
  destruct (get_template_Some _ _ _ E) as [Hl _].
  repeat (case_match; [eexists _, _; split; done|]).
  eapply (hoare_seq _ _ pool_ok); [|intros d|done].
  { by eapply hoare_dir_of, listed_kind. }
  eapply hoare_seq; [apply hoare_remove_dir_all, pool_ok_mem|].
  intros [[]|[]]; try (by apply hoare_ret);
    (eapply (hoare_seq _ _ pool_ok);
      [apply hoare_modify; intros; by apply pool_ok_unlist'|intros; by apply hoare_ret]).
Qed.

(** ** Acquire and release *)
Lemma last_elem {A} (q : list A) x : last q = Some x → q = take (length q - 1) q ++ [x].
Proof.
  intros Hq. destruct q as [|y q _] using rev_ind; [done|].
  rewrite last_snoc in Hq. injection Hq as ->. rewrite length_app. simpl.
  rewrite Nat.add_sub, take_app_length. done.
Qed.

(** Taking the last template of a queue leaves a pool without its id. *)
Lemma pop_back_without k q t w :
  pool_ok w → avail w !! k = Some q → last q = Some t →
  pool_ok_without (pt_id t) (set_avail (insert k (take (length q - 1) q)) w).
Proof.
  intros Ho Hk Hq. pose proof (po_avail _ Ho) as Ha. split.
  - apply pool_ok_set_avail; [done|]. eapply avail_ok_insert_sub; [done..|]. apply sublist_take.
  - intros u (k' & q' & Hk' & Hu) E. simpl in Hk'. rewrite lookup_insert in Hk'.
    pose proof (last_elem q t Hq) as Eq.
    assert (t ∈ q) as Ht by (rewrite Eq; apply elem_of_app; right; by left).
    case_decide as Ek.
    + injection Hk' as <-. subst k'. pose proof (ao_nodup _ Ha k q Hk) as Hn.
      rewrite Eq, fmap_app in Hn. apply NoDup_app in Hn as (_ & Hn & _).
      apply (Hn (pt_id u)); [by apply list_elem_of_fmap_2|]. simpl. rewrite E. by left.
    + apply Ek. eapply (ao_ids _ Ha k k' q q' t u); eauto.
Qed.

Lemma consume_ok t :
  snapshot_type t ≠ Continuation →
  hoare (pool_ok_without (pt_id t)) (consume t)
    (λ r w, pool_ok w ∧ match r with
                        | Some u => u = t ∧ fresh_id (pt_id t) (avail w)
                        | None => True
                        end).
Proof.
  intros Hk. unfold consume. eapply hoare_seq; [by apply hoare_dir_of|]. intros d.
  eapply hoare_seq; [apply hoare_write_consumed_marker, pool_ok_without_mem|]. intros [|].
  - apply hoare_ret. by intros w [].
  - eapply (hoare_bind _ _ _ (λ _, pool_ok)); [|intros; by apply hoare_ret].
    apply hoare_modify. intros w [Ho Hf]. apply pool_ok_set_avail; [done|].
    apply avail_ok_push_back; [apply Ho|done..].
Qed.

(** What [acquire] hands out is no longer in the pool. *)
Definition handed_out (r : option PooledTemplate) w : Prop :=
  pool_ok w ∧ match r with
              | Some t => fresh_id (pt_id t) (avail w) ∧ snapshot_type t ≠ Continuation
              | None => True
              end.

Lemma consume_handed_out t w :
  snapshot_type t ≠ Continuation → pool_ok_without (pt_id t) w →
  ∃ a w', consume t w = Some (a, w') ∧ handed_out a w'.
Proof.
  intros Hk Hw. destruct (consume_ok t Hk w Hw) as (r & w' & E & Ho & Hr).
  exists r, w'. split; [done|]. split; [done|]. destruct r as [u|]; [|done].
  by destruct Hr as [-> Hf].
Qed.

Lemma acquire_ok k : hoare pool_ok (acquire k) handed_out.
Proof.
  intros w Hw. unfold acquire. unfold mbind at 1, M_bind, gets. simpl.
  destruct (avail w !! k) as [q|] eqn:Eq; [|eexists _, _; split; done].
  destruct (last q) as [t|] eqn:El; [|eexists _, _; split; done].
  apply consume_handed_out; [|by apply pop_back_without].
  eapply listed_kind; [done|]. exists k, q. split; [done|].
  rewrite (last_elem q t El). apply elem_of_app. right. by left.
Qed.

Lemma locate_Some id l k q i t :
  locate id l = Some (k, q, i, t) → (k, q) ∈ l ∧ q !! i = Some t ∧ pt_id t = id.
Proof.
  induction l as [|[k' q'] l IH]; simpl; [done|].
  destruct (position _ q') as [j|] eqn:E.
  - destruct (position_lookup _ _ _ E) as (x & Hx & Hp & _). rewrite Hx. simpl.
    intros [= -> -> -> ->]. apply bool_decide_eq_true in Hp. split_and!; [by left|done|done].
  - intros Hl. destruct (IH Hl) as (? & ? & ?). split_and!; [by right|done|done].
Qed.

Lemma delete_without k q i t w :
  pool_ok w → avail w !! k = Some q → q !! i = Some t →
  pool_ok_without (pt_id t) (set_avail (insert k (delete i q)) w).
Proof.
  intros Ho Hk Hq. pose proof (po_avail _ Ho) as Ha. split.
  - apply pool_ok_set_avail; [done|]. eapply avail_ok_insert_sub; [done..|]. apply sublist_delete.
  - assert (t ∈ q) as Ht by by eapply list_elem_of_lookup_2.
    intros u (k' & q' & Hk' & Hu) E. simpl in Hk'. rewrite lookup_insert in Hk'.
    case_decide as Ek.
    + injection Hk' as <-. subst k'. pose proof (ao_nodup _ Ha k q Hk) as Hn.
      rewrite delete_take_drop in Hu. pose proof (take_drop_middle q i t Hq) as Eq.
      rewrite <- Eq, fmap_app, fmap_cons in Hn.
      apply NoDup_app in Hn as (_ & Hn1 & Hn2). apply NoDup_cons in Hn2 as [Hn2 _].
      apply elem_of_app in Hu as [Hu|Hu].
      * apply (Hn1 (pt_id u)); [by apply list_elem_of_fmap_2|]. rewrite E. by left.
      * apply Hn2. rewrite <- E. by apply list_elem_of_fmap_2.
    + apply Ek. eapply (ao_ids _ Ha k k' q q' t u); eauto.
Qed.

Lemma acquire_by_id_ok id : hoare pool_ok (acquire_by_id id) handed_out.
Proof.
  intros w Hw. unfold acquire_by_id. unfold mbind at 1, M_bind, gets. simpl.
  destruct (locate id (hash_iter (avail w))) as [[[[k q] i] t]|] eqn:E; [|eexists _, _; split; done].
  destruct (locate_Some _ _ _ _ _ _ E) as (Hk%elem_of_hash_iter & Ht & _).
  apply consume_handed_out; [|by apply delete_without].
  eapply listed_kind; [done|]. exists k, q. split; [done|]. by eapply list_elem_of_lookup_2.
Qed.

Lemma release_ok t :
  snapshot_type t ≠ Continuation →
  hoare (pool_ok_without (pt_id t)) (release t) (λ _, pool_ok).
Proof.
  intros Hk. unfold release. eapply hoare_seq; [by apply hoare_dir_of|]. intros d.
  eapply hoare_seq; [apply hoare_remove_marker, pool_ok_without_mem|]. intros _.
  apply hoare_modify. intros w [Ho Hf]. apply pool_ok_set_avail; [done|].
  apply avail_ok_push_back; [apply Ho|done..].
Qed.

Lemma pool_ok_bump_restores id w : pool_ok w → pool_ok (set_restores (bump id) w).
Proof. intros Ho. apply pool_ok_set_restores; [done|]. apply bump_pos, Ho. Qed.
Lemma pool_ok_bump_in_use id w : pool_ok w → pool_ok (set_in_use (bump id) w).
Proof. intros Ho. apply pool_ok_set_in_use; [done|]. apply bump_pos, Ho. Qed.

Lemma peek_latest_listed k w t : peek_latest k w = Some t → listed t (avail w).
Proof.
  unfold peek_latest. destruct (avail w !! k) as [q|] eqn:E; simpl; [|done].
  intros Hq. exists k, q. split; [done|]. rewrite (last_elem q t Hq).
  apply elem_of_app. right. by left.
Qed.

Lemma peek_latest_for_restore_ok k : hoare pool_ok (peek_latest_for_restore k) (λ _, pool_ok).
Proof.
  intros w Hw. unfold peek_latest_for_restore. munfold. simpl.
  destruct (peek_latest k w); (eexists _, _; split; [done|]); [by apply pool_ok_bump_restores|done].
Qed.
Lemma peek_with_ref_ok k : hoare pool_ok (peek_with_ref cfg k) (λ _, pool_ok).
Proof.
  intros w Hw. unfold peek_with_ref. munfold. simpl.
  destruct (peek_latest k w); [case_bool_decide|]; (eexists _, _; split; [done|]);
    [by apply pool_ok_bump_in_use|done..].
Qed.
Lemma peek_by_id_for_restore_ok id : hoare pool_ok (peek_by_id_for_restore id) (λ _, pool_ok).
Proof.
  intros w Hw. unfold peek_by_id_for_restore. munfold. simpl.
  destruct (get_template id w); (eexists _, _; split; [done|]); [by apply pool_ok_bump_restores|done].
Qed.
Lemma peek_by_id_with_ref_ok id : hoare pool_ok (peek_by_id_with_ref cfg id) (λ _, pool_ok).
Proof.
  intros w Hw. unfold peek_by_id_with_ref. munfold. simpl.
  destruct (get_template id w); [case_bool_decide|]; (eexists _, _; split; [done|]);
    [by apply pool_ok_bump_in_use|done..].
Qed.

Lemma handed_out_ok {m : M World (option PooledTemplate)} :
  hoare pool_ok m handed_out → hoare pool_ok m (λ _, pool_ok).
Proof. intros Hm. eapply hoare_conseq; [exact Hm|done|]. by intros r w []. Qed.

Lemma acquire_for_restore_ok k : hoare pool_ok (acquire_for_restore cfg k) (λ _, pool_ok).
Proof.
  intros w Hw. unfold acquire_for_restore. unfold mbind at 1, M_bind, gets. simpl.
  destruct (peek_latest k w) as [t|] eqn:E; [|eexists _, _; split; done].
  pose proof (listed_kind w t Hw (peek_latest_listed _ _ _ E)) as Hk.
  destruct (snapshot_type t); [| |done].
  - by apply peek_latest_for_restore_ok.
  - case_bool_decide; [by apply peek_with_ref_ok|]. by apply (handed_out_ok (acquire_ok k)).
Qed.

Lemma acquire_by_id_for_restore_ok id :
  hoare pool_ok (acquire_by_id_for_restore cfg id) (λ _, pool_ok).
Proof.
  intros w Hw. unfold acquire_by_id_for_restore. unfold mbind at 1, M_bind, gets. simpl.
  destruct (get_template id w) as [t|] eqn:E; [|eexists _, _; split; done].
  destruct (get_template_Some _ _ _ E) as [Hl _].
  pose proof (listed_kind w t Hw Hl) as Hk.
  destruct (snapshot_type t); [| |done].
  - by apply peek_by_id_for_restore_ok.
  - case_bool_decide; [by apply peek_by_id_with_ref_ok|].
    by apply (handed_out_ok (acquire_by_id_ok id)).
Qed.

Lemma begin_refill_ok k : hoare pool_ok (begin_refill k) (λ _, pool_ok).
Proof.
  apply hoare_modify. intros w [? ? ? Hr]. split; try done. simpl.
  apply map_Forall_insert_2; [lia|done].
Qed.

Lemma end_refill_ok k : hoare pool_ok (end_refill k) (λ _, pool_ok).
Proof.
  eapply (hoare_seq _ _ pool_ok); [|intros; apply hoare_modify; intros; by apply pool_ok_set_ready].
  apply hoare_modify. intros w [? ? ? Hr]. split; try done. simpl.
  destruct (refills w !! k) as [c|] eqn:E; [|done]. case_bool_decide.
  - by apply map_Forall_delete.
  - apply map_Forall_insert_2; [lia|done].
Qed.

Lemma rebuild_active_refs_ok shared pinned :
  hoare pool_ok (rebuild_active_refs shared pinned) (λ _, pool_ok).
Proof.
  apply hoare_modify. intros w Ho. apply pool_ok_set_in_use; [done|]. clear.
  cut (∀ m, map_Forall (λ _ n, 0 < n) m →
            map_Forall (λ _ n, 0 < n) (foldl (λ m id, bump id m) m (shared ++ pinned))).
  { intros Hc. apply Hc. apply map_Forall_empty. }
  generalize (shared ++ pinned). intros l. induction l as [|id l IH]; intros m Hm; simpl; [done|].
  apply IH. by apply bump_pos.
Qed.
End inv.
