(* ===== verification/PoolFrame.v ===== *)
(** * What pool operations leave alone

    Operations that evict (add, the collector, the admin evictions) touch
    neither the queue entries nor the directories of protected templates. The
    same lemmas give the safety of pinned templates and of templates held by
    exclusive leases. *)
From S2P Require Import Prelude Strs Storage Types Disk Pool PoolLemmas PoolInv.

Section frame.
Context `{TemplateCodec} `{HashOrder} (cfg : PoolConfig).
Implicit Types (w : World) (d : DirKey).

(** [Pr] is a set of template ids. *)
Record frame (Pr : string → Prop) w w' : Prop := {
  fr_listed : ∀ t, Pr (pt_id t) → listed t (avail w') ↔ listed t (avail w);
  fr_disk : ∀ s i, Pr i → disk w' !! (s, i) = disk w !! (s, i);
  fr_restores : restores w' = restores w;
  fr_in_use : in_use w' = in_use w
}.

#[global] Instance frame_preorder Pr : PreOrder (frame Pr).
Proof.
  split; [done|]. intros w1 w2 w3 [L1 D1 R1 I1] [L2 D2 R2 I2]. split.
  - intros t Ht. by rewrite L2, L1.
  - intros s i Hi. by rewrite D2, D1.
  - congruence.
  - congruence.
Qed.

(** Every protected template in the pool is pinned by a counter. *)
Definition guarded (Pr : string → Prop) w : Prop :=
  ∀ t, listed t (avail w) → Pr (pt_id t) →
    restoring w (pt_id t) = true ∨ referenced w (pt_id t) = true.

Lemma guarded_frame Pr w w' : frame Pr w w' → guarded Pr w → guarded Pr w'.
Proof.
  intros [L D R I] Hg t Ht HPr. unfold restoring, referenced. rewrite R, I.
  apply Hg; [|done]. by apply L.
Qed.

Lemma touches_frame Pr d w w' : touches d w w' → ¬ Pr d.2 → frame Pr w w'.
Proof.
  intros [[Ea Er Es Ei _] Hd] Hn. split; try done.
  - intros t Ht. by rewrite Ea.
  - intros s i Hi. apply Hd. intros <-. done.
Qed.

Lemma unlist_frame Pr id w : ¬ Pr id → frame Pr w (set_avail (unlist id) w).
Proof.
  intros Hn. split; try done. intros t Ht. simpl. rewrite listed_unlist.
  split; [by intros []|]. intros Hl. split; [done|]. by intros <-.
Qed.

Lemma dir_of_inv t w d w' : dir_of t w = Some (d, w') → w' = w ∧ template_dir t = Some d ∧ d.2 = pt_id t.
Proof.
  unfold dir_of, template_dir. munfold.
  destruct (snapshot_type t); intros [= <- <-]; done.
Qed.

(** ** Eviction loops *)
Lemma evict_one_frame Pr n t w n' w' :
  ¬ Pr (pt_id t) → evict_one n t w = Some (n', w') → frame Pr w w'.
Proof.
  intros Hn. unfold evict_one. unfold mbind at 1, M_bind.
  destruct (dir_of t w) as [[d w1]|] eqn:E1; [|done].
  destruct (dir_of_inv _ _ _ _ E1) as (-> & _ & Hd2).
  unfold mbind at 1, M_bind. destruct (remove_dir_all d w) as [[r w2]|] eqn:E2; [|done].
  assert (frame Pr w w2) as Hf.
  { eapply touches_frame; [by eapply remove_dir_all_touches|]. by rewrite Hd2. }
  munfold. destruct r as [[]|[]]; intros [= <- <-]; try done;
    (transitivity w2; [done|]; by apply unlist_frame).
Qed.

Lemma evict_all_frame Pr l n w n' w' :
  (∀ t, t ∈ l → ¬ Pr (pt_id t)) → foldM evict_one n l w = Some (n', w') → frame Pr w w'.
Proof.
  revert n w. induction l as [|t l IH]; intros n w Hl.
  - rewrite foldM_nil. intros [= <- <-]. done.
  - rewrite foldM_cons. destruct (evict_one n t w) as [[n1 w1]|] eqn:E; [|done].
    intros Hr. transitivity w1.
    + eapply evict_one_frame; [|done]. apply Hl. by left.
    + eapply IH; [|done]. intros u Hu. apply Hl. by right.
Qed.

Lemma gc_if_needed_frame Pr w w' :
  guarded Pr w → gc_if_needed cfg w = Some (tt, w') → frame Pr w w'.
Proof.
  intros Hg. unfold gc_if_needed. unfold mbind at 1, M_bind, gets. simpl.
  destruct (total_depth w <=? gc_watermark cfg)%nat; [by intros [= <-]|].
  unfold mbind, M_bind. destruct (foldM evict_one 0 _ w) as [[n w1]|] eqn:E; [|done].
  intros [= <-]. eapply evict_all_frame; [|done]. intros t Ht%take_subset HPr.
  apply elem_of_gc_candidates in Ht as [Hl Hc]. unfold gc_candidate in Hc.
  destruct (Hg t Hl HPr) as [Hp|Hp]; rewrite Hp in Hc; simpl in Hc; [done|].
  by rewrite andb_false_r in Hc.
Qed.

(** Eviction by kind looks at the references of a WarmFork template in
    Shared mode only. *)
Lemma evict_by_kind_frame Pr kind n w r w' :
  guarded Pr w →
  (∀ t, listed t (avail w) → Pr (pt_id t) → lease_mode cfg = Shared ∨ snapshot_type t = Environment) →
  evict_by_kind cfg kind n w = Some (r, w') → frame Pr w w'.
Proof.
  intros Hg Hm. unfold evict_by_kind. unfold mbind at 1, M_bind, gets. simpl.
  destruct (try_filter _ _) as [l|] eqn:E; [|done].
  destruct (length l <=? n)%nat; [by intros [= <- <-]|].
  intros Hr. eapply evict_all_frame; [|done]. intros t Ht%take_subset HPr.
  rewrite sort_by_perm in Ht. destruct (try_filter_elem _ _ _ _ E Ht) as [Hl Hc].
  apply elem_of_all_templates in Hl. unfold evict_candidate in Hc.
  case_bool_decide as Ek; simpl in Hc; [|done].
  destruct (Hg t Hl HPr) as [Hp|Hp]; rewrite Hp in Hc; [done|].
  destruct (restoring w (pt_id t)); [done|].
  destruct (Hm t Hl HPr) as [Hs|Hs]; [|by rewrite Hs in Hc].
  rewrite bool_decide_true in Hc by done. by destruct (snapshot_type t).
Qed.

Lemma remove_by_id_frame Pr id kind w r w' :
  guarded Pr w → remove_by_id id kind w = Some (r, w') → frame Pr w w'.
Proof.
  intros Hg. unfold remove_by_id. unfold mbind at 1, M_bind, gets. simpl.
  destruct (get_template id w) as [t|] eqn:E; [|by intros [= <- <-]].
  destruct (get_template_Some _ _ _ E) as [Hl <-].
  destruct (negb _); [by intros [= <- <-]|].
  destruct (restoring w (pt_id t)) eqn:Er; [by intros [= <- <-]|].
  destruct (referenced w (pt_id t)) eqn:Ei; [by intros [= <- <-]|].
  assert (¬ Pr (pt_id t)) as Hn.
  { intros HPr. destruct (Hg t Hl HPr); congruence. }
  unfold mbind at 1, M_bind. destruct (dir_of t w) as [[d w1]|] eqn:E1; [|done].
  destruct (dir_of_inv _ _ _ _ E1) as (-> & _ & Hd2).
  unfold mbind at 1, M_bind. destruct (remove_dir_all d w) as [[r2 w2]|] eqn:E2; [|done].
  assert (frame Pr w w2) as Hf.
  { eapply touches_frame; [by eapply remove_dir_all_touches|]. by rewrite Hd2. }
  munfold. destruct r2 as [[]|[]]; intros [= <- <-]; try done;
    (transitivity w2; [done|]; by apply unlist_frame).
Qed.

(** ** Add *)
Lemma watermark_step_frame Pr d w r w' :
  guarded Pr w → ¬ Pr d.2 → watermark_step cfg d w = Some (r, w') → frame Pr w w'.
Proof.
  intros Hg Hn. unfold watermark_step. unfold mbind at 1, M_bind, gets. simpl.
  destruct (oldest_candidate cfg w None (all_templates (avail w))) as [[c|]|] eqn:E; [| |done].
  - destruct (oldest_candidate_listed _ _ _ E) as [Hl Hev].
    assert (¬ Pr (pt_id c)) as Hc.
    { intros HPr. unfold watermark_evictable in Hev.
      destruct (Hg c Hl HPr) as [Hp|Hp]; rewrite Hp in Hev; [done|].
      destruct (restoring w (pt_id c)); [done|]. destruct (snapshot_type c); simpl in Hev; try done.
      by rewrite andb_false_r in Hev. }
    unfold mbind at 1, M_bind. destruct (dir_of c w) as [[d1 w1]|] eqn:E1; [|done].
    destruct (dir_of_inv _ _ _ _ E1) as (-> & _ & Hd2).
    unfold mbind at 1, M_bind. destruct (remove_dir_all d1 w) as [[r2 w2]|] eqn:E2; [|done].
    assert (frame Pr w w2) as Hf.
    { eapply touches_frame; [by eapply remove_dir_all_touches|]. by rewrite Hd2. }
    munfold. destruct r2 as [|].
    + intros [= <- <-]. transitivity w2; [done|]. by apply unlist_frame.
    + destruct (remove_dir_all d w2) as [[r3 w3]|] eqn:E3; [|done]. intros [= <- <-].
      transitivity w2; [done|]. eapply touches_frame; [by eapply remove_dir_all_touches|done].
  - munfold. destruct (remove_dir_all d w) as [[r3 w3]|] eqn:E3; [|done]. intros [= <- <-].
    eapply touches_frame; [by eapply remove_dir_all_touches|done].
Qed.

Lemma alter_retain_frame Pr id k w :
  ¬ Pr id →
  frame Pr w (set_avail (alter (retain (λ x, negb (bool_decide (pt_id x = id)))) k) w).
Proof.
  intros Hn. split; try done. intros t Ht. simpl. split; [apply listed_alter_retain|].
  intros (k' & q & Hk & Hq). unfold listed. setoid_rewrite lookup_alter.
  exists k'. case_decide as E; [|by eauto]. subst. rewrite Hk. eexists. split; [done|].
  apply elem_of_retain. split; [done|]. rewrite bool_decide_false; [done|]. by intros <-.
Qed.

Lemma per_key_step_frame Pr t d w r w' :
  guarded Pr w → ¬ Pr d.2 → per_key_step cfg t d w = Some (r, w') → frame Pr w w'.
Proof.
  intros Hg Hn. unfold per_key_step. destruct (kind_max cfg t) as [n|]; [|done].
  unfold mbind at 1, M_bind, gets. simpl.
  destruct (per_key_eviction t n w) as [[o [|]]|] eqn:E; [| |by intros [= <- <-]].
  - destruct (per_key_eviction_head _ _ _ _ _ E) as (q & Hq & Ho & _ & Eb).
    assert (¬ Pr (pt_id o)) as Hc.
    { intros HPr. destruct (Hg o) as [Hp|Hp]; [unfold listed; eauto|done|..];
        rewrite Hp in Eb; simpl in Eb; rewrite ?andb_false_r in Eb; done. }
    unfold mbind at 1, M_bind. destruct (dir_of o w) as [[d1 w1]|] eqn:E1; [|done].
    destruct (dir_of_inv _ _ _ _ E1) as (-> & _ & Hd2).
    unfold mbind at 1, M_bind. destruct (remove_dir_all d1 w) as [[r2 w2]|] eqn:E2; [|done].
    assert (frame Pr w w2) as Hf.
    { eapply touches_frame; [by eapply remove_dir_all_touches|]. by rewrite Hd2. }
    munfold. destruct r2 as [|].
    + intros [= <- <-]. transitivity w2; [done|]. by apply alter_retain_frame.
    + destruct (remove_dir_all d w2) as [[r3 w3]|] eqn:E3; [|done]. intros [= <- <-].
      transitivity w2; [done|]. eapply touches_frame; [by eapply remove_dir_all_touches|done].
  - munfold. destruct (remove_dir_all d w) as [[r3 w3]|] eqn:E3; [|done]. intros [= <- <-].
    eapply touches_frame; [by eapply remove_dir_all_touches|done].
Qed.

Lemma push_back_frame Pr t w : ¬ Pr (pt_id t) → frame Pr w (set_avail (push_back t) w).
Proof.
  intros Hn. split; try done. intros u Hu. simpl. rewrite listed_push_back.
  split; [|by left]. intros [| ->]; done.
Qed.

Lemma insert_step_frame Pr t d w r w' :
  ¬ Pr (pt_id t) → ¬ Pr d.2 → insert_step t d w = Some (r, w') → frame Pr w w'.
Proof.
  intros Ht Hn. unfold insert_step. unfold mbind at 1, M_bind.
  destruct (save t d w) as [[r1 w1]|] eqn:E; [|done].
  assert (frame Pr w w1) as Hf by (eapply touches_frame; [by eapply save_touches|done]).
  munfold. destruct r1; intros [= <- <-]; [|done].
  transitivity w1; [done|]. transitivity (set_avail (push_back t) w1); [by apply push_back_frame|].
  by split.
Qed.

Lemma add_frame Pr t w r w' :
  guarded Pr w → ¬ Pr (pt_id t) → add cfg t w = Some (r, w') → frame Pr w w'.
Proof.
  intros Hg Ht. unfold add. unfold mbind at 1, M_bind.
  destruct (dir_of t w) as [[d w0]|] eqn:E0; [|done].
  destruct (dir_of_inv _ _ _ _ E0) as (-> & _ & Hd2). rewrite <- Hd2 in Ht.
  unfold mbind at 1, M_bind. destruct (create_dir_all d w) as [[r1 w1]|] eqn:E1; [|done].
  assert (frame Pr w w1) as F1 by (eapply touches_frame; [by eapply create_dir_all_touches|done]).
  destruct r1 as [|]; [|by intros [= <- <-]].
  unfold mbind at 1, M_bind, gets.
  unfold mbind at 1, M_bind.
  destruct ((if (gc_watermark cfg <=? total_depth w1)%nat then watermark_step cfg d
             else mret (Ok tt)) w1) as [[r2 w2]|] eqn:E2; [|done].
  assert (frame Pr w1 w2) as F2.
  { destruct (gc_watermark cfg <=? total_depth w1)%nat.
    - eapply watermark_step_frame; [by eapply guarded_frame|done..].
    - by injection E2 as <- <-. }
  destruct r2 as [|]; [|intros [= <- <-]; by transitivity w1].
  unfold mbind at 1, M_bind.
  destruct (per_key_step cfg t d w2) as [[r3 w3]|] eqn:E3; [|done].
  assert (frame Pr w w2) as F12 by by transitivity w1.
  assert (frame Pr w2 w3) as F3.
  { eapply per_key_step_frame; [by eapply guarded_frame|done..]. }
  destruct r3 as [|]; [|intros [= <- <-]; by transitivity w2].
  intros E4. transitivity w2; [done|]. transitivity w3; [done|].
  eapply insert_step_frame; [|done..]. by rewrite <- Hd2.
Qed.

(** ** Pinned templates *)

(** A restore is in flight from the template or a sandbox references it. *)
Definition pinned w (i : string) : Prop := is_Some (restores w !! i) ∨ is_Some (in_use w !! i).

Lemma pinned_guarded w : guarded (pinned w) w.
Proof. intros t _ [Hp|Hp]; [left|right]; by apply bool_decide_eq_true. Qed.

(** ** Dropping a reference *)
Definition drop_one (i : string) (m : gmap string nat) : gmap string nat :=
  match m !! i with
  | Some (S c) => if bool_decide (c = 0) then delete i m else <[i := c]> m
  | _ => m
  end.

Lemma lookup_drop_one i m : default 0 (drop_one i m !! i) = default 0 (m !! i) - 1.
Proof.
  unfold drop_one. destruct (m !! i) as [[|c]|] eqn:E; simpl; [by rewrite E| |by rewrite E].
  case_bool_decide; [subst; by rewrite lookup_delete_eq|].
  rewrite lookup_insert_eq. simpl. lia.
Qed.
Lemma lookup_drop_one_ne i j m : i ≠ j → drop_one i m !! j = m !! j.
Proof.
  intros Hn. unfold drop_one. destruct (m !! i) as [[|c]|]; try done.
  case_bool_decide; [by rewrite lookup_delete_ne|by rewrite lookup_insert_ne].
Qed.

Lemma set_restores_id f w : f (restores w) = restores w → set_restores f w = w.
Proof. unfold set_restores. intros ->. by destruct w. Qed.
Lemma set_in_use_id f w : f (in_use w) = in_use w → set_in_use f w = w.
Proof. unfold set_in_use. intros ->. by destruct w. Qed.

Lemma end_restore_frame Pr i w w' :
  guarded Pr (set_restores (drop_one i) w) → end_restore cfg i w = Some (tt, w') →
  frame Pr (set_restores (drop_one i) w) w'.
Proof.
  unfold end_restore. unfold mbind at 1, M_bind, gets. simpl.
  destruct (restores w !! i) as [[|c]|] eqn:E.
  - rewrite set_restores_id by (unfold drop_one; by rewrite E). by intros _ [= <-].
  - case_bool_decide as Ec.
    + assert (set_restores (drop_one i) w = set_restores (delete i) w) as ->.
      { unfold set_restores, drop_one. by rewrite E, bool_decide_true. }
      apply gc_if_needed_frame.
    + assert (set_restores (drop_one i) w = set_restores (insert i c) w) as ->.
      { unfold set_restores, drop_one. by rewrite E, bool_decide_false. }
      by intros _ [= <-].
  - rewrite set_restores_id by (unfold drop_one; by rewrite E). by intros _ [= <-].
Qed.

Lemma deref_frame Pr i w w' :
  guarded Pr (set_in_use (drop_one i) w) → deref cfg i w = Some (tt, w') →
  frame Pr (set_in_use (drop_one i) w) w'.
Proof.
  unfold deref. unfold mbind at 1, M_bind, gets. simpl.
  destruct (in_use w !! i) as [[|c]|] eqn:E.
  - rewrite set_in_use_id by (unfold drop_one; by rewrite E). by intros _ [= <-].
  - case_bool_decide as Ec.
    + assert (set_in_use (drop_one i) w = set_in_use (delete i) w) as ->.
      { unfold set_in_use, drop_one. by rewrite E, bool_decide_true. }
      apply gc_if_needed_frame.
    + assert (set_in_use (drop_one i) w = set_in_use (insert i c) w) as ->.
      { unfold set_in_use, drop_one. by rewrite E, bool_decide_false. }
      by intros _ [= <-].
  - rewrite set_in_use_id by (unfold drop_one; by rewrite E). by intros _ [= <-].
Qed.

(** ** Exclusive acquisition *)
Definition others (i : string) : string → Prop := λ j, j ≠ i.

Lemma frame_weaken (Pr Pr' : string → Prop) w w' : (∀ i, Pr' i → Pr i) → frame Pr w w' → frame Pr' w w'.
Proof. intros Hi [L D R I]. split; auto. Qed.

Lemma insert_frame t k q q' w :
  avail w !! k = Some q → (∀ u, pt_id u ≠ pt_id t → u ∈ q' ↔ u ∈ q) →
  frame (others (pt_id t)) w (set_avail (insert k q') w).
Proof.
  intros Hk Hq. split; try done. intros u Hu. simpl. unfold listed. split.
  - intros (k' & r & Hr & Hin). rewrite lookup_insert in Hr. case_decide; [|eauto].
    injection Hr as <-. subst. exists k', q. split; [done|]. by apply Hq.
  - intros (k' & r & Hr & Hin). destruct (decide (k = k')) as [<-|Hne].
    + rewrite Hk in Hr. injection Hr as <-. exists k, q'. rewrite lookup_insert_eq.
      split; [done|]. by apply Hq.
    + exists k', r. by rewrite lookup_insert_ne.
Qed.

(** The marker of a consumed template is on disk when it is handed out. *)
Definition marked t w : Prop :=
  ∃ d x, template_dir t = Some d ∧ disk w !! d = Some x ∧ d_consumed x = true.

Lemma consume_frame t w r w' :
  consume t w = Some (r, w') →
  frame (others (pt_id t)) w w' ∧ (r = None ∨ r = Some t ∧ marked t w').
Proof.
  unfold consume. unfold mbind at 1, M_bind.
  destruct (dir_of t w) as [[d w1]|] eqn:E1; [|done].
  destruct (dir_of_inv _ _ _ _ E1) as (-> & Hd & Hd2).
  unfold mbind at 1, M_bind. destruct (write_consumed_marker d w) as [[r2 w2]|] eqn:E2; [|done].
  assert (frame (others (pt_id t)) w w2) as Hf.
  { eapply touches_frame; [by eapply write_consumed_marker_touches|].
    rewrite Hd2. unfold others. congruence. }
  munfold. destruct r2 as [[]|]; intros [= <- <-].
  - split; [done|]. right. split; [done|].
    destruct (write_consumed_marker_ok _ _ _ E2) as (x & _ & Ex).
    exists d. eexists. rewrite Ex, lookup_insert_eq. done.
  - split; [|by left]. transitivity w2; [done|]. apply push_back_frame. unfold others. congruence.
Qed.

Lemma acquire_frame k t w r w' :
  peek_latest k w = Some t → acquire k w = Some (r, w') →
  frame (others (pt_id t)) w w' ∧ (r = None ∨ r = Some t ∧ marked t w').
Proof.
  unfold peek_latest, acquire. unfold mbind at 2, M_bind, gets.
  destruct (avail w !! k) as [q|] eqn:Eq; simpl; [|done]. intros El. rewrite El.
  unfold mbind, M_bind, modify. intros Hc. destruct (consume_frame _ _ _ _ Hc) as [Hf Hr].
  split; [|done]. etrans; [|exact Hf]. apply (insert_frame t k q); [done|].
  intros u Hu. rewrite (last_elem q t El) at 3. rewrite elem_of_app, list_elem_of_singleton.
  split; [by left|]. by intros [| ->].
Qed.

Lemma acquire_by_id_frame i t w r w' :
  pool_ok w → get_template i w = Some t → acquire_by_id i w = Some (r, w') →
  frame (others (pt_id t)) w w' ∧ (r = None ∨ r = Some t ∧ marked t w').
Proof.
  intros Ho Hg. unfold acquire_by_id. unfold mbind at 1, M_bind, gets.
  destruct (locate i _) as [[[[k q] j] u]|] eqn:E.
  2:{ intros [= <- <-]. split; [done|by left]. }
  destruct (locate_Some _ _ _ _ _ _ E) as (Hk%elem_of_hash_iter & Hu & Ei).
  assert (u = t) as ->.
  { destruct (get_template_Some _ _ _ Hg) as [Hl Et].
    eapply listed_inj; [apply Ho| |done|congruence].
    exists k, q. split; [done|]. by eapply list_elem_of_lookup_2. }
  unfold mbind, M_bind, modify. intros Hc. destruct (consume_frame _ _ _ _ Hc) as [Hf Hr].
  split; [|done]. etrans; [|exact Hf]. apply (insert_frame t k q); [done|].
  intros v Hv. rewrite delete_take_drop. rewrite <- (take_drop_middle q j t Hu) at 3.
  rewrite !elem_of_app, elem_of_cons. split; [tauto|]. intros [|[-> |]]; [by left|done|by right].
Qed.

Lemma release_frame t w w' :
  release t w = Some (tt, w') → frame (others (pt_id t)) w w' ∧ listed t (avail w').
Proof.
  unfold release. unfold mbind at 1, M_bind.
  destruct (dir_of t w) as [[d w1]|] eqn:E1; [|done].
  destruct (dir_of_inv _ _ _ _ E1) as (-> & Hd & Hd2).
  unfold mbind at 1, M_bind. destruct (remove_marker d w) as [[r2 w2]|] eqn:E2; [|done].
  intros [= <-]. split.
  - transitivity w2.
    + eapply touches_frame; [by eapply remove_marker_touches|].
      rewrite Hd2. unfold others. congruence.
    + apply push_back_frame. unfold others. congruence.
  - simpl. rewrite listed_push_back. by right.
Qed.

Lemma cleanup_consumed_frame i w w' :
  cleanup_consumed i w = Some (tt, w') → frame (others i) w w' ∧ same_pool w w'.
Proof.
  unfold cleanup_consumed. unfold mbind at 1, M_bind.
  destruct (find_template_dir i w) as [[d w1]|] eqn:E1; [|done].
  assert (touches d w w1 ∧ d.2 = i) as [T1 Hd].
  { revert E1. unfold find_template_dir, dir_exists, io_next. munfold.
    intros E1. repeat (msplit; simplify_eq/=); done. }
  unfold mbind at 1, M_bind. destruct (marker_exists d w1) as [[r w2]|] eqn:E2; [|done].
  pose proof (marker_exists_touches _ _ _ _ E2) as T2.
  assert (touches d w w' → frame (others i) w w' ∧ same_pool w w') as Hgoal.
  { intros T. split; [|apply T]. eapply touches_frame; [done|]. rewrite Hd. unfold others. congruence. }
  unfold mbind at 1, M_bind.
  destruct r as [[|]|]; [|intros [= <-]; apply Hgoal; by etrans..].
  destruct (remove_dir_all d w2) as [[r3 w3]|] eqn:E3; [|done]. intros [= <-].
  apply Hgoal. etrans; [done|]. etrans; [done|]. by eapply remove_dir_all_touches.
Qed.
End frame.
