(* ===== verification/PoolSys.v ===== *)
(** * The pool and its lease holders

    A transition system over the template pool and everybody who holds a
    claim on one of its templates: restores in flight, running sandboxes that
    reference a shared template and sandboxes that own a consumed one. One
    step is one complete pool operation as the sandboxer, the refill task or
    the admin service calls it ([sandbox.rs] [start_from_snapshot], [delete],
    [service/mod.rs]); the file system may answer anything in each step. The
    operations run one after the other here; the source releases its locks
    before it deletes directories, and the interleavings this allows are the
    subject of [PoolConc]. *)
From S2P Require Import Prelude Strs Storage Types Disk Pool PoolLemmas PoolInv PoolFrame.

(** [Restoring]: an Environment lease in flight. [Referencing]: a SharedRef
    lease or a running sandbox counted in [in_use_count]. [Owning]: an
    exclusive lease in flight. [Consumed]: a sandbox that runs from a consumed
    template. *)
Inductive Claim := Restoring | Referencing | Owning | Consumed.

#[global] Instance Claim_eq_dec : EqDecision Claim.
Proof. solve_decision. Defined.

Section sys.
Context `{TemplateCodec} `{HashOrder} (cfg : PoolConfig).
Implicit Types (w : World) (d : DirKey).

(** [h_dir] is what the template's directory held when the claim began. *)
Record Hold := mkHold { h_tmpl : PooledTemplate; h_claim : Claim; h_dir : option Dir }.

Definition h_id (h : Hold) : string := pt_id (h_tmpl h).

Record Sys := mkSys { world : World; holds : list Hold }.

Definition on_disk (t : PooledTemplate) w : option Dir := template_dir t ≫= λ d, disk w !! d.

(** How a restore asks for a template. *)
Inductive Ask := ByKey (k : TemplateKey) | ById (i : string).

Definition ask (a : Ask) : M World (option PooledTemplate) :=
  match a with
  | ByKey k => acquire_for_restore cfg k
  | ById i => acquire_by_id_for_restore cfg i
  end.

Definition claim_of (k : RestoreLeaseKind) : Claim :=
  match k with SharedLease => Restoring | SharedRef => Referencing | ExclusiveLease => Owning end.

Definition lease_of (h : Hold) : option TemplateLease :=
  match h_claim h with
  | Restoring => Some (mkLease (h_tmpl h) SharedLease)
  | Referencing => Some (mkLease (h_tmpl h) SharedRef)
  | Owning => Some (mkLease (h_tmpl h) ExclusiveLease)
  | Consumed => None
  end.

Definition grant (a : Ask) : M World (option Hold) :=
  o ← ask a;
  match o with
  | None => mret None
  | Some t =>
      l ← lease_new cfg t;
      dir ← gets (on_disk t);
      mret (Some (mkHold t (claim_of (l_kind l)) dir))
  end.

(** What is left of a claim when its lease completes. *)
Definition completed (h : Hold) : list Hold :=
  match h_claim h with
  | Restoring => []
  | Referencing => [h]
  | Owning | Consumed => [mkHold (h_tmpl h) Consumed (h_dir h)]
  end.

(** Requests that need no claim. *)
Inductive Request :=
  | RAdd (t : PooledTemplate)
  | RGc
  | REvict (kind : SnapshotType) (target : nat)
  | RRemove (i : string) (kind : SnapshotType)
  | RBeginRefill (k : TemplateKey)
  | REndRefill (k : TemplateKey)
  | RCleanup (i : string)
  | RPrepare (d : DirKey)
  | RDiscard (d : DirKey).

Definition serve (r : Request) : M World unit :=
  match r with
  | RAdd t => _ ← add cfg t; mret tt
  | RGc => gc_if_needed cfg
  | REvict kind n => _ ← evict_by_kind cfg kind n; mret tt
  | RRemove i kind => _ ← remove_by_id i kind; mret tt
  | RBeginRefill k => begin_refill k
  | REndRefill k => end_refill k
  | RCleanup i => cleanup_consumed i
  | RPrepare d => _ ← create_dir_all d; mret tt
  | RDiscard d => _ ← remove_dir_all d; mret tt
  end.

(** Template ids are fresh UUIDs when a template is added; without a claim
    only ids that are not in the store are cleaned up. The directory of a
    template to be added is made before, and removed again when its creation
    fails. *)
Definition allowed (s : Sys) (r : Request) : Prop :=
  match r with
  | RAdd t => snapshot_type t ≠ Continuation ∧ fresh_id (pt_id t) (avail (world s)) ∧
              (∀ h, h ∈ holds s → h_id h ≠ pt_id t)
  | RCleanup i => ∀ sd, disk (world s) !! (sd, i) = None
  | RPrepare d | RDiscard d => ∀ h, h ∈ holds s → h_id h ≠ d.2
  | _ => True
  end.

(** What a sandbox that ends does with its claim ([sandbox.rs] [delete]). *)
Definition sandbox_gone (h : Hold) : M World unit :=
  match h_claim h with
  | Referencing => deref cfg (h_id h)
  | _ => cleanup_consumed (h_id h)
  end.

Inductive step : Sys → Sys → Prop :=
  | step_serve s io r w' :
      allowed s r → serve r (set_io io (world s)) = Some (tt, w') →
      step s (mkSys w' (holds s))
  | step_grant s io a o w' :
      grant a (set_io io (world s)) = Some (o, w') →
      step s (mkSys w' (option_list o ++ holds s))
  | step_complete s io hs1 h hs2 l w' :
      holds s = hs1 ++ h :: hs2 → lease_of h = Some l →
      lease_complete cfg l (set_io io (world s)) = Some (tt, w') →
      step s (mkSys w' (hs1 ++ completed h ++ hs2))
  | step_fail s io hs1 h hs2 l w' :
      holds s = hs1 ++ h :: hs2 → lease_of h = Some l →
      lease_fail cfg l (set_io io (world s)) = Some (tt, w') →
      step s (mkSys w' (hs1 ++ hs2))
  (** an Environment restore with a file-backed memory mode pins the
      template for the sandbox before its lease completes *)
  | step_pin s h w' :
      h ∈ holds s → h_claim h = Restoring →
      ref_template (h_id h) (world s) = Some (tt, w') →
      step s (mkSys w' (mkHold (h_tmpl h) Referencing (h_dir h) :: holds s))
  | step_sandbox_gone s io hs1 h hs2 w' :
      holds s = hs1 ++ h :: hs2 → h_claim h = Referencing ∨ h_claim h = Consumed →
      sandbox_gone h (set_io io (world s)) = Some (tt, w') →
      step s (mkSys w' (hs1 ++ hs2)).

(** Metadata that parses is the metadata of the template whose directory it
    is in. *)
Definition well_placed w : Prop :=
  ∀ d x j t, disk w !! d = Some x → d_meta x = Some j → from_json j = Some t → template_dir t = Some d.

(** A pool that was just loaded: nobody holds anything. *)
Definition initial (s : Sys) : Prop :=
  pool_ok (world s) ∧ well_placed (world s) ∧ restores (world s) = ∅ ∧ in_use (world s) = ∅ ∧ holds s = [].

Inductive reachable : Sys → Prop :=
  | reachable_init s : initial s → reachable s
  | reachable_step s s' : reachable s → step s s' → reachable s'.

(** ** The invariant *)
Definition claims (c : Claim) (i : string) (hs : list Hold) : nat :=
  length (retain (λ h, bool_decide (h_claim h = c) && bool_decide (h_id h = i)) hs).

Lemma claims_app c i l k : claims c i (l ++ k) = claims c i l + claims c i k.
Proof. unfold claims, retain. by rewrite List.filter_app, length_app. Qed.

Lemma claims_cons c i h hs :
  claims c i (h :: hs) =
    (if bool_decide (h_claim h = c) && bool_decide (h_id h = i) then 1 else 0) + claims c i hs.
Proof. unfold claims. simpl. by destruct (_ && _). Qed.

Lemma claims_cons_ne c i h hs : h_claim h ≠ c → claims c i (h :: hs) = claims c i hs.
Proof. intros Hc. rewrite claims_cons. by rewrite bool_decide_false. Qed.

Lemma claims_cons_eq c i h hs :
  h_claim h = c → claims c i (h :: hs) = (if bool_decide (h_id h = i) then 1 else 0) + claims c i hs.
Proof. intros Hc. rewrite claims_cons. by rewrite bool_decide_true. Qed.

Lemma claims_pos c i hs : 0 < claims c i hs ↔ ∃ h, h ∈ hs ∧ h_claim h = c ∧ h_id h = i.
Proof.
  induction hs as [|h hs IH].
  - split; [cbn; lia|]. intros (h & Hh & _). by apply elem_of_nil in Hh.
  - rewrite claims_cons. setoid_rewrite elem_of_cons. split.
    + intros Hp. destruct (_ && _) eqn:E.
      * apply andb_true_iff in E as [E1%bool_decide_eq_true E2%bool_decide_eq_true]. eauto.
      * destruct (proj1 IH) as (h' & ? & ?); [lia|eauto].
    + intros (h' & [->|Hh] & Hc & Hi).
      * rewrite !bool_decide_true by done. simpl. lia.
      * pose proof (proj2 IH (ex_intro _ h' (conj Hh (conj Hc Hi)))). lia.
Qed.

Definition shared_claim (c : Claim) : Prop := c = Restoring ∨ c = Referencing.

Record hold_ok w (h : Hold) : Prop := {
  ho_kind : match h_claim h with
            | Restoring => snapshot_type (h_tmpl h) = Environment
            | Referencing => lease_mode cfg = Shared ∨ snapshot_type (h_tmpl h) = Environment
            | Owning | Consumed => snapshot_type (h_tmpl h) = WarmFork ∧ lease_mode cfg = Exclusive
            end;
  ho_pool : match h_claim h with
            | Restoring | Referencing => listed (h_tmpl h) (avail w)
            | Owning | Consumed =>
                fresh_id (h_id h) (avail w) ∧ ∃ x, h_dir h = Some x ∧ d_consumed x = true
            end;
  ho_disk : on_disk (h_tmpl h) w = h_dir h
}.

Record sys_ok (s : Sys) : Prop := {
  so_pool : pool_ok (world s);
  so_restores : ∀ i, default 0 (restores (world s) !! i) = claims Restoring i (holds s);
  so_in_use : ∀ i, default 0 (in_use (world s) !! i) = claims Referencing i (holds s);
  so_hold : ∀ h, h ∈ holds s → hold_ok (world s) h;
  so_excl : ∀ i, claims Owning i (holds s) + claims Consumed i (holds s) ≤ 1
}.

(** [sys_ok] less the well-formedness of the pool, over world and claims. *)
Record inv w (hs : list Hold) : Prop := {
  in_restores : ∀ i, default 0 (restores w !! i) = claims Restoring i hs;
  in_in_use : ∀ i, default 0 (in_use w !! i) = claims Referencing i hs;
  in_hold : ∀ h, h ∈ hs → hold_ok w h;
  in_excl : ∀ i, claims Owning i hs + claims Consumed i hs ≤ 1
}.

Lemma sys_ok_inv w hs : sys_ok (mkSys w hs) ↔ pool_ok w ∧ inv w hs.
Proof.
  split; [intros [? ? ? ? ?]; split; [done|by split]|intros [? [? ? ? ?]]; by split].
Qed.

Definition held (hs : list Hold) (i : string) : Prop := ∃ h, h ∈ hs ∧ h_id h = i.

Lemma on_disk_frame Pr t w w' : frame Pr w w' → Pr (pt_id t) → on_disk t w' = on_disk t w.
Proof.
  intros Hf Ht. unfold on_disk, template_dir. destruct (snapshot_type t); simpl; try done;
    by apply (fr_disk _ _ _ Hf).
Qed.

Lemma hold_ok_frame Pr w w' h : frame Pr w w' → Pr (h_id h) → hold_ok w h → hold_ok w' h.
Proof.
  intros Hf Hh [Hk Hp Hd]. split; [done| |by rewrite (on_disk_frame Pr _ w)].
  destruct (h_claim h).
  - by apply (fr_listed _ _ _ Hf).
  - by apply (fr_listed _ _ _ Hf).
  - destruct Hp as [Hp Hx]. split; [|done]. intros t Ht E.
    apply (Hp t); [|done]. apply (fr_listed _ _ _ Hf); [by rewrite E|done].
  - destruct Hp as [Hp Hx]. split; [|done]. intros t Ht E.
    apply (Hp t); [|done]. apply (fr_listed _ _ _ Hf); [by rewrite E|done].
Qed.

Lemma inv_frame w w' hs : frame (held hs) w w' → inv w hs → inv w' hs.
Proof.
  intros Hf [Hr Hi Hh He]. split; [..|done].
  - intros i. by rewrite (fr_restores _ _ _ Hf).
  - intros i. by rewrite (fr_in_use _ _ _ Hf).
  - intros h Hin. eapply hold_ok_frame; [done| |by apply Hh]. unfold held. eauto.
Qed.

(** A claim on a listed template is a shared one, and is counted. *)
Lemma held_listed w hs t :
  avail_ok (avail w) → inv w hs → listed t (avail w) → held hs (pt_id t) →
  (lease_mode cfg = Shared ∨ snapshot_type t = Environment) ∧
  (restoring w (pt_id t) = true ∨ referenced w (pt_id t) = true).
Proof.
  intros Ha Hinv Hl (h & Hin & Ei). destruct (in_hold _ _ Hinv h Hin) as [Hk Hp _].
  destruct (h_claim h) eqn:Ec.
  - assert (h_tmpl h = t) as <- by by eapply listed_inj. split; [by right|]. left.
    apply bool_decide_eq_true.
    assert (0 < claims Restoring (h_id h) hs) as Hpos by (apply claims_pos; eauto).
    rewrite <- (in_restores _ _ Hinv) in Hpos. unfold h_id in Hpos.
    destruct (restores w !! pt_id (h_tmpl h)); [eauto|simpl in Hpos; lia].
  - assert (h_tmpl h = t) as <- by by eapply listed_inj. split; [done|]. right.
    apply bool_decide_eq_true.
    assert (0 < claims Referencing (h_id h) hs) as Hpos by (apply claims_pos; eauto).
    rewrite <- (in_in_use _ _ Hinv) in Hpos. unfold h_id in Hpos.
    destruct (in_use w !! pt_id (h_tmpl h)); [eauto|simpl in Hpos; lia].
  - destruct Hp as [Hp _]. by destruct (Hp t Hl).
  - destruct Hp as [Hp _]. by destruct (Hp t Hl).
Qed.

Lemma inv_guarded w hs : avail_ok (avail w) → inv w hs → guarded (held hs) w.
Proof. intros Ha Hinv t Hl Hh. by apply (held_listed w hs t). Qed.

Lemma set_io_frame Pr io w : frame Pr w (set_io io w).
Proof. by split. Qed.

Lemma set_io_ok io w hs : pool_ok w → inv w hs → pool_ok (set_io io w) ∧ inv (set_io io w) hs.
Proof.
  intros Ho Hi. split; [by eapply (pool_ok_mem w)|]. eapply inv_frame; [apply set_io_frame|done].
Qed.

(** ** Requests *)

Lemma cleanup_consumed_total i w : is_Some (cleanup_consumed i w).
Proof.
  unfold cleanup_consumed, find_template_dir, dir_exists, marker_exists, io_next. munfold.
  repeat (msplit; simplify_eq/=); try (eexists; reflexivity);
    match goal with E : remove_dir_all ?d ?v = None |- _ =>
      destruct (remove_dir_all_total d v); congruence end.
Qed.

(** Cleaning up an id without a directory only consumes I/O outcomes. *)
Lemma cleanup_absent i w :
  (∀ sd, disk w !! (sd, i) = None) → ∃ l, cleanup_consumed i w = Some (tt, set_io l w).
Proof.
  intros Hn. assert (∀ w, w = set_io (io w) w) as Eio by by intros [].
  unfold cleanup_consumed, find_template_dir, dir_exists, marker_exists, io_next.
  munfold. destruct (io w) as [|[] [|[] [|[] l]]] eqn:E; simpl; rewrite ?E; simpl; rewrite ?Hn; simpl;
    rewrite ?E; simpl; rewrite ?Hn; eexists; first [reflexivity|by rewrite <- Eio|idtac].
Qed.

Lemma serve_ok s r :
  allowed s r → hoare (λ w, pool_ok w ∧ avail w = avail (world s)) (serve r) (λ _, pool_ok).
Proof.
  intros Hal. destruct r; simpl in *.
  - destruct Hal as (Hk & Hf & _).
    apply hoare_ignore. eapply hoare_conseq; [by apply add_total| |done]. intros w [Ho Ea].
    split; [done|]. by rewrite Ea.
  - eapply hoare_conseq; [apply gc_if_needed_ok|by intros w []|done].
  - apply hoare_ignore. eapply hoare_conseq; [apply evict_by_kind_ok|by intros w []|done].
  - apply hoare_ignore. eapply hoare_conseq; [apply remove_by_id_ok|by intros w []|done].
  - eapply hoare_conseq; [apply begin_refill_ok|by intros w []|done].
  - eapply hoare_conseq; [apply end_refill_ok|by intros w []|done].
  - intros w [Ho _]. destruct (cleanup_consumed_total i w) as [[[] w'] E]. exists tt, w'. split; [done|].
    eapply pool_ok_mem; [by eapply cleanup_consumed_frame|done].
  - apply hoare_ignore. eapply hoare_conseq; [apply hoare_create_dir_all, pool_ok_mem|by intros w []|done].
  - apply hoare_ignore. eapply hoare_conseq; [apply hoare_remove_dir_all, pool_ok_mem|by intros w []|done].
Qed.

Lemma serve_frame w hs r w' :
  pool_ok w → inv w hs → allowed (mkSys w hs) r → serve r w = Some (tt, w') →
  frame (held hs) w w'.
Proof.
  intros Ho Hinv Hal. pose proof (inv_guarded w hs (po_avail _ Ho) Hinv) as Hg.
  destruct r; simpl in *.
  - destruct Hal as (Hk & Hf & Hn). munfold. destruct (add cfg t w) as [[r w1]|] eqn:E; [|done].
    intros [= <-]. eapply add_frame; [done| |done]. intros (h & Hin & Ei). by eapply Hn.
  - by apply gc_if_needed_frame.
  - munfold. destruct (evict_by_kind cfg kind target w) as [[r w1]|] eqn:E; [|done].
    intros [= <-]. eapply evict_by_kind_frame; [done| |done].
    intros t Hl Hh. eapply held_listed; [apply Ho|done..].
  - munfold. destruct (remove_by_id i kind w) as [[r w1]|] eqn:E; [|done].
    intros [= <-]. by eapply remove_by_id_frame.
  - intros [= <-]. by split.
  - intros [= <-]. by split.
  - destruct (cleanup_absent i w Hal) as [l ->]. intros [= <-]. by split.
  - munfold. destruct (create_dir_all d w) as [[r w1]|] eqn:E; [|done]. intros [= <-].
    eapply touches_frame; [by eapply create_dir_all_touches|]. intros (h & Hin & Ei). by apply (Hal h).
  - munfold. destruct (remove_dir_all d w) as [[r w1]|] eqn:E; [|done]. intros [= <-].
    eapply touches_frame; [by eapply remove_dir_all_touches|]. intros (h & Hin & Ei). by apply (Hal h).
Qed.

(** ** Claims that begin *)
Lemma lookup_bump i m j : default 0 (bump i m !! j) = default 0 (m !! j) + (if bool_decide (i = j) then 1 else 0).
Proof.
  unfold bump. rewrite lookup_insert. case_decide as E.
  - subst. rewrite bool_decide_true by done. simpl. lia.
  - rewrite bool_decide_false by done. lia.
Qed.

Lemma hold_ok_same w w' h :
  avail w' = avail w → disk w' = disk w → hold_ok w h → hold_ok w' h.
Proof.
  intros Ea Ed [Hk Hp Hd]. split; [done|by rewrite Ea|]. unfold on_disk in *. by rewrite Ed.
Qed.

Lemma inv_restoring w hs t :
  inv w hs → snapshot_type t = Environment → listed t (avail w) →
  inv (set_restores (bump (pt_id t)) w) (mkHold t Restoring (on_disk t w) :: hs).
Proof.
  intros [Hr Hi Hh He] Hk Hl. split.
  - intros i. rewrite claims_cons_eq by done. simpl. rewrite lookup_bump, Hr. unfold h_id. simpl. lia.
  - intros i. by rewrite claims_cons_ne.
  - intros h [->|Hin]%elem_of_cons; [by split|]. eapply hold_ok_same; [..|by apply Hh]; done.
  - intros i. by rewrite !claims_cons_ne.
Qed.

Lemma inv_referencing w hs t :
  inv w hs → (lease_mode cfg = Shared ∨ snapshot_type t = Environment) → listed t (avail w) →
  inv (set_in_use (bump (pt_id t)) w) (mkHold t Referencing (on_disk t w) :: hs).
Proof.
  intros [Hr Hi Hh He] Hk Hl. split.
  - intros i. by rewrite claims_cons_ne.
  - intros i. rewrite claims_cons_eq by done. simpl. rewrite lookup_bump, Hi. unfold h_id. simpl. lia.
  - intros h [->|Hin]%elem_of_cons; [by split|]. eapply hold_ok_same; [..|by apply Hh]; done.
  - intros i. by rewrite !claims_cons_ne.
Qed.

(** A listed WarmFork template of an Exclusive pool is claimed by nobody. *)
Lemma exclusive_unheld w hs t :
  avail_ok (avail w) → inv w hs → listed t (avail w) → snapshot_type t = WarmFork →
  lease_mode cfg = Exclusive → ¬ held hs (pt_id t).
Proof.
  intros Ha Hinv Hl Hk Hm Hh. destruct (held_listed w hs t Ha Hinv Hl Hh) as [[E|E] _]; congruence.
Qed.

Lemma inv_owning w w' hs t :
  inv w hs → ¬ held hs (pt_id t) → frame (others (pt_id t)) w w' →
  snapshot_type t = WarmFork → lease_mode cfg = Exclusive →
  fresh_id (pt_id t) (avail w') → marked t w' →
  inv w' (mkHold t Owning (on_disk t w') :: hs).
Proof.
  intros Hinv Hn Hf Hk Hm Hfr (d & x & Hd & Hx & Hc).
  assert (inv w' hs) as [Hr Hi Hh He].
  { eapply inv_frame; [|done]. eapply frame_weaken; [|done]. intros i Hi ->. done. }
  split.
  - intros i. by rewrite claims_cons_ne.
  - intros i. by rewrite claims_cons_ne.
  - intros h [->|Hin]%elem_of_cons; [|by apply Hh]. split; [done| |done]. simpl.
    split; [done|]. exists x. unfold on_disk. by rewrite Hd.
  - intros i. rewrite claims_cons_eq, claims_cons_ne by done. unfold h_id. simpl.
    case_bool_decide; [|apply He].
    subst. assert (∀ c, claims c (pt_id t) hs = 0) as E0.
    { intros c. destruct (claims c (pt_id t) hs) eqn:E; [done|]. destruct Hn.
      destruct (proj1 (claims_pos c (pt_id t) hs)) as (h & ? & ? & ?); [lia|]. by exists h. }
    rewrite !E0. simpl. lia.
Qed.

Lemma peek_env_run k w t w' r :
  peek_latest k w = Some t → peek_latest_for_restore k w = Some (r, w') →
  r = Some t ∧ w' = set_restores (bump (pt_id t)) w.
Proof. unfold peek_latest_for_restore. munfold. intros ->. by intros [= <- <-]. Qed.
Lemma peek_env_id_run i w t w' r :
  get_template i w = Some t → peek_by_id_for_restore i w = Some (r, w') →
  r = Some t ∧ w' = set_restores (bump (pt_id t)) w.
Proof. unfold peek_by_id_for_restore. munfold. intros ->. by intros [= <- <-]. Qed.
Lemma peek_ref_run k w t w' r :
  lease_mode cfg = Shared → peek_latest k w = Some t → peek_with_ref cfg k w = Some (r, w') →
  r = Some t ∧ w' = set_in_use (bump (pt_id t)) w.
Proof.
  intros Hm. unfold peek_with_ref. munfold. intros ->. rewrite bool_decide_true by done.
  by intros [= <- <-].
Qed.
Lemma peek_ref_id_run i w t w' r :
  lease_mode cfg = Shared → get_template i w = Some t → peek_by_id_with_ref cfg i w = Some (r, w') →
  r = Some t ∧ w' = set_in_use (bump (pt_id t)) w.
Proof.
  intros Hm. unfold peek_by_id_with_ref. munfold. intros ->. rewrite bool_decide_true by done.
  by intros [= <- <-].
Qed.

(** What [ask] does, by the kind of the template it finds. *)
Inductive asked w : option PooledTemplate → World → Prop :=
  | asked_none : asked w None w
  | asked_env t : listed t (avail w) → snapshot_type t = Environment →
      asked w (Some t) (set_restores (bump (pt_id t)) w)
  | asked_shared t : listed t (avail w) → snapshot_type t = WarmFork → lease_mode cfg = Shared →
      asked w (Some t) (set_in_use (bump (pt_id t)) w)
  | asked_exclusive t o w' : listed t (avail w) → snapshot_type t = WarmFork →
      lease_mode cfg = Exclusive → frame (others (pt_id t)) w w' →
      o = None ∨ (o = Some t ∧ marked t w' ∧ fresh_id (pt_id t) (avail w')) → asked w o w'.

Lemma not_shared : lease_mode cfg ≠ Shared → lease_mode cfg = Exclusive.
Proof. by destruct (lease_mode cfg). Qed.

Lemma ask_spec a w o w' : pool_ok w → ask a w = Some (o, w') → asked w o w'.
Proof.
  intros Ho. destruct a as [k|i]; simpl.
  - unfold acquire_for_restore. unfold mbind at 1, M_bind, gets.
    destruct (peek_latest k w) as [t|] eqn:E; [|intros [= <- <-]; constructor].
    pose proof (peek_latest_listed _ _ _ E) as Hl.
    destruct (snapshot_type t) eqn:Ek; [|case_bool_decide as Em|done].
    + intros Hr. destruct (peek_env_run _ _ _ _ _ E Hr) as [-> ->]. by constructor.
    + intros Hr. destruct (peek_ref_run _ _ _ _ _ Em E Hr) as [-> ->]. by constructor.
    + intros Hr. destruct (acquire_frame _ _ _ _ _ E Hr) as [Hf Hc].
      eapply asked_exclusive; [done|done|by apply not_shared|done|].
      destruct Hc as [->|[-> Hmk]]; [by left|]. right. split_and!; [done..|].
      by eapply (hoare_run _ _ _ _ _ _ (acquire_ok k)) in Hr as [_ []].
  - unfold acquire_by_id_for_restore. unfold mbind at 1, M_bind, gets.
    destruct (get_template i w) as [t|] eqn:E; [|intros [= <- <-]; constructor].
    destruct (get_template_Some _ _ _ E) as [Hl _].
    destruct (snapshot_type t) eqn:Ek; [|case_bool_decide as Em|done].
    + intros Hr. destruct (peek_env_id_run _ _ _ _ _ E Hr) as [-> ->]. by constructor.
    + intros Hr. destruct (peek_ref_id_run _ _ _ _ _ Em E Hr) as [-> ->]. by constructor.
    + intros Hr. destruct (acquire_by_id_frame _ _ _ _ _ Ho E Hr) as [Hf Hc].
      eapply asked_exclusive; [done|done|by apply not_shared|done|].
      destruct Hc as [->|[-> Hmk]]; [by left|]. right. split_and!; [done..|].
      by eapply (hoare_run _ _ _ _ _ _ (acquire_by_id_ok i)) in Hr as [_ []].
Qed.

Lemma ask_ok a : hoare pool_ok (ask a) (λ _, pool_ok).
Proof. destruct a; [apply acquire_for_restore_ok|apply acquire_by_id_for_restore_ok]. Qed.

Lemma grant_inv w hs a o w' :
  pool_ok w → inv w hs → grant a w = Some (o, w') → pool_ok w' ∧ inv w' (option_list o ++ hs).
Proof.
  intros Ho Hinv. unfold grant. unfold mbind at 1, M_bind.
  destruct (ask a w) as [[ot w1]|] eqn:E; [|done].
  pose proof (hoare_run _ _ _ _ _ _ (ask_ok a) Ho E) as Ho1.
  pose proof (po_avail _ Ho) as Ha.
  destruct (ask_spec _ _ _ _ Ho E) as [|t Hl Hk|t Hl Hk Hm|t ot w1 Hl Hk Hm Hf Hc].
  - intros [= <- <-]. done.
  - unfold lease_new, lease_kind. rewrite Hk. munfold. intros [= <- <-].
    split; [done|]. exact (inv_restoring w hs t Hinv Hk Hl).
  - unfold lease_new, lease_kind. rewrite Hk, bool_decide_true by done. munfold.
    intros [= <- <-]. split; [done|].
    exact (inv_referencing w hs t Hinv (or_introl Hm) Hl).
  - pose proof (exclusive_unheld _ _ _ Ha Hinv Hl Hk Hm) as Hn.
    destruct Hc as [->|(-> & Hmk & Hfr)].
    + intros [= <- <-]. split; [done|]. eapply inv_frame; [|done].
      eapply frame_weaken; [|done]. by intros i Hi ->.
    + unfold lease_new, lease_kind. rewrite Hk, bool_decide_false by congruence. munfold.
      intros [= <- <-]. split; [done|]. by eapply inv_owning.
Qed.

(** ** Claims that end *)
Lemma claims_remove c i hs1 h hs2 :
  claims c i (hs1 ++ h :: hs2) =
    (if bool_decide (h_claim h = c) && bool_decide (h_id h = i) then 1 else 0) + claims c i (hs1 ++ hs2).
Proof. rewrite !claims_app, claims_cons. lia. Qed.

Lemma elem_of_remove (h' h : Hold) hs1 hs2 : h' ∈ hs1 ++ hs2 → h' ∈ hs1 ++ h :: hs2.
Proof. rewrite !elem_of_app, elem_of_cons. tauto. Qed.

Lemma inv_drop_restoring w hs1 h hs2 :
  inv w (hs1 ++ h :: hs2) → h_claim h = Restoring →
  inv (set_restores (drop_one (h_id h)) w) (hs1 ++ hs2).
Proof.
  intros [Hr Hi Hh He] Hc. split.
  - intros i. specialize (Hr i). rewrite claims_remove, bool_decide_true in Hr by done. simpl in *.
    case_bool_decide as Ei; simpl in Hr.
    + subst. rewrite lookup_drop_one. lia.
    + by rewrite lookup_drop_one_ne.
  - intros i. specialize (Hi i). rewrite claims_remove, bool_decide_false in Hi by congruence. done.
  - intros h' Hin. eapply hold_ok_same; [..|apply Hh, elem_of_remove, Hin]; done.
  - intros i. specialize (He i). rewrite !claims_remove in He. lia.
Qed.

Lemma inv_drop_referencing w hs1 h hs2 :
  inv w (hs1 ++ h :: hs2) → h_claim h = Referencing →
  inv (set_in_use (drop_one (h_id h)) w) (hs1 ++ hs2).
Proof.
  intros [Hr Hi Hh He] Hc. split.
  - intros i. specialize (Hr i). rewrite claims_remove, bool_decide_false in Hr by congruence. done.
  - intros i. specialize (Hi i). rewrite claims_remove, bool_decide_true in Hi by done. simpl in *.
    case_bool_decide as Ei; simpl in Hi.
    + subst. rewrite lookup_drop_one. lia.
    + by rewrite lookup_drop_one_ne.
  - intros h' Hin. eapply hold_ok_same; [..|apply Hh, elem_of_remove, Hin]; done.
  - intros i. specialize (He i). rewrite !claims_remove in He. lia.
Qed.

Lemma end_restore_inv w hs1 h hs2 w' :
  pool_ok w → inv w (hs1 ++ h :: hs2) → h_claim h = Restoring →
  end_restore cfg (h_id h) w = Some (tt, w') → pool_ok w' ∧ inv w' (hs1 ++ hs2).
Proof.
  intros Ho Hinv Hc E. split; [by eapply (hoare_run _ _ _ _ _ _ (end_restore_ok cfg (h_id h)))|].
  pose proof (inv_drop_restoring _ _ _ _ Hinv Hc) as Hd. eapply inv_frame; [|exact Hd].
  eapply end_restore_frame; [|done]. apply inv_guarded; [apply Ho|done].
Qed.

Lemma deref_inv w hs1 h hs2 w' :
  pool_ok w → inv w (hs1 ++ h :: hs2) → h_claim h = Referencing →
  deref cfg (h_id h) w = Some (tt, w') → pool_ok w' ∧ inv w' (hs1 ++ hs2).
Proof.
  intros Ho Hinv Hc E. split; [by eapply (hoare_run _ _ _ _ _ _ (deref_ok cfg (h_id h)))|].
  pose proof (inv_drop_referencing _ _ _ _ Hinv Hc) as Hd. eapply inv_frame; [|exact Hd].
  eapply deref_frame; [|done]. apply inv_guarded; [apply Ho|done].
Qed.

(** The exclusive owner of an id is its only claimant. *)
Lemma sole_owner w hs1 h hs2 :
  inv w (hs1 ++ h :: hs2) → h_claim h = Owning ∨ h_claim h = Consumed →
  ∀ i, held (hs1 ++ hs2) i → others (h_id h) i.
Proof.
  intros Hinv Hc i (h' & Hin & <-) E.
  assert (fresh_id (h_id h) (avail w)) as Hf.
  { destruct (in_hold _ _ Hinv h) as [_ Hp _]; [apply elem_of_app; right; by left|].
    destruct Hc as [Hc|Hc]; rewrite Hc in Hp; apply Hp. }
  destruct (in_hold _ _ Hinv h' (elem_of_remove _ _ _ _ Hin)) as [_ Hp _].
  assert (∀ c, h_claim h' = c → 0 < claims c (h_id h) (hs1 ++ hs2)) as Hpos.
  { intros c Hc'. apply claims_pos. eauto. }
  pose proof (in_excl _ _ Hinv (h_id h)) as He. rewrite !claims_remove in He.
  rewrite (bool_decide_true (h_id h = h_id h)), !andb_true_r in He by done.
  assert (1 ≤ (if bool_decide (h_claim h = Owning) then 1 else 0) +
              (if bool_decide (h_claim h = Consumed) then 1 else 0)) as H1.
  { destruct Hc as [Hc|Hc]; rewrite Hc; simpl; repeat case_bool_decide; try done; lia. }
  destruct (h_claim h') eqn:Ec; [by destruct (Hf _ Hp)|by destruct (Hf _ Hp)|..];
    pose proof (Hpos _ eq_refl); lia.
Qed.

Lemma inv_drop_owner w hs1 h hs2 :
  inv w (hs1 ++ h :: hs2) → h_claim h = Owning ∨ h_claim h = Consumed → inv w (hs1 ++ hs2).
Proof.
  intros [Hr Hi Hh He] Hc. split.
  - intros i. specialize (Hr i).
    rewrite claims_remove, bool_decide_false in Hr by (destruct Hc; congruence). done.
  - intros i. specialize (Hi i).
    rewrite claims_remove, bool_decide_false in Hi by (destruct Hc; congruence). done.
  - intros h' Hin. apply Hh, elem_of_remove, Hin.
  - intros i. specialize (He i). rewrite !claims_remove in He. lia.
Qed.

Lemma owner_frame_inv w hs1 h hs2 w' :
  inv w (hs1 ++ h :: hs2) → h_claim h = Owning ∨ h_claim h = Consumed →
  frame (others (h_id h)) w w' → inv w' (hs1 ++ hs2).
Proof.
  intros Hinv Hc Hf. eapply inv_frame; [|by eapply inv_drop_owner].
  eapply frame_weaken; [|done]. by eapply sole_owner.
Qed.

Lemma release_inv w hs1 h hs2 w' :
  pool_ok w → inv w (hs1 ++ h :: hs2) → h_claim h = Owning →
  release (h_tmpl h) w = Some (tt, w') → pool_ok w' ∧ inv w' (hs1 ++ hs2).
Proof.
  intros Ho Hinv Hc E.
  destruct (in_hold _ _ Hinv h) as [Hk Hp _]; [apply elem_of_app; right; by left|].
  rewrite Hc in Hk, Hp. destruct Hk as [Hk _]. destruct Hp as [Hp _]. split.
  - eapply (hoare_run _ _ _ _ _ _ (release_ok (h_tmpl h) _)); [|done]. by split.
    Unshelve. by rewrite Hk.
  - eapply owner_frame_inv; [done|by left|]. by apply release_frame.
Qed.

Lemma cleanup_consumed_inv w hs1 h hs2 w' :
  pool_ok w → inv w (hs1 ++ h :: hs2) → h_claim h = Consumed →
  cleanup_consumed (h_id h) w = Some (tt, w') → pool_ok w' ∧ inv w' (hs1 ++ hs2).
Proof.
  intros Ho Hinv Hc E. destruct (cleanup_consumed_frame _ _ _ E) as [Hf Hs].
  split; [by eapply pool_ok_mem|]. eapply owner_frame_inv; [done|by right|done].
Qed.

Lemma complete_owner_inv w hs1 h hs2 :
  inv w (hs1 ++ h :: hs2) → h_claim h = Owning → inv w (hs1 ++ completed h ++ hs2).
Proof.
  intros Hinv Hc. unfold completed. rewrite Hc. destruct Hinv as [Hr Hi Hh He]. split.
  - intros i. specialize (Hr i). rewrite claims_remove, bool_decide_false in Hr by congruence.
    simpl. by rewrite claims_remove.
  - intros i. specialize (Hi i). rewrite claims_remove, bool_decide_false in Hi by congruence.
    simpl. by rewrite claims_remove.
  - intros h' Hin. simpl in Hin. rewrite elem_of_app, elem_of_cons in Hin.
    destruct Hin as [?|[->|?]]; [apply Hh, elem_of_app; by left| |].
    + destruct (Hh h) as [Hk Hp Hd]; [apply elem_of_app; right; by left|].
      rewrite Hc in Hk, Hp. by split.
    + apply Hh, elem_of_app. right. by right.
  - intros i. specialize (He i). simpl. rewrite !claims_remove in *. simpl.
    rewrite Hc in He. unfold h_id in *. simpl in *. repeat case_bool_decide; simpl in *; try done; lia.
Qed.

Lemma pin_inv w hs h :
  inv w hs → h ∈ hs → h_claim h = Restoring →
  inv (set_in_use (bump (h_id h)) w) (mkHold (h_tmpl h) Referencing (h_dir h) :: hs).
Proof.
  intros Hinv Hin Hc. destruct (in_hold _ _ Hinv h Hin) as [Hk Hp Hd]. rewrite Hc in Hk, Hp.
  rewrite <- Hd. exact (inv_referencing w hs (h_tmpl h) Hinv (or_intror Hk) Hp).
Qed.

(** ** Every step keeps the invariant *)
Lemma step_ok s s' : sys_ok s → step s s' → sys_ok s'.
Proof.
  intros Hok Hs. destruct Hs as [s io r w' Hal E|s io a o w' E|s io hs1 h hs2 l w' Eh El E
    |s io hs1 h hs2 l w' Eh El E|s h w' Hin Hc E|s io hs1 h hs2 w' Eh Hc E];
    destruct s as [w hs]; simpl in *; apply sys_ok_inv in Hok as [Ho Hinv]; apply sys_ok_inv;
    try (destruct (set_io_ok io w hs Ho Hinv) as [Ho' Hinv']).
  - split.
    + by eapply (hoare_run _ _ _ _ _ _ (serve_ok _ r Hal)).
    + eapply inv_frame; [|exact Hinv']. by eapply serve_frame.
  - by eapply grant_inv.
  - subst hs. unfold lease_of in El. destruct (h_claim h) eqn:Hc; simplify_eq/=.
    + unfold completed. rewrite Hc. by eapply end_restore_inv.
    + injection E as <-. unfold completed. by rewrite Hc.
    + injection E as <-. split; [done|]. by apply complete_owner_inv.
  - subst hs. unfold lease_of in El. destruct (h_claim h) eqn:Hc; simplify_eq/=.
    + by eapply end_restore_inv.
    + by eapply deref_inv.
    + by eapply release_inv.
  - injection E as <-. split; [by apply pool_ok_bump_in_use|]. by apply pin_inv.
  - subst hs. unfold sandbox_gone in E. destruct Hc as [Hc|Hc]; rewrite Hc in E.
    + by eapply deref_inv.
    + by eapply cleanup_consumed_inv.
Qed.

Lemma reachable_ok s : reachable s → sys_ok s.
Proof.
  induction 1 as [s (Ho & _ & Er & Ei & Eh)|s s' _ IH Hs]; [|by eapply step_ok].
  destruct s as [w hs]. simpl in *. subst hs. apply sys_ok_inv. split; [done|]. split; simpl.
  - intros i. by rewrite Er.
  - intros i. by rewrite Ei.
  - intros h Hh. by apply elem_of_nil in Hh.
  - intros i. cbn. lia.
Qed.

(** A template that was taken is out of the pool, marked, and has one owner. *)
Lemma exclusive_claim s hs1 h hs2 :
  reachable s → holds s = hs1 ++ h :: hs2 → h_claim h = Owning ∨ h_claim h = Consumed →
  fresh_id (h_id h) (avail (world s)) ∧ marked (h_tmpl h) (world s) ∧
  ∀ h', h' ∈ hs1 ++ hs2 → h_id h' ≠ h_id h.
Proof.
  intros Hr Eh Hc. pose proof (reachable_ok s Hr) as Hok. destruct s as [w hs]. simpl in *. subst hs.
  apply sys_ok_inv in Hok as [Ho Hinv].
  destruct (in_hold _ _ Hinv h) as [Hk Hp Hd]; [apply elem_of_app; right; by left|].
  destruct (h_claim h) eqn:Ec; try by destruct Hc.
  all: destruct Hp as (Hf & x & Hx & Hm); split; [done|]; split;
    [|intros h' Hin; eapply sole_owner; [done|by rewrite Ec; auto|by exists h']];
    rewrite Hx in Hd; unfold on_disk in Hd;
    destruct (template_dir (h_tmpl h)) as [d|] eqn:Ed; [|done]; exists d, x; done.
Qed.

(** C1: when the pool operations run one after the other, in every reachable
    state, whatever the file system answered on the way, the directory of a
    template somebody holds a claim on is exactly what it was when the claim
    began; a restoring or referenced template is
    still in the pool; a template taken by an exclusive lease is not in the
    pool, carries the consumed marker on disk, and nobody else holds any
    claim on its id. *)
Theorem lease_safety s hs1 h hs2 :
  reachable s → holds s = hs1 ++ h :: hs2 →
  on_disk (h_tmpl h) (world s) = h_dir h ∧
  match h_claim h with
  | Restoring | Referencing => listed (h_tmpl h) (avail (world s))
  | Owning | Consumed =>
      fresh_id (h_id h) (avail (world s)) ∧ marked (h_tmpl h) (world s) ∧
      ∀ h', h' ∈ hs1 ++ hs2 → h_id h' ≠ h_id h
  end.
Proof.
  intros Hr Eh. pose proof (exclusive_claim s hs1 h hs2 Hr Eh) as Hex.
  destruct (so_hold _ (reachable_ok s Hr) h) as [_ Hp Hd]; [rewrite Eh; apply elem_of_app; right; by left|].
  split; [done|]. destruct (h_claim h); auto.
Qed.

(** C2: lease accounting. In every reachable state [in_flight_restores] and
    [in_use_count] are exactly the numbers of claims per template id, and an
    id nobody claims has no entry: no reference is leaked or dropped early,
    on success, failure and rollback paths alike. *)
Theorem lease_accounting s i :
  reachable s →
  default 0 (restores (world s) !! i) = claims Restoring i (holds s) ∧
  default 0 (in_use (world s) !! i) = claims Referencing i (holds s) ∧
  (claims Restoring i (holds s) = 0 → restores (world s) !! i = None) ∧
  (claims Referencing i (holds s) = 0 → in_use (world s) !! i = None).
Proof.
  intros Hr. destruct (reachable_ok s Hr) as [[_ Pr Pi _] Er Ei _ _].
  specialize (Er i). specialize (Ei i). split_and!; try done.
  - intros E0. rewrite E0 in Er. destruct (restores (world s) !! i) as [n|] eqn:E; [|done].
    pose proof (map_Forall_lookup_1 _ _ _ _ Pr E) as Hp. simpl in *. lia.
  - intros E0. rewrite E0 in Ei. destruct (in_use (world s) !! i) as [n|] eqn:E; [|done].
    pose proof (map_Forall_lookup_1 _ _ _ _ Pi E) as Hp. simpl in *. lia.
Qed.

(** ** No operation panics *)
Lemma grant_total a w : pool_ok w → is_Some (grant a w).
Proof.
  intros Ho. unfold grant. unfold mbind at 1, M_bind.
  destruct (ask_ok a w Ho) as (o & w1 & E & _). rewrite E.
  pose proof (ask_spec _ _ _ _ Ho E) as Hs. destruct o as [t|]; [|eexists; reflexivity].
  assert (snapshot_type t ≠ Continuation) as Hk.
  { inversion Hs as [|? ? Hk|? ? Hk|? ? ? ? Hk _ _ Hc]; subst; [congruence..|].
    destruct Hc as [|([= ->] & _)]; congruence. }
  unfold lease_new, lease_kind. munfold. destruct (snapshot_type t); [eexists; reflexivity..|done].
Qed.

Lemma hoare_total {A} (m : M World A) (Q : A → World → Prop) w : hoare pool_ok m Q → pool_ok w → is_Some (m w).
Proof. intros Hm Hw. destruct (Hm w Hw) as (a & w' & E & _). rewrite E. eauto. Qed.

(** No pool operation panics in a reachable state: the [unreachable!]
    arms for Continuation templates cannot be reached, for every request
    that adds fresh ids, every lease request, completion and failure of any
    outstanding lease and every sandbox deletion, under any I/O outcomes. *)
Theorem pool_never_panics s io :
  reachable s →
  (∀ r, allowed s r → is_Some (serve r (set_io io (world s)))) ∧
  (∀ a, is_Some (grant a (set_io io (world s)))) ∧
  (∀ h, h ∈ holds s →
    is_Some (sandbox_gone h (set_io io (world s))) ∧
    ∀ l, lease_of h = Some l →
      is_Some (lease_complete cfg l (set_io io (world s))) ∧
      is_Some (lease_fail cfg l (set_io io (world s)))).
Proof.
  intros Hr. pose proof (reachable_ok s Hr) as Hok. destruct s as [w hs].
  apply sys_ok_inv in Hok as [Ho Hinv]. simpl.
  destruct (set_io_ok io w hs Ho Hinv) as [Ho' Hinv']. split_and!.
  - intros r Hal. destruct (serve_ok _ r Hal (set_io io w)) as (a & w' & E & _); [done|].
    rewrite E. eauto.
  - intros a. by apply grant_total.
  - intros h Hin. split.
    + unfold sandbox_gone. destruct (h_claim h); try apply cleanup_consumed_total.
      by eapply hoare_total; [apply deref_ok|].
    + intros l El. destruct (in_hold _ _ Hinv h Hin) as [Hk Hp _].
      unfold lease_of in El. destruct (h_claim h); simplify_eq/=; cbn.
      * split; (eapply hoare_total; [apply end_restore_ok|done]).
      * split; [eexists; reflexivity|]. eapply hoare_total; [apply deref_ok|done].
      * split; [eexists; reflexivity|]. destruct Hk as [Hk _], Hp as [Hp _].
        destruct (release_ok (h_tmpl h) ltac:(congruence) (set_io io w)) as (a & w' & E & _); [done|].
        rewrite E. eauto.
Qed.
End sys.

(** ** Concrete runs *)
Definition demo_template (id : string) (k : string) (ty : SnapshotType) (now : N) : PooledTemplate :=
  set_snapshot_type ty (PooledTemplate_new now id (mkKey k) "/snap" "/pmem" "/kernel" 1 512 "vsock" "console").

Definition demo_cfg (watermark per_key : nat) (mode : TemplateLeaseMode) : PoolConfig :=
  mkPoolConfig per_key per_key watermark mode true.

Definition empty_world `{TemplateCodec} : World := mkWorld ∅ ∅ ∅ ∅ 0 ∅ [].

#[local] Existing Instance plain_codec.
#[local] Existing Instance listing_order.

(** The state in which a sandbox has leased the only WarmFork template of an
    Exclusive pool; the step before it failed a lease whose marker could not
    be written. *)
Definition demo_tmpl : PooledTemplate := demo_template "t1" "k" WarmFork 5.
Definition demo_pool : PoolConfig := demo_cfg 4 2 Exclusive.

Definition run_world {A} (m : M World A) (w : World) : World :=
  match m w with Some (_, w') => w' | None => w end.
Definition run_value {A} (d : A) (m : M World A) (w : World) : A :=
  match m w with Some (a, _) => a | None => d end.

Definition demo_w1 : World := run_world (serve demo_pool (RAdd demo_tmpl)) (set_io [] empty_world).
Definition demo_s1 : Sys := mkSys demo_w1 [].
Definition demo_ask : M World (option Hold) := grant demo_pool (ByKey (mkKey "k")).
Definition demo_w2 : World := run_world demo_ask (set_io [IoFault true true] demo_w1).
Definition demo_w3 : World := run_world demo_ask (set_io [] demo_w2).
Definition demo_hold : Hold := mkHold demo_tmpl Owning (Some (mkDir (Some (Some demo_tmpl)) true)).
Definition demo_s3 : Sys := mkSys demo_w3 [demo_hold].

Lemma demo_init : reachable demo_pool (mkSys empty_world []).
Proof.
  apply reachable_init. split_and!; [|by intros d x|done..].
  split; [apply avail_ok_empty|..]; apply map_Forall_empty.
Qed.

Lemma demo_s1_reachable : reachable demo_pool demo_s1.
Proof.
  eapply reachable_step; [apply demo_init|].
  apply (step_serve demo_pool (mkSys empty_world []) [] (RAdd demo_tmpl)).
  - split_and!; [done| |].
    + intros t (k & q & Hk & _). done.
    + intros h Hh. by apply elem_of_nil in Hh.
  - vm_compute. reflexivity.
Qed.

Lemma demo_s3_reachable : reachable demo_pool demo_s3.
Proof.
  apply (reachable_step demo_pool (mkSys demo_w2 [])).
  - eapply reachable_step; [apply demo_s1_reachable|].
    apply (step_grant demo_pool demo_s1 [IoFault true true] (ByKey (mkKey "k")) None).
    vm_compute. reflexivity.
  - apply (step_grant demo_pool (mkSys demo_w2 []) [] (ByKey (mkKey "k")) (Some demo_hold)).
    vm_compute. reflexivity.
Qed.

Lemma lease_safety_witness :
  on_disk (h_tmpl demo_hold) (world demo_s3) = Some (mkDir (Some (Some demo_tmpl)) true) ∧
  fresh_id "t1" (avail (world demo_s3)).
Proof.
  destruct (lease_safety demo_pool demo_s3 [] demo_hold [] demo_s3_reachable eq_refl) as (H1 & H2 & _).
  split; [exact H1|exact H2].
Defined.

Lemma lease_accounting_witness : restores (world demo_s3) !! "t1" = None.
Proof.
  apply (proj1 (proj2 (proj2 (lease_accounting demo_pool demo_s3 "t1" demo_s3_reachable)))).
  reflexivity.
Defined.

Lemma pool_never_panics_witness : is_Some (lease_fail demo_pool (mkLease demo_tmpl ExclusiveLease) (set_io [] (world demo_s3))).
Proof.
  destruct (pool_never_panics demo_pool demo_s3 [] demo_s3_reachable) as (_ & _ & H).
  apply (H demo_hold); [by left|reflexivity].
Defined.
