(* ===== verification/PoolProps.v ===== *)
(** * What each pool operation does

    Depth bounds of [add], exactness and age order of the collector and of
    eviction, the acquire/release round trip, and recovery from disk. *)
From S2P Require Import Prelude Strs Storage Types Disk Pool PoolLemmas PoolInv PoolFrame PoolSys.

Section props.
Context `{TemplateCodec} `{HashOrder} (cfg : PoolConfig).
Implicit Types (w : World) (d : DirKey).

(** ** Eviction loops: what is counted is what left the pool *)
Lemma evict_one_depth n t w n' w' :
  pool_ok w → listed t (avail w) → evict_one n t w = Some (n', w') →
  n' + total_depth w' = n + total_depth w ∧
  ∀ u, pt_id u ≠ pt_id t → listed u (avail w') ↔ listed u (avail w).
Proof.
  intros Ho Hl. unfold evict_one. unfold mbind at 1, M_bind.
  destruct (dir_of t w) as [[d w1]|] eqn:E1; [|done].
  destruct (dir_of_inv _ _ _ _ E1) as (-> & _ & _).
  unfold mbind at 1, M_bind. destruct (remove_dir_all d w) as [[r w2]|] eqn:E2; [|done].
  destruct (remove_dir_all_touches _ _ _ _ E2) as [Hs _].
  rewrite !total_depth_of. munfold.
  assert (depth_of (unlist (pt_id t) (avail w2)) + 1 = depth_of (avail w) ∧
          ∀ u, pt_id u ≠ pt_id t → listed u (unlist (pt_id t) (avail w2)) ↔ listed u (avail w)) as [Hd Hu].
  { rewrite (sp_avail _ _ Hs). split; [apply depth_of_unlist; [apply Ho|done]|].
    intros u Hu. rewrite listed_unlist. tauto. }
  destruct r as [[]|[]]; intros [= <- <-]; simpl; (split; [|done || by rewrite (sp_avail _ _ Hs)]);
    rewrite ?(sp_avail _ _ Hs) in *; lia.
Qed.

Lemma evict_all_depth l n w n' w' :
  pool_ok w → (∀ t, t ∈ l → listed t (avail w)) → NoDup (pt_id <$> l) →
  foldM evict_one n l w = Some (n', w') →
  pool_ok w' ∧ n' + total_depth w' = n + total_depth w.
Proof.
  revert n w. induction l as [|t l IH]; intros n w Ho Hl Hn.
  - rewrite foldM_nil. intros [= <- <-]. done.
  - rewrite foldM_cons. destruct (evict_one n t w) as [[n1 w1]|] eqn:E; [|done].
    assert (listed t (avail w)) as Ht by (apply Hl; by left).
    destruct (evict_one_depth _ _ _ _ _ Ho Ht E) as [Hd Hu].
    csimpl in Hn. apply NoDup_cons in Hn as [Hn1 Hn].
    intros Hr. destruct (IH n1 w1) as [Ho' Hd']; [| |done|done|split; [done|lia]].
    + eapply (hoare_run _ _ _ _ _ _ (evict_one_ok n t _)); [done|exact E].
      Unshelve. by eapply listed_kind.
    + intros u Hu'. apply Hu; [|apply Hl; by right]. intros Eid. apply Hn1. rewrite <- Eid.
      by apply list_elem_of_fmap_2.
Qed.

(** Without faults every template of the list goes, directory included. *)
Lemma remove_dir_all_free d w :
  fault_free w → ∃ r w', remove_dir_all d w = Some (r, w') ∧ fault_free w' ∧ r ≠ Err OtherIo ∧
    same_pool w w' ∧ disk w' = delete d (disk w).
Proof.
  intros Hf. unfold remove_dir_all, io_next, fault_free in *. munfold.
  destruct (io w) as [|o l] eqn:Eio; simpl.
  - destruct (disk w !! d) eqn:E; (eexists _, _; split; [done|]); simpl; rewrite ?Eio; split_and!; try done.
    by rewrite delete_id.
  - apply Forall_cons in Hf as [-> Hf]. simpl.
    destruct (disk w !! d) eqn:E; (eexists _, _; split; [done|]); simpl; split_and!; try done.
    by rewrite delete_id.
Qed.

Definition unlist_all (l : list PooledTemplate) (m : gmap TemplateKey (list PooledTemplate)) :=
  foldl (λ m t, unlist (pt_id t) m) m l.

Lemma listed_unlist_all l m u :
  listed u (unlist_all l m) ↔ listed u m ∧ pt_id u ∉ pt_id <$> l.
Proof.
  revert m. induction l as [|t l IH]; intros m; csimpl.
  - split; [intros; split; [done|apply not_elem_of_nil]|by intros []].
  - unfold unlist_all in *. simpl. rewrite IH, listed_unlist, not_elem_of_cons. tauto.
Qed.

Definition purge_all (l : list PooledTemplate) (m : gmap DirKey Dir) : gmap DirKey Dir :=
  foldl (λ m t, match template_dir t with Some d => delete d m | None => m end) m l.

Lemma lookup_purge_all l m d :
  purge_all l m !! d = if decide (d ∈ omap template_dir l) then None else m !! d.
Proof.
  revert m. induction l as [|t l IH]; intros m.
  - rewrite decide_False; [done|apply not_elem_of_nil].
  - unfold purge_all in *. simpl foldl. rewrite IH.
    assert (omap template_dir (t :: l) =
      match template_dir t with Some e => e :: omap template_dir l | None => omap template_dir l end)
      as -> by done.
    destruct (template_dir t) as [e|]; [|done].
    destruct (decide (d ∈ omap template_dir l)).
    + rewrite decide_True; [done|]. by right.
    + destruct (decide (d = e)) as [->|Hne].
      * rewrite decide_True by (by left). apply lookup_delete_eq.
      * rewrite decide_False by (rewrite elem_of_cons; tauto). by rewrite lookup_delete_ne.
Qed.

Lemma evict_all_free l n w :
  fault_free w → (∀ t, t ∈ l → snapshot_type t ≠ Continuation) →
  ∃ w', foldM evict_one n l w = Some (n + length l, w') ∧ fault_free w' ∧
    avail w' = unlist_all l (avail w) ∧ disk w' = purge_all l (disk w).
Proof.
  revert n w. induction l as [|t l IH]; intros n w Hf Hk.
  - exists w. rewrite foldM_nil. unfold mret, M_ret. simpl. by rewrite Nat.add_0_r.
  - rewrite foldM_cons. unfold evict_one at 1. unfold mbind at 1, M_bind, dir_of.
    destruct (template_dir t) as [dt|] eqn:Ed.
    2:{ unfold template_dir in Ed. destruct (Hk t); [by left|]. by destruct (snapshot_type t). }
    unfold mret, M_ret. unfold mbind at 1, M_bind.
    destruct (remove_dir_all_free dt w Hf) as (r & w1 & E & Hf1 & Hr & Hs & Hdel). rewrite E.
    destruct (IH (n + 1) (set_avail (unlist (pt_id t)) w1)) as (w' & E' & Hf' & Ea & Hd).
    { done. }
    { intros u Hu. apply Hk. by right. }
    exists w'. split_and!; [|done|..].
    + replace (n + length (t :: l)) with (n + 1 + length l) by (simpl; lia). rewrite <- E'.
      by destruct r as [[]|[]].
    + rewrite Ea. simpl. by rewrite (sp_avail _ _ Hs).
    + rewrite Hd. simpl. unfold purge_all. simpl. by rewrite Ed, Hdel.
Qed.

(** ** Garbage collection *)
Lemma NoDup_ids_all m : avail_ok m → NoDup (pt_id <$> all_templates m).
Proof.
  intros Hok. unfold all_templates, hash_values.
  assert (NoDup ((hash_iter m).*1)) as Hn by (rewrite hash_iter_perm; apply NoDup_fst_map_to_list).
  assert (∀ k q, (k, q) ∈ hash_iter m → m !! k = Some q) as Hin by (intros; by apply elem_of_hash_iter).
  revert Hn Hin. generalize (hash_iter m). intros l.
  induction l as [|[k q] l IH]; intros Hn Hin; [constructor|]. csimpl in *.
  apply NoDup_cons in Hn as [Hk Hn]. rewrite fmap_app. apply NoDup_app. split_and!.
  - eapply (ao_nodup _ Hok k). apply Hin. by left.
  - intros i (t & -> & Ht)%list_elem_of_fmap (u & Ei & Hu)%list_elem_of_fmap.
    apply list_elem_of_join in Hu as (q' & Hu & Hq'). apply list_elem_of_fmap in Hq' as ([k' q2] & -> & Hkq).
    apply Hk. assert (k = k') as ->; [|exact (list_elem_of_fmap_2 fst _ _ Hkq)].
    eapply (ao_ids _ Hok k k' q q2 t u); try done; apply Hin; [by left|by right].
  - apply IH; [done|]. intros. apply Hin. by right.
Qed.

Lemma NoDup_gc_candidates w : pool_ok w → NoDup (pt_id <$> gc_candidates cfg w).
Proof.
  intros Ho. unfold gc_candidates. rewrite sort_by_perm.
  eapply sublist_NoDup; [apply (NoDup_ids_all _ (po_avail _ Ho))|].
  apply fmap_sublist, retain_sublist.
Qed.

Lemma by_age_total t u : by_age t u = true ∨ by_age u t = true.
Proof. unfold by_age. rewrite !N.leb_le. lia. Qed.
Lemma by_age_trans t u v : by_age t u = true → by_age u v = true → by_age t v = true.
Proof. unfold by_age. rewrite !N.leb_le. lia. Qed.

(** The collector, without I/O faults, removes exactly the oldest
    unpinned templates: the pool shrinks to the water level, or by every
    candidate when there are too few; what goes is evictable, what stays is
    pinned or at least as young; nothing else changes, and the directories
    of the removed templates are gone. *)
Theorem gc_exact w :
  pool_ok w → fault_free w →
  ∃ w', gc_if_needed cfg w = Some (tt, w') ∧
    total_depth w' = total_depth w - (total_depth w - gc_watermark cfg) `min` length (gc_candidates cfg w) ∧
    (∀ t, listed t (avail w') → listed t (avail w)) ∧
    (∀ t, listed t (avail w) → ¬ listed t (avail w') →
      gc_candidate cfg w t = true ∧ on_disk t w' = None ∧
      ∀ u, listed u (avail w') → gc_candidate cfg w u = true → (created_at_secs t ≤ created_at_secs u)%N) ∧
    (∀ t, listed t (avail w') → on_disk t w' = on_disk t w).
Proof.
  intros Ho Hf. unfold gc_if_needed. unfold mbind at 1, M_bind, gets. simpl.
  destruct (Nat.leb_spec (total_depth w) (gc_watermark cfg)) as [Hle|Hlt].
  { exists w. split_and!; try done. lia. }
  set (n := total_depth w - gc_watermark cfg). set (l := take n (gc_candidates cfg w)).
  assert (∀ t, t ∈ l → listed t (avail w) ∧ gc_candidate cfg w t = true) as Hl.
  { intros t Ht%take_subset. by apply elem_of_gc_candidates. }
  destruct (evict_all_free l 0 w Hf) as (w' & E & Hf' & Ea & Ed).
  { intros t Ht. eapply listed_kind; [done|]. by apply Hl. }
  exists w'. unfold mbind, M_bind. rewrite E. split_and!; [done|..].
  - destruct (evict_all_depth l 0 w (0 + length l) w' Ho) as [_ Hd]; [by apply Hl| |done|].
    + eapply sublist_NoDup; [apply (NoDup_gc_candidates w Ho)|]. apply fmap_sublist, sublist_take.
    + pose proof (length_take (gc_candidates cfg w) n) as Hlen. fold l in Hlen. lia.
  - intros t. rewrite Ea, listed_unlist_all. by intros [].
  - intros t Ht Hnt. rewrite Ea, listed_unlist_all in Hnt.
    assert (t ∈ l) as Htl.
    { destruct (decide (pt_id t ∈ pt_id <$> l)) as [(u & Eu & Hu)%list_elem_of_fmap|]; [|tauto].
      assert (t = u) as ->; [|done]. eapply listed_inj; [apply Ho|done|by apply Hl|done]. }
    split_and!; [by apply Hl| |].
    + unfold on_disk. destruct (template_dir t) as [d|] eqn:Et; [simpl|done].
      rewrite Ed, lookup_purge_all, decide_True; [done|]. apply list_elem_of_omap. eauto.
    + intros u Hu Hc. rewrite Ea, listed_unlist_all in Hu. destruct Hu as [Hu Hnu].
      apply N.leb_le. apply (sort_by_take_le by_age by_age_total by_age_trans n (retain (gc_candidate cfg w) (all_templates (avail w)))); [done|].
      assert (u ∈ gc_candidates cfg w) as Hin by by apply elem_of_gc_candidates.
      fold (gc_candidates cfg w). rewrite <- (take_drop n (gc_candidates cfg w)) in Hin.
      apply elem_of_app in Hin as [Hin|]; [|done]. destruct Hnu. by apply list_elem_of_fmap_2.
  - intros t Ht. rewrite Ea, listed_unlist_all in Ht. destruct Ht as [Ht Hn].
    unfold on_disk. destruct (template_dir t) as [d|] eqn:Et; [simpl|done].
    rewrite Ed, lookup_purge_all, decide_False; [done|].
    intros (u & Hu & Eu)%list_elem_of_omap. apply Hn. apply list_elem_of_fmap. exists u.
    split; [|done]. unfold template_dir in *. destruct (snapshot_type t), (snapshot_type u); congruence.
Qed.

(** Eviction by kind. The number [evict_by_kind] reports is the number
    of templates that left the pool, whatever the file system answered. *)
Theorem evict_count_exact kind target w n w' :
  pool_ok w → evict_by_kind cfg kind target w = Some (n, w') →
  n + total_depth w' = total_depth w.
Proof.
  intros Ho. unfold evict_by_kind. unfold mbind at 1, M_bind, gets. simpl.
  destruct (try_filter _ _) as [l|] eqn:E; [|done].
  destruct (length l <=? target)%nat; [by intros [= <- <-]|].
  intros Hr. eapply evict_all_depth in Hr as [_ Hd]; [lia|done|..].
  - intros t Ht%take_subset. rewrite sort_by_perm in Ht.
    destruct (try_filter_elem _ _ _ _ E Ht) as [Ht' _]. by apply elem_of_all_templates.
  - eapply sublist_NoDup; [|apply fmap_sublist, sublist_take].
    rewrite sort_by_perm. eapply sublist_NoDup; [apply (NoDup_ids_all _ (po_avail _ Ho))|].
    apply fmap_sublist. by eapply try_filter_sublist.
Qed.

(** ** Add *)
Lemma watermark_step_spec d w r w' :
  pool_ok w → watermark_step cfg d w = Some (r, w') →
  (r = Ok tt ∧ total_depth w' + 1 = total_depth w ∧ ∀ k, depth k w' ≤ depth k w) ∨
  (is_ok r = false ∧ avail w' = avail w).
Proof.
  intros Ho. unfold watermark_step. unfold mbind at 1, M_bind, gets. simpl.
  destruct (oldest_candidate cfg w None (all_templates (avail w))) as [[c|]|] eqn:E; [| |done].
  - destruct (oldest_candidate_listed _ _ _ E) as [Hl _].
    unfold mbind at 1, M_bind. destruct (dir_of c w) as [[d1 w1]|] eqn:E1; [|done].
    destruct (dir_of_inv _ _ _ _ E1) as (-> & _ & _).
    unfold mbind at 1, M_bind. destruct (remove_dir_all d1 w) as [[r2 w2]|] eqn:E2; [|done].
    destruct (remove_dir_all_touches _ _ _ _ E2) as [Hs _].
    munfold. destruct r2 as [|].
    + intros [= <- <-]. left. rewrite !total_depth_of. simpl. rewrite (sp_avail _ _ Hs).
      split_and!; [done|by apply depth_of_unlist; [apply Ho|]|].
      intros k. unfold depth. simpl. rewrite (sp_avail _ _ Hs). unfold unlist. rewrite lookup_fmap.
      destruct (avail w !! k); simpl; [apply length_retain_le|done].
    + destruct (remove_dir_all d w2) as [[r3 w3]|] eqn:E3; [|done]. intros [= <- <-].
      right. split; [done|]. destruct (remove_dir_all_touches _ _ _ _ E3) as [Hs3 _].
      by rewrite (sp_avail _ _ Hs3), (sp_avail _ _ Hs).
  - munfold. destruct (remove_dir_all d w) as [[r3 w3]|] eqn:E3; [|done]. intros [= <- <-].
    right. split; [done|]. destruct (remove_dir_all_touches _ _ _ _ E3) as [Hs3 _].
    by rewrite (sp_avail _ _ Hs3).
Qed.

Lemma per_key_none t kmax w :
  per_key_eviction t kmax w = None → depth (pt_key t) w < 1 `max` kmax.
Proof.
  unfold per_key_eviction, depth. destruct (avail w !! pt_key t) as [q|]; simpl; [|lia].
  destruct (Nat.leb_spec kmax (length q)); [|lia]. destruct q; simpl in *; [lia|done].
Qed.

Lemma alter_retain_unlist t o q m :
  avail_ok m → m !! pt_key t = Some q → o ∈ q →
  alter (retain (λ x, negb (bool_decide (pt_id x = pt_id o)))) (pt_key t) m = unlist (pt_id o) m.
Proof.
  intros Hok Hq Ho. rewrite (unlist_insert o (pt_key t) q) by done.
  apply map_eq. intros k. rewrite lookup_alter, lookup_insert. case_decide; [subst; by rewrite Hq|done].
Qed.

Lemma per_key_step_spec t d kmax w r w' :
  pool_ok w → kind_max cfg t = Some kmax → per_key_step cfg t d w = Some (r, w') →
  (r = Ok tt ∧ total_depth w' ≤ total_depth w ∧
    depth (pt_key t) w' < depth (pt_key t) w `max` (1 `max` kmax)) ∨
  (is_ok r = false ∧ avail w' = avail w).
Proof.
  intros Ho Hk. unfold per_key_step. rewrite Hk. unfold mbind at 1, M_bind, gets. simpl.
  destruct (per_key_eviction t kmax w) as [[o [|]]|] eqn:E.
  - destruct (per_key_eviction_head _ _ _ _ _ E) as (q & Hq & Hoq & Hlen & _).
    unfold mbind at 1, M_bind. destruct (dir_of o w) as [[d1 w1]|] eqn:E1; [|done].
    destruct (dir_of_inv _ _ _ _ E1) as (-> & _ & _).
    unfold mbind at 1, M_bind. destruct (remove_dir_all d1 w) as [[r2 w2]|] eqn:E2; [|done].
    destruct (remove_dir_all_touches _ _ _ _ E2) as [Hs _].
    munfold. destruct r2 as [|].
    + intros [= <- <-]. left. rewrite !total_depth_of. simpl. rewrite (sp_avail _ _ Hs).
      split_and!; [done|rewrite (alter_retain_unlist t o q); [apply depth_of_unlist_le|apply Ho|done|done]|].
      unfold depth. simpl. rewrite (sp_avail _ _ Hs), lookup_alter_eq, Hq. simpl.
      pose proof (retain_one q o (ao_nodup _ (po_avail _ Ho) _ _ Hq) Hoq). lia.
    + destruct (remove_dir_all d w2) as [[r3 w3]|] eqn:E3; [|done]. intros [= <- <-].
      right. split; [done|]. destruct (remove_dir_all_touches _ _ _ _ E3) as [Hs3 _].
      by rewrite (sp_avail _ _ Hs3), (sp_avail _ _ Hs).
  - munfold. destruct (remove_dir_all d w) as [[r3 w3]|] eqn:E3; [|done]. intros [= <- <-].
    right. split; [done|]. destruct (remove_dir_all_touches _ _ _ _ E3) as [Hs3 _].
    by rewrite (sp_avail _ _ Hs3).
  - intros [= <- <-]. left. split_and!; [done|done|]. apply per_key_none in E. lia.
Qed.

Lemma insert_step_spec t d w r w' :
  insert_step t d w = Some (r, w') →
  (r = Ok tt ∧ avail w' = push_back t (avail w) ∧
    ∃ x, disk w' !! d = Some x ∧ d_meta x = Some (to_json t)) ∨
  (is_ok r = false ∧ avail w' = avail w).
Proof.
  unfold insert_step. unfold mbind at 1, M_bind.
  destruct (save t d w) as [[r1 w1]|] eqn:E; [|done].
  destruct (save_touches _ _ _ _ _ E) as [Hs _].
  munfold. destruct r1 as [[]|]; intros [= <- <-].
  - left. simpl. rewrite (sp_avail _ _ Hs). split_and!; [done|done|].
    revert E. clear. io_cases; rewrite lookup_insert_eq; eauto.
  - right. split; [done|]. apply (sp_avail _ _ Hs).
Qed.

Lemma depth_push_back t w w' : avail w' = push_back t (avail w) → depth (pt_key t) w' = depth (pt_key t) w + 1.
Proof.
  intros E. unfold depth. rewrite E. unfold push_back. rewrite lookup_insert_eq, length_app.
  destruct (avail w !! pt_key t); simpl; lia.
Qed.

Lemma depth_same k w w' : avail w' = avail w → depth k w' = depth k w ∧ total_depth w' = total_depth w.
Proof. intros E. unfold depth. by rewrite !total_depth_of, E. Qed.

(** The first half of [add], up to the insertion. *)
Lemma admission_spec t d w r w' :
  pool_ok_without (pt_id t) w → snapshot_type t ≠ Continuation →
  (if (gc_watermark cfg <=? total_depth w)%nat then watermark_step cfg d else mret (Ok tt)) w = Some (r, w') →
  pool_ok_without (pt_id t) w' ∧ (∀ k, depth k w' ≤ depth k w) ∧
  total_depth w' ≤ total_depth w ∧
  (r = Ok tt → total_depth w' < total_depth w `max` gc_watermark cfg).
Proof.
  intros Ho Hk. destruct (Nat.leb_spec (gc_watermark cfg) (total_depth w)) as [Hle|Hlt].
  - intros E. split; [by eapply (hoare_run _ _ _ _ _ _ (watermark_step_ok cfg (pt_id t) d))|].
    destruct (watermark_step_spec d w r w') as [(-> & Hd & Hk')|[Hr Ha]]; [apply Ho|done|..].
    + split_and!; [done|lia|lia].
    + destruct (depth_same (pt_key t) w w' Ha) as [_ ->]. split_and!; [|done|].
      * intros k. by destruct (depth_same k w w' Ha) as [-> _].
      * by intros ->.
  - intros [= <- <-]. split_and!; [done|done|done|lia].
Qed.

(** C40: admission control. A successful [add] lists the template, has its
    metadata on disk and leaves the pool within the water level and the key
    within its limit (or no larger than they were); a failed [add], in any
    of its branches and with any I/O outcomes, never lists the template and
    never grows the pool. *)
Theorem add_bounds t kmax w r w' :
  pool_ok_without (pt_id t) w → kind_max cfg t = Some kmax → add cfg t w = Some (r, w') →
  match r with
  | Ok _ =>
      listed t (avail w') ∧ (on_disk t w' ≫= d_meta) = Some (to_json t) ∧
      total_depth w' ≤ total_depth w `max` gc_watermark cfg ∧
      depth (pt_key t) w' ≤ depth (pt_key t) w `max` (1 `max` kmax)
  | Err _ => fresh_id (pt_id t) (avail w') ∧ total_depth w' ≤ total_depth w
  end.
Proof.
  intros Ho Hkm. assert (snapshot_type t ≠ Continuation) as Hk.
  { intros E. unfold kind_max in Hkm. by rewrite E in Hkm. }
  unfold add. unfold mbind at 1, M_bind.
  destruct (dir_of t w) as [[d w0]|] eqn:E0; [|done].
  destruct (dir_of_inv _ _ _ _ E0) as (-> & Hd & _).
  unfold mbind at 1, M_bind. destruct (create_dir_all d w) as [[r1 w1]|] eqn:E1; [|done].
  destruct (create_dir_all_touches _ _ _ _ E1) as [Hs1 _].
  pose proof (pool_ok_without_mem _ _ _ Hs1 Ho) as Ho1.
  destruct (depth_same (pt_key t) w w1 (sp_avail _ _ Hs1)) as [D1 T1].
  destruct r1 as [|]; [|intros [= <- <-]; split; [apply Ho1|lia]].
  unfold mbind at 1, M_bind, gets. unfold mbind at 1, M_bind.
  destruct ((if (gc_watermark cfg <=? total_depth w1)%nat then watermark_step cfg d
             else mret (Ok tt)) w1) as [[r2 w2]|] eqn:E2; [|done].
  destruct (admission_spec t d w1 r2 w2 Ho1 Hk E2) as (Ho2 & D2 & T2 & B2). specialize (D2 (pt_key t)).
  destruct r2 as [[]|]; [|intros [= <- <-]; split; [apply Ho2|lia]]. specialize (B2 eq_refl).
  unfold mbind at 1, M_bind. destruct (per_key_step cfg t d w2) as [[r3 w3]|] eqn:E3; [|done].
  pose proof (hoare_run _ _ _ _ _ _ (per_key_step_ok cfg (pt_id t) t d Hk) Ho2 E3) as Ho3.
  destruct (per_key_step_spec t d kmax w2 r3 w3) as [(-> & T3 & D3)|[Hr Ha]]; [apply Ho2|done|done|..].
  2:{ destruct r3 as [|]; [done|]. intros [= <- <-].
      destruct (depth_same (pt_key t) _ _ Ha) as [_ T3]. split; [apply Ho3|lia]. }
  intros E4. destruct (insert_step_spec _ _ _ _ _ E4) as [(-> & Ha & x & Hx & Hm)|[Hr Ha]].
  - pose proof (depth_push_back _ _ _ Ha). rewrite !total_depth_of in *.
    assert (depth_of (avail w') = depth_of (avail w3) + 1) by (rewrite Ha; apply depth_of_push_back).
    split_and!; [rewrite Ha; apply listed_push_back; by right| |lia|lia].
    unfold on_disk. rewrite Hd. simpl. by rewrite Hx.
  - destruct r as [|]; [done|]. destruct (depth_same (pt_key t) _ _ Ha) as [_ T4].
    split; [rewrite Ha; apply Ho3|lia].
Qed.

(** ** Acquire and release *)
Lemma push_back_take k q t m :
  m !! k = Some q → last q = Some t → pt_key t = k →
  push_back t (<[k := take (length q - 1) q]> m) = m.
Proof.
  intros Hk Hl <-. unfold push_back. rewrite lookup_insert_eq. simpl.
  rewrite <- (last_elem q t Hl), insert_insert_eq. by apply insert_id.
Qed.

Lemma remove_marker_free d w x :
  fault_free w → disk w !! d = Some (mkDir x true) →
  ∃ w', remove_marker d w = Some (Ok tt, w') ∧ fault_free w' ∧ same_pool w w' ∧
    disk w' = <[d := mkDir x false]> (disk w).
Proof.
  intros Hf Hd. unfold remove_marker, io_next, fault_free in *. munfold.
  destruct (io w) as [|o l] eqn:Eio; simpl.
  - rewrite Hd. eexists. split; [done|]. simpl. rewrite Eio. by split_and!.
  - apply Forall_cons in Hf as [-> Hf]. simpl. rewrite Hd. eexists. by split_and!.
Qed.

(** An exclusive acquisition is undone by [release]. When [acquire]
    hands a template out its marker is durable and the template is out of
    the pool; a release whose marker removal succeeds puts the pool and the
    directory back exactly as they were. *)
Theorem acquire_release_roundtrip k w t w1 :
  pool_ok w → acquire k w = Some (Some t, w1) →
  (∀ x, on_disk t w = Some x → d_consumed x = false) → fault_free w1 →
  fresh_id (pt_id t) (avail w1) ∧ marked t w1 ∧
  ∃ w2, release t w1 = Some (tt, w2) ∧ avail w2 = avail w ∧ disk w2 = disk w.
Proof.
  intros Ho E Hx Hf.
  destruct (hoare_run _ _ _ _ _ _ (acquire_ok k) Ho E) as [Ho1 [Hfr Hk]].
  split; [done|]. revert E. unfold acquire. unfold mbind at 1, M_bind, gets. simpl.
  destruct (avail w !! k) as [q|] eqn:Eq; [|done]. destruct (last q) as [u|] eqn:El; [|done].
  unfold mbind at 1, M_bind, modify. unfold consume. unfold mbind at 1, M_bind.
  set (w0 := set_avail _ w). destruct (dir_of u w0) as [[d v]|] eqn:E1; [|done].
  destruct (dir_of_inv _ _ _ _ E1) as (-> & Hd & _).
  unfold mbind at 1, M_bind. destruct (write_consumed_marker d w0) as [[r v]|] eqn:E2; [|done].
  destruct (write_consumed_marker_touches _ _ _ _ E2) as [Hs _].
  destruct r as [[]|]; [|done]. intros [= -> ->].
  destruct (write_consumed_marker_ok _ _ _ E2) as (x & Hdx & Edisk). simpl in Hdx, Edisk.
  split; [exists d; eexists; rewrite Edisk, lookup_insert_eq; done|].
  assert (d_consumed x = false) as Hc.
  { apply Hx. unfold on_disk. by rewrite Hd. }
  destruct (remove_marker_free d w1 (d_meta x) Hf) as (w2 & E3 & _ & Hs2 & Ed2).
  { by rewrite Edisk, lookup_insert_eq. }
  unfold release, dir_of. rewrite Hd. unfold mbind, M_bind, mret, M_ret. rewrite E3.
  eexists. split; [done|]. simpl. split.
  - rewrite (sp_avail _ _ Hs2), (sp_avail _ _ Hs). simpl. apply push_back_take; [done|done|].
    eapply (ao_key _ (po_avail _ Ho)); [done|]. rewrite (last_elem q t El).
    apply elem_of_app. right. by left.
  - rewrite Ed2, Edisk, insert_insert_eq. apply insert_id. rewrite Hdx. f_equal.
    destruct x. simpl in *. by subst.
Qed.

(** ** Recovery from disk *)
Definition loadable (m : gmap DirKey Dir) d t : Prop :=
  ∃ x j, m !! d = Some x ∧ d_consumed x = false ∧ d_meta x = Some j ∧ from_json j = Some t.

Lemma marker_exists_free d w :
  fault_free w → ∃ w', fault_free w' ∧ same_pool w w' ∧ disk w' = disk w ∧
    marker_exists d w = Some (Ok (match disk w !! d with Some x => d_consumed x | None => false end), w').
Proof.
  intros Hf. unfold marker_exists, io_next, fault_free in *. munfold.
  destruct (io w) as [|o l] eqn:Eio; simpl.
  - exists w. rewrite Eio. by split_and!.
  - apply Forall_cons in Hf as [-> Hf]. exists (set_io l w). by split_and!.
Qed.

Lemma load_free d w :
  fault_free w → ∃ r w', load d w = Some (r, w') ∧ fault_free w' ∧ same_pool w w' ∧ disk w' = disk w ∧
    ∀ t, r = Ok t ↔ ∃ x j, disk w !! d = Some x ∧ d_meta x = Some j ∧ from_json j = Some t.
Proof.
  intros Hf. unfold load, io_next, fault_free in *. munfold.
  destruct (io w) as [|o l] eqn:Eio; simpl; [|apply Forall_cons in Hf as [-> Hf]; simpl];
    (destruct (disk w !! d) as [[[j|] c]|] eqn:Ed; [destruct (from_json j) eqn:Ej|..]);
    (eexists _, _; split; [done|]); simpl; rewrite ?Eio; split_and!; try done; naive_solver.
Qed.

Lemma io_next_free w : fault_free w → ∃ w', io_next w = Some (IoOk, w') ∧ fault_free w' ∧
  same_pool w w' ∧ disk w' = disk w.
Proof.
  intros Hf. unfold io_next, fault_free in *. destruct (io w) as [|o l] eqn:Eio.
  - exists w. rewrite Eio. by split_and!.
  - apply Forall_cons in Hf as [-> Hf]. exists (set_io l w). by split_and!.
Qed.

Lemma load_entry_free d w :
  fault_free w → ∃ w', load_entry d w = Some (tt, w') ∧ fault_free w' ∧ disk w' = disk w ∧
    restores w' = restores w ∧ in_use w' = in_use w ∧
    ∀ t, listed t (avail w') ↔ listed t (avail w) ∨ loadable (disk w) d t.
Proof.
  intros Hf. unfold load_entry. unfold mbind at 1, M_bind.
  destruct (marker_exists_free d w Hf) as (w1 & Hf1 & Hs1 & Ed1 & E1). rewrite E1.
  assert ((∃ x, disk w !! d = Some x ∧ d_consumed x = true) ∨
          (match disk w !! d with Some x => d_consumed x | None => false end = false)) as [(x & Hx & Hc)|Hc].
  { destruct (disk w !! d) as [x|]; [|by right]. destruct (d_consumed x) eqn:Ec; [left|right]; eauto. }
  - rewrite Hx, Hc. exists w1. destruct Hs1 as [Ea ? ? ? ?]. split_and!; try done.
    intros t. rewrite Ea. split; [by left|]. intros [|(y & j & Hy & Hn & _)]; [done|congruence].
  - rewrite Hc. unfold mbind at 1, M_bind.
    destruct (load_free d w1 Hf1) as (r & w2 & E2 & Hf2 & Hs2 & Ed2 & Hr). rewrite E2.
    assert (same_pool w w2) as Hs by by transitivity w1. destruct Hs as [Ea ? Es Ei ?].
    assert (∀ t, r = Ok t ↔ loadable (disk w) d t) as Hr'.
    { intros t. rewrite Hr, Ed1. unfold loadable. split.
      - intros (x & j & Hx & Hm & Hj). exists x, j. rewrite Hx in Hc. done.
      - intros (x & j & Hx & _ & Hm & Hj). eauto. }
    destruct r as [t|e].
    + eexists. split; [done|]. simpl. split_and!; [done|congruence|done|done|].
      intros u. rewrite listed_push_back, Ea, <- Hr'. naive_solver.
    + exists w2. split_and!; try done; [congruence|]. intros u. rewrite Ea, <- Hr'. naive_solver.
Qed.

Lemma for_entries_free l w :
  fault_free w → ∃ w', for_entries load_entry l w = Some (tt, w') ∧ fault_free w' ∧ disk w' = disk w ∧
    restores w' = restores w ∧ in_use w' = in_use w ∧
    ∀ t, listed t (avail w') ↔ listed t (avail w) ∨ ∃ d, d ∈ l ∧ loadable (disk w) d t.
Proof.
  revert w. induction l as [|d l IH]; intros w Hf; simpl; unfold mbind at 1, M_bind;
    destruct (io_next_free w Hf) as (w1 & E1 & Hf1 & [Ea ? Es Ei ?] & Ed1); rewrite E1.
  - exists w1. split_and!; try done. intros t. rewrite Ea. split; [by left|].
    intros [|(d & Hd & _)]; [done|]. by apply elem_of_nil in Hd.
  - unfold mbind at 1, M_bind.
    destruct (load_entry_free d w1 Hf1) as (w2 & E2 & Hf2 & Ed2 & Es2 & Ei2 & Hl2). rewrite E2.
    destruct (IH w2 Hf2) as (w3 & E3 & Hf3 & Ed3 & Es3 & Ei3 & Hl3).
    exists w3. split_and!; try done; try congruence.
    intros t. rewrite Hl3, Hl2, Ea, Ed2, Ed1. setoid_rewrite elem_of_cons. naive_solver.
Qed.

Lemma scan_free sd w :
  fault_free w → ∃ w', scan_subdir load_entry sd w = Some (tt, w') ∧ fault_free w' ∧ disk w' = disk w ∧
    restores w' = restores w ∧ in_use w' = in_use w ∧
    ∀ t, listed t (avail w') ↔ listed t (avail w) ∨ ∃ i, loadable (disk w) (sd, i) t.
Proof.
  intros Hf. unfold scan_subdir. unfold mbind at 1, M_bind.
  destruct (io_next_free w Hf) as (w1 & E1 & Hf1 & [Ea ? Es Ei ?] & Ed1). rewrite E1.
  unfold mbind at 1, M_bind, gets.
  destruct (for_entries_free (entries_of sd w1) w1 Hf1) as (w2 & E2 & Hf2 & Ed2 & Es2 & Ei2 & Hl2).
  exists w2. split_and!; try done; try congruence.
  intros t. rewrite Hl2, Ea, Ed1. f_equiv. unfold entries_of. split.
  - intros ([s i] & Hd & Hld). apply elem_of_retain in Hd as [_ Hd%bool_decide_eq_true]. simpl in Hd. subst. eauto.
  - intros (i & Hld). exists (sd, i). split; [|done]. apply elem_of_retain.
    split; [|by rewrite bool_decide_true]. apply elem_of_hash_keys. rewrite Ed1.
    destruct Hld as (x & j & Hx & _). eauto.
Qed.

Lemma load_from_disk_free w :
  fault_free w →
  ∃ w', load_from_disk w = Some (Ok tt, w') ∧ disk w' = disk w ∧
    restores w' = ∅ ∧ in_use w' = ∅ ∧
    ∀ t, listed t (avail w') ↔ ∃ d, loadable (disk w) d t.
Proof.
  intros Hf. unfold load_from_disk. unfold mbind at 1, M_bind.
  destruct (io_next_free w Hf) as (w1 & E1 & Hf1 & Hs1 & Ed1). rewrite E1.
  unfold mbind at 1, M_bind, modify. unfold mbind at 1, M_bind.
  destruct (scan_free sub_environment (fresh_pool w1)) as (w2 & E2 & Hf2 & Ed2 & Es2 & Ei2 & Hl2); [done|].
  rewrite E2. unfold mbind at 1, M_bind.
  destruct (scan_free sub_warmfork w2 Hf2) as (w3 & E3 & Hf3 & Ed3 & Es3 & Ei3 & Hl3). rewrite E3.
  exists w3. simpl in *. split_and!; [done|congruence..|].
  intros t. rewrite Hl3, Hl2, Ed2, Ed1. split.
  - intros [[(k & q & Hk & _)|(i & Hi)]|(i & Hi)]; [by rewrite lookup_empty in Hk|eauto..].
  - intros ([[] i] & Hd); [left; right|right]; eauto.
Qed.

(** Recovery. Without I/O faults [load_from_disk] succeeds, lists
    exactly the templates whose directory has parseable metadata and no
    consumed marker, forgets every counter and changes nothing on disk. *)
Theorem load_from_disk_exact w :
  fault_free w →
  ∃ w', load_from_disk w = Some (Ok tt, w') ∧ disk w' = disk w ∧
    restores w' = ∅ ∧ in_use w' = ∅ ∧
    ∀ t, listed t (avail w') ↔ ∃ d, loadable (disk w) d t.
Proof. apply load_from_disk_free. Qed.

(** ** Waiting *)
Definition is_changed (k : Wake) : Prop := match k with Changed _ => True | _ => False end.

(** Waiting for a refill. What the wait returns is the answer of an
    acquisition made in the state it returns in, and it gives up only when
    no refill is in flight for the key, or after waking up for every pool
    change up to the deadline or the closing of the channel. *)
Theorem wait_gives_up_only_when_hopeless acq k wakes w o w' :
  wait_loop acq k wakes w = Some (o, w') →
  (∃ w0, acq w0 = Some (o, w')) ∧
  (o = None → in_flight_count_for_key k w' = 0 ∨
    ∃ n, Forall is_changed (take n wakes) ∧
      (n = length wakes ∨ wakes !! n = Some SenderDropped ∨ wakes !! n = Some SleepElapsed)).
Proof.
  revert w. induction wakes as [|v wakes IH]; intros w; simpl;
    unfold mbind at 1, M_bind; (destruct (acq w) as [[[t|] w1]|] eqn:E; [|unfold mbind at 1, M_bind, gets|done]);
    try (intros [= <- <-]; split; [eauto|done]).
  - case_bool_decide as En; intros [= <- <-]; (split; [eauto|]); intros _; [by left|].
    right. exists 0. split; [constructor|by left].
  - case_bool_decide as En; [intros [= <- <-]; split; [eauto|by left]|].
    destruct v as [f| |].
    + intros Hr. destruct (IH _ Hr) as [Ha Hn]. split; [done|]. intros Ho.
      destruct (Hn Ho) as [|(n & Hall & Hend)]; [by left|]. right. exists (S n).
      split; [by constructor|]. simpl. naive_solver.
    + intros [= <- <-]. split; [eauto|]. intros _. right. exists 0. split; [constructor|by auto].
    + intros [= <- <-]. split; [eauto|]. intros _. right. exists 0. split; [constructor|by auto].
Qed.
End props.

(** ** Concrete runs *)
#[local] Existing Instance plain_codec.
#[local] Existing Instance listing_order.

Definition demo_old : PooledTemplate := demo_template "old" "k" Environment 1.
Definition demo_mid : PooledTemplate := demo_template "mid" "k" Environment 2.
Definition demo_new : PooledTemplate := demo_template "new" "l" Environment 3.
Definition demo_disk : gmap DirKey Dir :=
  list_to_map ((λ t, ((sub_environment, pt_id t), mkDir (Some (Some t)) false)) <$> [demo_old; demo_mid; demo_new]).
(** Three Environment templates under two keys, the oldest pinned by a restore. *)
Definition demo_full : World :=
  mkWorld (list_to_map [(mkKey "k", [demo_old; demo_mid]); (mkKey "l", [demo_new])]) ∅
    (list_to_map [("old", 1)]) ∅ 0 demo_disk [].

Lemma demo_avail m :
  (∀ k q, m !! k = Some q → (k = mkKey "k" ∧ q = [demo_old; demo_mid]) ∨ (k = mkKey "l" ∧ q = [demo_new])) →
  avail_ok m.
Proof.
  intros Hm. split.
  - intros k q t Hk Ht. destruct (Hm k q Hk) as [[-> ->]|[-> ->]]; set_solver.
  - intros k q t Hk Ht. destruct (Hm k q Hk) as [[-> ->]|[-> ->]]; set_solver.
  - intros k q Hk. destruct (Hm k q Hk) as [[-> ->]|[-> ->]]; apply NoDup_ListNoDup; vm_compute;
      repeat constructor; set_solver.
  - intros k k' q q' t t' Hk Hk' Ht Ht' E.
    destruct (Hm k q Hk) as [[-> ->]|[-> ->]], (Hm k' q' Hk') as [[-> ->]|[-> ->]]; set_solver.
Qed.

Lemma demo_full_ok : pool_ok demo_full.
Proof.
  split.
  - apply demo_avail. intros k q Hk. simpl in Hk. rewrite lookup_insert in Hk. case_decide.
    + left. naive_solver.
    + rewrite lookup_insert in Hk. case_decide; [right; naive_solver|done].
  - apply map_Forall_insert_2; [by apply Nat.lt_0_1|apply map_Forall_empty].
  - apply map_Forall_empty.
  - apply map_Forall_empty.
Qed.

Lemma gc_exact_witness : ∃ w', gc_if_needed (demo_cfg 1 2 Shared) demo_full = Some (tt, w') ∧ total_depth w' = 1.
Proof.
  destruct (gc_exact (demo_cfg 1 2 Shared) demo_full demo_full_ok (List.Forall_nil _)) as (w' & H1 & H2 & _).
  exists w'. split; [exact H1|exact H2].
Defined.

Lemma evict_count_exact_witness :
  ∃ n w', evict_by_kind (demo_cfg 1 2 Shared) Environment 1 demo_full = Some (n, w') ∧ n + total_depth w' = 3.
Proof.
  destruct (evict_by_kind (demo_cfg 1 2 Shared) Environment 1 demo_full) as [[n w']|] eqn:E.
  - exists n, w'. split; [reflexivity|]. exact (evict_count_exact _ _ _ _ _ _ demo_full_ok E).
  - exfalso. vm_compute in E. discriminate.
Defined.

Lemma demo_fresh : pool_ok_without "t9" demo_full.
Proof.
  split; [apply demo_full_ok|]. intros t (k & q & Hk & Ht).
  simpl in Hk. rewrite !lookup_insert in Hk. repeat case_decide; simplify_eq; set_solver.
Qed.

Lemma add_bounds_witness :
  ∃ r w', add (demo_cfg 3 2 Shared) (demo_template "t9" "k" Environment 9) demo_full = Some (r, w') ∧
    total_depth w' ≤ 3.
Proof.
  destruct (add (demo_cfg 3 2 Shared) (demo_template "t9" "k" Environment 9) demo_full) as [[r w']|] eqn:E.
  - exists r, w'. split; [reflexivity|].
    pose proof (add_bounds (demo_cfg 3 2 Shared) (demo_template "t9" "k" Environment 9) 2 demo_full r w'
      demo_fresh eq_refl E) as HB.
    destruct r as [u|e]; [exact (proj1 (proj2 (proj2 HB)))|exact (proj2 HB)].
  - exfalso. vm_compute in E. discriminate.
Defined.

Lemma acquire_release_roundtrip_witness :
  ∃ w1 w2, acquire (mkKey "l") demo_full = Some (Some demo_new, w1) ∧
    release demo_new w1 = Some (tt, w2) ∧ disk w2 = disk demo_full.
Proof.
  destruct (acquire (mkKey "l") demo_full) as [[o w1]|] eqn:E; [|exfalso; vm_compute in E; discriminate].
  assert (o = Some demo_new ∧ io w1 = []) as [-> Hio] by (vm_compute in E; injection E as <- <-; done).
  destruct (acquire_release_roundtrip (mkKey "l") demo_full demo_new w1 demo_full_ok E) as (_ & _ & w2 & H1 & _ & H2).
  - intros x Hx. vm_compute in Hx. injection Hx as <-. reflexivity.
  - unfold fault_free. rewrite Hio. constructor.
  - exists w1, w2. split; [reflexivity|]. split; [exact H1|exact H2].
Defined.

Lemma load_from_disk_exact_witness : ∃ w', load_from_disk demo_full = Some (Ok tt, w') ∧ restores w' = ∅.
Proof.
  destruct (load_from_disk_exact demo_full (List.Forall_nil _)) as (w' & H1 & _ & H2 & _).
  exists w'. split; [exact H1|exact H2].
Defined.

Lemma wait_gives_up_only_when_hopeless_witness :
  ∃ o w', wait_loop (acquire (mkKey "none")) (mkKey "none") [SleepElapsed] demo_full = Some (o, w') ∧
    ∃ w0, acquire (mkKey "none") w0 = Some (o, w').
Proof.
  destruct (wait_loop (acquire (mkKey "none")) (mkKey "none") [SleepElapsed] demo_full) as [[o w']|] eqn:E.
  - exists o, w'. split; [reflexivity|].
    exact (proj1 (wait_gives_up_only_when_hopeless _ _ _ _ _ _ E)).
  - exfalso. vm_compute in E. discriminate.
Defined.
