(* ===== verification/PoolDisk.v ===== *)
(** * The store on disk in every reachable state

    Metadata is only ever written into the directory of its own template, so a
    restart recovers the right templates. *)
From S2P Require Import Prelude Strs Storage Types Disk Pool PoolLemmas PoolInv PoolFrame PoolSys PoolProps.

Section disk_inv.
Context `{TemplateCodec} `{HashOrder} (cfg : PoolConfig).
Implicit Types (w : World) (d : DirKey).

(** A property of the directories, one by one, that holds of the directories
    of the templates that are added and survives the loss of the metadata and
    any change of the marker. *)
Context (Q : DirKey → Dir → Prop) (addable : PooledTemplate → Prop).
Hypothesis Q_change : ∀ d x m b, Q d x → m = d_meta x ∨ m = None → Q d (mkDir m b).
Hypothesis Q_new : ∀ t d, addable t → template_dir t = Some d → Q d (mkDir None false).
Hypothesis Q_save : ∀ t d x, addable t → template_dir t = Some d → Q d x → Q d (mkDir (Some (to_json t)) (d_consumed x)).

Definition placed w : Prop := map_Forall Q (disk w).

Lemma placed_disk w w' : disk w' = disk w → placed w → placed w'.
Proof. unfold placed. by intros ->. Qed.

Ltac placed :=
  let W := fresh in intros ? ? ? W; io_cases; try done;
  intros d' x' Hd'; simpl in *;
  first
    [ apply lookup_delete_Some in Hd' as [_ Hd']; by eapply W
    | rewrite lookup_insert in Hd'; case_decide; simplify_eq/=; [|by eapply W];
      (eapply Q_change; [by eapply W|by left])
    | rewrite lookup_alter in Hd'; case_decide; subst; [|by eapply W];
      apply fmap_Some in Hd' as (y & Hy & ->); simpl in *;
      (eapply Q_change; [by eapply W|repeat case_match; auto])
    | repeat case_match; simplify_eq/=; by eapply W ].

Lemma io_next_placed : preserves placed io_next.
Proof. placed. Qed.
Lemma create_empty_placed d : Q d (mkDir None false) → preserves placed (create_dir_all d).
Proof.
  intros Hq w r w' W. io_cases; try done; intros d' x' Hd'; simpl in *;
    (case_match; [by eapply W|]; rewrite lookup_insert in Hd'; case_decide; simplify_eq/=; [done|by eapply W]).
Qed.
Lemma create_dir_all_placed t d : addable t → template_dir t = Some d → preserves placed (create_dir_all d).
Proof. intros Ha Ht. apply create_empty_placed. by eapply Q_new. Qed.
Lemma remove_dir_all_placed d : preserves placed (remove_dir_all d).
Proof. placed. Qed.
Lemma write_consumed_marker_placed d : preserves placed (write_consumed_marker d).
Proof. placed. Qed.
Lemma remove_marker_placed d : preserves placed (remove_marker d).
Proof. placed. Qed.
Lemma marker_exists_placed d : preserves placed (marker_exists d).
Proof. placed. Qed.
Lemma dir_exists_placed d : preserves placed (dir_exists d).
Proof. placed. Qed.
Lemma dir_of_placed t : preserves placed (dir_of t).
Proof. unfold dir_of. preserve. Qed.
Lemma save_placed t d : addable t → template_dir t = Some d → preserves placed (save t d).
Proof.
  intros Ha Ht w r w' W. io_cases; try done; intros d' x' Hd'; simpl in *;
    (rewrite lookup_insert in Hd'; case_decide; simplify_eq/=; [|by eapply W]);
    (eapply Q_save; [done|done|by eapply W]).
Qed.

#[local] Hint Resolve io_next_placed create_dir_all_placed remove_dir_all_placed
  write_consumed_marker_placed remove_marker_placed marker_exists_placed dir_exists_placed
  dir_of_placed save_placed : preserve.

(** Updates of the in-memory part. *)
Lemma mem_placed f : (∀ w, disk (f w) = disk w) → preserves placed (modify f).
Proof. intros Hf. apply preserves_modify. intros w. by apply placed_disk. Qed.
#[local] Hint Extern 1 (preserves placed (modify _)) => apply mem_placed; done : preserve.

Lemma evict_one_placed n t : preserves placed (evict_one n t).
Proof. unfold evict_one. preserve. Qed.
#[local] Hint Resolve evict_one_placed : preserve.
Lemma gc_placed : preserves placed (gc_if_needed cfg).
Proof. unfold gc_if_needed. preserve. Qed.
Lemma evict_placed kind n : preserves placed (evict_by_kind cfg kind n).
Proof. unfold evict_by_kind. preserve. Qed.
Lemma remove_placed i kind : preserves placed (remove_by_id i kind).
Proof. unfold remove_by_id. preserve. Qed.
Lemma watermark_placed d : preserves placed (watermark_step cfg d).
Proof. unfold watermark_step. preserve. Qed.
Lemma per_key_placed t d : preserves placed (per_key_step cfg t d).
Proof. unfold per_key_step. preserve. Qed.
Lemma insert_placed t d : addable t → template_dir t = Some d → preserves placed (insert_step t d).
Proof. intros Ha Ht. unfold insert_step. preserve. Qed.
#[local] Hint Resolve gc_placed evict_placed remove_placed watermark_placed per_key_placed
  insert_placed : preserve.

Lemma add_placed t : addable t → preserves placed (add cfg t).
Proof.
  intros Ha. unfold add, dir_of. destruct (template_dir t) as [d|] eqn:Ed; [|by intros w r w'].
  intros w r w' W. unfold mbind at 1, M_bind, mret, M_ret. revert W.
  match goal with |- _ → ?m _ = _ → _ => apply (λ H : preserves placed m, H w r w') end.
  preserve.
Qed.
Lemma consume_placed t : preserves placed (consume t).
Proof. unfold consume. preserve. Qed.
#[local] Hint Resolve add_placed consume_placed : preserve.
Lemma acquire_placed k : preserves placed (acquire k).
Proof. unfold acquire. preserve. Qed.
Lemma acquire_by_id_placed i : preserves placed (acquire_by_id i).
Proof. unfold acquire_by_id. preserve. Qed.
Lemma release_placed t : preserves placed (release t).
Proof. unfold release. preserve. Qed.
Lemma end_restore_placed i : preserves placed (end_restore cfg i).
Proof. unfold end_restore. preserve. Qed.
Lemma deref_placed i : preserves placed (deref cfg i).
Proof. unfold deref. preserve. Qed.
Lemma find_template_dir_placed i : preserves placed (find_template_dir i).
Proof. unfold find_template_dir. preserve. Qed.
#[local] Hint Resolve acquire_placed acquire_by_id_placed release_placed end_restore_placed
  deref_placed find_template_dir_placed : preserve.
Lemma cleanup_consumed_placed i : preserves placed (cleanup_consumed i).
Proof. unfold cleanup_consumed. preserve. Qed.
Lemma ask_placed a : preserves placed (ask cfg a).
Proof.
  destruct a; unfold ask, acquire_for_restore, acquire_by_id_for_restore, peek_latest_for_restore,
    peek_with_ref, peek_by_id_for_restore, peek_by_id_with_ref; preserve.
Qed.
#[local] Hint Resolve cleanup_consumed_placed ask_placed : preserve.
Lemma grant_placed a : preserves placed (grant cfg a).
Proof. unfold grant, lease_new. preserve. Qed.
Lemma serve_placed r :
  (∀ t, r = RAdd t → addable t) → (∀ d, r = RPrepare d → Q d (mkDir None false)) → preserves placed (serve cfg r).
Proof.
  intros Ha Hp. destruct r; unfold serve; try pose proof (add_placed t (Ha t eq_refl));
    try pose proof (create_empty_placed d (Hp d eq_refl)); unfold begin_refill, end_refill; preserve.
Qed.
Lemma complete_placed l : preserves placed (lease_complete cfg l).
Proof. unfold lease_complete. preserve. Qed.
Lemma fail_placed l : preserves placed (lease_fail cfg l).
Proof. unfold lease_fail. preserve. Qed.
Lemma gone_placed h : preserves placed (sandbox_gone cfg h).
Proof. unfold sandbox_gone. preserve. Qed.

End disk_inv.

Section restart.
Context `{TemplateCodec} `{HashOrder} (cfg : PoolConfig).

Definition own_meta (d : DirKey) (x : Dir) : Prop :=
  ∀ j t, d_meta x = Some j → from_json j = Some t → template_dir t = Some d.

Lemma reachable_placed s : reachable cfg s → well_placed (world s).
Proof.
  assert (∀ d x m b, own_meta d x → m = d_meta x ∨ m = None → own_meta d (mkDir m b)) as H1.
  { intros d x m b Hq [->| ->] j t; simpl; [apply Hq|done]. }
  assert (∀ t d, True → template_dir t = Some d → own_meta d (mkDir None false)) as H2 by done.
  assert (∀ t d x, True → template_dir t = Some d → own_meta d x →
    own_meta d (mkDir (Some (to_json t)) (d_consumed x))) as H3.
  { intros t d x _ Ht _ j t' [= <-]. rewrite json_roundtrip. by intros [= <-]. }
  assert (∀ w, well_placed w ↔ placed own_meta w) as Hw.
  { intros w. split; [intros Hp d x Hd j t; by eapply Hp|intros Hp d x j t Hd; by eapply Hp]. }
  intros Hr. apply Hw. induction Hr as [s (_ & Hp & _)|s s' _ IH Hs]; [by apply Hw|].
  assert (∀ io, placed own_meta (set_io io (world s))) as IH' by done.
  destruct Hs; simpl.
  - eapply (serve_placed cfg own_meta (λ _, True)); [done..|apply IH'|done].
  - eapply (grant_placed cfg own_meta); [done|apply IH'|done].
  - eapply (complete_placed cfg own_meta); [done|apply IH'|done].
  - eapply (fail_placed cfg own_meta); [done|apply IH'|done].
  - by match goal with E : ref_template _ _ = _ |- _ => injection E as <- end.
  - eapply (gone_placed cfg own_meta); [done|apply IH'|done].
Qed.

(** C39: restart. After any history of operations run one after the other, with
    any I/O outcomes, a crash, and a restart in which no file-system call of
    [load_from_disk] fails: no template directory that a
    sandbox owns exclusively is offered again, and every template held under
    a shared claim whose directory was intact when the claim began is in the
    pool again. *)
Theorem restart_safe s h :
  reachable cfg s → h ∈ holds s → fault_free (world s) →
  ∃ w', load_from_disk (world s) = Some (Ok tt, w') ∧
    match h_claim h with
    | Owning | Consumed => ∀ t, listed t (avail w') → template_dir t ≠ template_dir (h_tmpl h)
    | Restoring | Referencing =>
        ∀ x, h_dir h = Some x → d_consumed x = false → d_meta x = Some (to_json (h_tmpl h)) →
          listed (h_tmpl h) (avail w')
    end.
Proof.
  intros Hr Hin Hf. destruct (load_from_disk_free (world s) Hf) as (w' & E & _ & _ & _ & Hl).
  exists w'. split; [done|]. destruct (so_hold _ _ (reachable_ok cfg s Hr) h Hin) as [_ Hp Hd].
  assert (∀ x, h_dir h = Some x → d_consumed x = true →
            ∀ t, listed t (avail w') → template_dir t ≠ template_dir (h_tmpl h)) as Hex.
  { intros x Hx Hc t Ht Et. apply Hl in Ht as (d & y & j & Hy & Hn & Hm & Hj).
    pose proof (reachable_placed s Hr d y j t Hy Hm Hj) as Hpl.
    rewrite Hx in Hd. unfold on_disk in Hd. rewrite <- Et, Hpl in Hd. simpl in Hd. congruence. }
  assert (∀ x, h_dir h = Some x → d_consumed x = false → d_meta x = Some (to_json (h_tmpl h)) →
            listed (h_tmpl h) (avail w')) as Hsh.
  { intros x Hx Hc Hm. apply Hl. rewrite Hx in Hd. unfold on_disk in Hd.
    destruct (template_dir (h_tmpl h)) as [d|]; simpl in Hd; [|done].
    exists d, x, (to_json (h_tmpl h)). by rewrite json_roundtrip. }
  destruct (h_claim h); [exact Hsh|exact Hsh|..]; destruct Hp as (_ & x & Hx & Hc); by eapply Hex.
Qed.
End restart.

#[local] Existing Instance plain_codec.
#[local] Existing Instance listing_order.

Lemma restart_safe_witness :
  ∃ w', load_from_disk (world demo_s3) = Some (Ok tt, w') ∧
    ∀ t, listed t (avail w') → template_dir t ≠ Some (sub_warmfork, "t1").
Proof.
  destruct (restart_safe demo_pool demo_s3 demo_hold demo_s3_reachable) as (w' & H1 & H2).
  - by left.
  - vm_compute. constructor.
  - exists w'. split; [exact H1|exact H2].
Defined.
