(* ===== verification/PoolConc.v ===== *)
(** * Interleavings of pool operations

    Each pool operation takes its locks in scopes and does file I/O between
    them. Here a thread runs one scope or one I/O call per step, and threads
    interleave freely: [acquire] pops under the lock and writes the marker
    after it; [gc_if_needed], [evict_by_kind], [remove_by_id] and [add] choose
    what they evict under the locks, delete the directory without them and take
    the lock again to drop the entry. An exclusive template has one owner under
    every interleaving; the directory of a template on a lease stays unless an
    eviction had chosen it before the lease, and a run in which one had is
    [gc_race_deletes_leased_directory]. The end of the file has two places
    where the pool reacts to a missing directory or an unreadable marker
    differently from its other operations. *)
From S2P Require Import Prelude Strs Storage Types Disk Pool PoolLemmas PoolInv PoolFrame PoolSys PoolProps.

Section conc.
Context `{TemplateCodec} `{HashOrder} (cfg : PoolConfig).
Implicit Types (w : World) (d : DirKey).

(** Where a thread is. *)
Inductive Pc :=
  (** exclusive leases *)
  | PAcquire (k : TemplateKey)
  | PAcquireById (i : string)
  | PMark (t : PooledTemplate)      (** popped, marker not written yet *)
  | PBack (t : PooledTemplate)      (** the marker write failed *)
  | PGot (t : PooledTemplate)       (** [acquire] returned [Some t] *)
  | PRelease (t : PooledTemplate)   (** about to remove the marker *)
  | PPush (t : PooledTemplate)      (** marker removed, about to push back *)
  (** leases counted in [in_flight_restores] *)
  | PPeek (k : TemplateKey)
  | PPeekById (i : string)
  | PLeased (t : PooledTemplate)    (** the peek returned [Some t] *)
  | PEndRestore (t : PooledTemplate)
  (** references counted in [in_use_count] *)
  | PPeekRef (k : TemplateKey)
  | PPeekRefById (i : string)
  | PReferenced (t : PooledTemplate)
  | PDeref (t : PooledTemplate)
  (** evictions *)
  | PGc
  | PGcPick (total : nat)           (** [total_depth] was read *)
  | PEvict (kind : SnapshotType) (target : nat)
  | PRemove (i : string) (kind : SnapshotType)
  | PGcDelete (cands : list PooledTemplate)
  | PGcUnlist (t : PooledTemplate) (cands : list PooledTemplate)
  (** [add t] *)
  | PAdd (t : PooledTemplate)
  | PWater (t : PooledTemplate)
  | PWaterPick (t : PooledTemplate)
  | PWaterDelete (t c : PooledTemplate)
  | PWaterUnlist (t c : PooledTemplate)
  | PPerKey (t : PooledTemplate)
  | PPerKeyDelete (t o : PooledTemplate)
  | PPerKeyUnlist (t o : PooledTemplate)
  | PDiscard (t : PooledTemplate)   (** gives up: removes its own directory *)
  | PSave (t : PooledTemplate)
  | PInsert (t : PooledTemplate)
  | PDone.

Definition leased_or_done (o : option PooledTemplate) : Pc := match o with None => PDone | Some t => PLeased t end.
Definition referenced_or_done (o : option PooledTemplate) : Pc :=
  match o with None => PDone | Some t => PReferenced t end.

(** The scope of [end_restore] and [deref]: one less, and whether it was the
    last one. *)
Definition give_back (i : string) (m : gmap string nat) : gmap string nat * bool :=
  match m !! i with
  | Some (S c) => if bool_decide (c = 0) then (delete i m, true) else (<[i := c]> m, false)
  | _ => (m, false)
  end.

(** One scope or one I/O call of the thread at [pc]. *)
Definition pc_step (pc : Pc) : M World Pc :=
  match pc with
  | PAcquire k =>
      m ← gets avail;
      match m !! k with
      | None => mret PDone
      | Some q =>
          match last q with
          | None => mret PDone
          | Some t => modify (set_avail (insert k (take (length q - 1) q)));; mret (PMark t)
          end
      end
  | PAcquireById i =>
      m ← gets avail;
      match locate i (hash_iter m) with
      | None => mret PDone
      | Some (k, q, j, t) => modify (set_avail (insert k (delete j q)));; mret (PMark t)
      end
  | PMark t =>
      d ← dir_of t;
      r ← write_consumed_marker d;
      match r with Err _ => mret (PBack t) | Ok _ => mret (PGot t) end
  | PBack t => modify (set_avail (push_back t));; mret PDone
  | PGot t => mret (PGot t)
  | PRelease t =>
      d ← dir_of t;
      _ ← remove_marker d;
      mret (PPush t)
  | PPush t => modify (set_avail (push_back t));; mret PDone
  | PPeek k => o ← peek_latest_for_restore k; mret (leased_or_done o)
  | PPeekById i => o ← peek_by_id_for_restore i; mret (leased_or_done o)
  | PLeased t => mret (PLeased t)
  | PEndRestore t =>
      m ← gets restores;
      modify (set_restores (λ _, (give_back (pt_id t) m).1));;
      mret (if (give_back (pt_id t) m).2 then PGc else PDone)
  | PPeekRef k => o ← peek_with_ref cfg k; mret (referenced_or_done o)
  | PPeekRefById i => o ← peek_by_id_with_ref cfg i; mret (referenced_or_done o)
  | PReferenced t => mret (PReferenced t)
  | PDeref t =>
      m ← gets in_use;
      modify (set_in_use (λ _, (give_back (pt_id t) m).1));;
      mret (if (give_back (pt_id t) m).2 then PGc else PDone)
  | PGc =>
      n ← gets total_depth;
      mret (if (n <=? gc_watermark cfg)%nat then PDone else PGcPick n)
  | PGcPick n =>
      w ← gets id;
      mret (PGcDelete (take (n - gc_watermark cfg) (gc_candidates cfg w)))
  | PEvict kind n =>
      w ← gets id;
      match try_filter (evict_candidate cfg kind w) (all_templates (avail w)) with
      | None => panic
      | Some cands =>
          mret (if (length cands <=? n)%nat then PDone
                else PGcDelete (take (length cands - n) (sort_by by_age cands)))
      end
  | PRemove i kind =>
      w ← gets Datatypes.id;
      mret match get_template i w with
           | None => PDone
           | Some t =>
               if negb (bool_decide (snapshot_type t = kind)) || restoring w (pt_id t) || referenced w (pt_id t)
               then PDone else PGcDelete [t]
           end
  | PGcDelete [] => mret PDone
  | PGcDelete (t :: cands) =>
      d ← dir_of t;
      r ← remove_dir_all d;
      match r with
      | Err OtherIo => mret (PGcDelete cands)
      | Err NotFound | Ok _ => mret (PGcUnlist t cands)
      end
  | PGcUnlist t cands => modify (set_avail (unlist (pt_id t)));; mret (PGcDelete cands)
  | PAdd t =>
      d ← dir_of t;
      r ← create_dir_all d;
      mret match r with Err _ => PDone | Ok _ => PWater t end
  | PWater t =>
      n ← gets total_depth;
      mret (if (gc_watermark cfg <=? n)%nat then PWaterPick t else PPerKey t)
  | PWaterPick t =>
      w ← gets id;
      match oldest_candidate cfg w None (all_templates (avail w)) with
      | None => panic
      | Some (Some c) => mret (PWaterDelete t c)
      | Some None => mret (PDiscard t)
      end
  | PWaterDelete t c =>
      old ← dir_of c;
      r ← remove_dir_all old;
      mret match r with Err _ => PDiscard t | Ok _ => PWaterUnlist t c end
  | PWaterUnlist t c => modify (set_avail (unlist (pt_id c)));; mret (PPerKey t)
  | PPerKey t =>
      match kind_max cfg t with
      | None => panic
      | Some kmax =>
          ev ← gets (per_key_eviction t kmax);
          mret match ev with
               | None => PSave t
               | Some (o, false) => PDiscard t
               | Some (o, true) => PPerKeyDelete t o
               end
      end
  | PPerKeyDelete t o =>
      old ← dir_of o;
      r ← remove_dir_all old;
      mret match r with Err _ => PDiscard t | Ok _ => PPerKeyUnlist t o end
  | PPerKeyUnlist t o =>
      modify (set_avail (alter (retain (λ x, negb (bool_decide (pt_id x = pt_id o)))) (pt_key t)));; mret (PSave t)
  | PDiscard t =>
      d ← dir_of t;
      _ ← remove_dir_all d;
      mret PDone
  | PSave t =>
      d ← dir_of t;
      r ← save t d;
      mret match r with Err _ => PDone | Ok _ => PInsert t end
  | PInsert t =>
      modify (set_avail (push_back t));; modify (set_ready (λ v, uwrap 64 (v + 1)));; mret PDone
  | PDone => mret PDone
  end.

(** [n] steps of one thread alone. *)
Fixpoint alone (n : nat) (pc : Pc) : M World Pc :=
  match n with 0 => mret pc | S n => pc' ← pc_step pc; alone n pc' end.

Definition got (o : option PooledTemplate) : Pc := match o with Some t => PGot t | None => PDone end.

Lemma consume_alone t w :
  alone 2 (PMark t) w = match consume t w with Some (o, w') => Some (got o, w') | None => None end.
Proof.
  simpl. unfold consume. munfold. destruct (dir_of t w) as [[d w1]|]; [|done].
  destruct (write_consumed_marker d w1) as [[[[]|e] w2]|]; done.
Qed.

(** The steps of a thread that runs undisturbed are the operation: [acquire]
    in three steps, [gc_if_needed] in as many as it has candidates. *)
Lemma acquire_alone k w :
  alone 3 (PAcquire k) w = match acquire k w with Some (o, w') => Some (got o, w') | None => None end.
Proof.
  change (alone 3 (PAcquire k) w) with ((pc' ← pc_step (PAcquire k); alone 2 pc') w).
  unfold acquire, pc_step. unfold mbind at 1 2 4, M_bind, gets.
  destruct (avail w !! k) as [q|]; [|done]. destruct (last q) as [t|]; [|done].
  unfold mbind at 1, M_bind, modify. unfold mret, M_ret. rewrite consume_alone. done.
Qed.

Lemma evict_alone l n0 w :
  ∃ n, alone n (PGcDelete l) w =
    match foldM evict_one n0 l w with Some (_, w') => Some (PDone, w') | None => None end.
Proof.
  revert n0 w. induction l as [|t l IH]; intros n0 w; [by exists 1|].
  rewrite foldM_cons. unfold evict_one at 1. unfold mbind at 1, M_bind.
  destruct (dir_of t w) as [[d w1]|] eqn:E1.
  2:{ exists 1. simpl. munfold. by rewrite E1. }
  unfold mbind at 1, M_bind. destruct (remove_dir_all d w1) as [[r w2]|] eqn:E2.
  2:{ exists 1. simpl. munfold. by rewrite E1, E2. }
  destruct r as [[]|[]]; munfold.
  - destruct (IH (n0 + 1) (set_avail (unlist (pt_id t)) w2)) as [n Hn].
    exists (S (S n)). simpl. munfold. rewrite E1, E2. exact Hn.
  - destruct (IH (n0 + 1) (set_avail (unlist (pt_id t)) w2)) as [n Hn].
    exists (S (S n)). simpl. munfold. rewrite E1, E2. exact Hn.
  - destruct (IH n0 w2) as [n Hn]. exists (S n). simpl. munfold. rewrite E1, E2. exact Hn.
Qed.

Lemma gc_alone w :
  ∃ n, alone n PGc w = match gc_if_needed cfg w with Some (_, w') => Some (PDone, w') | None => None end.
Proof.
  unfold gc_if_needed. unfold mbind at 1, M_bind, gets. simpl.
  destruct (total_depth w <=? gc_watermark cfg)%nat eqn:E.
  { exists 1. cbn [alone pc_step]. munfold. simpl. by rewrite E. }
  destruct (evict_alone (take (total_depth w - gc_watermark cfg) (gc_candidates cfg w)) 0 w) as [n Hn].
  exists (S (S n)). cbn [alone pc_step]. munfold. simpl. rewrite E. simpl. munfold. simpl. rewrite Hn.
  by destruct (foldM evict_one 0 _ w) as [[]|].
Qed.

(** ** Interleaving *)
Record Conc := mkConc { shared : World; threads : list Pc }.

(** The template a thread has taken out of the pool, or is about to add to it
    ([true]). *)
Definition role (pc : Pc) : option (PooledTemplate * bool) :=
  match pc with
  | PMark t | PBack t | PGot t | PRelease t | PPush t => Some (t, false)
  | PAdd t | PWater t | PWaterPick t | PWaterDelete t _ | PWaterUnlist t _ | PPerKey t | PPerKeyDelete t _
  | PPerKeyUnlist t _ | PDiscard t | PSave t | PInsert t => Some (t, true)
  | _ => None
  end.

Definition owns (pc : Pc) : option PooledTemplate := fst <$> role pc.

(** The shared lease of a thread. *)
Definition in_restore (pc : Pc) : option PooledTemplate :=
  match pc with PLeased t | PEndRestore t => Some t | _ => None end.
Definition in_reference (pc : Pc) : option PooledTemplate :=
  match pc with PReferenced t | PDeref t => Some t | _ => None end.
Definition leases (pc : Pc) (t : PooledTemplate) : Prop := in_restore pc = Some t ∨ in_reference pc = Some t.

(** An operation is called; the id of a template to be added is new. *)
Definition entry (c : Conc) (pc : Pc) : Prop :=
  match pc with
  | PAcquire _ | PAcquireById _ | PPeek _ | PPeekById _ | PPeekRef _ | PPeekRefById _
  | PGc | PEvict _ _ | PRemove _ _ => True
  | PAdd t =>
      snapshot_type t ≠ Continuation ∧ fresh_id (pt_id t) (avail (shared c)) ∧
      ∀ pc u, pc ∈ threads c → owns pc = Some u ∨ leases pc u → pt_id u ≠ pt_id t
  | _ => False
  end.

Inductive cstep : Conc → Conc → Prop :=
  | cstep_run c io i pc pc' w' :
      threads c !! i = Some pc → pc_step pc (set_io io (shared c)) = Some (pc', w') →
      cstep c (mkConc w' (<[i := pc']> (threads c)))
  | cstep_start c pc : entry c pc → cstep c (mkConc (shared c) (threads c ++ [pc]))
  | cstep_fail c i t :
      threads c !! i = Some (PGot t) →
      cstep c (mkConc (shared c) (<[i := PRelease t]> (threads c)))
  | cstep_end c i t :
      threads c !! i = Some (PLeased t) →
      cstep c (mkConc (shared c) (<[i := PEndRestore t]> (threads c)))
  | cstep_deref c i t :
      threads c !! i = Some (PReferenced t) →
      cstep c (mkConc (shared c) (<[i := PDeref t]> (threads c)))
  (** [ref_template]: an Environment restore pins its template for the life of
      the sandbox *)
  | cstep_pin c i t :
      threads c !! i = Some (PLeased t) → snapshot_type t = Environment →
      cstep c (mkConc (set_in_use (bump (pt_id t)) (shared c)) (threads c ++ [PReferenced t])).

Inductive creachable : Conc → Prop :=
  | creachable_init w : avail_ok (avail w) → creachable (mkConc w [])
  | creachable_step c c' : creachable c → cstep c c' → creachable c'.

(** ** Owners *)

(** What one step does to the pool and to what the thread owns. *)
Inductive effect w w' : option (PooledTemplate * bool) → option (PooledTemplate * bool) → Prop :=
  | eff_keep o : avail_ok (avail w') → (∀ u, listed u (avail w') → listed u (avail w)) → effect w w' o o
  | eff_take t : avail_ok (avail w') → (∀ u, listed u (avail w') → listed u (avail w)) →
      listed t (avail w) → fresh_id (pt_id t) (avail w') → effect w w' None (Some (t, false))
  | eff_give t b : avail_ok (avail w') → (∀ u, listed u (avail w') → listed u (avail w) ∨ u = t) →
      effect w w' (Some (t, b)) None.

Lemma same_effect w w' o : avail_ok (avail w) → avail w' = avail w → effect w w' o o.
Proof. intros Ha E. apply eff_keep; by rewrite E. Qed.

Lemma drop_effect w w' t b : avail_ok (avail w) → avail w' = avail w → effect w w' (Some (t, b)) None.
Proof. intros Ha E. apply eff_give; rewrite E; auto. Qed.

Lemma take_effect w k q q' t :
  avail_ok (avail w) → avail w !! k = Some q → q' `sublist_of` q → t ∈ q →
  fresh_id (pt_id t) (<[k := q']> (avail w)) → effect w (set_avail (insert k q') w) None (Some (t, false)).
Proof.
  intros Ha Hk Hs Ht Hf. apply eff_take; [by eapply avail_ok_insert_sub| |by exists k, q|done].
  simpl. intros u (k' & r & Hr & Hu). rewrite lookup_insert in Hr. case_decide; [|by exists k', r].
  simplify_eq. exists k', q. split; [done|]. by eapply elem_of_sublist.
Qed.

Lemma give_effect w w' t b :
  avail_ok (avail w) → snapshot_type t ≠ Continuation → fresh_id (pt_id t) (avail w) →
  avail w' = push_back t (avail w) → effect w w' (Some (t, b)) None.
Proof.
  intros Ha Hk Hf E. apply eff_give; rewrite E; [by apply avail_ok_push_back|]. intros u. apply listed_push_back.
Qed.

(** Well-formedness of the map is all [pop_back_without] and
    [delete_without] use. *)
Lemma pop_back_fresh w k q t :
  avail_ok (avail w) → avail w !! k = Some q → last q = Some t →
  fresh_id (pt_id t) (<[k := take (length q - 1) q]> (avail w)).
Proof.
  intros Ha Hk Hl. apply (pop_back_without k q t (mkWorld (avail w) ∅ ∅ ∅ 0 ∅ [])); [|done|done].
  split; [done|..]; apply map_Forall_empty.
Qed.
Lemma delete_fresh w k q i t :
  avail_ok (avail w) → avail w !! k = Some q → q !! i = Some t →
  fresh_id (pt_id t) (<[k := delete i q]> (avail w)).
Proof.
  intros Ha Hk Hl. apply (delete_without k q i t (mkWorld (avail w) ∅ ∅ ∅ 0 ∅ [])); [|done|done].
  split; [done|..]; apply map_Forall_empty.
Qed.

(** Split the directory and the file-system call of a step. *)
Ltac dir_step E1 :=
  let d := fresh "d" in let w1 := fresh "w1" in
  match goal with |- context [dir_of ?t ?w] =>
    destruct (dir_of t w) as [[d w1]|] eqn:E1; [|done]; destruct (dir_of_inv _ _ _ _ E1) as (-> & _) end.
Ltac call_step c E2 lem :=
  let r := fresh "r" in let w2 := fresh "w2" in let Hs := fresh "Hs" in
  match goal with |- context [c ?w] =>
    destruct (c w) as [[r w2]|] eqn:E2; [|done]; destruct (lem _ _ _ _ E2) as [Hs _];
    pose proof (sp_avail _ _ Hs) end.

Lemma pc_step_effect pc w pc' w' :
  avail_ok (avail w) →
  (∀ t, owns pc = Some t → fresh_id (pt_id t) (avail w) ∧ snapshot_type t ≠ Continuation) →
  pc_step pc w = Some (pc', w') → effect w w' (role pc) (role pc').
Proof.
  intros Ha Hown.
  destruct pc as [k|i|t|t|t|t|t|k|i|t|t|k|i|t|t| |n|kind n|i kind|[|t l]|t l|t|t|t|t c|t c|t|t o|t o|t|t|t|];
    cbn [pc_step role owns fst fmap option_fmap option_map] in *; munfold;
    try (intros [= <- <-]; by apply same_effect).
  - destruct (avail w !! k) as [q|] eqn:Eq; [|intros [= <- <-]; by apply same_effect].
    destruct (last q) as [t|] eqn:El; intros [= <- <-]; [|by apply same_effect].
    apply (take_effect w k q); [done|done|apply sublist_take| |by apply pop_back_fresh].
    rewrite (last_elem q t El). apply elem_of_app. right. by left.
  - destruct (locate i _) as [[[[k q] j] t]|] eqn:E; intros [= <- <-]; [|by apply same_effect].
    destruct (locate_Some _ _ _ _ _ _ E) as (Hk%elem_of_hash_iter & Ht & _).
    apply (take_effect w k q); [done|done|apply sublist_delete|by eapply list_elem_of_lookup_2|].
    by apply delete_fresh.
  - dir_step E1. call_step (write_consumed_marker d) E2 write_consumed_marker_touches.
    destruct r; intros [= <- <-]; by apply same_effect.
  - intros [= <- <-]. destruct (Hown t eq_refl). by eapply give_effect.
  - dir_step E1. call_step (remove_marker d) E2 remove_marker_touches. intros [= <- <-]; by apply same_effect.
  - intros [= <- <-]. destruct (Hown t eq_refl). by eapply give_effect.
  - unfold peek_latest_for_restore. munfold. destruct (peek_latest k w); intros [= <- <-]; by apply same_effect.
  - unfold peek_by_id_for_restore. munfold. destruct (get_template i w); intros [= <- <-]; by apply same_effect.
  - intros [= <- <-]. destruct (give_back _ _) as [? []]; by apply same_effect.
  - unfold peek_with_ref. munfold. repeat case_match; simplify_eq; intros [= <- <-]; by apply same_effect.
  - unfold peek_by_id_with_ref. munfold. repeat case_match; simplify_eq; intros [= <- <-]; by apply same_effect.
  - intros [= <- <-]. destruct (give_back _ _) as [? []]; by apply same_effect.
  - intros [= <- <-]. case_match; by apply same_effect.
  - simpl. destruct (try_filter _ _); [|done]. intros [= <- <-]. case_match; by apply same_effect.
  - simpl. intros [= <- <-]. repeat case_match; by apply same_effect.
  - dir_step E1. call_step (remove_dir_all d) E2 remove_dir_all_touches.
    destruct r as [|[]]; intros [= <- <-]; by apply same_effect.
  - intros [= <- <-]. apply eff_keep; [by apply avail_ok_unlist|].
    intros u. simpl. rewrite listed_unlist. by intros [].
  - dir_step E1. call_step (create_dir_all d) E2 create_dir_all_touches.
    destruct r; intros [= <- <-]; [by apply same_effect|by apply drop_effect].
  - intros [= <- <-]. case_match; by apply same_effect.
  - simpl. destruct (oldest_candidate _ _ _ _) as [[]|]; [..|done]; intros [= <- <-]; by apply same_effect.
  - dir_step E1. call_step (remove_dir_all d) E2 remove_dir_all_touches.
    destruct r; intros [= <- <-]; by apply same_effect.
  - intros [= <- <-]. apply eff_keep; [by apply avail_ok_unlist|].
    intros u. simpl. rewrite listed_unlist. by intros [].
  - destruct (kind_max cfg t); [|done]. munfold. intros [= <- <-]. repeat case_match; by apply same_effect.
  - dir_step E1. call_step (remove_dir_all d) E2 remove_dir_all_touches.
    destruct r; intros [= <- <-]; by apply same_effect.
  - intros [= <- <-]. apply eff_keep; [by apply avail_ok_alter_retain|]. intros u. apply listed_alter_retain.
  - dir_step E1. call_step (remove_dir_all d) E2 remove_dir_all_touches. intros [= <- <-]. by apply drop_effect.
  - dir_step E1.
    destruct (save t d w) as [[r w2]|] eqn:E2; [|done]. destruct (save_touches _ _ _ _ _ E2) as [Hs _].
    pose proof (sp_avail _ _ Hs). destruct r; intros [= <- <-]; [by apply same_effect|by apply drop_effect].
  - intros [= <- <-]. destruct (Hown t eq_refl). by eapply give_effect.
Qed.

(** ** What a step does *)

(** The templates a thread has chosen and not dropped from the pool yet. *)
Definition pending (pc : Pc) : list PooledTemplate :=
  match pc with
  | PGcDelete l => l
  | PGcUnlist t l => t :: l
  | PWaterDelete _ c | PWaterUnlist _ c => [c]
  | PPerKeyDelete _ o | PPerKeyUnlist _ o => [o]
  | _ => []
  end.

(** What an eviction may choose: an offered template nobody restores from,
    and nobody references unless it is one an exclusive pool hands out. *)
Definition chosen w (u : PooledTemplate) : Prop :=
  listed u (avail w) ∧ restoring w (pt_id u) = false ∧
  (referenced w (pt_id u) = false ∨ (snapshot_type u = WarmFork ∧ lease_mode cfg ≠ Shared)).

(** The number of threads that hold a lease [f] on the id [k]. *)
Definition held_by (f : Pc → option PooledTemplate) (k : string) (pc : Pc) : nat :=
  if decide (pt_id <$> f pc = Some k) then 1 else 0.
Definition holders (f : Pc → option PooledTemplate) (k : string) (ths : list Pc) : nat :=
  nat_sum (held_by f k <$> ths).

Definition dir_meta (d : DirKey) w : option (option Json) := d_meta <$> disk w !! d.

Record moves w (pc : Pc) w' (pc' : Pc) : Prop := {
  mv_effect : effect w w' (role pc) (role pc');
  mv_restores : ∀ k, default 0 (restores w !! k) + held_by in_restore k pc' ≤
                     default 0 (restores w' !! k) + held_by in_restore k pc;
  mv_in_use : ∀ k, default 0 (in_use w !! k) + held_by in_reference k pc' ≤
                   default 0 (in_use w' !! k) + held_by in_reference k pc;
  mv_lease : ∀ t, leases pc' t → leases pc t ∨ (listed t (avail w) ∧ avail w' = avail w ∧ role pc = None);
  mv_reference : ∀ t, in_reference pc' = Some t → in_reference pc = Some t ∨ lease_mode cfg = Shared;
  mv_pending : ∀ u, u ∈ pending pc' → u ∈ pending pc ∨ chosen w u;
  mv_disk : ∀ d, (∀ u, u ∈ pending pc → d.2 ≠ pt_id u) → (∀ u, role pc = Some (u, true) → d.2 ≠ pt_id u) →
            dir_meta d w' = dir_meta d w
}.

Lemma held_bump m t k pc f :
  f pc = None → default 0 (m !! k) + held_by (λ _, Some t) k pc ≤ default 0 (bump (pt_id t) m !! k) + held_by f k pc.
Proof.
  intros Hf. unfold held_by at 2. rewrite Hf, (decide_False (P := pt_id <$> None = Some k)) by done.
  rewrite lookup_bump. unfold held_by. simpl.
  destruct (decide (Some (pt_id t) = Some k)) as [[= ->]|Hn]; [rewrite bool_decide_true by done; lia|].
  rewrite bool_decide_false by congruence. lia.
Qed.

Lemma give_back_le i m k : default 0 (m !! k) ≤ default 0 ((give_back i m).1 !! k) + (if decide (Some i = Some k) then 1 else 0).
Proof.
  unfold give_back. destruct (decide (Some i = Some k)) as [[= ->]|Hn].
  - destruct (m !! k) as [[|c]|] eqn:E; simpl; [lia| |lia]. case_bool_decide; simpl; [subst; lia|].
    rewrite lookup_insert_eq. simpl. lia.
  - assert (i ≠ k) by congruence. destruct (m !! i) as [[|c]|]; simpl; try lia.
    case_bool_decide; simpl; [rewrite lookup_delete_ne by done|rewrite lookup_insert_ne by done]; lia.
Qed.

(** All the ways a step can go, with the file-system call as [touches]. *)
Ltac run_step pc :=
  destruct pc as [?|?|?|?|?|?|?|?|?|?|?|?|?|?|?| |?|? ?|? ?|[|? ?]|? ?|?|?|?|? ?|? ?|?|? ?|? ?|?|?|?|];
  cbn [pc_step]; unfold peek_latest_for_restore, peek_by_id_for_restore, peek_with_ref, peek_by_id_with_ref; munfold;
  let E := fresh "E" in intros E; repeat (msplit; simplify_eq/=); simplify_eq/=;
  repeat match goal with
  | E : dir_of _ _ = Some _ |- _ => let Hd := fresh "Hd" in destruct (dir_of_inv _ _ _ _ E) as (-> & Hd); clear E
  end.
Ltac call_touches :=
  repeat match goal with
  | E : write_consumed_marker _ _ = Some _ |- _ => apply write_consumed_marker_touches in E as [[] ?]
  | E : remove_marker _ _ = Some _ |- _ => apply remove_marker_touches in E as [[] ?]
  | E : remove_dir_all _ _ = Some _ |- _ => apply remove_dir_all_touches in E as [[] ?]
  | E : create_dir_all _ _ = Some _ |- _ => apply create_dir_all_touches in E as [[] ?]
  | E : save _ _ _ = Some _ |- _ => apply save_touches in E as [[] ?]
  end;
  repeat match goal with
  | E : restores ?v = restores _ |- context [restores ?v] => rewrite E
  | E : in_use ?v = in_use _ |- context [in_use ?v] => rewrite E
  end.

Lemma pc_step_restores pc w pc' w' k :
  pc_step pc w = Some (pc', w') →
  default 0 (restores w !! k) + held_by in_restore k pc' ≤ default 0 (restores w' !! k) + held_by in_restore k pc.
Proof.
  run_step pc; call_touches; try (unfold held_by; simpl; repeat case_match; simpl in *; simplify_eq; lia).
  1,2: by apply (held_bump _ _ _ _ in_restore).
  all: pose proof (give_back_le (pt_id t) (restores w) k); unfold held_by; simpl in *; lia.
Qed.

Lemma pc_step_in_use pc w pc' w' k :
  pc_step pc w = Some (pc', w') →
  default 0 (in_use w !! k) + held_by in_reference k pc' ≤ default 0 (in_use w' !! k) + held_by in_reference k pc.
Proof.
  run_step pc; call_touches; try (unfold held_by; simpl; repeat case_match; simpl in *; simplify_eq; lia).
  1,2: by apply (held_bump _ _ _ _ in_reference).
  all: pose proof (give_back_le (pt_id t) (in_use w) k); unfold held_by; simpl in *; lia.
Qed.

Lemma pc_step_lease pc w pc' w' t :
  pc_step pc w = Some (pc', w') → leases pc' t →
  leases pc t ∨ (listed t (avail w) ∧ avail w' = avail w ∧ role pc = None).
Proof.
  unfold leases. run_step pc; simpl; try (intros [[= <-]|[= <-]]; auto); try (intros [|]; done); right;
    (split; [|done]).
  all: first [by eapply peek_latest_listed|by eapply get_template_Some].
Qed.

Lemma pc_step_reference pc w pc' w' t :
  pc_step pc w = Some (pc', w') → in_reference pc' = Some t → in_reference pc = Some t ∨ lease_mode cfg = Shared.
Proof.
  run_step pc; simpl; intros Ht; simplify_eq; auto; right; by case_bool_decide.
Qed.

Lemma gc_candidate_chosen w u : listed u (avail w) → gc_candidate cfg w u = true → chosen w u.
Proof.
  unfold gc_candidate. intros Hl Hc. apply andb_true_iff in Hc as [Hc _]. apply andb_true_iff in Hc as [H1 H2].
  split; [done|]. by destruct (restoring w (pt_id u)), (referenced w (pt_id u)); auto.
Qed.

Lemma evict_candidate_chosen kind w u :
  listed u (avail w) → evict_candidate cfg kind w u = Some true → chosen w u.
Proof.
  intros Hl. unfold evict_candidate. case_bool_decide; simpl; [|done].
  destruct (restoring w (pt_id u)) eqn:Er; [done|]. destruct (snapshot_type u) eqn:Ety; [..|done]; intros [= Hc].
  - split; [done|]. split; [done|]. left. by destruct (referenced w (pt_id u)).
  - split; [done|]. split; [done|]. case_bool_decide; [|by right]. left. by destruct (referenced w (pt_id u)).
Qed.

Lemma water_chosen w u :
  listed u (avail w) → watermark_evictable cfg w u = Some true → chosen w u.
Proof.
  intros Hl. unfold watermark_evictable. destruct (restoring w (pt_id u)) eqn:Er; [done|].
  destruct (snapshot_type u) eqn:Ety; [..|done]; intros [= Hc]; (split; [done|]); (split; [done|]); left.
  - by destruct (referenced w (pt_id u)).
  - apply andb_true_iff in Hc as [_ Hc]. by destruct (referenced w (pt_id u)).
Qed.

Lemma pc_step_pending pc w pc' w' u :
  pc_step pc w = Some (pc', w') → u ∈ pending pc' → u ∈ pending pc ∨ chosen w u.
Proof.
  run_step pc; cbn [pending]; try (intros Hu; by apply elem_of_nil in Hu); auto.
  - intros Hu%take_subset. right. apply elem_of_gc_candidates in Hu as [Hl Hc]. by apply gc_candidate_chosen.
  - intros Hu%take_subset. right. rewrite sort_by_perm in Hu.
    match goal with E : try_filter _ _ = Some _ |- _ => destruct (try_filter_elem _ _ _ _ E Hu) as [Hl Hc] end.
    apply elem_of_all_templates in Hl. by eapply evict_candidate_chosen.
  - intros ->%list_elem_of_singleton. right. split; [by eapply get_template_Some|].
    match goal with E : (_ || _ || _)%bool = false |- _ => apply orb_false_iff in E as [[_ ?]%orb_false_iff ?] end. auto.
  - intros Hu. left. by right.
  - intros Hu. left. by right.
  - intros ->%list_elem_of_singleton. right.
    match goal with E : oldest_candidate _ _ _ _ = Some _ |- _ => apply oldest_candidate_listed in E as [Hl Hc] end.
    by apply water_chosen.
  - intros ->%list_elem_of_singleton. right.
    match goal with E : per_key_eviction _ _ _ = Some _ |- _ =>
      apply per_key_eviction_head in E as (q & Hq & Hin & _ & Hb) end.
    symmetry in Hb. apply andb_true_iff in Hb as [Hb1 Hb2]. split; [by eexists _, q|].
    by destruct (restoring _ _), (referenced _ _); auto.
Qed.

Lemma write_marker_meta d w r w' d' : write_consumed_marker d w = Some (r, w') → dir_meta d' w' = dir_meta d' w.
Proof.
  unfold dir_meta. destruct (decide (d' = d)) as [->|Hne].
  - io_cases; try done; simpl; rewrite ?lookup_insert_eq, ?lookup_alter_eq;
      repeat match goal with E : disk _ !! d = _ |- _ => rewrite E end; try done; by destruct (disk _ !! d).
  - intros [_ Hd]%write_consumed_marker_touches. by rewrite Hd.
Qed.
Lemma remove_marker_meta d w r w' d' : remove_marker d w = Some (r, w') → dir_meta d' w' = dir_meta d' w.
Proof.
  unfold dir_meta. destruct (decide (d' = d)) as [->|Hne].
  - io_cases; try done; simpl; rewrite ?lookup_insert_eq;
      repeat match goal with E : disk _ !! d = _ |- _ => rewrite E end; done.
  - intros [_ Hd]%remove_marker_touches. by rewrite Hd.
Qed.

Lemma pc_step_disk pc w pc' w' d :
  pc_step pc w = Some (pc', w') → (∀ u, u ∈ pending pc → d.2 ≠ pt_id u) →
  (∀ u, role pc = Some (u, true) → d.2 ≠ pt_id u) → dir_meta d w' = dir_meta d w.
Proof.
  run_step pc; cbn [pending role]; intros Hp Hr; try done;
    try (match goal with
    | E : write_consumed_marker _ _ = Some _ |- _ => by apply (write_marker_meta _ _ _ _ d) in E
    | E : remove_marker _ _ = Some _ |- _ => by apply (remove_marker_meta _ _ _ _ d) in E
    end).
  all: call_touches; unfold dir_meta; match goal with Hd : _ ∧ _.2 = pt_id _, Hk : ∀ d', _ → _ |- _ =>
    destruct Hd as [_ Hd]; rewrite Hk; [done|intros ->; revert Hd] end.
  all: first [by apply Hr|apply Hp; by left].
Qed.

Lemma pc_step_moves pc w pc' w' :
  avail_ok (avail w) →
  (∀ t, owns pc = Some t → fresh_id (pt_id t) (avail w) ∧ snapshot_type t ≠ Continuation) →
  pc_step pc w = Some (pc', w') → moves w pc w' pc'.
Proof.
  intros Ha Ho E. split.
  - by apply pc_step_effect.
  - intros k. by eapply pc_step_restores.
  - intros k. by eapply pc_step_in_use.
  - intros t. by eapply pc_step_lease.
  - intros t. by eapply pc_step_reference.
  - intros u. by eapply pc_step_pending.
  - intros d. by eapply pc_step_disk.
Qed.

(** The caller ends a lease. *)
Lemma end_moves w pc pc' :
  avail_ok (avail w) → role pc = role pc' → in_restore pc = in_restore pc' → in_reference pc = in_reference pc' →
  pending pc' = [] → moves w pc w pc'.
Proof.
  intros Ha Er Ei Ef Ep. split.
  - rewrite Er. by apply same_effect.
  - intros k. unfold held_by. by rewrite Ei.
  - intros k. unfold held_by. by rewrite Ef.
  - intros t. unfold leases. rewrite Ei, Ef. auto.
  - intros t. rewrite Ef. auto.
  - intros u. rewrite Ep. intros Hu. by apply elem_of_nil in Hu.
  - done.
Qed.

(** ** The invariant *)

(** Nothing the pool or a thread has is another template of the id of [t], and
    nobody is adding one. *)
Definition coherent (t : PooledTemplate) (c : Conc) : Prop :=
  (∀ u, listed u (avail (shared c)) → pt_id u = pt_id t → u = t) ∧
  (∀ j pc u b, threads c !! j = Some pc → role pc = Some (u, b) → pt_id u = pt_id t → u = t ∧ b = false).

Record cok (c : Conc) : Prop := {
  co_avail : avail_ok (avail (shared c));
  co_owned : ∀ i pc t, threads c !! i = Some pc → owns pc = Some t →
    fresh_id (pt_id t) (avail (shared c)) ∧ snapshot_type t ≠ Continuation;
  co_unique : ∀ i j pc pc' t t', threads c !! i = Some pc → threads c !! j = Some pc' →
    owns pc = Some t → owns pc' = Some t' → pt_id t = pt_id t' → i = j;
  co_restores : ∀ k, holders in_restore k (threads c) ≤ default 0 (restores (shared c) !! k);
  co_in_use : ∀ k, holders in_reference k (threads c) ≤ default 0 (in_use (shared c) !! k);
  co_reference : ∀ i pc t, threads c !! i = Some pc → in_reference pc = Some t →
    lease_mode cfg = Shared ∨ snapshot_type t = Environment;
  co_lease : ∀ i pc t, threads c !! i = Some pc → leases pc t → coherent t c
}.

Lemma holders_insert f k ths i pc pc' :
  ths !! i = Some pc → holders f k (<[i := pc']> ths) + held_by f k pc = holders f k ths + held_by f k pc'.
Proof.
  unfold holders. revert i. induction ths as [|x ths IH]; intros [|i] Hi; simplify_eq/=; [lia|].
  specialize (IH i Hi). lia.
Qed.

Lemma holders_pos f k ths i pc : ths !! i = Some pc → pt_id <$> f pc = Some k → 0 < holders f k ths.
Proof.
  intros Hi Hf. unfold holders. revert i Hi. induction ths as [|x ths IH]; intros [|i] Hi; simplify_eq/=.
  - unfold held_by. rewrite decide_True by done. lia.
  - specialize (IH i Hi). lia.
Qed.

Lemma holders_snoc f k ths pc : holders f k (ths ++ [pc]) = holders f k ths + held_by f k pc.
Proof. unfold holders. rewrite fmap_app, nat_sum_app. simpl. lia. Qed.

Lemma insert_thread (ths : list Pc) i pc' j pc1 :
  <[i := pc']> ths !! j = Some pc1 → (j = i ∧ pc1 = pc') ∨ (j ≠ i ∧ ths !! j = Some pc1).
Proof. rewrite list_lookup_insert_Some. naive_solver. Qed.

Lemma snoc_thread (ths : list Pc) pc' j pc1 :
  (ths ++ [pc']) !! j = Some pc1 → (ths !! j = Some pc1 ∧ j ≠ length ths) ∨ (j = length ths ∧ pc1 = pc').
Proof.
  intros [Hj|[Hl Hj]]%lookup_app_Some.
  - left. split; [done|]. intros ->. apply lookup_lt_Some in Hj. lia.
  - right. apply list_lookup_singleton_Some in Hj as [Hj <-]. split; [lia|done].
Qed.

Lemma owns_role pc t : owns pc = Some t ↔ ∃ b, role pc = Some (t, b).
Proof.
  unfold owns. split; [|by intros [b ->]]. destruct (role pc) as [[u b]|]; simpl; [|done]. intros [= <-]. eauto.
Qed.

(** Owners after one thread moved. *)
Lemma owned_insert w w' ths i pc pc' :
  cok (mkConc w ths) → ths !! i = Some pc → effect w w' (role pc) (role pc') →
  avail_ok (avail w') ∧
  (∀ j pc1 t, <[i := pc']> ths !! j = Some pc1 → owns pc1 = Some t →
     fresh_id (pt_id t) (avail w') ∧ snapshot_type t ≠ Continuation) ∧
  (∀ j j' pc1 pc2 t t', <[i := pc']> ths !! j = Some pc1 → <[i := pc']> ths !! j' = Some pc2 →
     owns pc1 = Some t → owns pc2 = Some t' → pt_id t = pt_id t' → j = j').
Proof.
  intros [Ha Hf Hu _ _ _ _] Hi He. simpl in *.
  remember (role pc) as o eqn:Eo. remember (role pc') as o' eqn:Eo'. symmetry in Eo, Eo'.
  assert (∀ x b, o = Some (x, b) → owns pc = Some x) as Ho1 by (intros x b ->; unfold owns; by rewrite Eo).
  assert (∀ x, owns pc' = Some x → ∃ b, o' = Some (x, b)) as Ho2 by (intros x Hx; rewrite <- Eo'; by apply owns_role).
  assert (∀ j pc1 t t', j ≠ i → ths !! j = Some pc1 → owns pc1 = Some t → owns pc' = Some t' →
            pt_id t ≠ pt_id t') as Hsep.
  { intros j pc1 t t' Hne Hj Ho [b Ho']%Ho2 Eid.
    destruct He as [o Ha' Hs|v Ha' Hs Hlv Hfr|v b' Ha' Hs]; simplify_eq.
    - apply Hne. eapply Hu; eauto.
    - destruct (Hf j pc1 t Hj Ho) as [Hft _]. by apply (Hft t'). }
  split_and!.
  - by destruct He.
  - intros j pc1 t Hj Ho. destruct (insert_thread _ _ _ _ _ Hj) as [[-> ->]|[Hne Hj']].
    + destruct (Ho2 t Ho) as [b Ho']. destruct He as [o Ha' Hs|v Ha' Hs Hlv Hfr|v b' Ha' Hs]; simplify_eq.
      * destruct (Hf i pc t Hi ltac:(eauto)) as [Hft Hk]. split; [|done]. intros u Hlu. by apply Hft, Hs.
      * split; [done|]. destruct Hlv as (k & q & Hk & Hq). by eapply (ao_kind _ Ha).
    + destruct (Hf j pc1 t Hj' Ho) as [Hft Hk]. split; [|done]. intros u Hlu.
      destruct He as [o Ha' Hs|v Ha' Hs Hlv Hfr|v b' Ha' Hs]; [by apply Hft, Hs..|].
      destruct (Hs u Hlu) as [| ->]; [by apply Hft|]. intros Eid. apply Hne. eapply (Hu j i pc1 pc); eauto.
  - intros j j' pc1 pc2 t t' Hj Hj' Ho Ho' Eid.
    destruct (insert_thread _ _ _ _ _ Hj) as [[-> ->]|[Hne Hj1]], (insert_thread _ _ _ _ _ Hj') as [[-> ->]|[Hne' Hj1']].
    + done.
    + exfalso. by eapply (Hsep j' pc2 t' t).
    + exfalso. by eapply (Hsep j pc1 t t').
    + by eapply Hu.
Qed.

(** A lease stays coherent. *)
Lemma coherent_insert w w' ths i pc pc' t :
  coherent t (mkConc w ths) → ths !! i = Some pc → effect w w' (role pc) (role pc') →
  coherent t (mkConc w' (<[i := pc']> ths)).
Proof.
  intros [Hl Ho] Hi He. simpl in *. split; simpl.
  - intros u Hu Eid. remember (role pc) as o eqn:Eo.
    destruct He as [o Ha' Hs|v Ha' Hs Hlv Hfr|v b Ha' Hs]; [by apply Hl; [apply Hs|]..|].
    destruct (Hs u Hu) as [Hu'| ->]; [by apply Hl|]. by eapply (Ho i pc v b).
  - intros j pc1 u b Hj Hr Eid. destruct (insert_thread _ _ _ _ _ Hj) as [[-> ->]|[Hne Hj']]; [|by eapply Ho].
    remember (role pc) as o eqn:Eo. rewrite Hr in He.
    inversion He as [o' Ha' Hs|v Ha' Hs Hlv Hfr|]; subst; [by eapply (Ho i pc)|]. split; [by apply Hl|done].
Qed.

(** A lease that begins is coherent: the template is offered. *)
Lemma coherent_listed c t : cok c → listed t (avail (shared c)) → coherent t c.
Proof.
  intros [Ha Hf _ _ _ _ _] Hl. split.
  - intros u Hu Eid. by eapply listed_inj.
  - intros j pc u b Hj Hr Eid. destruct (Hf j pc u Hj) as [Hfr _]; [apply owns_role; eauto|].
    by destruct (Hfr t Hl).
Qed.

Lemma cok_moves w ths i pc w' pc' :
  cok (mkConc w ths) → ths !! i = Some pc → moves w pc w' pc' → cok (mkConc w' (<[i := pc']> ths)).
Proof.
  intros Hok Hi [He Hr Hu Hlease Href _ _].
  destruct (owned_insert w w' ths i pc pc' Hok Hi He) as (Ha' & Hf' & Hu').
  pose proof Hok as [Ha Hf Hun Hcr Hcu Hcref Hcl]. simpl in *. split; simpl; try done.
  - intros k. pose proof (holders_insert in_restore k ths i pc pc' Hi). specialize (Hr k). specialize (Hcr k). lia.
  - intros k. pose proof (holders_insert in_reference k ths i pc pc' Hi). specialize (Hu k). specialize (Hcu k). lia.
  - intros j pc1 t Hj Ht. destruct (insert_thread _ _ _ _ _ Hj) as [[-> ->]|[_ Hj']]; [|by eapply Hcref].
    destruct (Href t Ht); [by eapply Hcref|by left].
  - intros j pc1 t Hj Ht. eapply coherent_insert; [|exact Hi|exact He].
    destruct (insert_thread _ _ _ _ _ Hj) as [[-> ->]|[_ Hj']]; [|by eapply Hcl].
    destruct (Hlease t Ht) as [Ht'|(Hl & _)]; [by eapply Hcl|by apply coherent_listed].
Qed.

(** An operation begins, or a template is pinned. *)
Lemma cok_snoc w ths w' pc :
  cok (mkConc w ths) → avail w' = avail w →
  (∀ k, default 0 (restores w !! k) + held_by in_restore k pc ≤ default 0 (restores w' !! k)) →
  (∀ k, default 0 (in_use w !! k) + held_by in_reference k pc ≤ default 0 (in_use w' !! k)) →
  (∀ t, owns pc = Some t → snapshot_type t ≠ Continuation ∧ fresh_id (pt_id t) (avail w) ∧
     ∀ pc1 u, pc1 ∈ ths → owns pc1 = Some u ∨ leases pc1 u → pt_id u ≠ pt_id t) →
  (∀ t, leases pc t → owns pc = None ∧ ∃ i pc1, ths !! i = Some pc1 ∧ leases pc1 t) →
  (∀ t, in_reference pc = Some t → snapshot_type t = Environment) →
  cok (mkConc w' (ths ++ [pc])).
Proof.
  intros [Ha Hf Hu Hcr Hcu Href Hcl] Ea Hr Hi Hown Hlease Henv. simpl in *. split; simpl; rewrite ?Ea; try done.
  - intros i pc1 t [[Hi1 _]|[-> ->]]%snoc_thread Ho; [by eapply Hf|]. destruct (Hown t Ho) as (? & ? & _). done.
  - intros i j pc1 pc2 t t' [[Hi1 Hn1]|[-> ->]]%snoc_thread [[Hj1 Hn2]|[-> ->]]%snoc_thread Ho Ho' Eid; [by eapply Hu|..|done].
    + destruct (Hown t' Ho') as (_ & _ & Hn). destruct (Hn pc1 t); [by eapply list_elem_of_lookup_2|by left|done].
    + destruct (Hown t Ho) as (_ & _ & Hn). destruct (Hn pc2 t'); [by eapply list_elem_of_lookup_2|by left|done].
  - intros k. rewrite holders_snoc. specialize (Hr k). specialize (Hcr k). lia.
  - intros k. rewrite holders_snoc. specialize (Hi k). specialize (Hcu k). lia.
  - intros i pc1 t [[Hi1 _]|[-> ->]]%snoc_thread Ht; [by eapply Href|]. right. by apply Henv.
  - intros i pc1 t Hth Ht.
    assert (coherent t (mkConc w ths) ∧ ∀ u, owns pc = Some u → pt_id u ≠ pt_id t) as [[Hl Ho] Hne].
    { apply snoc_thread in Hth as [[Hi1 _]|[-> ->]].
      - split; [by eapply Hcl|]. intros u Hu' Eid. destruct (Hown u Hu') as (_ & _ & Hn).
        destruct (Hn pc1 t); [by eapply list_elem_of_lookup_2|by right|done].
      - destruct (Hlease t Ht) as (Hn & j & pc2 & Hj & Hl). split; [by eapply Hcl|]. by rewrite Hn. }
    split; simpl; rewrite ?Ea; [done|].
    intros j pc2 u b [[Hj _]|[-> ->]]%snoc_thread Hrole Eid; [by eapply Ho|].
    exfalso. apply (Hne u); [apply owns_role; eauto|done].
Qed.

Lemma cok_io io w ths : cok (mkConc w ths) → cok (mkConc (set_io io w) ths).
Proof. by intros []. Qed.
Lemma moves_io io w pc w' pc' : moves (set_io io w) pc w' pc' → moves w pc w' pc'.
Proof.
  intros [He ? ? ? ? ? ?]. split; try done. clear - He. revert He. generalize (role pc) (role pc').
  intros o o' []; by constructor.
Qed.

Lemma creachable_ok c : creachable c → cok c.
Proof.
  induction 1 as [w Ha|c c' _ IH Hs].
  - split; simpl; try done; intros; unfold holders; simpl; lia.
  - destruct Hs as [c io i pc pc' w' Hi E|c pc Hpc|c i t Hi|c i t Hi|c i t Hi|c i t Hi Hty]; destruct c as [w ths]; simpl in *.
    + eapply (cok_moves (set_io io w)); [by apply cok_io|done|]. eapply pc_step_moves; [apply IH| |done].
      intros t Ho. by eapply (co_owned _ IH).
    + apply (cok_snoc w); try done.
      * intros k. unfold held_by. destruct pc; simpl; try lia; done.
      * intros k. unfold held_by. destruct pc; simpl; try lia; done.
      * intros t. destruct pc; try done. intros [= <-]. exact Hpc.
      * intros t [Ht|Ht]; by destruct pc.
      * intros t Ht. by destruct pc.
    + eapply cok_moves; [exact IH|exact Hi|]. by apply end_moves; [apply IH|..].
    + eapply cok_moves; [exact IH|exact Hi|]. by apply end_moves; [apply IH|..].
    + eapply cok_moves; [exact IH|exact Hi|]. by apply end_moves; [apply IH|..].
    + apply (cok_snoc w); try done.
      * intros k. unfold held_by. simpl. lia.
      * intros k. simpl. pose proof (held_bump (in_use w) t k PDone (λ _, None) eq_refl) as Hb.
        unfold held_by in *. simpl in *. lia.
      * intros u [Hu|Hu]; [done|]. injection Hu as <-. split; [done|]. exists i, (PLeased t). split; [done|by left].
      * intros u. by intros [= <-].
Qed.

(** C15: exactly one winner. Under every interleaving of the lock scopes and
    I/O calls of any number of [acquire], [acquire_by_id], [release], peek,
    [add], eviction, removal and collector threads, two acquisitions never
    return the same template, and a template that was handed out is not in the
    pool. *)
Theorem exclusive_acquire_once c i j t u :
  creachable c → threads c !! i = Some (PGot t) → threads c !! j = Some (PGot u) →
  fresh_id (pt_id t) (avail (shared c)) ∧ (pt_id t = pt_id u → i = j).
Proof.
  intros Hr Hi Hj. pose proof (creachable_ok c Hr) as Hok. split.
  - by eapply (co_owned _ Hok i _ t Hi).
  - by eapply (co_unique _ Hok).
Qed.

(** ** Leases against evictions *)

(** The template of a lease in progress. *)
Definition holds_template (pc : Pc) : option PooledTemplate :=
  match pc with PLeased t | PReferenced t | PGot t => Some t | _ => None end.

(** No eviction has chosen the id. *)
Definition unchosen (k : string) (c : Conc) : Prop :=
  ∀ pc u, pc ∈ threads c → u ∈ pending pc → pt_id u ≠ k.

(** A step during which thread [i] stays where it is. *)
Definition holding (i : nat) (pc : Pc) (c c' : Conc) : Prop := cstep c c' ∧ threads c' !! i = Some pc.

(** What an eviction chooses is not the template of a lease. *)
Lemma chosen_not_held c i pc t u :
  cok c → threads c !! i = Some pc → holds_template pc = Some t → chosen (shared c) u → pt_id u ≠ pt_id t.
Proof.
  intros Hok Hi Ht (Hl & Hres & Href) Eid. rewrite Eid in Hres, Href.
  destruct pc; try done; injection Ht as <-.
  - destruct (co_owned _ Hok i _ t0 Hi eq_refl) as [Hf _]. by apply (Hf u).
  - pose proof (holders_pos in_restore (pt_id t0) _ _ _ Hi eq_refl). pose proof (co_restores _ Hok (pt_id t0)).
    apply bool_decide_eq_false in Hres. destruct Hres. destruct (restores (shared c) !! pt_id t0); [eauto|simpl in *; lia].
  - assert (u = t0) as ->.
    { eapply (proj1 (co_lease _ Hok i _ t0 Hi (or_intror eq_refl))); done. }
    destruct Href as [Href|[Hty Hm]]; [|by destruct (co_reference _ Hok i _ t0 Hi eq_refl); congruence].
    pose proof (holders_pos in_reference (pt_id t0) _ _ _ Hi eq_refl). pose proof (co_in_use _ Hok (pt_id t0)).
    apply bool_decide_eq_false in Href. destruct Href. destruct (in_use (shared c) !! pt_id t0); [eauto|simpl in *; lia].
Qed.

(** A thread that adds a template works on another id than a lease. *)
Lemma adder_not_held c i pc t j pc1 u :
  cok c → threads c !! i = Some pc → holds_template pc = Some t →
  threads c !! j = Some pc1 → role pc1 = Some (u, true) → pt_id t ≠ pt_id u.
Proof.
  intros Hok Hi Ht Hj Hr Eid. assert (owns pc1 = Some u) as Ho by (apply owns_role; eauto).
  assert (∀ pc', threads c !! i = Some pc' → leases pc' t → False) as Hsh.
  { intros pc' Hi' Hl. destruct (proj2 (co_lease _ Hok i pc' t Hi' Hl) j pc1 u true Hj Hr) as [_ ?]; [done|done]. }
  destruct pc; try done; injection Ht as <-.
  - assert (i = j) as <- by (by eapply (co_unique _ Hok)). rewrite Hi in Hj. by injection Hj as <-.
  - eapply Hsh; [done|by left].
  - eapply Hsh; [done|by right].
Qed.

Lemma holding_step i pc t c c' d :
  cok c → threads c !! i = Some pc → holds_template pc = Some t → unchosen (pt_id t) c → d.2 = pt_id t →
  holding i pc c c' → unchosen (pt_id t) c' ∧ dir_meta d (shared c') = dir_meta d (shared c).
Proof.
  intros Hok Hi Ht Hun Hd [Hs _].
  assert (∀ j pc1 w' pc2, threads c !! j = Some pc1 → moves (shared c) pc1 w' pc2 →
    unchosen (pt_id t) (mkConc w' (<[j := pc2]> (threads c))) ∧ dir_meta d w' = dir_meta d (shared c)) as Hmv.
  { intros j pc1 w' pc2 Hj Hmv. split.
    - intros pc3 u (k & Hk)%list_elem_of_lookup Hu.
      destruct (insert_thread _ _ _ _ _ Hk) as [[-> ->]|[_ Hk']]; [|eapply Hun; [by eapply list_elem_of_lookup_2|done]].
      destruct (mv_pending _ _ _ _ Hmv u Hu) as [Hp|Hc]; [|by eapply (chosen_not_held c i pc t)].
      eapply Hun; [by eapply list_elem_of_lookup_2|done].
    - apply (mv_disk _ _ _ _ Hmv); rewrite Hd; intros u Hu; [|by eapply (adder_not_held c i pc t j pc1)].
      intros E. symmetry in E. revert E. eapply Hun; [by eapply list_elem_of_lookup_2|done]. }
  assert (∀ w' pc1, pending pc1 = [] → disk w' = disk (shared c) →
    unchosen (pt_id t) (mkConc w' (threads c ++ [pc1])) ∧ dir_meta d w' = dir_meta d (shared c)) as Hnew.
  { intros w' pc1 Hp Ed. unfold dir_meta. rewrite Ed. split; [|done].
    intros pc2 u [Hin| ->%list_elem_of_singleton]%elem_of_app Hu; [by eapply Hun|].
    rewrite Hp in Hu. by apply elem_of_nil in Hu. }
  destruct Hs as [c io j pc1 pc2 w' Hj E|c pc1 Hpc|c j u Hj|c j u Hj|c j u Hj|c j u Hj Hty]; simpl in *.
  - apply (Hmv j pc1); [done|]. apply (moves_io io).
    eapply pc_step_moves; [apply Hok| |done]. intros u Ho. by eapply (co_owned _ Hok).
  - apply Hnew; [by destruct pc1|done].
  - apply (Hmv j (PGot u)); [done|]. by apply end_moves; [apply Hok|..].
  - apply (Hmv j (PLeased u)); [done|]. by apply end_moves; [apply Hok|..].
  - apply (Hmv j (PReferenced u)); [done|]. by apply end_moves; [apply Hok|..].
  - by apply Hnew.
Qed.

(** C16: the directory of a template on a lease outlives every eviction that
    starts after the lease. Take any interleaving of the lock scopes and I/O
    calls of peeks, acquisitions, releases, pins, [add]s, evictions, removals
    and collections, a thread that holds a lease of any kind, and suppose no
    eviction had chosen the template when the lease was granted. As long as the
    thread holds the lease, whatever the others do and the file system answers,
    the directory is there with the metadata it had, and no eviction chooses
    the template. (One that had chosen it before deletes it:
    [gc_race_deletes_leased_directory].) *)
Theorem lease_outlives_evictions c c' i pc t d :
  creachable c → threads c !! i = Some pc → holds_template pc = Some t → unchosen (pt_id t) c →
  template_dir t = Some d → rtc (holding i pc) c c' →
  dir_meta d (shared c') = dir_meta d (shared c) ∧ unchosen (pt_id t) c'.
Proof.
  intros Hr Hi Ht Hun Hd Hrtc. assert (d.2 = pt_id t) as Hid by (unfold template_dir in Hd; destruct (snapshot_type t); by simplify_eq).
  induction Hrtc as [c|c c1 c2 [Hs Hi1] _ IH]; [done|].
  destruct (holding_step i pc t c c1 d (creachable_ok c Hr) Hi Ht Hun Hid (conj Hs Hi1)) as [Hun1 E1].
  destruct IH as [E2 Hun2]; [by eapply creachable_step|done|done|]. split; [congruence|done].
Qed.
End conc.

(** ** A race of the collector

    The collector chose its candidates under the locks, but deletes a
    directory after releasing them: a restore that leases the template in
    between ends up with a lease whose directory is gone. *)
#[local] Existing Instance plain_codec.
#[local] Existing Instance listing_order.

Definition race_cfg : PoolConfig := demo_cfg 0 2 Shared.
Definition race_world : World :=
  mkWorld (list_to_map [(mkKey "k", [demo_old])]) ∅ ∅ ∅ 0
    (list_to_map [((sub_environment, "old"), mkDir (Some (Some demo_old)) false)]) [].

Lemma race_avail : avail_ok (avail race_world).
Proof.
  split; simpl; intros *; rewrite ?lookup_insert; intros; repeat case_decide; simplify_eq; try set_solver.
  simpl. apply NoDup_singleton.
Qed.

Definition race_step (c : Conc) (i : nat) : Conc :=
  match threads c !! i with
  | Some pc => match pc_step race_cfg pc (set_io [] (shared c)) with
               | Some (pc', w') => mkConc w' (<[i := pc']> (threads c))
               | None => c
               end
  | None => c
  end.

Definition race_start : Conc := mkConc race_world [PGc; PPeek (mkKey "k")].
(** collector reads the depth and chooses, restore leases, collector deletes *)
Definition race_end : Conc := foldl race_step race_start [0; 0; 1; 0].

Lemma race_step_reachable c i : creachable race_cfg c → creachable race_cfg (race_step c i).
Proof.
  intros Hr. unfold race_step. destruct (threads c !! i) as [pc|] eqn:E; [|done].
  destruct (pc_step race_cfg pc (set_io [] (shared c))) as [[pc' w']|] eqn:E'; [|done].
  eapply creachable_step; [done|]. by eapply cstep_run.
Qed.

Theorem gc_race_deletes_leased_directory :
  creachable race_cfg race_end ∧ threads race_end !! 1 = Some (PLeased demo_old) ∧
  restores (shared race_end) !! "old" = Some 1 ∧ on_disk demo_old (shared race_end) = None.
Proof.
  split; [|by vm_compute]. unfold race_end. simpl. do 4 apply race_step_reachable.
  change race_start with (mkConc (shared (mkConc race_world [PGc])) (threads (mkConc race_world [PGc]) ++ [PPeek (mkKey "k")])).
  eapply creachable_step; [|by apply cstep_start].
  change [PGc] with (threads (mkConc race_world []) ++ [PGc]).
  eapply (creachable_step _ (mkConc race_world [])); [apply creachable_init, race_avail|].
  by apply (cstep_start race_cfg (mkConc race_world [])).
Qed.

Lemma exclusive_acquire_once_witness :
  let c := foldl race_step (mkConc race_world [PAcquire (mkKey "k"); PAcquireById "old"]) [0; 1; 0; 1] in
  threads c !! 0 = Some (PGot demo_old) ∧ threads c !! 1 = Some PDone ∧
  fresh_id "old" (avail (shared c)).
Proof.
  intros c. assert (creachable race_cfg c) as Hr.
  { unfold c. simpl. do 4 apply race_step_reachable.
    apply (creachable_step _ (mkConc race_world [PAcquire (mkKey "k")])).
    - apply (creachable_step _ (mkConc race_world [])); [apply creachable_init, race_avail|].
      by apply (cstep_start race_cfg (mkConc race_world [])).
    - by apply (cstep_start race_cfg (mkConc race_world [PAcquire (mkKey "k")])). }
  assert (threads c !! 0 = Some (PGot demo_old)) as H0 by (vm_compute; reflexivity).
  split; [exact H0|]. split; [vm_compute; reflexivity|].
  exact (proj1 (exclusive_acquire_once race_cfg c 0 0 demo_old demo_old Hr H0 H0)).
Defined.

(** The collector starts after the restore leased the template: it finds
    nothing to evict. *)
Definition calm_start : Conc := race_step (mkConc race_world [PPeek (mkKey "k")]) 0.
Definition calm_mid : Conc := mkConc (shared calm_start) (threads calm_start ++ [PGc]).
Definition calm_end : Conc := foldl race_step calm_mid [1; 1; 1].

Lemma calm_reachable : creachable race_cfg calm_start.
Proof.
  apply race_step_reachable, (creachable_step _ (mkConc race_world [])); [apply creachable_init, race_avail|].
  by apply (cstep_start race_cfg (mkConc race_world [])).
Qed.

Lemma calm_runs : rtc (holding race_cfg 0 (PLeased demo_old)) calm_start calm_end.
Proof.
  apply (rtc_l _ _ calm_mid); [split; [by apply (cstep_start race_cfg calm_start PGc)|by vm_compute]|].
  assert (∀ n pc pc', n ≤ 2 → let c := foldl race_step calm_mid (replicate n 1) in
    threads c !! 1 = Some pc → threads (race_step c 1) !! 0 = Some (PLeased demo_old) →
    pc_step race_cfg pc (set_io [] (shared c)) = Some (pc', shared (race_step c 1)) →
    threads (race_step c 1) = <[1 := pc']> (threads c) →
    holding race_cfg 0 (PLeased demo_old) c (race_step c 1)) as Hstep.
  { intros n pc pc' _ c Hi H0 E Et. split; [|done].
    destruct (race_step c 1) as [w ths]. simpl in *. subst ths. by eapply cstep_run. }
  do 3 (eapply rtc_l; [first [by eapply (Hstep 0); [lia|vm_compute; reflexivity..]
    |by eapply (Hstep 1); [lia|vm_compute; reflexivity..]|by eapply (Hstep 2); [lia|vm_compute; reflexivity..]]|]).
  apply rtc_refl.
Qed.

Lemma lease_outlives_evictions_witness :
  dir_meta (sub_environment, "old") (shared calm_end) = Some (Some (Some demo_old)) ∧
  threads calm_end = [PLeased demo_old; PDone].
Proof.
  destruct (lease_outlives_evictions race_cfg calm_start calm_end 0 (PLeased demo_old) demo_old (sub_environment, "old")
    calm_reachable ltac:(vm_compute; reflexivity) eq_refl
    ltac:(intros pc u Hpc Hu; vm_compute in Hpc; apply list_elem_of_singleton in Hpc as ->; by apply elem_of_nil in Hu)
    eq_refl calm_runs) as [E _].
  split; [rewrite E; vm_compute; reflexivity|vm_compute; reflexivity].
Defined.

(** ** Damaged stores *)
Section faults.
Context `{TemplateCodec} `{HashOrder} (cfg : PoolConfig).
Implicit Types (w : World) (d : DirKey).

Lemma remove_missing d w :
  fault_free w → disk w !! d = None →
  ∃ w', remove_dir_all d w = Some (Err NotFound, w') ∧ fault_free w' ∧ same_pool w w' ∧ disk w' = disk w.
Proof.
  intros Hf Hd. unfold remove_dir_all, io_next, fault_free in *. munfold.
  destruct (io w) as [|o l] eqn:Eio; simpl.
  - rewrite Hd. exists w. rewrite Eio. by split_and!.
  - apply Forall_cons in Hf as [-> Hf]. simpl. rewrite Hd. exists (set_io l w). by split_and!.
Qed.

(** A pool at the water level whose oldest evictable template has lost
    its directory refuses every [add], without any I/O fault and without
    changing the queues: unlike the collector and the evictions, [add] counts
    [NotFound] as a failed eviction, so the entry is never dropped. *)
Theorem add_stuck_on_missing_directory t c dc w :
  snapshot_type t ≠ Continuation → fault_free w → gc_watermark cfg ≤ total_depth w →
  oldest_candidate cfg w None (all_templates (avail w)) = Some (Some c) →
  template_dir c = Some dc → disk w !! dc = None → template_dir t ≠ Some dc →
  ∃ w', add cfg t w = Some (Err (WatermarkEvictFailed (pt_id c)), w') ∧
    avail w' = avail w ∧ disk w' !! dc = None ∧ fault_free w'.
Proof.
  intros Hk Hf Hfull Hc Hdc Hmiss Hne. unfold add. unfold mbind at 1, M_bind, dir_of.
  destruct (template_dir t) as [d|] eqn:Ed.
  2:{ unfold template_dir in Ed. by destruct (snapshot_type t). }
  unfold mret, M_ret. unfold mbind at 1, M_bind.
  assert (∃ w1, create_dir_all d w = Some (Ok tt, w1) ∧ fault_free w1 ∧ touches d w w1) as (w1 & E1 & Hf1 & Ht1).
  { destruct (create_dir_all_total d w) as [[r w1] E]. pose proof (create_dir_all_touches _ _ _ _ E).
    revert E. unfold create_dir_all, io_next, fault_free in *. munfold.
    destruct (io w) as [|o l] eqn:Eio; simpl.
    - intros [= <- <-]. eexists. split_and!; [done| |done]. simpl. by rewrite Eio.
    - apply Forall_cons in Hf as [-> Hf]. intros [= <- <-]. eexists. by split_and!. }
  rewrite E1. destruct Ht1 as [Hs1 Hd1]. destruct Hs1 as [Ea _ Es Ei _].
  unfold mbind at 1, M_bind, gets. unfold mbind at 1, M_bind.
  assert (total_depth w1 = total_depth w) as -> by by rewrite !total_depth_of, Ea.
  rewrite (proj2 (Nat.leb_le _ _) Hfull).
  unfold watermark_step. unfold mbind at 1, M_bind, gets. simpl.
  assert (oldest_candidate cfg w1 None (all_templates (avail w1)) = Some (Some c)) as ->.
  { rewrite <- Hc, Ea. generalize (@None PooledTemplate) (all_templates (avail w)). clear - Es Ei.
    intros o l. revert o. induction l as [|u l IH]; intros o; simpl; [done|].
    assert (watermark_evictable cfg w1 u = watermark_evictable cfg w u) as ->.
    { unfold watermark_evictable, restoring, referenced. by rewrite Es, Ei. }
    destruct (watermark_evictable cfg w u); simpl; [apply IH|done]. }
  unfold mbind at 1, M_bind, dir_of. rewrite Hdc. unfold mret at 1, M_ret.
  assert (disk w1 !! dc = None) as Hm1 by (rewrite Hd1; congruence).
  destruct (remove_missing dc w1 Hf1 Hm1) as (w2 & E2 & Hf2 & Hs2 & Ed2).
  unfold mbind at 1, M_bind. rewrite E2. unfold mbind at 1, M_bind.
  destruct (remove_dir_all_free d w2 Hf2) as (r3 & w3 & E3 & Hf3 & _ & Hs3 & Ed3). rewrite E3.
  eexists. split; [done|]. split_and!; [|by rewrite Ed3, Ed2, lookup_delete_None; right|done].
  by rewrite (sp_avail _ _ Hs3), (sp_avail _ _ Hs2).
Qed.
End faults.

#[local] Existing Instance plain_codec.
#[local] Existing Instance listing_order.

Definition stuck_world : World := set_disk (delete (sub_environment, "mid")) demo_full.

Lemma add_stuck_on_missing_directory_witness :
  ∃ w', add (demo_cfg 3 2 Shared) (demo_template "t9" "k" Environment 9) stuck_world =
    Some (Err (WatermarkEvictFailed "mid"), w').
Proof.
  destruct (add_stuck_on_missing_directory (demo_cfg 3 2 Shared) (demo_template "t9" "k" Environment 9)
    demo_mid (sub_environment, "mid") stuck_world) as (w' & E & _).
  - discriminate.
  - constructor.
  - vm_compute. lia.
  - vm_compute. reflexivity.
  - reflexivity.
  - vm_compute. reflexivity.
  - discriminate.
  - exists w'. exact E.
Defined.

(** A consumed template whose marker cannot be read at startup is offered
    again: [try_exists(..).unwrap_or(false)] takes the error for "no marker". *)
Theorem restart_reoffers_on_marker_error :
  ∃ w', load_from_disk (set_io [IoOk; IoOk; IoOk; IoOk; IoOk; IoFault true true; IoOk] (world demo_s3)) = Some (Ok tt, w') ∧
    listed demo_tmpl (avail w').
Proof.
  eexists. split; [vm_compute; reflexivity|].
  exists (mkKey "k"), [demo_tmpl]. split; [vm_compute; reflexivity|by left].
Qed.
