(* ===== verification/Continuation.v ===== *)
(** * The continuation store

    [vmm/sandbox/src/template/continuation.rs]: one directory per workload
    identity, [{store_dir}/{pod_uid}/g{generation}], with the metadata of the
    snapshot and the [consumed] marker. There is no in-memory state; every
    operation works on the directory tree. Pod uids are single path
    components. I/O outcomes are as in [Disk]. *)
From S2P Require Import Prelude Strs Storage Types Disk.

(** [tree] is [None] until the store directory exists. *)
Record CStore `{TemplateCodec} := mkCStore {
  tree : option (gmap string (gmap string Dir));
  cio : list IoOut
}.
Arguments mkCStore {_} _ _.

Inductive CError := CNoIdentity | CCreateDir | CSaveMeta | CReadStore | CReadPod | CReadGeneration | CDelete.

#[global] Instance CError_eq_dec : EqDecision CError.
Proof. solve_decision. Defined.

Section continuation.
Context `{TemplateCodec} `{HashOrder}.
Implicit Types (c : CStore).

Definition EntryKey : Type := string * string.

(** [entry_dir], below [store_dir] *)
Definition entry_dir (w : WorkloadIdentity) : EntryKey :=
  (pod_uid w, "g" +:+ pretty (generation w)).

Definition lookup_entry (e : EntryKey) (c : CStore) : option Dir :=
  t ← tree c; p ← t !! e.1; p !! e.2.

Definition set_tree (f : gmap string (gmap string Dir) → gmap string (gmap string Dir)) (c : CStore) : CStore :=
  mkCStore (f <$> tree c) (cio c).

(** Change one entry of a pod directory that exists. *)
Definition alter_entry (f : Dir → Dir) (e : EntryKey) : CStore → CStore := set_tree (alter (alter f e.2) e.1).

Definition cio_next : M CStore IoOut := λ c,
  match cio c with [] => Some (IoOk, c) | o :: l => Some (o, mkCStore (tree c) l) end.

(** ** File-system calls *)
Definition c_create_dir_all (e : EntryKey) : M CStore (result unit IoError) :=
  o ← cio_next;
  match o with
  | IoFault _ _ => mret (Err OtherIo)
  | IoOk =>
      modify (λ c,
        let t := default ∅ (tree c) in
        let p := default ∅ (t !! e.1) in
        let d := default (mkDir None false) (p !! e.2) in
        mkCStore (Some (<[e.1 := <[e.2 := d]> p]> t)) (cio c));;
      mret (Ok tt)
  end.

Definition c_save_meta (t : PooledTemplate) (e : EntryKey) : M CStore (result unit IoError) :=
  o ← cio_next;
  x ← gets (lookup_entry e);
  match o, x with
  | IoOk, Some _ => modify (alter_entry (λ d, mkDir (Some (to_json t)) (d_consumed d)) e);; mret (Ok tt)
  | IoOk, None => mret (Err NotFound)
  | IoFault _ _, _ => mret (Err OtherIo)
  end.

(** [try_exists(..)]: [None] is an error. *)
Definition c_dir_exists (e : EntryKey) : M CStore (option bool) :=
  o ← cio_next;
  x ← gets (lookup_entry e);
  mret (match o with IoOk => Some (bool_decide (is_Some x)) | IoFault _ _ => None end).

Definition c_marker_exists (e : EntryKey) : M CStore (option bool) :=
  o ← cio_next;
  x ← gets (lookup_entry e);
  mret (match o with
        | IoOk => Some (match x with Some d => d_consumed d | None => false end)
        | IoFault _ _ => None
        end).

Definition c_load (e : EntryKey) : M CStore (option PooledTemplate) :=
  o ← cio_next;
  x ← gets (lookup_entry e);
  mret (match o with
        | IoOk => d ← x; j ← d_meta d; from_json j
        | IoFault _ _ => None
        end).

Definition c_write_marker (e : EntryKey) : M CStore (result unit IoError) :=
  o ← cio_next;
  x ← gets (lookup_entry e);
  match o, x with
  | IoOk, Some _ => modify (alter_entry (λ d, mkDir (d_meta d) true) e);; mret (Ok tt)
  | IoOk, None => mret (Err NotFound)
  | IoFault _ kc, _ =>
      modify (alter_entry (λ d, mkDir (d_meta d) (kc || d_consumed d)) e);; mret (Err OtherIo)
  end.

Definition c_remove_marker (e : EntryKey) : M CStore (result unit IoError) :=
  o ← cio_next;
  x ← gets (lookup_entry e);
  match o, x with
  | IoOk, Some (mkDir _ true) => modify (alter_entry (λ d, mkDir (d_meta d) false) e);; mret (Ok tt)
  | IoOk, _ => mret (Err NotFound)
  | IoFault _ _, _ => mret (Err OtherIo)
  end.

Definition c_remove_dir_all (e : EntryKey) : M CStore (result unit IoError) :=
  o ← cio_next;
  x ← gets (lookup_entry e);
  match o, x with
  | IoOk, Some _ => modify (set_tree (alter (delete e.2) e.1));; mret (Ok tt)
  | IoOk, None => mret (Err NotFound)
  | IoFault km kc, _ =>
      modify (alter_entry (λ d, mkDir (if km then d_meta d else None) (kc && d_consumed d)) e);;
      mret (Err OtherIo)
  end.

(** [remove_dir] of a pod directory: it goes when it is empty. *)
Definition c_remove_pod_dir (p : string) : M CStore unit :=
  o ← cio_next;
  match o with
  | IoFault _ _ => mret tt
  | IoOk => modify (set_tree (λ t, match t !! p with Some q => if bool_decide (size q = 0) then delete p t else t | None => t end))
  end.

(** ** Operations *)
Definition c_load_from_disk : M CStore (result unit CError) :=
  o ← cio_next;
  match o with
  | IoFault _ _ => mret (Err CCreateDir)
  | IoOk => modify (λ c, mkCStore (Some (default ∅ (tree c))) (cio c));; mret (Ok tt)
  end.

Definition c_save (t : PooledTemplate) : M CStore (result unit CError) :=
  match workload_identity t with
  | None => mret (Err CNoIdentity)
  | Some w =>
      r ← c_create_dir_all (entry_dir w);
      match r with
      | Err _ => mret (Err CCreateDir)
      | Ok _ =>
          r ← c_save_meta t (entry_dir w);
          mret (match r with Err _ => Err CSaveMeta | Ok _ => Ok tt end)
      end
  end.

Definition c_acquire (w : WorkloadIdentity) : M CStore (option PooledTemplate) :=
  let e := entry_dir w in
  x ← c_dir_exists e;
  if negb (default false x) then mret None else
  m ← c_marker_exists e;
  if default false m then mret None else
  o ← c_load e;
  match o with
  | None => mret None
  | Some t =>
      if negb (bool_decide (snapshot_type t = Continuation)) then mret None
      else if negb (bool_decide (workload_identity t = Some w)) then mret None
      else
        r ← c_write_marker e;
        match r with Err _ => mret None | Ok _ => mret (Some t) end
  end.

(** [ContinuationLease::fail] *)
Definition c_fail (t : PooledTemplate) : M CStore unit :=
  match workload_identity t with
  | None => mret tt
  | Some w => _ ← c_remove_marker (entry_dir w); mret tt
  end.

Definition c_delete (w : WorkloadIdentity) : M CStore (result bool CError) :=
  r ← c_remove_dir_all (entry_dir w);
  mret (match r with Ok _ => Ok true | Err NotFound => Ok false | Err OtherIo => Err CDelete end).

Definition pods (c : CStore) : list string := hash_keys (default ∅ (tree c)).
Definition generations (p : string) (c : CStore) : list string :=
  hash_keys (default ∅ (t ← tree c; t !! p)).

(** *** [list] *)
Fixpoint c_list_gens (p : string) (gs : list string) (acc : list PooledTemplate)
  : M CStore (list PooledTemplate) :=
  o ← cio_next;
  match o, gs with
  | IoFault _ _, _ | IoOk, [] => mret acc
  | IoOk, g :: gs' =>
      isdir ← cio_next;
      match isdir with
      | IoFault _ _ => c_list_gens p gs' acc
      | IoOk =>
          m ← c_marker_exists (p, g);
          if default false m then c_list_gens p gs' acc else
          t ← c_load (p, g);
          c_list_gens p gs' (acc ++ option_list t)
      end
  end.

Fixpoint c_list_pods (ps : list string) (acc : list PooledTemplate) : M CStore (list PooledTemplate) :=
  o ← cio_next;
  match o, ps with
  | IoFault _ _, _ | IoOk, [] => mret acc
  | IoOk, p :: ps' =>
      isdir ← cio_next;
      match isdir with
      | IoFault _ _ => c_list_pods ps' acc
      | IoOk =>
          rd ← cio_next;
          match rd with
          | IoFault _ _ => c_list_pods ps' acc
          | IoOk => gs ← gets (generations p); acc' ← c_list_gens p gs acc; c_list_pods ps' acc'
          end
      end
  end.

Definition c_list : M CStore (list PooledTemplate) :=
  o ← cio_next;
  t ← gets tree;
  match o, t with
  | IoOk, Some _ => ps ← gets pods; c_list_pods ps []
  | _, _ => mret []
  end.

(** *** [gc_orphaned_consumed] *)
Definition c_gc_entry (active : gset string) (e : EntryKey) (removed : nat) : M CStore nat :=
  isdir ← cio_next;
  match isdir with
  | IoFault _ _ => mret removed
  | IoOk =>
      m ← c_marker_exists e;
      if negb (default false m) then mret removed else
      o ← c_load e;
      match o with
      | None => mret removed
      | Some t =>
          if bool_decide (pt_id t ∈ active) then mret removed else
          r ← c_remove_dir_all e;
          mret (match r with Ok _ => removed + 1 | Err _ => removed end)
      end
  end.

Fixpoint c_gc_gens (active : gset string) (p : string) (gs : list string) (removed : nat)
  : M CStore (result nat CError) :=
  o ← cio_next;
  match o, gs with
  | IoFault _ _, _ => mret (Err CReadGeneration)
  | IoOk, [] => mret (Ok removed)
  | IoOk, g :: gs' => n ← c_gc_entry active (p, g) removed; c_gc_gens active p gs' n
  end.

Fixpoint c_gc_pods (active : gset string) (ps : list string) (removed : nat)
  : M CStore (result nat CError) :=
  o ← cio_next;
  match o, ps with
  | IoFault _ _, _ => mret (Err CReadPod)
  | IoOk, [] => mret (Ok removed)
  | IoOk, p :: ps' =>
      isdir ← cio_next;
      match isdir with
      | IoFault _ _ => c_gc_pods active ps' removed
      | IoOk =>
          rd ← cio_next;
          match rd with
          | IoFault _ _ => c_gc_pods active ps' removed
          | IoOk =>
              gs ← gets (generations p);
              r ← c_gc_gens active p gs removed;
              match r with
              | Err e => mret (Err e)
              | Ok n => c_remove_pod_dir p;; c_gc_pods active ps' n
              end
          end
      end
  end.

Definition c_gc_orphaned_consumed (active : gset string) : M CStore (result nat CError) :=
  o ← cio_next;
  t ← gets tree;
  match o, t with
  | IoFault _ _, _ => mret (Err CReadStore)
  | IoOk, None => mret (Ok 0)
  | IoOk, Some _ => ps ← gets pods; c_gc_pods active ps 0
  end.

(** *** [delete_by_template_id]: [None] goes on with the next entry. *)
Definition c_delete_entry (i : string) (e : EntryKey) : M CStore (option (result bool CError)) :=
  isdir ← cio_next;
  match isdir with
  | IoFault _ _ => mret None
  | IoOk =>
      o ← c_load e;
      match o with
      | None => mret None
      | Some t =>
          if negb (bool_decide (pt_id t = i)) then mret None else
          r ← c_remove_dir_all e;
          match r with
          | Ok _ => c_remove_pod_dir e.1;; mret (Some (Ok true))
          | Err NotFound => mret (Some (Ok false))
          | Err OtherIo => mret (Some (Err CDelete))
          end
      end
  end.

Fixpoint c_delete_gens (i p : string) (gs : list string) : M CStore (option (result bool CError)) :=
  o ← cio_next;
  match o, gs with
  | IoFault _ _, _ => mret (Some (Err CReadGeneration))
  | IoOk, [] => mret None
  | IoOk, g :: gs' =>
      r ← c_delete_entry i (p, g);
      match r with Some x => mret (Some x) | None => c_delete_gens i p gs' end
  end.

Fixpoint c_delete_pods (i : string) (ps : list string) : M CStore (result bool CError) :=
  o ← cio_next;
  match o, ps with
  | IoFault _ _, _ => mret (Err CReadPod)
  | IoOk, [] => mret (Ok false)
  | IoOk, p :: ps' =>
      isdir ← cio_next;
      match isdir with
      | IoFault _ _ => c_delete_pods i ps'
      | IoOk =>
          rd ← cio_next;
          match rd with
          | IoFault _ _ => c_delete_pods i ps'
          | IoOk =>
              gs ← gets (generations p);
              r ← c_delete_gens i p gs;
              match r with Some x => mret x | None => c_delete_pods i ps' end
          end
      end
  end.

Definition c_delete_by_template_id (i : string) : M CStore (result bool CError) :=
  o ← cio_next;
  t ← gets tree;
  match o, t with
  | IoFault _ _, _ => mret (Err CReadStore)
  | IoOk, None => mret (Ok false)
  | IoOk, Some _ => ps ← gets pods; c_delete_pods i ps
  end.

(** ** Lookups after updates *)
Lemma lookup_alter_entry f e e' c :
  lookup_entry e' (alter_entry f e c) = if decide (e = e') then f <$> lookup_entry e' c else lookup_entry e' c.
Proof.
  destruct e as [p g], e' as [p' g']. unfold lookup_entry, alter_entry, set_tree. simpl.
  destruct (tree c) as [t|]; simpl; [|by case_decide]. rewrite lookup_alter.
  destruct (decide (p = p')) as [->|]; [|rewrite decide_False by congruence; done].
  destruct (t !! p') as [q|]; simpl; [|by case_decide]. rewrite lookup_alter.
  destruct (decide (g = g')) as [->|]; [by rewrite decide_True|by rewrite decide_False by congruence].
Qed.

Lemma lookup_delete_entry e e' c :
  lookup_entry e' (set_tree (alter (delete e.2) e.1) c) = if decide (e = e') then None else lookup_entry e' c.
Proof.
  destruct e as [p g], e' as [p' g']. unfold lookup_entry, set_tree. simpl.
  destruct (tree c) as [t|]; simpl; [|by case_decide]. rewrite lookup_alter.
  destruct (decide (p = p')) as [->|]; [|rewrite decide_False by congruence; done].
  destruct (t !! p') as [q|]; simpl; [|by case_decide]. rewrite lookup_delete.
  destruct (decide (g = g')) as [->|]; [by rewrite decide_True|by rewrite decide_False by congruence].
Qed.

Lemma lookup_remove_pod p e c :
  lookup_entry e (set_tree (λ t, match t !! p with
    Some q => if bool_decide (size q = 0) then delete p t else t | None => t end) c) = lookup_entry e c.
Proof.
  destruct e as [p' g]. unfold lookup_entry, set_tree. destruct (tree c) as [t|]; simpl; [|done].
  destruct (t !! p) as [q|] eqn:E; [|done]. case_bool_decide as Hs; [|done].
  apply map_size_empty_inv in Hs as ->. destruct (decide (p = p')) as [->|].
  - by rewrite lookup_delete_eq, E.
  - by rewrite lookup_delete_ne.
Qed.

Lemma lookup_create e e' c :
  lookup_entry e' (mkCStore (Some (<[e.1 := <[e.2 := default (mkDir None false) (default ∅ (default ∅ (tree c) !! e.1) !! e.2)]>
    (default ∅ (default ∅ (tree c) !! e.1))]> (default ∅ (tree c)))) (cio c)) =
  if decide (e = e') then Some (default (mkDir None false) (lookup_entry e' c)) else lookup_entry e' c.
Proof.
  destruct e as [p g], e' as [p' g']. unfold lookup_entry. simpl. rewrite lookup_insert.
  destruct (decide (p = p')) as [->|].
  - simpl. rewrite lookup_insert. destruct (decide (g = g')) as [->|].
    + rewrite decide_True by done. destruct (tree c) as [t|]; simpl; [|done].
      by destruct (t !! p').
    + rewrite decide_False by congruence. destruct (tree c) as [t|]; simpl; [|done].
      by destruct (t !! p').
  - rewrite decide_False by congruence. by destruct (tree c).
Qed.

Lemma lookup_io e t l l' : lookup_entry e (mkCStore t l) = lookup_entry e (mkCStore t l').
Proof. done. Qed.
End continuation.
