(* ===== verification/ContinuationProps.v ===== *)
(** * Properties of the continuation store *)
From S2P Require Import Prelude Strs Storage Types Disk Continuation.

Section props.
Context `{TemplateCodec} `{HashOrder}.
Implicit Types (c : CStore) (e : EntryKey).

(** Distinct identities have distinct directories. *)
Lemma entry_dir_inj w w' : entry_dir w = entry_dir w' → w = w'.
Proof.
  destruct w as [p g], w' as [p' g']. unfold entry_dir. simpl. intros [= -> E].
  f_equal. by apply (inj pretty).
Qed.

(** ** Calls that only read *)
Lemma cio_next_inv c o c' : cio_next c = Some (o, c') → tree c' = tree c ∧
  (cio c = [] ∧ o = IoOk ∧ cio c' = [] ∨ cio c = o :: cio c').
Proof. unfold cio_next. destruct (cio c) eqn:E; intros [= <- <-]; simpl; auto. Qed.

Lemma lookup_tree e c c' : tree c' = tree c → lookup_entry e c' = lookup_entry e c.
Proof. unfold lookup_entry. by intros ->. Qed.

Ltac c_unfold E :=
  unfold c_dir_exists, c_marker_exists, c_load, c_write_marker, c_remove_marker, c_remove_dir_all,
    c_remove_pod_dir, c_create_dir_all, c_save_meta, mbind, M_bind, mret, M_ret, gets, modify in E.

(** The outcome of the call and the store it leaves, in terms of the entry. *)
Lemma c_marker_exists_inv e c m c' :
  c_marker_exists e c = Some (m, c') →
  tree c' = tree c ∧ (default false m = true → ∃ d, lookup_entry e c = Some d ∧ d_consumed d = true).
Proof.
  intros E. c_unfold E. destruct (cio_next c) as [[o c1]|] eqn:Eo; [|done].
  destruct (cio_next_inv _ _ _ Eo) as [Et _]. simplify_eq. split; [done|].
  rewrite (lookup_tree e _ _ Et). destruct o; simpl; [|done].
  destruct (lookup_entry e c) as [d|]; [eauto|done].
Qed.

Lemma c_load_inv e c o c' :
  c_load e c = Some (o, c') →
  tree c' = tree c ∧ ∀ t, o = Some t →
    ∃ d j, lookup_entry e c = Some d ∧ d_meta d = Some j ∧ from_json j = Some t.
Proof.
  intros E. c_unfold E. destruct (cio_next c) as [[x c1]|] eqn:Eo; [|done].
  destruct (cio_next_inv _ _ _ Eo) as [Et _]. simplify_eq. split; [done|].
  rewrite (lookup_tree e _ _ Et). destruct x; simpl; [|done].
  destruct (lookup_entry e c) as [d|]; simpl; [|done].
  destruct (d_meta d) as [j|] eqn:Ej; simpl; [|done]. intros t Ht. by exists d, j.
Qed.

(** Any call leaves entries at other paths alone. *)
Lemma c_remove_dir_all_other e e' c r c' :
  c_remove_dir_all e c = Some (r, c') → e ≠ e' → lookup_entry e' c' = lookup_entry e' c.
Proof.
  intros E Hne. c_unfold E. destruct (cio_next c) as [[o c1]|] eqn:Eo; [|done].
  destruct (cio_next_inv _ _ _ Eo) as [Et _]. rewrite <- (lookup_tree e' c c1 Et).
  destruct o; [destruct (lookup_entry e c1)|]; simplify_eq; try done.
  - rewrite lookup_delete_entry. by rewrite decide_False.
  - rewrite lookup_alter_entry. by rewrite decide_False.
Qed.

Lemma c_remove_pod_dir_lookup p e c c' :
  c_remove_pod_dir p c = Some (tt, c') → lookup_entry e c' = lookup_entry e c.
Proof.
  intros E. c_unfold E. destruct (cio_next c) as [[o c1]|] eqn:Eo; [|done].
  destruct (cio_next_inv _ _ _ Eo) as [Et _]. rewrite <- (lookup_tree e c c1 Et).
  destruct o; simplify_eq; [apply lookup_remove_pod|done].
Qed.

(** ** Garbage collection keeps what is live *)
Section gc.
Context (active : gset string) (e0 : EntryKey) (d0 : Dir).
Hypothesis live : d_consumed d0 = false ∨
  ∃ j t, d_meta d0 = Some j ∧ from_json j = Some t ∧ pt_id t ∈ active.
Let P c : Prop := lookup_entry e0 c = Some d0.

Lemma keep_io : preserves P cio_next.
Proof.
  intros c o c' Hc E. destruct (cio_next_inv _ _ _ E) as [Et _]. unfold P.
  by rewrite (lookup_tree e0 _ _ Et).
Qed.

Lemma keep_gc_entry e n : preserves P (c_gc_entry active e n).
Proof.
  intros c n' c' Hc. unfold c_gc_entry. unfold mbind at 1, M_bind.
  destruct (cio_next c) as [[o c1]|] eqn:E1; [|done]. pose proof (keep_io _ _ _ Hc E1) as H1.
  destruct o; [|by intros [= <- <-]]. unfold mbind at 1, M_bind.
  destruct (c_marker_exists e c1) as [[m c2]|] eqn:E2; [|done].
  destruct (c_marker_exists_inv _ _ _ _ E2) as [T2 Hm].
  assert (P c2) as H2 by (unfold P; by rewrite (lookup_tree e0 _ _ T2)).
  destruct (default false m) eqn:Em; simpl; [|by intros [= <- <-]].
  unfold mbind at 1, M_bind. destruct (c_load e c2) as [[o c3]|] eqn:E3; [|done].
  destruct (c_load_inv _ _ _ _ E3) as [T3 Hl].
  assert (P c3) as H3 by (unfold P; by rewrite (lookup_tree e0 _ _ T3)).
  destruct o as [t|]; [|by intros [= <- <-]].
  case_bool_decide as Ha; [by intros [= <- <-]|].
  unfold mbind, M_bind. destruct (c_remove_dir_all e c3) as [[r c4]|] eqn:E4; [|done].
  intros [= <- <-]. unfold P. rewrite (c_remove_dir_all_other e e0 c3 r c4); [done|done|].
  intros ->. destruct (Hm eq_refl) as (d & Hd & Hcd). unfold P in H1, H2.
  destruct (Hl t eq_refl) as (d2 & j & Hd2 & Hj & Hf).
  assert (d = d0 ∧ d2 = d0) as [-> ->] by (split; congruence).
  destruct live as [|(j' & t' & Hj' & Hf' & Hin)]; congruence.
Qed.

Lemma keep_gc_gens p gs n : preserves P (c_gc_gens active p gs n).
Proof.
  revert n. induction gs as [|g gs IH]; intros n; simpl; apply preserves_bind;
    try apply keep_io; intros []; try apply preserves_ret.
  apply preserves_bind; [apply keep_gc_entry|]. intros n'. apply IH.
Qed.

Lemma keep_remove_pod p : preserves P (c_remove_pod_dir p).
Proof. intros c [] c' Hc E. unfold P. by rewrite (c_remove_pod_dir_lookup _ e0 _ _ E). Qed.

Lemma keep_gc_pods ps n : preserves P (c_gc_pods active ps n).
Proof.
  revert n. induction ps as [|p ps IH]; intros n; simpl; apply preserves_bind;
    try apply keep_io; intros []; try apply preserves_ret.
  apply preserves_bind; [apply keep_io|]. intros []; [|apply IH].
  apply preserves_bind; [apply keep_io|]. intros []; [|apply IH].
  apply preserves_bind; [apply preserves_gets|]. intros gs.
  apply preserves_bind; [apply keep_gc_gens|]. intros [m|]; [|apply preserves_ret].
  apply preserves_bind; [apply keep_remove_pod|]. intros _. apply IH.
Qed.

Lemma keep_gc : preserves P (c_gc_orphaned_consumed active).
Proof.
  unfold c_gc_orphaned_consumed. apply preserves_bind; [apply keep_io|]. intros o.
  apply preserves_bind; [apply preserves_gets|]. intros t. destruct t, o; try apply preserves_ret.
  apply preserves_bind; [apply preserves_gets|]. intros ps. apply keep_gc_pods.
Qed.
End gc.

(** The continuation collector deletes only consumed entries whose
    template no live sandbox uses: an entry without a marker, or whose
    template id is active, is left exactly as it is, for every directory
    listing order and all I/O outcomes, also when the collection itself
    ends with an error. *)
Theorem continuation_gc_keeps_live active e d c r c' :
  (d_consumed d = false ∨ ∃ j t, d_meta d = Some j ∧ from_json j = Some t ∧ pt_id t ∈ active) →
  lookup_entry e c = Some d →
  c_gc_orphaned_consumed active c = Some (r, c') → lookup_entry e c' = Some d.
Proof. intros Hl Hc E. exact (keep_gc active e d Hl c r c' Hc E). Qed.

(** ** Acquire *)
Lemma c_write_marker_inv e c r c' :
  c_write_marker e c = Some (r, c') →
  (∀ e', e' ≠ e → lookup_entry e' c' = lookup_entry e' c) ∧
  (r = Ok tt → ∃ d, lookup_entry e c = Some d ∧ lookup_entry e c' = Some (mkDir (d_meta d) true)).
Proof.
  intros E. c_unfold E. destruct (cio_next c) as [[o c1]|] eqn:Eo; [|done].
  destruct (cio_next_inv _ _ _ Eo) as [Et _]. split.
  - intros e' Hne. rewrite <- (lookup_tree e' c c1 Et).
    destruct o; [destruct (lookup_entry e c1)|]; simplify_eq; try done;
      rewrite lookup_alter_entry; by rewrite decide_False.
  - intros ->. rewrite <- (lookup_tree e c c1 Et). destruct o; [|done].
    destruct (lookup_entry e c1) as [d|] eqn:Ed; simplify_eq. exists d. split; [done|].
    rewrite lookup_alter_entry, decide_True by done. by rewrite Ed.
Qed.

(** Up to the marker write, [acquire] only reads. *)
Lemma c_acquire_inv w c o c' :
  c_acquire w c = Some (o, c') →
  (o = None ∧ tree c' = tree c) ∨
  ∃ t c1 r, tree c1 = tree c ∧ c_write_marker (entry_dir w) c1 = Some (r, c') ∧
    snapshot_type t = Continuation ∧ workload_identity t = Some w ∧
    (∃ d j, lookup_entry (entry_dir w) c = Some d ∧ d_meta d = Some j ∧ from_json j = Some t) ∧
    o = match r with Ok _ => Some t | Err _ => None end.
Proof.
  unfold c_acquire. unfold mbind at 1, M_bind.
  destruct (c_dir_exists (entry_dir w) c) as [[x c1]|] eqn:E1; [|done].
  assert (tree c1 = tree c) as T1.
  { c_unfold E1. destruct (cio_next c) as [[y c2]|] eqn:Eo; [|done].
    destruct (cio_next_inv _ _ _ Eo). by simplify_eq. }
  destruct (default false x); simpl; [|intros [= <- <-]; by left].
  unfold mbind at 1, M_bind. destruct (c_marker_exists (entry_dir w) c1) as [[m c2]|] eqn:E2; [|done].
  destruct (c_marker_exists_inv _ _ _ _ E2) as [T2 _].
  destruct (default false m); [intros [= <- <-]; left; split; [done|congruence]|].
  unfold mbind at 1, M_bind. destruct (c_load (entry_dir w) c2) as [[l c3]|] eqn:E3; [|done].
  destruct (c_load_inv _ _ _ _ E3) as [T3 Hl].
  assert (tree c3 = tree c) as T by congruence.
  destruct l as [t|]; [|intros [= <- <-]; by left].
  case_bool_decide as Hk; simpl; [|intros [= <- <-]; by left].
  case_bool_decide as Hw; simpl; [|intros [= <- <-]; by left].
  unfold mbind, M_bind. destruct (c_write_marker (entry_dir w) c3) as [[r c4]|] eqn:E4; [|done].
  intros Hr. right. exists t, c3, r. split_and!; try done.
  - by destruct r; injection Hr as _ <-.
  - destruct (Hl t eq_refl) as (d & j & Hd & ? & ?). exists d, j. split; [|done].
    rewrite <- Hd. symmetry. apply lookup_tree. congruence.
  - by destruct r; injection Hr as <- _.
Qed.

(** An acquired continuation is the right one and is durably consumed,
    whatever the file system answered: the metadata declares a Continuation
    snapshot of exactly this workload identity, the marker is on disk when
    the lease is returned, and no other workload's entry has changed. *)
Theorem continuation_acquire_sound w c t c' :
  c_acquire w c = Some (Some t, c') →
  snapshot_type t = Continuation ∧ workload_identity t = Some w ∧
  (∃ d, lookup_entry (entry_dir w) c' = Some d ∧ d_consumed d = true) ∧
  (∀ w', w' ≠ w → lookup_entry (entry_dir w') c' = lookup_entry (entry_dir w') c).
Proof.
  intros E. destruct (c_acquire_inv _ _ _ _ E) as [[? _]|(u & c1 & r & T & Ew & Hk & Hw & _ & Eo)]; [done|].
  destruct r as [[]|]; [|done]. injection Eo as <-.
  destruct (c_write_marker_inv _ _ _ _ Ew) as [Ho Hm]. destruct (Hm eq_refl) as (d & _ & Hd).
  split_and!; [done|done|by eexists|]. intros w' Hne. rewrite Ho.
  - by apply lookup_tree.
  - intros E'. by apply Hne, entry_dir_inj.
Qed.

(** ** Consumed at most once *)

(** Operations on the store. *)
Inductive COp :=
  | OLoad | OSave (t : PooledTemplate) | OAcquire (w : WorkloadIdentity) | OFail (t : PooledTemplate)
  | OList | ODelete (w : WorkloadIdentity) | OGc (active : gset string) | ODeleteById (i : string).

Definition run_cop (o : COp) : M CStore unit :=
  match o with
  | OLoad => _ ← c_load_from_disk; mret tt
  | OSave t => _ ← c_save t; mret tt
  | OAcquire w => _ ← c_acquire w; mret tt
  | OFail t => c_fail t
  | OList => _ ← c_list; mret tt
  | ODelete w => _ ← c_delete w; mret tt
  | OGc a => _ ← c_gc_orphaned_consumed a; mret tt
  | ODeleteById i => _ ← c_delete_by_template_id i; mret tt
  end.

Definition run_cops (l : list COp) : M CStore unit := foldM (λ _ o, run_cop o) tt l.

(** Only a new snapshot of the workload or the failure of its lease makes it
    available again. *)
Definition keeps_consumed (w : WorkloadIdentity) (o : COp) : Prop :=
  match o with
  | OSave t | OFail t => workload_identity t ≠ Some w
  | _ => True
  end.

(** A removal that fails half way does not lose the marker and keep the
    metadata. *)
Definition orderly c : Prop := Forall (λ o, o ≠ IoFault true false) (cio c).

Definition unavailable (w : WorkloadIdentity) c : Prop :=
  orderly c ∧ ∀ d, lookup_entry (entry_dir w) c = Some d → d_consumed d = true ∨ d_meta d = None.

Section once.
Context (w : WorkloadIdentity).

Lemma unavailable_io c o c' :
  unavailable w c → cio_next c = Some (o, c') → unavailable w c' ∧ o ≠ IoFault true false.
Proof.
  intros [Ho Hu] E. destruct (cio_next_inv _ _ _ E) as [Et Hc]. unfold unavailable, orderly in *.
  rewrite (lookup_tree _ _ _ Et). destruct Hc as [(_ & -> & ->)|Hc]; [split; [by split; [constructor|]|done]|].
  rewrite Hc in Ho. apply Forall_cons in Ho as [? ?]. by split.
Qed.

Lemma un_io : preserves (unavailable w) cio_next.
Proof. intros c o c' Hc E. by eapply unavailable_io. Qed.
#[local] Hint Resolve un_io : preserve.

Lemma unavailable_alter f e c :
  (e = entry_dir w → ∀ d, d_consumed d = true ∨ d_meta d = None → d_consumed (f d) = true ∨ d_meta (f d) = None) →
  unavailable w c → unavailable w (alter_entry f e c).
Proof.
  intros Hf [Ho Hu]. split; [done|]. intros d. rewrite lookup_alter_entry. case_decide; [|apply Hu].
  intros (d' & Hd & ->)%fmap_Some. auto.
Qed.

Lemma un_dir_exists e : preserves (unavailable w) (c_dir_exists e).
Proof. unfold c_dir_exists. preserve. Qed.
Lemma un_marker_exists e : preserves (unavailable w) (c_marker_exists e).
Proof. unfold c_marker_exists. preserve. Qed.
Lemma un_load e : preserves (unavailable w) (c_load e).
Proof. unfold c_load. preserve. Qed.

Lemma un_write_marker e : preserves (unavailable w) (c_write_marker e).
Proof.
  unfold c_write_marker. preserve; apply unavailable_alter; simpl; try done; intros _ x [Hx|Hx]; rewrite ?Hx; auto.
  rewrite orb_true_r. auto.
Qed.

Lemma un_remove_dir_all e : preserves (unavailable w) (c_remove_dir_all e).
Proof.
  intros c r c' Hc. unfold c_remove_dir_all. unfold mbind at 1, M_bind.
  destruct (cio_next c) as [[o c1]|] eqn:E; [|done].
  destruct (unavailable_io _ _ _ Hc E) as [Hc1 Ho]. munfold.
  destruct o as [|km kc]; [destruct (lookup_entry e c1)|]; intros [= <- <-]; try done.
  - destruct Hc1 as [Hio Hu]. split; [done|]. intros d'. rewrite lookup_delete_entry.
    case_decide; [done|apply Hu].
  - apply unavailable_alter; [|done]. intros _ d Hd. destruct km, kc; simpl; try done; auto.
Qed.

Lemma un_remove_pod p : preserves (unavailable w) (c_remove_pod_dir p).
Proof.
  unfold c_remove_pod_dir. apply preserves_bind; [apply un_io|]. intros [|]; [|apply preserves_ret].
  apply preserves_modify. intros c [Ho Hu]. split; [done|]. intros d. rewrite lookup_remove_pod. apply Hu.
Qed.
#[local] Hint Resolve un_dir_exists un_marker_exists un_load un_write_marker un_remove_dir_all
  un_remove_pod : preserve.

Lemma un_create e : e ≠ entry_dir w → preserves (unavailable w) (c_create_dir_all e).
Proof.
  intros Hne. unfold c_create_dir_all. preserve. match goal with Hx : unavailable w _ |- _ => destruct Hx as [Ho Hu] end.
  split; [done|]. intros d. rewrite lookup_create, decide_False by done. apply Hu.
Qed.
Lemma un_save_meta t e : e ≠ entry_dir w → preserves (unavailable w) (c_save_meta t e).
Proof. intros Hne. unfold c_save_meta. preserve. by apply unavailable_alter. Qed.
Lemma un_remove_marker e : e ≠ entry_dir w → preserves (unavailable w) (c_remove_marker e).
Proof. intros Hne. unfold c_remove_marker. preserve. by apply unavailable_alter. Qed.

Lemma entry_ne w' : Some w' ≠ Some w → entry_dir w' ≠ entry_dir w.
Proof. intros Hne E%entry_dir_inj. congruence. Qed.

Lemma un_list_gens p gs acc : preserves (unavailable w) (c_list_gens p gs acc).
Proof. revert acc. induction gs; intros acc; simpl; preserve. Qed.
#[local] Hint Resolve un_list_gens : preserve.
Lemma un_list_pods ps acc : preserves (unavailable w) (c_list_pods ps acc).
Proof. revert acc. induction ps; intros acc; simpl; preserve. Qed.
Lemma un_gc_entry a e n : preserves (unavailable w) (c_gc_entry a e n).
Proof. unfold c_gc_entry. preserve. Qed.
#[local] Hint Resolve un_list_pods un_gc_entry : preserve.
Lemma un_gc_gens a p gs n : preserves (unavailable w) (c_gc_gens a p gs n).
Proof. revert n. induction gs; intros n; simpl; preserve. Qed.
#[local] Hint Resolve un_gc_gens : preserve.
Lemma un_gc_pods a ps n : preserves (unavailable w) (c_gc_pods a ps n).
Proof. revert n. induction ps; intros n; simpl; preserve. Qed.
Lemma un_delete_entry i e : preserves (unavailable w) (c_delete_entry i e).
Proof. unfold c_delete_entry. preserve. Qed.
#[local] Hint Resolve un_gc_pods un_delete_entry : preserve.
Lemma un_delete_gens i p gs : preserves (unavailable w) (c_delete_gens i p gs).
Proof. induction gs; simpl; preserve. Qed.
#[local] Hint Resolve un_delete_gens : preserve.
Lemma un_delete_pods i ps : preserves (unavailable w) (c_delete_pods i ps).
Proof. induction ps; simpl; preserve. Qed.
#[local] Hint Resolve un_delete_pods : preserve.

Lemma un_cop o : keeps_consumed w o → preserves (unavailable w) (run_cop o).
Proof.
  intros Hk. destruct o as [|t|w'|t| |w'|a|i]; simpl in *.
  - unfold c_load_from_disk. preserve.
    match goal with Hx : unavailable w _ |- _ => destruct Hx as [Ho Hu] end.
    split; [done|]. intros d. unfold lookup_entry in *. simpl.
    destruct (tree _) as [t|]; simpl; [apply Hu|by rewrite lookup_empty].
  - unfold c_save. destruct (workload_identity t) as [w'|]; [|preserve].
    pose proof (entry_ne w' Hk) as Hne.
    apply preserves_bind; [|preserve]. apply preserves_bind; [by apply un_create|].
    intros [|]; [|preserve]. apply preserves_bind; [by apply un_save_meta|preserve].
  - unfold c_acquire. preserve.
  - unfold c_fail. destruct (workload_identity t) as [w'|]; [|preserve].
    apply preserves_bind; [|preserve]. by apply un_remove_marker, entry_ne.
  - unfold c_list. preserve.
  - unfold c_delete. preserve.
  - unfold c_gc_orphaned_consumed. preserve.
  - unfold c_delete_by_template_id. preserve.
Qed.

Lemma un_cops l : Forall (keeps_consumed w) l → preserves (unavailable w) (run_cops l).
Proof.
  intros Hl c [] c' Hc. revert c Hc. induction Hl as [|o l Ho Hl IH]; intros c Hc; unfold run_cops.
  - rewrite foldM_nil. by intros [= <-].
  - rewrite foldM_cons. destruct (run_cop o c) as [[[] c1]|] eqn:E; [|done].
    apply IH. by eapply un_cop.
Qed.

Lemma unavailable_acquire c : unavailable w c → cio c = [] → ∃ c', c_acquire w c = Some (None, c').
Proof.
  intros [_ Hu] Hio. unfold c_acquire, c_dir_exists, c_marker_exists, c_load, cio_next. munfold.
  rewrite Hio. simpl. destruct (lookup_entry (entry_dir w) c) as [d|] eqn:Ed; [|by eexists].
  rewrite bool_decide_true by eauto. simpl. rewrite Hio, Ed. simpl.
  destruct (d_consumed d) eqn:Ec; [by eexists|]. rewrite Hio, Ed. simpl.
  destruct (Hu d eq_refl) as [|Hm]; [congruence|]. rewrite Hm. simpl. by eexists.
Qed.
End once.

(** A continuation is consumed at most once. After [acquire] returned
    a lease, and through any sequence of store operations, restarts
    included, that neither fails that lease nor saves a new snapshot of the
    workload, a further acquisition of the identity finds nothing; the file
    system may fail any call on the way, as long as no deletion drops the
    marker of an entry and keeps its metadata. *)
Theorem continuation_consumed_once w c t c1 l c2 :
  c_acquire w c = Some (Some t, c1) → orderly c1 → Forall (keeps_consumed w) l →
  run_cops l c1 = Some (tt, c2) → cio c2 = [] →
  ∃ c3, c_acquire w c2 = Some (None, c3).
Proof.
  intros E Ho Hl Hr Hio. apply unavailable_acquire; [|done].
  eapply un_cops; [done| |done]. split; [done|]. intros d Hd. left.
  destruct (c_acquire_inv _ _ _ _ E) as [[? _]|(u & c0 & r & T & Ew & _ & _ & _ & Eo)]; [done|].
  destruct r as [[]|]; [|done].
  destruct (c_write_marker_inv _ _ _ _ Ew) as [_ Hm]. destruct (Hm eq_refl) as (d' & _ & Hd').
  rewrite Hd' in Hd. by injection Hd as <-.
Qed.

Lemma c_create_dir_all_free e c :
  cio c = [] → ∃ c', c_create_dir_all e c = Some (Ok tt, c') ∧ cio c' = [] ∧
    lookup_entry e c' = Some (default (mkDir None false) (lookup_entry e c)).
Proof.
  intros Hio. unfold c_create_dir_all, cio_next. munfold. rewrite Hio. eexists. split; [done|].
  split; [exact Hio|]. rewrite lookup_create. by rewrite decide_True.
Qed.

Lemma c_save_meta_free t e c d :
  cio c = [] → lookup_entry e c = Some d → ∃ c', c_save_meta t e c = Some (Ok tt, c') ∧ cio c' = [] ∧
    lookup_entry e c' = Some (mkDir (Some (to_json t)) (d_consumed d)).
Proof.
  intros Hio Hd. unfold c_save_meta, cio_next. munfold. rewrite Hio, Hd. eexists. split; [done|].
  split; [exact Hio|]. rewrite lookup_alter_entry, decide_True by done. by rewrite Hd.
Qed.

(** A saved entry, and its acquisition. *)
Lemma c_save_stored w t c c1 :
  cio c = [] → workload_identity t = Some w →
  (∀ d, lookup_entry (entry_dir w) c = Some d → d_consumed d = false) →
  c_save t c = Some (Ok tt, c1) →
  cio c1 = [] ∧ lookup_entry (entry_dir w) c1 = Some (mkDir (Some (to_json t)) false).
Proof.
  intros Hio Hw Hd. unfold c_save. rewrite Hw.
  destruct (c_create_dir_all_free (entry_dir w) c Hio) as (c0 & E0 & Hio0 & Hd0).
  destruct (c_save_meta_free t _ _ _ Hio0 Hd0) as (c2 & E2 & Hio2 & Hd2).
  munfold. rewrite E0, E2. intros [= <-]. split; [done|]. rewrite Hd2. do 2 f_equal.
  destruct (lookup_entry (entry_dir w) c) as [d|]; simpl; [by apply Hd|done].
Qed.

Lemma c_acquire_stored w t c :
  workload_identity t = Some w → snapshot_type t = Continuation →
  cio c = [] → lookup_entry (entry_dir w) c = Some (mkDir (Some (to_json t)) false) →
  c_acquire w c = Some (Some t, alter_entry (λ d, mkDir (d_meta d) true) (entry_dir w) c).
Proof.
  intros Hw Hk Hio Hd. unfold c_acquire, c_dir_exists, c_marker_exists, c_load, c_write_marker, cio_next.
  munfold. rewrite Hio. simpl. rewrite Hd, bool_decide_true by eauto. simpl. rewrite Hio, Hd. simpl.
  rewrite Hio, Hd. simpl. rewrite json_roundtrip. rewrite !bool_decide_true by done. simpl.
  rewrite Hio, Hd. done.
Qed.

(** Save, acquire and fail round-trip. With a file system that works, a
    saved continuation is acquired as it was saved; a failed restore gives
    it back, so that it can be acquired again. *)
Theorem continuation_roundtrip w t c c1 :
  cio c = [] → workload_identity t = Some w → snapshot_type t = Continuation →
  (∀ d, lookup_entry (entry_dir w) c = Some d → d_consumed d = false) →
  c_save t c = Some (Ok tt, c1) →
  ∃ c2 c3 c4, c_acquire w c1 = Some (Some t, c2) ∧ c_fail t c2 = Some (tt, c3) ∧
    c_acquire w c3 = Some (Some t, c4).
Proof.
  intros Hio Hw Hk Hd E.
  destruct (c_save_stored w t c c1 Hio Hw Hd E) as [Hio1 Hd1].
  set (c2 := alter_entry (λ d, mkDir (d_meta d) true) (entry_dir w) c1).
  set (c3 := alter_entry (λ d, mkDir (d_meta d) false) (entry_dir w) c2).
  assert (lookup_entry (entry_dir w) c2 = Some (mkDir (Some (to_json t)) true)) as Hd2.
  { unfold c2. rewrite lookup_alter_entry, decide_True by done. by rewrite Hd1. }
  exists c2, c3, (alter_entry (λ d, mkDir (d_meta d) true) (entry_dir w) c3). split_and!.
  - by apply c_acquire_stored.
  - unfold c_fail. rewrite Hw. unfold c_remove_marker, cio_next. munfold. simpl.
    rewrite Hio1, Hd2. done.
  - apply c_acquire_stored; [done..|]. unfold c3. rewrite lookup_alter_entry, decide_True by done. by rewrite Hd2.
Qed.
End props.

(** ** Concrete runs *)
#[local] Existing Instance plain_codec.
#[local] Existing Instance listing_order.

Definition demo_identity : WorkloadIdentity := mkIdentity "pod-a" 3.
Definition demo_cont : PooledTemplate :=
  {| pt_id := "c1"; pt_key := mkKey "pod-a:3"; snapshot_dir := "/s"; pmem_path := "/p"; kernel_path := "/k";
     vcpus := 1; memory_mb := 512; created_at_secs := 7; original_task_vsock := ""; original_console_path := "";
     hypervisor_api_version := ""; snapshot_type := Continuation; id_generator := 0; disk_images := [];
     storages := []; orphan_container_ids := []; snapshot_containers := []; ready_protocol_version := None;
     workload_identity := Some demo_identity; warm_fork_targets := [] |}.
Definition demo_store : CStore := mkCStore (Some {["pod-a" := {["g3" := mkDir (Some (Some demo_cont)) false]}]}) [].
Definition demo_consumed : CStore := mkCStore (Some {["pod-a" := {["g3" := mkDir (Some (Some demo_cont)) true]}]}) [].

Lemma continuation_gc_keeps_live_witness :
  ∃ r c', c_gc_orphaned_consumed {["c1"]} demo_consumed = Some (r, c') ∧
    lookup_entry ("pod-a", "g3") c' = Some (mkDir (Some (Some demo_cont)) true).
Proof.
  destruct (c_gc_orphaned_consumed {["c1"]} demo_consumed) as [[r c']|] eqn:E.
  - exists r, c'. split; [reflexivity|].
    apply (continuation_gc_keeps_live {["c1"]} ("pod-a", "g3") _ demo_consumed r c'); [|vm_compute; reflexivity|exact E].
    right. exists (Some demo_cont), demo_cont. split; [reflexivity|]. split; [reflexivity|].
    apply elem_of_singleton. reflexivity.
  - exfalso. vm_compute in E. discriminate.
Defined.

Lemma continuation_acquire_sound_witness :
  ∃ c', c_acquire demo_identity demo_store = Some (Some demo_cont, c') ∧
    workload_identity demo_cont = Some demo_identity.
Proof.
  destruct (c_acquire demo_identity demo_store) as [[o c']|] eqn:E; [|exfalso; vm_compute in E; discriminate].
  assert (o = Some demo_cont) as -> by (vm_compute in E; injection E as <- _; reflexivity).
  exists c'. split; [reflexivity|].
  exact (proj1 (proj2 (continuation_acquire_sound demo_identity demo_store demo_cont c' E))).
Defined.

Lemma continuation_consumed_once_witness :
  ∃ c1 c2 c3, c_acquire demo_identity demo_store = Some (Some demo_cont, c1) ∧
    run_cops [OLoad; OGc ∅; OAcquire demo_identity; OList] c1 = Some (tt, c2) ∧
    c_acquire demo_identity c2 = Some (None, c3).
Proof.
  destruct (c_acquire demo_identity demo_store) as [[o c1]|] eqn:E; [|exfalso; vm_compute in E; discriminate].
  assert (o = Some demo_cont ∧ c1 = demo_consumed) as [-> ->] by (vm_compute in E; injection E as <- <-; split; reflexivity).
  destruct (run_cops [OLoad; OGc ∅; OAcquire demo_identity; OList] demo_consumed) as [[[] c2]|] eqn:E2;
    [|exfalso; vm_compute in E2; discriminate].
  destruct (continuation_consumed_once demo_identity demo_store demo_cont demo_consumed
    [OLoad; OGc ∅; OAcquire demo_identity; OList] c2 E) as [c3 E3].
  - constructor.
  - repeat constructor.
  - exact E2.
  - vm_compute in E2. injection E2 as <-. reflexivity.
  - exists demo_consumed, c2, c3. split; [reflexivity|]. split; [exact E2|exact E3].
Defined.

Lemma continuation_roundtrip_witness :
  ∃ c1 c2, c_save demo_cont (mkCStore None []) = Some (Ok tt, c1) ∧
    c_acquire demo_identity c1 = Some (Some demo_cont, c2).
Proof.
  destruct (c_save demo_cont (mkCStore None [])) as [[r c1]|] eqn:E; [|exfalso; vm_compute in E; discriminate].
  assert (r = Ok tt) as -> by (vm_compute in E; injection E as <- _; reflexivity).
  destruct (continuation_roundtrip demo_identity demo_cont (mkCStore None []) c1) as (c2 & _ & _ & E2 & _).
  - reflexivity.
  - reflexivity.
  - reflexivity.
  - intros d Hd. vm_compute in Hd. discriminate.
  - exact E.
  - exists c1, c2. split; [reflexivity|exact E2].
Defined.

(** ** Where the exclusivity of the store ends *)

(** [delete_by_template_id] is documented to delete a consumed entry; it also
    deletes an entry nobody has consumed. *)
Theorem delete_by_id_ignores_marker :
  ∃ c', c_delete_by_template_id "c1" demo_store = Some (Ok true, c') ∧
    lookup_entry ("pod-a", "g3") c' = None.
Proof. eexists. split; vm_compute; reflexivity. Qed.

(** A stat error on the marker counts as "not consumed": the entry is handed
    out a second time. *)
Theorem acquire_twice_on_marker_error :
  ∃ c', c_acquire demo_identity (mkCStore (tree demo_consumed) [IoOk; IoFault true true; IoOk; IoOk]) =
    Some (Some demo_cont, c').
Proof. eexists. vm_compute. reflexivity. Qed.

(** [acquire] checks the marker and writes it in two separate calls: two
    acquisitions whose checks both run before either write both succeed. *)
Definition c_acquire_check `{TemplateCodec} (w : WorkloadIdentity) : M CStore (option PooledTemplate) :=
  x ← c_dir_exists (entry_dir w);
  if negb (default false x) then mret None else
  m ← c_marker_exists (entry_dir w);
  if default false m then mret None else
  o ← c_load (entry_dir w);
  mret (t ← o;
        if bool_decide (snapshot_type t = Continuation) && bool_decide (workload_identity t = Some w)
        then Some t else None).

Definition c_acquire_commit `{TemplateCodec} (w : WorkloadIdentity) (o : option PooledTemplate)
  : M CStore (option PooledTemplate) :=
  match o with
  | None => mret None
  | Some t => r ← c_write_marker (entry_dir w); mret (match r with Ok _ => Some t | Err _ => None end)
  end.

Lemma c_acquire_split `{TemplateCodec} w c :
  c_acquire w c = (c_acquire_check w ≫= c_acquire_commit w) c.
Proof.
  unfold c_acquire, c_acquire_check. munfold.
  destruct (c_dir_exists (entry_dir w) c) as [[x c1]|]; [|done].
  destruct (default false x); simpl; [|done].
  destruct (c_marker_exists (entry_dir w) c1) as [[m c2]|]; [|done].
  destruct (default false m); [done|].
  destruct (c_load (entry_dir w) c2) as [[[t|] c3]|]; simpl; [|done|done].
  do 2 (case_bool_decide; simpl; [|done]). unfold c_acquire_commit. munfold.
  by destruct (c_write_marker (entry_dir w) c3) as [[[]]|].
Qed.

Theorem concurrent_acquires_both_win :
  ∃ c', (o1 ← c_acquire_check demo_identity;
         o2 ← c_acquire_check demo_identity;
         r1 ← c_acquire_commit demo_identity o1;
         r2 ← c_acquire_commit demo_identity o2;
         mret (r1, r2)) demo_store = Some ((Some demo_cont, Some demo_cont), c').
Proof. eexists. vm_compute. reflexivity. Qed.
