(* ===== verification/Resources.v ===== *)
(** * Pod resources

    [vmm/sandbox/src/utils.rs]: parsing, merging and printing of cpusets, and
    the merge of a pod's resources with its overhead. [i64] fields are [Z]
    with the wrap-around of the release profile; [u32] and [u64] are [N]. *)
From S2P Require Import Prelude Strs.

(** ** Cpusets *)
Definition CpuRange : Type := N * N.

Inductive CpusetError := CpusetFormat.

Definition cpuset_one_part (s : string) : result CpuRange CpusetError :=
  let parts := split "-" s in
  match parse_uint u32_max (trim (default "" (parts !! 0))) with
  | None => Err CpusetFormat
  | Some low =>
      if bool_decide (length parts = 2) then
        match parse_uint u32_max (trim (default "" (parts !! 1))) with
        | None => Err CpusetFormat
        | Some high => Ok (low, high)
        end
      else Ok (low, low)
  end.

Fixpoint parse_all {A E} (f : string → result A E) (l : list string) : result (list A) E :=
  match l with
  | [] => Ok []
  | x :: l' =>
      match f x with
      | Err e => Err e
      | Ok a => match parse_all f l' with Err e => Err e | Ok k => Ok (a :: k) end
      end
  end.

Definition cpuset_parts (s : string) : result (list CpuRange) CpusetError :=
  if bool_decide (trim s = "") then Ok [] else parse_all cpuset_one_part (split "," s).

Definition cpuset_tostring (r : CpuRange) : string :=
  if (r.1 =? r.2)%N then pretty r.1 else pretty r.1 +:+ "-" +:+ pretty r.2.

Definition merge_cpuset (base delta : CpuRange) : CpuRange :=
  let (low, high) := base in
  if (delta.2 <? low)%N then (low, high) else
  if (high <? delta.1)%N then (low, high) else
  (if (delta.1 <? low)%N then delta.1 else low, if (high <? delta.2)%N then delta.2 else high).

Definition cpuset_intersect (c1 c2 : CpuRange) : bool :=
  if (c2.2 <? c1.1)%N then false else if (c1.2 <? c2.1)%N then false else true.

(** The second loop of [merge_cpusets]: push what meets nothing pushed so far. *)
Definition push_disjoint (acc : list CpuRange) (r : CpuRange) : list CpuRange :=
  if existsb (cpuset_intersect r) acc then acc else acc ++ [r].

Definition merge_parts (p1 p2 : list CpuRange) : list CpuRange :=
  foldl push_disjoint ((λ b, foldl merge_cpuset b p2) <$> p1) p2.

Definition merge_cpusets (s1 s2 : string) : result string CpusetError :=
  match cpuset_parts s1 with
  | Err e => Err e
  | Ok p1 =>
      match cpuset_parts s2 with
      | Err e => Err e
      | Ok p2 => Ok (join "," (cpuset_tostring <$> merge_parts p1 p2))
      end
  end.

(** ** Resources *)
Definition i64_wrap (z : Z) : Z := ((z + 2 ^ 63) `mod` 2 ^ 64 - 2 ^ 63)%Z.

Record HugepageLimit := mkHugepage { page_size : string; limit : N }.

Record LinuxContainerResources := mkResources {
  cpu_period : Z;
  cpu_quota : Z;
  cpu_shares : Z;
  memory_limit_in_bytes : Z;
  oom_score_adj : Z;
  cpuset_cpus : string;
  cpuset_mems : string;
  hugepage_limits : list HugepageLimit;
  unified : gmap string string;
  memory_swap_limit_in_bytes : Z
}.

(** One iteration of the hugepage loop: [found] is never set, so the entry is
    pushed also when its limit was added to one of the same size. *)
Definition merge_hugepage (acc : list HugepageLimit) (h2 : HugepageLimit) : list HugepageLimit :=
  ((λ l, if bool_decide (page_size l = page_size h2)
         then mkHugepage (page_size l) (uwrap 64 (limit l + limit h2)) else l) <$> acc) ++ [h2].

Definition merge_unified `{HashOrder} (u1 u2 : gmap string string) : gmap string string :=
  foldl (λ u p, match u !! p.1 with Some _ => u | None => <[p.1 := p.2]> u end) u1 (hash_iter u2).

Definition merge_set (s1 s2 : string) : string :=
  match merge_cpusets s1 s2 with Ok c => c | Err _ => s1 end.

(** [None] is the panic of the division [i64::MIN / -1]. *)
Definition merge_quota (r1 r2 : LinuxContainerResources) : option Z :=
  if bool_decide (cpu_period r2 = 0%Z) then Some (cpu_quota r1) else
  let p := i64_wrap (cpu_quota r2 * cpu_period r1) in
  if bool_decide (p = - 2 ^ 63 ∧ cpu_period r2 = -1)%Z then None
  else Some (i64_wrap (cpu_quota r1 + Z.quot p (cpu_period r2))).

Definition merge_resources `{HashOrder} (r1 r2 : LinuxContainerResources) : option LinuxContainerResources :=
  q ← merge_quota r1 r2;
  Some {|
    cpu_period := cpu_period r1;
    cpu_quota := q;
    cpu_shares := i64_wrap (cpu_shares r1 + cpu_shares r2);
    memory_limit_in_bytes := i64_wrap (memory_limit_in_bytes r1 + memory_limit_in_bytes r2);
    oom_score_adj := if (oom_score_adj r2 <? oom_score_adj r1)%Z then oom_score_adj r1 else oom_score_adj r2;
    cpuset_cpus := merge_set (cpuset_cpus r1) (cpuset_cpus r2);
    cpuset_mems := merge_set (cpuset_mems r1) (cpuset_mems r2);
    hugepage_limits := foldl merge_hugepage (hugepage_limits r1) (hugepage_limits r2);
    unified := merge_unified (unified r1) (unified r2);
    memory_swap_limit_in_bytes :=
      i64_wrap (memory_swap_limit_in_bytes r1 + memory_swap_limit_in_bytes r2)
  |}.

(** The part of [SandboxData] that names resources. *)
Record LinuxPodSandboxConfig := mkLinuxPod {
  pod_resources : option LinuxContainerResources;
  pod_overhead : option LinuxContainerResources
}.

(** The outer [option] is a panic. *)
Definition get_total_resources `{HashOrder} (l : option LinuxPodSandboxConfig) : option (option LinuxContainerResources) :=
  match l with
  | None => Some None
  | Some l =>
      match pod_resources l with
      | None => Some None
      | Some r =>
          match pod_overhead l with
          | None => Some (Some r)
          | Some o => m ← merge_resources r o; Some (Some m)
          end
      end
  end.

(** ** Printing and parsing *)
Lemma trim_start_id s : (∀ a, is_ws a = true → contains_char s a = false) → trim_start s = s.
Proof.
  destruct s as [|a s]; simpl; [done|]. intros Hs. destruct (is_ws a) eqn:E; [|done].
  specialize (Hs a E). by rewrite decide_True in Hs.
Qed.

Lemma trim_end_id s : (∀ a, is_ws a = true → contains_char s a = false) → trim_end s = s.
Proof.
  induction s as [|a s IH]; simpl; [done|]. intros Hs.
  rewrite IH.
  - destruct s; [|done]. destruct (is_ws a) eqn:E; [|done]. specialize (Hs a E). by rewrite decide_True in Hs.
  - intros b Hb. specialize (Hs b Hb). by case_decide.
Qed.

Lemma ws_not_digit a : is_ws a = true → digit a = None.
Proof. unfold is_ws. intros Ha%bool_decide_eq_true. set_solver. Qed.

Lemma trim_pretty (n : N) : trim (pretty n) = pretty n.
Proof.
  assert (∀ a, is_ws a = true → contains_char (pretty n) a = false) as Hn.
  { intros a Ha. apply pretty_no_char. by apply ws_not_digit. }
  unfold trim. rewrite trim_start_id by done. by apply trim_end_id.
Qed.

Definition wf_range (r : CpuRange) : Prop := (r.1 ≤ r.2 ≤ u32_max)%N.

Lemma cpuset_one_part_tostring r : (r.1 ≤ u32_max)%N → (r.2 ≤ u32_max)%N →
  cpuset_one_part (cpuset_tostring r) = Ok r.
Proof.
  destruct r as [lo hi]. simpl. intros Hlo Hhi. unfold cpuset_one_part, cpuset_tostring. simpl.
  destruct (N.eqb_spec lo hi) as [<-|Hne].
  - rewrite split_no_char by by apply pretty_no_char. simpl. by rewrite trim_pretty, parse_uint_pretty.
  - rewrite (split_app_sep "-" (pretty lo) (pretty hi)) by by apply pretty_no_char.
    rewrite split_no_char by by apply pretty_no_char.
    simpl. by rewrite !trim_pretty, !parse_uint_pretty.
Qed.

Lemma tostring_no_comma r : contains_char (cpuset_tostring r) "," = false.
Proof.
  unfold cpuset_tostring. case_match; [by apply pretty_no_char|].
  rewrite !contains_char_app. simpl. by rewrite !pretty_no_char.
Qed.

Lemma trim_nonempty a s : is_ws a = false → trim (String a s) ≠ "".
Proof. intros Ha. unfold trim. simpl. rewrite Ha. simpl. destruct (trim_end s); [by rewrite Ha|done]. Qed.

Lemma tostring_head r : ∃ a t, cpuset_tostring r = String a t ∧ is_ws a = false.
Proof.
  assert (∀ d, (d < 10)%N → is_ws (pretty_N_char d) = false) as Hd.
  { intros d Hd. destruct (is_ws _) eqn:E; [|done]. apply ws_not_digit in E.
    by rewrite digit_pretty_char in E. }
  unfold cpuset_tostring. destruct (pretty_head r.1) as (d & t & Hlt & ->).
  case_match; simpl; eexists _, _; split; [done|by apply Hd|done|by apply Hd].
Qed.

Lemma parse_all_map {A E} (f : string → result A E) (g : A → string) l :
  (∀ a, a ∈ l → f (g a) = Ok a) → parse_all f (g <$> l) = Ok l.
Proof.
  induction l as [|a l IH]; intros Hf; [done|]. csimpl. rewrite Hf by by left.
  rewrite IH; [done|]. intros b Hb. apply Hf. by right.
Qed.

(** Printing a list of ranges and parsing it gives the list. *)
Lemma cpuset_print_parse l :
  Forall (λ r : CpuRange, (r.1 ≤ u32_max)%N ∧ (r.2 ≤ u32_max)%N) l →
  cpuset_parts (join "," (cpuset_tostring <$> l)) = Ok l.
Proof.
  intros Hl. destruct l as [|r l]; [done|]. unfold cpuset_parts. rewrite bool_decide_false.
  - rewrite (split_join "," (cpuset_tostring <$> r :: l)).
    + apply parse_all_map. intros a Ha. rewrite Forall_forall in Hl. destruct (Hl a Ha).
      by apply cpuset_one_part_tostring.
    + done.
    + intros w (a & -> & _)%list_elem_of_fmap. apply tostring_no_comma.
  - destruct (tostring_head r) as (a & t & E & Ha). csimpl. rewrite E.
    destruct (cpuset_tostring <$> l); simpl; by apply trim_nonempty.
Qed.

Lemma parse_all_Forall {A E} (f : string → result A E) (P : A → Prop) l k :
  (∀ x a, f x = Ok a → P a) → parse_all f l = Ok k → Forall P k.
Proof.
  intros Hf. revert k. induction l as [|x l IH]; intros k; simpl; [intros [= <-]; constructor|].
  destruct (f x) eqn:Ex; [|done]. destruct (parse_all f l) eqn:El; [|done]. intros [= <-].
  constructor; [by eapply Hf|by apply IH].
Qed.

Lemma cpuset_parts_u32 s l :
  cpuset_parts s = Ok l → Forall (λ r : CpuRange, (r.1 ≤ u32_max)%N ∧ (r.2 ≤ u32_max)%N) l.
Proof.
  unfold cpuset_parts. case_bool_decide; [intros [= <-]; constructor|].
  apply parse_all_Forall. intros x [lo hi]. unfold cpuset_one_part. simpl.
  destruct (parse_uint u32_max (trim (default "" (split "-" x !! 0)))) as [n|] eqn:E; [|done].
  apply parse_uint_bound in E. case_bool_decide; [|by intros [= <- <-]].
  destruct (parse_uint u32_max (trim (default "" (split "-" x !! 1)))) as [m|] eqn:E'; [|done].
  apply parse_uint_bound in E'. by intros [= <- <-].
Qed.

(** ** What merging means *)
Definition in_range (n : N) (r : CpuRange) : Prop := (r.1 ≤ n ≤ r.2)%N.
Definition in_set (n : N) (l : list CpuRange) : Prop := Exists (in_range n) l.

Definition proper_range (r : CpuRange) : Prop := (r.1 ≤ r.2)%N.
(** No two ranges of the list share a cpu. *)
Definition separate (l : list CpuRange) : Prop :=
  ∀ i j r s, l !! i = Some r → l !! j = Some s → cpuset_intersect r s = true → i = j.

Lemma intersect_spec r s : cpuset_intersect r s = true ↔ (r.1 ≤ s.2 ∧ s.1 ≤ r.2)%N.
Proof.
  unfold cpuset_intersect. destruct (N.ltb_spec s.2 r.1); [split; [done|lia]|].
  destruct (N.ltb_spec r.2 s.1); split; try done; lia.
Qed.

Lemma merge_cpuset_spec b d :
  proper_range b → proper_range d →
  proper_range (merge_cpuset b d) ∧
  ∀ n, in_range n (merge_cpuset b d) ↔ in_range n b ∨ (cpuset_intersect b d = true ∧ in_range n d).
Proof.
  destruct b as [bl bh], d as [dl dh]. unfold proper_range, in_range. setoid_rewrite intersect_spec. simpl.
  intros Hb Hd. unfold merge_cpuset. simpl.
  destruct (N.ltb_spec dh bl); [simpl; split; [done|intros; lia]|].
  destruct (N.ltb_spec bh dl); [simpl; split; [done|intros; lia]|]. simpl.
  destruct (N.ltb_spec dl bl), (N.ltb_spec bh dh); simpl; (split; [lia|intros; lia]).
Qed.

(** Growing a range by separate ones takes in exactly those it meets. *)
Lemma grow_spec p2 b :
  proper_range b → Forall proper_range p2 → separate p2 →
  proper_range (foldl merge_cpuset b p2) ∧
  ∀ n, in_range n (foldl merge_cpuset b p2) ↔
    in_range n b ∨ ∃ d, d ∈ p2 ∧ cpuset_intersect b d = true ∧ in_range n d.
Proof.
  revert b. induction p2 as [|d p2 IH]; intros b Hb Hp Hs; simpl.
  - split; [done|]. intros n. split; [by left|]. intros [|(d & Hd & _)]; [done|by apply elem_of_nil in Hd].
  - apply Forall_cons in Hp as [Hd Hp]. destruct (merge_cpuset_spec b d Hb Hd) as [Hm Hin].
    destruct (IH (merge_cpuset b d) Hm Hp) as [Hg Hgin].
    { intros i j r s Hi Hj Hrs. assert (S i = S j) as [= ->]; [|done]. by eapply (Hs (S i) (S j)). }
    split; [done|]. intros n. rewrite Hgin, Hin.
    assert (∀ e, e ∈ p2 → cpuset_intersect (merge_cpuset b d) e = true ↔ cpuset_intersect b e = true) as Hsame.
    { intros e He. rewrite Forall_forall in Hp. pose proof (Hp e He) as Hpe.
      assert (cpuset_intersect d e = false) as Hde.
      { destruct (cpuset_intersect d e) eqn:E; [|done]. apply list_elem_of_lookup in He as [j Hj].
        specialize (Hs 0 (S j) d e eq_refl Hj E). done. }
      revert Hde. destruct b as [bl bh], d as [dl dh], e as [el eh]. unfold proper_range in *. simpl in *.
      rewrite <- not_true_iff_false, !intersect_spec. unfold merge_cpuset. simpl.
      repeat case_match; simpl; repeat match goal with
        | E : (_ <? _)%N = true |- _ => apply N.ltb_lt in E
        | E : (_ <? _)%N = false |- _ => apply N.ltb_ge in E end; lia. }
    setoid_rewrite elem_of_cons. split.
    + intros [[|[? ?]]|(e & He & Hi & Hn)]; [by left|right; eauto|].
      right. exists e. split; [by right|]. split; [|done]. by apply Hsame.
    + intros [|(e & [->|He] & Hi & Hn)]; [by left; left|by left; right|].
      right. exists e. split; [done|]. split; [|done]. by apply Hsame.
Qed.

Lemma in_set_app n l k : in_set n (l ++ k) ↔ in_set n l ∨ in_set n k.
Proof. apply Exists_app. Qed.

Lemma push_disjoint_in n acc l : in_set n (foldl push_disjoint acc l) → in_set n acc ∨ in_set n l.
Proof.
  revert acc. induction l as [|r l IH]; intros acc; simpl; [by left|].
  intros [Hn|Hn]%IH; [|right; by right].
  revert Hn. unfold push_disjoint. case_match; [by left|]. rewrite in_set_app.
  intros [|Hr]; [by left|]. right. apply Exists_cons in Hr as [|Hr]; [by left|by inversion Hr].
Qed.

Lemma push_disjoint_mono n acc l : in_set n acc → in_set n (foldl push_disjoint acc l).
Proof.
  revert acc. induction l as [|r l IH]; intros acc; simpl; [done|]. intros Hn. apply IH.
  unfold push_disjoint. case_match; [done|]. apply in_set_app. by left.
Qed.

Lemma intersect_common r s :
  proper_range r → proper_range s → cpuset_intersect r s = true ↔ ∃ n, in_range n r ∧ in_range n s.
Proof.
  unfold proper_range, in_range. intros Hr Hs. rewrite intersect_spec. split.
  - intros [? ?]. exists (N.max r.1 s.1). lia.
  - intros (n & ? & ?). lia.
Qed.

(** A range of the second set that meets a grown range is inside it. *)
Lemma grown_covers p2 b d n :
  proper_range b → Forall proper_range p2 → separate p2 → d ∈ p2 →
  cpuset_intersect d (foldl merge_cpuset b p2) = true → in_range n d → in_range n (foldl merge_cpuset b p2).
Proof.
  intros Hb Hp Hs Hd Hi Hn. destruct (grow_spec p2 b Hb Hp Hs) as [Hg Hin]. apply Hin. right.
  exists d. split; [done|]. split; [|done]. pose proof Hp as Hp'. rewrite Forall_forall in Hp'.
  apply intersect_common in Hi as (m & Hmd & Hmg); [|by apply Hp'|done].
  apply Hin in Hmg as [Hmb|(e & He & Hbe & Hme)].
  - apply intersect_common; [done|by apply Hp'|]. eauto.
  - apply list_elem_of_lookup in Hd as [i Hi], He as [j Hj].
    assert (i = j) as ->; [|congruence]. eapply Hs; [done..|].
    apply intersect_common; [apply Hp'; by eapply list_elem_of_lookup_2..|]. eauto.
Qed.

Lemma push_covers p1 p2 pre l ps d n :
  Forall proper_range p1 → Forall proper_range p2 → separate p2 →
  p2 = pre ++ l → (∀ r, r ∈ ps → r ∈ pre) → d ∈ l → in_range n d →
  in_set n (foldl push_disjoint (((λ b, foldl merge_cpuset b p2) <$> p1) ++ ps) l).
Proof.
  intros H1 H2 Hs. revert pre ps. induction l as [|e l IH]; intros pre ps E Hps Hd Hn;
    [by apply elem_of_nil in Hd|]. simpl.
  assert (∀ ps', (∀ r, r ∈ ps' → r ∈ pre ++ [e]) → d ∈ l →
    in_set n (foldl push_disjoint (((λ b, foldl merge_cpuset b p2) <$> p1) ++ ps') l)) as Hrest.
  { intros ps' Hps' Hdl. eapply (IH (pre ++ [e])); try done. by rewrite <- app_assoc. }
  unfold push_disjoint at 2. destruct (existsb _ _) eqn:Ex.
  - apply elem_of_cons in Hd as [->|Hd].
    2:{ apply Hrest; [|done]. intros r Hr. apply elem_of_app. left. auto. }
    apply push_disjoint_mono. apply existsb_exists in Ex as (r & Hr & Hi).
    apply list_elem_of_In, elem_of_app in Hr as [Hr|Hr].
    + apply in_set_app. left. apply Exists_exists. exists r. split; [done|].
      apply list_elem_of_fmap in Hr as (b & -> & Hb).
      apply (grown_covers p2 b e); try done.
      * by eapply (Forall_forall proper_range p1).
      * rewrite E. apply elem_of_app. right. by left.
    + exfalso. apply Hps in Hr. apply list_elem_of_lookup in Hr as [i Hi'].
      assert (i < length pre) by by eapply lookup_lt_Some.
      assert (length pre = i); [|lia]. eapply (Hs (length pre) i e r); [..|done].
      * rewrite E, lookup_app_r by lia. by rewrite Nat.sub_diag.
      * rewrite E. by apply lookup_app_l_Some.
  - rewrite <- app_assoc. apply elem_of_cons in Hd as [->|Hd].
    + apply push_disjoint_mono. rewrite !in_set_app. right. right. by left.
    + apply Hrest; [|done]. intros r [Hr|Hr]%elem_of_app; apply elem_of_app; [left; auto|by right].
Qed.

Lemma merge_parts_spec p1 p2 :
  Forall proper_range p1 → Forall proper_range p2 → separate p2 →
  ∀ n, in_set n (merge_parts p1 p2) ↔ in_set n p1 ∨ in_set n p2.
Proof.
  intros H1 H2 Hs n. unfold merge_parts. split.
  - intros [Hn|Hn]%push_disjoint_in; [|by right]. apply Exists_exists in Hn as (r & Hr & Hn).
    apply list_elem_of_fmap in Hr as (b & -> & Hb). rewrite Forall_forall in H1.
    apply (grow_spec p2 b (H1 b Hb) H2 Hs) in Hn as [Hn|(d & Hd & _ & Hn)];
      [left|right]; apply Exists_exists; eauto.
  - intros [Hn|Hn]; apply Exists_exists in Hn as (r & Hr & Hn).
    + apply push_disjoint_mono, Exists_exists. eexists. split; [by apply list_elem_of_fmap_2|].
      rewrite Forall_forall in H1. apply (grow_spec p2 r (H1 r Hr) H2 Hs). by left.
    + pose proof (push_covers p1 p2 [] p2 [] r n) as Hc. rewrite app_nil_r in Hc.
      by apply Hc.
Qed.

Lemma merge_cpuset_u32 b d :
  (b.1 ≤ u32_max)%N ∧ (b.2 ≤ u32_max)%N → (d.1 ≤ u32_max)%N ∧ (d.2 ≤ u32_max)%N →
  ((merge_cpuset b d).1 ≤ u32_max)%N ∧ ((merge_cpuset b d).2 ≤ u32_max)%N.
Proof. destruct b, d. unfold merge_cpuset. simpl. repeat case_match; simpl; tauto. Qed.

Lemma merge_parts_u32 p1 p2 :
  Forall (λ r : CpuRange, (r.1 ≤ u32_max)%N ∧ (r.2 ≤ u32_max)%N) p1 →
  Forall (λ r : CpuRange, (r.1 ≤ u32_max)%N ∧ (r.2 ≤ u32_max)%N) p2 →
  Forall (λ r : CpuRange, (r.1 ≤ u32_max)%N ∧ (r.2 ≤ u32_max)%N) (merge_parts p1 p2).
Proof.
  intros H1 H2. unfold merge_parts.
  assert (Forall (λ r : CpuRange, (r.1 ≤ u32_max)%N ∧ (r.2 ≤ u32_max)%N)
    ((λ b, foldl merge_cpuset b p2) <$> p1)) as Hb.
  { apply Forall_fmap. eapply Forall_impl; [exact H1|]. simpl. clear H1. intros b.
    revert b. induction H2 as [|d p2 Hd _ IH]; intros b Hb; simpl; [done|].
    apply IH. by apply merge_cpuset_u32. }
  revert Hb. generalize ((λ b, foldl merge_cpuset b p2) <$> p1).
  induction H2 as [|d p2 Hd _ IH]; intros acc Hacc; simpl; [done|]. apply IH.
  unfold push_disjoint. case_match; [done|]. apply Forall_app. split; [done|by constructor].
Qed.

(** Merging cpusets. When both strings parse and the ranges of the second
    one are proper and share no cpu, the merge succeeds and the printed result
    parses back to exactly the union of the two sets. *)
Theorem merge_cpusets_union s1 s2 p1 p2 :
  cpuset_parts s1 = Ok p1 → cpuset_parts s2 = Ok p2 →
  Forall proper_range p1 → Forall proper_range p2 → separate p2 →
  ∃ s p, merge_cpusets s1 s2 = Ok s ∧ cpuset_parts s = Ok p ∧
    ∀ n, in_set n p ↔ in_set n p1 ∨ in_set n p2.
Proof.
  intros E1 E2 H1 H2 Hs. unfold merge_cpusets. rewrite E1, E2. eexists _, (merge_parts p1 p2).
  split; [done|]. split; [|by apply merge_parts_spec].
  apply cpuset_print_parse. apply merge_parts_u32; by eapply cpuset_parts_u32.
Qed.

Lemma merge_cpusets_union_witness :
  ∃ s p, merge_cpusets "0-3,8" "2-5, 7" = Ok s ∧ cpuset_parts s = Ok p ∧ in_set 7 p.
Proof.
  destruct (merge_cpusets_union "0-3,8" "2-5, 7" [(0, 3); (8, 8)]%N [(2, 5); (7, 7)]%N) as (s & p & E & Ep & Hin).
  - vm_compute. reflexivity.
  - vm_compute. reflexivity.
  - repeat constructor; vm_compute; discriminate.
  - repeat constructor; vm_compute; discriminate.
  - intros [|[|i]] [|[|j]] r t Hi Hj Hx; simpl in *; try reflexivity; try discriminate;
      injection Hi as <-; injection Hj as <-; vm_compute in Hx; discriminate.
  - exists s, p. split; [exact E|]. split; [exact Ep|]. apply Hin. right. right. left.
    split; vm_compute; discriminate.
Defined.

(** Overlapping ranges in the second set lose cpus: a range that meets a grown
    range is taken for merged, although it was passed before the range grew. *)
Theorem merge_cpusets_loses_cpu :
  merge_cpusets "0-1" "5-6,1-5" = Ok "0-5" ∧
  (∃ p, cpuset_parts "5-6,1-5" = Ok p ∧ in_set 6 p) ∧
  (∃ p, cpuset_parts "0-5" = Ok p ∧ ¬ in_set 6 p).
Proof.
  split; [vm_compute; reflexivity|]. split.
  - exists [(5, 6); (1, 5)]%N. split; [vm_compute; reflexivity|]. left. split; vm_compute; discriminate.
  - exists [(0, 5)]%N. split; [vm_compute; reflexivity|]. intros Hin.
    apply Exists_cons in Hin as [[_ Hin]|Hin]; [by vm_compute in Hin|by inversion Hin].
Qed.

(** ** Resources *)
Lemma merge_unified_union `{HashOrder} u1 u2 : merge_unified u1 u2 = u1 ∪ u2.
Proof.
  unfold merge_unified.
  assert (∀ (l : list (string * string)) (u : gmap string string), NoDup l.*1 →
    ∀ k, foldl (λ u p, match u !! p.1 with Some _ => u | None => <[p.1 := p.2]> u end) u l !! k =
      match u !! k with Some v => Some v | None => (list_to_map l : gmap string string) !! k end) as Hfold.
  { induction l as [|[k v] l IH]; intros u Hn k'; simpl.
    - rewrite lookup_empty. by destruct (u !! k').
    - csimpl in Hn. apply NoDup_cons in Hn as [Hk Hn]. rewrite IH by done. rewrite lookup_insert.
      destruct (u !! k) as [x|] eqn:Eu.
      + destruct (u !! k') eqn:E'; [done|]. rewrite decide_False by congruence. done.
      + rewrite lookup_insert. case_decide as E'; [subst; by rewrite Eu|done]. }
  apply map_eq. intros k. rewrite Hfold.
  - rewrite lookup_union. assert ((list_to_map (hash_iter u2) : gmap string string) = u2) as ->.
    { rewrite <- (list_to_map_to_list u2) at 2. apply list_to_map_proper.
      - rewrite hash_iter_perm. apply NoDup_fst_map_to_list.
      - apply hash_iter_perm. }
    destruct (u1 !! k), (u2 !! k); done.
  - rewrite hash_iter_perm. apply NoDup_fst_map_to_list.
Qed.

(** A pod's total resources. With an overhead of zero period, or one whose
    scaled quota does not overflow, the total exists and has the sums of
    shares and memory, the larger oom score, the quota scaled to the pod's
    period, and every unified key, the pod's value winning; the iteration
    order of the map does not matter. *)
Theorem total_resources_spec `{HashOrder} r o :
  (cpu_period o ≠ 0 → - 2 ^ 63 < cpu_quota o * cpu_period r < 2 ^ 63)%Z →
  ∃ m, get_total_resources (Some (mkLinuxPod (Some r) (Some o))) = Some (Some m) ∧
    cpu_period m = cpu_period r ∧
    cpu_quota m = (if bool_decide (cpu_period o = 0%Z) then cpu_quota r
                   else i64_wrap (cpu_quota r + (cpu_quota o * cpu_period r) `quot` cpu_period o))%Z ∧
    cpu_shares m = i64_wrap (cpu_shares r + cpu_shares o) ∧
    memory_limit_in_bytes m = i64_wrap (memory_limit_in_bytes r + memory_limit_in_bytes o) ∧
    oom_score_adj m = Z.max (oom_score_adj r) (oom_score_adj o) ∧
    unified m = unified r ∪ unified o.
Proof.
  intros Hq. unfold get_total_resources, merge_resources, merge_quota. simpl.
  assert (∀ a b, (if (b <? a)%Z then a else b) = Z.max a b) as Hmax.
  { intros a b. destruct (Z.ltb_spec b a); lia. }
  case_bool_decide as E0; simpl.
  - eexists. split; [done|]. simpl. rewrite merge_unified_union, Hmax. done.
  - specialize (Hq E0). assert (i64_wrap (cpu_quota o * cpu_period r) = cpu_quota o * cpu_period r)%Z as ->.
    { unfold i64_wrap. rewrite Z.mod_small; lia. }
    rewrite bool_decide_false by lia. simpl. eexists. split; [done|]. simpl.
    rewrite merge_unified_union, Hmax. done.
Qed.

Definition demo_resources (period quota : Z) (huge : list HugepageLimit) : LinuxContainerResources :=
  mkResources period quota 100 1024 0 "" "" huge ∅ 0.

Lemma total_resources_spec_witness :
  ∃ m, get_total_resources (H := listing_order)
      (Some (mkLinuxPod (Some (demo_resources 100000 50000 [])) (Some (demo_resources 100000 25000 [])))) = Some (Some m) ∧
    cpu_quota m = 75000%Z.
Proof.
  destruct (total_resources_spec (H := listing_order) (demo_resources 100000 50000 []) (demo_resources 100000 25000 []))
    as (m & E & _ & Eq & _).
  - intros _. simpl. split; reflexivity.
  - exists m. split; [exact E|exact Eq].
Defined.

(** The overhead's hugepage limit is added to the pod's entry of the same size
    and pushed as an entry of its own as well. *)
Theorem hugepage_counted_twice :
  foldl merge_hugepage [mkHugepage "2MB" 10] [mkHugepage "2MB" 3] = [mkHugepage "2MB" 13; mkHugepage "2MB" 3].
Proof. vm_compute. reflexivity. Qed.
