(* ===== verification/Mount.v ===== *)
(** * Mounting

    [vmm/common/src/mount.rs]: the option table, option parsing and the
    sequences of [mount(2)] calls; [vmm/sandbox/src/storage/mount.rs]: which
    mount of [/proc/self/mountinfo] a path is on. [MsFlags] is a bit set; the
    values are those of [mount(2)] on Linux. *)
From S2P Require Import Prelude Strs.

Definition MS_RDONLY : N := 1.
Definition MS_NOSUID : N := 2.
Definition MS_NODEV : N := 4.
Definition MS_NOEXEC : N := 8.
Definition MS_SYNCHRONOUS : N := 16.
Definition MS_REMOUNT : N := 32.
Definition MS_MANDLOCK : N := 64.
Definition MS_DIRSYNC : N := 128.
Definition MS_NOATIME : N := 1024.
Definition MS_NODIRATIME : N := 2048.
Definition MS_BIND : N := 4096.
Definition MS_REC : N := 16384.
Definition MS_SILENT : N := 32768.
Definition MS_UNBINDABLE : N := 131072.
Definition MS_PRIVATE : N := 262144.
Definition MS_SLAVE : N := 524288.
Definition MS_SHARED : N := 1048576.
Definition MS_RELATIME : N := 2097152.
Definition MS_STRICTATIME : N := 16777216.

Record Flag := mkFlag { clear : bool; flags : N }.

(** The [MOUNT_FLAGS] table, in source order: up to [nostrictatime], ... *)
Definition MOUNT_FLAGS_1 : list (string * Flag) :=
  [ ("async", mkFlag true MS_SYNCHRONOUS);
    ("atime", mkFlag true MS_NOATIME);
    ("bind", mkFlag false MS_BIND);
    ("defaults", mkFlag false 0);
    ("dev", mkFlag true MS_NODEV);
    ("diratime", mkFlag true MS_NODIRATIME);
    ("dirsync", mkFlag false MS_DIRSYNC);
    ("exec", mkFlag true MS_NOEXEC);
    ("mand", mkFlag false MS_MANDLOCK);
    ("noatime", mkFlag false MS_NOATIME);
    ("nodev", mkFlag false MS_NODEV);
    ("nodiratime", mkFlag false MS_NODIRATIME);
    ("noexec", mkFlag false MS_NOEXEC);
    ("nomand", mkFlag true MS_MANDLOCK);
    ("norelatime", mkFlag true MS_RELATIME);
    ("nostrictatime", mkFlag true MS_STRICTATIME) ].
(** ... and from [nosuid] on. *)
Definition MOUNT_FLAGS_2 : list (string * Flag) :=
  [ ("nosuid", mkFlag false MS_NOSUID);
    ("rbind", mkFlag false (N.lor MS_BIND MS_REC));
    ("relatime", mkFlag false MS_RELATIME);
    ("remount", mkFlag false MS_REMOUNT);
    ("ro", mkFlag false MS_RDONLY);
    ("rw", mkFlag true MS_RDONLY);
    ("strictatime", mkFlag false MS_STRICTATIME);
    ("suid", mkFlag true MS_NOSUID);
    ("sync", mkFlag false MS_SYNCHRONOUS);
    ("shared", mkFlag false MS_SHARED);
    ("rshared", mkFlag false (N.lor MS_SHARED MS_REC));
    ("slave", mkFlag false MS_SLAVE);
    ("rslave", mkFlag false (N.lor MS_SLAVE MS_REC));
    ("private", mkFlag false MS_PRIVATE);
    ("rprivate", mkFlag false (N.lor MS_PRIVATE MS_REC));
    ("unbindable", mkFlag false MS_UNBINDABLE);
    ("runbindable", mkFlag false (N.lor MS_UNBINDABLE MS_REC)) ].
Definition MOUNT_FLAGS : gmap string Flag := list_to_map (MOUNT_FLAGS_1 ++ MOUNT_FLAGS_2).

Definition PROPAGATION_TYPES : N := N.lor (N.lor (N.lor MS_SHARED MS_PRIVATE) MS_SLAVE) MS_UNBINDABLE.
Definition MS_PROPAGATION : N := N.lor (N.lor PROPAGATION_TYPES MS_REC) MS_SILENT.
Definition MS_BIND_RO : N := N.lor MS_BIND MS_RDONLY.
Definition MNT_OPTION_MAX_LEN : nat := 4096.

(** [flags & !mask]: [flags] holds known bits only. *)
Definition handle_option (acc : N * list string) (x : string) : N * list string :=
  match MOUNT_FLAGS !! x with
  | Some f => (if clear f then N.ldiff acc.1 (flags f) else N.lor acc.1 (flags f), acc.2)
  | None => (acc.1, acc.2 ++ [x])
  end.

Definition parse_options (options : list string) : N * list string := foldl handle_option (0%N, []) options.

(** ** System calls

    The calls made so far, and whether each call to come succeeds. *)
Record MountCall := mkMountCall {
  mc_source : option string;
  mc_target : string;
  mc_fstype : option string;
  mc_flags : N;
  mc_data : option string
}.

Record Kernel := mkKernel { calls : list MountCall; answers : list bool }.

Inductive MountError := OptionTooLong | MountFailed | PropagationFailed | ReadonlyFailed | UmountFailed.

(** A call is recorded when it succeeds. *)
Definition sys_mount (c : MountCall) : M Kernel bool := λ k,
  match answers k with
  | [] => Some (true, mkKernel (calls k ++ [c]) [])
  | true :: l => Some (true, mkKernel (calls k ++ [c]) l)
  | false :: l => Some (false, mkKernel (calls k) l)
  end.

Definition mount (fs_type source : option string) (options : list string) (target : string)
  : M Kernel (result unit MountError) :=
  let (fl, data) := parse_options options in
  let opt := join "," data in
  if bool_decide (MNT_OPTION_MAX_LEN < String.length opt) then mret (Err OptionTooLong) else
  let data := match data with [] => None | _ => Some opt end in
  let oflags := N.ldiff fl PROPAGATION_TYPES in
  let is_propagation_only :=
    bool_decide (N.ldiff fl MS_PROPAGATION = 0%N) && bool_decide (source = None)
      && bool_decide (fs_type = None) && bool_decide (data = None) in
  b1 ← (if negb is_propagation_only
           && (bool_decide (N.land fl MS_REMOUNT = 0%N) || negb (bool_decide (data = None)))
        then sys_mount (mkMountCall source target fs_type oflags data) else mret true);
  if negb b1 then mret (Err MountFailed) else
  b2 ← (if negb (bool_decide (N.land fl PROPAGATION_TYPES = 0%N))
        then sys_mount (mkMountCall None target None (N.land fl MS_PROPAGATION) None) else mret true);
  if negb b2 then mret (Err PropagationFailed) else
  b3 ← (if bool_decide (N.land oflags MS_BIND_RO = MS_BIND_RO)
        then sys_mount (mkMountCall None target None (N.lor oflags MS_REMOUNT) None) else mret true);
  if negb b3 then mret (Err ReadonlyFailed) else
  mret (Ok tt).

Definition bind_mount (source target : string) (options : list string) : M Kernel (result unit MountError) :=
  let (fl, data) := parse_options options in
  let opts := match data with [] => None | _ => Some (join "," data) end in
  b1 ← sys_mount (mkMountCall (Some source) target (Some "bind") (N.lor fl MS_BIND) opts);
  if negb b1 then mret (Err MountFailed) else
  if bool_decide (N.land fl MS_RDONLY = MS_RDONLY) then
    b2 ← sys_mount (mkMountCall (Some source) target (Some "bind") (N.lor (N.lor fl MS_BIND) MS_REMOUNT) opts);
    mret (if negb b2 then Err ReadonlyFailed else Ok tt)
  else mret (Ok tt).

(** [umount2] with its errno, if any. *)
Inductive Errno := ENOENT | EINVAL | EBUSY | EPERM.
Definition unmount (outcome : option Errno) : result unit MountError :=
  match outcome with
  | None => Ok tt
  | Some ENOENT | Some EINVAL => Ok tt
  | Some _ => Err UmountFailed
  end.

(** ** Options: the last word on each bit *)

#[local] Opaque MOUNT_FLAGS.

(** What one option says about one bit. *)
Definition option_verdict (i : N) (x : string) : option bool :=
  f ← MOUNT_FLAGS !! x;
  if N.testbit (flags f) i then Some (negb (clear f)) else None.

Fixpoint last_verdict (i : N) (l : list string) (b : bool) : bool :=
  match l with
  | [] => b
  | x :: l' => last_verdict i l' (default b (option_verdict i x))
  end.

Lemma handle_option_bit i acc x :
  N.testbit (handle_option acc x).1 i = default (N.testbit acc.1 i) (option_verdict i x).
Proof.
  unfold handle_option, option_verdict. destruct (MOUNT_FLAGS !! x) as [[c f]|]; simpl; [|done].
  destruct c; simpl; rewrite ?N.ldiff_spec, ?N.lor_spec; destruct (N.testbit f i); simpl;
    by rewrite ?andb_true_r, ?andb_false_r, ?orb_true_r, ?orb_false_r.
Qed.

Lemma parse_options_acc acc l :
  (∀ i, N.testbit (foldl handle_option acc l).1 i = last_verdict i l (N.testbit acc.1 i)) ∧
  (foldl handle_option acc l).2 = acc.2 ++ retain (λ x, negb (bool_decide (is_Some (MOUNT_FLAGS !! x)))) l.
Proof.
  revert acc. induction l as [|x l IH]; intros acc; simpl; [by rewrite app_nil_r|].
  destruct (IH (handle_option acc x)) as [Hb Hd]. split.
  - intros i. by rewrite Hb, handle_option_bit.
  - rewrite Hd. unfold handle_option. destruct (MOUNT_FLAGS !! x) as [f|]; simpl.
    + done.
    + by rewrite <- app_assoc.
Qed.

(** Mount options. Every flag bit has the value given by the last option
    that mentions it and is clear when none does; the options that are not in
    the table are the data string, in their order. *)
Theorem parse_options_spec l :
  (∀ i, N.testbit (parse_options l).1 i = last_verdict i l false) ∧
  (parse_options l).2 = retain (λ x, negb (bool_decide (is_Some (MOUNT_FLAGS !! x)))) l.
Proof. apply (parse_options_acc (0%N, [])). Qed.

(** ** Read-only bind mounts *)
Lemma sys_mount_calls c k b k' :
  sys_mount c k = Some (b, k') → calls k' = if b then calls k ++ [c] else calls k.
Proof. unfold sys_mount. destruct (answers k) as [|[] l]; intros [= <- <-]; done. Qed.

Lemma guarded_mount_calls (p : bool) c k b k' :
  (if p then sys_mount c else mret true) k = Some (b, k') →
  calls k' = if (p && b)%bool then calls k ++ [c] else calls k.
Proof.
  destruct p; [apply sys_mount_calls|]. intros [= <- <-]. done.
Qed.

Lemma land_contains a m : N.land a m = m ↔ ∀ i, N.testbit m i = true → N.testbit a i = true.
Proof.
  split.
  - intros E i Hi. rewrite <- E, N.land_spec in Hi. by apply andb_true_iff in Hi as [? _].
  - intros Ha. apply N.bits_inj. intros i. rewrite N.land_spec. destruct (N.testbit m i) eqn:E.
    + by rewrite Ha.
    + apply andb_false_r.
Qed.

(** a successful read-only bind mount ends read-only. When the options
    leave both the bind and the read-only bit set and [mount] succeeds, the
    last system call it made is the remount of the target with bind, read-only
    and remount set and no propagation bit: the kernel ignores the read-only
    flag of the first bind call. A failed call is the last one, and no
    propagation type is ever part of the first call. *)
Theorem bind_ro_is_remounted fst src opts target k k' :
  mount fst src opts target k = Some (Ok tt, k') →
  N.testbit (parse_options opts).1 12 = true → N.testbit (parse_options opts).1 0 = true →
  ∃ cs last, calls k' = cs ++ [mkMountCall None target None last None] ∧
    N.testbit last 12 = true ∧ N.testbit last 0 = true ∧ N.testbit last 5 = true ∧
    N.land last PROPAGATION_TYPES = 0%N.
Proof.
  unfold mount. destruct (parse_options opts) as [fl data]. simpl. intros E Hb Hr.
  assert (N.land (N.ldiff fl PROPAGATION_TYPES) MS_BIND_RO = MS_BIND_RO) as Hro.
  { apply land_contains. intros i Hi. rewrite N.ldiff_spec.
    assert (i = 12 ∨ i = 0)%N as [-> | ->]; [|by rewrite Hb|by rewrite Hr].
    destruct (decide (i < 13)%N) as [Hlt|Hge].
    - assert (i = 0 ∨ i = 1 ∨ i = 2 ∨ i = 3 ∨ i = 4 ∨ i = 5 ∨ i = 6 ∨ i = 7 ∨ i = 8 ∨ i = 9 ∨ i = 10 ∨ i = 11 ∨ i = 12)%N
        as Hi' by lia. destruct_or! Hi'; subst; vm_compute in Hi; try discriminate Hi; auto.
    - rewrite N.bits_above_log2 in Hi; [done|]. change (N.log2 MS_BIND_RO) with 12%N. lia. }
  case_bool_decide; [done|]. revert E.
  unfold mbind at 1, M_bind.
  match goal with |- match ?m with _ => _ end = _ → _ => destruct m as [[b1 k1]|] eqn:E1; [|done] end.
  destruct b1; simpl; [|done].
  unfold mbind at 1, M_bind.
  match goal with |- match ?m with _ => _ end = _ → _ => destruct m as [[b2 k2]|] eqn:E2; [|done] end.
  destruct b2; simpl; [|done].
  unfold mbind at 1, M_bind.
  match goal with |- match ?m with _ => _ end = _ → _ => destruct m as [[b3 k3]|] eqn:E3; [|done] end.
  destruct b3; simpl; [|done]. intros [= <-].
  apply guarded_mount_calls in E3. rewrite bool_decide_true in E3 by done. simpl in E3.
  eexists _, _. split; [exact E3|]. rewrite !N.lor_spec, !N.ldiff_spec, Hb, Hr.
  split_and!; [done..|by rewrite orb_true_r|].
  apply N.bits_inj. intros i. rewrite N.land_spec, N.lor_spec, N.ldiff_spec, N.bits_0.
  destruct (N.testbit PROPAGATION_TYPES i) eqn:Ei; [|by rewrite andb_false_r].
  rewrite andb_false_r, andb_true_r. simpl.
  destruct (N.testbit MS_REMOUNT i) eqn:E5; [|done].
  destruct (N.eqb_spec i 5) as [->|Hne]; [done|].
  change MS_REMOUNT with (2 ^ 5)%N in E5. by rewrite N.pow2_bits_false in E5.
Qed.

Lemma bind_ro_is_remounted_witness :
  ∃ k', mount None (Some "/src") ["bind"; "ro"; "rprivate"] "/dst" (mkKernel [] []) = Some (Ok tt, k') ∧
    ∃ cs last, calls k' = cs ++ [mkMountCall None "/dst" None last None].
Proof.
  destruct (mount None (Some "/src") ["bind"; "ro"; "rprivate"] "/dst" (mkKernel [] [])) as [[r k']|] eqn:E;
    [|exfalso; vm_compute in E; discriminate].
  assert (r = Ok tt) as -> by (vm_compute in E; injection E as <- _; reflexivity).
  exists k'. split; [reflexivity|].
  destruct (bind_ro_is_remounted None (Some "/src") ["bind"; "ro"; "rprivate"] "/dst" (mkKernel [] []) k' E)
    as (cs & last & Ec & _).
  - vm_compute. reflexivity.
  - vm_compute. reflexivity.
  - exists cs, last. exact Ec.
Defined.

(** ** Mount points *)
Definition is_parent_or_eq (parent child : string) : bool :=
  if bool_decide (parent = child) then true else
  if bool_decide (parent = "/") then true else
  starts_with child parent &&
  match String.get (String.length parent) child with Some b => bool_decide (b = "/"%char) | None => false end.

Record MountInfo := mkMountInfo { mi_mount_point : string; fs_type : string; mi_options : list string }.

Inductive MountInfoError := NoSeparator | LineFormat.

(** The index of the separator field, from field 6 on. *)
Definition separator (fields : list string) : option nat :=
  Nat.add 6 <$> position (λ f, bool_decide (f = "-")) (drop 6 fields).

Definition push_option (acc : list string) (o : string) : list string :=
  if bool_decide (o = "") then acc else if bool_decide (o ∈ acc) then acc else acc ++ [o].

Definition is_shared (f : string) : bool := starts_with f "shared:" || bool_decide (f = "shared").
Definition is_slave (f : string) : bool :=
  starts_with f "master:" || starts_with f "propagate_from:" || bool_decide (f = "slave").
(** the [else if] chain over one optional field *)
Definition propagation (l : list string) : string :=
  if existsb is_shared l then "shared"
  else if existsb (λ f, negb (is_shared f) && is_slave f) l then "slave"
  else if existsb (λ f, negb (is_shared f) && negb (is_slave f) && bool_decide (f = "unbindable")) l then "unbindable"
  else "private".

Definition line_info (fields : list string) : result MountInfo MountInfoError :=
  match separator fields with
  | None => Err NoSeparator
  | Some sep =>
      if bool_decide (length fields < sep + 4) then Err LineFormat else
      let field i := default "" (fields !! i) in
      let options := foldl push_option [] (split "," (field 5) ++ split "," (field (sep + 3))) in
      Ok (mkMountInfo (field 4) (field (sep + 1)) (options ++ [propagation (drop 6 (take sep fields))]))
  end.

Definition scan_line (path : string) (best : option MountInfo) (line : string)
  : result (option MountInfo) MountInfoError :=
  let fields := split_whitespace line in
  if bool_decide (length fields < 7) then Ok best else
  let mp := default "" (fields !! 4) in
  if negb (is_parent_or_eq mp path) then Ok best else
  if (match best with
      | Some prev => bool_decide (String.length mp ≤ String.length (mi_mount_point prev))
      | None => false
      end) then Ok best
  else match line_info fields with Ok mi => Ok (Some mi) | Err e => Err e end.

Fixpoint scan_lines (path : string) (best : option MountInfo) (l : list string)
  : result (option MountInfo) MountInfoError :=
  match l with
  | [] => Ok best
  | x :: l' => match scan_line path best x with Ok b => scan_lines path b l' | Err e => Err e end
  end.

Definition parse_mount_info_content (content path : string) : result (option MountInfo) MountInfoError :=
  scan_lines path None (lines content).

Definition get_mount_info (content : string) (path : string) : result (option MountInfo) MountInfoError :=
  if bool_decide (path = "") then Ok None else parse_mount_info_content content path.

Lemma get_app_length s t : String.get (String.length s) (s +:+ t) = String.get 0 t.
Proof. induction s; [done|]. simpl. done. Qed.

(** [is_parent_or_eq] is ancestry of paths, not of strings. *)
Lemma is_parent_or_eq_spec p c :
  is_parent_or_eq p c = true ↔ p = c ∨ p = "/" ∨ ∃ rest, c = p +:+ String "/" rest.
Proof.
  unfold is_parent_or_eq. case_bool_decide; [tauto|]. case_bool_decide; [tauto|].
  rewrite andb_true_iff, starts_with_spec. split.
  - intros [(t & ->) Hg]. rewrite get_app_length in Hg. destruct t as [|b t]; [done|]. simpl in Hg.
    case_bool_decide; [|done]. subst. eauto.
  - intros [|[|(rest & ->)]]; [done..|]. split; [eauto|]. by rewrite get_app_length.
Qed.

(** The mount points of the lines that are on the way to the path. *)
Definition candidate (path line mp : string) : Prop :=
  let fields := split_whitespace line in
  7 ≤ length fields ∧ fields !! 4 = Some mp ∧ is_parent_or_eq mp path = true.

Lemma line_info_mount_point fields mi :
  line_info fields = Ok mi → mi_mount_point mi = default "" (fields !! 4).
Proof. unfold line_info. destruct (separator fields); [|done]. case_bool_decide; [done|]. by intros [= <-]. Qed.

Lemma scan_lines_best path l best r :
  scan_lines path best l = Ok r →
  (∀ b, best = Some b → ∃ b', r = Some b' ∧ String.length (mi_mount_point b) ≤ String.length (mi_mount_point b')) ∧
  (∀ x mp, x ∈ l → candidate path x mp → ∃ b', r = Some b' ∧ String.length mp ≤ String.length (mi_mount_point b')) ∧
  (∀ b', r = Some b' → best = Some b' ∨ ∃ x, x ∈ l ∧ candidate path x (mi_mount_point b')).
Proof.
  revert best. induction l as [|x l IH]; intros best; simpl.
  - intros [= <-]. split_and!; [eauto| |by left]. intros x mp Hx. by apply elem_of_nil in Hx.
  - destruct (scan_line path best x) as [b1|] eqn:E; [|done]. intros Hr.
    destruct (IH _ Hr) as (Hbest & Hcand & Hsrc).
    assert ((∀ b, best = Some b → ∃ b', b1 = Some b' ∧ String.length (mi_mount_point b) ≤ String.length (mi_mount_point b')) ∧
            (∀ mp, candidate path x mp → ∃ b', b1 = Some b' ∧ String.length mp ≤ String.length (mi_mount_point b')) ∧
            (b1 = best ∨ ∃ b', b1 = Some b' ∧ candidate path x (mi_mount_point b'))) as (H1 & H2 & H3).
    { revert E. unfold scan_line, candidate. case_bool_decide as Hlen.
      { intros [= <-]. split_and!; [eauto| |by left]. intros mp [? _]. lia. }
      destruct (split_whitespace x !! 4) as [mp|] eqn:E4; [|apply lookup_ge_None in E4; lia]. simpl.
      destruct (is_parent_or_eq mp path) eqn:Ep; simpl.
      2:{ intros [= <-]. split_and!; [eauto| |by left]. intros mp' (_ & [= <-] & ?). congruence. }
      destruct best as [prev|].
      - case_bool_decide as Hle.
        + intros [= <-]. split_and!; [eauto| |by left]. intros mp' (_ & [= <-] & _). eauto.
        + destruct (line_info _) as [mi|] eqn:El; [|done]. intros [= <-].
          apply line_info_mount_point in El. rewrite E4 in El. simpl in El. split_and!.
          * intros b [= <-]. eexists. split; [done|]. rewrite El. lia.
          * intros mp' (_ & [= <-] & _). eexists. split; [done|]. by rewrite El.
          * right. eexists. split; [done|]. rewrite El. split; [lia|done].
      - destruct (line_info _) as [mi|] eqn:El; [|done]. intros [= <-].
        apply line_info_mount_point in El. rewrite E4 in El. simpl in El. split_and!.
        + done.
        + intros mp' (_ & [= <-] & _). eexists. split; [done|]. by rewrite El.
        + right. eexists. split; [done|]. rewrite El. split; [lia|done]. }
    split_and!.
    + intros b Hb. destruct (H1 b Hb) as (b' & -> & Hle). destruct (Hbest b' eq_refl) as (b'' & -> & Hle').
      eexists. split; [done|lia].
    + intros y mp [->|Hy]%elem_of_cons Hc; [|by eapply Hcand].
      destruct (H2 mp Hc) as (b' & -> & Hle). destruct (Hbest b' eq_refl) as (b'' & -> & Hle').
      eexists. split; [done|lia].
    + intros b' Hb'. destruct (Hsrc b' Hb') as [Hb|(y & Hy & Hc)].
      * destruct H3 as [->|(b2 & E2 & Hc)]; [by left|]. right. exists x. split; [by left|]. congruence.
      * right. exists y. split; [by right|done].
Qed.

(** Which mount a path is on. When the table parses, the answer is a mount
    point that is the path or an ancestor directory of it (never a mere string
    prefix), no line has a longer such mount point, and nothing is returned
    only when no line has one. *)
Theorem mount_info_longest content path r :
  parse_mount_info_content content path = Ok r →
  match r with
  | Some mi =>
      (mi_mount_point mi = path ∨ mi_mount_point mi = "/" ∨ ∃ rest, path = mi_mount_point mi +:+ String "/" rest) ∧
      ∀ x mp, x ∈ lines content → candidate path x mp → String.length mp ≤ String.length (mi_mount_point mi)
  | None => ∀ x mp, x ∈ lines content → ¬ candidate path x mp
  end.
Proof.
  intros E. destruct (scan_lines_best _ _ _ _ E) as (_ & Hc & Hs). destruct r as [mi|].
  - split.
    + destruct (Hs mi eq_refl) as [|(x & Hx & (_ & _ & Hp))]; [done|]. by apply is_parent_or_eq_spec.
    + intros x mp Hx Hcand. destruct (Hc x mp Hx Hcand) as (b' & [= <-] & ?). done.
  - intros x mp Hx Hcand. by destruct (Hc x mp Hx Hcand) as (b' & ? & _).
Qed.

Definition demo_mountinfo : string :=
  "21 20 98:0 / / rw,relatime shared:2 - ext4 /dev/vda2 rw" +:+ String "010" (
  "36 35 98:0 / /mnt/shared rw,relatime shared:1 - ext4 /dev/vda1 rw" +:+ String "010" "").

Lemma mount_info_longest_witness :
  parse_mount_info_content demo_mountinfo "/mnt/shared/sub" =
    Ok (Some (mkMountInfo "/mnt/shared" "ext4" ["rw"; "relatime"; "shared"])) ∧
  ∀ x mp, x ∈ lines demo_mountinfo → candidate "/mnt/shared/sub" x mp → String.length mp ≤ 11.
Proof.
  assert (parse_mount_info_content demo_mountinfo "/mnt/shared/sub" =
    Ok (Some (mkMountInfo "/mnt/shared" "ext4" ["rw"; "relatime"; "shared"]))) as E by (vm_compute; reflexivity).
  split; [exact E|]. exact (proj2 (mount_info_longest _ _ _ E)).
Defined.
