(* ===== verification/GuestFile.v ===== *)
(** * Files pushed into the guest

    [vmm/sandbox/src/storage/guest_file.rs]: validation and joining of guest
    paths, shell quoting, the scan of a host directory and the sequence of
    guest commands that recreates it. Paths are byte strings; the UTF-8 checks
    of the source always succeed on them. *)
From S2P Require Import Prelude Strs.

Inductive PathError := EmptyPath | EmptyComponent | UnsafeComponent | UnsafeChars | HasSeparator.

#[global] Instance PathError_eq_dec : EqDecision PathError.
Proof. solve_decision. Defined.

(** [std::path::Component] and [Path::components] on Unix. *)
Inductive Component := RootDir | CurDir | ParentDir | Normal (s : string).

Definition component_of (first : bool) (s : string) : list Component :=
  if bool_decide (s = "") then []
  else if bool_decide (s = ".") then (if first then [CurDir] else [])
  else if bool_decide (s = "..") then [ParentDir]
  else [Normal s].

Definition components (p : string) : list Component :=
  match split "/" p with
  | [] => []
  | x :: l =>
      (if starts_with p "/" then [RootDir] else []) ++
      component_of (negb (starts_with p "/")) x ++ mjoin (component_of false <$> l)
  end.

Definition safe_char (a : ascii) : bool :=
  is_ascii_alphanumeric a || bool_decide (a ∈ ["_"; "."; ":"; "-"]%char).

Definition validate_guest_component (c : string) : result unit PathError :=
  if bool_decide (c = "" ∨ c = "." ∨ c = "..") then Err UnsafeComponent
  else if all_chars safe_char c then Ok tt else Err UnsafeChars.

(** [for (index, component) in path.split('/').enumerate()] *)
Fixpoint raw_components (absolute : bool) (index : nat) (l : list string) : result unit PathError :=
  match l with
  | [] => Ok tt
  | c :: l' =>
      if bool_decide (c = "") then
        if (absolute && bool_decide (index = 0))%bool then raw_components absolute (S index) l' else Err EmptyComponent
      else if bool_decide (c = "." ∨ c = "..") then Err UnsafeComponent
      else raw_components absolute (S index) l'
  end.

Definition validate_raw_components (p : string) (allow_absolute : bool) : result unit PathError :=
  raw_components (allow_absolute && starts_with p "/") 0 (split "/" p).

Fixpoint check_components (root_ok : bool) (l : list Component) : result unit PathError :=
  match l with
  | [] => Ok tt
  | c :: l' =>
      match c with
      | RootDir => if root_ok then check_components root_ok l' else Err UnsafeComponent
      | Normal s => match validate_guest_component s with Ok _ => check_components root_ok l' | Err e => Err e end
      | _ => Err UnsafeComponent
      end
  end.

Definition validate_guest_path (p : string) : result unit PathError :=
  if bool_decide (p = "") then Err EmptyPath else
  match validate_raw_components p true with
  | Err e => Err e
  | Ok _ => check_components true (components p)
  end.

Definition validate_relative_guest_path (p : string) : result unit PathError :=
  match validate_raw_components p false with
  | Err e => Err e
  | Ok _ => check_components false (components p)
  end.

Definition push_component (path : string) (c : Component) : string :=
  match c with Normal s => path +:+ "/" +:+ s | _ => path end.

Definition join_guest_path (base rel : string) : result string PathError :=
  match validate_guest_path base with
  | Err e => Err e
  | Ok _ =>
      match validate_relative_guest_path rel with
      | Err e => Err e
      | Ok _ => Ok (foldl push_component (trim_end_char "/" base) (components rel))
      end
  end.

Definition join_guest_component (base c : string) : result string PathError :=
  match validate_guest_path base with
  | Err e => Err e
  | Ok _ =>
      if contains_char c "/" || contains_char c "\" then Err HasSeparator else
      match validate_guest_component c with
      | Err e => Err e
      | Ok _ => Ok (trim_end_char "/" base +:+ "/" +:+ c)
      end
  end.

(** [format!("'{}'", s.replace('\'', "'\\''"))] *)
Definition shell_quote (s : string) : string :=
  String "'" (replace_char "'" (String "'" (String "\" (String "'" (String "'" "")))) s) +:+ String "'" "".

(** ** Valid paths *)

(** The components of a valid path: no empty one, no dot, only safe bytes. *)
Definition safe_component (c : string) : Prop :=
  c ≠ "" ∧ c ≠ "." ∧ c ≠ ".." ∧ all_chars safe_char c = true.

Lemma validate_guest_component_ok c : validate_guest_component c = Ok tt ↔ safe_component c.
Proof.
  unfold validate_guest_component, safe_component. case_bool_decide as E.
  - split; [done|]. tauto.
  - destruct (all_chars safe_char c); split; try done; [intros _; tauto|by intros (_ & _ & _ & ?)].
Qed.

Lemma raw_components_tail i l :
  raw_components true (S i) l = Ok tt ↔ Forall (λ c, c ≠ "" ∧ c ≠ "." ∧ c ≠ "..") l.
Proof.
  revert i. induction l as [|c l IH]; intros i; simpl; [split; [constructor|done]|].
  rewrite Forall_cons. case_bool_decide as E; [split; [done|tauto]|].
  case_bool_decide as E'; [split; [done|tauto]|]. rewrite IH. tauto.
Qed.

Lemma raw_components_rel i l :
  raw_components false i l = Ok tt ↔ Forall (λ c, c ≠ "" ∧ c ≠ "." ∧ c ≠ "..") l.
Proof.
  revert i. induction l as [|c l IH]; intros i; simpl; [split; [constructor|done]|].
  rewrite Forall_cons. case_bool_decide as E; [split; [done|tauto]|].
  case_bool_decide as E'; [split; [done|tauto]|]. rewrite IH. tauto.
Qed.

Lemma component_of_plain b c : c ≠ "" ∧ c ≠ "." ∧ c ≠ ".." → component_of b c = [Normal c].
Proof. intros (?&?&?). unfold component_of. by rewrite !bool_decide_false. Qed.

Lemma components_plain l :
  Forall (λ c, c ≠ "" ∧ c ≠ "." ∧ c ≠ "..") l → mjoin (component_of false <$> l) = Normal <$> l.
Proof. induction 1 as [|c l Hc _ IH]; csimpl; [done|]. by rewrite component_of_plain, IH. Qed.

Lemma check_components_normal b l : check_components b (Normal <$> l) = Ok tt ↔ Forall (λ c, validate_guest_component c = Ok tt) l.
Proof.
  induction l as [|c l IH]; csimpl; [split; [constructor|done]|]. rewrite Forall_cons.
  destruct (validate_guest_component c) as [[]|]; [rewrite IH; tauto|]. split; [done|by intros []].
Qed.

Lemma starts_with_slash_cons p : starts_with p "/" = true ↔ ∃ t, p = String "/" t.
Proof. rewrite starts_with_spec. done. Qed.

Lemma starts_with_slash_safe p x l :
  split "/" p = x :: l → x ≠ "" → starts_with p "/" = false.
Proof.
  intros E Hx. destruct (starts_with p "/") eqn:Es; [|done]. apply starts_with_slash_cons in Es as [t ->].
  simpl in E. by injection E as <- _.
Qed.

(** A relative path is valid exactly when its components are safe. *)
Lemma relative_valid p :
  validate_relative_guest_path p = Ok tt ↔ Forall safe_component (split "/" p).
Proof.
  unfold validate_relative_guest_path, validate_raw_components. simpl.
  destruct (raw_components false 0 (split "/" p)) as [[]|e] eqn:Er.
  - apply raw_components_rel in Er. unfold components.
    destruct (split "/" p) as [|x l] eqn:E; [by apply split_not_nil in E|].
    pose proof Er as Er'. apply Forall_cons in Er' as [Hx Hl].
    rewrite (starts_with_slash_safe p x l E) by apply Hx. simpl.
    rewrite component_of_plain, components_plain by done. simpl app.
    change (Normal x :: (Normal <$> l)) with (Normal <$> x :: l). rewrite check_components_normal.
    apply Forall_iff. intros c. apply validate_guest_component_ok.
  - split; [done|]. intros Hs. assert (raw_components false 0 (split "/" p) = Ok tt); [|congruence].
    apply raw_components_rel. eapply Forall_impl; [exact Hs|]. intros c (?&?&?&?). done.
Qed.

(** The non-root components of a path string. *)
Definition body (p : string) : list string :=
  if starts_with p "/" then tail (split "/" p) else split "/" p.

Lemma absolute_or_relative_valid p :
  validate_guest_path p = Ok tt ↔ p ≠ "" ∧ Forall safe_component (body p).
Proof.
  unfold validate_guest_path. case_bool_decide as Hp; [split; [done|by intros []]|].
  unfold validate_raw_components, body. simpl. destruct (starts_with p "/") eqn:Es.
  - apply starts_with_slash_cons in Es as [t ->].
    assert (starts_with (String "/" t) "/" = true) as Es by (apply starts_with_slash_cons; eauto).
    assert (split "/" (String "/" t) = "" :: split "/" t) as E by done.
    unfold components. rewrite E, Es. simpl tail.
    change (raw_components true 0 ("" :: split "/" t)) with (raw_components true 1 (split "/" t)).
    destruct (raw_components true 1 (split "/" t)) as [[]|e] eqn:Er.
    + apply raw_components_tail in Er. rewrite components_plain by done.
      change (check_components true ([RootDir] ++ component_of (negb true) "" ++ (Normal <$> split "/" t)))
        with (check_components true (Normal <$> split "/" t)).
      rewrite check_components_normal. split.
      * intros Hc. split; [done|]. eapply Forall_impl; [exact Hc|]. intros c. apply validate_guest_component_ok.
      * intros [_ Hc]. eapply Forall_impl; [exact Hc|]. intros c. apply validate_guest_component_ok.
    + split; [done|]. intros [_ Hs]. assert (raw_components true 1 (split "/" t) = Ok tt); [|congruence].
      apply raw_components_tail. eapply Forall_impl; [exact Hs|]. intros c (?&?&?&?). done.
  - destruct (raw_components false 0 (split "/" p)) as [[]|e] eqn:Er.
    + apply raw_components_rel in Er. unfold components.
      destruct (split "/" p) as [|x l] eqn:E; [by apply split_not_nil in E|]. rewrite Es. simpl.
      pose proof Er as Er'. apply Forall_cons in Er' as [Hx Hl].
      rewrite component_of_plain, components_plain by done. simpl app.
      change (Normal x :: (Normal <$> l)) with (Normal <$> x :: l). rewrite check_components_normal.
      split.
      * intros Hc. split; [done|]. eapply Forall_impl; [exact Hc|]. intros c. apply validate_guest_component_ok.
      * intros [_ Hc]. eapply Forall_impl; [exact Hc|]. intros c. apply validate_guest_component_ok.
    + split; [done|]. intros [_ Hs]. assert (raw_components false 0 (split "/" p) = Ok tt); [|congruence].
      apply raw_components_rel. eapply Forall_impl; [exact Hs|]. intros c (?&?&?&?). done.
Qed.

(** ** Joining *)
Lemma trim_end_char_id c s : last (split c s) ≠ Some "" → trim_end_char c s = s.
Proof.
  induction s as [|a s IH]; [done|]. intros Hl. cbn [trim_end_char].
  cbn [split] in Hl. case_decide as E.
  - destruct (split c s) as [|x l] eqn:Es; [by apply split_not_nil in Es|].
    rewrite IH by (by destruct l). destruct s; [simpl in Es; injection Es as <- <-; done|done].
  - destruct (split c s) as [|x l] eqn:Es; [by apply split_not_nil in Es|].
    destruct s as [|b s].
    + done.
    + rewrite IH; [done|]. destruct l as [|y l]; [|done]. simpl. intros [= ->].
      clear - Es. cbn [split] in Es. case_decide; [|by destruct (split c s)].
      injection Es as Es. by apply split_not_nil in Es.
Qed.

Lemma body_last p : p ≠ "" → Forall safe_component (body p) → last (split "/" p) ≠ Some "".
Proof.
  unfold body. intros Hp Hs Hl. assert ("" ∈ split "/" p) as Hin by by apply last_Some_elem_of.
  destruct (starts_with p "/") eqn:Es.
  - apply starts_with_slash_cons in Es as [t ->].
    assert (split "/" (String "/" t) = "" :: split "/" t) as E by done. rewrite E in *. simpl tail in Hs.
    destruct (split "/" t) as [|x l] eqn:Et; [by apply split_not_nil in Et|].
    assert ("" ∈ x :: l) as Hin' by (apply last_Some_elem_of; exact Hl).
    rewrite Forall_forall in Hs. by destruct (Hs "" Hin').
  - rewrite Forall_forall in Hs. by destruct (Hs "" Hin).
Qed.

Lemma push_components base l :
  foldl push_component base (Normal <$> l) = foldl (λ p c, p +:+ "/" +:+ c) base l.
Proof. revert base. induction l as [|c l IH]; intros base; csimpl; [done|apply IH]. Qed.

Lemma foldl_join base l :
  l ≠ [] → foldl (λ p c, p +:+ "/" +:+ c) base l = base +:+ "/" +:+ join "/" l.
Proof.
  revert base. induction l as [|c l IH]; intros base Hl; [done|]. simpl.
  destruct l as [|d l]; [done|]. rewrite IH by done. by rewrite !app_assoc_str.
Qed.

Lemma relative_components p :
  Forall safe_component (split "/" p) → components p = Normal <$> split "/" p.
Proof.
  intros Hs. unfold components. destruct (split "/" p) as [|x l] eqn:E; [by apply split_not_nil in E|].
  apply Forall_cons in Hs as [Hx Hl].
  rewrite (starts_with_slash_safe p x l E) by apply Hx. simpl.
  rewrite component_of_plain by (by destruct Hx as (?&?&?&?)). rewrite components_plain; [done|].
  eapply Forall_impl; [exact Hl|]. intros c (?&?&?&?). done.
Qed.

Lemma body_app base rel :
  base ≠ "" → body (base +:+ String "/" rel) = body base ++ split "/" rel.
Proof.
  intros Hb. unfold body.
  assert (starts_with (base +:+ String "/" rel) "/" = starts_with base "/") as ->.
  { destruct base as [|a base]; [done|]. unfold starts_with. simpl. by case_decide. }
  rewrite split_app. destruct (starts_with base "/"); [|done].
  destruct (split "/" base) eqn:E; [by apply split_not_nil in E|done].
Qed.

(** Joining guest paths cannot escape. The join succeeds exactly when the
    base is a valid guest path and every component of the relative path is
    safe; the result is then the base, a slash and the relative path, and is
    itself valid: no [.], [..] or empty component and no byte outside the
    allow-list. *)
Theorem join_guest_path_safe base rel p :
  join_guest_path base rel = Ok p ↔
  validate_guest_path base = Ok tt ∧ Forall safe_component (split "/" rel) ∧
  p = base +:+ "/" +:+ rel ∧ validate_guest_path p = Ok tt.
Proof.
  unfold join_guest_path. destruct (validate_guest_path base) as [[]|e] eqn:Eb; [|split; [done|by intros []]].
  apply absolute_or_relative_valid in Eb as [Hb Hs].
  destruct (validate_relative_guest_path rel) as [[]|e] eqn:Er.
  2:{ split; [done|]. intros (_ & Hr & _). apply relative_valid in Hr. congruence. }
  apply relative_valid in Er. rewrite relative_components by done.
  rewrite trim_end_char_id by by apply body_last.
  rewrite push_components, foldl_join by apply split_not_nil.
  change "/" with (String "/" "") at 2. rewrite join_split. split.
  - intros [= <-]. split_and!; [done..|]. apply absolute_or_relative_valid. split; [by destruct base|].
    change ("/" +:+ rel) with (String "/" rel). rewrite body_app by done. by apply Forall_app.
  - intros (_ & _ & -> & _). done.
Qed.

(** ** Quoting *)

(** How a POSIX shell reads one word: text in single quotes is literal, a
    backslash outside quotes makes the next byte literal; any other unquoted
    byte could be an operator or an expansion, and is refused. *)
Fixpoint sh_word (quoted : bool) (s : string) : option string :=
  match s with
  | "" => if quoted then None else Some ""
  | String a s' =>
      if quoted then
        if bool_decide (a = "'"%char) then sh_word false s' else String a <$> sh_word true s'
      else
        if bool_decide (a = "'"%char) then sh_word true s'
        else if bool_decide (a = "\"%char) then
          match s' with "" => None | String b s'' => String b <$> sh_word false s'' end
        else None
  end.

(** Quoting defeats the shell. Whatever bytes a path has, the shell reads
    its quoted form as one literal word that is the path. *)
Theorem shell_quote_roundtrip s : sh_word false (shell_quote s) = Some s.
Proof.
  unfold shell_quote. change (sh_word false (String "'" ?x +:+ ?y)) with (sh_word true (x +:+ y)).
  assert (∀ s, sh_word true (replace_char "'" (String "'" (String "\" (String "'" (String "'" "")))) s +:+ String "'" "") = Some s) as H.
  { clear. induction s as [|a s IH]; [done|]. simpl. case_decide as E; simpl.
    - subst. by rewrite IH.
    - rewrite bool_decide_false by done. by rewrite IH. }
  apply H.
Qed.
