(* ===== verification/GuestScan.v ===== *)
(** * Scanning a host directory and recreating it in the guest

    [scan_dir] and [GuestFileInjector] of
    [vmm/sandbox/src/storage/guest_file.rs]. The host directory is a tree of
    nodes; the scan is the source's loop over a stack of directories still to
    be read. Guest commands go to a log, with an answer for each. *)
From S2P Require Import Prelude Strs GuestFile.

(** What [read_dir] and [file_type] can find. A directory may be unreadable. *)
Inductive Node :=
  | NFile (mode len : N)
  | NDir (readable : bool) (entries : list (string * Node))
  | NSymlink
  | NSpecial.

Record ScannedDir := mkScan {
  file_count : nat;
  total_bytes : N;
  sc_dirs : list string;                    (** relative paths *)
  sc_files : list (string * N);             (** relative path, mode *)
  sc_symlinks : list string
}.

Inductive ScanError := ReadDirFailed | SpecialFile | OutOfFuel.

Definition rel_join (cur name : string) : string :=
  if bool_decide (cur = "") then name else cur +:+ "/" +:+ name.

(** A directory on the stack: its relative path and what [read_dir] gives. *)
Abbreviation Frame := (string * (bool * list (string * Node)))%type.

(** The body of the inner loop. *)
Definition scan_entry (cur : string) (acc : ScannedDir * list Frame) (e : string * Node)
  : result (ScannedDir * list Frame) ScanError :=
  let '(s, stack) := acc in
  let rel := rel_join cur e.1 in
  match e.2 with
  | NDir r es =>
      Ok (mkScan (file_count s) (total_bytes s) (sc_dirs s ++ [rel]) (sc_files s) (sc_symlinks s),
          (rel, (r, es)) :: stack)
  | NFile mode len =>
      Ok (mkScan (file_count s + 1) (uwrap 64 (total_bytes s + len)) (sc_dirs s)
            (sc_files s ++ [(rel, N.land mode 511)]) (sc_symlinks s), stack)
  | NSymlink =>
      Ok (mkScan (file_count s + 1) (total_bytes s) (sc_dirs s) (sc_files s) (sc_symlinks s ++ [rel]), stack)
  | NSpecial => Err SpecialFile
  end.

Fixpoint scan_entries (cur : string) (acc : ScannedDir * list Frame) (es : list (string * Node))
  : result (ScannedDir * list Frame) ScanError :=
  match es with
  | [] => Ok acc
  | e :: es' => match scan_entry cur acc e with Ok a => scan_entries cur a es' | Err x => Err x end
  end.

(** [while let Some(current) = stack.pop()] *)
Fixpoint scan_loop (fuel : nat) (stack : list Frame) (s : ScannedDir) : result ScannedDir ScanError :=
  match fuel with
  | 0 => Err OutOfFuel
  | S fuel =>
      match stack with
      | [] => Ok s
      | (cur, (readable, es)) :: stack' =>
          if negb readable then Err ReadDirFailed else
          match scan_entries cur (s, stack') es with
          | Ok (s', stack'') => scan_loop fuel stack'' s'
          | Err x => Err x
          end
      end
  end.

(** The number of directories of a tree, the bound on the iterations. *)
Fixpoint node_dirs (n : Node) : nat :=
  match n with
  | NDir _ es => S ((fix go es := match es with [] => 0 | (_, k) :: es' => node_dirs k + go es' end) es)
  | _ => 0
  end.

Definition scan_dir (root : bool * list (string * Node)) : result ScannedDir ScanError :=
  scan_loop (S (node_dirs (NDir root.1 root.2))) [("", root)] (mkScan 0 0 [] [] []).

(** ** The tree by recursion *)
Fixpoint node_files (p : string) (n : Node) : list (string * N) :=
  match n with
  | NFile m _ => [(p, N.land m 511)]
  | NDir _ es =>
      (fix go es := match es with [] => [] | (x, k) :: es' => node_files (rel_join p x) k ++ go es' end) es
  | _ => []
  end.

Fixpoint node_bytes (n : Node) : N :=
  match n with
  | NFile _ l => l
  | NDir _ es => (fix go es := match es with [] => 0 | (_, k) :: es' => node_bytes k + go es' end)%N es
  | _ => 0
  end.

Fixpoint node_links (n : Node) : nat :=
  match n with
  | NSymlink => 1
  | NDir _ es => (fix go es := match es with [] => 0 | (_, k) :: es' => node_links k + go es' end) es
  | _ => 0
  end.

Fixpoint node_ok (n : Node) : bool :=
  match n with
  | NSpecial => false
  | NDir r es => r && (fix go es := match es with [] => true | (_, k) :: es' => node_ok k && go es' end) es
  | _ => true
  end.

Definition frame_node (f : Frame) : Node := NDir f.2.1 f.2.2.

Definition stack_files (st : list Frame) : list (string * N) := mjoin ((λ f, node_files f.1 (frame_node f)) <$> st).
Definition stack_bytes (st : list Frame) : N := foldr (λ f n, (node_bytes (frame_node f) + n)%N) 0%N st.
Definition stack_links (st : list Frame) : nat := nat_sum ((λ f, node_links (frame_node f)) <$> st).
Definition stack_dirs (st : list Frame) : nat := nat_sum ((λ f, node_dirs (frame_node f)) <$> st).
Definition stack_ok (st : list Frame) : bool := forallb (λ f, node_ok (frame_node f)) st.

(** What a scan in progress will have found. *)
Record accounts (s : ScannedDir) (st : list Frame) (files : list (string * N)) (bytes : N) (links : nat) : Prop := {
  ac_files : sc_files s ++ stack_files st ≡ₚ files;
  ac_bytes : uwrap 64 (total_bytes s + stack_bytes st) = uwrap 64 bytes;
  ac_wrapped : uwrap 64 (total_bytes s) = total_bytes s;
  ac_links : length (sc_symlinks s) + stack_links st = links;
  ac_count : file_count s = length (sc_files s) + length (sc_symlinks s)
}.

Definition entries_files cur es := mjoin ((λ e : string * Node, node_files (rel_join cur e.1) e.2) <$> es).
Definition entries_bytes (es : list (string * Node)) : N := foldr (λ e n, (node_bytes e.2 + n)%N) 0%N es.
Definition entries_links (es : list (string * Node)) : nat := nat_sum ((λ e, node_links e.2) <$> es).
Definition entries_dirs (es : list (string * Node)) : nat := nat_sum ((λ e, node_dirs e.2) <$> es).
Definition entries_ok (es : list (string * Node)) : bool := forallb (λ e, node_ok e.2) es.

Lemma node_dir_unfold cur r es :
  node_files cur (NDir r es) = entries_files cur es ∧ node_bytes (NDir r es) = entries_bytes es ∧
  node_links (NDir r es) = entries_links es ∧ node_dirs (NDir r es) = S (entries_dirs es) ∧
  node_ok (NDir r es) = r && entries_ok es.
Proof.
  unfold entries_files, entries_bytes, entries_links, entries_dirs, entries_ok. cbn.
  induction es as [|[x k] es (F & B & L & D & O)]; [done|]. csimpl. split_and!.
  - by rewrite <- F.
  - by rewrite <- B.
  - by rewrite <- L.
  - injection D as ->. done.
  - destruct r; simpl in *; [|done]. by rewrite <- O.
Qed.

Lemma stack_cons p r es st :
  stack_files ((p, (r, es)) :: st) = node_files p (NDir r es) ++ stack_files st ∧
  stack_bytes ((p, (r, es)) :: st) = (node_bytes (NDir r es) + stack_bytes st)%N ∧
  stack_links ((p, (r, es)) :: st) = node_links (NDir r es) + stack_links st ∧
  stack_dirs ((p, (r, es)) :: st) = node_dirs (NDir r es) + stack_dirs st ∧
  stack_ok ((p, (r, es)) :: st) = node_ok (NDir r es) && stack_ok st.
Proof. done. Qed.

Lemma entries_cons cur x k es :
  entries_files cur ((x, k) :: es) = node_files (rel_join cur x) k ++ entries_files cur es ∧
  entries_bytes ((x, k) :: es) = (node_bytes k + entries_bytes es)%N ∧
  entries_links ((x, k) :: es) = node_links k + entries_links es ∧
  entries_dirs ((x, k) :: es) = node_dirs k + entries_dirs es.
Proof. done. Qed.

Lemma scan_entries_accounts cur es s st :
  entries_ok es = true →
  ∃ s' st', scan_entries cur (s, st) es = Ok (s', st') ∧
    stack_dirs st' = stack_dirs st + entries_dirs es ∧
    (stack_ok st = true → stack_ok st' = true) ∧
    ∀ files bytes links,
      accounts s st files bytes links →
      accounts s' st' (files ++ entries_files cur es) (bytes + entries_bytes es)%N (links + entries_links es).
Proof.
  revert s st. induction es as [|[x k] es IH]; intros s st Hok; cbn [scan_entries].
  - exists s, st. split; [done|]. split; [unfold entries_dirs; simpl; lia|]. split; [done|].
    intros files bytes links Ha. unfold entries_files, entries_bytes, entries_links. simpl.
    by rewrite app_nil_r, N.add_0_r, Nat.add_0_r.
  - apply andb_true_iff in Hok as [Hk Hok]. simpl in Hk. unfold scan_entry. cbn [fst snd].
    destruct (entries_cons cur x k es) as (G1 & G2 & G3 & G4). rewrite G1, G2, G3, G4. clear G1 G2 G3 G4.
    destruct k as [mode len|r es'| |]; [| | |done].
    + match goal with |- context [scan_entries cur (?s1, ?st1) es] =>
        destruct (IH s1 st1 Hok) as (s' & st' & E & Hd & Ho & Ha) end. exists s', st'. split; [exact E|].
      split; [rewrite Hd; simpl; lia|]. split; [done|]. intros files bytes links Hac.
      destruct (Ha (files ++ [(rel_join cur x, N.land mode 511)]) (bytes + len)%N links) as [A1 A2 A3 A4 A5].
      { destruct Hac as [B1 B2 B3 B4 B5]. split; simpl.
        - rewrite <- B1, <- !app_assoc. f_equiv. apply Permutation_app_comm.
        - rewrite uwrap_add_l. rewrite <- (uwrap_add_l 64 bytes), <- B2, uwrap_add_l. f_equal. lia.
        - apply uwrap_small, uwrap_lt.
        - done.
        - rewrite length_app. simpl. lia. }
      split; try done.
      * by rewrite <- app_assoc in A1.
      * by rewrite N.add_assoc.
    + destruct (node_dir_unfold (rel_join cur x) r es') as (F & B & L & D & O).
      match goal with |- context [scan_entries cur (?s1, ?st1) es] =>
        destruct (IH s1 st1 Hok) as (s' & st' & E & Hd & Ho & Ha) end.
      exists s', st'. split; [exact E|]. destruct (stack_cons (rel_join cur x) r es' st) as (_ & _ & _ & F4 & F5).
      split; [rewrite Hd, F4; lia|].
      split; [intros Hst; apply Ho; rewrite F5; by apply andb_true_iff|]. intros files bytes links Hac.
      destruct (Ha (files ++ node_files (rel_join cur x) (NDir r es')) (bytes + node_bytes (NDir r es'))%N
        (links + node_links (NDir r es'))) as [A1 A2 A3 A4 A5].
      { destruct (stack_cons (rel_join cur x) r es' st) as (F1 & F2 & F3 & _).
        destruct Hac as [B1 B2 B3 B4 B5]. split; [rewrite F1|rewrite F2|done|rewrite F3|done];
          cbn [sc_files total_bytes sc_symlinks].
        - rewrite <- B1, <- !app_assoc. f_equiv. apply Permutation_app_comm.
        - rewrite <- (uwrap_add_l 64 bytes), <- B2, uwrap_add_l. f_equal. lia.
        - lia. }
      split; try done.
      * by rewrite <- app_assoc in A1.
      * by rewrite N.add_assoc.
      * lia.
    + match goal with |- context [scan_entries cur (?s1, ?st1) es] =>
        destruct (IH s1 st1 Hok) as (s' & st' & E & Hd & Ho & Ha) end. exists s', st'. split; [exact E|].
      split; [rewrite Hd; simpl; lia|]. split; [done|]. intros files bytes links Hac.
      destruct (Ha files bytes (links + 1)) as [A1 A2 A3 A4 A5].
      { destruct Hac as [B1 B2 B3 B4 B5]. split; simpl; try done; rewrite length_app; simpl; lia. }
      split; try done. simpl. lia.
Qed.

Lemma scan_entries_error cur es s st :
  entries_ok es = false →
  (∃ s' st', scan_entries cur (s, st) es = Ok (s', st') ∧ stack_ok st' = false) ∨
  scan_entries cur (s, st) es = Err SpecialFile.
Proof.
  assert (∀ es s st, stack_ok st = false →
    (∃ s' st', scan_entries cur (s, st) es = Ok (s', st') ∧ stack_ok st' = false) ∨
    scan_entries cur (s, st) es = Err SpecialFile) as Hbad.
  { clear. induction es as [|[x k] es IH]; intros s st Hb; cbn [scan_entries]; [left; eauto|].
    unfold scan_entry. cbn [fst snd]. destruct k; [by apply IH| |by apply IH|by right].
    apply IH. cbn [stack_ok forallb]. fold (stack_ok st). by rewrite Hb, andb_false_r. }
  revert s st. induction es as [|[x k] es IH]; intros s st Hok; [done|].
  cbn [scan_entries]. unfold scan_entry. cbn [fst snd].
  cbn [entries_ok forallb] in Hok. fold (entries_ok es) in Hok. cbn [snd] in Hok.
  destruct k as [m l|r es'| |]; [by apply IH| |by apply IH|by right].
  destruct (node_ok (NDir r es')) eqn:Ek; [by apply IH|].
  apply Hbad. destruct (stack_cons (rel_join cur x) r es' st) as (_ & _ & _ & _ & ->). by rewrite Ek.
Qed.

Lemma scan_loop_spec fuel st s files bytes links :
  stack_dirs st < fuel → accounts s st files bytes links → stack_ok st = true →
  ∃ s', scan_loop fuel st s = Ok s' ∧ accounts s' [] files bytes links.
Proof.
  revert st s files bytes links. induction fuel as [|fuel IH]; intros st s files bytes links Hf Ha Hok; [lia|].
  cbn [scan_loop]. destruct st as [|[cur [r es]] st]; [eauto|].
  destruct (stack_cons cur r es st) as (F1 & F2 & F3 & F4 & F5).
  destruct (node_dir_unfold cur r es) as (N1 & N2 & N3 & N4 & N5).
  assert (node_ok (NDir r es) && stack_ok st = true) as Hok' by exact Hok. rewrite N5 in Hok'.
  apply andb_true_iff in Hok' as [[-> He]%andb_true_iff Hst]. simpl negb. cbn iota.
  destruct (scan_entries_accounts cur es s st He) as (s' & st' & E & Hd & Ho & Hacc). rewrite E.
  apply IH; [rewrite F4, N4 in Hf; lia| |by apply Ho].
  destruct Ha as [A1 A2 A3 A4 A5]. rewrite F1, N1 in A1. rewrite F2, N2 in A2. rewrite F3, N3 in A4.
  destruct (Hacc (sc_files s ++ stack_files st) (total_bytes s + stack_bytes st)%N
    (length (sc_symlinks s) + stack_links st)) as [B1 B2 B3 B4 B5]; [by split|].
  split; [| |done|lia|done].
  - rewrite B1, <- A1, <- app_assoc. f_equiv. apply Permutation_app_comm.
  - rewrite B2, <- A2. f_equal. lia.
Qed.

Lemma scan_loop_error fuel st s :
  stack_dirs st < fuel → stack_ok st = false → ∃ e, scan_loop fuel st s = Err e ∧ e ≠ OutOfFuel.
Proof.
  revert st s. induction fuel as [|fuel IH]; intros st s Hf Hok; [lia|].
  cbn [scan_loop]. destruct st as [|[cur [r es]] st]; [done|].
  destruct (stack_cons cur r es st) as (_ & _ & _ & F4 & F5).
  destruct (node_dir_unfold cur r es) as (_ & _ & _ & N4 & N5).
  destruct r; simpl negb; cbn iota; [|eexists; split; done].
  destruct (entries_ok es) eqn:He.
  - destruct (scan_entries_accounts cur es s st He) as (s' & st' & E & Hd & _ & _). rewrite E.
    rewrite F5, N5 in Hok. simpl in Hok. apply IH; [rewrite F4, N4 in Hf; lia|].
    clear - Hok E. revert s st Hok E. induction es as [|[x k] es IHe]; intros s st Hok E; cbn [scan_entries] in E.
    + by injection E as _ <-.
    + unfold scan_entry in E. cbn [fst snd] in E. destruct k; [by eapply IHe| |by eapply IHe|done].
      eapply IHe; [|exact E]. cbn [stack_ok forallb]. fold (stack_ok st). by rewrite Hok, andb_false_r.
  - destruct (scan_entries_error cur es s st He) as [(s' & st' & E & Hb)|E]; rewrite E.
    + assert (stack_dirs st' = stack_dirs st + entries_dirs es) as Hd; [|apply IH; [rewrite F4, N4 in Hf; lia|done]].
      clear - E. revert s st E. induction es as [|[x k] es IHe]; intros s st E; cbn [scan_entries] in E.
      * injection E as _ <-. unfold entries_dirs. simpl. lia.
      * destruct (entries_cons cur x k es) as (_ & _ & _ & ->).
        unfold scan_entry in E. cbn [fst snd] in E. destruct k as [m l|r es'| |]; [| | |done].
        -- rewrite (IHe _ _ E). simpl. lia.
        -- rewrite (IHe _ _ E). destruct (stack_cons (rel_join cur x) r es' st) as (_ & _ & _ & -> & _). lia.
        -- rewrite (IHe _ _ E). simpl. lia.
    + eexists. split; done.
Qed.

(** The directory scan. The loop over the stack ends on every tree: it
    visits each directory once. On a tree without special files and unreadable
    directories it finds exactly the files of the recursive traversal (with
    the permission bits of their modes), their total size modulo [2^64], and
    counts files and symlinks; on any other tree it fails. *)
Theorem scan_dir_spec r es :
  if node_ok (NDir r es) then
    ∃ s, scan_dir (r, es) = Ok s ∧ sc_files s ≡ₚ node_files "" (NDir r es) ∧
      total_bytes s = uwrap 64 (node_bytes (NDir r es)) ∧
      file_count s = length (node_files "" (NDir r es)) + node_links (NDir r es)
  else ∃ e, scan_dir (r, es) = Err e ∧ e ≠ OutOfFuel.
Proof.
  unfold scan_dir. cbn [fst snd]. destruct (stack_cons "" r es []) as (F1 & F2 & F3 & F4 & F5).
  destruct (node_ok (NDir r es)) eqn:Eok.
  - destruct (scan_loop_spec (S (node_dirs (NDir r es))) [("", (r, es))] (mkScan 0 0 [] [] [])
      (node_files "" (NDir r es)) (node_bytes (NDir r es)) (node_links (NDir r es))) as (s & E & [A1 A2 A3 A4 A5]).
    + rewrite F4. unfold stack_dirs. simpl nat_sum. lia.
    + split.
      * rewrite F1. cbn [sc_files app]. unfold stack_files. simpl. by rewrite app_nil_r.
      * rewrite F2. cbn [total_bytes]. unfold stack_bytes. simpl foldr. f_equal. lia.
      * done.
      * rewrite F3. unfold stack_links. simpl nat_sum. simpl length. lia.
      * done.
    + rewrite F5, ?Eok. done.
    + exists s. split; [exact E|]. unfold stack_files, stack_bytes, stack_links in *.
      simpl mjoin in A1. rewrite app_nil_r in A1. simpl foldr in A2. rewrite N.add_0_r, A3 in A2.
      simpl nat_sum in A4. rewrite Nat.add_0_r in A4.
      split_and!; [done|done|]. by rewrite A5, A1, A4.
  - apply scan_loop_error; [rewrite F4; unfold stack_dirs; simpl nat_sum; lia|]. by rewrite F5, ?Eok.
Qed.

(** ** Injection *)
Record GuestCmd := mkGuestCmd { g_command : string; g_stdin : string }.
Record GuestLog := mkGuestLog { sent : list GuestCmd; replies : list bool }.

Inductive InjectError := IPath (e : PathError) | ISymlink | IExec | IReadFile.

(** [exec_request]: every request reaches the log, also one that fails. *)
Definition exec_request (c : GuestCmd) : M GuestLog bool := λ g,
  match replies g with
  | [] => Some (true, mkGuestLog (sent g ++ [c]) [])
  | b :: l => Some (b, mkGuestLog (sent g ++ [c]) l)
  end.

Definition ensure_dir (dest : string) : M GuestLog (result unit InjectError) :=
  match validate_guest_path dest with
  | Err e => mret (Err (IPath e))
  | Ok _ =>
      b ← exec_request (mkGuestCmd ("mkdir -p " +:+ shell_quote dest) "");
      mret (if b : bool then Ok tt else Err IExec)
  end.

(** [Path::parent] of a path without trailing slash. *)
Definition path_parent (p : string) : string :=
  match rev (split "/" p) with
  | _ :: l => match rev l with [""] => "/" | k => join "/" k end
  | [] => ""
  end.

(** [{:o}] *)
Fixpoint octal_fuel (fuel : nat) (n : N) : string :=
  match fuel with
  | 0 => ""
  | S fuel =>
      if (n <? 8)%N then String (ascii_of_N (48 + n)) ""
      else octal_fuel fuel (n / 8) +:+ String (ascii_of_N (48 + n mod 8)) ""
  end.
Definition octal (n : N) : string := octal_fuel 22 n.

Definition push_file (dest content : string) (mode : N) : M GuestLog (result unit InjectError) :=
  match validate_guest_path dest with
  | Err e => mret (Err (IPath e))
  | Ok _ =>
      match validate_guest_path (path_parent dest) with
      | Err e => mret (Err (IPath e))
      | Ok _ =>
          b ← exec_request (mkGuestCmd
                ("mkdir -p " +:+ shell_quote (path_parent dest) +:+ " && cat > " +:+ shell_quote dest
                 +:+ " && chmod " +:+ octal mode +:+ " " +:+ shell_quote dest) content);
          mret (if b : bool then Ok tt else Err IExec)
      end
  end.

Section inject.
(** [tokio::fs::read] of a scanned host file *)
Variable read_host : string → option string.

Fixpoint inject_dirs (dest : string) (l : list string) : M GuestLog (result unit InjectError) :=
  match l with
  | [] => mret (Ok tt)
  | rel :: l' =>
      match join_guest_path dest rel with
      | Err e => mret (Err (IPath e))
      | Ok p => r ← ensure_dir p; match r with Ok _ => inject_dirs dest l' | Err e => mret (Err e) end
      end
  end.

Fixpoint inject_files (dest : string) (l : list (string * N)) : M GuestLog (result unit InjectError) :=
  match l with
  | [] => mret (Ok tt)
  | (rel, mode) :: l' =>
      match join_guest_path dest rel with
      | Err e => mret (Err (IPath e))
      | Ok p =>
          match read_host rel with
          | None => mret (Err IReadFile)
          | Some content =>
              r ← push_file p content mode;
              match r with Ok _ => inject_files dest l' | Err e => mret (Err e) end
          end
      end
  end.

Definition inject_from_scan (dest : string) (s : ScannedDir) : M GuestLog (result unit InjectError) :=
  match sc_symlinks s with
  | _ :: _ => mret (Err ISymlink)
  | [] =>
      r ← ensure_dir dest;
      match r with
      | Err e => mret (Err e)
      | Ok _ =>
          r ← inject_dirs dest (sc_dirs s);
          match r with
          | Err e => mret (Err e)
          | Ok _ => inject_files dest (sc_files s)
          end
      end
  end.

(** The commands the injector may send below [dest]. *)
Inductive confined (dest : string) : GuestCmd → Prop :=
  | confined_mkdir p :
      validate_guest_path p = Ok tt → p = dest ∨ (∃ rel, p = dest +:+ "/" +:+ rel) →
      confined dest (mkGuestCmd ("mkdir -p " +:+ shell_quote p) "")
  | confined_file p content mode :
      validate_guest_path p = Ok tt → (∃ rel, p = dest +:+ "/" +:+ rel) →
      confined dest (mkGuestCmd
        ("mkdir -p " +:+ shell_quote (path_parent p) +:+ " && cat > " +:+ shell_quote p
         +:+ " && chmod " +:+ octal mode +:+ " " +:+ shell_quote p) content).

Definition log_confined (dest : string) (g0 : list GuestCmd) (g : GuestLog) : Prop :=
  ∃ l, sent g = g0 ++ l ∧ Forall (confined dest) l.

Lemma exec_confined dest g0 c : confined dest c → preserves (log_confined dest g0) (exec_request c).
Proof.
  intros Hc g b g' (l & E & Hl). unfold exec_request.
  destruct (replies g); intros [= <- <-]; exists (l ++ [c]); simpl; (split; [by rewrite E, app_assoc|]);
    apply Forall_app; (split; [done|by constructor]).
Qed.

Lemma ensure_dir_confined dest g0 p :
  p = dest ∨ (∃ rel, p = dest +:+ "/" +:+ rel) → preserves (log_confined dest g0) (ensure_dir p).
Proof.
  intros Hp. unfold ensure_dir. destruct (validate_guest_path p) as [[]|] eqn:E; [|apply preserves_ret].
  apply preserves_bind; [apply exec_confined; by constructor|]. intros. apply preserves_ret.
Qed.

Lemma push_file_confined dest g0 p content mode :
  (∃ rel, p = dest +:+ "/" +:+ rel) → preserves (log_confined dest g0) (push_file p content mode).
Proof.
  intros Hp. unfold push_file. destruct (validate_guest_path p) as [[]|] eqn:E; [|apply preserves_ret].
  destruct (validate_guest_path (path_parent p)); [|apply preserves_ret].
  apply preserves_bind; [apply exec_confined; by constructor|]. intros. apply preserves_ret.
Qed.

Lemma join_below base rel p : join_guest_path base rel = Ok p → ∃ r, p = base +:+ "/" +:+ r.
Proof.
  unfold join_guest_path. destruct (validate_guest_path base) as [[]|] eqn:Eb; [|done].
  apply absolute_or_relative_valid in Eb as [Hb Hs].
  destruct (validate_relative_guest_path rel) as [[]|] eqn:Er; [|done].
  apply relative_valid in Er. rewrite relative_components by done.
  rewrite trim_end_char_id by by apply body_last.
  rewrite push_components, foldl_join by apply split_not_nil. intros [= <-]. eauto.
Qed.

(** Injection is confined. Whatever the scanned names are and whichever
    guest command fails, every command sent to the guest is one of the two
    forms, on a valid path that is the destination or below it, quoted. *)
Theorem inject_confined dest s g r g' :
  inject_from_scan dest s g = Some (r, g') →
  ∃ l, sent g' = sent g ++ l ∧ Forall (confined dest) l.
Proof.
  assert (preserves (log_confined dest (sent g)) (inject_from_scan dest s)) as Hp.
  { unfold inject_from_scan. destruct (sc_symlinks s); [|apply preserves_ret].
    apply preserves_bind; [apply ensure_dir_confined; by left|]. intros [|]; [|apply preserves_ret].
    apply preserves_bind.
    - induction (sc_dirs s) as [|rel l IH]; simpl; [apply preserves_ret|].
      destruct (join_guest_path dest rel) as [p|] eqn:E; [|apply preserves_ret].
      apply preserves_bind; [apply ensure_dir_confined; right; by eapply join_below|].
      intros [|]; [apply IH|apply preserves_ret].
    - intros [|]; [|apply preserves_ret].
      induction (sc_files s) as [|[rel mode] l IH]; simpl; [apply preserves_ret|].
      destruct (join_guest_path dest rel) as [p|] eqn:E; [|apply preserves_ret].
      destruct (read_host rel); [|apply preserves_ret].
      apply preserves_bind; [apply push_file_confined; by eapply join_below|].
      intros [|]; [apply IH|apply preserves_ret]. }
  intros E. eapply Hp; [|exact E]. exists []. by rewrite app_nil_r.
Qed.
End inject.

Lemma inject_confined_witness :
  ∃ r g', inject_from_scan (λ _, Some "data") "/run/x" (mkScan 1 4 ["d"] [("d/f", 420%N)] []) (mkGuestLog [] []) = Some (r, g') ∧
    ∃ l, sent g' = [] ++ l ∧ Forall (confined "/run/x") l.
Proof.
  destruct (inject_from_scan (λ _, Some "data") "/run/x" (mkScan 1 4 ["d"] [("d/f", 420%N)] []) (mkGuestLog [] []))
    as [[r g']|] eqn:E; [|exfalso; vm_compute in E; discriminate].
  exists r, g'. split; [reflexivity|]. exact (inject_confined _ _ _ _ _ _ E).
Defined.

(** A file at the top of the guest's file system cannot be pushed: the parent
    of [/f] is [/], which the path check refuses as an empty component. *)
Lemma push_file_top_level : push_file "/f" "" 420 (mkGuestLog [] []) = Some (Err (IPath EmptyComponent), mkGuestLog [] []).
Proof. vm_compute. reflexivity. Qed.
