(* ===== verification/Frame.v ===== *)
(** * Framed messages

    [vmm/common/src/warmfork/message.rs]: the messages of the WarmFork
    injection protocol and their framing, a 4-byte big-endian length and a
    JSON body. [serde_json] is a third-party package: its promise is the class
    [MsgCodec]. Bytes are [N] below 256. *)
From S2P Require Import Prelude Strs.

Definition PROTOCOL_VERSION : string := "1".
Definition MAX_FRAME_LEN : N := 4 * 1024 * 1024.

Inductive RejectReason := ParseError | InvalidTaskId | ResourceExhausted.

Definition as_str (r : RejectReason) : string :=
  match r with
  | ParseError => "parse_error"
  | InvalidTaskId => "invalid_task_id"
  | ResourceExhausted => "resource_exhausted"
  end.

Record Capabilities := mkCapabilities { protocol_version : string; supported_features : list string }.

Inductive WorkloadMessage :=
  | CapabilitiesMsg (c : Capabilities)
  | Ready
  | Started
  | Reject (reason : RejectReason) (message : string)
  | CancelAck.

Record PreparePayload := mkPrepare {
  task_id : string;
  env_overrides : gmap string string;
  context : string
}.

Inductive SandboxerMessage :=
  | Prepare (p : PreparePayload)
  | Commit
  | Cancel (reason : string).

(** [serde_json::to_vec] and [from_slice] at a message type. *)
Class MsgCodec (T : Type) := {
  to_vec : T → list N;
  from_slice : list N → option T;
  to_vec_bytes : ∀ m, Forall (λ b, b < 256)%N (to_vec m);
  slice_roundtrip : ∀ m, from_slice (to_vec m) = Some m
}.

(** [u32::to_be_bytes] and [from_be_bytes] *)
Definition to_be_bytes (n : N) : list N :=
  [ (n / 2 ^ 24) `mod` 256; (n / 2 ^ 16) `mod` 256; (n / 2 ^ 8) `mod` 256; n `mod` 256 ]%N.
Definition from_be_bytes (l : list N) : N := foldl (λ acc b, acc * 256 + b)%N 0%N l.

Inductive FrameError := UnexpectedEof | TooLong (len : N) | InvalidJson.

(** [read_exact]: the bytes and the rest of the stream. *)
Definition read_exact (n : nat) (s : list N) : option (list N * list N) :=
  if bool_decide (n ≤ length s) then Some (take n s, drop n s) else None.

Section frame.
Context {T : Type} `{MsgCodec T}.

Definition write_framed_message (m : T) : list N :=
  to_be_bytes (uwrap 32 (N.of_nat (length (to_vec m)))) ++ to_vec m.

Definition read_framed_message (max_len : N) (s : list N) : result (T * list N) FrameError :=
  match read_exact 4 s with
  | None => Err UnexpectedEof
  | Some (len_buf, s1) =>
      let len := from_be_bytes len_buf in
      if (max_len <? len)%N then Err (TooLong len) else
      match read_exact (N.to_nat len) s1 with
      | None => Err UnexpectedEof
      | Some (body, s2) =>
          match from_slice body with
          | Some m => Ok (m, s2)
          | None => Err InvalidJson
          end
      end
  end.

(** [n] messages in a row. *)
Fixpoint read_messages (n : nat) (max_len : N) (s : list N) : result (list T * list N) FrameError :=
  match n with
  | 0 => Ok ([], s)
  | S n =>
      match read_framed_message max_len s with
      | Err e => Err e
      | Ok (m, s1) =>
          match read_messages n max_len s1 with Err e => Err e | Ok (l, s2) => Ok (m :: l, s2) end
      end
  end.
End frame.

Lemma be_bytes_roundtrip n : (n < 2 ^ 32)%N → from_be_bytes (to_be_bytes n) = n.
Proof.
  intros Hn. unfold from_be_bytes, to_be_bytes. simpl foldl.
  assert (n = n / 256 * 256 + n mod 256)%N as E0 by (rewrite (N.div_mod n 256) at 1; lia).
  assert (n / 256 = n / 2 ^ 16 * 256 + (n / 256) mod 256)%N as E1.
  { rewrite (N.div_mod (n / 256) 256) at 1 by lia. rewrite N.Div0.div_div. change (256 * 256)%N with (2 ^ 16)%N. lia. }
  assert (n / 2 ^ 16 = n / 2 ^ 24 * 256 + (n / 2 ^ 16) mod 256)%N as E2.
  { rewrite (N.div_mod (n / 2 ^ 16) 256) at 1 by lia. rewrite N.Div0.div_div.
    change (2 ^ 16 * 256)%N with (2 ^ 24)%N. lia. }
  assert (n / 2 ^ 24 < 256)%N as E3 by (apply N.Div0.div_lt_upper_bound; change (2 ^ 24 * 256)%N with (2 ^ 32)%N; lia).
  rewrite (N.mod_small (n / 2 ^ 24) 256) by done. change (2 ^ 8)%N with 256%N. lia.
Qed.

Lemma read_exact_app l k : read_exact (length l) (l ++ k) = Some (l, k).
Proof.
  unfold read_exact. rewrite bool_decide_true by (rewrite length_app; lia).
  by rewrite take_app_length, drop_app_length.
Qed.

Section roundtrip.
Context {T : Type} `{MsgCodec T}.

Lemma read_written max_len (m : T) rest :
  (N.of_nat (length (to_vec m)) ≤ max_len)%N → (max_len < 2 ^ 32)%N →
  read_framed_message max_len (write_framed_message m ++ rest) = Ok (m, rest).
Proof.
  intros Hm Hmax. unfold read_framed_message, write_framed_message. rewrite <- app_assoc.
  set (len := N.of_nat (length (to_vec m))).
  rewrite (read_exact_app (to_be_bytes (uwrap 32 len))).
  rewrite uwrap_small by (unfold len; lia). rewrite be_bytes_roundtrip by (unfold len; lia).
  destruct (N.ltb_spec max_len len); [unfold len in *; lia|].
  unfold len. rewrite Nat2N.id, read_exact_app. by rewrite slice_roundtrip.
Qed.

(** Framing is self-delimiting. Any sequence of messages whose bodies fit
    the limit, written one after the other, is read back message by message,
    and the reader stops exactly at the end of the last frame. *)
Theorem framing_roundtrip max_len (l : list T) rest :
  Forall (λ m, N.of_nat (length (to_vec m)) ≤ max_len)%N l → (max_len < 2 ^ 32)%N →
  read_messages (length l) max_len (mjoin (write_framed_message <$> l) ++ rest) = Ok (l, rest).
Proof.
  intros Hl Hmax. induction Hl as [|m l Hm Hl IH]; [done|].
  assert (mjoin (write_framed_message <$> m :: l) = write_framed_message m ++ mjoin (write_framed_message <$> l))
    as -> by done.
  cbn [length read_messages]. rewrite <- app_assoc, read_written by done. by rewrite IH.
Qed.

(** the reader is bounded. A frame that announces more than the limit is
    refused on its four length bytes alone, and a frame that is accepted took
    exactly its announced length, at most the limit, from the stream. *)
Theorem frame_bounded max_len s (m : T) s' :
  read_framed_message max_len s = Ok (m, s') →
  ∃ len_buf body, s = len_buf ++ body ++ s' ∧ length len_buf = 4 ∧
    N.of_nat (length body) = from_be_bytes len_buf ∧ (N.of_nat (length body) ≤ max_len)%N.
Proof.
  unfold read_framed_message, read_exact.
  case_bool_decide as H4; [|done].
  destruct (N.ltb_spec max_len (from_be_bytes (take 4 s))) as [|Hle]; [done|].
  case_bool_decide as Hb; [|done]. rewrite length_drop in Hb.
  destruct (from_slice _) as [m'|]; [|done]. intros [= -> <-].
  exists (take 4 s), (take (N.to_nat (from_be_bytes (take 4 s))) (drop 4 s)).
  assert (length (take (N.to_nat (from_be_bytes (take 4 s))) (drop 4 s)) = N.to_nat (from_be_bytes (take 4 s))) as El.
  { rewrite length_take, length_drop. lia. }
  rewrite El. split_and!; [by rewrite take_drop, take_drop|by apply length_take_le|lia|lia].
Qed.
End roundtrip.

(** ** A codec *)

(** Two messages with one-byte bodies. *)
#[local] Instance demo_codec : MsgCodec bool.
Proof.
  refine {|
    to_vec (b : bool) := [if b then 1 else 0]%N;
    from_slice l := match l with [0%N] => Some false | [1%N] => Some true | _ => None end |}.
  - by intros []; repeat constructor.
  - by intros [].
Defined.

Lemma framing_roundtrip_witness :
  read_messages 2 MAX_FRAME_LEN (mjoin (write_framed_message <$> [true; false]) ++ [7%N]) = Ok ([true; false], [7%N]).
Proof.
  apply (framing_roundtrip MAX_FRAME_LEN [true; false] [7%N]).
  - repeat constructor; vm_compute; discriminate.
  - vm_compute. reflexivity.
Defined.

Lemma frame_bounded_witness :
  ∃ len_buf body, [0; 0; 0; 1; 1; 9]%N = len_buf ++ body ++ [9%N] ∧ length len_buf = 4 ∧
      N.of_nat (length body) = from_be_bytes len_buf ∧ (N.of_nat (length body) ≤ MAX_FRAME_LEN)%N.
Proof.
  apply (frame_bounded MAX_FRAME_LEN [0; 0; 0; 1; 1; 9]%N true [9%N]). vm_compute. reflexivity.
Defined.
