(* ===== verification/Inject.v ===== *)
(** * The two-phase injection protocol

    [inject_task], [check_inject_socket] and [adopt_container] of
    [vmm/task/src/sandbox_service.rs]. Each target has a connection of its own
    and the targets run concurrently under one timeout per phase; a target is
    a script of what the other side of its connection does, and a budget of
    I/O operations it completes before the phase's timeout drops it. All
    theorems hold for every script and every budget, so for every interleaving.
    A write is logged when it is attempted. *)
From S2P Require Import Prelude Strs Frame.

Record ContainerTask := mkTask {
  ct_container_id : string;
  ct_socket_path : string;
  ct_task_id : string;
  ct_env : gmap string string;
  ct_context : string
}.

Inductive InjectStatus :=
  | INJECT_STARTED | INJECT_REJECT | INJECT_TARGET_NOT_FOUND | INJECT_NAMESPACE_ERROR
  | INJECT_CONNECT_FAILED | INJECT_PROTOCOL_ERROR | INJECT_TIMEOUT_PREPARE | INJECT_TIMEOUT_COMMIT
  | INJECT_INTERNAL_ERROR.

#[global] Instance InjectStatus_eq_dec : EqDecision InjectStatus.
Proof. solve_decision. Defined.

Inductive InjectPhase := PHASE_PREPARE | PHASE_COMMIT.

Record ContainerInjectResult := mkInjectResult {
  ir_container_id : string;
  ir_status : InjectStatus;
  ir_phase : InjectPhase
}.

(** Why [connect_in_ns] fails, as the caller classifies the error text. *)
Inductive ConnectError := NotFoundErr | MntNsErr | OtherConnErr.

(** One connection: what the workload will send ([None] is a read error or the
    end of the stream), whether each write succeeds, what was written, and how
    many more I/O operations complete before the current phase times out. *)
Record Conn := mkConn {
  incoming : list (option WorkloadMessage);
  write_ok : list bool;
  attempted : list SandboxerMessage;
  budget : nat
}.

(** A computation on a connection; [None] is a future dropped by the timeout. *)
Definition P (A : Type) : Type := Conn → option A * Conn.
#[global] Instance P_ret : MRet P := λ A a c, (Some a, c).
#[global] Instance P_bind : MBind P := λ A B k m c,
  match m c with (Some a, c') => k a c' | (None, c') => (None, c') end.

Definition await : P unit := λ c,
  match budget c with
  | 0 => (None, c)
  | S n => (Some tt, mkConn (incoming c) (write_ok c) (attempted c) n)
  end.

Definition next_message : P (option WorkloadMessage) := λ c,
  match incoming c with
  | [] => (Some None, c)
  | m :: l => (Some m, mkConn l (write_ok c) (attempted c) (budget c))
  end.
Definition read_message : P (option WorkloadMessage) := await;; next_message.

(** The result of [write_framed_message]. *)
Definition log_write (m : SandboxerMessage) : P bool := λ c,
  match write_ok c with
  | [] => (Some true, mkConn (incoming c) [] (attempted c ++ [m]) (budget c))
  | b :: l => (Some b, mkConn (incoming c) l (attempted c ++ [m]) (budget c))
  end.
Definition write_message (m : SandboxerMessage) : P bool := await;; log_write m.

Definition DEFAULT_READINESS_SOCKET : string := "/run/warmfork-readiness.sock".

(** A target: its request and the world around it. *)
Record Peer := mkPeer {
  p_task : ContainerTask;
  p_connect : string → string → option ConnectError;   (** container id, socket path *)
  p_conn : Conn
}.

Definition socket_of (t : ContainerTask) : string :=
  if bool_decide (ct_socket_path t = "") then DEFAULT_READINESS_SOCKET else ct_socket_path t.

Definition connect_status (e : ConnectError) : InjectStatus :=
  match e with
  | NotFoundErr => INJECT_TARGET_NOT_FOUND
  | MntNsErr => INJECT_NAMESPACE_ERROR
  | OtherConnErr => INJECT_CONNECT_FAILED
  end.

Definition connect_in_ns (p : Peer) : P (option ConnectError) :=
  await;; mret (p_connect p (ct_container_id (p_task p)) (socket_of (p_task p))).

Definition read_and_verify_capabilities : P bool :=
  m ← read_message;
  mret (match m with
        | Some (CapabilitiesMsg c) => bool_decide (protocol_version c = PROTOCOL_VERSION)
        | _ => false
        end).

(** [inject_prepare_one] *)
Definition inject_prepare_one (p : Peer) : P (result string ContainerInjectResult) :=
  let cid := ct_container_id (p_task p) in
  let fail st := Err (mkInjectResult cid st PHASE_PREPARE) in
  e ← connect_in_ns p;
  match e with
  | Some e => mret (fail (connect_status e))
  | None =>
      ok ← read_and_verify_capabilities;
      if negb ok then mret (fail INJECT_PROTOCOL_ERROR) else
      b ← write_message (Prepare (mkPrepare (ct_task_id (p_task p)) (ct_env (p_task p)) (ct_context (p_task p))));
      if negb b then mret (fail INJECT_PROTOCOL_ERROR) else
      m ← read_message;
      mret (match m with
            | Some Ready => Ok cid
            | Some (Reject _ _) => fail INJECT_REJECT
            | Some _ | None => fail INJECT_PROTOCOL_ERROR
            end)
  end.

Definition inject_commit_one (cid : string) : P (result string ContainerInjectResult) :=
  let fail st := Err (mkInjectResult cid st PHASE_COMMIT) in
  b ← write_message Commit;
  if negb b then mret (fail INJECT_PROTOCOL_ERROR) else
  m ← read_message;
  mret (match m with Some Started => Ok cid | Some _ | None => fail INJECT_PROTOCOL_ERROR end).

Definition inject_autonomous_one (p : Peer) : P (result string ContainerInjectResult) :=
  let cid := ct_container_id (p_task p) in
  let fail st := Err (mkInjectResult cid st PHASE_COMMIT) in
  e ← connect_in_ns p;
  match e with
  | Some e => mret (fail (connect_status e))
  | None =>
      ok ← read_and_verify_capabilities;
      if negb ok then mret (fail INJECT_PROTOCOL_ERROR) else
      b ← write_message Commit;
      if negb b then mret (fail INJECT_PROTOCOL_ERROR) else
      m ← read_message;
      mret (match m with Some Started => Ok cid | Some _ | None => fail INJECT_PROTOCOL_ERROR end)
  end.

(** The cancellation of one ready target; the write is not timed. *)
Definition cancel_one (c : Conn) : Conn :=
  mkConn (incoming c) (tail (write_ok c)) (attempted c ++ [Cancel "rollback"]) (budget c).

(** [join_all] under [timeout]: [None] when some future was not done. *)
Definition all_done {A} (l : list (option A * Conn)) : option (list (A * Conn)) :=
  mapM (λ x : option A * Conn, a ← x.1; Some (a, x.2)) l.

Definition timed_out (st : InjectStatus) (ph : InjectPhase) (peers : list Peer) : list ContainerInjectResult :=
  (λ p, mkInjectResult (ct_container_id (p_task p)) st ph) <$> peers.

Definition to_result (x : result string ContainerInjectResult * Conn) : ContainerInjectResult :=
  match x.1 with Ok cid => mkInjectResult cid INJECT_STARTED PHASE_COMMIT | Err r => r end.

Definition set_budget (n : nat) (c : Conn) : Conn := mkConn (incoming c) (write_ok c) (attempted c) n.

(** The response, and the connections as the call leaves them, in the order of
    the tasks. [commit_budgets] are the budgets of the commit phase. *)
Definition inject_autonomous (peers : list Peer) : list ContainerInjectResult * list Conn :=
  let outs := (λ p, inject_autonomous_one p (p_conn p)) <$> peers in
  match all_done outs with
  | None => (timed_out INJECT_TIMEOUT_COMMIT PHASE_COMMIT peers, outs.*2)
  | Some l => (to_result <$> l, l.*2)
  end.

Definition failed_of (l : list (result string ContainerInjectResult * Conn)) : list ContainerInjectResult :=
  omap (λ x, match x.1 with Err r => Some r | Ok _ => None end) l.
Definition ready_of (l : list (result string ContainerInjectResult * Conn)) : list string :=
  omap (λ x, match x.1 with Ok cid => Some cid | Err _ => None end) l.

(** What happens to one connection when a peer failed. *)
Definition rollback_one (x : result string ContainerInjectResult * Conn) : Conn :=
  match x.1 with Ok _ => cancel_one x.2 | Err _ => x.2 end.

Definition commit_one (n : nat) (x : result string ContainerInjectResult * Conn)
  : option (result string ContainerInjectResult) * Conn :=
  match x.1 with
  | Ok cid => inject_commit_one cid (set_budget n x.2)
  | Err r => (Some (Err r), x.2)
  end.

Definition inject_two_phase (peers : list Peer) (commit_budgets : nat → nat)
  : list ContainerInjectResult * list Conn :=
  let outs := (λ p, inject_prepare_one p (p_conn p)) <$> peers in
  match all_done outs with
  | None => (timed_out INJECT_TIMEOUT_PREPARE PHASE_PREPARE peers, outs.*2)
  | Some l =>
      match failed_of l with
      | _ :: _ =>
          (failed_of l ++ ((λ cid, mkInjectResult cid INJECT_INTERNAL_ERROR PHASE_PREPARE) <$> ready_of l),
           rollback_one <$> l)
      | [] =>
          let couts := imap (λ i, commit_one (commit_budgets i)) l in
          match all_done couts with
          | None => (timed_out INJECT_TIMEOUT_COMMIT PHASE_COMMIT peers, couts.*2)
          | Some k => (to_result <$> k, k.*2)
          end
      end
  end.

Definition inject_task (peers : list Peer) (commit_budgets : nat → nat) : list ContainerInjectResult * list Conn :=
  if forallb (λ p, bool_decide (ct_task_id (p_task p) = "")) peers
  then inject_autonomous peers
  else inject_two_phase peers commit_budgets.

(** ** The probe *)
Inductive TargetCheckStatus := TARGET_CHECK_OK | TARGET_NOT_FOUND | NAMESPACE_ERROR | CONNECT_FAILED | PROTOCOL_ERROR.

#[global] Instance TargetCheckStatus_eq_dec : EqDecision TargetCheckStatus.
Proof. solve_decision. Defined.

Definition check_one_target (p : Peer) : P TargetCheckStatus :=
  e ← connect_in_ns p;
  match e with
  | Some NotFoundErr => mret TARGET_NOT_FOUND
  | Some MntNsErr => mret NAMESPACE_ERROR
  | Some OtherConnErr => mret CONNECT_FAILED
  | None =>
      ok ← read_and_verify_capabilities;
      mret (if ok : bool then TARGET_CHECK_OK else PROTOCOL_ERROR)
  end.

(** [check_inject_socket] of the agent: one result per target, in order;
    [None] while some target has not answered. *)
Definition guest_check_inject_socket (peers : list Peer) : option (list (string * TargetCheckStatus)) :=
  l ← all_done ((λ p, check_one_target p (p_conn p)) <$> peers);
  Some (zip ((λ p, ct_container_id (p_task p)) <$> peers) l.*1).

(** ** Adoption of orphans *)
Record AdoptionInfo := mkAdoption { orphan_pid : Z; orphan_container_id : string }.
Record GuestState := mkGuest {
  containers : gmap string Z;                       (** container id, init pid *)
  pending_adoptions : gmap string AdoptionInfo
}.

Definition adopt_container (old_id new_id : string) (g : GuestState) : option GuestState :=
  pid ← containers g !! old_id;
  Some (mkGuest (delete old_id (containers g))
          (<[new_id := mkAdoption pid old_id]> (pending_adoptions g))).

Definition take_adoption (id : string) (g : GuestState) : option AdoptionInfo * GuestState :=
  (pending_adoptions g !! id, mkGuest (containers g) (delete id (pending_adoptions g))).

(** ** One target *)
Definition prepare_msg (p : Peer) : SandboxerMessage :=
  Prepare (mkPrepare (ct_task_id (p_task p)) (ct_env (p_task p)) (ct_context (p_task p))).

(** The target can be connected to, speaks the protocol and answers READY. *)
Definition answers_ready (p : Peer) : Prop :=
  p_connect p (ct_container_id (p_task p)) (socket_of (p_task p)) = None ∧
  ∃ caps l, incoming (p_conn p) = Some (CapabilitiesMsg caps) :: Some Ready :: l ∧
    protocol_version caps = PROTOCOL_VERSION.

Ltac p_step :=
  match goal with
  | |- context [match ?x with _ => _ end] => destruct x eqn:?
  | H : context [match ?x with _ => _ end] |- _ => destruct x eqn:?
  end.

Ltac p_unfold :=
  unfold connect_in_ns, read_and_verify_capabilities, read_message, write_message, next_message, log_write,
    await, mbind, P_bind, mret, P_ret in *; simpl in *.

Lemma read_message_inv c o c' :
  read_message c = (o, c') → attempted c' = attempted c ∧
    (∀ m, o = Some (Some m) → incoming c = Some m :: incoming c').
Proof.
  unfold read_message, next_message, await, mbind, P_bind.
  destruct (budget c); [by intros [= <- <-]|]. simpl.
  destruct (incoming c) as [|x l]; intros [= <- <-]; simpl; split; try done. by intros m [= ->].
Qed.

Lemma write_message_inv m c o c' :
  write_message m c = (o, c') → incoming c' = incoming c ∧
    (attempted c' = attempted c ++ [m] ∨ (o = None ∧ attempted c' = attempted c)).
Proof.
  unfold write_message, log_write, await, mbind, P_bind.
  destruct (budget c); [intros [= <- <-]; simpl; auto|]. simpl.
  destruct (write_ok c); intros [= <- <-]; simpl; auto.
Qed.

Lemma connect_inv p c o c' :
  connect_in_ns p c = (o, c') → incoming c' = incoming c ∧ attempted c' = attempted c ∧
    (o = None ∨ o = Some (p_connect p (ct_container_id (p_task p)) (socket_of (p_task p)))).
Proof.
  unfold connect_in_ns, await, mbind, P_bind, mret, P_ret.
  destruct (budget c); intros [= <- <-]; simpl; auto.
Qed.

Lemma capabilities_inv c o c' :
  read_and_verify_capabilities c = (o, c') → attempted c' = attempted c ∧
    (o = Some true → ∃ caps, incoming c = Some (CapabilitiesMsg caps) :: incoming c' ∧
       protocol_version caps = PROTOCOL_VERSION).
Proof.
  unfold read_and_verify_capabilities, mbind, P_bind.
  destruct (read_message c) as [[m|] c1] eqn:E; destruct (read_message_inv _ _ _ E) as [Ha Hm].
  - unfold mret, P_ret. intros [= <- <-]. split; [done|]. intros [= Ho].
    destruct m as [[caps| | | |]|]; try done. apply bool_decide_eq_true in Ho.
    exists caps. split; [by apply Hm|done].
  - intros [= <- <-]. done.
Qed.

Lemma prepare_one_spec p o c' :
  attempted (p_conn p) = [] → inject_prepare_one p (p_conn p) = (o, c') →
  (attempted c' = [] ∨ attempted c' = [prepare_msg p]) ∧
  (∀ cid, o = Some (Ok cid) → cid = ct_container_id (p_task p) ∧ attempted c' = [prepare_msg p] ∧ answers_ready p ∧
     ∃ caps, incoming (p_conn p) = Some (CapabilitiesMsg caps) :: Some Ready :: incoming c') ∧
  (∀ r, o = Some (Err r) → ir_container_id r = ct_container_id (p_task p) ∧ ir_status r ≠ INJECT_STARTED).
Proof.
  intros Ha. unfold inject_prepare_one. unfold mbind at 1, P_bind.
  destruct (connect_in_ns p (p_conn p)) as [oc c1] eqn:E1.
  destruct (connect_inv _ _ _ _ E1) as (I1 & A1 & Hc). rewrite Ha in A1.
  destruct oc as [[e|]|].
  { unfold mret, P_ret. intros [= <- <-]. split_and!; [by left|done|]. intros r [= <-]. by destruct e. }
  2:{ intros [= <- <-]. split_and!; [by left|done|done]. }
  destruct Hc as [|[= Hc]]; [done|]. symmetry in Hc.
  unfold mbind at 1, P_bind. destruct (read_and_verify_capabilities c1) as [ok c2] eqn:E2.
  destruct (capabilities_inv _ _ _ E2) as (A2 & Hcap). rewrite A1 in A2.
  destruct ok as [[|]|]; simpl.
  2:{ unfold mret, P_ret. intros [= <- <-]. split_and!; [by left|done|]. by intros r [= <-]. }
  2:{ intros [= <- <-]. split_and!; [by left|done|done]. }
  destruct (Hcap eq_refl) as (caps & Hi & Hv).
  unfold mbind at 1, P_bind. destruct (write_message _ c2) as [b c3] eqn:E3.
  destruct (write_message_inv _ _ _ _ E3) as (I3 & A3). rewrite A2 in A3. fold (prepare_msg p) in A3.
  destruct b as [[|]|]; simpl.
  2:{ unfold mret, P_ret. intros [= <- <-]. destruct A3 as [A3|[? _]]; [|done].
      split_and!; [by right|done|]. by intros r [= <-]. }
  2:{ intros [= <- <-]. destruct A3 as [A3|[_ A3]]; (split_and!; [auto|done|done]). }
  destruct A3 as [A3|[? _]]; [|done]. simpl in A3.
  unfold mbind at 1, P_bind. destruct (read_message c3) as [m c4] eqn:E4.
  destruct (read_message_inv _ _ _ E4) as (A4 & Hm). rewrite A3 in A4.
  destruct m as [m|]; [|intros [= <- <-]; split_and!; [by right|done|done]].
  unfold mret, P_ret. intros [= <- <-]. split_and!; [by right| |].
  - intros cid Hcid. destruct m as [[| | | |]|]; try done. injection Hcid as <-.
    specialize (Hm _ eq_refl). rewrite I3 in Hm. rewrite Hm, I1 in Hi.
    split_and!; [done|done| |by exists caps]. split; [done|]. by exists caps, (incoming c4).
  - intros r Hr. destruct m as [[| | | |]|]; try done; injection Hr as <-; done.
Qed.

Lemma commit_one_spec cid c o c' :
  inject_commit_one cid c = (o, c') →
  (attempted c' = attempted c ∨ attempted c' = attempted c ++ [Commit]) ∧
  (∀ k, o = Some (Ok k) → k = cid ∧ attempted c' = attempted c ++ [Commit] ∧
     incoming c = Some Started :: incoming c') ∧
  (∀ r, o = Some (Err r) → ir_container_id r = cid ∧ ir_status r ≠ INJECT_STARTED).
Proof.
  unfold inject_commit_one. unfold mbind at 1, P_bind.
  destruct (write_message Commit c) as [b c1] eqn:E1.
  destruct (write_message_inv _ _ _ _ E1) as (I1 & A1).
  destruct b as [[|]|]; simpl.
  2:{ unfold mret, P_ret. intros [= <- <-]. destruct A1 as [A1|[? _]]; [|done].
      split_and!; [by right|done|]. by intros r [= <-]. }
  2:{ intros [= <- <-]. destruct A1 as [A1|[_ A1]]; (split_and!; [auto|done|done]). }
  destruct A1 as [A1|[? _]]; [|done].
  unfold mbind at 1, P_bind. destruct (read_message c1) as [m c2] eqn:E2.
  destruct (read_message_inv _ _ _ E2) as (A2 & Hm). rewrite A1 in A2.
  destruct m as [m|]; [|intros [= <- <-]; split_and!; [by right|done|done]].
  unfold mret, P_ret. intros [= <- <-]. split_and!; [by right| |].
  - intros k Hk. destruct m as [[| | | |]|]; try done. injection Hk as <-.
    specialize (Hm _ eq_refl). rewrite I1 in Hm. done.
  - intros r Hr. destruct m as [[| | | |]|]; try done; injection Hr as <-; done.
Qed.

(** The target can be connected to and its first message announces the
    protocol version. *)
Definition announces (p : Peer) : Prop :=
  p_connect p (ct_container_id (p_task p)) (socket_of (p_task p)) = None ∧
  ∃ caps l, incoming (p_conn p) = Some (CapabilitiesMsg caps) :: l ∧ protocol_version caps = PROTOCOL_VERSION.

Lemma check_one_ok p c' : check_one_target p (p_conn p) = (Some TARGET_CHECK_OK, c') → announces p.
Proof.
  unfold check_one_target. unfold mbind at 1, P_bind.
  destruct (connect_in_ns p (p_conn p)) as [oc c1] eqn:E1.
  destruct (connect_inv _ _ _ _ E1) as (I1 & _ & Hc). destruct oc as [[[]|]|]; try done.
  destruct Hc as [|[= Hc]]; [done|]. unfold mbind at 1, P_bind.
  destruct (read_and_verify_capabilities c1) as [ok c2] eqn:E2.
  destruct (capabilities_inv _ _ _ E2) as (_ & Hcap). destruct ok as [[|]|]; try done. intros _.
  destruct (Hcap eq_refl) as (caps & Hi & Hv). rewrite I1 in Hi. split; [done|]. eauto.
Qed.

(** ** All targets *)
Lemma all_done_lookup {A} (l : list (option A * Conn)) k :
  all_done l = Some k → length k = length l ∧ ∀ i x, l !! i = Some x → ∃ a, x.1 = Some a ∧ k !! i = Some (a, x.2).
Proof.
  intros E%mapM_Some. split; [by symmetry; eapply Forall2_length|].
  intros i x Hi. destruct (Forall2_lookup_l _ _ _ _ _ E Hi) as ([a c] & Hk & Ha).
  destruct (x.1) as [b|]; [|done]. injection Ha as <- <-. eauto.
Qed.

(** The agent's answer has one status per target, and when all are OK every
    target announced the protocol. *)
Lemma guest_check_all peers rs :
  guest_check_inject_socket peers = Some rs → Forall (λ r, r.2 = TARGET_CHECK_OK) rs →
  rs.*1 = (λ p, ct_container_id (p_task p)) <$> peers ∧ Forall announces peers.
Proof.
  unfold guest_check_inject_socket. destruct (all_done _) as [l|] eqn:E; [|done]. intros [= <-] Hok.
  destruct (all_done_lookup _ _ E) as [Hlen Hl]. rewrite length_fmap in Hlen. split.
  { rewrite fst_zip; [done|]. rewrite !length_fmap. lia. }
  apply Forall_lookup. intros i p Hp.
  destruct (Hl i (check_one_target p (p_conn p))) as (st & Es & Hi); [by rewrite list_lookup_fmap, Hp|].
  destruct (check_one_target p (p_conn p)) as [o c'] eqn:Ep. simpl in Es. subst o.
  eapply (check_one_ok p c'). rewrite Ep. repeat f_equal.
  apply (proj1 (Forall_lookup _ _) Hok i (ct_container_id (p_task p), st)).
  apply lookup_zip_Some. rewrite !list_lookup_fmap, Hp, Hi. done.
Qed.

Definition fresh_peers (peers : list Peer) : Prop := ∀ p, p ∈ peers → attempted (p_conn p) = [].

(** The outcomes of a prepare phase in which every target finished. *)
Lemma prepared_spec peers l :
  fresh_peers peers → all_done ((λ p, inject_prepare_one p (p_conn p)) <$> peers) = Some l →
  length l = length peers ∧
  ∀ i p, peers !! i = Some p → ∃ r c, l !! i = Some (r, c) ∧
    (attempted c = [] ∨ attempted c = [prepare_msg p]) ∧
    match r with
    | Ok cid => cid = ct_container_id (p_task p) ∧ attempted c = [prepare_msg p] ∧ answers_ready p
    | Err e => ir_container_id e = ct_container_id (p_task p) ∧ ir_status e ≠ INJECT_STARTED
    end.
Proof.
  intros Hf Hd. destruct (all_done_lookup _ _ Hd) as [Hlen Hl]. rewrite length_fmap in Hlen.
  split; [done|]. intros i p Hi.
  destruct (Hl i (inject_prepare_one p (p_conn p))) as (r & E1 & E2); [by rewrite list_lookup_fmap, Hi|].
  destruct (inject_prepare_one p (p_conn p)) as [o c] eqn:E. simpl in *. subst o.
  destruct (prepare_one_spec p (Some r) c) as (Ha & Hok & Herr); [by apply Hf; eapply list_elem_of_lookup_2|done|].
  exists r, c. split_and!; [done..|]. destruct r as [cid|e]; [|by apply Herr].
  by destruct (Hok cid eq_refl) as (? & ? & ? & _).
Qed.

Lemma failed_nil l : failed_of l = [] → ∀ i x, l !! i = Some x → ∃ cid, x.1 = Ok cid.
Proof.
  intros E i [r c] Hi. destruct r as [cid|e]; [eauto|]. exfalso.
  assert (e ∈ failed_of l) as He; [|rewrite E in He; by apply elem_of_nil in He].
  apply list_elem_of_omap. exists (Err e, c). split; [by eapply list_elem_of_lookup_2|done].
Qed.

Definition idle (p : Peer) (c : Conn) : Prop := attempted c = [] ∨ attempted c = [prepare_msg p].

Definition each (peers : list Peer) (cs : list Conn) (Q : Peer → Conn → Prop) : Prop :=
  ∀ i p c, peers !! i = Some p → cs !! i = Some c → Q p c.

Lemma all_done_conns {A} (l : list (option A * Conn)) k : all_done l = Some k → k.*2 = l.*2.
Proof.
  intros Ek. destruct (all_done_lookup _ _ Ek) as [Hlk Hk]. apply list_eq. intros i. rewrite !list_lookup_fmap.
  destruct (l !! i) as [x|] eqn:Ex.
  - by destruct (Hk i x Ex) as (a & _ & ->).
  - apply lookup_ge_None in Ex. by rewrite (proj2 (lookup_ge_None k i)) by lia.
Qed.

Lemma all_ready peers l :
  fresh_peers peers → all_done ((λ p, inject_prepare_one p (p_conn p)) <$> peers) = Some l →
  failed_of l = [] → Forall answers_ready peers.
Proof.
  intros Hf Hd Ef. destruct (prepared_spec peers l Hf Hd) as [_ Hl].
  apply Forall_lookup. intros i p Hi. destruct (Hl i p Hi) as (r & c & Hli & _ & Hr).
  destruct (failed_nil l Ef i _ Hli) as [cid Ec]. simpl in Ec. subst r. apply Hr.
Qed.

(** A commit phase adds at most one COMMIT to each connection. *)
Lemma commit_conns peers l b :
  fresh_peers peers → all_done ((λ p, inject_prepare_one p (p_conn p)) <$> peers) = Some l →
  failed_of l = [] →
  each peers ((imap (λ i, commit_one (b i)) l).*2)
    (λ p c, idle p c ∨ attempted c = [prepare_msg p; Commit]).
Proof.
  intros Hf Hd Ef i p c Hi Hc. destruct (prepared_spec peers l Hf Hd) as [_ Hl].
  destruct (Hl i p Hi) as (r & c0 & Hli & _ & Hr).
  destruct (failed_nil l Ef i _ Hli) as [cid Ec]. simpl in Ec. subst r.
  rewrite list_lookup_fmap, list_lookup_imap, Hli in Hc. simpl in Hc. injection Hc as <-.
  unfold commit_one. simpl. destruct (inject_commit_one cid (set_budget (b i) c0)) as [o c1] eqn:E.
  destruct (commit_one_spec _ _ _ _ E) as (Ha & _). destruct Hr as (_ & Hp & _). simpl in Ha |- *.
  rewrite Hp in Ha. destruct Ha as [Ha|Ha]; [left; by right|by right].
Qed.

(** How a call can end: nothing decided, rolled back, or committed. *)
Lemma two_phase_cases peers b rs cs :
  fresh_peers peers → inject_two_phase peers b = (rs, cs) →
  length cs = length peers ∧
  (each peers cs idle ∨
   each peers cs (λ p c, idle p c ∨ attempted c = [prepare_msg p; Cancel "rollback"]) ∨
   (Forall answers_ready peers ∧ each peers cs (λ p c, idle p c ∨ attempted c = [prepare_msg p; Commit]))).
Proof.
  intros Hf. unfold inject_two_phase. destruct (all_done _) as [l|] eqn:Hd.
  - destruct (prepared_spec peers l Hf Hd) as [Hlen Hl]. destruct (failed_of l) as [|e es] eqn:Ef.
    + pose proof (all_ready _ _ Hf Hd Ef) as Hr. pose proof (commit_conns peers l b Hf Hd Ef) as Hc.
      assert (length (imap (λ i, commit_one (b i)) l).*2 = length peers) as Hlc.
      { by rewrite length_fmap, length_imap. }
      destruct (all_done (imap _ l)) as [k|] eqn:Ek; intros [= <- <-]; [rewrite (all_done_conns _ _ Ek)|]; auto.
    + intros [= <- <-]. rewrite length_fmap. split; [done|]. right. left. intros i p c Hi Hc.
      destruct (Hl i p Hi) as (r & c0 & Hli & Ha & Hr). rewrite list_lookup_fmap, Hli in Hc. simpl in Hc.
      injection Hc as <-. unfold rollback_one. simpl. destruct r as [cid|e']; [|by left].
      destruct Hr as (_ & Hp & _). right. simpl. by rewrite Hp.
  - intros [= <- <-]. rewrite !length_fmap. split; [done|]. left. intros i p c Hi Hc.
    rewrite !list_lookup_fmap, Hi in Hc. simpl in Hc. injection Hc as <-.
    destruct (inject_prepare_one p (p_conn p)) as [o c] eqn:E.
    by apply (prepare_one_spec p o c); [apply Hf; eapply list_elem_of_lookup_2|].
Qed.

(** Some task has an id, so the request is not autonomous. *)
Definition names_a_task (peers : list Peer) : Prop := ∃ p, p ∈ peers ∧ ct_task_id (p_task p) ≠ "".

Lemma two_phase_request peers b : names_a_task peers → inject_task peers b = inject_two_phase peers b.
Proof.
  intros (p & Hp & Hid). unfold inject_task. destruct (forallb _ peers) eqn:E; [|done].
  rewrite forallb_forall in E. specialize (E p). rewrite bool_decide_eq_true in E.
  destruct Hid. by apply E, list_elem_of_In.
Qed.

(** C37: the commit barrier of the two-phase mode. When some task of the
    request has an id, COMMIT is written to a target only when every target
    could be connected, declared the protocol version and answered READY; then
    no target is sent CANCEL, so COMMIT is never rolled back. Each connection
    carries at most PREPARE followed by one COMMIT. (A request in which no task
    has an id has no barrier: [autonomous_has_no_barrier].) *)
Theorem commit_barrier peers b rs cs i c :
  names_a_task peers → fresh_peers peers → inject_task peers b = (rs, cs) →
  cs !! i = Some c → Commit ∈ attempted c →
  Forall answers_ready peers ∧
  each peers cs (λ p c, attempted c = [] ∨ attempted c = [prepare_msg p] ∨ attempted c = [prepare_msg p; Commit]).
Proof.
  intros Ht Hf. rewrite (two_phase_request _ _ Ht). intros E Hi Hc.
  destruct (two_phase_cases _ _ _ _ Hf E) as [Hlen Hcs].
  destruct (lookup_lt_is_Some_2 peers i) as [p Hp].
  { rewrite <- Hlen. by eapply lookup_lt_Some. }
  destruct Hcs as [Hcs|[Hcs|[Hr Hcs]]].
  - destruct (Hcs i p c Hp Hi) as [Ha|Ha]; rewrite Ha in Hc; set_solver.
  - destruct (Hcs i p c Hp Hi) as [[Ha|Ha]|Ha]; rewrite Ha in Hc; set_solver.
  - split; [done|]. intros j q d Hj Hd. destruct (Hcs j q d Hj Hd) as [[|]|]; auto.
Qed.

(** C38: rollback of the two-phase mode. When every target finished its
    prepare phase before the timeout and one of them failed it, no target is
    sent COMMIT and every target that answered READY is sent CANCEL. (When the
    phase times out no target is sent CANCEL: [prepare_timeout_sends_no_cancel].) *)
Theorem rollback_cancels_ready peers b l e es rs cs :
  names_a_task peers → fresh_peers peers →
  all_done ((λ p, inject_prepare_one p (p_conn p)) <$> peers) = Some l → failed_of l = e :: es →
  inject_task peers b = (rs, cs) →
  each peers cs (λ p c, Commit ∉ attempted c) ∧
  ∀ i p cid c, peers !! i = Some p → l !! i = Some (Ok cid, c) →
    attempted <$> cs !! i = Some [prepare_msg p; Cancel "rollback"].
Proof.
  intros Ht Hf Hd Ef. rewrite (two_phase_request _ _ Ht). unfold inject_two_phase. rewrite Hd, Ef. intros [= <- <-].
  destruct (prepared_spec peers l Hf Hd) as [Hlen Hl]. split.
  - intros i p c Hi Hc. destruct (Hl i p Hi) as (r & c0 & Hli & Ha & Hr).
    rewrite list_lookup_fmap, Hli in Hc. simpl in Hc. injection Hc as <-. unfold rollback_one. simpl.
    destruct r as [cid|e']; simpl; destruct Ha as [Ha|Ha]; rewrite Ha; set_solver.
  - intros i p cid c Hi Hli. destruct (Hl i p Hi) as (r & c0 & Hli' & _ & Hr).
    rewrite Hli in Hli'. injection Hli' as <- <-. destruct Hr as (_ & Hp & _).
    rewrite list_lookup_fmap, Hli. simpl. unfold rollback_one. simpl. by rewrite Hp.
Qed.

(** ** The response *)
Definition task_ids (peers : list Peer) : list string := (λ p, ct_container_id (p_task p)) <$> peers.

Lemma split_results l :
  (ir_container_id <$> failed_of l) ++ ready_of l ≡ₚ
  (λ x : result string ContainerInjectResult * Conn,
     match x.1 with Ok cid => cid | Err r => ir_container_id r end) <$> l.
Proof.
  unfold failed_of, ready_of. induction l as [|[[cid|r] c] l IH]; csimpl; [done| |by rewrite IH].
  rewrite <- IH. by rewrite Permutation_middle.
Qed.

Lemma prepared_ids peers l :
  fresh_peers peers → all_done ((λ p, inject_prepare_one p (p_conn p)) <$> peers) = Some l →
  (λ x : result string ContainerInjectResult * Conn,
     match x.1 with Ok cid => cid | Err r => ir_container_id r end) <$> l = task_ids peers.
Proof.
  intros Hf Hd. destruct (prepared_spec peers l Hf Hd) as [Hlen Hl]. apply list_eq. intros i.
  unfold task_ids. rewrite !list_lookup_fmap. destruct (peers !! i) as [p|] eqn:Hi.
  - destruct (Hl i p Hi) as (r & c & -> & _ & Hr). simpl. f_equal. destruct r; apply Hr.
  - apply lookup_ge_None in Hi. by rewrite (proj2 (lookup_ge_None l i)) by lia.
Qed.

Lemma committed_ids b l k :
  all_done (imap (λ i, commit_one (b i)) l) = Some k →
  ir_container_id <$> (to_result <$> k) =
  (λ x : result string ContainerInjectResult * Conn,
     match x.1 with Ok cid => cid | Err r => ir_container_id r end) <$> l.
Proof.
  intros Ek. destruct (all_done_lookup _ _ Ek) as [Hlk Hk]. rewrite length_imap in Hlk.
  apply list_eq. intros i. rewrite !list_lookup_fmap.
  destruct (l !! i) as [[r c]|] eqn:Hi.
  - destruct (Hk i (commit_one (b i) (r, c))) as (a & Ea & ->); [by rewrite list_lookup_imap, Hi|]. simpl. f_equal.
    unfold commit_one in Ea. destruct r as [cid|e]; simpl in Ea; [|by injection Ea as <-].
    destruct (inject_commit_one cid (set_budget (b i) c)) as [o c1] eqn:E. simpl in Ea. subst o.
    destruct (commit_one_spec _ _ _ _ E) as (_ & Hok & Herr). unfold to_result. simpl.
    destruct a as [cid'|e]; [by destruct (Hok cid' eq_refl) as (-> & _)|by destruct (Herr e eq_refl)].
  - apply lookup_ge_None in Hi. by rewrite (proj2 (lookup_ge_None k i)) by lia.
Qed.

(** one result per target. The two-phase response has exactly one result
    for each requested container, in every outcome: success, rejection,
    rollback and both timeouts. *)
Theorem one_result_per_target peers b rs cs :
  fresh_peers peers → inject_two_phase peers b = (rs, cs) → ir_container_id <$> rs ≡ₚ task_ids peers.
Proof.
  intros Hf. unfold inject_two_phase.
  assert (∀ st ph, ir_container_id <$> timed_out st ph peers = task_ids peers) as Ht.
  { intros st ph. unfold timed_out, task_ids. by rewrite <- list_fmap_compose. }
  destruct (all_done _) as [l|] eqn:Hd; [|intros [= <- <-]; by rewrite Ht].
  pose proof (prepared_ids peers l Hf Hd) as Hids.
  destruct (failed_of l) as [|e es] eqn:Ef.
  - destruct (all_done (imap _ l)) as [k|] eqn:Ek; intros [= <- <-]; [|by rewrite Ht].
    by rewrite (committed_ids _ _ _ Ek), Hids.
  - intros [= <- <-]. change (?x :: es ++ ?k) with ((x :: es) ++ k). rewrite <- Ef, fmap_app, <- list_fmap_compose.
    change (ir_container_id ∘ _) with (λ cid : string, cid). rewrite list_fmap_id, split_results. by rewrite Hids.
Qed.

(** A target that follows the protocol to the end, with enough time. *)
Definition cooperative (p : Peer) : Prop :=
  p_connect p (ct_container_id (p_task p)) (socket_of (p_task p)) = None ∧
  (∃ caps, incoming (p_conn p) = [Some (CapabilitiesMsg caps); Some Ready; Some Started] ∧
     protocol_version caps = PROTOCOL_VERSION) ∧
  write_ok (p_conn p) = [] ∧ 4 ≤ budget (p_conn p).

Lemma cooperative_prepare p :
  cooperative p → ∃ c, inject_prepare_one p (p_conn p) = (Some (Ok (ct_container_id (p_task p))), c) ∧
    incoming c = [Some Started] ∧ write_ok c = [].
Proof.
  intros (Hc & (caps & Hi & Hv) & Hw & Hb). destruct (p_conn p) as [inc wr att bud]. simpl in *. subst.
  do 4 (destruct bud as [|bud]; [lia|]).
  unfold inject_prepare_one. p_unfold. rewrite Hc. simpl. rewrite bool_decide_true by done. simpl.
  eexists. done.
Qed.

Lemma cooperative_commit cid c n :
  incoming c = [Some Started] → write_ok c = [] → 2 ≤ n →
  ∃ c', inject_commit_one cid (set_budget n c) = (Some (Ok cid), c').
Proof.
  intros Hi Hw Hn. do 2 (destruct n as [|n]; [lia|]). unfold inject_commit_one. p_unfold.
  rewrite Hw. simpl. rewrite Hi. simpl. eexists. done.
Qed.

Lemma mapM_total {A B} (f : A → option B) l : (∀ x, x ∈ l → is_Some (f x)) → is_Some (mapM f l).
Proof. intros Hf. apply mapM_is_Some. by apply Forall_forall. Qed.

(** Success. When every target follows the protocol and both phases have
    time, every result is STARTED. *)
Theorem all_cooperative_start peers b :
  fresh_peers peers → Forall cooperative peers → (∀ i, 2 ≤ b i) →
  ∃ rs cs, inject_two_phase peers b = (rs, cs) ∧ ir_container_id <$> rs = task_ids peers ∧
    Forall (λ r, ir_status r = INJECT_STARTED) rs.
Proof.
  intros Hf Hc Hb. rewrite Forall_forall in Hc. unfold inject_two_phase.
  destruct (mapM_total (λ x : option (result string ContainerInjectResult) * Conn, a ← x.1; Some (a, x.2))
    ((λ p, inject_prepare_one p (p_conn p)) <$> peers)) as [l Hd].
  { intros x (p & -> & Hp)%list_elem_of_fmap. destruct (cooperative_prepare p (Hc p Hp)) as (c & -> & _). simpl. eauto. }
  fold (all_done ((λ p, inject_prepare_one p (p_conn p)) <$> peers)) in Hd. rewrite Hd.
  destruct (all_done_lookup _ _ Hd) as [Hlen Hl]. rewrite length_fmap in Hlen.
  assert (∀ i x, l !! i = Some x → ∃ cid, x.1 = Ok cid ∧ incoming x.2 = [Some Started] ∧ write_ok x.2 = []) as Hok.
  { intros i x Hi. destruct (lookup_lt_is_Some_2 peers i) as [p Hp]; [rewrite <- Hlen; by eapply lookup_lt_Some|].
    destruct (Hl i (inject_prepare_one p (p_conn p))) as (a & E1 & E2); [by rewrite list_lookup_fmap, Hp|].
    destruct (cooperative_prepare p) as (c & Ec & Hinc & Hw); [by apply Hc; eapply list_elem_of_lookup_2|].
    rewrite Ec in E1, E2. simpl in *. rewrite Hi in E2. injection E1 as <-. injection E2 as ->. eauto. }
  assert (failed_of l = []) as Ef.
  { destruct (failed_of l) as [|e es] eqn:Ef; [done|].
    assert (e ∈ failed_of l) as He by (rewrite Ef; by left).
    apply list_elem_of_omap in He as ([r c] & Hin & Hr). apply list_elem_of_lookup in Hin as [i Hi].
    destruct (Hok i _ Hi) as (cid & Ec & _). simpl in Ec. by subst r. }
  rewrite Ef.
  destruct (mapM_total (λ x : option (result string ContainerInjectResult) * Conn, a ← x.1; Some (a, x.2))
    (imap (λ i, commit_one (b i)) l)) as [k Hk].
  { intros x Hx. apply list_elem_of_lookup in Hx as [i Hx]. rewrite list_lookup_imap in Hx.
    apply fmap_Some in Hx as ([r c] & Hi & ->). destruct (Hok i _ Hi) as (cid & Ec & Hinc & Hw). simpl in *. subst r.
    unfold commit_one. simpl. destruct (cooperative_commit cid c (b i) Hinc Hw (Hb i)) as [c' ->]. simpl. eauto. }
  fold (all_done (imap (λ i, commit_one (b i)) l)) in Hk. rewrite Hk.
  eexists _, _. split; [done|]. split.
  - by rewrite (committed_ids _ _ _ Hk), (prepared_ids _ _ Hf Hd).
  - destruct (all_done_lookup _ _ Hk) as [Hlk Hkl]. rewrite length_imap in Hlk.
    apply Forall_fmap, Forall_lookup. intros i x Hx.
    destruct (lookup_lt_is_Some_2 l i) as [[r c] Hi]; [rewrite <- Hlk; by eapply lookup_lt_Some|].
    destruct (Hkl i (commit_one (b i) (r, c))) as (a & Ea & Ex); [by rewrite list_lookup_imap, Hi|].
    destruct (Hok i _ Hi) as (cid & Ec & Hinc & Hw). simpl in *. subst r. unfold commit_one in Ea. simpl in Ea.
    destruct (cooperative_commit cid c (b i) Hinc Hw (Hb i)) as [c' E']. rewrite E' in Ea. simpl in Ea.
    injection Ea as <-. rewrite Hx in Ex. injection Ex as ->. done.
Qed.

(** ** Adoption *)

(** an orphan is adopted once. Adoption moves the orphan's pid from the
    container map to the pending adoption of the new id: the old id can not be
    adopted or used again, taking the adoption returns that pid and the old id,
    and taking it a second time returns nothing. *)
Theorem adoption_moves_pid old_id new_id g g' :
  adopt_container old_id new_id g = Some g' →
  ∃ pid, containers g !! old_id = Some pid ∧ adopt_container old_id new_id g' = None ∧
    (∀ id, id ≠ old_id → containers g' !! id = containers g !! id) ∧
    (take_adoption new_id g').1 = Some (mkAdoption pid old_id) ∧
    (take_adoption new_id (take_adoption new_id g').2).1 = None.
Proof.
  unfold adopt_container. destruct (containers g !! old_id) as [pid|]; simpl; [|done]. intros [= <-].
  exists pid. unfold take_adoption. simpl. rewrite lookup_delete_eq, lookup_insert_eq, lookup_delete_eq.
  split_and!; try done. intros id Hne. by rewrite lookup_delete_ne.
Qed.

(** ** Concrete runs *)
Definition demo_task (cid : string) : ContainerTask := mkTask cid "" "task" ∅ "".
Definition demo_peer (cid : string) (inc : list (option WorkloadMessage)) (n : nat) : Peer :=
  mkPeer (demo_task cid) (λ _ _, None) (mkConn (Some (CapabilitiesMsg (mkCapabilities "1" [])) :: inc) [] [] n).
Definition good_peer (cid : string) : Peer := demo_peer cid [Some Ready; Some Started] 9.


Lemma demo_named cid inc n l : names_a_task (demo_peer cid inc n :: l).
Proof. exists (demo_peer cid inc n). split; [by left|done]. Qed.

Lemma commit_barrier_witness :
  ∃ rs cs, inject_task [good_peer "a"; good_peer "b"] (λ _, 5) = (rs, cs) ∧
    Forall answers_ready [good_peer "a"; good_peer "b"].
Proof.
  destruct (inject_task [good_peer "a"; good_peer "b"] (λ _, 5)) as [rs cs] eqn:E.
  exists rs, cs. split; [reflexivity|].
  destruct cs as [|c cs]; [exfalso; vm_compute in E; discriminate|].
  apply (proj1 (commit_barrier [good_peer "a"; good_peer "b"] (λ _, 5) rs (c :: cs) 0 c (demo_named _ _ _ _)
    ltac:(intros p [->|[->|Hp]%elem_of_cons]%elem_of_cons; [reflexivity|reflexivity|by apply elem_of_nil in Hp])
    E eq_refl ltac:(vm_compute in E; injection E as _ <- _; right; left))).
Defined.

Lemma one_result_per_target_witness :
  ir_container_id <$> (inject_two_phase [good_peer "a"; demo_peer "b" [None] 9] (λ _, 5)).1 ≡ₚ ["a"; "b"].
Proof.
  apply (one_result_per_target [good_peer "a"; demo_peer "b" [None] 9] (λ _, 5) _
    (inject_two_phase [good_peer "a"; demo_peer "b" [None] 9] (λ _, 5)).2).
  - intros p [->|[->|Hp]%elem_of_cons]%elem_of_cons; [reflexivity|reflexivity|by apply elem_of_nil in Hp].
  - vm_compute. reflexivity.
Defined.

Lemma rollback_cancels_ready_witness :
  attempted <$> (inject_task [good_peer "a"; demo_peer "b" [Some (Reject ParseError "")] 9] (λ _, 5)).2 !! 0 =
    Some [prepare_msg (good_peer "a"); Cancel "rollback"].
Proof.
  destruct (all_done ((λ p, inject_prepare_one p (p_conn p)) <$> [good_peer "a"; demo_peer "b" [Some (Reject ParseError "")] 9]))
    as [l|] eqn:El; [|exfalso; vm_compute in El; discriminate].
  destruct (failed_of l) as [|e es] eqn:Ef; [exfalso; vm_compute in El; injection El as <-; vm_compute in Ef; discriminate|].
  destruct (l !! 0) as [[[cid|r] c]|] eqn:E0; try (exfalso; vm_compute in El; injection El as <-; vm_compute in E0; discriminate).
  eapply (proj2 (rollback_cancels_ready [good_peer "a"; demo_peer "b" [Some (Reject ParseError "")] 9] (λ _, 5) l e es
    _ _ (demo_named _ _ _ _) ltac:(intros p [->|[->|Hp]%elem_of_cons]%elem_of_cons; [reflexivity|reflexivity|by apply elem_of_nil in Hp])
    El Ef (surjective_pairing _)) 0 (good_peer "a") cid c); [reflexivity|exact E0].
Defined.

Lemma all_cooperative_start_witness :
  ∃ rs cs, inject_two_phase [good_peer "a"; good_peer "b"] (λ _, 5) = (rs, cs) ∧
    Forall (λ r, ir_status r = INJECT_STARTED) rs.
Proof.
  destruct (all_cooperative_start [good_peer "a"; good_peer "b"] (λ _, 5)) as (rs & cs & E & _ & H).
  - intros p [->|[->|Hp]%elem_of_cons]%elem_of_cons; [reflexivity|reflexivity|by apply elem_of_nil in Hp].
  - assert (∀ cid, cooperative (good_peer cid)) as Hg.
    { intros cid. split; [reflexivity|]. split; [exists (mkCapabilities "1" []); split; reflexivity|].
      split; [reflexivity|]. vm_compute. lia. }
    constructor; [apply Hg|]. constructor; [apply Hg|]. constructor.
  - intros _. lia.
  - exists rs, cs. split; [exact E|exact H].
Defined.

Lemma adoption_moves_pid_witness :
  ∃ g', adopt_container "old" "new" (mkGuest {["old" := 7%Z]} ∅) = Some g' ∧
    adopt_container "old" "new" g' = None.
Proof.
  destruct (adopt_container "old" "new" (mkGuest {["old" := 7%Z]} ∅)) as [g'|] eqn:E;
    [|exfalso; vm_compute in E; discriminate].
  exists g'. split; [reflexivity|]. destruct (adoption_moves_pid _ _ _ _ E) as (pid & _ & H & _). exact H.
Defined.

(** When the prepare phase times out, a target that already answered READY is
    sent neither COMMIT nor CANCEL: its connection is just dropped. *)
Theorem prepare_timeout_sends_no_cancel :
  ∃ rs cs, inject_two_phase [good_peer "a"; demo_peer "slow" [Some Ready] 3] (λ _, 5) = (rs, cs) ∧
    ir_status <$> rs = [INJECT_TIMEOUT_PREPARE; INJECT_TIMEOUT_PREPARE] ∧
    answers_ready (good_peer "a") ∧ attempted <$> cs !! 0 = Some [prepare_msg (good_peer "a")].
Proof.
  eexists _, _. split; [vm_compute; reflexivity|]. split; [vm_compute; reflexivity|].
  split; [|vm_compute; reflexivity]. split; [reflexivity|]. eexists _, _. split; reflexivity.
Qed.

(** A request in which no task has an id commits at once: a target starts
    although another one never answered. *)
Theorem autonomous_has_no_barrier :
  ∃ rs cs, inject_task [mkPeer (mkTask "a" "" "" ∅ "") (λ _ _, None)
        (mkConn [Some (CapabilitiesMsg (mkCapabilities "1" [])); Some Started] [] [] 9);
      mkPeer (mkTask "b" "" "" ∅ "") (λ _ _, Some OtherConnErr) (mkConn [] [] [] 9)] (λ _, 5) = (rs, cs) ∧
    ir_status <$> rs = [INJECT_STARTED; INJECT_CONNECT_FAILED] ∧ attempted <$> cs = [[Commit]; []].
Proof. eexists _, _. split; [vm_compute; reflexivity|]. split; vm_compute; reflexivity. Qed.
