(* ===== verification/Annotations.v ===== *)
(** * Pod annotations

    What the sandboxer reads from a pod's annotations before a restore
    ([vmm/sandbox/src/sandbox.rs] [parse_snapshot_intent],
    [parse_warm_fork_container_names], [parse_warm_fork_params],
    [restore_from_warm_fork_template]) and the check of the guest's answer to
    an injection ([inject_warm_fork_task]). *)
From S2P Require Import Prelude Strs Storage Types Frame Inject.

Definition SNAPSHOT_TYPE_ANNOTATION : string := "kuasar.io/snapshot-type".
Definition TEMPLATE_KEY_ANNOTATION : string := "kuasar.io/template-key".
Definition TEMPLATE_ID_ANNOTATION : string := "kuasar.io/template-id".
Definition POD_UID_ANNOTATION : string := "kuasar.io/pod-uid".
Definition WORKLOAD_GENERATION_ANNOTATION : string := "kuasar.io/workload-generation".
Definition READINESS_SOCKET_ANNOTATION : string := "kuasar.io/warm-fork-readiness-socket".
Definition WARM_FORK_CONTAINERS_ANNOTATION : string := "kuasar.io/warm-fork-containers".
Definition TASK_ID_ANNOTATION : string := "kuasar.io/task-id".
Definition TASK_CONTEXT_ANNOTATION : string := "kuasar.io/task-context".
Definition TASK_ENV_PREFIX : string := "kuasar.io/task-env/".

Inductive AnnotationError :=
  | UnknownSnapshotType | GenerationTooLarge | GenerationInvalid
  | EmptyContainerName | DuplicateContainerName (name : string) | NoContainerNames.

#[global] Instance AnnotationError_eq_dec : EqDecision AnnotationError.
Proof. solve_decision. Defined.

Record SnapshotIntent := mkIntent {
  explicit_type : option SnapshotType;
  cont_identity : option WorkloadIdentity;
  i_template_id : option string;
  i_template_key : option string
}.

(** [s.parse::<u64>()] and the range check that follows it. *)
Definition parse_generation (s : option string) : result N AnnotationError :=
  match s with
  | None => Ok 0%N
  | Some s =>
      match parse_uint u64_max s with
      | Some v => if (v <=? u32_max)%N then Ok v else Err GenerationTooLarge
      | None => Err GenerationInvalid
      end
  end.

(** [ann] is [None] when the sandbox has no pod config. *)
Definition parse_snapshot_intent (enable_continuation : bool) (ann : option (gmap string string))
  : result SnapshotIntent AnnotationError :=
  let get k := a ← ann; (a : gmap string string) !! k in
  match match get SNAPSHOT_TYPE_ANNOTATION with
        | None => Ok None
        | Some v => match from_annotation v with Some t => Ok (Some t) | None => Err UnknownSnapshotType end
        end with
  | Err e => Err e
  | Ok ty =>
      let '(tid, tkey) :=
        match ty with
        | Some Environment | Some Continuation => (None, None)
        | _ => (get TEMPLATE_ID_ANNOTATION, get TEMPLATE_KEY_ANNOTATION)
        end in
      let no_cont := match ty with Some Environment | Some WarmFork => true | _ => negb enable_continuation end in
      match (if no_cont then None else get POD_UID_ANNOTATION) with
      | None => Ok (mkIntent ty None tid tkey)
      | Some uid =>
          match parse_generation (get WORKLOAD_GENERATION_ANNOTATION) with
          | Ok g => Ok (mkIntent ty (Some (mkIdentity uid g)) tid tkey)
          | Err e => Err e
          end
      end
  end.

(** ** Warm-fork parameters *)
Fixpoint container_names (seen : list string) (l : list string) : result (list string) AnnotationError :=
  match l with
  | [] => Ok seen
  | raw :: l =>
      let name := trim raw in
      if bool_decide (name = "") then Err EmptyContainerName
      else if bool_decide (name ∈ seen) then Err (DuplicateContainerName name)
      else container_names (seen ++ [name]) l
  end.

Definition parse_warm_fork_container_names (ann : gmap string string)
  : result (option (list string)) AnnotationError :=
  match ann !! WARM_FORK_CONTAINERS_ANNOTATION with
  | None => Ok None
  | Some v =>
      match container_names [] (split ","%char v) with
      | Err e => Err e
      | Ok [] => Err NoContainerNames
      | Ok names => Ok (Some names)
      end
  end.

Section params.
Context `{HashOrder}.

(** The entries under a prefix, inserted over [base] in iteration order. *)
Definition env_under (prefix : string) (ann base : gmap string string) : gmap string string :=
  foldl (λ env kv, match strip_prefix prefix kv.1 with
                   | Some k => <[k := kv.2]> env
                   | None => env
                   end) base (hash_iter ann).

Definition container_key (name suffix : string) : string := "kuasar.io/container/" +:+ name +:+ suffix.

Definition warm_fork_target (ann : gmap string string) (socket ctx : string) (env : gmap string string)
    (name : string) : WarmForkTarget :=
  mkTarget name ""
    (default socket (ann !! container_key name "/warm-fork-readiness-socket"))
    (env_under (container_key name "/task-env/") ann env)
    (default ctx (ann !! container_key name "/task-context")).

Definition parse_warm_fork_params (ann : gmap string string) : result WarmForkParams AnnotationError :=
  let task := t ← ann !! TASK_ID_ANNOTATION; if bool_decide (t = "") then None else Some t in
  let socket := default DEFAULT_READINESS_SOCKET (ann !! READINESS_SOCKET_ANNOTATION) in
  let ctx := default "" (ann !! TASK_CONTEXT_ANNOTATION) in
  let env := env_under TASK_ENV_PREFIX ann ∅ in
  match parse_warm_fork_container_names ann with
  | Err e => Err e
  | Ok names =>
      Ok (mkParams task
            match names with
            | Some names => warm_fork_target ann socket ctx env <$> names
            | None => [mkTarget "" "" socket env ctx]
            end 10000 5000)
  end.
End params.

(** The restore-time overlay: the container set must be the template's, and
    each target gets the container id recorded at snapshot time. *)
Definition target_names (l : list WarmForkTarget) : gset string := list_to_set (container_name <$> l).

Definition resolve_target (recorded : list WarmForkTarget) (t : WarmForkTarget) : WarmForkTarget :=
  match find_first (λ r, bool_decide (container_name r = container_name t)) recorded with
  | Some r => mkTarget (container_name t) (container_id r) (socket_path t) (Types.env_overrides t) (Types.context t)
  | None => t
  end.

Definition overlay_targets (recorded : list WarmForkTarget) (p : WarmForkParams) : option WarmForkParams :=
  if bool_decide (recorded = []) then Some p
  else if bool_decide (target_names recorded = target_names (targets p))
  then Some (mkParams (Types.task_id p) (resolve_target recorded <$> targets p)
               (prepare_timeout_ms p) (commit_timeout_ms p))
  else None.

(** ** The injection request and the check of the response *)
Definition container_task (p : WarmForkParams) (t : WarmForkTarget) : ContainerTask :=
  mkTask (container_id t) (socket_path t) (default "" (Types.task_id p)) (Types.env_overrides t) (Types.context t).

Definition inject_requests (p : WarmForkParams) : list ContainerTask := container_task p <$> targets p.

Definition inject_accepted (tasks : list ContainerTask) (results : list ContainerInjectResult) : bool :=
  bool_decide (length results = length tasks) &&
  bool_decide ((list_to_set (ir_container_id <$> results) : gset string)
                 = list_to_set (ct_container_id <$> tasks)) &&
  forallb (λ r, bool_decide (ir_status r = INJECT_STARTED)) results.

(** ** What an accepted injection means

    The whole exchange as the target saw it, and what was written to it. *)
Definition took_part (autonomous : bool) (p : Peer) (c : Conn) : Prop :=
  ∃ caps rest, protocol_version caps = PROTOCOL_VERSION ∧
    if autonomous
    then incoming (p_conn p) = Some (CapabilitiesMsg caps) :: Some Started :: rest ∧ attempted c = [Commit]
    else incoming (p_conn p) = Some (CapabilitiesMsg caps) :: Some Ready :: Some Started :: rest ∧
         attempted c = [prepare_msg p; Commit].

Lemma autonomous_one_spec p o c' :
  attempted (p_conn p) = [] → inject_autonomous_one p (p_conn p) = (o, c') →
  (∀ cid, o = Some (Ok cid) → cid = ct_container_id (p_task p) ∧ took_part true p c') ∧
  (∀ r, o = Some (Err r) → ir_status r ≠ INJECT_STARTED).
Proof.
  intros Ha. unfold inject_autonomous_one. unfold mbind at 1, P_bind.
  destruct (connect_in_ns p (p_conn p)) as [oc c1] eqn:E1.
  destruct (connect_inv _ _ _ _ E1) as (I1 & A1 & _). rewrite Ha in A1.
  destruct oc as [[e|]|]; [unfold mret, P_ret; intros [= <- <-]; split; [done|]; by intros r [= <-]; destruct e| |by intros [= <- <-]].
  unfold mbind at 1, P_bind. destruct (read_and_verify_capabilities c1) as [ok c2] eqn:E2.
  destruct (capabilities_inv _ _ _ E2) as (A2 & Hcap). rewrite A1 in A2.
  destruct ok as [[|]|]; simpl; [|unfold mret, P_ret; intros [= <- <-]; split; [done|by intros r [= <-]]|by intros [= <- <-]].
  destruct (Hcap eq_refl) as (caps & Hi & Hv). intros E.
  destruct (commit_one_spec (ct_container_id (p_task p)) c2 o c' E) as (_ & Hok & Herr). split.
  - intros cid Ho. destruct (Hok cid Ho) as (-> & Hat & Hin). split; [done|]. exists caps, (incoming c').
    rewrite A2 in Hat. rewrite <- I1, Hi, Hin. done.
  - intros r Ho. by destruct (Herr r Ho).
Qed.

Lemma all_started_Ok (k : list (result string ContainerInjectResult * Conn)) i r c :
  (∀ e, r = Err e → ir_status e ≠ INJECT_STARTED) →
  k !! i = Some (r, c) → Forall (λ r, ir_status r = INJECT_STARTED) (to_result <$> k) → ∃ cid, r = Ok cid.
Proof.
  intros He Hk Hs. rewrite Forall_fmap, Forall_lookup in Hs. specialize (Hs i _ Hk). simpl in Hs.
  destruct r as [cid|e]; [eauto|]. by destruct (He e eq_refl).
Qed.

Lemma timed_out_started st ph peers i p (Q : Prop) :
  Forall (λ r, ir_status r = INJECT_STARTED) (timed_out st ph peers) → peers !! i = Some p →
  st ≠ INJECT_STARTED → Q.
Proof.
  unfold timed_out. rewrite Forall_fmap, Forall_lookup. intros Hs Hi Hst. by specialize (Hs i p Hi).
Qed.

Lemma autonomous_started peers rs cs :
  fresh_peers peers → inject_autonomous peers = (rs, cs) → Forall (λ r, ir_status r = INJECT_STARTED) rs →
  each peers cs (took_part true).
Proof.
  intros Hf. unfold inject_autonomous. destruct (all_done _) as [l|] eqn:Hd; intros [= <- <-] Hs i p c Hi Hc.
  - destruct (all_done_lookup _ _ Hd) as [_ Hl].
    destruct (Hl i (inject_autonomous_one p (p_conn p))) as (r & E1 & E2); [by rewrite list_lookup_fmap, Hi|].
    destruct (inject_autonomous_one p (p_conn p)) as [o c0] eqn:E. simpl in *. subst o.
    rewrite list_lookup_fmap, E2 in Hc. injection Hc as <-.
    destruct (autonomous_one_spec p (Some r) c0) as [Hok Herr]; [by apply Hf; eapply list_elem_of_lookup_2|done|].
    destruct (all_started_Ok l i r c0) as [cid ->]; [|done..|by destruct (Hok cid eq_refl)].
    intros e ->. by apply Herr.
  - by eapply timed_out_started.
Qed.

Lemma two_phase_started peers b rs cs :
  fresh_peers peers → inject_two_phase peers b = (rs, cs) → Forall (λ r, ir_status r = INJECT_STARTED) rs →
  each peers cs (took_part false).
Proof.
  intros Hf. unfold inject_two_phase. destruct (all_done _) as [l|] eqn:Hd.
  2:{ intros [= <- <-] Hs i p c Hi _. by eapply timed_out_started. }
  destruct (prepared_spec peers l Hf Hd) as [Hlen Hl]. destruct (failed_of l) as [|e es] eqn:Ef.
  2:{ intros [= <- <-] Hs. exfalso. apply Forall_cons in Hs as [Hs _].
      assert (e ∈ failed_of l) as He by (rewrite Ef; by left).
      apply list_elem_of_omap in He as ([r c] & Hin & Hr). simpl in Hr.
      destruct r as [|r]; [done|]. injection Hr as ->. apply list_elem_of_lookup in Hin as [i Hi].
      destruct (lookup_lt_is_Some_2 peers i) as [p Hp]; [rewrite <- Hlen; by eapply lookup_lt_Some|].
      destruct (Hl i p Hp) as (r' & c' & Hli & _ & Hr'). rewrite Hi in Hli. injection Hli as <- <-. tauto. }
  destruct (all_done (imap _ l)) as [k|] eqn:Ek; intros [= <- <-] Hs i p c Hi Hc.
  2:{ by eapply timed_out_started. }
  destruct (all_done_lookup _ _ Hd) as [_ Hld].
  destruct (Hld i (inject_prepare_one p (p_conn p))) as (r & E1 & E2); [by rewrite list_lookup_fmap, Hi|].
  destruct (inject_prepare_one p (p_conn p)) as [o c0] eqn:E. simpl in *. subst o.
  destruct (failed_nil l Ef i _ E2) as [cid Er]. simpl in Er. subst r.
  destruct (prepare_one_spec p _ _ (Hf p (list_elem_of_lookup_2 _ _ _ Hi)) E) as (_ & Hok & _).
  destruct (Hok cid eq_refl) as (-> & Hat & (_ & caps & rest & Hinc & Hv) & caps' & Hinc').
  destruct (all_done_lookup _ _ Ek) as [_ Hk].
  destruct (Hk i (commit_one (b i) (Ok (ct_container_id (p_task p)), c0))) as (r & Er & Ekr);
    [by rewrite list_lookup_imap, E2|].
  unfold commit_one in Er, Ekr. simpl in Er, Ekr.
  destruct (inject_commit_one _ (set_budget (b i) c0)) as [o c1] eqn:E3. simpl in *. subst o.
  destruct (commit_one_spec _ _ _ _ E3) as (_ & Hok1 & Herr1).
  destruct (all_started_Ok k i r c1) as [cid ->]; [|done..|].
  { intros e ->. by apply Herr1. }
  destruct (Hok1 cid eq_refl) as (_ & Hat1 & Hin1). simpl in Hat1, Hin1.
  rewrite list_lookup_fmap, Ekr in Hc. injection Hc as <-.
  exists caps', (incoming c1). rewrite Hinc, Hin1 in Hinc'. injection Hinc' as <- ->.
  split; [done|]. by rewrite Hinc, Hat1, Hat.
Qed.

Lemma inject_accepted_inv tasks rs :
  inject_accepted tasks rs = true → length rs = length tasks ∧ Forall (λ r, ir_status r = INJECT_STARTED) rs.
Proof.
  unfold inject_accepted. rewrite !andb_true_iff. intros [[Hl%bool_decide_eq_true _] Hs]. split; [done|].
  apply Forall_forall. intros r Hr. rewrite forallb_forall in Hs.
  apply (bool_decide_eq_true (ir_status r = INJECT_STARTED)), Hs. by apply list_elem_of_In.
Qed.

(** An accepted injection is a completed one. When the host accepts the
    guest's answer to the request it built from the pod's annotations, every
    target ran the whole exchange to STARTED: with a task id, CAPABILITIES,
    PREPARE, READY, COMMIT, STARTED; without one, CAPABILITIES, COMMIT,
    STARTED. *)
Theorem accepted_injection_completed p peers b rs cs :
  fresh_peers peers → p_task <$> peers = inject_requests p → inject_task peers b = (rs, cs) →
  inject_accepted (inject_requests p) rs = true →
  each peers cs (took_part (bool_decide (default "" (Types.task_id p) = ""))).
Proof.
  intros Hf Hp Ei [_ Hs]%inject_accepted_inv. unfold inject_task in Ei.
  assert (∀ q, q ∈ peers → ct_task_id (p_task q) = default "" (Types.task_id p)) as Hid.
  { intros q Hq. assert (p_task q ∈ inject_requests p) as Hin by (rewrite <- Hp; by apply list_elem_of_fmap_2).
    unfold inject_requests in Hin. by apply list_elem_of_fmap in Hin as (t & -> & _). }
  case_bool_decide as Ed.
  - rewrite (proj2 (forallb_forall _ _)) in Ei; [by eapply autonomous_started|].
    intros q Hq%list_elem_of_In. apply bool_decide_eq_true. by rewrite Hid.
  - destruct peers as [|q peers]; [by intros i ? ? ?|].
    cbn [forallb] in Ei. rewrite (Hid q) in Ei by by left. rewrite bool_decide_false in Ei by done. cbn [andb] in Ei. by eapply two_phase_started.
Qed.

Lemma accepted_injection_completed_witness :
  let p := mkParams (Some "task") [mkTarget "" "a" "" ∅ ""; mkTarget "" "b" "" ∅ ""] 0 0 in
  let r := inject_task [good_peer "a"; good_peer "b"] (λ _, 5) in
  each [good_peer "a"; good_peer "b"] r.2 (took_part false).
Proof.
  intros p r.
  apply (accepted_injection_completed p [good_peer "a"; good_peer "b"] (λ _, 5) r.1 r.2).
  - intros q [->|[->|Hq]%elem_of_cons]%elem_of_cons; [reflexivity|reflexivity|by apply elem_of_nil in Hq].
  - reflexivity.
  - apply surjective_pairing.
  - vm_compute. reflexivity.
Defined.

(** ** The parameters *)
Lemma container_names_ok seen l names :
  NoDup seen → container_names seen l = Ok names →
  names = seen ++ (trim <$> l) ∧ NoDup names ∧ "" ∉ (trim <$> l).
Proof.
  revert seen. induction l as [|raw l IH]; intros seen Hn; simpl.
  - intros [= <-]. rewrite app_nil_r. split_and!; [done|done|]. apply not_elem_of_nil.
  - case_bool_decide as E1; [done|]. case_bool_decide as E2; [done|]. intros E.
    destruct (IH (seen ++ [trim raw])) as (-> & Hd & He); [|done|].
    { apply NoDup_app. split_and!; [done| |by apply NoDup_singleton].
      intros x Hx Hx'%list_elem_of_singleton. by subst. }
    rewrite <- app_assoc in *. split_and!; [done|done|]. apply not_elem_of_cons. done.
Qed.

Section env.
Context `{HashOrder}.

Lemma env_fold_lookup prefix (l : list (string * string)) (base : gmap string string) k :
  NoDup l.*1 →
  foldl (λ env kv, match strip_prefix prefix kv.1 with Some k => <[k := kv.2]> env | None => env end) base l !! k =
  match list_to_map (M := gmap string string) l !! (prefix +:+ k) with Some v => Some v | None => base !! k end.
Proof.
  revert base. induction l as [|[x v] l IH]; intros base Hn; simpl; [by rewrite lookup_empty|].
  apply NoDup_cons in Hn as [Hx Hn]. rewrite IH by done. destruct (decide (x = prefix +:+ k)) as [->|Hne].
  - rewrite lookup_insert_eq, strip_prefix_app, lookup_insert_eq.
    by rewrite (not_elem_of_list_to_map_1 _ _ Hx).
  - rewrite lookup_insert_ne by done. destruct (list_to_map l !! (prefix +:+ k)); [done|].
    destruct (strip_prefix prefix x) as [y|] eqn:E; [|done]. apply strip_prefix_Some in E as ->.
    rewrite lookup_insert_ne; [done|]. by intros ->.
Qed.

(** The entry under the prefix wins over the base, whatever the iteration
    order of the annotations. *)
Lemma env_under_lookup prefix ann base k :
  env_under prefix ann base !! k = match ann !! (prefix +:+ k) with Some v => Some v | None => base !! k end.
Proof.
  unfold env_under. pose proof (hash_iter_perm ann) as Hp.
  rewrite env_fold_lookup.
  - rewrite (list_to_map_proper _ (map_to_list ann)); [by rewrite list_to_map_to_list| |done].
    rewrite Hp. apply NoDup_fst_map_to_list.
  - rewrite Hp. apply NoDup_fst_map_to_list.
Qed.

(** the parameters of a restore. On success the targets are the listed
    containers in order, with distinct non-empty names, or one unnamed target
    when none are listed. A target's socket, context and each environment
    variable come from its own annotation, else from the pod's, else from the
    default; the container id is left for the overlay; an empty task id is no
    task id. *)
Theorem warm_fork_params_spec ann p :
  parse_warm_fork_params ann = Ok p →
  Types.task_id p ≠ Some "" ∧
  (∀ t, ann !! TASK_ID_ANNOTATION = Some t → t ≠ "" → Types.task_id p = Some t) ∧
  match ann !! WARM_FORK_CONTAINERS_ANNOTATION with
  | None => container_name <$> targets p = [""]
  | Some v => container_name <$> targets p = trim <$> split ","%char v ∧
              NoDup (container_name <$> targets p) ∧ "" ∉ container_name <$> targets p
  end ∧
  ∀ t, t ∈ targets p → container_id t = "" ∧
    let own suffix := if bool_decide (is_Some (ann !! WARM_FORK_CONTAINERS_ANNOTATION))
                      then ann !! container_key (container_name t) suffix else None in
    socket_path t = default (default DEFAULT_READINESS_SOCKET (ann !! READINESS_SOCKET_ANNOTATION))
                      (own "/warm-fork-readiness-socket") ∧
    Types.context t = default (default "" (ann !! TASK_CONTEXT_ANNOTATION)) (own "/task-context") ∧
    ∀ k, Types.env_overrides t !! k =
      match own ("/task-env/" +:+ k) with
      | Some v => Some v
      | None => ann !! (TASK_ENV_PREFIX +:+ k)
      end.
Proof.
  unfold parse_warm_fork_params, parse_warm_fork_container_names.
  assert (∀ k, env_under TASK_ENV_PREFIX ann ∅ !! k = ann !! (TASK_ENV_PREFIX +:+ k)) as Hpod.
  { intros k. rewrite env_under_lookup, lookup_empty. by destruct (ann !! _). }
  assert (∀ t : option string, (t0 ← t; if bool_decide (t0 = "") then None else Some t0) ≠ Some "") as Htask.
  { intros [t|]; simpl; [|done]. case_bool_decide; [done|]. by intros [= ->]. }
  assert (∀ t, ann !! TASK_ID_ANNOTATION = Some t → t ≠ "" →
    (t0 ← ann !! TASK_ID_ANNOTATION; if bool_decide (t0 = "") then None else Some t0) = Some t) as Htask'.
  { intros t -> Ht. simpl. by rewrite bool_decide_false. }
  destruct (ann !! WARM_FORK_CONTAINERS_ANNOTATION) as [v|] eqn:Ev.
  - destruct (container_names [] (split ","%char v)) as [names|] eqn:En; [|done].
    destruct (container_names_ok _ _ _ (NoDup_nil_2) En) as (Hnames & Hnd & Hne). simpl in Hnames.
    destruct names as [|n names]; [done|]. intros Hp. injection Hp as Hp.
    set (target := warm_fork_target _ _ _ _) in Hp.
    assert (targets p = target <$> (n :: names)) as Ht by by rewrite <- Hp.
    assert (container_name <$> targets p = n :: names) as En'.
    { rewrite Ht, <- list_fmap_compose. etrans; [by apply (list_fmap_ext _ id)|apply list_fmap_id]. }
    split; [rewrite <- Hp; apply Htask|]. split; [rewrite <- Hp; exact Htask'|].
    rewrite En'. split; [split_and!; [done|done|by rewrite Hnames]|].
    intros t. rewrite Ht. intros (m & -> & Hm)%list_elem_of_fmap. simpl.
    split_and!; [done|done|done|]. intros k. rewrite env_under_lookup, Hpod.
    unfold container_key. by rewrite !app_assoc_str.
  - intros [= <-]. split; [apply Htask|]. split; [exact Htask'|]. split; [done|]. intros t ->%list_elem_of_singleton. simpl.
    done.
Qed.
End env.

Lemma warm_fork_params_spec_witness :
  ∃ p, parse_warm_fork_params (H := listing_order)
         {[ WARM_FORK_CONTAINERS_ANNOTATION := "a, b"; "kuasar.io/task-env/X" := "1";
            "kuasar.io/container/b/task-env/X" := "2"; TASK_ID_ANNOTATION := "" ]} = Ok p ∧
    container_name <$> targets p = ["a"; "b"] ∧ (∀ t, t ∈ targets p → container_id t = "").
Proof.
  destruct (parse_warm_fork_params (H := listing_order)
    {[ WARM_FORK_CONTAINERS_ANNOTATION := "a, b"; "kuasar.io/task-env/X" := "1";
       "kuasar.io/container/b/task-env/X" := "2"; TASK_ID_ANNOTATION := "" ]}) as [p|e] eqn:E;
    [|exfalso; vm_compute in E; discriminate].
  destruct (warm_fork_params_spec (H := listing_order) _ _ E) as (_ & _ & Hn & Ht).
  exists p. split; [reflexivity|]. split; [apply Hn|]. intros t Hin. apply (Ht t Hin).
Defined.
