(* ===== verification/Box.v ===== *)
(** * A sandbox and its calls to the outside

    The state of [KuasarSandbox] ([vmm/sandbox/src/sandbox.rs]), its containers
    ([vmm/sandbox/src/container/mod.rs]) and the monad of the operations on one
    sandbox: the sandbox, the outcomes of the outside calls still to come and
    the log of the calls made. *)
From S2P Require Import Prelude Strs Storage Types GuestScan Mount Inject Annotations.

(** ** Restore metadata *)
Record RestoreMetadata := mkRestore {
  template_id : option string;
  template_snapshot_type : option SnapshotType;
  r_lease_mode : option TemplateLeaseMode;
  r_reflink_supported : option bool;
  memory_restore_mode : option MemoryRestoreMode;
  r_orphan_container_ids : list string
}.

(** [RestoreMetadata::default()] *)
Definition no_restore : RestoreMetadata := mkRestore None None None None None [].

Definition set_orphans (l : list string) (r : RestoreMetadata) : RestoreMetadata :=
  mkRestore (template_id r) (template_snapshot_type r) (r_lease_mode r) (r_reflink_supported r)
    (memory_restore_mode r) l.

(** ** Containers *)

(** The parts of a [JsonSpec] the sandboxer reads or writes. *)
Record Namespace := mkNamespace { ns_type : string; ns_path : string }.
Record Root := mkRoot { root_path : string; root_readonly : bool }.
Record Spec := mkSpec {
  sp_mounts : list Mount;
  sp_root : option Root;
  sp_annotations : gmap string string;
  sp_apparmor : option string;                   (** [process.apparmor_profile] *)
  sp_namespaces : option (list Namespace);       (** [linux.namespaces] *)
  sp_cpus : option string                        (** [linux.resources.cpu.cpus] *)
}.

Record Io := mkIo { io_stdin : string; io_stdout : string; io_stderr : string; io_terminal : bool }.

Record ProcessData := mkProcessData { pd_id : string; pd_io : option Io }.
Record KuasarProcess := mkProcess { kp_id : string; kp_io_devices : list string; kp_data : ProcessData }.

(** [ContainerData] of the options and of the container. *)
Record ContainerData := mkContainerData {
  cd_id : string;
  cd_spec : option Spec;
  cd_rootfs : list Mount;
  cd_io : option Io;
  cd_processes : list ProcessData;
  cd_bundle : string
}.

Record KuasarContainer := mkContainer {
  kc_id : string;
  kc_data : ContainerData;
  kc_io_devices : list string;
  kc_processes : list KuasarProcess
}.

(** ** The sandbox *)

(** [containerd_sandbox::SandboxStatus]; [StOther] is any variant the code
    does not name. *)
Inductive SandboxStatus := StCreated | StRunning (pid : N) | StStopped (code : N) (ts : Z) | StOther.

(** What the restore reads of a [Network]. *)
Record Network := mkNetwork { has_interfaces : bool; has_routes : bool }.

Record ContainerStoragePolicy := mkPolicy {
  storage_backend : string;
  allow_large_bind_mount : bool;
  enable_reflink_cow : bool;
  block_image_size_overhead_percent : N;
  small_dir_max_files : nat;
  small_dir_max_bytes : N;
  overlay_image_fallback_size_mb : N;
  bind_image_fallback_size_mb : N
}.

Definition VIRTIO_BLK : string := "virtio-blk".
Definition VIRTIOFS : string := "virtiofs".
Definition ContainerStoragePolicy_default : ContainerStoragePolicy :=
  mkPolicy VIRTIOFS false false 20 50 (10 * 1024 * 1024) 64 8.

Record Sandbox := mkSandbox {
  sb_status : SandboxStatus;
  sb_base_dir : string;
  sb_netns : string;
  sb_annotations : option (gmap string string);
  sb_pid_mode : option bool;                     (** the pod's pid namespace mode: is it [Pod]? *)
  sb_containers : gmap string KuasarContainer;
  sb_storages : list Storage;
  sb_id_generator : N;
  sb_network : option Network;
  sb_client : bool;                              (** a guest agent client is set *)
  sb_cgroup_parent : string;                     (** [sandbox_cgroups.cgroup_parent_path] *)
  sb_policy : ContainerStoragePolicy;
  sb_restore : RestoreMetadata
}.

Definition sb_virtio_blk (b : Sandbox) : bool := bool_decide (storage_backend (sb_policy b) = VIRTIO_BLK).

Definition set_status (s : SandboxStatus) (b : Sandbox) : Sandbox :=
  mkSandbox s (sb_base_dir b) (sb_netns b) (sb_annotations b) (sb_pid_mode b) (sb_containers b) (sb_storages b)
    (sb_id_generator b) (sb_network b) (sb_client b) (sb_cgroup_parent b) (sb_policy b) (sb_restore b).
Definition set_data (netns : string) (ann : option (gmap string string)) (pid : option bool) (b : Sandbox) : Sandbox :=
  mkSandbox (sb_status b) (sb_base_dir b) netns ann pid (sb_containers b) (sb_storages b)
    (sb_id_generator b) (sb_network b) (sb_client b) (sb_cgroup_parent b) (sb_policy b) (sb_restore b).
Definition set_containers (f : gmap string KuasarContainer → gmap string KuasarContainer) (b : Sandbox) : Sandbox :=
  mkSandbox (sb_status b) (sb_base_dir b) (sb_netns b) (sb_annotations b) (sb_pid_mode b) (f (sb_containers b))
    (sb_storages b) (sb_id_generator b) (sb_network b) (sb_client b) (sb_cgroup_parent b) (sb_policy b) (sb_restore b).
Definition set_storages (f : list Storage → list Storage) (b : Sandbox) : Sandbox :=
  mkSandbox (sb_status b) (sb_base_dir b) (sb_netns b) (sb_annotations b) (sb_pid_mode b) (sb_containers b)
    (f (sb_storages b)) (sb_id_generator b) (sb_network b) (sb_client b) (sb_cgroup_parent b) (sb_policy b) (sb_restore b).
Definition set_id_generator (n : N) (b : Sandbox) : Sandbox :=
  mkSandbox (sb_status b) (sb_base_dir b) (sb_netns b) (sb_annotations b) (sb_pid_mode b) (sb_containers b)
    (sb_storages b) n (sb_network b) (sb_client b) (sb_cgroup_parent b) (sb_policy b) (sb_restore b).
Definition set_network (n : option Network) (b : Sandbox) : Sandbox :=
  mkSandbox (sb_status b) (sb_base_dir b) (sb_netns b) (sb_annotations b) (sb_pid_mode b) (sb_containers b)
    (sb_storages b) (sb_id_generator b) n (sb_client b) (sb_cgroup_parent b) (sb_policy b) (sb_restore b).
Definition set_client (c : bool) (b : Sandbox) : Sandbox :=
  mkSandbox (sb_status b) (sb_base_dir b) (sb_netns b) (sb_annotations b) (sb_pid_mode b) (sb_containers b)
    (sb_storages b) (sb_id_generator b) (sb_network b) c (sb_cgroup_parent b) (sb_policy b) (sb_restore b).
Definition set_restore (r : RestoreMetadata) (b : Sandbox) : Sandbox :=
  mkSandbox (sb_status b) (sb_base_dir b) (sb_netns b) (sb_annotations b) (sb_pid_mode b) (sb_containers b)
    (sb_storages b) (sb_id_generator b) (sb_network b) (sb_client b) (sb_cgroup_parent b) (sb_policy b) r.

(** [vm.rs]: a disk image that is copied with a snapshot. *)
Record DiskSnapshot := mkDiskSnapshot { ds_storage_id : string; ds_device_id : string; ds_img_path : string }.

(** ** Calls to the outside *)
Inductive Action :=
  (** cgroups, hooks, network, the sandbox directory *)
  | CreateCgroups | RemoveCgroups | CreateVm | SetupSandboxFiles | HookPostCreate | Dump
  | HookPreStart | HookPostStart | HookPreStop | HookPostStop
  | PrepareNetwork | DestroyNetwork | AddToCgroup | CleanupMounts | RemoveBaseDir | CleanupWorkDir
  | StatSnapshot (dir pmem : string)
  (** the hypervisor *)
  | VmStart | VmRestore (snapshot_dir : string) | VmStop | VmRecover | HotplugNetwork
  | HotAttach (dev path : string) (readonly : bool) | HotAttachPipe (dev path : string) | HotDetach (dev : string)
  (** the guest agent *)
  | ConnectClient | PushSandboxFiles | SetupSandbox | SyncClock | ForwardEvents | ReseedEntropy
  | UpdateInterfaces | UpdateRoutes | InjectTask (tasks : list ContainerTask)
  | AdoptContainer (old_id new_id : string)
  | PushFile (dest : string) (mode : N) | EnsureDir (dest : string) | InjectDir (dest : string)
  (** the host file system and programs *)
  | IsBlockDevice (path : string) | IsDir (path : string) | IsRegular (path : string) | PathExists (path : string)
  | Lstat (path : string) | ReadFile (path : string) | MountInfoOf (path : string)
  | CreateDirAll (path : string) | CreateFile (path : string) | SetLen (path : string) (len : N)
  | WriteAll (path : string) | SyncData (path : string) | Rename (from to : string) | RemoveFile (path : string) | RemoveDir (path : string) | RemoveDirAll (path : string)
  | BindMount (source target : string) (options : list string)
  | MountRootfs (fstype source : string) (options : list string) (target : string) | Unmount (target : string)
  | Run (argv : list string)
  (** building templates *)
  | WaitAgentReady (timeout : N) | ExecVm (command : string)
  | VmSnapshot (dir : string) (disks : list DiskSnapshot) | CheckInject (targets : list (string * string))
  | SpawnRefill (refill_id : string).

Inductive SbError :=
  | AlreadyExist | SbNotFound | InvalidArgument | BadAnnotation (e : AnnotationError)
  | NotInitialized | RestoreDisabled | MissingAnnotation | PoolMiss | WrongTemplateType | KeyMismatch
  | NoProtocolVersion | SnapshotFilesMissing | TargetMismatch | NoParams | NoClient | InjectRejected
  | StatusError | NoMatchingSnapshot | BadScan | Failed (a : Action)
  | NotConfigured | WrongBackend | NotReady | ContainerNotFound (name : string) | WrongContainerCount (n : nat)
  | AlreadySnapshotted | PoolFailed | StoreFailed.

(** What the outside answers besides success or failure. *)
Inductive BusType := PCI | PCIE | CCW | SCSI | MMIO | SERIAL | NULL.

(** [symlink_metadata] of a path. *)
Inductive FileKind := KFile (mode : N) | KDir (tree : bool * list (string * Node)) | KSymlink | KOther.

Record Outside := mkOutside {
  attach_addr : string → BusType * string;       (** of a device id *)
  blkid_output : string → string;
  mountinfo_of : string → option MountInfo;
  lstat_of : string → FileKind;
  du_output : string → string;
  dir_tree : string → bool * list (string * Node);
  storages_json : list Storage → string;         (** [serde_json] *)
  clean_path : string → string                   (** [path_clean] *)
}.

(** ** The monad of one sandbox *)
Record Box := mkBox {
  bx : Sandbox;
  bx_ext : list bool;                            (** outcomes to come; [true] when empty *)
  bx_log : list (Action * bool)
}.

Definition self {A} (f : Sandbox → A) : M Box A := gets (λ x, f (bx x)).
Definition set_self (f : Sandbox → Sandbox) : M Box unit := modify (λ x, mkBox (f (bx x)) (bx_ext x) (bx_log x)).

Definition host (a : Action) : M Box bool := λ x,
  let b := default true (head (bx_ext x)) in
  Some (b, mkBox (bx x) (tail (bx_ext x)) (bx_log x ++ [(a, b)])).

(** [call(..).await?] and [let _ = call(..).await] *)
Definition must (a : Action) : M Box (result unit SbError) :=
  b ← host a; mret (if b : bool then Ok tt else Err (Failed a)).
Definition may (a : Action) : M Box unit := _ ← host a; mret tt.

Declare Scope box_scope.
Delimit Scope box_scope with box.
(** [m?; k] *)
Notation "'do?' m ';;' k" :=
  (r ← m; match r with Ok _ => k | Err e => mret (Err e) end)
  (at level 100, m at next level, right associativity) : box_scope.
(** [let x = m?; k] *)
Notation "'let!' x := m 'in' k" :=
  (r ← m; match r with Ok x => k | Err e => mret (Err e) end)
  (at level 100, x name, m at next level, k at level 200, right associativity) : box_scope.
(** [if let Err(e) = m { c; return Err(e) } k] *)
Notation "'try?' m 'else' c ';;' k" :=
  (r ← m; match r with Ok _ => k | Err e => c;; mret (Err e) end)
  (at level 100, m at next level, c at next level, right associativity) : box_scope.
