(* ===== verification/BlockImage.v ===== *)
(** * Block images

    [vmm/sandbox/src/storage/block_provider.rs] and [attach.rs]: sizing and
    building an image from a host directory, attaching it to the VM as a
    transaction, releasing it; and [BlockDriver] of [vmm/sandbox/src/vm.rs]. *)
From S2P Require Import Prelude Strs Storage Types GuestScan Mount Inject Annotations Box.
Open Scope box_scope.

(** ** Drivers *)
Inductive BlockDriver := VirtioBlk | VirtioScsi | VirtioMmio.

Definition BlockDriver_from (s : string) : BlockDriver :=
  if bool_decide (s = "virtio-blk") then VirtioBlk
  else if bool_decide (s = "virtio-scsi") then VirtioScsi
  else if bool_decide (s = "virtio-mmio") then VirtioMmio
  else VirtioBlk.
Definition to_driver_string (d : BlockDriver) : string :=
  match d with VirtioBlk => "blk" | VirtioMmio => "mmioblk" | VirtioScsi => "scsi" end.
Definition to_bus_type (d : BlockDriver) : BusType :=
  match d with VirtioBlk => PCI | VirtioMmio => NULL | VirtioScsi => SCSI end.
Definition from_bus_type (b : BusType) : BlockDriver :=
  match b with PCI => VirtioBlk | SCSI => VirtioScsi | MMIO => VirtioMmio | _ => VirtioBlk end.

(** ** Images *)
Definition MIN_EXT4_INODES : N := 1024.

Inductive BlockFs := Ext4 | Xfs.
Definition BlockFs_as_str (f : BlockFs) : string := match f with Ext4 => "ext4" | Xfs => "xfs" end.

Record BlockPrepareRequest := mkPrepare {
  src_dir : string;
  img_path : string;
  bp_fstype : BlockFs;
  fallback_size_mb : N;
  overhead_percent : N;
  bp_source_identity : option string;
  bp_readonly : bool
}.

Record BlockArtifact := mkArtifact {
  ba_path : string;
  ba_fstype : string;
  ba_readonly : bool;
  ba_owned_by_runtime : bool;
  ba_cleanup_path : option string;
  ba_source_identity : option string
}.

Definition from_storage (s : Storage) : option BlockArtifact :=
  if negb (owned_by_runtime s) then None else
  p ← cleanup_path s;
  Some (mkArtifact p (fstype s) (bool_decide ("ro" ∈ s_options s)) (owned_by_runtime s) (Some p) (source_identity s)).

(** *** Sizes: [u64] arithmetic wraps in the release profile *)
Definition apply_overhead (base percent : N) : N := (uwrap 64 (base * (100 + percent)) / 100)%N.
Definition ext4_inode_count (entries percent : N) : N :=
  N.max (apply_overhead (N.max entries 1) percent) MIN_EXT4_INODES.

Definition estimate_dir_size_mb (stdout : string) : N :=
  default 64%N (w ← head (split_whitespace stdout); parse_uint u64_max w).

(** The entries of a tree, with the source's loop over a stack of directories:
    [None] when a directory can not be read. *)
Definition push_dirs (es : list (string * Node)) (stack : list (bool * list (string * Node)))
  : list (bool * list (string * Node)) :=
  foldl (λ st e, match e.2 with NDir r es => (r, es) :: st | _ => st end) stack es.

Fixpoint count_entries (fuel : nat) (stack : list (bool * list (string * Node))) (entries : N) : option N :=
  match fuel with
  | 0 => None
  | S fuel =>
      match stack with
      | [] => Some entries
      | (readable, es) :: stack =>
          if negb readable then None
          else count_entries fuel (push_dirs es stack) (uwrap 64 (entries + N.of_nat (length es)))
      end
  end.

Definition dir_entries (t : bool * list (string * Node)) : option N :=
  count_entries (S (node_dirs (NDir t.1 t.2))) [t] 1.

(** *** Building *)
Section provider.
Context (ow : Outside).

(** [du -sm], then the walk. *)
Definition estimate_dir_tree_stats (dir : string) : M Box (option (N * N)) :=
  b ← host (Run ["du"; "-sm"; dir]);
  mret (if b : bool then n ← dir_entries (dir_tree ow dir); Some (estimate_dir_size_mb (du_output ow dir), n)
        else None).

Definition create_image (path : string) (size_mb : N) (mkfs : list string) : M Box (result unit SbError) :=
  do? must (CreateFile path);;
  do? must (SetLen path (uwrap 64 (size_mb * 1024 * 1024)));;
  must (Run mkfs).

Definition create_ext4_image_with_inodes (path : string) (size_mb inodes : N) : M Box (result unit SbError) :=
  create_image path size_mb
    ["mkfs.ext4"; "-F"; "-O"; "^has_journal"; "-E"; "lazy_itable_init=0,lazy_journal_init=0"; "-N";
     pretty (N.max inodes MIN_EXT4_INODES); path].
Definition create_xfs_image (path : string) (size_mb : N) : M Box (result unit SbError) :=
  create_image path size_mb ["mkfs.xfs"; "-f"; "-m"; "reflink=1"; path].

Definition copy_dir_to_loop_image (src img : string) : M Box (result unit SbError) :=
  let mnt := img +:+ ".mnt" in
  do? must (CreateDirAll mnt);;
  try? must (Run ["mount"; "-o"; "loop"; img; mnt]) else may (RemoveDir mnt);;
  r ← must (Run ["rsync"; "-aHAX"; "--delete"; src +:+ "/"; mnt +:+ "/"]);
  u ← host (Run ["umount"; mnt]);
  (if u : bool then mret tt else may (Unmount mnt));;
  may (RemoveDirAll mnt);;
  mret r.

(** [LocalBlockProvider::prepare] *)
Definition prepare (req : BlockPrepareRequest) : M Box (result BlockArtifact SbError) :=
  st ← estimate_dir_tree_stats (src_dir req);
  let base := match st with Some (mb, _) => mb | None => fallback_size_mb req end in
  let inodes := match st with
                | Some (_, n) => ext4_inode_count n (overhead_percent req)
                | None => MIN_EXT4_INODES
                end in
  let size_mb := N.max (apply_overhead base (overhead_percent req)) (fallback_size_mb req) in
  try? (match bp_fstype req with
        | Ext4 => do? create_ext4_image_with_inodes (img_path req) size_mb inodes;;
                  copy_dir_to_loop_image (src_dir req) (img_path req)
        | Xfs => do? create_xfs_image (img_path req) size_mb;;
                 copy_dir_to_loop_image (src_dir req) (img_path req)
        end)
  else may (RemoveFile (img_path req));;
  mret (Ok (mkArtifact (img_path req) (BlockFs_as_str (bp_fstype req)) (bp_readonly req) true
              (Some (img_path req)) (bp_source_identity req))).

(** [LocalBlockProvider::release]; a file that can not be removed is logged. *)
Definition release_artifact (a : BlockArtifact) : M Box (result unit SbError) :=
  if negb (ba_owned_by_runtime a) then mret (Ok tt) else
  match ba_cleanup_path a with
  | None => mret (Err InvalidArgument)
  | Some p => may (RemoveFile p);; mret (Ok tt)
  end.

(** ** The attach transaction *)
Record AttachedBlock := mkAttached {
  at_artifact : BlockArtifact;
  at_device_id : string;
  at_bus_type : BusType;
  at_guest_addr : string
}.

Definition attach_block (a : BlockArtifact) (device_id : string) (read_only : bool)
  : M Box (result AttachedBlock SbError) :=
  b ← host (HotAttach device_id (ba_path a) read_only);
  if b : bool then
    mret (Ok (mkAttached a device_id (attach_addr ow device_id).1 (attach_addr ow device_id).2))
  else
    _ ← release_artifact a;
    mret (Err (Failed (HotAttach device_id (ba_path a) read_only))).

Definition rollback_attached (x : AttachedBlock) : M Box unit :=
  may (HotDetach (at_device_id x));;
  _ ← release_artifact (at_artifact x);
  mret tt.

Definition into_storage (x : AttachedBlock) (host_source mount_type storage_id : string) (options : list string)
    (mount_point : string) (lower_dirs : option string) : Storage :=
  mkStorage host_source mount_type storage_id (Some (at_device_id x)) ∅ true (at_guest_addr x)
    (to_driver_string (from_bus_type (at_bus_type x))) [] (ba_fstype (at_artifact x)) options mount_point
    lower_dirs (ba_cleanup_path (at_artifact x)) (ba_owned_by_runtime (at_artifact x))
    (ba_source_identity (at_artifact x)).
End provider.
