(* ===== verification/StorageOps.v ===== *)
(** * Attaching and detaching the storages of containers

    [vmm/sandbox/src/storage/mod.rs] on the device graph of a sandbox:
    [attach_storage] with its handlers for block devices, bind mounts, overlays
    and tmpfs volumes on virtiofs and virtio-blk, the release of references and
    the collection of unused storages; [get_fstype] of [storage/utils.rs]. *)
From S2P Require Import Prelude Strs Storage Types GuestFile GuestScan Mount Inject Annotations Box BlockImage.
Open Scope box_scope.

Definition KUASAR_STATE_DIR : string := "/run/kuasar/state".
Definition KUASAR_GUEST_SHARE_DIR : string := "/run/kuasar/storage/containers/".
Definition SHARED_DIR_SUFFIX : string := "shared".
Definition DRIVEREPHEMERALTYPE : string := "ephemeral".
Definition DRIVER_GUEST_FILE : string := "guest-file".

Section storages.
Context `{HashOrder} (ow : Outside).

Definition get_sandbox_shared_path (b : Sandbox) : string := sb_base_dir b +:+ "/" +:+ SHARED_DIR_SUFFIX.

(** [u32]: the counter wraps in the release profile. *)
Definition increment_and_get_id : M Box N :=
  set_self (λ b, set_id_generator (uwrap 32 (sb_id_generator b + 1)) b);;
  self sb_id_generator.

(** *** [get_fstype]: the TYPE line of [blkid] *)
Fixpoint fstype_line (ls : list string) : option string :=
  match ls with
  | [] => None
  | l :: ls =>
      match split "=" l with
      | [k; v] => if bool_decide (k = "TYPE") then Some v else fstype_line ls
      | _ => fstype_line ls
      end
  end.

Definition blkid_cmd (path : string) : Action :=
  Run ["blkid"; "-p"; "-s"; "TYPE"; "-s"; "PTTYPE"; "-o"; "export"; path].

Definition get_fstype (path : string) : M Box (result string SbError) :=
  do? must (blkid_cmd path);;
  mret (match fstype_line (lines (blkid_output ow path)) with
        | Some t => Ok t
        | None => Err (Failed (blkid_cmd path))
        end).

(** ** Reusing a storage *)
Definition is_ro (m : Mount) : bool := bool_decide ("ro" ∈ m_options m).
Definition ro_options (m : Mount) : list string := if is_ro m then ["ro"] else [].

(** Change the storage that [find_reusable_storage] finds, if any. *)
Definition on_reusable (m : Mount) (rootfs : bool) (f : Storage → Storage) (l : list Storage) : list Storage :=
  match find_reusable_storage_index l m rootfs with
  | Some i => alter f i l
  | None => l
  end.

Definition push_storage (container_id : string) (s : Storage) : M Box (result unit SbError) :=
  set_self (set_storages (λ l, l ++ [refer container_id s]));;
  mret (Ok tt).

(** ** The handlers *)
Definition handle_block_device (id container_id : string) (m : Mount) : M Box (result unit SbError) :=
  if bool_decide (m_source m = "") then mret (Err InvalidArgument) else
  n ← increment_and_get_id;
  let device_id := "blk" +:+ pretty n in
  do? must (HotAttach device_id (m_source m) (is_ro m));;
  let! t := get_fstype (m_source m) in
  push_storage container_id
    (mkStorage (m_source m) (m_type m) id (Some device_id) ∅ true (attach_addr ow device_id).2
       (to_driver_string (from_bus_type (attach_addr ow device_id).1)) [] t (ro_options m)
       (KUASAR_GUEST_SHARE_DIR +:+ id) None None false (Some ("block:" +:+ m_source m))).

Definition handle_bind_mount (id container_id : string) (m : Mount) : M Box (result unit SbError) :=
  if bool_decide (m_source m = "") then mret (Err InvalidArgument) else
  shared ← self get_sandbox_shared_path;
  let dest := shared +:+ "/" +:+ id in
  d ← host (IsDir (m_source m));
  do? (if d : bool then must (CreateDirAll dest)
       else r ← host (IsRegular (m_source m));
            if r : bool then must (CreateFile dest) else mret (Err InvalidArgument));;
  do? must (BindMount (m_source m) dest (retain (λ o, negb (is_propagation_option o)) (m_options m)));;
  push_storage container_id
    (mkStorage (m_source m) (m_type m) id None ∅ false "" "" [] "bind" (ro_options m)
       (KUASAR_STATE_DIR +:+ "/" +:+ id) None None false (Some ("bind:" +:+ m_source m))).

Definition overlay_identity (m : Mount) : option string :=
  lower ← extract_lower_dirs (m_options m); Some ("overlay:" +:+ lower).

Definition handle_overlay_mount (id container_id : string) (m : Mount) : M Box (result unit SbError) :=
  if bool_decide (m_source m = "") then mret (Err InvalidArgument) else
  shared ← self get_sandbox_shared_path;
  let dest := shared +:+ "/" +:+ id in
  do? must (CreateDirAll dest);;
  do? must (MountRootfs (m_type m) (m_source m) (m_options m) dest);;
  push_storage container_id
    (mkStorage (m_source m) (m_type m) id None ∅ false "" "" [] "bind" (ro_options m)
       (KUASAR_STATE_DIR +:+ "/" +:+ id) (extract_lower_dirs (m_options m)) None false (overlay_identity m)).

Definition handle_tmpfs_mount (id container_id : string) (m : Mount) (mi : MountInfo) : M Box (result unit SbError) :=
  push_storage container_id
    (mkStorage (m_source m) (m_type m) id None ∅ true "tmpfs" DRIVEREPHEMERALTYPE [] "tmpfs"
       (ro_options m ++ retain (λ o, starts_with o "size=" || is_propagation_option o) (mi_options mi))
       (KUASAR_GUEST_SHARE_DIR +:+ id) None None false (Some ("tmpfs:" +:+ m_source m))).

(** *** virtio-blk *)

(** Shared templates with reflink use xfs. *)
Definition image_fs (b : Sandbox) : BlockFs :=
  if bool_decide (r_lease_mode (sb_restore b) = Some Shared) && enable_reflink_cow (sb_policy b) then Xfs else Ext4.

(** Attach a prepared image and record it. *)
Definition attach_image (a : BlockArtifact) (id container_id host_source : string) (m : Mount) (lower : option string)
  : M Box (result unit SbError) :=
  n ← increment_and_get_id;
  let! x := attach_block ow a ("blk" +:+ pretty n) (is_ro m) in
  push_storage container_id
    (into_storage x host_source (m_type m) id (ro_options m) (KUASAR_GUEST_SHARE_DIR +:+ id) lower).

Definition handle_overlay_mount_blk (id container_id : string) (m : Mount) : M Box (result unit SbError) :=
  if bool_decide (m_source m = "") then mret (Err InvalidArgument) else
  b ← self Datatypes.id;
  let overlay_dir := sb_base_dir b +:+ "/overlay-" +:+ id in
  do? must (CreateDirAll overlay_dir);;
  try? must (MountRootfs (m_type m) (m_source m) (m_options m) overlay_dir) else may (RemoveDirAll overlay_dir);;
  r ← prepare ow (mkPrepare overlay_dir (sb_base_dir b +:+ "/" +:+ id +:+ ".img") (image_fs b)
                    (overlay_image_fallback_size_mb (sb_policy b))
                    (block_image_size_overhead_percent (sb_policy b)) (overlay_identity m) (is_ro m));
  may (Unmount overlay_dir);;
  may (RemoveDirAll overlay_dir);;
  match r with
  | Err e => mret (Err e)
  | Ok a => attach_image a id container_id (m_source m) m (extract_lower_dirs (m_options m))
  end.

(** The record of content that was pushed into the guest. *)
Definition guest_file_storage (id source dest : string) (m : Mount) : Storage :=
  mkStorage source (m_type m) id None ∅ false "" DRIVER_GUEST_FILE [] "bind" (ro_options m) dest None None false
    (Some ("bind:" +:+ source)).

(** [join_guest_component(KUASAR_STATE_DIR, id)?] *)
Definition guest_dest (id : string) : result string SbError :=
  match join_guest_component KUASAR_STATE_DIR id with Ok p => Ok p | Err _ => Err InvalidArgument end.

Definition with_guest {A} (m : M Box (result A SbError)) : M Box (result A SbError) :=
  c ← self sb_client;
  if c : bool then m else mret (Err NoClient).

Definition inject_small_dir (id container_id : string) (source dest : string) (m : Mount)
  : M Box (result unit SbError) :=
  with_guest (
    do? must (InjectDir dest);;
    push_storage container_id (guest_file_storage id source dest m)).

Definition handle_bind_mount_blk (id container_id : string) (m : Mount) (rootfs : bool)
  : M Box (result unit SbError) :=
  if bool_decide (m_source m = "") then mret (Err InvalidArgument) else
  let source := m_source m in
  b ← self Datatypes.id;
  do? must (Lstat source);;
  match lstat_of ow source with
  | KSymlink | KOther => mret (Err InvalidArgument)
  | KFile mode =>
      if rootfs then mret (Err InvalidArgument) else
      do? must (ReadFile source);;
      match guest_dest id with
      | Err e => mret (Err e)
      | Ok dest =>
          with_guest (
            do? must (PushFile dest (N.land mode 511));;
            push_storage container_id (guest_file_storage id source dest m))
      end
  | KDir t =>
      match scan_dir t with
      | Err _ => mret (Err BadScan)
      | Ok scan =>
          if (file_count scan <=? small_dir_max_files (sb_policy b))%nat
             && (total_bytes scan <=? small_dir_max_bytes (sb_policy b))%N
          then if rootfs then mret (Err InvalidArgument) else
               match guest_dest id with
               | Err e => mret (Err e)
               | Ok dest => inject_small_dir id container_id source dest m
               end
          else if negb (allow_large_bind_mount (sb_policy b)) then mret (Err InvalidArgument) else
               let! a := prepare ow (mkPrepare source (sb_base_dir b +:+ "/" +:+ id +:+ ".img") (image_fs b)
                                       (bind_image_fallback_size_mb (sb_policy b))
                                       (block_image_size_overhead_percent (sb_policy b))
                                       (Some ("bind:" +:+ source)) (is_ro m)) in
               attach_image a id container_id source m None
      end
  end.

(** ** [attach_storage] *)
Definition call_adopt_container (old_id new_id : string) : M Box (result unit SbError) :=
  with_guest (must (AdoptContainer old_id new_id)).

(** Bind mounts and overlays, by backend; anything else is left to the guest. *)
Definition attach_by_type (id container_id : string) (m : Mount) (rootfs : bool) : M Box (result unit SbError) :=
  if is_bind_shm m then mret (Ok tt) else
  b ← self Datatypes.id;
  if is_bind m then
    if sb_virtio_blk b then handle_bind_mount_blk id container_id m rootfs else handle_bind_mount id container_id m
  else if is_overlay m then
    if sb_virtio_blk b then handle_overlay_mount_blk id container_id m else handle_overlay_mount id container_id m
  else mret (Ok tt).

Definition attach_new_storage (container_id : string) (m : Mount) (rootfs : bool) : M Box (result unit SbError) :=
  n ← increment_and_get_id;
  let id := "storage" +:+ pretty n in
  blk ← host (IsBlockDevice (m_source m));
  if blk : bool then handle_block_device id container_id m else
  let! mi := (if contains (m_source m) "kubernetes.io~empty-dir"
              then do? must (MountInfoOf (m_source m));; mret (Ok (mountinfo_of ow (m_source m)))
              else mret (Ok None)) in
  match mi with
  | Some x =>
      if bool_decide (fs_type x = "tmpfs") && contains (mi_mount_point x) "kubernetes.io~empty-dir"
      then handle_tmpfs_mount id container_id m x
      else attach_by_type id container_id m rootfs
  | None => attach_by_type id container_id m rootfs
  end.

Definition attach_storage (container_id : string) (m : Mount) (rootfs : bool) : M Box (result unit SbError) :=
  b ← self Datatypes.id;
  let orphans := r_orphan_container_ids (sb_restore b) in
  match (if bool_decide (orphans = []) then None else find_orphan_for_mount (sb_storages b) orphans m rootfs) with
  | Some (orphan, _) =>
      do? call_adopt_container orphan container_id;;
      set_self (set_storages (on_reusable m rootfs (λ s, refer container_id (defer orphan s))));;
      set_self (λ b, set_restore (set_orphans (retain (λ i, negb (bool_decide (i = orphan)))
                                    (r_orphan_container_ids (sb_restore b))) (sb_restore b)) b);;
      mret (Ok tt)
  | None =>
      match find_reusable_storage_index (sb_storages b) m rootfs with
      | Some _ => set_self (set_storages (on_reusable m rootfs (refer container_id)));; mret (Ok tt)
      | None => attach_new_storage container_id m rootfs
      end
  end.

(** ** Releasing storages *)
Definition detach_storage (s : Storage) : M Box (result unit SbError) :=
  match device_id s with
  | Some did =>
      do? must (HotDetach did);;
      if owned_by_runtime s then
        match from_storage s with
        | None => mret (Err InvalidArgument)
        | Some a => release_artifact a
        end
      else mret (Ok tt)
  | None =>
      if bool_decide (driver s = DRIVER_GUEST_FILE) then mret (Ok tt) else
      if bool_decide (fstype s = "bind") then
        shared ← self get_sandbox_shared_path;
        let mp := shared +:+ "/" +:+ s_id s in
        do? must (Unmount mp);;
        d ← host (IsDir mp);
        if d : bool then must (RemoveDir mp) else must (RemoveFile mp)
      else mret (Ok tt)
  end.

(** The loop over the storages that were unused when it began. *)
Fixpoint detach_all (l : list Storage) : M Box (result unit SbError) :=
  match l with
  | [] => mret (Ok tt)
  | s :: l =>
      do? detach_storage s;;
      set_self (set_storages (retain (λ x, negb (bool_decide (s_id x = s_id s)))));;
      detach_all l
  end.

Definition gc_storages : M Box (result unit SbError) :=
  l ← self sb_storages;
  detach_all (retain (λ s, bool_decide (ref_count s = 0%N)) l).

(** [iter_mut().find(..)] *)
Fixpoint defer_first (container_id : string) (m : Mount) (l : list Storage) : list Storage :=
  match l with
  | [] => []
  | s :: l =>
      if is_for_mount s m && bool_decide (is_Some (ref_container s !! container_id))
      then defer container_id s :: l
      else s :: defer_first container_id m l
  end.

Definition deference_storage (container_id : string) (m : Mount) : M Box (result unit SbError) :=
  set_self (set_storages (defer_first container_id m));;
  gc_storages.

Definition deference_container_storages (container_id : string) : M Box (result unit SbError) :=
  set_self (set_storages (fmap (defer container_id)));;
  gc_storages.
End storages.
