(* ===== verification/Handlers.v ===== *)
(** * Adding, updating and removing containers

    [vmm/sandbox/src/container/handler/]: a chain of handlers, each with a
    rollback, run in order; when one fails the ones that finished are rolled
    back in reverse. [append_container], [update_container] and
    [remove_container] of [vmm/sandbox/src/sandbox.rs], [hot_attach_pipe] of
    [io.rs] and [write_file_atomic] of [utils.rs]. *)
From S2P Require Import Prelude Strs Storage Types GuestFile GuestScan Mount Inject Annotations Box BlockImage StorageOps.
Open Scope box_scope.

(** ** Handler chains *)
Class Handler (T S E : Type) := {
  handle : T → M S (result unit E);
  rollback : T → M S (result unit E)
}.

Section chain.
Context {T S E : Type} `{Handler T S E}.

(** The loop of [HandlerChain::handle] from index [i]: the error, if any, and
    [finished_index]. *)
Fixpoint run_handlers (i finished : nat) (hs : list T) : M S (option E * nat) :=
  match hs with
  | [] => mret (None, finished)
  | h :: hs =>
      r ← handle h;
      match r with
      | Ok _ => run_handlers (i + 1) i hs
      | Err e => mret (Some e, finished)
      end
  end.

Fixpoint rollback_all (hs : list T) : M S unit :=
  match hs with
  | [] => mret tt
  | h :: hs => _ ← rollback h; rollback_all hs
  end.

(** [filter(|(i, _)| *i >= len - 1 - finished_index)] of the reversed list *)
Definition chain_handle (hs : list T) : M S (result unit E) :=
  r ← run_handlers 0 0 hs;
  match r.1 with
  | None => mret (Ok tt)
  | Some e => rollback_all (drop (length hs - 1 - r.2) (reverse hs));; mret (Err e)
  end.

Definition chain_rollback (hs : list T) : M S (result unit E) := rollback_all (reverse hs);; mret (Ok tt).
End chain.

(** ** Files *)
Definition path_components (p : string) : list string :=
  retain (λ c, negb (bool_decide (c = "")) && negb (bool_decide (c = "."))) (split "/" p).

(** [parent().join(format!(".{}", file_name()))] *)
Definition tmp_path (p : string) : option string :=
  match reverse (path_components p) with
  | [] => None
  | f :: ds => if bool_decide (f = "..") then None
               else Some ((if starts_with p "/" then "/" else "") +:+ join "/" (reverse ds ++ ["." +:+ f]))
  end.

Definition write_file_atomic (path : string) : M Box (result unit SbError) :=
  match tmp_path path with
  | None => mret (Err InvalidArgument)
  | Some tmp =>
      do? must (CreateFile tmp);;
      do? must (WriteAll tmp);;
      do? must (SyncData tmp);;
      must (Rename tmp path)
  end.

Definition IO_FILE_PREFIX : string := "io".
Definition STORAGE_FILE_PREFIX : string := "storage".
Definition CONFIG_FILE_NAME : string := "config.json".
Definition ANNOTATION_KEY_STORAGE : string := "io.kuasar.storages".
Definition SANDBOX_NS_PATH : string := "/run/sandbox-ns".
Definition NET_NAMESPACE : string := "network".
Definition CGROUP_NAMESPACE : string := "cgroup".
Definition IPC_NAMESPACE : string := "ipc".
Definition UTS_NAMESPACE : string := "uts".
Definition PID_NAMESPACE : string := "pid".

(** ** The handlers *)
Inductive ContainerHandler :=
  | MetadataAddHandler (id : string) (option : ContainerData)
  | NamespaceHandler (id : string)
  | MountHandler (id : string) (mount : Mount) (is_rootfs_mount : bool)
  | StorageHandler (id : string)
  | IoHandler (id : string) (io : Io)
  | SpecHandler (id : string)
  | ProcessHandler (id : string) (proc : ProcessData)
  | ProcessRemoveHandler (id process_id : string).

Definition set_spec (s : option Spec) (d : ContainerData) : ContainerData :=
  mkContainerData (cd_id d) s (cd_rootfs d) (cd_io d) (cd_processes d) (cd_bundle d).
Definition set_rootfs (l : list Mount) (d : ContainerData) : ContainerData :=
  mkContainerData (cd_id d) (cd_spec d) l (cd_io d) (cd_processes d) (cd_bundle d).
Definition set_io_of (i : option Io) (d : ContainerData) : ContainerData :=
  mkContainerData (cd_id d) (cd_spec d) (cd_rootfs d) i (cd_processes d) (cd_bundle d).
Definition set_bundle (p : string) (d : ContainerData) : ContainerData :=
  mkContainerData (cd_id d) (cd_spec d) (cd_rootfs d) (cd_io d) (cd_processes d) p.
Definition on_data (f : ContainerData → ContainerData) (c : KuasarContainer) : KuasarContainer :=
  mkContainer (kc_id c) (f (kc_data c)) (kc_io_devices c) (kc_processes c).
Definition set_io_devices (l : list string) (c : KuasarContainer) : KuasarContainer :=
  mkContainer (kc_id c) (kc_data c) l (kc_processes c).
Definition set_processes (f : list KuasarProcess → list KuasarProcess) (c : KuasarContainer) : KuasarContainer :=
  mkContainer (kc_id c) (kc_data c) (kc_io_devices c) (f (kc_processes c)).

Section handlers.
Context `{HashOrder} (ow : Outside).

(** [self.container(id)?] *)
Definition container (id : string) : M Box (result KuasarContainer SbError) :=
  o ← self (λ b, sb_containers b !! id);
  mret (match o with Some c => Ok c | None => Err SbNotFound end).
Definition on_container (id : string) (f : KuasarContainer → KuasarContainer) : M Box unit :=
  set_self (set_containers (alter f id)).

(** *** Metadata *)
Definition metadata_handle (id : string) (opt : ContainerData) : M Box (result unit SbError) :=
  shared ← self get_sandbox_shared_path;
  let bundle := shared +:+ "/" +:+ cd_id opt in
  do? must (CreateDirAll bundle);;
  set_self (set_containers (insert id (mkContainer id (set_bundle bundle opt) [] [])));;
  mret (Ok tt).

(** *** Namespaces *)
Definition has_shared_pid_namespace (b : Sandbox) : bool := default false (sb_pid_mode b).

Definition handle_namespaces (share_pid : bool) (l : list Namespace) : list Namespace :=
  (λ n, mkNamespace (ns_type n)
          (if bool_decide (ns_type n = IPC_NAMESPACE) || bool_decide (ns_type n = UTS_NAMESPACE)
              || (bool_decide (ns_type n = PID_NAMESPACE) && share_pid)
           then SANDBOX_NS_PATH +:+ "/" +:+ ns_type n else ""))
  <$> retain (λ n, negb (bool_decide (ns_type n = NET_NAMESPACE)) && negb (bool_decide (ns_type n = CGROUP_NAMESPACE))) l.

Definition namespace_handle (id : string) : M Box (result unit SbError) :=
  share ← self has_shared_pid_namespace;
  do? container id;;
  on_container id (on_data (λ d, set_spec ((λ s, mkSpec (sp_mounts s) (sp_root s) (sp_annotations s) (sp_apparmor s)
    (handle_namespaces share <$> sp_namespaces s) (sp_cpus s)) <$> cd_spec d) d));;
  mret (Ok tt).

(** *** Storages of the container *)
Definition contains_guest_storage (l : list Storage) (s : Storage) : bool :=
  existsb (λ x, bool_decide (host_source x = host_source s) && bool_decide (s_type x = s_type s)
                && bool_decide (mount_point x = mount_point s)) l.
Definition push_guest_storage (l : list Storage) (s : Storage) : list Storage :=
  if need_guest_handle s && negb (contains_guest_storage l s) then l ++ [s] else l.

Definition redirect (p : string) (o : string) (m : Mount) : Mount :=
  mkMount (m_destination m) (m_type m) p (m_options m ++ [o]).

(** One mount of the spec: its source inside the guest. *)
Definition handled_mount (storages : list Storage) (acc : list Mount * list Storage) (m : Mount)
  : list Mount * list Storage :=
  let '(m, l) := match find_first (λ s, is_for_mount s m) storages with
                 | Some s => (redirect (mount_point s) "bind" m, push_guest_storage acc.2 s)
                 | None => (m, acc.2)
                 end in
  let m := if is_bind_shm m then redirect DEV_SHM "rbind" m else m in
  (acc.1 ++ [m], l).

(** The rootfs mounts: the last one gives the root. *)
Fixpoint root_storages (storages : list Storage) (rootfs : list Mount) (acc : string * list Storage)
  : result (string * list Storage) SbError :=
  match rootfs with
  | [] => Ok acc
  | m :: rest =>
      match find_first (λ s, is_for_mount s m) storages with
      | None => Err SbNotFound
      | Some s => root_storages storages rest (mount_point s, push_guest_storage acc.2 s)
      end
  end.

Definition storage_file (c : KuasarContainer) (id : string) : string :=
  cd_bundle (kc_data c) +:+ "/" +:+ STORAGE_FILE_PREFIX +:+ "-" +:+ id.

Definition apply_storages (mounts : list Mount) (root json : string) (s : Spec) : Spec :=
  mkSpec mounts ((λ r, mkRoot root (root_readonly r)) <$> sp_root s)
    (<[ANNOTATION_KEY_STORAGE := json]> (sp_annotations s)) (sp_apparmor s) (sp_namespaces s) (sp_cpus s).

Definition storage_handle (id : string) : M Box (result unit SbError) :=
  let! c := container id in
  st ← self sb_storages;
  let mounts := match cd_spec (kc_data c) with Some s => sp_mounts s | None => [] end in
  let '(handled, l) := foldl (handled_mount st) ([], []) mounts in
  match root_storages st (cd_rootfs (kc_data c)) ("rootfs", l) with
  | Err e => mret (Err e)
  | Ok (root, l) =>
      on_container id (on_data (λ d, set_spec (apply_storages handled root (storages_json ow l) <$> cd_spec d) d));;
      do? write_file_atomic (storage_file c id);;
      on_container id (on_data (set_rootfs []));;
      mret (Ok tt)
  end.

Definition storage_rollback (id : string) : M Box (result unit SbError) :=
  let! c := container id in
  may (RemoveFile (storage_file c id));;
  mret (Ok tt).

(** *** Pipes *)
Definition hot_attach_pipe (path : string) : M Box (result (string * string) SbError) :=
  n ← increment_and_get_id;
  do? must (HotAttachPipe ("virtioserial" +:+ pretty n) path);;
  mret (Ok ("virtioserial" +:+ pretty n, "chardev" +:+ pretty n)).

Definition attach_pipe (path : string) (devs : list string) : M Box (result (string * list string) SbError) :=
  if negb (bool_decide (path = "")) && negb (contains path "://") then
    let! x := hot_attach_pipe path in
    mret (Ok (x.2, devs ++ [x.1]))
  else mret (Ok (path, devs)).

Definition attach_io (io : Io) : M Box (result (Io * list string) SbError) :=
  let! a := attach_pipe (io_stdin io) [] in
  let! b := attach_pipe (io_stdout io) a.2 in
  let! c := attach_pipe (io_stderr io) b.2 in
  mret (Ok (mkIo a.1 b.1 c.1 (io_terminal io), c.2)).

Definition io_file (c : KuasarContainer) (suffix : string) : string :=
  cd_bundle (kc_data c) +:+ "/" +:+ IO_FILE_PREFIX +:+ "-" +:+ suffix.

Definition io_handle (id : string) (io : Io) : M Box (result unit SbError) :=
  let! x := attach_io io in
  let! c := container id in
  on_container id (on_data (set_io_of (Some x.1)));;
  do? write_file_atomic (io_file c id);;
  on_container id (set_io_devices x.2);;
  mret (Ok tt).

Fixpoint detach_devices (l : list string) : M Box (result unit SbError) :=
  match l with
  | [] => mret (Ok tt)
  | d :: l => do? must (HotDetach d);; detach_devices l
  end.

Definition io_rollback (id : string) : M Box (result unit SbError) :=
  let! c := container id in
  do? detach_devices (kc_io_devices c);;
  may (RemoveFile (io_file c id));;
  do? container id;;
  on_container id (λ c, on_data (set_io_of None) (set_io_devices [] c));;
  mret (Ok tt).

(** *** The spec *)
Definition is_in_cri_mounts (dst : string) (mounts : list Mount) : bool :=
  existsb (λ m, bool_decide (clean_path ow (m_destination m) = clean_path ow dst)) mounts.

Definition cri_mount (shared rw : string) (mounts : list Mount) (acc : list Mount) (x : string * string)
  : M Box (list Mount) :=
  if is_in_cri_mounts x.1 mounts then mret acc else
  e ← host (PathExists (shared +:+ "/" +:+ x.2));
  mret (if e : bool
        then acc ++ [mkMount x.1 "bind" (KUASAR_STATE_DIR +:+ "/" +:+ x.2) ["rbind"; "rprivate"; rw]]
        else acc).

Definition container_mounts (shared : string) (s : Spec) : M Box (list Mount) :=
  let rw := if default false (root_readonly <$> sp_root s) then "ro" else "rw" in
  extra ← foldM (cri_mount shared rw (sp_mounts s)) []
            [("/etc/hostname", "hostname"); ("/etc/hosts", "hosts"); ("/etc/resolv.conf", "resolv.conf")];
  mret (sp_mounts s ++ extra).

Definition push_config (id : string) : M Box (result unit SbError) :=
  with_guest (
    match guest_dest id with
    | Err e => mret (Err e)
    | Ok dir =>
        do? must (EnsureDir dir);;
        must (PushFile (dir +:+ "/" +:+ CONFIG_FILE_NAME) 420)
    end).

Definition spec_handle (id : string) : M Box (result unit SbError) :=
  shared ← self get_sandbox_shared_path;
  let! c := container id in
  match cd_spec (kc_data c) with
  | None => mret (Err InvalidArgument)
  | Some s =>
      mounts ← container_mounts shared s;
      on_container id (on_data (set_spec (Some (mkSpec mounts (sp_root s) (sp_annotations s) ((λ _, "") <$> sp_apparmor s)
        (sp_namespaces s) ((λ _, "") <$> sp_cpus s)))));;
      do? write_file_atomic (cd_bundle (kc_data c) +:+ "/" +:+ CONFIG_FILE_NAME);;
      blk ← self sb_virtio_blk;
      if blk : bool then push_config id else mret (Ok tt)
  end.

Definition spec_rollback (id : string) : M Box (result unit SbError) :=
  shared ← self get_sandbox_shared_path;
  must (RemoveDirAll (shared +:+ "/" +:+ id)).

(** *** Processes *)
Definition process_handle (id : string) (p : ProcessData) : M Box (result unit SbError) :=
  let! c := container id in
  if existsb (λ k, bool_decide (kp_id k = pd_id p)) (kc_processes c) then mret (Ok tt) else
  let! k := (match pd_io p with
             | None => mret (Ok (mkProcess (pd_id p) [] p))
             | Some io =>
                 let! x := attach_io io in
                 do? write_file_atomic (io_file c (id +:+ "-" +:+ pd_id p));;
                 mret (Ok (mkProcess (pd_id p) x.2 (mkProcessData (pd_id p) (Some x.1))))
             end) in
  do? container id;;
  on_container id (set_processes (λ l, l ++ [k]));;
  mret (Ok tt).

Fixpoint try_detach (l : list string) : M Box unit :=
  match l with
  | [] => mret tt
  | d :: l => may (HotDetach d);; try_detach l
  end.

Definition remove_io_devices_for_process (id pid : string) : M Box (result unit SbError) :=
  o ← self (λ b, sb_containers b !! id);
  match o with
  | None => mret (Ok tt)
  | Some c =>
      try_detach (mjoin (kp_io_devices <$> retain (λ k, bool_decide (kp_id k = pid)) (kc_processes c)));;
      must (RemoveFile (io_file c (id +:+ "-" +:+ pid)))
  end.

Definition remove_process (id pid : string) : M Box (result unit SbError) :=
  do? remove_io_devices_for_process id pid;;
  on_container id (set_processes (retain (λ k, negb (bool_decide (kp_id k = pid)))));;
  mret (Ok tt).

(** *** Dispatch *)
Definition container_handle (h : ContainerHandler) : M Box (result unit SbError) :=
  match h with
  | MetadataAddHandler id o => metadata_handle id o
  | NamespaceHandler id => namespace_handle id
  | MountHandler id m r => attach_storage ow id m r
  | StorageHandler id => storage_handle id
  | IoHandler id io => io_handle id io
  | SpecHandler id => spec_handle id
  | ProcessHandler id p => process_handle id p
  | ProcessRemoveHandler id pid => remove_process id pid
  end.
Definition container_rollback (h : ContainerHandler) : M Box (result unit SbError) :=
  match h with
  | MetadataAddHandler id _ => set_self (set_containers (delete id));; mret (Ok tt)
  | NamespaceHandler _ | ProcessRemoveHandler _ _ => mret (Ok tt)
  | MountHandler id m _ => deference_storage id m
  | StorageHandler id => storage_rollback id
  | IoHandler id _ => io_rollback id
  | SpecHandler id => spec_rollback id
  | ProcessHandler id p => remove_process id (pd_id p)
  end.

#[global] Instance container_handler : Handler ContainerHandler Box SbError :=
  { handle := container_handle; rollback := container_rollback }.

(** ** The operations *)
Definition container_append_handlers (id : string) (o : ContainerData) : list ContainerHandler :=
  [MetadataAddHandler id o; NamespaceHandler id]
  ++ ((λ m, MountHandler id m true) <$> cd_rootfs o)
  ++ ((λ m, MountHandler id m false) <$> match cd_spec o with Some s => sp_mounts s | None => [] end)
  ++ [StorageHandler id]
  ++ match cd_io o with Some io => [IoHandler id io] | None => [] end
  ++ [SpecHandler id].

Definition container_update_handlers (id : string) (o : ContainerData) (c : KuasarContainer) : list ContainerHandler :=
  ((λ k, ProcessRemoveHandler id (kp_id k)) <$>
    retain (λ k, negb (existsb (λ p, bool_decide (kp_id k = pd_id p)) (cd_processes o))) (kc_processes c))
  ++ ((λ p, ProcessHandler id p) <$>
    retain (λ p, negb (existsb (λ k, bool_decide (kp_id k = pd_id p)) (kc_processes c))) (cd_processes o)).

Definition append_container (id : string) (o : ContainerData) : M Box (result unit SbError) :=
  do? chain_handle (container_append_handlers id o);;
  must Dump.

Definition update_container (id : string) (o : ContainerData) : M Box (result unit SbError) :=
  let! c := container id in
  do? chain_handle (container_update_handlers id o c);;
  must Dump.

Definition remove_container (id : string) : M Box (result unit SbError) :=
  do? deference_container_storages id;;
  shared ← self get_sandbox_shared_path;
  do? must (RemoveDirAll (shared +:+ "/" +:+ id));;
  o ← self (λ b, sb_containers b !! id);
  set_self (set_containers (delete id));;
  do? match o with Some c => detach_devices (kc_io_devices c) | None => mret (Ok tt) end;;
  must Dump.
End handlers.
