(* ===== verification/BoxCalm.v ===== *)
(** * What the operations on one sandbox leave alone

    Storages and containers are attached and removed without touching what the
    sandbox holds of the template pool and without starting a VM; none of the
    operations panics. *)
From S2P Require Import Prelude Strs Storage Types GuestFile GuestScan Mount Inject Annotations Box BlockImage StorageOps Handlers.

(** What the release of a sandbox's template depends on. *)
Definition meta (r : RestoreMetadata) :
    option string * option SnapshotType * option TemplateLeaseMode * option MemoryRestoreMode :=
  (template_id r, template_snapshot_type r, r_lease_mode r, memory_restore_mode r).

Definition calm {A} (m : M Box A) : Prop :=
  ∀ x, ∃ a x' t, m x = Some (a, x') ∧ meta (sb_restore (bx x')) = meta (sb_restore (bx x)) ∧
    bx_log x' = bx_log x ++ t ∧ Forall (λ e, e.1 ≠ VmStart) t.

Lemma calm_quiet {A} (m : M Box A) :
  (∀ x, ∃ a x', m x = Some (a, x') ∧ meta (sb_restore (bx x')) = meta (sb_restore (bx x)) ∧ bx_log x' = bx_log x) →
  calm m.
Proof.
  intros Hm x. destruct (Hm x) as (a & x' & E & Em & El). exists a, x', []. rewrite app_nil_r. split_and!; try done.
Qed.
Lemma calm_ret {A} (a : A) : calm (mret a).
Proof. apply calm_quiet. intros x. by exists a, x. Qed.
Lemma calm_bind {A B} (m : M Box A) (k : A → M Box B) : calm m → (∀ a, calm (k a)) → calm (m ≫= k).
Proof.
  intros Hm Hk x. destruct (Hm x) as (a & x1 & t1 & E1 & M1 & L1 & F1).
  destruct (Hk a x1) as (b & x2 & t2 & E2 & M2 & L2 & F2).
  exists b, x2, (t1 ++ t2). unfold mbind, M_bind. rewrite E1. split_and!; [done|congruence| |by apply Forall_app].
  by rewrite L2, L1, app_assoc.
Qed.
Lemma calm_self {A} (f : Sandbox → A) : calm (self f).
Proof. apply calm_quiet. intros x. eexists _, _. done. Qed.
Lemma calm_set f : (∀ b, meta (sb_restore (f b)) = meta (sb_restore b)) → calm (set_self f).
Proof. intros Hf. apply calm_quiet. intros x. eexists _, _. split_and!; [done|apply Hf|done]. Qed.
Lemma calm_host a : a ≠ VmStart → calm (host a).
Proof. intros Ha x. eexists _, _, _. split_and!; [done|done|done|]. repeat constructor. done. Qed.
Lemma calm_must a : a ≠ VmStart → calm (must a).
Proof. intros Ha. apply calm_bind; [by apply calm_host|]. intros b. apply calm_ret. Qed.
Lemma calm_may a : a ≠ VmStart → calm (may a).
Proof. intros Ha. apply calm_bind; [by apply calm_host|]. intros b. apply calm_ret. Qed.
Lemma calm_foldM {A B} (f : B → A → M Box B) l b : (∀ b x, calm (f b x)) → calm (foldM f b l).
Proof.
  intros Hf. revert b. induction l as [|x l IH]; intros b; [apply calm_ret|].
  intros s. destruct (calm_bind (f b x) (λ b, foldM f b l) (Hf b x) (λ b, IH b) s) as (a & x' & t & E & R).
  exists a, x', t. by rewrite foldM_cons.
Qed.

Create HintDb calm.
#[export] Hint Resolve calm_ret calm_self : calm.

Ltac calm :=
  repeat first
    [ solve [eauto 2 with calm nocore]
    | apply calm_set; intros ?; reflexivity
    | apply calm_host; discriminate
    | apply calm_must; discriminate
    | apply calm_may; discriminate
    | apply calm_foldM; intros ? ?
    | apply calm_bind; [|intros ?]
    | progress (repeat case_match) ].

Section calm.
Context `{HashOrder} (ow : Outside).

Lemma calm_id : calm increment_and_get_id.
Proof. unfold increment_and_get_id. calm. Qed.
Lemma calm_push c s : calm (push_storage c s).
Proof. unfold push_storage. calm. Qed.
Lemma calm_with_guest {A} (m : M Box (result A SbError)) : calm m → calm (with_guest m).
Proof. intros Hm. unfold with_guest. calm. Qed.
Hint Resolve calm_id calm_push calm_with_guest : calm.
Lemma calm_release a : calm (release_artifact a).
Proof. unfold release_artifact. calm. Qed.
Hint Resolve calm_release : calm.
Lemma calm_prepare r : calm (prepare ow r).
Proof.
  unfold prepare, estimate_dir_tree_stats, create_ext4_image_with_inodes, create_xfs_image, create_image,
    copy_dir_to_loop_image. calm.
Qed.
Lemma calm_attach_image a id c src m l : calm (attach_image ow a id c src m l).
Proof. unfold attach_image, attach_block. calm. Qed.
Hint Resolve calm_prepare calm_attach_image : calm.
Lemma calm_block_device id c m : calm (handle_block_device ow id c m).
Proof. unfold handle_block_device, get_fstype. calm. Qed.
Lemma calm_bind_mount id c m : calm (handle_bind_mount id c m).
Proof. unfold handle_bind_mount. calm. Qed.
Lemma calm_bind_mount_blk id c m r : calm (handle_bind_mount_blk ow id c m r).
Proof.
  unfold handle_bind_mount_blk, inject_small_dir. calm.
Qed.
Lemma calm_overlay id c m : calm (handle_overlay_mount id c m).
Proof. unfold handle_overlay_mount. calm. Qed.
Lemma calm_overlay_blk id c m : calm (handle_overlay_mount_blk ow id c m).
Proof. unfold handle_overlay_mount_blk. calm. Qed.
Hint Resolve calm_block_device calm_bind_mount calm_bind_mount_blk calm_overlay calm_overlay_blk : calm.
Lemma calm_attach_storage c m r : calm (attach_storage ow c m r).
Proof.
  unfold attach_storage, attach_new_storage, attach_by_type, handle_tmpfs_mount, call_adopt_container.
  calm.
Qed.
Lemma calm_detach s : calm (detach_storage s).
Proof. unfold detach_storage. calm. Qed.
Hint Resolve calm_detach : calm.
Lemma calm_detach_all l : calm (detach_all l).
Proof. induction l; simpl; calm. Qed.
Hint Resolve calm_detach_all : calm.
Lemma calm_gc : calm gc_storages.
Proof. unfold gc_storages. calm. Qed.
Hint Resolve calm_gc calm_attach_storage : calm.
Lemma calm_deference_container c : calm (deference_container_storages c).
Proof. unfold deference_container_storages. calm. Qed.
Lemma calm_deference c m : calm (deference_storage c m).
Proof. unfold deference_storage. calm. Qed.
Hint Resolve calm_deference_container calm_deference : calm.

Lemma calm_container id : calm (container id).
Proof. unfold container. calm. Qed.
Lemma calm_on_container id f : calm (on_container id f).
Proof. unfold on_container. calm. Qed.
Lemma calm_write p : calm (write_file_atomic p).
Proof. unfold write_file_atomic. calm. Qed.
Lemma calm_detach_devices l : calm (detach_devices l).
Proof. induction l; simpl; calm. Qed.
Lemma calm_try_detach l : calm (try_detach l).
Proof. induction l; simpl; calm. Qed.
Lemma calm_attach_pipe p l : calm (attach_pipe p l).
Proof. unfold attach_pipe, hot_attach_pipe. calm. Qed.
Hint Resolve calm_container calm_on_container calm_write calm_detach_devices calm_try_detach calm_attach_pipe : calm.
Lemma calm_attach_io i : calm (attach_io i).
Proof. unfold attach_io. calm. Qed.
Hint Resolve calm_attach_io : calm.
Lemma calm_remove_process id p : calm (remove_process id p).
Proof. unfold remove_process, remove_io_devices_for_process. calm. Qed.
Lemma calm_push_config id : calm (push_config id).
Proof. unfold push_config. apply calm_with_guest. calm. Qed.
Hint Resolve calm_remove_process calm_push_config : calm.
Lemma calm_container_mounts p s : calm (container_mounts ow p s).
Proof. unfold container_mounts. apply calm_bind; [|intros; calm]. apply calm_foldM. intros b x. unfold cri_mount. calm. Qed.
Hint Resolve calm_container_mounts : calm.

#[local] Existing Instance container_handler.

Lemma calm_handle (h : ContainerHandler) : calm (handle (Handler := container_handler ow) h).
Proof.
  destruct h; simpl; unfold metadata_handle, namespace_handle, storage_handle, io_handle, spec_handle, process_handle;
    calm.
Qed.
Lemma calm_rollback (h : ContainerHandler) : calm (rollback (Handler := container_handler ow) h).
Proof. destruct h; simpl; unfold storage_rollback, io_rollback, spec_rollback; calm. Qed.

Lemma calm_run i j hs : calm (run_handlers (H := container_handler ow) i j hs).
Proof.
  revert i j. induction hs as [|h hs IH]; intros i j; simpl; [calm|].
  apply calm_bind; [apply calm_handle|]. intros [u|e]; [apply IH|calm].
Qed.
Lemma calm_rollback_all hs : calm (rollback_all (H := container_handler ow) hs).
Proof.
  induction hs as [|h hs IH]; simpl; [calm|]. apply calm_bind; [apply calm_rollback|]. by intros.
Qed.
Lemma calm_chain hs : calm (chain_handle (H := container_handler ow) hs).
Proof.
  unfold chain_handle. apply calm_bind; [apply calm_run|]. intros r. case_match; [|calm].
  apply calm_bind; [apply calm_rollback_all|]. intros []. calm.
Qed.

Lemma calm_append id o : calm (append_container ow id o).
Proof. unfold append_container. apply calm_bind; [apply calm_chain|]. intros r. calm. Qed.
Lemma calm_update id o : calm (update_container ow id o).
Proof.
  unfold update_container. apply calm_bind; [calm|]. intros [c|e]; [|calm].
  apply calm_bind; [apply calm_chain|]. intros r. calm.
Qed.
Lemma calm_remove id : calm (remove_container id).
Proof. unfold remove_container. calm. Qed.
End calm.
