(* ===== verification/StorageProps.v ===== *)
(** * What attaching and releasing storages does *)
From S2P Require Import Prelude Strs Storage Types GuestFile GuestScan Mount Inject Annotations Box BlockImage StorageOps Handlers BoxCalm.

(** ** Running operations of one sandbox *)

(** [m] started with the sandbox [b] ends with [a], the sandbox [b'] and the
    calls [t], for all outcomes of the calls. *)
Definition runs {A} (m : M Box A) (b : Sandbox) (Q : A → Sandbox → list (Action * bool) → Prop) : Prop :=
  ∀ x a x', bx x = b → m x = Some (a, x') → ∃ t, bx_log x' = bx_log x ++ t ∧ Q a (bx x') t.

Lemma runs_ret {A} (a : A) b (Q : A → Sandbox → list (Action * bool) → Prop) : Q a b [] → runs (mret a) b Q.
Proof. intros Hq x a' x' <- [= <- <-]. exists []. by rewrite app_nil_r. Qed.
Lemma runs_bind {A B} (m : M Box A) (k : A → M Box B) b R (Q : B → Sandbox → list (Action * bool) → Prop) :
  runs m b R → (∀ a b1 t, R a b1 t → runs (k a) b1 (λ c b2 t', Q c b2 (t ++ t'))) → runs (m ≫= k) b Q.
Proof.
  intros Hm Hk x c x2 Eb. unfold mbind, M_bind. destruct (m x) as [[a x1]|] eqn:E1; [|done]. intros E2.
  destruct (Hm _ _ _ Eb E1) as (t1 & L1 & R1). destruct (Hk a (bx x1) t1 R1 x1 c x2 eq_refl E2) as (t2 & L2 & Q2).
  exists (t1 ++ t2). split; [|done]. by rewrite L2, L1, app_assoc.
Qed.
Lemma runs_conseq {A} (m : M Box A) b (R Q : A → Sandbox → list (Action * bool) → Prop) :
  runs m b R → (∀ a b' t, R a b' t → Q a b' t) → runs m b Q.
Proof. intros Hm Hq x a x' Eb E. destruct (Hm x a x' Eb E) as (t & L & H). eauto. Qed.
Lemma runs_self {A B} (f : Sandbox → A) (k : A → M Box B) b Q : runs (k (f b)) b Q → runs (self f ≫= k) b Q.
Proof. intros Hk x c x' <- E. apply (Hk x c x' eq_refl). exact E. Qed.
Lemma runs_set {B} f (k : unit → M Box B) b Q : runs (k tt) (f b) Q → runs (set_self f ≫= k) b Q.
Proof.
  intros Hk x c x' <- E. destruct (Hk (mkBox (f (bx x)) (bx_ext x) (bx_log x)) c x' eq_refl E) as (t & L & H). eauto.
Qed.
Lemma runs_host {B} a (k : bool → M Box B) b (Q : B → Sandbox → list (Action * bool) → Prop) :
  (∀ ok, runs (k ok) b (λ c b' t, Q c b' ((a, ok) :: t))) → runs (host a ≫= k) b Q.
Proof.
  intros Hk x c x' <- E. set (ok := default true (head (bx_ext x))) in *.
  destruct (Hk ok (mkBox (bx x) (tail (bx_ext x)) (bx_log x ++ [(a, ok)])) c x' eq_refl E) as (t & L & H).
  exists ((a, ok) :: t). split; [|done]. rewrite L. simpl. by rewrite <- app_assoc.
Qed.
Lemma runs_must {B} a (k : result unit SbError → M Box B) b (Q : B → Sandbox → list (Action * bool) → Prop) :
  runs (k (Ok tt)) b (λ c b' t, Q c b' ((a, true) :: t)) →
  runs (k (Err (Failed a))) b (λ c b' t, Q c b' ((a, false) :: t)) →
  runs (must a ≫= k) b Q.
Proof.
  intros H1 H2 x c x' Eb E. eapply (runs_host a (λ ok, k (if ok : bool then Ok tt else Err (Failed a))) b Q); [|done|exact E].
  by intros [].
Qed.
Lemma runs_must_end a b (Q : result unit SbError → Sandbox → list (Action * bool) → Prop) :
  Q (Ok tt) b [(a, true)] → Q (Err (Failed a)) b [(a, false)] → runs (must a) b Q.
Proof.
  intros H1 H2 x c x' <- [= <- <-]. eexists. split; [reflexivity|]. by destruct (default true (head (bx_ext x))).
Qed.
Lemma runs_may {B} a (k : unit → M Box B) b (Q : B → Sandbox → list (Action * bool) → Prop) :
  (∀ ok, runs (k tt) b (λ c b' t, Q c b' ((a, ok) :: t))) → runs (may a ≫= k) b Q.
Proof.
  intros Hk x c x' Eb E. eapply (runs_host a (λ _, k tt) b Q); [exact Hk|done|exact E].
Qed.

Lemma runs_ret_bind {A B} (a : A) (k : A → M Box B) b (Q : B → Sandbox → list (Action * bool) → Prop) :
  runs (k a) b Q → runs (mret a ≫= k) b Q.
Proof. intros Hk x c x' Eb E. by apply (Hk x c x' Eb). Qed.
Lemma runs_assoc {A B C} (m : M Box A) (k : A → M Box B) (l : B → M Box C) b Q :
  runs (m ≫= λ a, k a ≫= l) b Q → runs ((m ≫= k) ≫= l) b Q.
Proof.
  intros Hm x c x' Eb E. apply (Hm x c x' Eb). revert E. unfold mbind, M_bind. by destruct (m x) as [[a y]|].
Qed.

(** Symbolic execution of a straight-line operation. *)
Ltac runs_step :=
  match goal with
  | |- runs (self _ ≫= _) _ _ => apply runs_self
  | |- runs (set_self _ ≫= _) _ _ => apply runs_set
  | |- runs (must _ ≫= _) _ _ => apply runs_must
  | |- runs (may _ ≫= _) _ _ => apply runs_may; intros ?
  | |- runs (mret _ ≫= _) _ _ => apply runs_ret_bind
  | |- runs ((_ ≫= _) ≫= _) _ _ => apply runs_assoc
  | |- runs ((if _ then _ else _) ≫= _) _ _ => case_match
  | |- runs ((match _ with _ => _ end) ≫= _) _ _ => case_match
  | |- runs (host _ ≫= _) _ _ => apply runs_host; intros [|]
  | |- runs (mret _) _ _ => apply runs_ret
  | |- runs (must _) _ _ => apply runs_must_end
  | |- runs (if _ then _ else _) _ _ => case_match
  | |- runs (match _ with _ => _ end) _ _ => case_match
  end.
Ltac runs := repeat (runs_step; cbn beta iota).

(** ** Images and attachment *)
Section props.
Context `{HashOrder} (ow : Outside).
Implicit Types (b : Sandbox) (t : list (Action * bool)) (m : Mount) (s : Storage).

(** No device was attached. *)
Definition no_attach t : Prop := Forall (λ e, match e with (HotAttach _ _ _, true) => False | _ => True end) t.

(** No device was detached. *)
Definition no_detach t : Prop := Forall (λ e, match e.1 with HotDetach _ => False | _ => True end) t.

Lemma runs_id {B} (k : N → M Box B) b Q :
  runs (k (uwrap 32 (sb_id_generator b + 1))) (set_id_generator (uwrap 32 (sb_id_generator b + 1)) b) Q →
  runs (increment_and_get_id ≫= k) b Q.
Proof. intros Hk x c x' <- E. destruct (Hk (mkBox (set_id_generator (uwrap 32 (sb_id_generator (bx x) + 1)) (bx x)) (bx_ext x) (bx_log x)) c x' eq_refl E) as (t & L & HQ). eauto. Qed.

Lemma runs_stats {B} dir (k : option (N * N) → M Box B) b Q :
  (∀ st ok, runs (k st) b (λ c b' t, Q c b' ((Run ["du"; "-sm"; dir], ok) :: t))) →
  runs (estimate_dir_tree_stats ow dir ≫= k) b Q.
Proof.
  intros Hk x c x' Eb E. unfold estimate_dir_tree_stats in E.
  eapply (runs_host (Run ["du"; "-sm"; dir]) (λ ok, k (if ok : bool
    then n ← dir_entries (dir_tree ow dir); Some (estimate_dir_size_mb (du_output ow dir), n) else None)) b Q);
    [|done|exact E].
  intros ok. apply Hk.
Qed.

(** Building an image: the sandbox is not touched; what was built is owned by
    the runtime, and a failure removes the file again. *)
Lemma prepare_runs req b :
  runs (prepare ow req) b (λ r b' t, b' = b ∧ no_attach t ∧ no_detach t ∧
    match r with
    | Ok a => a = mkArtifact (img_path req) (BlockFs_as_str (bp_fstype req)) (bp_readonly req) true
                    (Some (img_path req)) (bp_source_identity req)
    | Err _ => ∃ ok, (RemoveFile (img_path req), ok) ∈ t
    end).
Proof.
  unfold prepare. apply runs_stats. intros st ok1.
  eapply (runs_bind _ _ _ (λ _ b' t, b' = b ∧ no_attach t ∧ no_detach t)).
  { assert (∀ size mkfs, runs (create_image (img_path req) size mkfs) b (λ _ b' t, b' = b ∧ no_attach t ∧ no_detach t)) as Hc.
    { intros size mkfs. unfold create_image. runs; (split; [done|]); split; repeat constructor. }
    assert (runs (copy_dir_to_loop_image (src_dir req) (img_path req)) b (λ _ b' t, b' = b ∧ no_attach t ∧ no_detach t)) as Hl.
    { unfold copy_dir_to_loop_image. runs; try (split; [done|split; repeat constructor]). }
    case_match; (eapply runs_bind; [apply Hc|]); intros [u|e] b1 t1 (-> & H1 & D1); try (apply runs_ret; by rewrite app_nil_r);
      (eapply runs_conseq; [apply Hl|]); intros r b2 t2 (-> & H2 & D2); (split; [done|split; by apply Forall_app]). }
  intros [u|e] b1 t1 (-> & H1 & D1); runs.
  - rewrite app_nil_r. split_and!; [done|by constructor|by constructor|done].
  - split_and!; [done| | |].
    + constructor; [done|]. apply Forall_app. split; [done|]. repeat constructor.
    + constructor; [done|]. apply Forall_app. split; [done|]. repeat constructor.
    + eexists. right. apply elem_of_app. right. by left.
Qed.

(** ** The storage list after [attach_storage] *)

(** A record made for the mount [m], with the ids drawn from the counter. *)
Record new_for (n : N) m s : Prop := {
  nf_source : host_source s = m_source m;
  nf_type : s_type s = m_type m;
  nf_id : s_id s = "storage" +:+ pretty n;
  nf_refs : ref_container s = ∅;
  nf_lower : lower_dirs s = None ∨ lower_dirs s = extract_lower_dirs (m_options m);
  nf_owned : owned_by_runtime s = true → is_Some (cleanup_path s);
  nf_device : ∀ d, device_id s = Some d → d = "blk" +:+ pretty (uwrap 32 (n + 1));
  nf_identity : source_identity s = overlay_identity m ∧ is_overlay m = true ∨
    ∃ k, source_identity s = Some (k +:+ ":" +:+ m_source m) ∧ (k = "block" ∨ k = "tmpfs" ∨ k = "bind" ∧ is_bind m = true)
}.

(** What a storage without a device stands for: a tmpfs the guest makes, content
    that was pushed into the guest, or a mount that was made below the directory
    shared with it. *)
Definition filled m t s : Prop :=
  driver s = DRIVEREPHEMERALTYPE ∧ fstype s = "tmpfs" ∨
  driver s = DRIVER_GUEST_FILE ∧
    ((∃ mode, (PushFile (mount_point s) mode, true) ∈ t) ∨ (InjectDir (mount_point s), true) ∈ t) ∨
  fstype s = "bind" ∧
    ∃ dest, (∃ o, (BindMount (m_source m) dest o, true) ∈ t) ∨
            (MountRootfs (m_type m) (m_source m) (m_options m) dest, true) ∈ t.

(** Its device, if any, has the last number drawn and was attached during [t];
    one without a device was filled. *)
Definition plugs (n : N) m b' t s : Prop :=
  (sb_id_generator b' = n ∨ sb_id_generator b' = uwrap 32 (n + 1)) ∧
  (∀ d, device_id s = Some d → sb_id_generator b' = uwrap 32 (n + 1) ∧ ∃ p ro, (HotAttach d p ro, true) ∈ t) ∧
  (device_id s = None → filled m t s).

(** Mounts the guest makes by itself. *)
Definition left_to_guest m : Prop := is_bind_shm m = true ∨ is_bind m = false ∧ is_overlay m = false.

(** The container of the snapshot whose reference the mount takes over: one that
    is still an orphan and refers to a storage that matches. *)
Definition orphans b : list string := r_orphan_container_ids (sb_restore b).
Definition orphan_for m (rootfs : bool) b : option string :=
  if bool_decide (orphans b = []) then None
  else fst <$> find_orphan_for_mount (sb_storages b) (orphans b) m rootfs.

(** The guest was told of the adoption, and the container is no orphan any more;
    without an adoption the orphans stay. *)
Definition adopts (c : string) (orphan : option string) b t b' : Prop :=
  match orphan with
  | Some o => (AdoptContainer o c, true) ∈ t ∧ orphans b' = retain (λ i, negb (bool_decide (i = o))) (orphans b)
  | None => orphans b' = orphans b
  end.

Inductive attached (c : string) m (rootfs : bool) b t b' : Prop :=
  | attached_none :
      find_reusable_storage_index (sb_storages b) m rootfs = None → left_to_guest m →
      sb_storages b' = sb_storages b → attached c m rootfs b t b'
  | attached_reused i s orphan :
      find_reusable_storage_index (sb_storages b) m rootfs = Some i → sb_storages b !! i = Some s →
      sb_storages b' = <[i := refer c (match orphan with Some o => defer o s | None => s end)]> (sb_storages b) →
      orphan = orphan_for m rootfs b → adopts c orphan b t b' →
      attached c m rootfs b t b'
  | attached_new s :
      find_reusable_storage_index (sb_storages b) m rootfs = None →
      new_for (uwrap 32 (sb_id_generator b + 1)) m s → plugs (uwrap 32 (sb_id_generator b + 1)) m b' t s →
      sb_storages b' = sb_storages b ++ [refer c s] → attached c m rootfs b t b'.

(** What is left of the sandbox: all but its storages, counter and orphans. *)
Record same_but b b' : Prop := {
  sb_same_containers : sb_containers b' = sb_containers b;
  sb_same_dir : sb_base_dir b' = sb_base_dir b;
  sb_same_gen : sb_id_generator b' = sb_id_generator b ∨ sb_id_generator b' = uwrap 32 (sb_id_generator b + 1) ∨
                sb_id_generator b' = uwrap 32 (uwrap 32 (sb_id_generator b + 1) + 1)
}.

Definition attach_post (c : string) m (rootfs : bool) b (r : result unit SbError) b' t : Prop :=
  same_but b b' ∧ no_detach t ∧
  match r with
  | Ok _ => attached c m rootfs b t b'
  | Err _ => sb_storages b' = sb_storages b ∧
      (∀ d p ro, (HotAttach d p ro, true) ∈ t → p = m_source m ∧ (IsBlockDevice p, true) ∈ t)
  end.

(** Everything below happens after the storage's number was drawn. *)
Definition handler_post (c : string) m (n : N) b (r : result unit SbError) b' t : Prop :=
  sb_containers b' = sb_containers b ∧ sb_base_dir b' = sb_base_dir b ∧
  (sb_id_generator b' = sb_id_generator b ∨ sb_id_generator b' = uwrap 32 (sb_id_generator b + 1)) ∧ no_detach t ∧
  match r with
  | Ok _ => sb_storages b' = sb_storages b ∧ left_to_guest m ∨ ∃ s, (new_for n m s ∧ (n = sb_id_generator b → plugs n m b' t s)) ∧ sb_storages b' = sb_storages b ++ [refer c s]
  | Err _ => sb_storages b' = sb_storages b ∧ no_attach t
  end.

Ltac in_log := solve [repeat first [apply list_elem_of_here | apply list_elem_of_further]].
Ltac fill :=
  first [ by left
        | right; left; split; [done|]; first [left; eexists; in_log | right; in_log]
        | right; right; split; [done|]; eexists; first [left; eexists; in_log | right; in_log] ].
Ltac post :=
  unfold handler_post; simpl; split_and!; auto;
  lazymatch goal with
  | |- _ ∨ (∃ _, _) => right; eexists; split; [|reflexivity];
      split; [split; simpl; auto; try done|intros ?; subst; split; [by auto|split;
        [first [by intros ? [=] | intros ? [= <-]; split; [done|eexists _, _; by left] | idtac]
        |first [by intros [=] | intros _; fill]]]]
  | |- no_attach _ => repeat constructor
  | |- no_detach _ => repeat constructor
  | _ => idtac
  end.

Lemma attach_image_runs a n c src m l b :
  sb_id_generator b = n → src = m_source m → is_Some (ba_cleanup_path a) →
  (l = None ∨ l = extract_lower_dirs (m_options m)) →
  (ba_source_identity a = overlay_identity m ∧ is_overlay m = true ∨
   ba_source_identity a = Some ("bind:" +:+ m_source m) ∧ is_bind m = true) →
  runs (attach_image ow a ("storage" +:+ pretty n) c src m l) b (handler_post c m n b).
Proof.
  intros <- -> Hc Hl Hi. unfold attach_image. apply runs_id. unfold attach_block, release_artifact, push_storage. runs; post.
  - by intros d [= <-].
  - destruct Hi as [Hi|[Hi Hb]]; [by left|right]. exists "bind". auto.
Qed.

(** The device of a block special file stays attached when [blkid] finds no
    file system on it. *)
Definition block_post (c : string) m (n : N) b (r : result unit SbError) b' t : Prop :=
  handler_post c m n b r b' t ∨
  (∃ e, r = Err e) ∧ sb_storages b' = sb_storages b ∧ sb_containers b' = sb_containers b ∧ sb_base_dir b' = sb_base_dir b ∧
    sb_id_generator b' = uwrap 32 (sb_id_generator b + 1) ∧ no_detach t ∧
    (∀ d p ro, (HotAttach d p ro, true) ∈ t → p = m_source m).

Lemma block_device_runs n c m b :
  sb_id_generator b = n → runs (handle_block_device ow ("storage" +:+ pretty n) c m) b (block_post c m n b).
Proof.
  intros <-. unfold handle_block_device. runs; [left; post|]. apply runs_id. unfold get_fstype, push_storage. runs.
  - left. post.
    + by intros d [= <-].
    + right. exists "block". auto.
  - right. split_and!; eauto; [repeat constructor|]. intros d p ro Hin. set_solver.
  - right. split_and!; eauto; [repeat constructor|]. intros d p ro Hin. set_solver.
  - left. post.
Qed.

Lemma bind_mount_runs n c m b :
  is_bind m = true → runs (handle_bind_mount ("storage" +:+ pretty n) c m) b (handler_post c m n b).
Proof.
  intros Hb. unfold handle_bind_mount, push_storage. runs; post; try done; right; exists "bind"; auto.
Qed.
Lemma overlay_mount_runs n c m b :
  is_overlay m = true → runs (handle_overlay_mount ("storage" +:+ pretty n) c m) b (handler_post c m n b).
Proof. intros Hb. unfold handle_overlay_mount, push_storage. runs; post. Qed.
Lemma tmpfs_mount_runs n c m mi b :
  runs (handle_tmpfs_mount ("storage" +:+ pretty n) c m mi) b (handler_post c m n b).
Proof. unfold handle_tmpfs_mount, push_storage. runs; post; try done. right. exists "tmpfs". auto. Qed.

Lemma filled_app m t0 t s : filled m t s → filled m (t0 ++ t) s.
Proof. unfold filled. setoid_rewrite elem_of_app. naive_solver. Qed.
Lemma plugs_app n m b' t0 t s : plugs n m b' t s → plugs n m b' (t0 ++ t) s.
Proof.
  intros (Hn & Hp & Hf). split; [done|]. split; [|by intros ?; apply filled_app, Hf].
  intros d Hd. destruct (Hp d Hd) as (Hg & p & ro & Hin). split; [done|].
  exists p, ro. apply elem_of_app. by right.
Qed.
Lemma handler_post_app c m n b r b' t t0 :
  no_attach t0 → no_detach t0 → handler_post c m n b r b' t → handler_post c m n b r b' (t0 ++ t).
Proof.
  intros H0 D0 (H1 & H2 & H3 & D & H4). split_and!; [done|done|done|by apply Forall_app|]. destruct r.
  { destruct H4 as [H4|(s & [Hs Hp] & Hb)]; [by left|]. right. exists s. split; [|done]. split; [done|].
    intros Hn. by apply plugs_app, Hp. }
  split; [apply H4|].
  apply Forall_app. split; [done|apply H4].
Qed.
Lemma handler_post_cons c m n b r b' t e :
  no_attach [e] → no_detach [e] → handler_post c m n b r b' t → handler_post c m n b r b' (e :: t).
Proof. apply (handler_post_app c m n b r b' t [e]). Qed.

Lemma overlay_mount_blk_runs n c m b :
  sb_id_generator b = n → is_overlay m = true →
  runs (handle_overlay_mount_blk ow ("storage" +:+ pretty n) c m) b (handler_post c m n b).
Proof.
  intros Hn Ho. unfold handle_overlay_mount_blk. runs; try (post; fail).
  eapply runs_bind; [apply prepare_runs|]. intros r b1 t1 (-> & N1 & D1 & Hr). runs.
  - eapply runs_conseq; [apply attach_image_runs; [done|done|by subst; eauto|auto|subst; by left]|].
    intros r' b' t Hp. do 2 (apply handler_post_cons; [by repeat constructor|by repeat constructor|]). apply handler_post_app; [done|done|].
    by do 2 (apply handler_post_cons; [by repeat constructor|by repeat constructor|]).
  - do 2 (apply handler_post_cons; [by repeat constructor|by repeat constructor|]). apply handler_post_app; [done|done|]. post.
Qed.

Lemma bind_mount_blk_runs n c m rootfs b :
  sb_id_generator b = n → is_bind m = true →
  runs (handle_bind_mount_blk ow ("storage" +:+ pretty n) c m rootfs) b (handler_post c m n b).
Proof.
  intros Hn Hb. unfold handle_bind_mount_blk, inject_small_dir, with_guest, push_storage.
  assert (∃ k, Some ("bind:" +:+ m_source m) = Some (k +:+ ":" +:+ m_source m) ∧
    (k = "block" ∨ k = "tmpfs" ∨ k = "bind" ∧ is_bind m = true)) as Hk by (exists "bind"; auto).
  runs; try (post; try done; right; exact Hk).
  eapply runs_bind; [apply prepare_runs|]. intros [ar|e] b1 t1 (-> & N1 & D1 & Hr); runs.
  - eapply runs_conseq; [apply attach_image_runs; [done|done|by subst; eauto|auto|subst; by right]|].
    intros r b' t Hp. apply handler_post_cons; [by repeat constructor|by repeat constructor|]. by apply handler_post_app.
  - apply handler_post_cons; [by repeat constructor|by repeat constructor|]. apply handler_post_app; [done|done|]. post.
Qed.

Lemma attach_by_type_runs n c m rootfs b :
  sb_id_generator b = n →
  runs (attach_by_type ow ("storage" +:+ pretty n) c m rootfs) b (handler_post c m n b).
Proof.
  intros Hn. unfold attach_by_type. runs.
  - split_and!; auto; [constructor|]. left. split; [done|by left].
  - by apply bind_mount_blk_runs.
  - by apply bind_mount_runs.
  - by apply overlay_mount_blk_runs.
  - by apply overlay_mount_runs.
  - split_and!; auto; [constructor|]. left. split; [done|by right].
Qed.

Lemma no_attach_elem t d p ro : no_attach t → (HotAttach d p ro, true) ∉ t.
Proof. intros Hn Hin. by apply (proj1 (Forall_forall _ _) Hn) in Hin. Qed.

(** From a handler's account to the account of [attach_storage]. *)
Lemma attach_post_handler c m rootfs b r b' t t0 :
  let b1 := set_id_generator (uwrap 32 (sb_id_generator b + 1)) b in
  find_reusable_storage_index (sb_storages b) m rootfs = None →
  no_attach t0 → no_detach t0 → handler_post c m (sb_id_generator b1) b1 r b' t → attach_post c m rootfs b r b' (t0 ++ t).
Proof.
  intros b1 Hf H0 D0 (H1 & H2 & H3 & D & H4). split; [split; [done|done|destruct H3; auto]|].
  split; [by apply Forall_app|]. destruct r as [u|e].
  - destruct H4 as [[E Hg]|(s & [Hs Hp] & E)]; [by eapply attached_none|].
    eapply attached_new; [done|exact Hs|by apply plugs_app, Hp|done].
  - destruct H4 as [-> H4]. split; [done|]. intros d p ro Hin. exfalso.
    by apply (no_attach_elem (t0 ++ t) d p ro); [apply Forall_app|].
Qed.

Lemma attach_new_runs c m rootfs b :
  find_reusable_storage_index (sb_storages b) m rootfs = None →
  runs (attach_new_storage ow c m rootfs) b (attach_post c m rootfs b).
Proof.
  intros Hf. unfold attach_new_storage. apply runs_id. apply runs_host. intros [].
  - eapply runs_conseq; [by apply block_device_runs|]. intros r b' t [Hp|((e & ->) & Hs & Hc & Hd & Hg & D & Ha)].
    + by apply (attach_post_handler c m rootfs b r b' t [_]); [|repeat constructor|repeat constructor|].
    + split; [split; auto|]. split; [by constructor|]. split; [done|]. intros d p ro Hin. assert (p = m_source m) as -> by set_solver. split; [done|by left].
  - assert (∀ t0, no_attach t0 → no_detach t0 →
      runs (attach_by_type ow ("storage" +:+ pretty (uwrap 32 (sb_id_generator b + 1))) c m rootfs)
        (set_id_generator (uwrap 32 (sb_id_generator b + 1)) b) (λ r b' t, attach_post c m rootfs b r b' (t0 ++ t))) as Hby.
    { intros t0 H0 D0. eapply runs_conseq; [by apply attach_by_type_runs|]. intros r b' t. by apply attach_post_handler. }
    assert (∀ t0 x, no_attach t0 → no_detach t0 →
      runs (handle_tmpfs_mount ("storage" +:+ pretty (uwrap 32 (sb_id_generator b + 1))) c m x)
        (set_id_generator (uwrap 32 (sb_id_generator b + 1)) b) (λ r b' t, attach_post c m rootfs b r b' (t0 ++ t))) as Ht.
    { intros t0 x H0 D0. eapply runs_conseq; [by apply tmpfs_mount_runs|]. intros r b' t. by apply attach_post_handler. }
    runs; try (apply (Hby [_; _]) || apply (Hby [_]) || apply (Ht [_; _]); by repeat constructor).
    split; [by split; auto|]. split; [repeat constructor|]. split; [done|]. set_solver.
Qed.

Lemma on_reusable_attached c m rootfs b t b' (orphan : option string) :
  is_Some (find_reusable_storage_index (sb_storages b) m rootfs) →
  sb_storages b' = on_reusable m rootfs (λ s, refer c (match orphan with Some o => defer o s | None => s end))
    (sb_storages b) →
  orphan = orphan_for m rootfs b → adopts c orphan b t b' →
  attached c m rootfs b t b'.
Proof.
  intros [i Hi]. unfold on_reusable. rewrite Hi. pose proof Hi as (s & Hs & _)%position_lookup. intros E Ho Ha.
  apply (attached_reused c m rootfs b t b' i s orphan); [done|done| |done|done]. rewrite E, list_insert_alter.
  by apply list_alter_ext; [intros x Hx; simplify_eq|].
Qed.

Lemma find_orphan_reusable l orphans m rootfs x :
  find_orphan_for_mount l orphans m rootfs = Some x → is_Some (find_reusable_storage_index l m rootfs).
Proof.
  intros Hf. destruct (find_reusable_storage_index l m rootfs) as [i|] eqn:E; [eauto|]. exfalso.
  assert (∀ s, s ∈ l → storage_matches_mount s m rootfs = false) as Hn by (by apply find_first_None, position_find).
  clear E. induction l as [|s l IH]; [done|]. simpl in Hf. rewrite Hn in Hf by (by left).
  apply IH; [done|]. intros s' Hs. apply Hn. by right.
Qed.

Lemma attach_storage_runs c m rootfs b : runs (attach_storage ow c m rootfs) b (attach_post c m rootfs b).
Proof.
  unfold attach_storage, call_adopt_container, with_guest. apply runs_self.
  destruct (if bool_decide _ then None else _) as [[o i]|] eqn:Eo.
  - assert (Some o = orphan_for m rootfs b) as Ho.
    { change (Datatypes.id b) with b in Eo. unfold orphan_for, orphans. case_bool_decide; [done|]. by rewrite Eo. }
    case_match; [done|]. apply find_orphan_reusable in Eo. cbn. runs; (split; [by split; auto|]); (split; [repeat constructor|]).
    + apply (on_reusable_attached c m rootfs b _ _ (Some o)); [done|done|done|]. split; [by left|done].
    + split; [done|]. set_solver.
    + split; [done|]. set_solver.
  - assert (None = orphan_for m rootfs b) as Ho.
    { change (Datatypes.id b) with b in Eo. unfold orphan_for, orphans. case_bool_decide; [done|]. by rewrite Eo. }
    clear Eo. destruct (find_reusable_storage_index _ _ _) as [i|] eqn:Ei; [|by apply attach_new_runs].
    runs. split; [by split; auto|]. split; [repeat constructor|]. by apply (on_reusable_attached c m rootfs b _ _ None).
Qed.

(** ** Releasing storages *)

(** The image file of a storage the runtime owns is known. *)
Definition imaged s : Prop := owned_by_runtime s = true → is_Some (cleanup_path s).

Definition detached s (r : result unit SbError) t : Prop :=
  no_attach t ∧
  (∀ d ok, (HotDetach d, ok) ∈ t → device_id s = Some d) ∧
  match r with
  | Ok _ => ∀ d, device_id s = Some d → (HotDetach d, true) ∈ t
  | Err _ => imaged s → ∀ d, (HotDetach d, true) ∉ t
  end.

Lemma detach_storage_runs s b : runs (detach_storage s) b (λ r b' t, b' = b ∧ detached s r t).
Proof.
  unfold detach_storage, from_storage, release_artifact.
  destruct (device_id s) as [d|] eqn:Ed; [|destruct (bool_decide (driver s = _)); [|destruct (bool_decide (fstype s = _))]];
    (destruct (owned_by_runtime s) eqn:Eo; simpl); try (destruct (cleanup_path s) as [p|] eqn:Ep; simpl);
    runs; (split; [done|]); unfold detached, imaged; rewrite Ed, ?Eo, ?Ep;
    (split_and!; [repeat constructor|set_solver|]); try set_solver;
    try (intros Hi; by destruct (Hi eq_refl)).
Qed.

(** After the loop: the storages released so far are gone, and nothing else. *)
Record released (l : list Storage) b (r : result unit SbError) b' t (gone : list Storage) : Prop := {
  rel_prefix : ∃ rest, l = gone ++ rest ∧ match r with Ok _ => rest = [] | Err _ => rest ≠ [] end;
  rel_storages : b' = set_storages (retain (λ x, negb (bool_decide (s_id x ∈ s_id <$> gone)))) b;
  rel_no_attach : no_attach t;
  rel_detached : ∀ s d, s ∈ gone → device_id s = Some d → (HotDetach d, true) ∈ t;
  rel_only : ∀ d ok, (HotDetach d, ok) ∈ t → ∃ s, s ∈ l ∧ device_id s = Some d;
  rel_exact : Forall imaged l → ∀ d, (HotDetach d, true) ∈ t → ∃ s, s ∈ gone ∧ device_id s = Some d
}.

Lemma set_storages_id b : set_storages (retain (λ x, negb (bool_decide (s_id x ∈ s_id <$> ([] : list Storage))))) b = b.
Proof. destruct b; unfold set_storages; simpl. f_equal. by apply retain_id. Qed.

Lemma detach_all_runs l b : runs (detach_all l) b (λ r b' t, ∃ gone, released l b r b' t gone).
Proof.
  revert b. induction l as [|s l IH]; intros b; simpl.
  { runs. exists []. split; [by exists []|by rewrite set_storages_id|constructor|set_solver..]. }
  eapply runs_bind; [apply detach_storage_runs|]. intros [u|e] b1 t1 (-> & N1 & O1 & D1); runs.
  - eapply runs_conseq; [apply IH|]. intros r b' t (gone & [(rest & -> & Hr) Hs N D O E]). exists (s :: gone). split.
    + by exists rest.
    + rewrite Hs. unfold set_storages. simpl. f_equal. rewrite retain_retain. apply retain_ext. intros x.
      destruct (decide (s_id x = s_id s)) as [He|He].
      * rewrite (bool_decide_true (s_id x = s_id s)) by done. cbn [negb andb]. rewrite bool_decide_true; [done|]. rewrite He. by left.
      * rewrite (bool_decide_false (s_id x = s_id s)) by done. simpl. f_equal. apply bool_decide_ext. csimpl. rewrite elem_of_cons. naive_solver.
    + by apply Forall_app.
    + intros x d [->|Hx]%elem_of_cons Hd; apply elem_of_app; [left; by apply D1|right; by eapply D].
    + intros d ok [Hin|Hin]%elem_of_app; [exists s; split; [by left|by eapply O1]|].
      destruct (O d ok Hin) as (x & Hx & ?). exists x. split; [by right|done].
    + intros [Hi Hl]%Forall_cons d [Hin|Hin]%elem_of_app; [exists s; split; [by left|by eapply O1]|].
      destruct (E Hl d Hin) as (x & Hx & ?). exists x. split; [by right|done].
  - exists []. rewrite app_nil_r. split; [by exists (s :: l)|by rewrite set_storages_id|done|set_solver| |].
    + intros d ok Hin. exists s. split; [by left|by eapply O1].
    + intros [Hi _]%Forall_cons d Hin. by destruct (D1 Hi d).
Qed.
End props.
