(* ===== verification/DeviceGraph.v ===== *)
(** * The device graph over the life of a sandbox

    Every storage of a sandbox keeps its own id and its own device, the device
    of a storage is plugged into the VM, and an image the runtime owns has a
    file to remove: an invariant of adding, updating and removing containers,
    as long as the 32-bit counter the names are drawn from has not wrapped. *)
From S2P Require Import Prelude Strs Storage Types GuestFile GuestScan Mount Inject Annotations Box BlockImage StorageOps Handlers BoxCalm StorageProps.

(** ** The invariant *)

(** The devices in the VM after the calls of a log. *)
Definition plug (P : gset string) (e : Action * bool) : gset string :=
  match e with
  | (HotAttach d _ _, true) | (HotAttachPipe d _, true) => {[d]} ∪ P
  | (HotDetach d, true) => P ∖ {[d]}
  | _ => P
  end.
Definition plugged (log : list (Action * bool)) : gset string := foldl plug ∅ log.

(** What the invariant sees of a storage. *)
Record Slot := mkSlot { sl_id : string; sl_dev : option string; sl_image : bool }.
Definition slot (s : Storage) : Slot :=
  mkSlot (s_id s) (device_id s) (negb (owned_by_runtime s) || bool_decide (is_Some (cleanup_path s))).

Record slots_ok (n : N) (P : gset string) (g : list Slot) : Prop := {
  so_ids : NoDup (sl_id <$> g);
  so_id : ∀ s, s ∈ g → ∃ k, (k ≤ n)%N ∧ sl_id s = "storage" +:+ pretty k;
  so_dev : ∀ s d, s ∈ g → sl_dev s = Some d → (∃ k, (k ≤ n)%N ∧ d = "blk" +:+ pretty k) ∧ d ∈ P;
  so_own : ∀ s s', s ∈ g → s' ∈ g → sl_dev s = sl_dev s' → is_Some (sl_dev s) → s = s';
  so_image : ∀ s, s ∈ g → sl_image s = true
}.

Definition is_pipe (d : string) : Prop := ∃ n : N, d = "virtioserial" +:+ pretty n.
Definition pipes_ok (c : KuasarContainer) : Prop :=
  Forall is_pipe (kc_io_devices c) ∧ Forall (λ k, Forall is_pipe (kp_io_devices k)) (kc_processes c).

Definition gen (x : Box) : N := sb_id_generator (bx x).

Record graph_ok (x : Box) : Prop := {
  go_gen : (gen x ≤ u32_max)%N;
  go_slots : slots_ok (gen x) (plugged (bx_log x)) (slot <$> sb_storages (bx x));
  go_pipes : map_Forall (λ _, pipes_ok) (sb_containers (bx x))
}.

(** *** Changes to the slots *)
Lemma slots_mono n n' P P' g :
  (n ≤ n')%N → (∀ d k, d = "blk" +:+ pretty (k : N) → d ∈ P → d ∈ P') → slots_ok n P g → slots_ok n' P' g.
Proof.
  intros Hn HP [A B C D E]. split; try done.
  - intros s Hs. destruct (B s Hs) as (k & ? & ?). exists k. split; [lia|done].
  - intros s d Hs Hd. destruct (C s d Hs Hd) as ((k & ? & Hk) & Hp). split; [exists k; split; [lia|done]|by eapply HP].
Qed.

Lemma slots_sublist n P g g' : sublist g' g → slots_ok n P g → slots_ok n P g'.
Proof.
  intros Hg [A B C D E]. assert (∀ s, s ∈ g' → s ∈ g) as Hi by (intros; by eapply elem_of_sublist). split; eauto.
  eapply sublist_NoDup; [done|]. by apply fmap_sublist.
Qed.

(** Unplug the device of a slot that goes away. *)
Lemma slots_unplug n P g s d :
  s ∈ g → sl_dev s = Some d → slots_ok n P g →
  slots_ok n (P ∖ {[d]}) (retain (λ x, negb (bool_decide (sl_id x = sl_id s))) g).
Proof.
  intros Hs Hd Hg. assert (slots_ok n P (retain (λ x, negb (bool_decide (sl_id x = sl_id s))) g)) as [A B C D E].
  { eapply slots_sublist; [|done]. apply retain_sublist. }
  split; try done. intros s' d' Hs' Hd'. destruct (C s' d' Hs' Hd') as [? ?]. split; [done|].
  apply elem_of_retain in Hs' as [Hs' Hne]. apply elem_of_difference. split; [done|]. intros ->%elem_of_singleton.
  rewrite (so_own _ _ _ Hg s' s Hs' Hs) in Hne; [|congruence|eauto]. by rewrite bool_decide_true in Hne.
Qed.

Lemma slots_new n n' P g s :
  slots_ok n P g → sl_image s = true →
  (∃ k, (n < k ≤ n')%N ∧ sl_id s = "storage" +:+ pretty k) →
  (∀ d, sl_dev s = Some d → (∃ k, (n < k ≤ n')%N ∧ d = "blk" +:+ pretty k) ∧ d ∈ P) →
  slots_ok n' P (g ++ [s]).
Proof.
  intros Hg Hi (ki & Hki & Hid) Hd.
  assert (∀ x, x ∈ g → sl_id x ≠ sl_id s) as Fi.
  { intros x (k & Hk & ->)%(so_id _ _ _ Hg) Hx. rewrite Hid in Hx. simplify_eq. lia. }
  assert (∀ x d, x ∈ g → sl_dev x = Some d → sl_dev s ≠ Some d) as Fd.
  { intros x d Hx [(k & Hk & ->) _]%(so_dev _ _ _ Hg x d Hx) [(k' & Hk' & Hs) _]%Hd. simplify_eq. lia. }
  apply (slots_mono n n' P P) in Hg as [A B C D E]; [|lia|done]. split.
  - rewrite fmap_app. apply NoDup_app. split_and!; [done| |apply NoDup_singleton].
    intros x (y & Hy & Hin)%list_elem_of_fmap Hs%list_elem_of_singleton. apply (Fi y Hin). congruence.
  - intros x [Hx| ->%list_elem_of_singleton]%elem_of_app; [by apply B|]. exists ki. split; [lia|done].
  - intros x d [Hx| ->%list_elem_of_singleton]%elem_of_app Hx'; [by apply (C x)|].
    destruct (Hd d Hx') as [(k & ? & ?) ?]. split; [exists k; split; [lia|done]|done].
  - intros x y [Hx| ->%list_elem_of_singleton]%elem_of_app [Hy| ->%list_elem_of_singleton]%elem_of_app Exy [d Ed]; eauto.
    + exfalso. eapply (Fd x d); [done..|congruence].
    + exfalso. eapply (Fd y d); [done|congruence|done].
  - intros x [Hx| ->%list_elem_of_singleton]%elem_of_app; [by apply E|done].
Qed.

(** *** The log *)
Lemma plugged_app l t : plugged (l ++ t) = foldl plug (plugged l) t.
Proof. apply foldl_app. Qed.
Lemma plug_keeps t P d : (HotDetach d, true) ∉ t → d ∈ P → d ∈ foldl plug P t.
Proof.
  revert P. induction t as [|e t IH]; intros P Ht Hd; [done|]. apply not_elem_of_cons in Ht as [He Ht]. apply IH; [done|].
  destruct e as [[] []]; simpl; try done; try (apply elem_of_union; by right).
  apply elem_of_difference. split; [done|]. by intros ->%elem_of_singleton.
Qed.
Lemma no_detach_elem t d ok : no_detach t → (HotDetach d, ok) ∉ t.
Proof. intros Hn He. by apply (proj1 (Forall_forall _ _) Hn) in He. Qed.
Lemma plug_attached t P d p ro : no_detach t → (HotAttach d p ro, true) ∈ t → d ∈ foldl plug P t.
Proof.
  intros Hn Hin. apply list_elem_of_split in Hin as (t1 & t2 & ->). apply Forall_app in Hn as [_ Hn].
  rewrite foldl_app. simpl. apply plug_keeps; [|apply elem_of_union; left; by apply elem_of_singleton].
  apply no_detach_elem. by apply Forall_cons in Hn as [_ Hn].
Qed.

(** ** Operations that keep the invariant and draw at most [k] numbers *)
Definition draws (k : N) {A} (m : M Box A) (Q : A → Prop) : Prop :=
  ∀ x a x', graph_ok x → (gen x + k ≤ u32_max)%N → m x = Some (a, x') →
    graph_ok x' ∧ (gen x ≤ gen x' ≤ gen x + k)%N ∧ Q a.

Lemma draws_ret {A} (a : A) (Q : A → Prop) : Q a → draws 0 (mret a) Q.
Proof. intros Hq x a' x' Hx _ [= <- <-]. split_and!; [done|lia|lia|done]. Qed.
Lemma draws_bind {A B} j k (m : M Box A) (f : A → M Box B) (R : A → Prop) (Q : B → Prop) :
  draws j m R → (∀ a, R a → draws k (f a) Q) → draws (j + k) (m ≫= f) Q.
Proof.
  intros Hm Hf x b x2 Hx Hg. unfold mbind, M_bind. destruct (m x) as [[a x1]|] eqn:E1; [|done]. intros E2.
  destruct (Hm x a x1 Hx ltac:(lia) E1) as (H1 & G1 & R1).
  destruct (Hf a R1 x1 b x2 H1 ltac:(lia) E2) as (H2 & G2 & Q2). split_and!; [done|lia|lia|done].
Qed.
Lemma draws_bind0 {A B} k (m : M Box A) (f : A → M Box B) (R : A → Prop) (Q : B → Prop) :
  draws 0 m R → (∀ a, R a → draws k (f a) Q) → draws k (m ≫= f) Q.
Proof. apply (draws_bind 0 k). Qed.
Lemma draws_le {A} j k (m : M Box A) (Q : A → Prop) : (j ≤ k)%N → draws j m Q → draws k m Q.
Proof.
  intros Hjk Hm x a x' Hx Hg E. destruct (Hm x a x' Hx ltac:(lia) E) as (? & ? & ?). split_and!; [done|lia|lia|done].
Qed.
Lemma draws_conseq {A} k (m : M Box A) (R Q : A → Prop) : draws k m R → (∀ a, R a → Q a) → draws k m Q.
Proof. intros Hm HQ x a x' Hx Hg E. destruct (Hm x a x' Hx Hg E) as (? & ? & ?). split_and!; auto; lia. Qed.

(** Reading the sandbox, with the part of the invariant that is worth keeping. *)
Lemma draws_self {A} (f : Sandbox → A) (Q : A → Prop) : (∀ x, graph_ok x → Q (f (bx x))) → draws 0 (self f) Q.
Proof. intros Hf x a x' Hx _ [= <- <-]. split_and!; [done|lia|lia|by apply Hf]. Qed.

Lemma draws_set f :
  (∀ b, sb_id_generator (f b) = sb_id_generator b) →
  (∀ b, slot <$> sb_storages (f b) = slot <$> sb_storages b) →
  (∀ b, map_Forall (λ _, pipes_ok) (sb_containers b) → map_Forall (λ _, pipes_ok) (sb_containers (f b))) →
  draws 0 (set_self f) (λ _, True).
Proof.
  intros Hg Hs Hc x a x' [G S C] _ [= <- <-]. unfold gen in *. simpl. split; [|split; [rewrite Hg; lia|done]].
  split; unfold gen; simpl; rewrite ?Hg, ?Hs; auto.
Qed.

Lemma draws_host a : (∀ d, a = HotDetach d → is_pipe d) → draws 0 (host a) (λ _, True).
Proof.
  intros Ha x r x' [G S C] _ [= <- <-]. unfold gen in *. simpl. split_and!; [|lia|lia|done].
  split; [done| |done]. simpl. rewrite plugged_app. eapply slots_mono; [done| |done].
  intros d k -> Hd. apply plug_keeps; [|done]. intros [= <- _]%list_elem_of_singleton.
  destruct (Ha _ eq_refl) as [n Hn]. done.
Qed.
Lemma draws_must a : (∀ d, a = HotDetach d → is_pipe d) → draws 0 (must a) (λ _, True).
Proof. intros Ha. eapply draws_bind0; [by apply draws_host|]. intros b _. by apply draws_ret. Qed.
Lemma draws_may a : (∀ d, a = HotDetach d → is_pipe d) → draws 0 (may a) (λ _, True).
Proof. intros Ha. eapply draws_bind0; [by apply draws_host|]. intros b _. by apply draws_ret. Qed.

Create HintDb draws.

Ltac draws :=
  repeat first
    [ solve [eauto 2 with draws nocore]
    | apply draws_ret; done
    | apply draws_self; done
    | apply draws_set; [done|done|done]
    | apply draws_host; discriminate
    | apply draws_must; discriminate
    | apply draws_may; discriminate
    | apply (draws_bind0 _ _ _ (λ _, True)); [solve [draws]|intros ? _]
    | progress (repeat case_match) ].

Section graph.
Context `{HashOrder} (ow : Outside).

Lemma draws_id : draws 1 increment_and_get_id (λ _, True).
Proof.
  intros x a x' [G S C] Hg [= <- <-]. unfold gen in *. simpl in *.
  rewrite (uwrap_small 32 (sb_id_generator (bx x) + 1)) by (unfold u32_max in *; lia). split; [|split; [lia|done]].
  split; unfold gen; simpl; [lia| |done]. eapply slots_mono; [|done|done]. lia.
Qed.

Lemma draws_write p : draws 0 (write_file_atomic p) (λ _, True).
Proof. unfold write_file_atomic. draws. Qed.
Lemma draws_with_guest {A} (m : M Box (result A SbError)) : draws 0 m (λ _, True) → draws 0 (with_guest m) (λ _, True).
Proof. intros Hm. unfold with_guest. draws. Qed.
Lemma draws_container id :
  draws 0 (container id) (λ r, match r with Ok c => pipes_ok c | Err _ => True end).
Proof.
  unfold container. apply (draws_bind0 _ _ _ (λ o, ∀ c, o = Some c → pipes_ok c)).
  - apply draws_self. intros x Hx c Hc. by apply (go_pipes x Hx id c).
  - intros [c|] Hc; apply draws_ret; auto.
Qed.
Lemma draws_on_container id f : (∀ c, pipes_ok c → pipes_ok (f c)) → draws 0 (on_container id f) (λ _, True).
Proof.
  intros Hf. unfold on_container. apply draws_set; [done|done|]. intros b Hb i c. simpl.
  rewrite lookup_alter_Some. intros [(-> & c' & Hc & ->)|[_ Hc]]; [by apply Hf, (Hb i)|by apply (Hb i)].
Qed.
Hint Resolve draws_write draws_with_guest : draws.

(** *** Attaching *)
Lemma attach_keeps c m rootfs : draws 2 (attach_storage ow c m rootfs) (λ _, True).
Proof.
  intros x r x' [G S C] Hg E. destruct (attach_storage_runs ow c m rootfs (bx x) x r x' eq_refl E) as (t & L & Sm & D & Hr).
  destruct Sm as [Ec _ Eg]. unfold gen in *.
  assert (∀ n, (n ≤ sb_id_generator (bx x) + 2)%N → uwrap 32 n = n) as Hw.
  { intros n Hn. apply uwrap_small. unfold u32_max in *. lia. }
  rewrite (Hw (sb_id_generator (bx x) + 1)%N), (Hw (sb_id_generator (bx x) + 1 + 1)%N) in Eg by lia.
  assert (slots_ok (sb_id_generator (bx x)) (plugged (bx_log x')) (slot <$> sb_storages (bx x))) as S1.
  { rewrite L, plugged_app. eapply slots_mono; [done| |done]. intros d k _ Hd. apply plug_keeps; [|done].
    by apply no_detach_elem. }
  assert (sb_id_generator (bx x) ≤ sb_id_generator (bx x') ≤ sb_id_generator (bx x) + 2)%N as Hle by lia.
  split; [|done]. split; [unfold gen; lia| |by rewrite Ec]. unfold gen.
  assert (slots_ok (sb_id_generator (bx x')) (plugged (bx_log x')) (slot <$> sb_storages (bx x))) as S2
    by (eapply slots_mono; [|done|done]; lia).
  destruct r as [u|e]; [|by rewrite (proj1 Hr)]. destruct Hr as [_ _ Es|i s o Hf Hs Es _ _|s Hf Hn (Hp & Hd & _) Es]; rewrite Es.
  - done.
  - rewrite list_fmap_insert, list_insert_id; [done|]. rewrite list_lookup_fmap, Hs. by destruct o.
  - rewrite (Hw (sb_id_generator (bx x) + 1)%N) in Hn, Hp, Hd by lia.
    rewrite (Hw (sb_id_generator (bx x) + 1 + 1)%N) in Hp, Hd by lia.
    rewrite fmap_app. eapply slots_new; [exact S1| | |].
    + simpl. destruct (owned_by_runtime s) eqn:Eo; [|done]. by rewrite bool_decide_true by (by apply (nf_owned _ _ _ Hn)).
    + exists (sb_id_generator (bx x) + 1)%N. split; [lia|]. apply (nf_id _ _ _ Hn).
    + intros d Ed. simpl in Ed. destruct (Hd d Ed) as (Eg' & p & ro & Hin). split.
      * exists (sb_id_generator (bx x) + 1 + 1)%N. split; [lia|]. rewrite (nf_device _ _ _ Hn d Ed). by rewrite (Hw (_ + 1 + 1)%N) by lia.
      * rewrite L, plugged_app. by eapply plug_attached.
Qed.

(** *** Releasing *)
Lemma slot_imaged s : sl_image (slot s) = true ↔ imaged s.
Proof.
  unfold imaged. simpl. destruct (owned_by_runtime s); simpl; [|split; done].
  rewrite bool_decide_eq_true. split; auto.
Qed.

Lemma detach_all_keeps x l r x' :
  graph_ok x → sublist l (sb_storages (bx x)) → detach_all l x = Some (r, x') → graph_ok x' ∧ gen x' = gen x.
Proof.
  intros [G S C] Hl E. destruct (detach_all_runs l (bx x) x r x' eq_refl E) as (t & L & gone & Hrel).
  destruct Hrel as [(rest & Hpre & _) Hb _ _ _ Hex]. unfold gen. rewrite Hb. simpl. split; [|done].
  assert (∀ s, s ∈ gone → s ∈ sb_storages (bx x)) as Hin.
  { intros s Hs. eapply elem_of_sublist; [|exact Hl]. rewrite Hpre. apply elem_of_app. by left. }
  assert (∀ s, s ∈ sb_storages (bx x) → slot s ∈ slot <$> sb_storages (bx x)) as Hsl by (intros; by apply list_elem_of_fmap_2).
  assert (Forall imaged l) as Hi.
  { apply Forall_forall. intros s Hs. apply slot_imaged, (so_image _ _ _ S), Hsl. by eapply elem_of_sublist. }
  split; rewrite ?Hb; unfold gen in *; rewrite ?Hb; [done| |done]. simpl.
  assert (slots_ok (sb_id_generator (bx x)) (plugged (bx_log x)) (slot <$>
    retain (λ y, negb (bool_decide (s_id y ∈ s_id <$> gone))) (sb_storages (bx x)))) as [A B D O I].
  { eapply slots_sublist; [|exact S]. apply fmap_sublist, retain_sublist. }
  split; try done. intros s d Hs Hd. destruct (D s d Hs Hd) as [? Hp]. split; [done|]. rewrite L, plugged_app.
  apply plug_keeps; [|done]. intros (y & Hy & Hyd)%(Hex Hi).
  apply list_elem_of_fmap in Hs as (z & -> & [Hz Hne]%elem_of_retain).
  assert (slot z = slot y) as [= Hid _ _].
  { apply (so_own _ _ _ S); [by apply Hsl|by apply Hsl, Hin| |rewrite Hd; eauto]. by rewrite Hd. }
  rewrite Hid, bool_decide_true in Hne; [done|]. by apply list_elem_of_fmap_2.
Qed.

Lemma gc_keeps : draws 0 gc_storages (λ _, True).
Proof.
  intros x r x' Hx _ E. destruct (detach_all_keeps x _ r x' Hx (retain_sublist _ _) E) as [? ?]. split_and!; [done|lia|lia|done].
Qed.

Lemma defer_first_slots c m l : slot <$> defer_first c m l = slot <$> l.
Proof. induction l as [|s l IH]; simpl; [done|]. case_match; csimpl; [done|]. by rewrite IH. Qed.
Lemma deference_storage_keeps c m : draws 0 (deference_storage c m) (λ _, True).
Proof.
  unfold deference_storage. eapply draws_bind0; [|intros; apply gc_keeps].
  apply draws_set; [done| |done]. intros b. apply defer_first_slots.
Qed.
Lemma deference_container_keeps c : draws 0 (deference_container_storages c) (λ _, True).
Proof.
  unfold deference_container_storages. eapply draws_bind0; [|intros; apply gc_keeps].
  apply draws_set; [done| |done]. intros b. simpl. rewrite <- list_fmap_compose. by apply list_fmap_ext.
Qed.

(** *** Pipes *)
Lemma draws_detach_devices l : Forall is_pipe l → draws 0 (detach_devices l) (λ _, True).
Proof.
  induction 1 as [|d l Hd Hl IH]; simpl; [draws|]. eapply draws_bind0; [apply draws_must; by intros ? [= <-]|].
  intros r _. draws.
Qed.
Lemma draws_try_detach l : Forall is_pipe l → draws 0 (try_detach l) (λ _, True).
Proof.
  induction 1 as [|d l Hd Hl IH]; simpl; [draws|]. eapply draws_bind0; [apply draws_may; by intros ? [= <-]|].
  intros r _. draws.
Qed.

Definition pipes_of {A} (r : result (A * list string) SbError) : Prop :=
  match r with Ok x => Forall is_pipe x.2 | Err _ => True end.

Lemma draws_attach_pipe p devs : Forall is_pipe devs → draws 1 (attach_pipe p devs) pipes_of.
Proof.
  intros Hd. unfold attach_pipe, hot_attach_pipe. case_match; [|eapply draws_le; [|by apply draws_ret]; lia].
  eapply (draws_bind 1 0); [|intros r Hr; destruct r as [y|e]; apply draws_ret; [|done]].
  - eapply (draws_bind 1 0); [apply draws_id|]. intros n _. eapply draws_bind0; [apply draws_must; done|].
    intros [u|e] _; apply (draws_ret _ (λ r, match r with Ok y => is_pipe y.1 | Err _ => True end)); [by exists n|done].
  - simpl. apply Forall_app. split; [done|]. by constructor.
Qed.
Lemma draws_attach_io io : draws 3 (attach_io io) pipes_of.
Proof.
  unfold attach_io. eapply (draws_bind 1 2); [by apply draws_attach_pipe|].
  intros [a|e] Ha; [|eapply draws_le; [|by apply draws_ret]; lia].
  eapply (draws_bind 1 1); [by apply draws_attach_pipe|].
  intros [b|e] Hb; [|eapply draws_le; [|by apply draws_ret]; lia].
  eapply (draws_bind 1 0); [by apply draws_attach_pipe|]. intros [c|e] Hc; by apply draws_ret.
Qed.

(** *** The handlers *)
Lemma pipes_on_data f c : pipes_ok c → pipes_ok (on_data f c).
Proof. done. Qed.
Lemma draws_on_data id f : draws 0 (on_container id (on_data f)) (λ _, True).
Proof. by apply draws_on_container. Qed.
Hint Resolve draws_on_data : draws.

Lemma draws_container_bind {A} k id (f : result KuasarContainer SbError → M Box A) (Q : A → Prop) :
  (∀ c, pipes_ok c → draws k (f (Ok c)) Q) → (∀ e, draws k (f (Err e)) Q) → draws k (container id ≫= f) Q.
Proof.
  intros Ho He. eapply draws_bind0; [apply draws_container|]. intros [c|e] Hc; [by apply Ho|apply He].
Qed.

Lemma metadata_keeps id o : draws 0 (metadata_handle id o) (λ _, True).
Proof.
  unfold metadata_handle. draws. apply (draws_bind0 _ _ _ (λ _, True)); [|intros; draws]. apply draws_set; [done|done|].
  intros b Hb. apply map_Forall_insert_2; [|done]. split; constructor.
Qed.
Lemma namespace_keeps id : draws 0 (namespace_handle id) (λ _, True).
Proof. unfold namespace_handle. draws. Qed.
Lemma storage_handle_keeps id : draws 0 (storage_handle ow id) (λ _, True).
Proof. unfold storage_handle. draws. Qed.
Lemma storage_rollback_keeps id : draws 0 (storage_rollback id) (λ _, True).
Proof. unfold storage_rollback. draws. Qed.
Lemma io_handle_keeps id io : draws 3 (io_handle id io) (λ _, True).
Proof.
  unfold io_handle. apply (draws_bind 3 0 _ _ pipes_of); [apply draws_attach_io|].
  intros [y|e] Hy; [|draws]. apply draws_container_bind; [|intros; draws]. intros c [_ Hc]. draws.
  apply (draws_bind0 _ _ _ (λ _, True)); [|intros; draws]. apply draws_on_container. by intros c' [_ Hc'].
Qed.
Lemma io_rollback_keeps id : draws 0 (io_rollback id) (λ _, True).
Proof.
  unfold io_rollback. apply draws_container_bind; [|intros; draws]. intros c [Hc _].
  eapply draws_bind0; [by apply draws_detach_devices|]. intros r _. draws.
  apply (draws_bind0 _ _ _ (λ _, True)); [|intros; draws].
  apply draws_on_container. intros c2 [_ H2]. by split.
Qed.
Lemma push_config_keeps id : draws 0 (push_config id) (λ _, True).
Proof. unfold push_config. apply draws_with_guest. draws. Qed.
Lemma container_mounts_keeps p sp : draws 0 (container_mounts ow p sp) (λ _, True).
Proof. unfold container_mounts, cri_mount. cbn [foldM]. draws. Qed.
Hint Resolve push_config_keeps container_mounts_keeps : draws.
Lemma spec_handle_keeps id : draws 0 (spec_handle ow id) (λ _, True).
Proof. unfold spec_handle. draws. Qed.
Lemma process_handle_keeps id p : draws 3 (process_handle id p) (λ _, True).
Proof.
  unfold process_handle. apply draws_container_bind; [|intros; eapply (draws_le 0); [lia|draws]].
  intros c [_ Hc]. case_match; [eapply (draws_le 0); [lia|draws]|].
  apply (draws_bind 3 0 _ _ (λ r, match r with Ok k => Forall is_pipe (kp_io_devices k) | Err _ => True end)).
  - case_match; [|eapply (draws_le 0); [lia|by apply draws_ret]].
    apply (draws_bind 3 0 _ _ pipes_of); [apply draws_attach_io|]. intros [y|e] Hy; [|by apply draws_ret].
    eapply draws_bind0; [apply draws_write|]. intros [u|e] _; by apply draws_ret.
  - intros [k|e] Hk; draws.
    apply (draws_bind0 _ _ _ (λ _, True)); [|intros; draws]. apply draws_on_container. intros c2 [H2 H3]. split; [done|].
    simpl. apply Forall_app. split; [done|]. by constructor.
Qed.
Lemma remove_process_keeps id pid : draws 0 (remove_process id pid) (λ _, True).
Proof.
  unfold remove_process, remove_io_devices_for_process. eapply (draws_bind0 _ _ _ (λ _, True)).
  - eapply (draws_bind0 _ _ _ (λ o, ∀ c, o = Some c → pipes_ok c)).
    + apply draws_self. intros x Hx c Hc. by apply (go_pipes x Hx id c).
    + intros [c|] Hc; [|draws]. destruct (Hc c eq_refl) as [_ Hk].
      apply (draws_bind0 _ _ _ (λ _, True)); [|intros; draws]. apply draws_try_detach. apply Forall_forall.
      intros d (l & Hl & (k & -> & [Hin _]%elem_of_retain)%list_elem_of_fmap)%list_elem_of_join.
      apply (proj1 (Forall_forall _ _) Hk) in Hin. by apply (proj1 (Forall_forall _ _) Hin).
  - intros [u|e] _; [|draws]. apply (draws_bind0 _ _ _ (λ _, True)); [|intros; draws]. apply draws_on_container.
    intros c [Hc Hk]. split; [done|]. simpl. apply Forall_forall. intros k [Hin _]%elem_of_retain.
    by apply (proj1 (Forall_forall _ _) Hk).
Qed.

(** *** Chains *)

(** How many numbers a handler may draw. *)
Definition handler_draws (h : ContainerHandler) : N :=
  match h with
  | MountHandler _ _ _ => 2
  | IoHandler _ _ | ProcessHandler _ _ => 3
  | _ => 0
  end.
Fixpoint chain_draws (hs : list ContainerHandler) : N :=
  match hs with [] => 0 | h :: hs => handler_draws h + chain_draws hs end.

#[local] Existing Instance container_handler.

Lemma handle_keeps (h : ContainerHandler) :
  draws (handler_draws h) (handle (Handler := container_handler ow) h) (λ _, True).
Proof.
  destruct h; simpl; auto using metadata_keeps, namespace_keeps, attach_keeps, storage_handle_keeps, io_handle_keeps,
    spec_handle_keeps, process_handle_keeps, remove_process_keeps.
Qed.
Lemma rollback_keeps (h : ContainerHandler) : draws 0 (rollback (Handler := container_handler ow) h) (λ _, True).
Proof.
  destruct h; simpl; auto using deference_storage_keeps, storage_rollback_keeps, io_rollback_keeps, remove_process_keeps;
    try draws.
  apply (draws_bind0 _ _ _ (λ _, True)); [|intros; draws]. apply draws_set; [done|done|].
    intros b Hb. by apply map_Forall_delete.
Qed.
Lemma rollback_all_keeps hs : draws 0 (rollback_all (H := container_handler ow) hs) (λ _, True).
Proof.
  induction hs as [|h hs IH]; simpl; [draws|]. eapply draws_bind0; [apply rollback_keeps|]. by intros.
Qed.
Lemma run_handlers_keeps i j hs : draws (chain_draws hs) (run_handlers (H := container_handler ow) i j hs) (λ _, True).
Proof.
  revert i j. induction hs as [|h hs IH]; intros i j; simpl; [draws|].
  eapply draws_bind; [apply handle_keeps|]. intros [u|e] _; [apply IH|]. eapply (draws_le 0); [lia|draws].
Qed.
Lemma chain_keeps hs : draws (chain_draws hs) (chain_handle (H := container_handler ow) hs) (λ _, True).
Proof.
  unfold chain_handle. replace (chain_draws hs) with (chain_draws hs + 0)%N by lia.
  eapply draws_bind; [apply run_handlers_keeps|]. intros [[e|] k] _; simpl; [|draws].
  eapply draws_bind0; [apply rollback_all_keeps|]. intros u _. draws.
Qed.

(** ** The operations on a sandbox's containers *)
Inductive BoxOp :=
  | BoxAppend (id : string) (o : ContainerData)
  | BoxUpdate (id : string) (o : ContainerData)
  | BoxRemove (id : string).

Definition box_op (op : BoxOp) : M Box (result unit SbError) :=
  match op with
  | BoxAppend id o => append_container ow id o
  | BoxUpdate id o => update_container ow id o
  | BoxRemove id => remove_container id
  end.

(** The numbers an operation may draw: two per mount, three per set of pipes. *)
Definition op_draws (op : BoxOp) : N :=
  match op with
  | BoxAppend _ o =>
      2 * N.of_nat (length (cd_rootfs o) + length (match cd_spec o with Some s => sp_mounts s | None => [] end)) + 3
  | BoxUpdate _ o => 3 * N.of_nat (length (cd_processes o))
  | BoxRemove _ => 0
  end.

Fixpoint box_ops (ops : list BoxOp) : M Box unit :=
  match ops with
  | [] => mret tt
  | op :: ops => _ ← box_op op; box_ops ops
  end.
Fixpoint ops_draws (ops : list BoxOp) : N :=
  match ops with [] => 0 | op :: ops => op_draws op + ops_draws ops end.

Lemma chain_draws_app l k : chain_draws (l ++ k) = (chain_draws l + chain_draws k)%N.
Proof. induction l as [|h l IH]; simpl; [done|]. rewrite IH. lia. Qed.
Lemma chain_draws_const {A} (f : A → ContainerHandler) n l :
  (∀ x, handler_draws (f x) = n) → chain_draws (f <$> l) = (n * N.of_nat (length l))%N.
Proof. intros Hf. induction l as [|x l IH]; csimpl; [lia|]. rewrite Hf, IH. lia. Qed.

Lemma box_op_keeps op : draws (op_draws op) (box_op op) (λ _, True).
Proof.
  destruct op as [id o|id o|id]; simpl.
  - unfold append_container. eapply (draws_le (chain_draws (container_append_handlers id o) + 0)).
    { unfold container_append_handlers. rewrite !chain_draws_app, (chain_draws_const _ 2), (chain_draws_const _ 2) by done.
      destruct (cd_io o); simpl; lia. }
    eapply draws_bind; [apply chain_keeps|]. intros [u|e] _; draws.
  - unfold update_container. apply draws_container_bind; [|intros; eapply (draws_le 0); [lia|draws]]. intros c Hc.
    eapply (draws_le (chain_draws (container_update_handlers id o c) + 0)).
    { unfold container_update_handlers. rewrite !chain_draws_app, (chain_draws_const _ 0), (chain_draws_const _ 3) by done.
      pose proof (length_retain_le (λ p, negb (existsb (λ k, bool_decide (kp_id k = pd_id p)) (kc_processes c))) (cd_processes o)).
      lia. }
    eapply draws_bind; [apply chain_keeps|]. intros [u|e] _; draws.
  - unfold remove_container. eapply draws_bind0; [apply deference_container_keeps|]. intros [u|e] _; [|draws].
    eapply draws_bind0; [by apply (draws_self _ (λ _, True))|]. intros shared _.
    apply (draws_bind0 _ _ _ (λ _, True)); [draws|]. intros [u'|e] _; [|draws].
    eapply (draws_bind0 _ _ _ (λ o, ∀ c, o = Some c → pipes_ok c)).
    { apply draws_self. intros x Hx c Hc. by apply (go_pipes x Hx id c). }
    intros o Ho. apply (draws_bind0 _ _ _ (λ _, True)).
    { apply draws_set; [done|done|]. intros b Hb. by apply map_Forall_delete. }
    intros _ _. apply (draws_bind0 _ _ _ (λ _, True)); [|intros [v|e] _; draws].
    destruct o as [c|]; [|draws]. apply draws_detach_devices. by apply (Ho c).
Qed.

Lemma box_ops_keep ops : draws (ops_draws ops) (box_ops ops) (λ _, True).
Proof.
  induction ops as [|op ops IH]; simpl; [draws|]. eapply draws_bind; [apply box_op_keeps|]. by intros.
Qed.

Lemma box_ops_total ops x : ∃ x', box_ops ops x = Some (tt, x').
Proof.
  assert (calm (box_ops ops)) as Hc.
  { induction ops as [|op ops IH]; simpl; [calm|]. apply calm_bind; [|by intros].
    destruct op; [apply calm_append|apply calm_update|apply calm_remove]. }
  destruct (Hc x) as ([] & x' & _ & E & _). eauto.
Qed.

(** A sandbox without containers and storages. *)
Lemma graph_fresh x : sb_storages (bx x) = [] → sb_containers (bx x) = ∅ → (gen x ≤ u32_max)%N → graph_ok x.
Proof.
  intros Hs Hc Hg. split; [done| |by rewrite Hc]. rewrite Hs. split; try (intros; set_solver). apply NoDup_nil. done.
Qed.
End graph.
