(* ===== verification/StorageClaims.v ===== *)
(** * Storages: what callers rely on

    [attach_storage] as a whole, the device graph over any sequence of
    container operations, the release of a container's storages, and the walk
    that sizes an image against the size of the tree. *)
From S2P Require Import Prelude Strs Storage Types GuestFile GuestScan Mount Inject Annotations Box BlockImage StorageOps Handlers BoxCalm StorageProps DeviceGraph.

Section claims.
Context `{HashOrder} (ow : Outside).



Lemma in_gone (l gone : list Storage) s :
  NoDup (s_id <$> l) → (∀ y, y ∈ gone → y ∈ l) → s ∈ l → s_id s ∈ s_id <$> gone ↔ s ∈ gone.
Proof.
  intros Hnd Hg Hs. split; [|intros; by apply list_elem_of_fmap_2]. intros (y & Hid & Hy)%list_elem_of_fmap.
  assert (y = s) as ->; [|done]. pose proof (Hg y Hy) as [i Hi]%list_elem_of_lookup. apply list_elem_of_lookup in Hs as [j Hj].
  assert (i = j) as ->; [|congruence]. eapply NoDup_lookup; [exact Hnd| |]; rewrite list_lookup_fmap, ?Hi, ?Hj; simpl; [done|].
  by rewrite Hid.
Qed.

(** Removing a container's references. Whatever the hypervisor and the host
    answer, no storage references the container afterwards; the storages that
    are dropped are an initial part of the unused ones, all of them when the
    call succeeds; the devices of the dropped ones have been detached, and
    only devices of unused storages are ever detached. *)
Theorem container_release c x (Hids : NoDup (s_id <$> sb_storages (bx x))) :
  let l := defer c <$> sb_storages (bx x) in
  let unused := retain (λ s, bool_decide (ref_count s = 0%N)) l in
  ∃ r x' t gone, deference_container_storages c x = Some (r, x') ∧ bx_log x' = bx_log x ++ t ∧
    gone `prefix_of` unused ∧
    sb_storages (bx x') = retain (λ s, negb (bool_decide (s ∈ gone))) l ∧
    (r = Ok tt → sb_storages (bx x') = retain (λ s, negb (bool_decide (ref_count s = 0%N))) l) ∧
    (∀ s, s ∈ sb_storages (bx x') → ref_container s !! c = None) ∧
    (∀ s d, s ∈ gone → device_id s = Some d → (HotDetach d, true) ∈ t) ∧
    (∀ d ok, (HotDetach d, ok) ∈ t → ∃ s, s ∈ unused ∧ device_id s = Some d).
Proof.
  intros l unused. destruct (calm_deference_container c x) as (r & x' & _ & E & _).
  set (x1 := mkBox (set_storages (fmap (defer c)) (bx x)) (bx_ext x) (bx_log x)).
  destruct (detach_all_runs unused (bx x1) x1 r x' eq_refl E) as (t & L & gone & [(rest & Hpre & Hr) Hb _ D O _]).
  assert (NoDup (s_id <$> l)) as Hnd.
  { subst l. rewrite <- list_fmap_compose. erewrite list_fmap_ext; [exact Hids|done]. }
  assert (∀ y, y ∈ gone → y ∈ l) as Hg.
  { intros y Hy. assert (y ∈ unused) as Hu by (rewrite Hpre; set_solver). by apply elem_of_retain in Hu as [? _]. }
  assert (sb_storages (bx x') = retain (λ s, negb (bool_decide (s ∈ gone))) l) as Hs.
  { rewrite Hb. simpl. apply retain_ext_in. intros s Hs. f_equal. apply bool_decide_ext. by apply (in_gone l). }
  exists r, x', t, gone. split_and!; [done|done|by exists rest|done| | |done|done].
  - intros ->. rewrite Hs. rewrite Hr, app_nil_r in Hpre. rewrite <- Hpre. apply retain_ext_in. intros s Hin. f_equal.
    apply bool_decide_ext. unfold unused. rewrite elem_of_retain, bool_decide_eq_true. naive_solver.
  - rewrite Hs. intros s [(y & -> & _)%list_elem_of_fmap _]%elem_of_retain. simpl. apply lookup_delete_eq.
Qed.
End claims.

(** ** The walk that counts the entries of a tree *)

(** The entries below a node, by recursion, and whether all its directories
    can be read. *)
Fixpoint node_entries (n : Node) : N :=
  match n with
  | NDir _ es =>
      (fix go es := match es with [] => 0 | (_, k) :: es' => 1 + node_entries k + go es' end)%N es
  | _ => 0
  end.
Fixpoint node_readable (n : Node) : bool :=
  match n with
  | NDir r es => r && (fix go es := match es with [] => true | (_, k) :: es' => node_readable k && go es' end) es
  | _ => true
  end.

Definition as_node (t : bool * list (string * Node)) : Node := NDir t.1 t.2.
Definition pending_entries (st : list (bool * list (string * Node))) : N := foldr (λ t n, node_entries (as_node t) + n)%N 0%N st.
Definition pending_dirs (st : list (bool * list (string * Node))) : nat := nat_sum ((λ t, node_dirs (as_node t)) <$> st).
Definition pending_readable (st : list (bool * list (string * Node))) : bool := forallb (λ t, node_readable (as_node t)) st.

Definition list_entries (es : list (string * Node)) : N := foldr (λ e n, node_entries e.2 + n)%N 0%N es.
Definition list_readable (es : list (string * Node)) : bool := forallb (λ e, node_readable e.2) es.

Lemma as_node_unfold r es :
  node_entries (NDir r es) = (N.of_nat (length es) + list_entries es)%N ∧ node_readable (NDir r es) = r && list_readable es.
Proof.
  split.
  - induction es as [|[x k] es IH]; [done|]. change (node_entries (NDir r ((x, k) :: es)))
      with (1 + node_entries k + node_entries (NDir r es))%N. rewrite IH. unfold list_entries. simpl foldr. simpl length. lia.
  - destruct r; [|done]. induction es as [|[x k] es IH]; [done|].
    change (node_readable (NDir true ((x, k) :: es))) with (node_readable k && node_readable (NDir true es)). by rewrite IH.
Qed.

Lemma push_dirs_pending es st :
  pending_entries (push_dirs es st) = (list_entries es + pending_entries st)%N ∧
  pending_dirs (push_dirs es st) = entries_dirs es + pending_dirs st ∧
  pending_readable (push_dirs es st) = list_readable es && pending_readable st.
Proof.
  unfold push_dirs. revert st. induction es as [|[x k] es IH]; intros st; [done|]. cbn [foldl snd].
  unfold list_entries, entries_dirs, list_readable in *. csimpl.
  destruct k as [m n|r es'| |]; [apply IH| |apply IH|apply IH].
  destruct (IH ((r, es') :: st)) as (-> & -> & ->). unfold pending_entries, pending_dirs, pending_readable. csimpl.
  unfold as_node. simpl fst. simpl snd. split_and!; [lia|lia|].
  destruct (forallb (λ e : string * Node, node_readable e.2) es); [by rewrite andb_true_r|by rewrite andb_false_r].
Qed.

Lemma count_entries_spec fuel st n :
  pending_dirs st < fuel →
  count_entries fuel st (uwrap 64 n) =
    if pending_readable st then Some (uwrap 64 (n + pending_entries st)) else None.
Proof.
  revert st n. induction fuel as [|fuel IH]; intros st n Hf; [lia|]. destruct st as [|[r es] st].
  { simpl. by rewrite N.add_0_r. }
  cbn [count_entries]. destruct (push_dirs_pending es st) as (P1 & P2 & P3).
  destruct (as_node_unfold r es) as [N1 N2]. destruct (node_dir_unfold "" r es) as (_ & _ & _ & D & _).
  change (pending_entries ((r, es) :: st)) with (node_entries (NDir r es) + pending_entries st)%N.
  change (pending_readable ((r, es) :: st)) with (node_readable (NDir r es) && pending_readable st).
  change (pending_dirs ((r, es) :: st)) with (node_dirs (NDir r es) + pending_dirs st) in Hf.
  rewrite D in Hf. rewrite N1, N2. destruct r; [|done]. cbn [negb andb]. rewrite uwrap_add_l, IH by (rewrite P2; lia).
  rewrite P3, P1. case_match; [|done]. do 2 f_equal. lia.
Qed.

(** The loop over a stack of directories that counts the entries of a tree
    to size the inode table agrees with the recursive count: with the fuel of
    the number of directories it always finishes, returns one more than the
    number of entries (modulo 2^64) when every directory can be read, and
    nothing otherwise. *)
Theorem dir_entries_counts t :
  dir_entries t = if node_readable (NDir t.1 t.2) then Some (uwrap 64 (1 + node_entries (NDir t.1 t.2))) else None.
Proof.
  unfold dir_entries. change 1%N with (uwrap 64 1) at 1. rewrite count_entries_spec.
  - unfold pending_readable, pending_entries, as_node. cbn [forallb foldr]. by rewrite andb_true_r, N.add_0_r.
  - unfold pending_dirs, as_node. csimpl. lia.
Qed.

(** ** A sandbox with containers *)
#[local] Existing Instance listing_order.

Definition demo_outside : Outside :=
  mkOutside (λ d, (PCI, "0000:00:" +:+ d)) (λ _, "TYPE=ext4") (λ _, None) (λ _, KOther) (λ _, "8") (λ _, (true, []))
    (λ _, "[]") (λ p, p).

Definition demo_box (outcomes : list bool) : Box :=
  mkBox (mkSandbox (StRunning 7) "/run/s1" "" None None ∅ [] 0 None true ""
           (mkPolicy VIRTIO_BLK true false 20 50 1024 64 8) no_restore) outcomes [].

Definition demo_rootfs : Mount := mkMount "/" "overlay" "overlay" ["lowerdir=/img/a:/img/b"; "upperdir=/u"; "workdir=/w"].
Definition demo_spec : Spec := mkSpec [] (Some (mkRoot "rootfs" false)) ∅ None None None.
Definition demo_data (id : string) : ContainerData :=
  mkContainerData id (Some demo_spec) [demo_rootfs] (Some (mkIo "" "/p/out" "" false)) [] "/b".


Definition run_box (ops : list BoxOp) (x : Box) : Box :=
  match box_ops demo_outside ops x with Some (_, x') => x' | None => x end.


Lemma container_release_witness :
  let x := run_box [BoxAppend "c1" (demo_data "c1")] (demo_box [true; false]) in
  ∃ r x', deference_container_storages "c1" x = Some (r, x') ∧ ∀ s, s ∈ sb_storages (bx x') → ref_container s !! "c1" = None.
Proof.
  intros x. destruct (container_release "c1" x) as (r & x' & t & gone & E & _ & _ & _ & _ & Hc & _).
  - vm_compute. apply NoDup_singleton.
  - exists r, x'. split; [exact E|exact Hc].
Defined.
