(* ===== verification/HandlerProps.v ===== *)
(** * Adding a container is undone when it fails

    What a chain of handlers does, and that a failed [append_container] leaves
    neither the container nor a reference to it behind. *)
From S2P Require Import Prelude Strs Storage Types GuestFile GuestScan Mount Inject Annotations Box BlockImage StorageOps Handlers BoxCalm StorageProps DeviceGraph StorageClaims.

(** ** Chains *)
Section chain.
Context {T S E : Type} `{Handler T S E}.

(** The handlers of a list succeed one after the other. *)
Inductive all_handled : list T → S → S → Prop :=
  | all_handled_nil s : all_handled [] s s
  | all_handled_cons h hs s u s1 s2 :
      handle h s = Some (Ok u, s1) → all_handled hs s1 s2 → all_handled (h :: hs) s s2.

Lemma run_handlers_spec hs i j s r s' :
  run_handlers i j hs s = Some (r, s') →
  match r.1 with
  | None => all_handled hs s s'
  | Some e => ∃ pre h post s1, hs = pre ++ h :: post ∧ all_handled pre s s1 ∧ handle h s1 = Some (Err e, s') ∧
      r.2 = match pre with [] => j | _ => i + (length pre - 1) end
  end.
Proof.
  revert i j s. induction hs as [|h hs IH]; intros i j s; simpl.
  { intros [= <- <-]. constructor. }
  unfold mbind, M_bind. destruct (handle h s) as [[[u|e] s1]|] eqn:Eh; [| |done].
  - intros Hr. apply IH in Hr. destruct r as [[e|] k]; simpl in *; [|by econstructor].
    destruct Hr as (pre & h' & post & s2 & -> & Hp & Hh & ->). exists (h :: pre), h', post, s2. split_and!; [done|by econstructor|done|].
    destruct pre; simpl; lia.
  - intros [= <- <-]. simpl. exists [], h, hs, s. split_and!; [done|constructor|done|done].
Qed.

Lemma chain_handle_runs hs s r s' (Hr : chain_handle hs s = Some (r, s')) :
  match r with
  | Ok _ => all_handled hs s s'
  | Err e => ∃ pre h post s1 s2, hs = pre ++ h :: post ∧ all_handled pre s s1 ∧ handle h s1 = Some (Err e, s2) ∧
      rollback_all (reverse (match pre with [] => [h] | _ => pre end)) s2 = Some (tt, s')
  end.
Proof.
  unfold chain_handle, mbind, M_bind in Hr. destruct (run_handlers 0 0 hs s) as [[[o k] s2]|] eqn:Er; [|done].
  apply run_handlers_spec in Er. simpl in *. destruct o as [e|]; [|by injection Hr as <- <-].
  destruct Er as (pre & h & post & s1 & -> & Hp & Hh & ->).
  destruct (rollback_all _ s2) as [[[] s3]|] eqn:Eb; [|done]. injection Hr as <- <-.
  exists pre, h, post, s1, s2. split_and!; [done|done|done|]. rewrite <- Eb. f_equal.
  assert (∀ a b : list T, drop (length (a ++ b) - length a) (reverse (a ++ b)) = reverse a) as Hd.
  { intros a b. rewrite reverse_app, drop_app_length'; [done|]. rewrite length_reverse, length_app. lia. }
  destruct pre as [|p pre]; simpl.
  - rewrite <- (Hd [h] post). simpl. f_equal; try done. lia.
  - rewrite <- (Hd (p :: pre) (h :: post)). simpl. f_equal. rewrite !length_app. simpl. lia.
Qed.

(** A handler chain. If it succeeds every handler succeeded, in order. If a
    handler fails, the handlers before it had succeeded, and then exactly
    these are rolled back, the last one first; when the very first handler
    fails, that handler is rolled back itself. *)
Theorem chain_handle_spec hs s r s' (Hr : chain_handle hs s = Some (r, s')) :
  match r with
  | Ok _ => all_handled hs s s'
  | Err e => ∃ pre h post s1 s2, hs = pre ++ h :: post ∧ all_handled pre s s1 ∧ handle h s1 = Some (Err e, s2) ∧
      rollback_all (reverse (match pre with [] => [h] | _ => pre end)) s2 = Some (tt, s')
  end.
Proof. by apply chain_handle_runs. Qed.
End chain.

(** ** Handlers that change only their container *)
Definition local_to (id : string) {A} (m : M Box A) : Prop :=
  ∀ x a x', m x = Some (a, x') → sb_storages (bx x') = sb_storages (bx x) ∧
    ∀ i, i ≠ id → sb_containers (bx x') !! i = sb_containers (bx x) !! i.

Lemma local_ret id {A} (a : A) : local_to id (mret a).
Proof. by intros x a' x' [= <- <-]. Qed.
Lemma local_bind id {A B} (m : M Box A) (k : A → M Box B) : local_to id m → (∀ a, local_to id (k a)) → local_to id (m ≫= k).
Proof.
  intros Hm Hk x b x2. unfold mbind, M_bind. destruct (m x) as [[a x1]|] eqn:E1; [|done]. intros E2.
  destruct (Hm _ _ _ E1) as [S1 C1]. destruct (Hk a _ _ _ E2) as [S2 C2]. split; [congruence|].
  intros i Hi. by rewrite C2, C1.
Qed.
Lemma local_self id {A} (f : Sandbox → A) : local_to id (self f).
Proof. by intros x a x' [= <- <-]. Qed.
Lemma local_set id f :
  (∀ b, sb_storages (f b) = sb_storages b ∧ ∀ i, i ≠ id → sb_containers (f b) !! i = sb_containers b !! i) →
  local_to id (set_self f).
Proof. intros Hf x a x' [= <- <-]. apply Hf. Qed.
Lemma local_host id a : local_to id (host a).
Proof. by intros x r x' [= <- <-]. Qed.
Lemma local_must id a : local_to id (must a).
Proof. apply local_bind; [apply local_host|]. intros b. apply local_ret. Qed.
Lemma local_may id a : local_to id (may a).
Proof. apply local_bind; [apply local_host|]. intros b. apply local_ret. Qed.
Lemma local_on_container id f : local_to id (on_container id f).
Proof. apply local_set. intros b. split; [done|]. intros i Hi. simpl. by rewrite lookup_alter_ne. Qed.
Lemma local_id id : local_to id increment_and_get_id.
Proof. apply local_bind; [by apply local_set|]. intros u. apply local_self. Qed.

Create HintDb local.
#[export] Hint Resolve local_ret local_self local_host local_must local_may local_on_container local_id : local.
Ltac local :=
  repeat first [ solve [eauto 2 with local nocore] | apply local_bind; [|intros ?] | progress (repeat case_match) ].

Section local.
Context `{HashOrder} (ow : Outside).

Lemma local_container id i : local_to id (container i).
Proof. unfold container. local. Qed.
Lemma local_write id p : local_to id (write_file_atomic p).
Proof. unfold write_file_atomic. local. Qed.
Lemma local_detach_devices id l : local_to id (detach_devices l).
Proof. induction l; simpl; local. Qed.
Lemma local_attach_pipe id p l : local_to id (attach_pipe p l).
Proof. unfold attach_pipe, hot_attach_pipe. local. Qed.
Hint Resolve local_container local_write local_detach_devices local_attach_pipe : local.
Lemma local_push_config id i : local_to id (push_config i).
Proof. unfold push_config, with_guest. local. Qed.
Lemma local_mounts id p s : local_to id (container_mounts ow p s).
Proof. unfold container_mounts, cri_mount. cbn [foldM]. local. Qed.
Hint Resolve local_push_config local_mounts : local.

(** The handlers of [append_container] for one container. *)
Inductive appends (id : string) : ContainerHandler → Prop :=
  | appends_metadata o : appends id (MetadataAddHandler id o)
  | appends_namespace : appends id (NamespaceHandler id)
  | appends_mount m r : appends id (MountHandler id m r)
  | appends_storage : appends id (StorageHandler id)
  | appends_io io : appends id (IoHandler id io)
  | appends_spec : appends id (SpecHandler id).

Definition mount_of (h : ContainerHandler) : list (string * string) :=
  match h with MountHandler _ m _ => [(m_source m, m_type m)] | _ => [] end.

Lemma handle_local id h :
  appends id h → mount_of h = [] → local_to id (handle (Handler := container_handler ow) h).
Proof.
  destruct 1; try done; intros _; simpl; unfold metadata_handle, namespace_handle, storage_handle, io_handle, attach_io, spec_handle;
    local.
  apply local_set. intros b. split; [done|]. intros i Hi. simpl. by rewrite lookup_insert_ne.
Qed.
Lemma rollback_local id h :
  appends id h → mount_of h = [] → local_to id (rollback (Handler := container_handler ow) h).
Proof.
  destruct 1; try done; intros _; simpl; unfold storage_rollback, io_rollback, spec_rollback; local.
  apply local_set. intros b. split; [done|]. intros i Hi. simpl. by rewrite lookup_delete_ne.
Qed.
End local.

(** ** References of one container *)

(** Mounts as container runtimes write them: an overlay has the source
    [overlay] and only overlays have a lower directory. *)
Record regular (m : Mount) : Prop := {
  reg_overlay : m_type m = "overlay" → m_source m = "overlay";
  reg_lower : is_Some (extract_lower_dirs (m_options m)) → m_type m = "overlay";
  reg_type : contains_char (m_type m) ":"%char = false
}.
(** The storages made for them. *)
Record regular_storage (s : Storage) : Prop := {
  rs_overlay : s_type s = "overlay" → host_source s = "overlay";
  rs_lower : is_Some (lower_dirs s) → s_type s = "overlay";
  rs_identity : ∀ i, source_identity s = Some i → s_type s = "overlay" ∨
    ∃ k, i = k +:+ ":" +:+ host_source s ∧ contains_char k ":"%char = false
}.

Lemma matches_is_for s m rootfs :
  regular m → regular_storage s → storage_matches_mount s m rootfs = true → is_for_mount s m = true.
Proof.
  intros [Mo Ml Mt] [So Sl Si] Hm.
  assert (s_type s = "overlay" → s_type s = m_type m → is_for_mount s m = true) as Hov.
  { intros Hs He. unfold is_for_mount. rewrite !bool_decide_true; [done|done|]. rewrite So, Mo by congruence. done. }
  unfold storage_matches_mount in Hm.
  assert (∀ b : bool, (if negb rootfs && is_for_mount s m then true else b) = true →
    (b = true → is_for_mount s m = true) → is_for_mount s m = true) as Hor.
  { intros b Hb Hk. destruct (negb rootfs); [|auto]. simpl in Hb. destruct (is_for_mount s m); auto. }
  assert (match lower_dirs s, extract_lower_dirs (m_options m) with
          | Some sl, Some rl => bool_decide (sl = rl) && bool_decide (s_type s = m_type m)
          | _, _ => false end = true → is_for_mount s m = true) as Hlow.
  { destruct (lower_dirs s), (extract_lower_dirs (m_options m)); try done. rewrite andb_true_iff, !bool_decide_eq_true. intros [_ He]. by apply Hov; [apply Sl; eauto|]. }
  destruct (source_identity s) as [si|] eqn:Es; [|by eapply Hor].
  destruct (source_identity_for_mount m) as [ri|] eqn:Er; [|by eapply Hor].
  apply andb_true_iff in Hm as [->%bool_decide_eq_true He%bool_decide_eq_true].
  destruct (Si ri eq_refl) as [Ho|(k & Hk & Hc)]; [by apply Hov|].
  unfold source_identity_for_mount in Er. destruct (extract_lower_dirs (m_options m)) as [lo|].
  { apply Hov; [|done]. rewrite He. apply Ml. eauto. }
  case_bool_decide; [done|]. injection Er as <-.
  apply (app_sep_inj ":"%char) in Hk as [_ Hsrc]; [|done|done]. unfold is_for_mount. by rewrite !bool_decide_true.
Qed.

Lemma new_regular n m s : regular m → new_for n m s → regular_storage s.
Proof.
  intros [Mo Ml Mt] [Hs Ht _ _ Hl _ _ Hi]. split; rewrite ?Hs, ?Ht; [done| |].
  - intros [l El]. apply Ml. destruct Hl as [Hl|Hl]; rewrite El in Hl; [done|eauto].
  - intros i Ei. destruct Hi as [[_ Ho]|(k & Hk & Hk')]; [left; by apply bool_decide_eq_true in Ho|right].
    exists k. split; [congruence|]. destruct Hk' as [->|[->|[-> _]]]; done.
Qed.
Lemma regular_refs f s : regular_storage s → regular_storage (set_ref_container f s).
Proof. by intros [A B C]. Qed.

(** How many storages for a source and type the container references. *)
Definition holds_key (id : string) (k : string * string) (s : Storage) : bool :=
  bool_decide (is_Some (ref_container s !! id)) && bool_decide ((host_source s, s_type s) = k).
Definition held (id : string) (k : string * string) (l : list Storage) : nat := length (retain (holds_key id k) l).
Definition mounted (k : string * string) (ks : list (string * string)) : nat := length (retain (λ x, bool_decide (x = k)) ks).

Lemma held_app id k l l' : held id k (l ++ l') = held id k l + held id k l'.
Proof. unfold held, retain. by rewrite List.filter_app, length_app. Qed.
Lemma mounted_app k l l' : mounted k (l ++ l') = mounted k l + mounted k l'.
Proof. unfold mounted, retain. by rewrite List.filter_app, length_app. Qed.
Lemma held_cons id k s l : held id k (s :: l) = (if holds_key id k s then 1 else 0) + held id k l.
Proof. unfold held. simpl. by destruct (holds_key id k s). Qed.
Lemma held_sublist id k l l' : sublist l l' → held id k l ≤ held id k l'.
Proof. induction 1; rewrite ?held_cons; lia. Qed.

Lemma held_insert id k l i s s' :
  l !! i = Some s → (host_source s', s_type s') = (host_source s, s_type s) →
  held id k (<[i := s']> l) ≤ held id k l + (if bool_decide ((host_source s, s_type s) = k) then 1 else 0).
Proof.
  intros Hi Hk. rewrite insert_take_drop by (by eapply lookup_lt_Some).
  rewrite <- (take_drop_middle l i s Hi) at 3. rewrite !held_app, !held_cons. unfold holds_key. rewrite Hk.
  case_bool_decide; rewrite ?andb_true_r, ?andb_false_r; repeat case_match; lia.
Qed.

(** The first storage found for the mount loses the container's reference. *)
Lemma defer_first_held id m k l :
  held id k (defer_first id m l) = held id k l - (if bool_decide ((m_source m, m_type m) = k) then 1 else 0).
Proof.
  assert (∀ s, holds_key id k (defer id s) = false) as Hd.
  { intros s. unfold holds_key. simpl. rewrite lookup_delete_eq. by rewrite bool_decide_false by (by intros [? ?]). }
  assert (∀ s, is_for_mount s m = true → (host_source s, s_type s) = (m_source m, m_type m)) as Hf.
  { intros s [E1%bool_decide_eq_true E2%bool_decide_eq_true]%andb_true_iff. by rewrite E1, E2. }
  induction l as [|s l IH]; [done|]. cbn [defer_first]. destruct (is_for_mount s m) eqn:Ef; simpl.
  - destruct (bool_decide (is_Some (ref_container s !! id))) eqn:Er; rewrite !held_cons.
    + rewrite Hd. unfold holds_key at 1. rewrite Er, (Hf s Ef). case_bool_decide; simpl; lia.
    + rewrite IH. unfold holds_key at 1 2. rewrite Er. simpl. lia.
  - rewrite !held_cons, IH. case_bool_decide as Ek; [|lia]. subst k.
    assert (holds_key id (m_source m, m_type m) s = false) as ->; [|lia]. unfold holds_key.
    rewrite (bool_decide_false ((host_source s, s_type s) = _)); [by rewrite andb_false_r|]. intros [= E1 E2].
    unfold is_for_mount in Ef. by rewrite !bool_decide_true in Ef.
Qed.

(** ** Undoing *)
Section undo.
Context `{HashOrder} (ow : Outside) (id : string) (old : gmap string KuasarContainer).
Implicit Types (ks : list (string * string)) (b : Sandbox).

(** While a chain runs: other containers are untouched, and the container
    references at most one storage per mount attached so far. *)
Record undoable ks b : Prop := {
  un_others : ∀ i, i ≠ id → sb_containers b !! i = old !! i;
  un_regular : Forall regular_storage (sb_storages b);
  un_held : ∀ k, held id k (sb_storages b) ≤ mounted k ks
}.

Lemma undoable_local {A} (m : M Box A) ks x a x' :
  local_to id m → undoable ks (bx x) → m x = Some (a, x') → undoable ks (bx x').
Proof.
  intros Hm [U1 U2 U3] E. destruct (Hm x a x' E) as [Es Ec]. split; [|by rewrite Es..].
  intros i Hi. by rewrite Ec, U1.
Qed.

Lemma undoable_attach m rootfs ks x r x' :
  regular m → undoable ks (bx x) → attach_storage ow id m rootfs x = Some (r, x') →
  undoable (match r with Ok _ => ks ++ [(m_source m, m_type m)] | Err _ => ks end) (bx x').
Proof.
  intros Hm [U1 U2 U3] E.
  destruct (attach_storage_runs ow id m rootfs (bx x) x r x' eq_refl E) as (t & _ & [Ec _ _] & _ & Hr).
  assert (∀ i, i ≠ id → sb_containers (bx x') !! i = old !! i) as V1 by (intros; by rewrite Ec, U1).
  destruct r as [u|e]; [|split; [done|by rewrite (proj1 Hr)..]].
  assert (∀ k, mounted k (ks ++ [(m_source m, m_type m)]) =
    mounted k ks + if bool_decide ((m_source m, m_type m) = k) then 1 else 0) as Hmk.
  { intros k. rewrite mounted_app. f_equal. unfold mounted. simpl. by case_bool_decide. }
  destruct Hr as [_ _ Es|i s o Hf Hs Es _ _|s Hf Hn _ Es]; (split; [done|rewrite Es|intros k; rewrite Es, Hmk]).
  - done.
  - specialize (U3 k). lia.
  - apply Forall_insert; [done|]. apply regular_refs. pose proof (Forall_lookup_1 _ _ _ _ U2 Hs).
    destruct o; [by apply regular_refs|done].
  - pose proof (Forall_lookup_1 _ _ _ _ U2 Hs) as Hreg. apply position_lookup in Hf as (s' & Hs' & Hmt & _).
    assert (s' = s) as -> by congruence.
    apply matches_is_for in Hmt as [E1%bool_decide_eq_true E2%bool_decide_eq_true]%andb_true_iff; [|done|done].
    pose proof (held_insert id k (sb_storages (bx x)) i s
      (refer id (match o with Some o => defer o s | None => s end)) Hs) as Hh.
    rewrite <- E1, <- E2. specialize (U3 k). destruct o; specialize (Hh eq_refl); lia.
  - apply Forall_app. split; [done|]. constructor; [|done]. apply regular_refs. by eapply new_regular.
  - rewrite held_app, held_cons. specialize (U3 k). unfold holds_key. change (held id k []) with 0. simpl.
    rewrite (nf_source _ _ _ Hn), (nf_type _ _ _ Hn). repeat case_bool_decide; simpl; lia.
Qed.

Lemma undoable_defer m ks x r x' :
  undoable (ks ++ [(m_source m, m_type m)]) (bx x) → deference_storage id m x = Some (r, x') → undoable ks (bx x').
Proof.
  intros [U1 U2 U3] E. set (b1 := set_storages (defer_first id m) (bx x)).
  set (x1 := mkBox b1 (bx_ext x) (bx_log x)).
  destruct (detach_all_runs (retain (λ s, bool_decide (ref_count s = 0%N)) (sb_storages b1)) b1 x1 r x' eq_refl E)
    as (t & _ & gone & [_ Hb _ _ _ _]).
  rewrite Hb. split; simpl; [done| |].
  - apply Forall_forall. intros s [Hs _]%elem_of_retain. revert s Hs. apply Forall_forall.
    clear -U2. induction U2 as [|s l Hs Hl IH]; simpl; [done|]. case_match; constructor; auto. by apply regular_refs.
  - intros k. etransitivity; [eapply held_sublist, retain_sublist|]. rewrite defer_first_held. specialize (U3 k).
    rewrite mounted_app in U3. unfold mounted at 2 in U3. simpl in U3. case_bool_decide; simpl in U3; lia.
Qed.

#[local] Existing Instance container_handler.

Lemma undoable_handle h ks x r x' :
  appends id h → (∀ m rf, h = MountHandler id m rf → regular m) → undoable ks (bx x) →
  handle (Handler := container_handler ow) h x = Some (r, x') →
  undoable (match r with Ok _ => ks ++ mount_of h | Err _ => ks end) (bx x').
Proof.
  intros Ha Hm Hu E. destruct (decide (mount_of h = [])) as [Hn|Hn].
  - rewrite Hn, app_nil_r. eapply undoable_local in E; [|by apply handle_local|done]. by destruct r.
  - destruct Ha; try done. eapply undoable_attach; [|done|exact E]. by eapply Hm.
Qed.
Lemma undoable_rollback h ks x r x' :
  appends id h → undoable (ks ++ mount_of h) (bx x) →
  rollback (Handler := container_handler ow) h x = Some (r, x') → undoable ks (bx x').
Proof.
  intros Ha Hu E. destruct (decide (mount_of h = [])) as [Hn|Hn].
  - rewrite Hn, app_nil_r in Hu. by eapply undoable_local; [apply rollback_local| |].
  - destruct Ha; try done. by eapply undoable_defer.
Qed.

Lemma undoable_all hs ks x x' :
  Forall (appends id) hs → (∀ m rf, MountHandler id m rf ∈ hs → regular m) → undoable ks (bx x) →
  all_handled (H := container_handler ow) hs x x' → undoable (ks ++ mjoin (mount_of <$> hs)) (bx x').
Proof.
  intros Ha Hm Hu Hr. revert ks Ha Hm Hu. induction Hr as [x|h hs x u x1 x2 Eh Hr IH]; intros ks Ha Hm Hu.
  { by rewrite app_nil_r. }
  apply Forall_cons in Ha as [Ha Has]. csimpl. rewrite app_assoc. apply IH; [done|set_solver|].
  eapply (undoable_handle h ks x (Ok u)); [done| |done|done]. set_solver.
Qed.
Lemma undoable_rollback_all hs ks x x' :
  Forall (appends id) hs → undoable (ks ++ mjoin (mount_of <$> reverse hs)) (bx x) →
  rollback_all (H := container_handler ow) hs x = Some (tt, x') → undoable ks (bx x').
Proof.
  intros Ha. revert x. induction Ha as [|h hs Ha Has IH]; intros x Hu; cbn [rollback_all].
  { intros [= <-]. by rewrite app_nil_r in Hu. }
  unfold mbind, M_bind. destruct (@rollback _ _ _ (container_handler ow) h x) as [[r x1]|] eqn:Eh; [|done]. intros E. apply (IH x1); [|done].
  eapply undoable_rollback; [exact Ha| |exact Eh].
  rewrite reverse_cons, fmap_app, join_app, app_assoc in Hu. csimpl in Hu. by rewrite app_nil_r in Hu.
Qed.
End undo.

(** The handlers of [append_container]. *)
Lemma append_handlers_appends `{HashOrder} id o : Forall (appends id) (container_append_handlers id o).
Proof.
  unfold container_append_handlers. repeat (apply Forall_app; split); try (apply Forall_fmap, Forall_true; intros; constructor).
  - repeat constructor.
  - repeat constructor.
  - destruct (cd_io o); repeat constructor.
  - repeat constructor.
Qed.
Definition mounts_of (o : ContainerData) : list Mount :=
  cd_rootfs o ++ match cd_spec o with Some s => sp_mounts s | None => [] end.
Lemma append_handlers_mounts id o m rf : MountHandler id m rf ∈ container_append_handlers id o → m ∈ mounts_of o.
Proof.
  unfold container_append_handlers, mounts_of. rewrite !elem_of_app, !list_elem_of_fmap.
  intros [Hin|[(y & [= -> _] & Hy)|[(y & [= -> _] & Hy)|[Hin|[Hin|Hin]]]]]; try set_solver.
  destruct (cd_io o); set_solver.
Qed.

Section append.
Context `{HashOrder} (ow : Outside).

Lemma rollback_metadata_last id o hs x x' :
  rollback_all (H := container_handler ow) (hs ++ [MetadataAddHandler id o]) x = Some (tt, x') →
  sb_containers (bx x') !! id = None.
Proof.
  revert x. induction hs as [|h hs IH]; intros x; cbn [rollback_all app]; unfold mbind, M_bind.
  - intros [= <-]. simpl. apply lookup_delete_eq.
  - destruct (@rollback _ _ _ (container_handler ow) h x) as [[r x1]|]; [|done]. apply IH.
Qed.

(** C23: A failed [append_container] is undone. For mounts as runtimes write them
    and a container the storages do not reference yet: when any handler fails,
    at whatever point and with whatever outcomes of the rollbacks, the
    container is gone from the sandbox, the other containers are unchanged,
    and no storage references it. (When only the final state dump fails, the
    container stays.) *)
Theorem failed_append_undone id o x e x'
  (Hm : Forall regular (mounts_of o)) (Hs : Forall regular_storage (sb_storages (bx x)))
  (Hf : Forall (λ s, ref_container s !! id = None) (sb_storages (bx x)))
  (Hr : append_container ow id o x = Some (Err e, x')) (He : e ≠ Failed Dump) :
  sb_containers (bx x') = delete id (sb_containers (bx x)) ∧
  Forall (λ s, ref_container s !! id = None) (sb_storages (bx x')).
Proof.
  unfold append_container, mbind, M_bind in Hr.
  destruct (chain_handle _ x) as [[[u|e'] x1]|] eqn:Ec; [| |done].
  { unfold must, mbind, M_bind, host, mret, M_ret in Hr. destruct (default true _); by simplify_eq. }
  assert (e' = e ∧ x1 = x') as [-> ->] by (injection Hr as -> ->; done). clear Hr.
  apply chain_handle_runs in Ec as (pre & h & post & y1 & y2 & Ehs & Hpre & Hh & Hroll).
  pose proof (append_handlers_appends id o) as Ha. pose proof (append_handlers_mounts id o) as Hmo.
  assert (∃ tl, container_append_handlers id o = MetadataAddHandler id o :: tl) as [tl Etl] by (eexists; reflexivity).
  rewrite Ehs in Ha, Hmo. apply Forall_app in Ha as [Hap [Hah _]%Forall_cons].
  assert (undoable id (sb_containers (bx x)) [] (bx x)) as U0.
  { split; [done|done|]. intros k. unfold held. rewrite (proj2 (retain_nil _ _)); [done|]. intros s Hin.
    unfold holds_key. rewrite (proj1 (Forall_forall _ _) Hf s Hin). by rewrite bool_decide_false by (by intros [? ?]). }
  assert (∀ m rf, MountHandler id m rf ∈ pre ++ [h] → regular m) as Hreg.
  { intros m rf Hin. eapply Forall_forall; [exact Hm|]. apply (Hmo m rf). set_solver. }
  assert (undoable id (sb_containers (bx x)) ([] ++ mjoin (mount_of <$> pre)) (bx y1)) as U1.
  { eapply undoable_all; [done| |exact U0|exact Hpre]. set_solver. }
  assert (undoable id (sb_containers (bx x)) ([] ++ mjoin (mount_of <$> pre)) (bx y2)) as U2.
  { apply (undoable_handle ow id _ h _ y1 (Err e)); [done| |done|done]. intros m rf ->. apply (Hreg m rf). set_solver. }
  assert (undoable id (sb_containers (bx x)) [] (bx x') ∧ sb_containers (bx x') !! id = None) as [[V1 _ V3] V0].
  { destruct pre as [|p pre].
    - rewrite Etl in Ehs. injection Ehs as <- _. split; [|by eapply (rollback_metadata_last id o [])].
      eapply (undoable_rollback_all ow id _ [MetadataAddHandler id o]); [by constructor|exact U2|exact Hroll].
    - rewrite Etl in Ehs. injection Ehs as <- _. split.
      + eapply (undoable_rollback_all ow id _ (reverse (MetadataAddHandler id o :: pre)) [] y2); [|by rewrite reverse_involutive|exact Hroll].
        by apply Forall_reverse.
      + rewrite reverse_cons in Hroll. by eapply rollback_metadata_last. }
  split.
  - apply map_eq. intros i. destruct (decide (i = id)) as [->|Hi]; [by rewrite lookup_delete_eq|].
    by rewrite lookup_delete_ne, V1.
  - apply Forall_forall. intros s Hin. destruct (ref_container s !! id) as [n|] eqn:En; [|done]. exfalso.
    specialize (V3 (host_source s, s_type s)). change (mounted _ []) with 0 in V3.
    assert (0 < held id (host_source s, s_type s) (sb_storages (bx x'))); [|lia]. apply length_retain_pos with s; [done|].
    unfold holds_key. rewrite En. by rewrite !bool_decide_true.
Qed.
End append.

(** ** Witnesses *)
#[local] Existing Instance listing_order.

(** A sandbox with one container of an image, then a second one of another
    image whose standard output cannot be attached. *)
Definition other_rootfs : Mount := mkMount "/" "overlay" "overlay" ["lowerdir=/img/c"].
Definition other_data (id : string) : ContainerData :=
  mkContainerData id (Some demo_spec) [other_rootfs] (Some (mkIo "" "/p/out" "" false)) [] "/b".
Definition with_outcomes (l : list bool) (x : Box) : Box := mkBox (bx x) l (bx_log x).
Definition demo_one : Box := run_box [BoxAppend "c1" (demo_data "c1")] (demo_box [true; false]).
(** The outcomes of the second append: all succeed but the pipe. *)
Definition pipe_fails : Box := with_outcomes ([true; false] ++ repeat true 18 ++ [false]) demo_one.

Lemma failed_append_undone_witness :
  ∃ e x', append_container demo_outside "c2" (other_data "c2") pipe_fails = Some (Err e, x') ∧
    sb_containers (bx x') = delete "c2" (sb_containers (bx pipe_fails)) ∧
    Forall (λ s, ref_container s !! "c2" = None) (sb_storages (bx x')).
Proof.
  destruct (append_container demo_outside "c2" (other_data "c2") pipe_fails) as [[[u|e] x']|] eqn:E;
    [vm_compute in E; discriminate| |vm_compute in E; discriminate].
  exists e, x'. split; [reflexivity|].
  apply (failed_append_undone demo_outside "c2" (other_data "c2") pipe_fails e x'); [| | |exact E|].
  - constructor; [|constructor]. by split.
  - vm_compute. repeat constructor; simpl; try done.
  - vm_compute. by repeat constructor.
  - vm_compute in E. injection E as <- _. discriminate.
Defined.

Lemma chain_handle_spec_witness :
  ∃ pre h post s1 s2 e, container_append_handlers "c2" (other_data "c2") = pre ++ h :: post ∧
    all_handled (H := container_handler demo_outside) pre pipe_fails s1 ∧
    handle (Handler := container_handler demo_outside) h s1 = Some (Err e, s2).
Proof.
  destruct (chain_handle (H := container_handler demo_outside) (container_append_handlers "c2" (other_data "c2")) pipe_fails)
    as [[[u|e] x']|] eqn:E; [vm_compute in E; discriminate| |vm_compute in E; discriminate].
  destruct (chain_handle_spec (H := container_handler demo_outside) _ _ _ _ E) as (pre & h & post & s1 & s2 & E1 & E2 & E3 & _).
  exists pre, h, post, s1, s2, e. auto.
Defined.
