(* ===== verification/Sandboxer.v ===== *)
(** * The sandboxer

    [vmm/sandbox/src/sandbox.rs]: the life cycle of a sandbox (create, start,
    stop, delete, recovery after a restart) and the restore paths that take
    templates from the pool and the continuation store, with the phases of a
    restore of [vmm/sandbox/src/restore.rs].

    The hypervisor, the guest agent, the hooks, cgroups and the network are
    behind calls that succeed or fail: [call] takes the next outcome from
    [ext] and logs the call in [trace]. Everything the code keeps itself (the
    sandbox records, the pool, the store, the metrics) is state. A sandbox's
    mutex is held through the operations below, so each is one computation. *)
From S2P Require Import Prelude Strs Storage Types Metrics Disk Pool Continuation GuestScan Mount Frame Inject Annotations Box BlockImage StorageOps Handlers.
Open Scope box_scope.

(** ** Configuration *)
Record SnapshotConfig := mkSnapshotConfig {
  enable_environment_restore : bool;
  enable_warmfork_restore : bool;
  enable_continuation_restore : bool;
  max_concurrent_restores : nat;
  fallback_to_fresh_boot : bool;
  default_memory_restore_mode : MemoryRestoreMode
}.

Definition SnapshotConfig_default : SnapshotConfig := mkSnapshotConfig false false false 4 true Copy.

(** ** The host *)
Record Host `{TemplateCodec} := mkHost {
  pool : World;
  store : CStore;
  metrics : TemplateMetrics;
  sandboxes : gmap string Sandbox;
  ext : list bool;                               (** outcomes to come; [true] when empty *)
  trace : list (string * Action * bool)
}.
Arguments mkHost {_} _ _ _ _ _ _.

(** What the code reads of a [VMFactory] ([vm.rs]). *)
Record Factory := mkFactory {
  f_image_path : string;
  f_kernel_path : string;
  f_vcpus : N;
  f_memory_mb : N;
  f_kernel_params : string;
  f_policy : ContainerStoragePolicy
}.

(** The key of the bare VMs a factory makes. *)
Definition factory_key (f : Factory) : TemplateKey :=
  from_vm_config (f_kernel_path f) (f_image_path f) (f_vcpus f) (f_memory_mb f) (f_kernel_params f)
    (storage_backend (f_policy f)).

(** The fixed surroundings: the optional components, the VM factory and the
    values the outside returns. *)
Record Setup := mkSetup {
  template_pool : option PoolConfig;
  continuation_store : bool;
  snapshot : SnapshotConfig;
  factory : Factory;
  cgroup2 : bool;
  restore_ms : string → N;
  vmm_pid : string → N;
  network_of : string → Network;
  guest_answer : string → list ContainerTask → list ContainerInjectResult;
  outside : Outside
}.

Section sandboxer.
Context `{TemplateCodec} `{HashOrder} (su : Setup).

(** ** State access *)
Definition in_pool {A} (m : M World A) : M Host A := λ h,
  match m (pool h) with
  | Some (a, w) => Some (a, mkHost w (store h) (metrics h) (sandboxes h) (ext h) (trace h))
  | None => None
  end.
Definition in_store {A} (m : M CStore A) : M Host A := λ h,
  match m (store h) with
  | Some (a, c) => Some (a, mkHost (pool h) c (metrics h) (sandboxes h) (ext h) (trace h))
  | None => None
  end.
Definition count (f : TemplateMetrics → TemplateMetrics) : M Host unit :=
  modify (λ h, mkHost (pool h) (store h) (f (metrics h)) (sandboxes h) (ext h) (trace h)).
Definition set_sandboxes (f : gmap string Sandbox → gmap string Sandbox) : M Host unit :=
  modify (λ h, mkHost (pool h) (store h) (metrics h) (f (sandboxes h)) (ext h) (trace h)).
Definition upd (id : string) (f : Sandbox → Sandbox) : M Host unit := set_sandboxes (alter f id).

Definition call (id : string) (a : Action) : M Host bool := λ h,
  let b := default true (head (ext h)) in
  Some (b, mkHost (pool h) (store h) (metrics h) (sandboxes h) (tail (ext h)) (trace h ++ [(id, a, b)])).
(** A call that can not fail (it spawns a task). *)
Definition note (id : string) (a : Action) : M Host unit :=
  modify (λ h, mkHost (pool h) (store h) (metrics h) (sandboxes h) (ext h) (trace h ++ [(id, a, true)])).
Definition try (id : string) (a : Action) : M Host (result unit SbError) :=
  b ← call id a; mret (if b : bool then Ok tt else Err (Failed a)).

(** The sandbox of the map; the callers hold it, so it is there. *)
Definition this (id : string) : M Host (option Sandbox) := gets (λ h, sandboxes h !! id).
Definition field {A} (id : string) (f : Sandbox → A) (d : A) : M Host A :=
  o ← this id; mret (match o with Some b => f b | None => d end).

(** ** Small steps of a sandbox *)
Definition clear_template_restore_state (id : string) : M Host unit := upd id (set_restore no_restore).

Definition dump (id : string) : M Host (result unit SbError) := try id Dump.

Definition destroy_network (id : string) : M Host unit :=
  n ← field id sb_network None;
  match n with
  | Some _ => upd id (set_network None);; _ ← call id DestroyNetwork; mret tt
  | None => mret tt
  end.

Definition prepare_network (id : string) : M Host (result unit SbError) :=
  b ← call id PrepareNetwork;
  if b : bool then upd id (set_network (Some (network_of su id)));; mret (Ok tt)
  else mret (Err (Failed PrepareNetwork)).

Definition init_client (id : string) : M Host (result unit SbError) :=
  c ← field id sb_client false;
  if c : bool then mret (Ok tt) else
  b ← call id ConnectClient;
  if b : bool then upd id (set_client true);; mret (Ok tt) else mret (Err (Failed ConnectClient)).

Definition with_client (id : string) (m : M Host unit) : M Host unit :=
  c ← field id sb_client false; if c : bool then m else mret tt.

Definition setup_sandbox (id : string) : M Host (result unit SbError) :=
  c ← field id sb_client false;
  if c : bool then try id SetupSandbox else mret (Ok tt).
Definition sync_clock (id : string) : M Host unit := with_client id (note id SyncClock).
Definition forward_events (id : string) : M Host unit := with_client id (note id ForwardEvents).
Definition reseed_guest_entropy (id : string) : M Host unit :=
  with_client id (_ ← call id ReseedEntropy; mret tt).
Definition push_sandbox_files (id : string) : M Host (result unit SbError) :=
  c ← field id sb_client false;
  if c : bool then try id PushSandboxFiles else mret (Err NoClient).

(** Only a running sandbox can be added; [AddToCgroup] stands for the calls
    that move the VMM and its helpers. *)
Definition add_to_cgroup (id : string) : M Host (result unit SbError) :=
  if cgroup2 su then mret (Ok tt) else
  st ← field id sb_status StOther;
  match st with
  | StRunning _ => try id AddToCgroup
  | _ => mret (Err StatusError)
  end.

(** ** Containers and [stop] *)
(** An operation of one sandbox, with the host's calls. *)
Definition in_box (id : string) (m : M Box (result unit SbError)) : M Host (result unit SbError) := λ h,
  match sandboxes h !! id with
  | None => Some (Err SbNotFound, h)
  | Some b =>
      match m (mkBox b (ext h) []) with
      | None => None
      | Some (r, x) =>
          Some (r, mkHost (pool h) (store h) (metrics h) (<[id := bx x]> (sandboxes h)) (bx_ext x)
                     (trace h ++ ((λ e, (id, e.1, e.2)) <$> bx_log x)))
      end
  end.

Fixpoint remove_containers (id : string) (force : bool) (l : list string) : M Host (result unit SbError) :=
  match l with
  | [] => mret (Ok tt)
  | cid :: l =>
      r ← in_box id (remove_container cid);
      match r with
      | Err e => if force then remove_containers id force l else mret (Err e)
      | Ok _ => remove_containers id force l
      end
  end.

Definition stop_running (id : string) (force : bool) : M Host (result unit SbError) :=
  c ← field id sb_containers ∅;
  do? remove_containers id force (hash_keys c);;
  do? try id VmStop;;
  destroy_network id;;
  mret (Ok tt).

Definition stop (id : string) (force : bool) : M Host (result unit SbError) :=
  st ← field id sb_status StOther;
  match st with
  | StCreated => stop_running id true
  | StRunning _ => stop_running id force
  | StStopped _ _ => destroy_network id;; mret (Ok tt)
  | StOther => mret (Err StatusError)
  end.

(** ** Cold boot: [KuasarSandbox::start] *)
Definition boot (id : string) : M Host (result unit SbError) :=
  let rollback := _ ← call id VmStop; mret tt in
  do? try id VmStart;;
  try? init_client id else rollback;;
  blk ← field id sb_virtio_blk false;
  try? (if blk : bool then push_sandbox_files id else mret (Ok tt)) else rollback;;
  try? setup_sandbox id else rollback;;
  forward_events id;;
  upd id (set_status (StRunning (vmm_pid su id)));;
  mret (Ok tt).

(** ** Restoring the VM: [try_restore] *)
Record RestoreSource := mkSource {
  rs_snapshot_dir : string;
  rs_snapshot_type : SnapshotType;
  rs_storages : list Storage;
  rs_orphan_container_ids : list string;
  rs_memory_restore_mode : MemoryRestoreMode;
  rs_warm_fork_params : option WarmForkParams
}.

Definition rollback_vm (id : string) : M Host unit := _ ← call id VmStop; mret tt.
Definition cleanup_work_dir (id : string) : M Host unit := _ ← call id CleanupWorkDir; mret tt.

Definition remap_storage (base_dir : string) (s : Storage) : Storage :=
  if owned_by_runtime s && bool_decide (is_Some (device_id s))
  then set_cleanup_path (Some (base_dir +:+ "/" +:+ s_id s +:+ ".img")) s
  else s.
Definition remap_restored_storage_artifacts (base_dir : string) (l : list Storage) : list Storage :=
  remap_storage base_dir <$> l.

Definition take_storages (id : string) (src : RestoreSource) : M Host unit :=
  upd id (λ b, set_storages (λ _, remap_restored_storage_artifacts (sb_base_dir b) (rs_storages src)) b);;
  upd id (λ b, let r := sb_restore b in
               set_restore (mkRestore (template_id r) (template_snapshot_type r) (r_lease_mode r)
                 (r_reflink_supported r) (memory_restore_mode r) (rs_orphan_container_ids src)) b).

Definition refresh_network (id : string) : M Host (result unit SbError) :=
  n ← field id sb_network None;
  c ← field id sb_client false;
  match n, c with
  | Some n, true =>
      do? (if has_interfaces n then try id UpdateInterfaces else mret (Ok tt));;
      (if has_routes n then try id UpdateRoutes else mret (Ok tt))
  | _, _ => mret (Ok tt)
  end.

Definition refresh_instance_identity (id : string) : M Host (result unit SbError) :=
  blk ← field id sb_virtio_blk false;
  do? (if blk : bool then push_sandbox_files id else mret (Ok tt));;
  do? refresh_network id;;
  sync_clock id;;
  mret (Ok tt).

Definition inject_warm_fork_task (id : string) (p : WarmForkParams) : M Host (result unit SbError) :=
  let tasks := inject_requests p in
  c ← field id sb_client false;
  if negb c then mret (Err NoClient) else
  do? try id (InjectTask tasks);;
  mret (if inject_accepted tasks (guest_answer su id tasks) then Ok tt else Err InjectRejected).

Definition restore_warm_fork (id : string) (src : RestoreSource) : M Host (result unit SbError) :=
  try? try id HotplugNetwork else rollback_vm id;;
  take_storages id src;;
  try? refresh_instance_identity id else rollback_vm id;;
  reseed_guest_entropy id;;
  match rs_warm_fork_params src with
  | None => rollback_vm id;; mret (Err NoParams)
  | Some p => try? inject_warm_fork_task id p else rollback_vm id;; mret (Ok tt)
  end.

Definition restore_environment (id : string) : M Host (result unit SbError) :=
  try? try id HotplugNetwork else rollback_vm id;;
  blk ← field id sb_virtio_blk false;
  try? (if blk : bool then push_sandbox_files id else mret (Ok tt)) else rollback_vm id;;
  try? setup_sandbox id else rollback_vm id;;
  mret (Ok tt).

Definition try_restore (id : string) (src : RestoreSource) : M Host (result unit SbError) :=
  do? try id (VmRestore (rs_snapshot_dir src));;
  try? init_client id else rollback_vm id;;
  do? match rs_snapshot_type src with
      | WarmFork => restore_warm_fork id src
      | Continuation => take_storages id src;; sync_clock id;; mret (Ok tt)
      | Environment => restore_environment id
      end;;
  (if bool_decide (rs_snapshot_type src = Environment) then reseed_guest_entropy id else mret tt);;
  forward_events id;;
  upd id (set_status (StRunning (vmm_pid su id)));;
  (if bool_decide (rs_memory_restore_mode src = Copy) then cleanup_work_dir id else mret tt);;
  mret (Ok tt).

(** [KuasarSandbox::start_from_snapshot] *)
Definition restore_vm (id : string) (src : RestoreSource) : M Host (result unit SbError) :=
  try? try_restore id src else cleanup_work_dir id;; mret (Ok tt).

(** ** [KuasarSandboxer::start_from_snapshot] *)
Record SnapshotRestoreParams := mkRestoreParams {
  rp_snapshot_dir : string;
  rp_template_id : option string;
  rp_snapshot_type : SnapshotType;
  rp_id_generator : N;
  rp_storages : list Storage;
  rp_orphan_container_ids : list string;
  rp_lease_mode : TemplateLeaseMode;
  rp_reflink_supported : bool;
  rp_warm_fork_params : option WarmForkParams
}.

(** Environment template whose snapshot files back the running VM. *)
Definition pins_environment (r : RestoreMetadata) : bool :=
  bool_decide (template_snapshot_type r = Some Environment) &&
  match memory_restore_mode r with None | Some Copy => false | Some _ => true end.

(** [env_non_copy_pinned] *)
Definition pin_environment (id : string) : M Host bool :=
  r ← field id sb_restore no_restore;
  match template_id r, template_pool su with
  | Some tid, Some _ => if pins_environment r then in_pool (ref_template tid);; mret true else mret false
  | _, _ => mret false
  end.

(** [rollback_post_restore!] *)
Definition rollback_post_restore (id : string) (pinned : bool) : M Host unit :=
  r ← field id sb_restore no_restore;
  (match pinned, template_id r, template_pool su with
   | true, Some tid, Some pc => in_pool (deref pc tid)
   | _, _, _ => mret tt
   end);;
  clear_template_restore_state id;;
  s ← stop id true;
  match s with
  | Err _ => mret tt
  | Ok _ => destroy_network id
  end.

Definition start_from_snapshot (id : string) (p : SnapshotRestoreParams) : M Host (result unit SbError) :=
  o ← this id;
  match o with
  | None => mret (Err SbNotFound)
  | Some b =>
      do? try id HookPreStart;;
      try? (if bool_decide (sb_netns b ≠ "") && negb (bool_decide (rp_snapshot_type p = Continuation))
            then prepare_network id else mret (Ok tt))
      else destroy_network id;;
      let mode := default_memory_restore_mode (snapshot su) in
      upd id (λ b, set_restore (mkRestore (rp_template_id p) (Some (rp_snapshot_type p)) (Some (rp_lease_mode p))
                     (Some (rp_reflink_supported p)) (Some mode) (r_orphan_container_ids (sb_restore b))) b);;
      let src := mkSource (rp_snapshot_dir p) (rp_snapshot_type p) (rp_storages p) (rp_orphan_container_ids p)
                   mode (rp_warm_fork_params p) in
      try? restore_vm id src else (clear_template_restore_state id;; destroy_network id);;
      pinned ← pin_environment id;
      upd id (set_id_generator (rp_id_generator p));;
      try? add_to_cgroup id else rollback_post_restore id pinned;;
      try? try id HookPostStart else rollback_post_restore id pinned;;
      try? dump id else rollback_post_restore id pinned;;
      mret (Ok tt)
  end.

(** ** Restoring from the continuation store *)

(** [metadata(state.json)] and [metadata(pmem_path)]: two calls, the second
    only when the first succeeds. *)
Definition snapshot_files_ok (id : string) (t : PooledTemplate) : M Host bool :=
  b ← call id (StatSnapshot (snapshot_dir t) "state.json");
  if b : bool then call id (StatSnapshot (snapshot_dir t) (pmem_path t)) else mret false.

Definition restore_params (t : PooledTemplate) (ty : SnapshotType) (lm : TemplateLeaseMode) (reflink : bool)
    (wf : option WarmForkParams) : SnapshotRestoreParams :=
  mkRestoreParams (snapshot_dir t) (Some (pt_id t)) ty (id_generator t) (storages t) (orphan_container_ids t)
    lm reflink wf.

Definition publish_template_id (id tid : string) : M Host unit :=
  upd id (λ b, let r := sb_restore b in
               set_restore (mkRestore (Some tid) (template_snapshot_type r) (r_lease_mode r)
                 (r_reflink_supported r) (memory_restore_mode r) (r_orphan_container_ids r)) b).

Definition start_with_continuation_snapshot (id : string) (identity : WorkloadIdentity)
  : M Host (result unit SbError) :=
  if negb (continuation_store su) then mret (Err NotInitialized) else
  o ← in_store (c_acquire identity);
  match o with
  | None => mret (Err PoolMiss)
  | Some t =>
      publish_template_id id (pt_id t);;
      ok ← snapshot_files_ok id t;
      if negb ok then
        clear_template_restore_state id;;
        in_store (c_fail t);;
        mret (Err SnapshotFilesMissing)
      else
        let reflink := match template_pool su with Some pc => reflink_supported pc | None => false end in
        try? start_from_snapshot id (restore_params t Continuation Exclusive reflink None)
        else in_store (c_fail t);;
        mret (Ok tt)
  end.

(** ** Restoring from the pool *)
Definition fail_lease (pc : PoolConfig) (l : TemplateLease) : M Host unit := in_pool (lease_fail pc l).
Definition miss (pc : PoolConfig) (l : TemplateLease) : M Host unit := fail_lease pc l;; count record_miss.

Definition restore_from_warm_fork_template (id : string) (pc : PoolConfig) (l : TemplateLease)
    (lm : TemplateLeaseMode) : M Host (result unit SbError) :=
  let t := l_tmpl l in
  if bool_decide (ready_protocol_version t = None) then miss pc l;; mret (Err NoProtocolVersion) else
  ok ← snapshot_files_ok id t;
  if negb ok then miss pc l;; mret (Err SnapshotFilesMissing) else
  ann ← field id sb_annotations None;
  match parse_warm_fork_params (default ∅ ann) with
  | Err e => miss pc l;; mret (Err (BadAnnotation e))
  | Ok p =>
      match overlay_targets (warm_fork_targets t) p with
      | None => miss pc l;; mret (Err TargetMismatch)
      | Some p =>
          try? start_from_snapshot id (restore_params t WarmFork lm (reflink_supported pc) (Some p))
          else miss pc l;;
          count (record_warmfork_hit (restore_ms su id));;
          in_pool (lease_complete pc l);;
          mret (Ok tt)
      end
  end.

Definition restore_from_environment_template (id : string) (pc : PoolConfig) (l : TemplateLease)
    (lm : TemplateLeaseMode) : M Host (result unit SbError) :=
  let t := l_tmpl l in
  ok ← snapshot_files_ok id t;
  if negb ok then miss pc l;; mret (Err SnapshotFilesMissing) else
  try? start_from_snapshot id (restore_params t Environment lm (reflink_supported pc) None)
  else miss pc l;;
  count (record_environment_hit (restore_ms su id));;
  in_pool (lease_complete pc l);;
  mret (Ok tt).

(** [wakes k]: what happens while this sandbox waits for a refill of [k]. *)
Context (wakes : TemplateKey → list Wake).

Definition acquire_or_wait (pc : PoolConfig) (k : TemplateKey) : M World (option PooledTemplate) :=
  o ← acquire_for_restore pc k;
  match o with
  | Some t => mret (Some t)
  | None =>
      n ← gets (in_flight_count_for_key k);
      if (0 <? n)%nat then wait_and_acquire_for_restore pc k (wakes k) else mret None
  end.

Definition start_with_template_key (id : string) (k : TemplateKey) : M Host (result unit SbError) :=
  match template_pool su with
  | None => mret (Err NotInitialized)
  | Some pc =>
      o ← in_pool (acquire_or_wait pc k);
      match o with
      | None => count record_miss;; mret (Err PoolMiss)
      | Some t =>
          l ← in_pool (lease_new pc t);
          match snapshot_type t with
          | Environment => restore_from_environment_template id pc l Shared
          | WarmFork =>
              if enable_warmfork_restore (snapshot su)
              then restore_from_warm_fork_template id pc l (lease_mode pc)
              else miss pc l;; mret (Err RestoreDisabled)
          | Continuation => panic
          end
      end
  end.

Definition start_with_template_id (id tid : string) (k : option string) : M Host (result unit SbError) :=
  match template_pool su with
  | None => mret (Err NotInitialized)
  | Some pc =>
      o ← in_pool (acquire_by_id_for_restore pc tid);
      match o with
      | None => mret (Err PoolMiss)
      | Some t =>
          if negb (bool_decide (snapshot_type t = WarmFork)) then mret (Err WrongTemplateType) else
          l ← in_pool (lease_new pc t);
          if negb (match k with Some k => bool_decide (pt_key t = user k) | None => true end)
          then fail_lease pc l;; mret (Err KeyMismatch)
          else if negb (enable_warmfork_restore (snapshot su)) then miss pc l;; mret (Err RestoreDisabled)
          else restore_from_warm_fork_template id pc l (lease_mode pc)
      end
  end.

(** ** [start]: which snapshot, and what to do without one *)
Definition apply_pool_settings (id : string) : M Host unit :=
  match template_pool su with
  | None => mret tt
  | Some pc =>
      upd id (λ b, let r := sb_restore b in
                   set_restore (mkRestore (template_id r) (template_snapshot_type r) (Some (lease_mode pc))
                     (Some (reflink_supported pc)) (memory_restore_mode r) (r_orphan_container_ids r)) b)
  end.

Definition stop_and_destroy (id : string) : M Host unit :=
  s ← stop id true;
  match s with Err _ => mret tt | Ok _ => destroy_network id end.

Definition cold_start (id : string) : M Host (result unit SbError) :=
  o ← this id;
  match o with
  | None => mret (Err SbNotFound)
  | Some b =>
      apply_pool_settings id;;
      do? try id HookPreStart;;
      do? (if bool_decide (sb_netns b ≠ "") then prepare_network id else mret (Ok tt));;
      try? boot id else destroy_network id;;
      try? add_to_cgroup id else stop_and_destroy id;;
      try? try id HookPostStart else stop_and_destroy id;;
      try? dump id else stop_and_destroy id;;
      mret (Ok tt)
  end.

Definition any_snapshot_restore_enabled : bool :=
  enable_warmfork_restore (snapshot su) || enable_continuation_restore (snapshot su)
    || enable_environment_restore (snapshot su).

Definition environment_or_cold (id : string) : M Host (result unit SbError) :=
  e ← (if enable_environment_restore (snapshot su) && bool_decide (is_Some (template_pool su))
       then start_with_template_key id (factory_key (factory su)) else mret (Err NoMatchingSnapshot));
  match e with
  | Ok _ => mret (Ok tt)
  | Err _ =>
      if any_snapshot_restore_enabled && negb (fallback_to_fresh_boot (snapshot su))
      then mret (Err NoMatchingSnapshot)
      else cold_start id
  end.

(** WarmFork by id or by key, when the pod names either. *)
Definition start_warm_fork (id : string) (i : SnapshotIntent) : option (M Host (result unit SbError)) :=
  match i_template_id i, i_template_key i with
  | Some tid, k => Some (start_with_template_id id tid k)
  | None, Some k => Some (start_with_template_key id (user k))
  | None, None => None
  end.

Definition start_with_intent (id : string) (i : SnapshotIntent) : M Host (result unit SbError) :=
  match explicit_type i, cont_identity i with
  | Some Continuation, o =>
      if negb (enable_continuation_restore (snapshot su)) then mret (Err RestoreDisabled) else
      match o with
      | None => mret (Err MissingAnnotation)
      | Some w => start_with_continuation_snapshot id w
      end
  | Some WarmFork, _ =>
      if negb (enable_warmfork_restore (snapshot su)) then mret (Err RestoreDisabled)
      else default (mret (Err MissingAnnotation)) (start_warm_fork id i)
  | _, Some w => start_with_continuation_snapshot id w
  | _, None =>
      match start_warm_fork id i with
      | None => environment_or_cold id
      | Some m =>
          r ← m;
          match r with Ok _ => mret (Ok tt) | Err _ => environment_or_cold id end
      end
  end.

Definition start (id : string) : M Host (result unit SbError) :=
  if bool_decide (is_Some (template_pool su)) || continuation_store su then
    if enable_warmfork_restore (snapshot su) || enable_continuation_restore (snapshot su) then
      o ← this id;
      match o with
      | None => mret (Err SbNotFound)
      | Some b =>
          match parse_snapshot_intent (enable_continuation_restore (snapshot su)) (sb_annotations b) with
          | Err e => mret (Err (BadAnnotation e))
          | Ok i => start_with_intent id i
          end
      end
    else environment_or_cold id
  else cold_start id.

(** ** The rest of the life cycle *)
Definition DEFAULT_CGROUP_PARENT_PATH : string := "kuasar-vmm".

Definition create (id base_dir netns : string) (ann : option (gmap string string)) (pid : option bool)
    (cgroup_parent : option string)
  : M Host (result unit SbError) :=
  o ← this id;
  match o with
  | Some _ => mret (Err AlreadyExist)
  | None =>
      try? (if cgroup2 su then mret (Ok tt) else try id CreateCgroups)
      else (_ ← call id RemoveCgroups; mret tt);;
      do? try id CreateVm;;
      do? try id SetupSandboxFiles;;
      do? try id HookPostCreate;;
      do? dump id;;
      let parent := if cgroup2 su then "" else default DEFAULT_CGROUP_PARENT_PATH cgroup_parent in
      set_sandboxes (insert id (mkSandbox StCreated base_dir netns ann pid ∅ [] 0 None false parent
        (f_policy (factory su)) no_restore));;
      mret (Ok tt)
  end.

Definition update (id netns : string) (ann : option (gmap string string)) (pid : option bool) : M Host (result unit SbError) :=
  o ← this id;
  match o with
  | None => mret (Err SbNotFound)
  | Some _ => upd id (set_data netns ann pid);; dump id
  end.

Definition stop_sandbox (id : string) (force : bool) : M Host (result unit SbError) :=
  o ← this id;
  match o with
  | None => mret (Ok tt)
  | Some _ =>
      do? try id HookPreStop;;
      do? stop id force;;
      do? try id HookPostStop;;
      dump id
  end.

(** The release of the template when its sandbox is gone. *)
Definition release_template (r : RestoreMetadata) : M Host unit :=
  match template_id r, template_pool su with
  | Some tid, Some pc =>
      match template_snapshot_type r with
      | Some Environment => if pins_environment r then in_pool (deref pc tid) else mret tt
      | Some WarmFork =>
          match r_lease_mode r with
          | Some Shared => in_pool (deref pc tid)
          | Some Exclusive | None => in_pool (cleanup_consumed tid)
          end
      | Some Continuation =>
          if continuation_store su then _ ← in_store (c_delete_by_template_id tid); mret tt else mret tt
      | None => in_pool (cleanup_consumed tid)
      end
  | _, _ => mret tt
  end.

(** The part of [delete] under the sandbox's mutex. *)
Definition delete_held (id : string) : M Host (result unit SbError) :=
  do? stop id true;;
  do? (if cgroup2 su then mret (Ok tt) else try id RemoveCgroups);;
  do? try id CleanupMounts;;
  do? try id RemoveBaseDir;;
  r ← field id sb_restore no_restore;
  release_template r;;
  mret (Ok tt).

Definition delete_sandbox (id : string) : M Host (result unit SbError) :=
  o ← this id;
  do? match o with Some _ => delete_held id | None => mret (Ok tt) end;;
  set_sandboxes (delete id);;
  mret (Ok tt).

(** The monitor task: the VMM process exited. *)
Definition monitor_exit (id : string) (code : N) (ts : Z) : M Host unit :=
  upd id (set_status (StStopped code ts));;
  destroy_network id;;
  _ ← dump id;
  mret tt.

(** ** Recovery *)

(** What [KuasarSandbox::recover] makes of a parsed [sandbox.json]; the
    client is not serialized. *)
Definition recover_running (id : string) : M Host (result unit SbError) :=
  let rollback := _ ← stop id true; mret tt in
  try? try id VmRecover else rollback;;
  try? init_client id else rollback;;
  sync_clock id;;
  forward_events id;;
  mret (Ok tt).

Definition recover_sandbox (id : string) (b : Sandbox) : M Host (result unit SbError) :=
  set_sandboxes (insert id (set_client false b));;
  do? match sb_status b with StRunning _ => recover_running id | _ => mret (Ok tt) end;;
  try id CreateCgroups.

(** One directory entry; [None] is a [sandbox.json] that does not parse. *)
Definition recover_entry (e : string * option Sandbox) : M Host unit :=
  r ← match e.2 with Some b => recover_sandbox e.1 b | None => mret (Err SbNotFound) end;
  match r with
  | Ok _ => mret tt
  | Err _ =>
      _ ← call e.1 CleanupMounts; _ ← call e.1 RemoveBaseDir;
      set_sandboxes (delete e.1)
  end.

Fixpoint recover_entries (l : list (string * option Sandbox)) : M Host unit :=
  match l with
  | [] => mret tt
  | e :: l => recover_entry e;; recover_entries l
  end.

Definition active_ids (bs : list Sandbox) : list string := omap (λ b, template_id (sb_restore b)) bs.
Definition is_shared_ref (r : RestoreMetadata) : bool :=
  bool_decide (template_snapshot_type r = Some WarmFork) && bool_decide (r_lease_mode r = Some Shared).
Definition shared_ids (bs : list Sandbox) : list string :=
  omap (λ b, if is_shared_ref (sb_restore b) then template_id (sb_restore b) else None) bs.
Definition pinned_ids (bs : list Sandbox) : list string :=
  omap (λ b, if is_shared_ref (sb_restore b) then None
             else if pins_environment (sb_restore b) then template_id (sb_restore b) else None) bs.

Definition recover_templates : M Host unit :=
  match template_pool su with
  | None => mret tt
  | Some _ =>
      bs ← gets (λ h, hash_values (sandboxes h));
      in_pool (rebuild_active_refs (shared_ids bs) (pinned_ids bs));;
      in_pool (gc_orphaned_consumed (list_to_set (active_ids bs)));;
      (if continuation_store su
       then _ ← in_store (c_gc_orphaned_consumed (list_to_set (active_ids bs))); mret tt
       else mret tt)
  end.

(** The entries are those of a working directory that was read to its end: an
    entry that cannot be read ([next_entry().await.unwrap()]) stops the daemon
    at its start, before any of this, and the directory of a sandbox is named
    by its id, which is UTF-8. *)
Definition recover (entries : list (string * option Sandbox)) : M Host unit :=
  recover_entries entries;; recover_templates.
End sandboxer.
