(* ===== verification/SandboxerInv.v ===== *)
(** * The sandboxer as a client of the pool

    The operations of [Sandboxer] are sequences of the steps of [PoolSys]: a
    restore takes a claim, completes or fails it, and what a sandbox still owes
    the pool is written in its restore metadata. *)
From S2P Require Import Prelude Strs Storage Types Metrics Disk Pool PoolLemmas PoolInv PoolFrame PoolSys PoolProps PoolDisk Continuation ContinuationProps GuestScan Mount Frame Inject Annotations Box BlockImage StorageOps Handlers BoxCalm Sandboxer.

(** The claim a sandbox holds, as [delete] reads it from its metadata. *)
Definition owes (r : RestoreMetadata) : option (Claim * string) :=
  tid ← template_id r;
  match template_snapshot_type r with
  | Some Environment => if pins_environment r then Some (Referencing, tid) else None
  | Some WarmFork =>
      match r_lease_mode r with
      | Some Shared => Some (Referencing, tid)
      | Some Exclusive | None => Some (Consumed, tid)
      end
  | Some Continuation | None => None
  end.

Lemma owes_meta r r' : meta r = meta r' → owes r = owes r'.
Proof. unfold meta, owes, pins_environment. intros [= -> -> -> ->]. done. Qed.

Section still.
Context `{TemplateCodec} (id : string).

(** The sandbox [id] was worked on: nothing else changed, and its claim
    neither. *)
Record still (h h' : Host) : Prop := {
  st_pool : pool h' = pool h;
  st_store : store h' = store h;
  st_others : ∀ j, j ≠ id → sandboxes h' !! j = sandboxes h !! j;
  st_meta : meta ∘ sb_restore <$> sandboxes h' !! id = meta ∘ sb_restore <$> sandboxes h !! id
}.

#[global] Instance still_preorder : PreOrder still.
Proof.
  split; [by split|]. intros h1 h2 h3 [A1 A2 A3 A4] [B1 B2 B3 B4]. split; [congruence..| |congruence].
  intros j Hj. by rewrite B3, A3.
Qed.

Definition keeps {A} (m : M Host A) : Prop := ∀ h, ∃ a h', m h = Some (a, h') ∧ still h h'.

Lemma keeps_ret {A} (a : A) : keeps (mret a).
Proof. intros h. by exists a, h. Qed.
Lemma keeps_bind {A B} (m : M Host A) (k : A → M Host B) :
  keeps m → (∀ a, keeps (k a)) → keeps (m ≫= k).
Proof.
  intros Hm Hk h. destruct (Hm h) as (a & h1 & E1 & S1). destruct (Hk a h1) as (b & h2 & E2 & S2).
  exists b, h2. unfold mbind, M_bind. rewrite E1. split; [done|]. by transitivity h1.
Qed.
Lemma keeps_gets {A} (f : Host → A) : keeps (gets f).
Proof. intros h. by exists (f h), h. Qed.
Lemma keeps_call a : keeps (call id a).
Proof. intros h. eexists _, _. split; [done|]. by split. Qed.
Lemma keeps_note a : keeps (note id a).
Proof. intros h. eexists _, _. split; [done|]. by split. Qed.
Lemma keeps_count f : keeps (count f).
Proof. intros h. eexists _, _. split; [done|]. by split. Qed.
Lemma keeps_upd f : (∀ b, meta (sb_restore (f b)) = meta (sb_restore b)) → keeps (upd id f).
Proof.
  intros Hf h. eexists _, _. split; [done|]. split; [done|done| |]; simpl.
  - intros j Hj. by rewrite lookup_alter_ne.
  - rewrite lookup_alter_eq. destruct (sandboxes h !! id) as [b|]; simpl; [|done]. f_equal. apply Hf.
Qed.
End still.

Create HintDb keep.
#[export] Hint Resolve keeps_ret keeps_gets keeps_call keeps_note keeps_count : keep.

(** Walk over a program that keeps the claim. *)
Ltac keep :=
  repeat first
    [ solve [eauto 2 with keep nocore]
    | apply keeps_upd; intros ?; reflexivity
    | apply keeps_bind; [|intros ?]
    | progress (repeat case_match) ].

Section keeping.
Context `{TemplateCodec} `{HashOrder} (su : Setup) (id : string).

Lemma keeps_try a : keeps id (try id a).
Proof. unfold try. keep. Qed.
Lemma keeps_this : keeps id (this id).
Proof. apply keeps_gets. Qed.
Lemma keeps_field {A} (f : Sandbox → A) d : keeps id (field id f d).
Proof. unfold field, this. keep. Qed.
Hint Resolve keeps_try keeps_field keeps_this : keep.

Lemma keeps_destroy_network : keeps id (destroy_network id).
Proof. unfold destroy_network. keep. Qed.
Lemma keeps_prepare_network : keeps id (prepare_network su id).
Proof. unfold prepare_network. keep. Qed.
Lemma keeps_init_client : keeps id (init_client id).
Proof. unfold init_client. keep. Qed.
Lemma keeps_with_client m : keeps id m → keeps id (with_client id m).
Proof. intros Hm. unfold with_client. keep. Qed.
Lemma keeps_dump : keeps id (dump id).
Proof. unfold dump. keep. Qed.
Hint Resolve keeps_destroy_network keeps_prepare_network keeps_init_client keeps_with_client keeps_dump : keep.
Lemma keeps_setup_sandbox : keeps id (setup_sandbox id).
Proof. unfold setup_sandbox. keep. Qed.
Lemma keeps_sync_clock : keeps id (sync_clock id).
Proof. unfold sync_clock. keep. Qed.
Lemma keeps_forward_events : keeps id (forward_events id).
Proof. unfold forward_events. keep. Qed.
Lemma keeps_reseed : keeps id (reseed_guest_entropy id).
Proof. unfold reseed_guest_entropy. apply keeps_with_client. keep. Qed.
Lemma keeps_push : keeps id (push_sandbox_files id).
Proof. unfold push_sandbox_files. keep. Qed.
Lemma keeps_add_to_cgroup : keeps id (add_to_cgroup su id).
Proof. unfold add_to_cgroup. keep. Qed.
Hint Resolve keeps_setup_sandbox keeps_sync_clock keeps_forward_events keeps_reseed keeps_push
  keeps_add_to_cgroup : keep.
Lemma keeps_in_box m : calm m → keeps id (in_box id m).
Proof.
  intros Hm h. unfold in_box. destruct (sandboxes h !! id) as [b|] eqn:Eb; [|by exists (Err SbNotFound), h].
  destruct (Hm (mkBox b (ext h) [])) as (r & x & t & E & Em & _). rewrite E. eexists _, _. split; [done|].
  split; [done|done| |]; simpl.
  - intros j Hj. by rewrite lookup_insert_ne.
  - rewrite lookup_insert_eq, Eb. simpl. by rewrite Em.
Qed.
Lemma keeps_remove_container cid : keeps id (in_box id (remove_container cid)).
Proof. apply keeps_in_box, calm_remove. Qed.
Hint Resolve keeps_remove_container : keep.
Lemma keeps_remove_containers force l : keeps id (remove_containers id force l).
Proof. induction l; simpl; keep. Qed.
Hint Resolve keeps_remove_containers : keep.
Lemma keeps_stop force : keeps id (stop id force).
Proof. unfold stop, stop_running. keep. Qed.
Hint Resolve keeps_stop : keep.
Lemma keeps_boot : keeps id (boot su id).
Proof. unfold boot. keep. Qed.
Lemma keeps_rollback_vm : keeps id (rollback_vm id).
Proof. unfold rollback_vm. keep. Qed.
Lemma keeps_cleanup_work_dir : keeps id (cleanup_work_dir id).
Proof. unfold cleanup_work_dir. keep. Qed.
Lemma keeps_take_storages src : keeps id (take_storages id src).
Proof. unfold take_storages. keep. Qed.
Lemma keeps_refresh : keeps id (refresh_instance_identity id).
Proof. unfold refresh_instance_identity, refresh_network. keep. Qed.
Lemma keeps_inject p : keeps id (inject_warm_fork_task su id p).
Proof. unfold inject_warm_fork_task. keep. Qed.
Hint Resolve keeps_boot keeps_rollback_vm keeps_cleanup_work_dir keeps_take_storages keeps_refresh keeps_inject : keep.
Lemma keeps_try_restore src : keeps id (try_restore su id src).
Proof. unfold try_restore, restore_warm_fork, restore_environment. keep. Qed.
Hint Resolve keeps_try_restore : keep.
Lemma keeps_restore_vm src : keeps id (restore_vm su id src).
Proof. unfold restore_vm. keep. Qed.
Lemma keeps_stop_and_destroy : keeps id (stop_and_destroy id).
Proof. unfold stop_and_destroy. keep. Qed.
Lemma keeps_snapshot_files_ok t : keeps id (snapshot_files_ok id t).
Proof. unfold snapshot_files_ok. keep. Qed.
End keeping.

#[export] Hint Resolve keeps_try keeps_field keeps_this keeps_destroy_network keeps_prepare_network keeps_dump
  keeps_add_to_cgroup keeps_stop keeps_boot keeps_restore_vm keeps_stop_and_destroy keeps_snapshot_files_ok : keep.

(** ** The claims behind a host state *)
Section ghost.
Context `{TemplateCodec} `{HashOrder} (su : Setup) (pc : PoolConfig) (Hsu : template_pool su = Some pc).
(** Continuation snapshots have ids of their own. *)
Context (cont : string → Prop).
Implicit Types (s : Sys) (h : Host) (hs : list Hold).

Definition no_cont : World → Prop := placed (λ d _, ¬ cont d.2).
Definition cont_store (c : CStore) : Prop :=
  ∀ e x j t, lookup_entry e c = Some x → d_meta x = Some j → from_json j = Some t → cont (pt_id t).

(** The sandbox [id] is being worked on with the claims [hs]; [rest] are the
    claims of everybody else and [others] the other sandboxes. *)
Context (id : string) (rest : list Hold) (others : gmap string Sandbox).

Definition leaked (l : list Hold) : Prop := Forall (λ x, h_claim x = Restoring) l.

Record working hs m h : Prop := {
  wk_claims : ∃ s l, reachable pc s ∧ world s = pool h ∧ holds s ≡ₚ hs ++ l ++ rest ∧ leaked l;
  wk_disk : no_cont (pool h);
  wk_store : cont_store (store h);
  wk_others : ∀ j, j ≠ id → sandboxes h !! j = others !! j;
  wk_meta : meta ∘ sb_restore <$> sandboxes h !! id = m
}.

Lemma working_still hs m h h' : still id h h' → working hs m h → working hs m h'.
Proof.
  intros [Ep Es Eo Em] [C D S O M]. split; rewrite ?Ep, ?Es, ?Em; try done.
  intros j Hj. rewrite Eo by done. by apply O.
Qed.

Lemma hoare_keeps {A} (c : M Host A) hs m :
  keeps id c → hoare (working hs m) c (λ _, working hs m).
Proof.
  intros Hc h Hh. destruct (Hc h) as (a & h' & E & Hs). exists a, h'. split; [done|].
  by eapply working_still.
Qed.

Lemma hoare_set_meta f m hs m' :
  (∀ b, meta (sb_restore (f b)) = m') →
  hoare (working hs m) (upd id f) (λ _, working hs ((λ _, m') <$> m)).
Proof.
  intros Hf. apply hoare_modify. intros h [C D S O M]. split; try done; simpl.
  - intros j Hj. rewrite lookup_alter_ne by done. by apply O.
  - rewrite <- M, lookup_alter_eq. destruct (sandboxes h !! id); simpl; [|done]. f_equal. apply Hf.
Qed.

(** A pool operation as steps, from the claims [hs] to claims that satisfy
    [Q]. *)
Definition steps_to {A} (c : M World A) hs (Q : A → list Hold → Prop) : Prop :=
  ∀ s r, reachable pc s → no_cont (world s) → holds s ≡ₚ hs ++ r →
    ∃ a w' hs' hs2, c (world s) = Some (a, w') ∧ Q a hs' ∧ reachable pc (mkSys w' hs2) ∧ no_cont w' ∧
      hs2 ≡ₚ hs' ++ r.

Lemma hoare_pool {A} (c : M World A) hs m (Q : A → list Hold → Prop) :
  steps_to c hs Q → hoare (working hs m) (in_pool c) (λ a h, ∃ hs', Q a hs' ∧ working hs' m h).
Proof.
  intros Hc h [(s & l & Hr & Ew & Eh & Hl) D S O M].
  destruct (Hc s (l ++ rest) Hr) as (a & w' & hs' & hs2 & E & HQ & Hr' & Hn & Eh'); [by rewrite Ew|done|].
  exists a, (mkHost w' (store h) (metrics h) (sandboxes h) (ext h) (trace h)).
  unfold in_pool. rewrite <- Ew, E. split; [done|]. exists hs'. split; [done|].
  split; try done; simpl. by exists (mkSys w' hs2), l.
Qed.

Lemma steps_bind {A B} (c : M World A) (k : A → M World B) hs Q Q' :
  steps_to c hs Q → (∀ a hs', Q a hs' → steps_to (k a) hs' Q') → steps_to (c ≫= k) hs Q'.
Proof.
  intros Hc Hk s r Hr Hn Eh. destruct (Hc s r Hr Hn Eh) as (a & w1 & hs1 & hs2 & E & HQ & Hr1 & Hn1 & Eh1).
  destruct (Hk a hs1 HQ (mkSys w1 hs2) r Hr1 Hn1 Eh1) as (b & w2 & hs3 & hs4 & E2 & HQ2 & R2).
  exists b, w2, hs3, hs4. unfold mbind, M_bind. rewrite E. simpl in E2. by rewrite E2.
Qed.
Lemma steps_pure {A} (c : M World A) hs (Q : A → list Hold → Prop) :
  (∀ w, ∃ a, c w = Some (a, w) ∧ Q a hs) → steps_to c hs Q.
Proof.
  intros Hc [w k] r Hr Hn Eh. destruct (Hc w) as (a & E & HQ). exists a, w, hs, k. done.
Qed.

(** A step leaves the claims it does not need alone. *)
Lemma steps_frame {A} (c : M World A) hs fr (Q : A → list Hold → Prop) :
  steps_to c hs Q → steps_to c (hs ++ fr) (λ a hs', ∃ hs0, hs' = hs0 ++ fr ∧ Q a hs0).
Proof.
  intros Hc s r Hr Hn Eh. rewrite <- app_assoc in Eh.
  destruct (Hc s (fr ++ r) Hr Hn Eh) as (a & w' & hs' & hs2 & E & HQ & Hr' & Hn' & Eh').
  exists a, w', (hs' ++ fr), hs2. rewrite <- app_assoc. split_and!; eauto.
Qed.

Lemma working_perm hs hs' m h : hs ≡ₚ hs' → working hs m h → working hs' m h.
Proof.
  intros Hp [(s & l & Hr & Ew & Eh & Hl) D S O M]. split; try done. exists s, l. split_and!; try done.
  by rewrite <- Hp.
Qed.

Lemma set_io_same (w : World) : set_io (io w) w = w.
Proof. by destruct w. Qed.

Lemma holds_split s x r :
  holds s ≡ₚ x :: r → ∃ hs1 hs2, holds s = hs1 ++ x :: hs2 ∧ hs1 ++ hs2 ≡ₚ r.
Proof.
  intros Hp. assert (x ∈ holds s) as Hx by (rewrite Hp; by left).
  apply list_elem_of_split in Hx as (hs1 & hs2 & E). exists hs1, hs2. split; [done|].
  rewrite E in Hp. apply (Permutation_cons_inv (a := x)). by rewrite <- Hp, Permutation_middle.
Qed.

(** ** The steps *)
Lemma pool_total s x l :
  reachable pc s → x ∈ holds s → lease_of x = Some l →
  is_Some (lease_complete pc l (world s)) ∧ is_Some (lease_fail pc l (world s)).
Proof.
  intros Hr Hx Hl. destruct (reachable_ok pc s Hr) as [Ho _ _ Hh _].
  destruct (Hh x Hx) as [Hk Hp _]. unfold lease_of in Hl. destruct (h_claim x); simplify_eq/=; cbn.
  - split; (eapply hoare_total; [apply end_restore_ok|done]).
  - split; [eexists; reflexivity|]. eapply hoare_total; [apply deref_ok|done].
  - split; [eexists; reflexivity|]. destruct Hk as [Hk _], Hp as [Hp _].
    destruct (release_ok (h_tmpl x) ltac:(congruence) (world s)) as (a & w' & E & _); [done|]. rewrite E. eauto.
Qed.

Lemma no_cont_change (d : DirKey) (x : Dir) (o : option Json) (b : bool) :
  ¬ cont d.2 → o = d_meta x ∨ o = None → ¬ cont d.2.
Proof. done. Qed.

Lemma grant_inv_ask a w o w' :
  grant pc a w = Some (o, w') →
  match o with
  | None => ask pc a w = Some (None, w')
  | Some x => ask pc a w = Some (Some (h_tmpl x), w') ∧
              ∃ k, lease_kind pc (h_tmpl x) = Some k ∧ h_claim x = claim_of k
  end.
Proof.
  unfold grant. unfold mbind at 1, M_bind. destruct (ask pc a w) as [[[t|] w1]|]; [| |done].
  - unfold lease_new. munfold. destruct (lease_kind pc t) as [k|] eqn:Ek; [|done].
    intros [= <- <-]. simpl. eauto.
  - by intros [= <- <-].
Qed.

Definition granted (o : option PooledTemplate) hs : Prop :=
  match o with
  | None => hs = []
  | Some t => ∃ x k, hs = [x] ∧ h_tmpl x = t ∧ lease_kind pc t = Some k ∧ h_claim x = claim_of k
  end.

Lemma steps_ask a : steps_to (ask pc a) [] granted.
Proof.
  intros s r Hr Hn Eh. destruct (reachable_ok pc s Hr) as [Ho _ _ _ _].
  destruct (grant_total pc a (world s) Ho) as [[o w'] E].
  assert (reachable pc (mkSys w' (option_list o ++ holds s))) as Hr'.
  { eapply reachable_step; [done|]. apply (step_grant pc s (io (world s)) a). by rewrite set_io_same. }
  assert (no_cont w') as Hn'.
  { eapply (grant_placed pc (λ d _, ¬ cont d.2) no_cont_change a); done. }
  pose proof (grant_inv_ask _ _ _ _ E) as Hg. destruct o as [x|].
  - destruct Hg as [Ea (k & Hk & Hc)]. exists (Some (h_tmpl x)), w', [x], (x :: holds s).
    split_and!; [done|by exists x, k|done|done|]. by rewrite Eh.
  - exists None, w', [], (holds s). done.
Qed.

Lemma lease_of_claim x k : h_claim x = claim_of k → lease_of x = Some (mkLease (h_tmpl x) k).
Proof. unfold lease_of. by intros ->; destruct k. Qed.

Lemma steps_complete x k :
  h_claim x = claim_of k → steps_to (lease_complete pc (mkLease (h_tmpl x) k)) [x] (λ _ hs', hs' = completed x).
Proof.
  intros Hk s r Hr Hn Eh. destruct (holds_split s x r Eh) as (hs1 & hs2 & E & Ep).
  destruct (pool_total s x (mkLease (h_tmpl x) k) Hr) as [[[[] w'] Ec] _]; [rewrite E; apply elem_of_app; right; by left|by apply lease_of_claim|].
  exists tt, w', (completed x), (hs1 ++ completed x ++ hs2). split_and!; [done|done| | |].
  - eapply reachable_step; [done|]. eapply (step_complete pc s (io (world s))); [done|by apply lease_of_claim|].
    by rewrite set_io_same.
  - eapply (complete_placed pc (λ d _, ¬ cont d.2) no_cont_change); done.
  - rewrite <- Ep, !app_assoc. f_equiv. by rewrite Permutation_app_comm.
Qed.

Lemma steps_fail x k :
  h_claim x = claim_of k → steps_to (lease_fail pc (mkLease (h_tmpl x) k)) [x] (λ _ hs', hs' = []).
Proof.
  intros Hk s r Hr Hn Eh. destruct (holds_split s x r Eh) as (hs1 & hs2 & E & Ep).
  destruct (pool_total s x (mkLease (h_tmpl x) k) Hr) as [_ [[[] w'] Ec]]; [rewrite E; apply elem_of_app; right; by left|by apply lease_of_claim|].
  exists tt, w', [], (hs1 ++ hs2). split_and!; [done|done| | |done].
  - eapply reachable_step; [done|]. eapply (step_fail pc s (io (world s))); [done|by apply lease_of_claim|].
    by rewrite set_io_same.
  - eapply (fail_placed pc (λ d _, ¬ cont d.2) no_cont_change); done.
Qed.

(** The claim of the sandbox, taken while the restore still holds its own. *)
Definition pin_of (x : Hold) : Hold := mkHold (h_tmpl x) Referencing (h_dir x).

Lemma steps_pin x hs :
  h_claim x = Restoring → x ∈ hs → steps_to (ref_template (h_id x)) hs (λ _ hs', hs' = pin_of x :: hs).
Proof.
  intros Hc Hx s r Hr Hn Eh. eexists tt, _, (pin_of x :: hs), (pin_of x :: holds s).
  split_and!; [done|done| |done|by rewrite Eh].
  eapply reachable_step; [done|]. apply (step_pin pc s x); [|done|done]. rewrite Eh. apply elem_of_app. by left.
Qed.

Lemma steps_gone x hs :
  h_claim x = Referencing ∨ h_claim x = Consumed → steps_to (sandbox_gone pc x) (x :: hs) (λ _ hs', hs' = hs).
Proof.
  intros Hc s r Hr Hn Eh. simpl in Eh. destruct (holds_split s x (hs ++ r) Eh) as (hs1 & hs2 & E & Ep).
  assert (is_Some (sandbox_gone pc x (world s))) as [[[] w'] Eg].
  { unfold sandbox_gone. destruct (reachable_ok pc s Hr) as [Ho _ _ _ _].
    destruct (h_claim x); try apply cleanup_consumed_total. by eapply hoare_total; [apply deref_ok|]. }
  exists tt, w', hs, (hs1 ++ hs2). split_and!; [done|done| | |done].
  - eapply reachable_step; [done|]. eapply (step_sandbox_gone pc s (io (world s))); [done|done|].
    by rewrite set_io_same.
  - eapply (gone_placed pc (λ d _, ¬ cont d.2) no_cont_change); done.
Qed.
Lemma steps_deref x hs :
  h_claim x = Referencing → steps_to (deref pc (h_id x)) (x :: hs) (λ _ hs', hs' = hs).
Proof. intros Hc. pose proof (steps_gone x hs (or_introl Hc)) as Hg. unfold sandbox_gone in Hg. by rewrite Hc in Hg. Qed.
Lemma steps_cleanup x hs :
  h_claim x = Consumed → steps_to (cleanup_consumed (h_id x)) (x :: hs) (λ _ hs', hs' = hs).
Proof. intros Hc. pose proof (steps_gone x hs (or_intror Hc)) as Hg. unfold sandbox_gone in Hg. by rewrite Hc in Hg. Qed.

(** A continuation's id has no directory in the pool. *)
Lemma steps_cleanup_cont i hs : cont i → steps_to (cleanup_consumed i) hs (λ _ hs', hs' = hs).
Proof.
  intros Hi s r Hr Hn Eh.
  assert (∀ sd, disk (world s) !! (sd, i) = None) as Hd.
  { intros sd. destruct (disk (world s) !! (sd, i)) as [x|] eqn:E; [|done]. by destruct (Hn _ _ E). }
  destruct (cleanup_absent i (world s) Hd) as [l E].
  exists tt, (set_io l (world s)), hs, (holds s). split_and!; [done|done| |done|done].
  eapply reachable_step; [done|]. eapply (step_serve pc s (io (world s)) (RCleanup i)); [done|].
  by rewrite set_io_same.
Qed.

(** What other tasks do to the pool while this one waits. *)
Definition quiet (f : World → World) : Prop :=
  ∀ s, reachable pc s → no_cont (world s) →
    reachable pc (mkSys (f (world s)) (holds s)) ∧ no_cont (f (world s)).

Lemma steps_quiet f hs : quiet f → steps_to (modify f) hs (λ _ hs', hs' = hs).
Proof.
  intros Hf s r Hr Hn Eh. destruct (Hf s Hr Hn) as [Hr' Hn'].
  exists tt, (f (world s)), hs, (holds s). done.
Qed.

Lemma steps_wait k ws :
  (∀ f, Changed f ∈ ws → quiet f) → steps_to (wait_and_acquire_for_restore pc k ws) [] granted.
Proof.
  unfold wait_and_acquire_for_restore. induction ws as [|x ws IH]; intros Hq; simpl;
    (eapply steps_bind; [apply (steps_ask (ByKey k))|]);
    (intros [t|] hs' Hg; [by apply steps_pure; intros w; exists (Some t)|]);
    simpl in Hg; subst hs'; (eapply steps_bind; [by apply (steps_pure _ _ (λ _ hs', hs' = [])); intros w; eexists|]);
    intros n hs' ->; case_bool_decide; try (apply steps_pure; intros w; by exists None).
  destruct x as [f| |]; try (apply steps_pure; intros w; by exists None).
  eapply steps_bind; [apply steps_quiet, Hq; by left|]. intros _ hs' ->. apply IH.
  intros g Hg. apply Hq. by right.
Qed.

Lemma steps_acquire_or_wait wakes k :
  (∀ f, Changed f ∈ wakes k → quiet f) → steps_to (acquire_or_wait wakes pc k) [] granted.
Proof.
  intros Hq. unfold acquire_or_wait. eapply steps_bind; [apply (steps_ask (ByKey k))|].
  intros [t|] hs' Hg; [by apply steps_pure; intros w; exists (Some t)|]. simpl in Hg. subst hs'.
  eapply steps_bind; [by apply (steps_pure _ _ (λ _ hs', hs' = [])); intros w; eexists|].
  intros n hs' ->. case_match; [by apply steps_wait|]. apply steps_pure. intros w. by exists None.
Qed.
End ghost.

(** ** The continuation store: its snapshots keep their ids *)
Section store.
Context `{TemplateCodec} `{HashOrder} (cont : string → Prop).

Definition sound {A} (m : M CStore A) : Prop := hoare (cont_store cont) m (λ _, cont_store cont).

Lemma sound_ret {A} (a : A) : sound (mret a).
Proof. by apply hoare_ret. Qed.
Lemma sound_gets {A} (f : CStore → A) : sound (gets f).
Proof. by apply hoare_gets. Qed.
Lemma sound_bind {A B} (m : M CStore A) (k : A → M CStore B) : sound m → (∀ a, sound (k a)) → sound (m ≫= k).
Proof. intros Hm Hk. by eapply hoare_seq. Qed.
Lemma sound_io : sound cio_next.
Proof. intros c Hc. unfold cio_next. destruct (cio c); eexists _, _; (split; [done|]); done. Qed.
Lemma sound_alter f e :
  (∀ d : Dir, d_meta (f d) = d_meta d ∨ d_meta (f d) = None) → sound (modify (alter_entry f e)).
Proof.
  intros Hf. apply hoare_modify. intros c Hc e' x j t. rewrite lookup_alter_entry. case_decide; [|apply Hc].
  intros (d & Hd & ->)%fmap_Some Hm Hj. destruct (Hf d) as [E|E]; rewrite E in Hm; [by eapply Hc|done].
Qed.
Lemma sound_remove e : sound (modify (set_tree (alter (delete e.2) e.1))).
Proof.
  apply hoare_modify. intros c Hc e' x j t. rewrite lookup_delete_entry. case_decide; [done|apply Hc].
Qed.
Hint Resolve sound_ret sound_gets sound_io sound_remove : sound.

Ltac sounds :=
  repeat first
    [ solve [eauto 2 with sound nocore]
    | apply sound_alter; intros ?; simpl; repeat case_match; by auto
    | apply sound_bind; [|intros ?]
    | progress (repeat case_match) ].

Lemma sound_dir_exists e : sound (c_dir_exists e).
Proof. unfold c_dir_exists. sounds. Qed.
Lemma sound_marker_exists e : sound (c_marker_exists e).
Proof. unfold c_marker_exists. sounds. Qed.
Lemma sound_load e : sound (c_load e).
Proof. unfold c_load. sounds. Qed.
Lemma sound_write_marker e : sound (c_write_marker e).
Proof. unfold c_write_marker. sounds. Qed.
Lemma sound_remove_marker e : sound (c_remove_marker e).
Proof. unfold c_remove_marker. sounds. Qed.
Lemma sound_remove_dir_all e : sound (c_remove_dir_all e).
Proof. unfold c_remove_dir_all. sounds. Qed.
Lemma sound_remove_pod p : sound (c_remove_pod_dir p).
Proof.
  unfold c_remove_pod_dir. sounds. apply hoare_modify. intros c Hc e x j t. rewrite lookup_remove_pod. apply Hc.
Qed.
Hint Resolve sound_dir_exists sound_marker_exists sound_load sound_write_marker sound_remove_marker
  sound_remove_dir_all sound_remove_pod : sound.

Lemma sound_fail t : sound (c_fail t).
Proof. unfold c_fail. sounds. Qed.
Lemma sound_delete_entry i e : sound (c_delete_entry i e).
Proof. unfold c_delete_entry. sounds. Qed.
Hint Resolve sound_delete_entry : sound.
Lemma sound_delete_gens i p gs : sound (c_delete_gens i p gs).
Proof. induction gs; simpl; sounds. Qed.
Hint Resolve sound_delete_gens : sound.
Lemma sound_delete_pods i ps : sound (c_delete_pods i ps).
Proof. induction ps; simpl; sounds. Qed.
Hint Resolve sound_delete_pods : sound.
Lemma sound_delete_by_id i : sound (c_delete_by_template_id i).
Proof. unfold c_delete_by_template_id. sounds. Qed.

Lemma sound_acquire w :
  hoare (cont_store cont) (c_acquire w) (λ o c, cont_store cont c ∧ ∀ t, o = Some t → cont (pt_id t)).
Proof.
  assert (∀ m : M CStore (option PooledTemplate), sound m → (∀ c o c', m c = Some (o, c') → o = None) →
    hoare (cont_store cont) m (λ o c, cont_store cont c ∧ ∀ t, o = Some t → cont (pt_id t))) as Hnone.
  { intros m Hm Hn c Hc. destruct (Hm c Hc) as (o & c' & E & Hc'). exists o, c'. split; [done|].
    rewrite (Hn _ _ _ E). done. }
  unfold c_acquire. eapply hoare_seq; [apply sound_dir_exists|]. intros x.
  case_match; [by apply Hnone; [apply sound_ret|intros c o c' [= <- <-]]|].
  eapply hoare_seq; [apply sound_marker_exists|]. intros m.
  case_match; [by apply Hnone; [apply sound_ret|intros c o c' [= <- <-]]|].
  eapply (hoare_bind _ _ _ (λ o c, cont_store cont c ∧ ∀ t, o = Some t → cont (pt_id t))).
  { intros c Hc. destruct (sound_load (entry_dir w) c Hc) as (o & c' & E & Hc'). exists o, c'.
    split; [done|]. split; [done|]. intros t ->. destruct (c_load_inv _ _ _ _ E) as [_ Hl].
    destruct (Hl t eq_refl) as (d & j & Hd & Hm & Hj). by eapply Hc. }
  intros [t|]; [|by apply hoare_ret; intros c [? _]].
  case_match; [by apply hoare_ret; intros c [? _]|]. case_match; [by apply hoare_ret; intros c [? _]|].
  eapply (hoare_bind _ _ _ (λ _ c, cont_store cont c ∧ cont (pt_id t))).
  { intros c [Hc Ht]. destruct (sound_write_marker (entry_dir w) c Hc) as (r & c' & E & Hc').
    exists r, c'. split; [done|]. split; [done|]. by apply Ht. }
  intros [u|e]; apply hoare_ret; intros c [Hc Ht]; (split; [done|]); [by intros ? [= <-]|done].
Qed.

Lemma sound_create e : sound (c_create_dir_all e).
Proof.
  unfold c_create_dir_all. sounds. apply hoare_modify. intros c Hc e' x j t. rewrite lookup_create.
  case_decide; [|apply Hc]. intros [= <-] Hm Hj. destruct (lookup_entry e' c) as [d|] eqn:E; [|done].
  by eapply Hc.
Qed.
Lemma sound_save t : cont (pt_id t) → sound (c_save t).
Proof.
  intros Ht. pose proof sound_create as Hcr. unfold c_save, c_save_meta. sounds.
  apply hoare_modify. intros c Hc e' x j t'. rewrite lookup_alter_entry. case_decide; [|apply Hc].
  intros (y & Hy & ->)%fmap_Some. simpl. intros [= <-]. rewrite json_roundtrip. by intros [= <-].
Qed.
Lemma sound_delete w : sound (c_delete w).
Proof. unfold c_delete. sounds. Qed.

Lemma sound_gc_entry active e n : sound (c_gc_entry active e n).
Proof. unfold c_gc_entry. sounds. Qed.
Hint Resolve sound_gc_entry : sound.
Lemma sound_gc_gens active p gs n : sound (c_gc_gens active p gs n).
Proof. revert n. induction gs; intros n; simpl; sounds. Qed.
Hint Resolve sound_gc_gens : sound.
Lemma sound_gc_pods active ps n : sound (c_gc_pods active ps n).
Proof. revert n. induction ps; intros n; simpl; sounds. Qed.
Hint Resolve sound_gc_pods : sound.
Lemma sound_list_gens p gs acc : sound (c_list_gens p gs acc).
Proof. revert acc. induction gs; intros acc; simpl; sounds. Qed.
Hint Resolve sound_list_gens : sound.
Lemma sound_list_pods ps acc : sound (c_list_pods ps acc).
Proof. revert acc. induction ps; intros acc; simpl; sounds. Qed.
Hint Resolve sound_list_pods : sound.
Lemma sound_list : sound c_list.
Proof. unfold c_list. sounds. Qed.
Lemma sound_gc active : sound (c_gc_orphaned_consumed active).
Proof. unfold c_gc_orphaned_consumed. sounds. Qed.
End store.
