(* ===== verification/SandboxerProps.v ===== *)
(** * The restore paths of the sandboxer

    Every path of [start] takes, completes and fails its claims on templates
    as [PoolSys] allows, and leaves the sandbox's metadata in agreement with
    what it still owes. *)
From S2P Require Import Prelude Strs Storage Types Metrics Disk Pool PoolLemmas PoolInv PoolFrame PoolSys PoolProps PoolDisk Continuation ContinuationProps GuestScan Mount Frame Inject Annotations Box BlockImage StorageOps Handlers BoxCalm Sandboxer SandboxerInv.

Abbreviation Meta := (option string * option SnapshotType * option TemplateLeaseMode * option MemoryRestoreMode)%type.

Definition of_meta (x : Meta) : RestoreMetadata :=
  mkRestore x.1.1.1 x.1.1.2 x.1.2 None x.2 [].
Lemma owes_of_meta r : owes (of_meta (meta r)) = owes r.
Proof. by apply owes_meta. Qed.

Definition owing (m : option Meta) : option (Claim * string) := x ← m; owes (of_meta x).
Definition cleared : Meta := (None, None, None, None).

Definition key_of `{TemplateCodec} (x : Hold) : Claim * string := (h_claim x, h_id x).

Section paths.
Context `{TemplateCodec} `{HashOrder} (su : Setup) (pc : PoolConfig) (Hsu : template_pool su = Some pc).
Context (cont : string → Prop) (id : string) (rest : list Hold) (others : gmap string Sandbox).
Context (wakes : TemplateKey → list Wake).
Hypothesis Hwakes : ∀ k f, Changed f ∈ wakes k → quiet pc cont f.
Implicit Types (m : option Meta) (hs : list Hold) (h : Host).

Abbreviation working := (working pc cont id rest others).

(** A kind comes with an id; an id without a kind is the id of a continuation
    whose restore failed. *)
Definition settled m : Prop :=
  ∀ x, m = Some x →
    match x.1.1.1, x.1.1.2 with
    | None, Some _ => False
    | Some tid, None => cont tid
    | _, _ => True
    end.

Lemma settled_cleared : settled (Some cleared).
Proof. by intros x [= <-]. Qed.

(** ** Sequencing *)
Lemma hoare_do (c k : M Host (result unit SbError)) hs m Q :
  keeps id c → (∀ e h, working hs m h → Q (Err e) h) → hoare (working hs m) k Q →
  hoare (working hs m) (r ← c; match r with Ok _ => k | Err e => mret (Err e) end) Q.
Proof.
  intros Hc He Hk. eapply hoare_bind; [by apply hoare_keeps|]. intros [u|e]; [done|].
  apply hoare_ret. intros h. apply He.
Qed.

Lemma hoare_try_else (c k : M Host (result unit SbError)) (d : M Host unit) hs m Q :
  keeps id c → (∀ e, hoare (working hs m) d (λ _, Q (Err e))) → hoare (working hs m) k Q →
  hoare (working hs m) (r ← c; match r with Ok _ => k | Err e => d;; mret (Err e) end) Q.
Proof.
  intros Hc Hd Hk. eapply hoare_bind; [by apply hoare_keeps|]. intros [u|e]; [done|].
  eapply hoare_bind; [apply (Hd e)|]. intros []. by apply hoare_ret.
Qed.

Lemma hoare_seq_keeps {A B} (c : M Host A) (k : A → M Host B) hs m Q :
  keeps id c → (∀ a, hoare (working hs m) (k a) Q) → hoare (working hs m) (c ≫= k) Q.
Proof. intros Hc. apply hoare_bind. by apply hoare_keeps. Qed.

Lemma hoare_this hs m :
  hoare (working hs m) (this id) (λ o h, (meta ∘ sb_restore <$> o = m) ∧ working hs m h).
Proof. apply hoare_gets. intros h Hh. split; [apply Hh|done]. Qed.

Lemma hoare_restore hs x :
  hoare (working hs (Some x)) (field id sb_restore no_restore) (λ r h, meta r = x ∧ working hs (Some x) h).
Proof.
  unfold field. eapply hoare_bind; [apply hoare_this|]. intros o. apply hoare_pure. intros Eo.
  destruct o as [b|]; [|done]. injection Eo as Eb. by apply hoare_ret.
Qed.

Lemma hoare_clear hs m :
  hoare (working hs m) (clear_template_restore_state id) (λ _, working hs ((λ _, cleared) <$> m)).
Proof. by apply hoare_set_meta. Qed.

(** ** [start_from_snapshot] *)
Definition meta_of (p : SnapshotRestoreParams) : Meta :=
  (rp_template_id p, Some (rp_snapshot_type p), Some (rp_lease_mode p),
   Some (default_memory_restore_mode (snapshot su))).

(** The extra claim of an Environment sandbox whose memory is not copied. *)
Definition pins (p : SnapshotRestoreParams) (x : Hold) : list Hold :=
  if pins_environment (of_meta (meta_of p)) then [pin_of x] else [].

Lemma pins_environment_meta r p : meta r = meta_of p → pins_environment r = pins_environment (of_meta (meta_of p)).
Proof. unfold meta, meta_of, pins_environment. intros [= _ E1 _ E2]. simpl. by rewrite E1, E2. Qed.

Lemma pin_environment_spec p x hs :
  rp_template_id p = Some (h_id x) →
  (rp_snapshot_type p = Environment → h_claim x = Restoring ∧ x ∈ hs) →
  hoare (working hs (Some (meta_of p))) (pin_environment su id)
    (λ b h, b = pins_environment (of_meta (meta_of p)) ∧ working (pins p x ++ hs) (Some (meta_of p)) h).
Proof.
  intros Ht Hx. unfold pin_environment. eapply hoare_bind; [apply hoare_restore|].
  intros r. apply hoare_pure. intros Er. assert (template_id r = Some (h_id x)) as Et.
  { rewrite <- Ht. exact (f_equal (λ y : Meta, y.1.1.1) Er). }
  cbv beta. rewrite Et, Hsu, (pins_environment_meta r p Er). unfold pins.
  destruct (pins_environment (of_meta (meta_of p))) eqn:Ep; [|by apply hoare_ret].
  destruct Hx as [Hc Hin].
  { unfold pins_environment in Ep. apply andb_true_iff in Ep as [Ep%bool_decide_eq_true _]. by injection Ep. }
  eapply hoare_bind; [apply hoare_pool, (steps_pin pc cont x hs Hc Hin)|]. intros [].
  apply hoare_ret. by intros h (hs' & -> & Hw).
Qed.

Lemma rollback_spec p x hs :
  rp_template_id p = Some (h_id x) →
  hoare (working (pins p x ++ hs) (Some (meta_of p)))
    (rollback_post_restore su id (pins_environment (of_meta (meta_of p))))
    (λ _, working hs (Some cleared)).
Proof.
  intros Ht. unfold rollback_post_restore. eapply hoare_bind; [apply hoare_restore|].
  intros r. apply hoare_pure. intros Er. assert (template_id r = Some (h_id x)) as Et.
  { rewrite <- Ht. exact (f_equal (λ y : Meta, y.1.1.1) Er). }
  cbv beta. rewrite Et, Hsu. unfold pins.
  eapply (hoare_bind _ _ _ (λ _, working hs (Some (meta_of p)))).
  { destruct (pins_environment (of_meta (meta_of p))); [|by apply hoare_ret].
    eapply hoare_conseq; [apply hoare_pool, (steps_deref pc cont (pin_of x) hs eq_refl)|done|].
    by intros [] h (hs' & -> & Hw). }
  intros []. eapply hoare_bind; [apply hoare_clear|]. intros [].
  apply hoare_seq_keeps; [eauto with keep|]. intros [|]; [|by apply hoare_ret].
  apply hoare_keeps. eauto with keep.
Qed.

Lemma start_from_snapshot_spec p x hs m0 :
  rp_template_id p = Some (h_id x) →
  (rp_snapshot_type p = Environment → h_claim x = Restoring ∧ x ∈ hs) →
  hoare (working hs m0) (start_from_snapshot su id p)
    (λ r h, match r with
            | Ok _ => working (pins p x ++ hs) (Some (meta_of p)) h
            | Err _ => working hs m0 h ∨ working hs (Some cleared) h
            end).
Proof.
  intros Ht Hx. unfold start_from_snapshot. eapply hoare_bind; [apply hoare_this|]. intros o.
  apply hoare_pure. intros Eo. destruct o as [b|]; [|apply hoare_ret; by left].
  apply hoare_do; [eauto with keep|by left|].
  apply hoare_try_else; [case_match; eauto with keep|intros e; eapply hoare_conseq; [apply hoare_keeps; eauto with keep|done|by left]|].
  eapply hoare_bind; [by apply (hoare_set_meta _ _ _ _ _ _ _ _ (meta_of p))|]. intros [].
  rewrite <- Eo. cbn [fmap option_fmap option_map].
  apply hoare_try_else; [eauto with keep| |].
  { intros e. eapply hoare_bind; [apply hoare_clear|]. intros [].
    eapply hoare_conseq; [apply hoare_keeps; eauto with keep|done|]. intros [] h Hw. by right. }
  eapply hoare_bind; [by apply (pin_environment_spec p x hs)|]. intros pinned. apply hoare_pure. intros ->.
  assert (∀ e : SbError, hoare (working (pins p x ++ hs) (Some (meta_of p)))
    (rollback_post_restore su id (pins_environment (of_meta (meta_of p))))
    (λ _ h, working hs (Some (meta (sb_restore b))) h ∨ working hs (Some cleared) h)) as Hroll.
  { intros e. eapply hoare_conseq; [by apply rollback_spec|done|]. by right. }
  apply hoare_seq_keeps; [by apply keeps_upd|]. intros [].
  apply hoare_try_else; [eauto with keep|exact Hroll|].
  apply hoare_try_else; [eauto with keep|exact Hroll|].
  apply hoare_try_else; [eauto with keep|exact Hroll|].
  by apply hoare_ret.
Qed.

(** ** Leases *)
Lemma hoare_or {A} (c : M Host A) P P' Q : hoare P c Q → hoare P' c Q → hoare (λ h, P h ∨ P' h) c Q.
Proof. intros H1 H2 h [Hh|Hh]; [by apply H1|by apply H2]. Qed.

(** How an attempt ends: the sandbox holds what its metadata says, and
    nothing when the attempt failed. *)
Definition ended (r : result unit SbError) h : Prop :=
  ∃ m hs, working hs m h ∧ key_of <$> hs = option_list (owing m) ∧ settled m ∧
    match r with Err _ => hs = [] | Ok _ => True end.

Lemma ended_err m e h : settled m → owing m = None → working [] m h → ended (Err e) h.
Proof. intros Hs Ho Hw. exists m, []. by rewrite Ho. Qed.

Lemma fail_lease_spec x k m :
  h_claim x = claim_of k →
  hoare (working [x] m) (fail_lease pc (mkLease (h_tmpl x) k)) (λ _, working [] m).
Proof.
  intros Hk. unfold fail_lease. eapply hoare_conseq; [by apply hoare_pool, steps_fail|done|].
  by intros [] h (hs' & -> & Hw).
Qed.

Lemma miss_spec x k m e :
  h_claim x = claim_of k → settled m → owing m = None →
  hoare (working [x] m) (miss pc (mkLease (h_tmpl x) k)) (λ _, ended (Err e)).
Proof.
  intros Hk Hs Ho. unfold miss. eapply hoare_bind; [by apply fail_lease_spec|]. intros [].
  eapply hoare_conseq; [apply hoare_keeps, keeps_count|done|]. intros [] h. by apply ended_err.
Qed.

Lemma fail_with_spec x k m e :
  h_claim x = claim_of k → settled m → owing m = None →
  hoare (working [x] m) (fail_lease pc (mkLease (h_tmpl x) k);; mret (Err e)) ended.
Proof.
  intros Hk Hs Ho. eapply hoare_bind; [by apply fail_lease_spec|]. intros [].
  apply hoare_ret. intros h. by apply ended_err.
Qed.

Lemma miss_with_spec x k m e :
  h_claim x = claim_of k → settled m → owing m = None →
  hoare (working [x] m) (miss pc (mkLease (h_tmpl x) k);; mret (Err e)) ended.
Proof.
  intros Hk Hs Ho. eapply hoare_bind; [by apply (miss_spec x k m e)|]. intros []. by apply hoare_ret.
Qed.

Lemma complete_spec x k fr m :
  h_claim x = claim_of k →
  hoare (working (fr ++ [x]) m) (in_pool (lease_complete pc (mkLease (h_tmpl x) k)))
    (λ _, working (completed x ++ fr) m).
Proof.
  intros Hk. eapply hoare_conseq; [apply hoare_pool, steps_frame, (steps_complete pc cont x k Hk)| |].
  - intros h. apply working_perm. by rewrite Permutation_app_comm.
  - by intros [] h (hs' & (hs0 & -> & ->) & Hw).
Qed.

(** [start_from_snapshot] under a lease: the lease is completed or failed. *)
Lemma restore_under_lease x k m0 p (hit : TemplateMetrics → TemplateMetrics) :
  h_claim x = claim_of k → settled m0 → owing m0 = None →
  rp_template_id p = Some (h_id x) →
  (rp_snapshot_type p = Environment → h_claim x = Restoring) →
  key_of <$> completed x ++ pins p x = option_list (owing (Some (meta_of p))) →
  hoare (working [x] m0)
    (r ← start_from_snapshot su id p;
     match r with
     | Ok _ => count hit;; in_pool (lease_complete pc (mkLease (h_tmpl x) k));; mret (Ok tt)
     | Err e => miss pc (mkLease (h_tmpl x) k);; mret (Err e)
     end) ended.
Proof.
  intros Hk Hs Ho Ht Henv Hkeys. eapply hoare_bind.
  { apply (start_from_snapshot_spec p x [x] m0 Ht). intros He. split; [by apply Henv|by left]. }
  intros [[]|e].
  - apply hoare_seq_keeps; [apply keeps_count|]. intros [].
    eapply hoare_bind; [by apply complete_spec|]. intros []. apply hoare_ret. intros h Hw.
    exists (Some (meta_of p)), (completed x ++ pins p x). split_and!; try done.
    intros y [= <-]. simpl. by rewrite Ht.
  - apply hoare_or; [by apply (miss_with_spec x k m0 e)|].
    apply (miss_with_spec x k (Some cleared) e); [done|apply settled_cleared|done].
Qed.

Lemma environment_restore_spec x m0 :
  h_claim x = Restoring → settled m0 → owing m0 = None →
  hoare (working [x] m0) (restore_from_environment_template su id pc (mkLease (h_tmpl x) SharedLease) Shared) ended.
Proof.
  intros Hc Hs Ho. unfold restore_from_environment_template. simpl.
  apply hoare_seq_keeps; [eauto with keep|]. intros ok. case_match; [by apply (miss_with_spec x SharedLease)|].
  apply (restore_under_lease x SharedLease); try done.
  unfold completed. rewrite Hc. unfold pins, owing. cbn [app mbind option_bind].
  change (owes ?r) with (if pins_environment r then Some (Referencing, h_id x) else None).
  by destruct (pins_environment _).
Qed.

Lemma warm_fork_restore_spec x k m0 :
  h_claim x = claim_of k → lease_kind pc (h_tmpl x) = Some k → snapshot_type (h_tmpl x) = WarmFork →
  settled m0 → owing m0 = None →
  hoare (working [x] m0) (restore_from_warm_fork_template su id pc (mkLease (h_tmpl x) k) (lease_mode pc)) ended.
Proof.
  intros Hc Hk Hty Hs Ho. unfold restore_from_warm_fork_template. simpl.
  case_bool_decide; [by apply (miss_with_spec x k)|].
  apply hoare_seq_keeps; [eauto with keep|]. intros ok. case_match; [by apply (miss_with_spec x k)|].
  apply hoare_seq_keeps; [eauto with keep|]. intros ann.
  destruct (parse_warm_fork_params _) as [wp|e]; [|by apply (miss_with_spec x k)].
  destruct (overlay_targets _ wp) as [wp'|]; [|by apply (miss_with_spec x k)].
  apply (restore_under_lease x k); try done.
  unfold pins, pins_environment, owing, owes, completed. simpl.
  unfold lease_kind in Hk. rewrite Hty in Hk. destruct (lease_mode pc); simpl in *; simplify_eq/=; rewrite Hc; cbn; unfold key_of; cbn; rewrite ?Hc; done.
Qed.

Lemma lease_new_spec t k :
  lease_kind pc t = Some k → ∀ w, lease_new pc t w = Some (mkLease t k, w).
Proof. intros Hk w. unfold lease_new. by rewrite Hk. Qed.

Lemma hoare_lease_new x k m0 (c : TemplateLease → M Host (result unit SbError)) Q :
  lease_kind pc (h_tmpl x) = Some k → hoare (working [x] m0) (c (mkLease (h_tmpl x) k)) Q →
  hoare (working [x] m0) (l ← in_pool (lease_new pc (h_tmpl x)); c l) Q.
Proof.
  intros Hk Hc h Hh. destruct (Hc h Hh) as (r & h' & E & HQ). exists r, h'. split; [|done].
  unfold mbind, M_bind, in_pool. rewrite (lease_new_spec _ _ Hk). by destruct h.
Qed.

Lemma start_with_template_key_spec k m0 :
  settled m0 → owing m0 = None →
  hoare (working [] m0) (start_with_template_key su wakes id k) ended.
Proof.
  intros Hs Ho. unfold start_with_template_key. rewrite Hsu.
  eapply hoare_bind; [apply hoare_pool, steps_acquire_or_wait, Hwakes|]. intros [t|].
  - intros h (hs' & (x & kd & -> & <- & Hk & Hc) & Hw). revert h Hw.
    change (hoare (working [x] m0) (l ← in_pool (lease_new pc (h_tmpl x));
      match snapshot_type (h_tmpl x) with
      | Environment => restore_from_environment_template su id pc l Shared
      | WarmFork => if enable_warmfork_restore (snapshot su)
                    then restore_from_warm_fork_template su id pc l (lease_mode pc)
                    else miss pc l;; mret (Err RestoreDisabled)
      | Continuation => panic
      end) ended).
    apply (hoare_lease_new x kd); [done|].
    pose proof Hk as Hk'. unfold lease_kind in Hk'. destruct (snapshot_type (h_tmpl x)) eqn:Ety; [| |done].
    + injection Hk' as <-. by apply environment_restore_spec.
    + destruct (enable_warmfork_restore (snapshot su)); [by apply (warm_fork_restore_spec x kd)|by apply (miss_with_spec x kd)].
  - eapply hoare_conseq; [|intros h (hs' & -> & Hw); exact Hw|done].
    apply hoare_seq_keeps; [apply keeps_count|]. intros []. apply hoare_ret. intros h. by apply ended_err.
Qed.

(** The lease of an Environment template found by id is dropped: its pin
    stays in the pool. *)
Lemma working_leak x m h : h_claim x = Restoring → working [x] m h → working [] m h.
Proof.
  intros Hc [(s & l & Hr & Ew & Eh & Hl) D S O M]. split; try done.
  exists s, (x :: l). split_and!; [done|done|done|]. by constructor.
Qed.

Lemma start_with_template_id_spec tid k m0 :
  settled m0 → owing m0 = None →
  hoare (working [] m0) (start_with_template_id su id tid k) ended.
Proof.
  intros Hs Ho. unfold start_with_template_id. rewrite Hsu.
  eapply hoare_bind; [by apply hoare_pool, (steps_ask pc cont (ById tid))|]. intros [t|].
  - intros h (hs' & (x & kd & -> & <- & Hk & Hc) & Hw). revert h Hw.
    match goal with |- ∀ h, _ → ∃ a s', ?c h = _ ∧ ended _ _ => change (hoare (working [x] m0) c ended) end.
    case_bool_decide as Ety; simpl.
    2:{ apply hoare_ret. intros h Hw. apply (ended_err m0); [done|done|].
        apply (working_leak x); [|done]. rewrite Hc. unfold lease_kind in Hk.
        destruct (snapshot_type (h_tmpl x)); [by injection Hk as <-|done|done]. }
    apply (hoare_lease_new x kd); [done|].
    destruct (negb (match k with Some _ => _ | None => true end)); [by apply (fail_with_spec x kd)|].
    destruct (enable_warmfork_restore (snapshot su)); simpl;
      [by apply (warm_fork_restore_spec x kd)|by apply (miss_with_spec x kd)].
  - eapply hoare_conseq; [|intros h (hs' & -> & Hw); exact Hw|done].
    apply hoare_ret. intros h. by apply ended_err.
Qed.

(** ** Continuations *)
Lemma hoare_store {A} (c : M CStore A) (R : A → Prop) hs m :
  hoare (cont_store cont) c (λ a s, cont_store cont s ∧ R a) →
  hoare (working hs m) (in_store c) (λ a h, R a ∧ working hs m h).
Proof.
  intros Hc h [C D S O M]. destruct (Hc (store h) S) as (a & c' & E & Hc' & HR).
  exists a, (mkHost (pool h) c' (metrics h) (sandboxes h) (ext h) (trace h)).
  unfold in_store. rewrite E. done.
Qed.

Lemma c_fail_spec t hs m : hoare (working hs m) (in_store (c_fail t)) (λ _, working hs m).
Proof.
  eapply hoare_conseq; [apply (hoare_store _ (λ _, True))|done|by intros [] h []].
  eapply hoare_conseq; [apply (sound_fail cont t)|done|done].
Qed.

Lemma continuation_spec w m0 :
  settled m0 → owing m0 = None →
  hoare (working [] m0) (start_with_continuation_snapshot su id w) ended.
Proof.
  intros Hs Ho. unfold start_with_continuation_snapshot.
  case_match; [apply hoare_ret; intros h; by apply ended_err|].
  eapply hoare_bind; [apply (hoare_store _ (λ o, ∀ t, o = Some t → cont (pt_id t))), sound_acquire|].
  intros [t|]; apply hoare_pure; intros Ht; [|apply hoare_ret; intros h; by apply ended_err].
  specialize (Ht t eq_refl).
  set (m1 := (λ y : Meta, (Some (pt_id t), y.1.1.2, y.1.2, y.2)) <$> m0).
  assert (settled m1) as Hs1.
  { intros y Hy. unfold m1 in Hy. destruct m0 as [y0|]; [|done]. injection Hy as <-. simpl. by case_match. }
  assert (owing m1 = None) as Ho1.
  { destruct m0 as [[[[i ty] lm] mo]|]; [|done]. specialize (Hs _ eq_refl). simpl in Hs.
    unfold owing, owes, pins_environment in *. simpl in *. destruct ty as [[]|], i; simpl in *; try done; repeat case_match; done. }
  eapply (hoare_bind _ _ _ (λ _, working [] m1)).
  { apply hoare_modify. intros h [C D S O M]. split; try done; simpl.
    - intros j Hj. rewrite lookup_alter_ne by done. by apply O.
    - unfold m1. rewrite <- M, lookup_alter_eq. by destruct (sandboxes h !! id). }
  intros []. apply hoare_seq_keeps; [eauto with keep|]. intros ok. case_match.
  - eapply hoare_bind; [apply hoare_clear|]. intros []. eapply hoare_bind; [apply c_fail_spec|]. intros [].
    apply hoare_ret. intros h. apply ended_err; destruct m1; try done; apply settled_cleared.
  - eapply hoare_bind.
    { apply (start_from_snapshot_spec _ (mkHold t Restoring None) [] m1); [done|done]. }
    intros [[]|e].
    + apply hoare_ret. intros h Hw. eexists _, _. split; [exact Hw|]. split; [done|]. split; [|done].
      by intros y [= <-].
    + eapply (hoare_bind _ _ _ (λ _, ended (Err e))); [|intros []; by apply hoare_ret].
      apply hoare_or; (eapply hoare_conseq; [apply c_fail_spec|done|]); intros [] h; apply ended_err; try done.
      apply settled_cleared.
Qed.

(** ** Without a snapshot *)
Lemma apply_pool_settings_spec m0 :
  settled m0 → owing m0 = None →
  hoare (working [] m0) (apply_pool_settings su id)
    (λ _ h, ∃ m, settled m ∧ owing m = None ∧ working [] m h).
Proof.
  intros Hs Ho. unfold apply_pool_settings. rewrite Hsu.
  set (m1 := (λ y : Meta, (y.1.1.1, y.1.1.2, Some (lease_mode pc), y.2)) <$> m0).
  apply hoare_modify. intros h [C D S O M]. exists m1. split_and!.
  - intros y Hy. unfold m1 in Hy. destruct m0 as [y0|]; [|done]. injection Hy as <-. by apply (Hs y0).
  - destruct m0 as [[[[i ty] lm] mo]|]; [|done]. specialize (Hs _ eq_refl). simpl in Hs.
    unfold owing, owes, pins_environment in *. simpl in *. destruct ty as [[]|], i; simpl in *; try done; repeat case_match; done.
  - split; try done; simpl.
    + intros j Hj. rewrite lookup_alter_ne by done. by apply O.
    + unfold m1. rewrite <- M, lookup_alter_eq. by destruct (sandboxes h !! id).
Qed.

Lemma keeps_ended {A} (c : M Host A) (f : A → result unit SbError) m0 :
  settled m0 → owing m0 = None → keeps id c → hoare (working [] m0) (a ← c; mret (f a)) ended.
Proof.
  intros Hs Ho Hc. eapply hoare_bind; [by apply hoare_keeps|]. intros a. apply hoare_ret. intros h Hw.
  exists m0, []. rewrite Ho. split_and!; try done. by destruct (f a).
Qed.

Lemma cold_start_spec m0 :
  settled m0 → owing m0 = None → hoare (working [] m0) (cold_start su id) ended.
Proof.
  intros Hs Ho. unfold cold_start. eapply hoare_bind; [apply hoare_this|]. intros o.
  apply hoare_pure. intros _. destruct o as [b|]; [|apply hoare_ret; intros h; by apply ended_err].
  eapply hoare_bind; [by apply apply_pool_settings_spec|]. intros [].
  intros h (m & Hs' & Ho' & Hw). revert h Hw.
  match goal with |- ∀ h, _ → ∃ a s', ?c h = _ ∧ ended _ _ =>
    cut (keeps id c); [intros Hk h Hw; destruct (Hk h) as (r & h' & E & Hst); exists r, h'; split; [done|];
      exists m, []; rewrite Ho'; split_and!; [by eapply working_still|done|done|by destruct r]|] end.
  keep.
Qed.

Lemma environment_or_cold_spec m0 :
  settled m0 → owing m0 = None → hoare (working [] m0) (environment_or_cold su wakes id) ended.
Proof.
  intros Hs Ho. unfold environment_or_cold.
  eapply (hoare_bind _ _ _ ended).
  { case_match; [by apply start_with_template_key_spec|]. apply hoare_ret. intros h. by apply ended_err. }
  intros [[]|e]; [by apply hoare_ret|]. intros h (m & hs & Hw & Hk & Hs' & ->).
  assert (owing m = None) as Ho' by (by destruct (owing m)). revert h Hw.
  case_match; [intros h Hw; eexists _, _; split; [done|by eapply ended_err]|]. by apply cold_start_spec.
Qed.

(** ** [start] *)
Lemma start_warm_fork_spec i c m0 :
  settled m0 → owing m0 = None → start_warm_fork su wakes id i = Some c → hoare (working [] m0) c ended.
Proof.
  intros Hs Ho. unfold start_warm_fork.
  destruct (i_template_id i) as [tid|]; [intros [= <-]; by apply start_with_template_id_spec|].
  destruct (i_template_key i) as [k|]; [intros [= <-]; by apply start_with_template_key_spec|intros Hn; discriminate Hn].
Qed.

Lemma start_with_intent_spec i m0 :
  settled m0 → owing m0 = None → hoare (working [] m0) (start_with_intent su wakes id i) ended.
Proof.
  intros Hs Ho.
  assert (∀ e, hoare (working [] m0) (mret (Err e)) ended) as Herr.
  { intros e. apply hoare_ret. intros h. by apply ended_err. }
  assert (hoare (working [] m0) (match start_warm_fork su wakes id i with
      | None => environment_or_cold su wakes id
      | Some c => r ← c; match r with Ok _ => mret (Ok tt) | Err _ => environment_or_cold su wakes id end
      end) ended) as Himpl.
  { destruct (start_warm_fork su wakes id i) as [c|] eqn:Ec; [|by apply environment_or_cold_spec].
    eapply hoare_bind; [by eapply start_warm_fork_spec|]. intros [[]|e]; [by apply hoare_ret|].
    intros h (m & hs & Hw & Hk & Hs' & ->). assert (owing m = None) as Ho' by (by destruct (owing m)).
    revert h Hw. by apply environment_or_cold_spec. }
  assert (hoare (working [] m0) (if negb (enable_warmfork_restore (snapshot su)) then mret (Err RestoreDisabled)
      else default (mret (Err MissingAnnotation)) (start_warm_fork su wakes id i)) ended) as Hwf.
  { destruct (enable_warmfork_restore (snapshot su)); simpl; [|apply Herr].
    destruct (start_warm_fork su wakes id i) as [c|] eqn:Ec; [|apply Herr]. by eapply start_warm_fork_spec. }
  unfold start_with_intent. destruct (explicit_type i) as [[]|], (cont_identity i) as [w|];
    try exact Hwf; try exact Himpl; try (by apply continuation_spec);
    destruct (enable_continuation_restore (snapshot su)); simpl; try apply Herr; by apply continuation_spec.
Qed.

Lemma start_spec m0 :
  settled m0 → owing m0 = None → hoare (working [] m0) (start su wakes id) ended.
Proof.
  intros Hs Ho. unfold start. case_match; [|by apply cold_start_spec].
  case_match; [|by apply environment_or_cold_spec].
  eapply hoare_bind; [apply hoare_this|]. intros o. apply hoare_pure. intros _.
  destruct o as [b|]; [|apply hoare_ret; intros h; by apply ended_err].
  destruct (parse_snapshot_intent _ _) as [i|e]; [by apply start_with_intent_spec|].
  apply hoare_ret. intros h. by apply ended_err.
Qed.
End paths.
