(* ===== verification/HostInv.v ===== *)
(** * The host invariant

    What the sandboxes of a host owe the pool is exactly what the pool counts:
    the invariant, and that the operations of the sandboxer and the requests to
    the pool and the continuation store keep it. *)
From S2P Require Import Prelude Strs Storage Types Metrics Disk Pool PoolLemmas PoolInv PoolFrame PoolSys PoolProps PoolDisk Continuation ContinuationProps GuestScan Mount Frame Inject Annotations Box BlockImage StorageOps Handlers BoxCalm Sandboxer SandboxerInv SandboxerProps.

Section host.
Context `{TemplateCodec} `{HashOrder} (su : Setup) (pc : PoolConfig) (Hsu : template_pool su = Some pc).
Context (cont : string → Prop).
Implicit Types (h : Host) (id : string).

(** ** What the sandboxes owe *)
Definition owed (m : gmap string Sandbox) : list (Claim * string) :=
  omap (λ p, owes (sb_restore p.2)) (map_to_list m).

Definition owed_by (m : gmap string Sandbox) id : option (Claim * string) :=
  b ← m !! id; owes (sb_restore b).

Lemma owed_split m id : owed m ≡ₚ option_list (owed_by m id) ++ owed (delete id m).
Proof.
  unfold owed, owed_by. destruct (m !! id) as [b|] eqn:E; simpl.
  - rewrite <- (insert_delete_id m id b E) at 1.
    rewrite map_to_list_insert by by rewrite lookup_delete_eq. simpl.
    by destruct (owes (sb_restore b)).
  - by rewrite delete_id.
Qed.

Record host_ok h : Prop := {
  hk_claims : ∃ s l, reachable pc s ∧ world s = pool h ∧ leaked l ∧
                key_of <$> holds s ≡ₚ owed (sandboxes h) ++ (key_of <$> l);
  hk_disk : no_cont cont (pool h);
  hk_store : cont_store cont (store h);
  hk_settled : ∀ id b, sandboxes h !! id = Some b → settled cont (Some (meta (sb_restore b)))
}.

Definition meta_at h id : option Meta := meta ∘ sb_restore <$> sandboxes h !! id.

Lemma owing_at h id : owing (meta_at h id) = owed_by (sandboxes h) id.
Proof.
  unfold meta_at, owed_by, owing. destruct (sandboxes h !! id) as [b|]; simpl; [|done]. by apply owes_meta.
Qed.

(** One sandbox at a time. *)
Lemma leaked_keys l l' : key_of <$> l = key_of <$> l' → leaked l → leaked l'.
Proof.
  unfold leaked. intros E Hl. assert (Forall (λ y : Claim * string, y.1 = Restoring) (key_of <$> l')) as Hf.
  { rewrite <- E. by apply Forall_fmap. }
  by apply Forall_fmap in Hf.
Qed.

(** Split the holders the way their keys are split. *)
Lemma split_keys (hs : list Hold) k1 k2 :
  key_of <$> hs ≡ₚ k1 ++ k2 → ∃ hs1 hs2, hs ≡ₚ hs1 ++ hs2 ∧ key_of <$> hs1 = k1 ∧ key_of <$> hs2 = k2.
Proof.
  intros E. symmetry in E. apply Permutation_map_inv in E as (k & Ek & Hk). symmetry in Ek.
  apply fmap_app_inv in Ek as (hs1 & hs2 & -> & -> & ->). by exists hs1, hs2.
Qed.

Lemma host_ok_working h id :
  host_ok h → ∃ hs rest, working pc cont id rest (sandboxes h) hs (meta_at h id) h ∧
    key_of <$> hs = option_list (owing (meta_at h id)) ∧ settled cont (meta_at h id) ∧
    key_of <$> rest = owed (delete id (sandboxes h)).
Proof.
  intros [(s & l & Hr & Ew & Hl & Ek) D S T].
  rewrite (owed_split (sandboxes h) id), <- (owing_at h id), <- app_assoc in Ek.
  destruct (split_keys _ _ _ Ek) as (hs & k & E1 & Ehs & Ek').
  symmetry in Ek'. destruct (split_keys k (owed (delete id (sandboxes h))) (key_of <$> l)) as (rest & l' & E2 & Er & El).
  { by rewrite Ek'. }
  exists hs, rest. split_and!; [|done| |done].
  - split; try done. exists s, l'. split_and!; [done|done| |by eapply leaked_keys].
    rewrite E1, E2. by rewrite (Permutation_app_comm l' rest).
  - unfold meta_at. destruct (sandboxes h !! id) as [b|] eqn:E; simpl; [by apply (T id)|]. by intros y.
Qed.

Lemma working_host_ok h0 h id rest hs m :
  host_ok h0 → key_of <$> rest = owed (delete id (sandboxes h0)) →
  working pc cont id rest (sandboxes h0) hs m h → key_of <$> hs = option_list (owing m) → settled cont m →
  host_ok h.
Proof.
  intros [_ _ _ T] Er [(s & l & Hr & Ew & Eh & Hl) D S O M] Ek Hs.
  assert (delete id (sandboxes h) = delete id (sandboxes h0)) as Ed.
  { apply map_eq. intros j. rewrite !lookup_delete. case_decide; [done|]. by apply O. }
  split; [|done|done|].
  - exists s, l. split_and!; [done..|]. rewrite Eh, !fmap_app, Ek, Er, <- Ed.
    rewrite (owed_split (sandboxes h) id), <- (owing_at h id). unfold meta_at. rewrite M.
    rewrite <- app_assoc. f_equiv. by rewrite Permutation_app_comm.
  - intros j b Hj. destruct (decide (j = id)) as [->|Hne].
    + rewrite Hj in M. rewrite <- M in Hs. exact Hs.
    + rewrite O in Hj by done. by eapply T.
Qed.

(** An operation on one sandbox, from its specification. *)
Lemma host_op {A} (c : M Host A) id (R : A → Host → Prop) h :
  host_ok h →
  (∀ rest hs, key_of <$> hs = option_list (owing (meta_at h id)) → settled cont (meta_at h id) →
     hoare (working pc cont id rest (sandboxes h) hs (meta_at h id)) c
       (λ a h', R a h' ∧ ∃ m hs', working pc cont id rest (sandboxes h) hs' m h' ∧
                   key_of <$> hs' = option_list (owing m) ∧ settled cont m)) →
  ∃ a h', c h = Some (a, h') ∧ R a h' ∧ host_ok h'.
Proof.
  intros Hok Hc. destruct (host_ok_working h id Hok) as (hs & rest & Hw & Ek & Hs & Er).
  destruct (Hc rest hs Ek Hs h Hw) as (a & h' & E & HR & m & hs' & Hw' & Ek' & Hs').
  exists a, h'. split_and!; [done|done|]. by eapply working_host_ok.
Qed.

Lemma host_keeps {A} (c : M Host A) id h :
  host_ok h → keeps id c → ∃ a h', c h = Some (a, h') ∧ host_ok h'.
Proof.
  intros Hok Hc. destruct (host_op c id (λ _ _, True) h Hok) as (a & h' & E & _ & Hok').
  - intros rest hs Ek Hs. eapply hoare_conseq; [by apply hoare_keeps|done|].
    intros a h' Hw. split; [done|]. by exists (meta_at h id), hs.
  - eauto.
Qed.

Lemma host_start wakes id h :
  (∀ k f, Changed f ∈ wakes k → quiet pc cont f) →
  host_ok h → owed_by (sandboxes h) id = None →
  ∃ r h', start su wakes id h = Some (r, h') ∧ host_ok h' ∧
    (∀ j, j ≠ id → sandboxes h' !! j = sandboxes h !! j) ∧
    (∀ e, r = Err e → owed_by (sandboxes h') id = None).
Proof.
  intros Hq Hok Ho. rewrite <- (owing_at h id) in Ho.
  destruct (host_op (start su wakes id) id
    (λ r h', (∀ j, j ≠ id → sandboxes h' !! j = sandboxes h !! j) ∧
             ∀ e, r = Err e → owed_by (sandboxes h') id = None) h Hok) as (r & h' & E & [HO HR] & Hok'); [|eauto 7].
  intros rest hs Ek Hs. rewrite Ho in Ek. destruct hs; [|done].
  eapply hoare_conseq; [by apply (start_spec su pc Hsu cont id rest (sandboxes h) wakes Hq (meta_at h id))|done|].
  intros r h' (m & hs & Hw & Ek' & Hs' & Hr). split; [|eauto]. split; [apply (wk_others _ _ _ _ _ _ _ _ Hw)|].
  intros e ->. subst hs. rewrite <- (owing_at h' id). unfold meta_at. rewrite (wk_meta _ _ _ _ _ _ _ _ Hw).
  by destruct (owing m).
Qed.

(** ** Deletion *)
Lemma release_spec id rest others x hs r :
  meta r = x → key_of <$> hs = option_list (owes (of_meta x)) → settled cont (Some x) →
  hoare (working pc cont id rest others hs (Some x)) (release_template su r)
    (λ _, working pc cont id rest others [] (Some x)).
Proof.
  intros <- Ek Hs. rewrite owes_of_meta in Ek. specialize (Hs _ eq_refl). simpl in Hs.
  unfold release_template. rewrite Hsu.
  unfold owes in Ek. destruct (template_id r) as [tid|]; simpl in Ek; [|destruct hs; [by apply hoare_ret|done]].
  assert (∀ c tid', key_of <$> hs = [(c, tid')] → ∃ y, hs = [y] ∧ h_claim y = c ∧ h_id y = tid') as Hone.
  { intros c tid' E. destruct hs as [|y [|]]; try done. injection E as E1 E2. by exists y. }
  assert (∀ y : Hold, h_claim y = Referencing → hoare (working pc cont id rest others [y] (Some (meta r)))
    (in_pool (deref pc (h_id y))) (λ _, working pc cont id rest others [] (Some (meta r)))) as Hderef.
  { intros y Hy. eapply hoare_conseq; [apply hoare_pool, (steps_deref pc cont y [] Hy)|done|].
    by intros [] h (hs' & -> & Hw). }
  assert (∀ y : Hold, h_claim y = Consumed → hoare (working pc cont id rest others [y] (Some (meta r)))
    (in_pool (cleanup_consumed (h_id y))) (λ _, working pc cont id rest others [] (Some (meta r)))) as Hclean.
  { intros y Hy. eapply hoare_conseq; [apply hoare_pool, (steps_cleanup pc cont y [] Hy)|done|].
    by intros [] h (hs' & -> & Hw). }
  destruct (template_snapshot_type r) as [[]|].
  - destruct (pins_environment r); [|destruct hs; [by apply hoare_ret|done]].
    destruct (Hone _ _ Ek) as (y & -> & Hc & <-). by apply Hderef.
  - destruct (r_lease_mode r) as [[]|]; destruct (Hone _ _ Ek) as (y & -> & Hc & <-); auto.
  - destruct hs; [|done]. case_match; [|by apply hoare_ret].
    eapply (hoare_bind _ _ _ (λ _, working pc cont id rest others [] (Some (meta r)))); [|intros; by apply hoare_ret].
    eapply hoare_conseq; [eapply (hoare_store pc cont id rest others _ (λ _, True))|done|by intros a h []].
    eapply hoare_conseq; [apply sound_delete_by_id|done|done].
  - destruct hs; [|done]. eapply hoare_conseq; [apply hoare_pool, (steps_cleanup_cont pc cont tid [] Hs)|done|].
    by intros [] h (hs' & -> & Hw).
Qed.

Lemma host_delete id h :
  host_ok h → ∃ r h', delete_sandbox su id h = Some (r, h') ∧ host_ok h' ∧
    (r = Ok tt → sandboxes h' !! id = None).
Proof.
  intros Hok.
  destruct (host_op (delete_sandbox su id) id (λ r h', r = Ok tt → sandboxes h' !! id = None) h Hok)
    as (r & h' & E & HR & Hok'); [|eauto 6].
  intros rest hs Ek Hs. set (Q := λ (r : result unit SbError) h', (r = Ok tt → sandboxes h' !! id = None) ∧
    ∃ m hs', working pc cont id rest (sandboxes h) hs' m h' ∧ key_of <$> hs' = option_list (owing m) ∧ settled cont m).
  assert (∀ hs' m, hoare (working pc cont id rest (sandboxes h) hs' m)
    (set_sandboxes (delete id);; mret (Ok tt)) (λ r h', hs' = [] → Q r h')) as Hdel.
  { intros hs' m. eapply hoare_bind; [apply (hoare_modify _ _ (λ _ h', working pc cont id rest (sandboxes h) hs' None h' ∧ sandboxes h' !! id = None))|].
    - intros h1 [C D S O M]. simpl. split; [|by rewrite lookup_delete_eq]. split; try done; simpl.
      + intros j Hj. rewrite lookup_delete_ne by done. by apply O.
      + by rewrite lookup_delete_eq.
    - intros []. apply hoare_ret. intros h1 [Hw Hn] ->. split; [done|]. exists None, []. split_and!; [done|done|]. by intros y. }
  unfold delete_sandbox. eapply hoare_bind; [apply hoare_this|]. intros o. apply hoare_pure. intros Eo.
  destruct o as [b|]; simpl in Eo.
  - rewrite <- Eo in *. simpl in Ek.
    assert (∀ e h1, working pc cont id rest (sandboxes h) hs (Some (meta (sb_restore b))) h1 → Q (Err e) h1) as HQ.
    { intros e h1 Hw. split; [done|]. by exists (Some (meta (sb_restore b))), hs. }
    eapply (hoare_bind _ _ _ (λ r h1, match r with
      | Ok _ => working pc cont id rest (sandboxes h) [] (Some (meta (sb_restore b))) h1
      | Err e => Q (Err e) h1 end)).
    + unfold delete_held.
      apply hoare_do; [eauto with keep|exact HQ|].
      apply hoare_do; [case_match; eauto with keep|exact HQ|].
      apply hoare_do; [eauto with keep|exact HQ|].
      apply hoare_do; [eauto with keep|exact HQ|].
      eapply hoare_bind; [apply hoare_restore|]. intros r. apply hoare_pure. intros Er.
      eapply hoare_bind; [by apply (release_spec id rest (sandboxes h) (meta (sb_restore b)) hs r)|].
      intros []. by apply hoare_ret.
    + intros [[]|e]; [|by apply hoare_ret].
      eapply hoare_conseq; [apply (Hdel [])|done|]. intros r h1 Hr. by apply Hr.
  - rewrite <- Eo in *. simpl in Ek. destruct hs; [|done].
    eapply hoare_bind; [apply (hoare_ret (Ok tt) _ (λ r h1, r = Ok tt ∧ working pc cont id rest (sandboxes h) [] None h1)); by intros|].
    intros r. apply hoare_pure. intros ->.
    eapply hoare_conseq; [apply (Hdel [])|done|]. intros r h1 Hr. by apply Hr.
Qed.

(** ** Creation *)
Lemma host_create id base netns ann pid cg h :
  host_ok h → ∃ r h', create su id base netns ann pid cg h = Some (r, h') ∧ host_ok h'.
Proof.
  intros Hok. destruct (host_op (create su id base netns ann pid cg) id (λ _ _, True) h Hok)
    as (r & h' & E & _ & Hok'); [|eauto].
  intros rest hs Ek Hs. set (Q := λ (r : result unit SbError) h', True ∧
    ∃ m hs', working pc cont id rest (sandboxes h) hs' m h' ∧ key_of <$> hs' = option_list (owing m) ∧ settled cont m).
  assert (∀ (r : result unit SbError) h1, working pc cont id rest (sandboxes h) hs (meta_at h id) h1 → Q r h1) as HQ.
  { intros r h1 Hw. split; [done|]. by exists (meta_at h id), hs. }
  unfold create. eapply hoare_bind; [apply hoare_this|]. intros o. apply hoare_pure. intros Eo.
  destruct o as [b|]; [apply hoare_ret; intros h1; apply HQ|]. simpl in Eo.
  apply hoare_try_else; [case_match; eauto with keep|intros e; eapply hoare_conseq; [apply hoare_keeps; keep|done|]; intros; by apply HQ|].
  do 4 (apply hoare_do; [eauto with keep|by intros; apply HQ|]).
  rewrite <- Eo in *. simpl in Ek. destruct hs; [|done].
  eapply hoare_bind; [apply (hoare_modify _ _ (λ _ h', working pc cont id rest (sandboxes h) [] (Some cleared) h'))|].
  - intros h1 [C D S O M]. split; try done; simpl.
    + intros j Hj. rewrite lookup_insert_ne by done. by apply O.
    + by rewrite lookup_insert_eq.
  - intros []. apply hoare_ret. intros h1 Hw. split; [done|]. exists (Some cleared), []. split_and!; [done|done|].
    by intros y [= <-].
Qed.

(** ** Requests to the pool and to the store *)
Lemma reachable_io s l : reachable pc s → reachable pc (mkSys (set_io l (world s)) (holds s)).
Proof.
  intros Hr. set (i := fresh (set_map (D := gset string) snd (dom (disk (world s))))).
  assert (∀ sd, disk (world s) !! (sd, i) = None) as Hi.
  { intros sd. apply not_elem_of_dom. intros Hin.
    apply (is_fresh (set_map (D := gset string) snd (dom (disk (world s))))). apply elem_of_map.
    by exists (sd, i). }
  eapply reachable_step; [done|].
  apply (step_serve pc s (IoOk :: IoOk :: IoOk :: l) (RCleanup i)); [done|].
  simpl. unfold cleanup_consumed, find_template_dir, dir_exists, marker_exists, io_next. munfold. simpl.
  repeat (rewrite Hi; simpl). done.
Qed.

Lemma host_reload h l c e :
  host_ok h →
  host_ok (mkHost (set_io l (pool h)) (mkCStore (tree (store h)) c) (metrics h) (sandboxes h) e (trace h)).
Proof.
  intros [(s & k & Hr & Ew & Hl & Ek) D S T]. split; [|done| |done]; simpl.
  - exists (mkSys (set_io l (world s)) (holds s)), k. split_and!; simpl; [by apply reachable_io|by rewrite Ew|done|done].
  - intros i x j t. rewrite (lookup_io i _ c (cio (store h))). destruct (store h) as [tr q]. apply S.
Qed.

Lemma host_store {A} (c : M CStore A) h :
  host_ok h → sound cont c → ∃ a h', in_store c h = Some (a, h') ∧ host_ok h'.
Proof.
  intros [C D S T] Hc. destruct (Hc (store h) S) as (a & c' & E & Hc').
  exists a, (mkHost (pool h) c' (metrics h) (sandboxes h) (ext h) (trace h)). unfold in_store. by rewrite E.
Qed.

(** An id no template has and no sandbox was restored from. *)
Definition free_id h (i : string) : Prop :=
  fresh_id i (avail (pool h)) ∧ ¬ cont i ∧
  ∀ id b, sandboxes h !! id = Some b → template_id (sb_restore b) ≠ Some i.

(** A request of the admin service or the refill task. *)
Definition pool_allowed h (r : Request) : Prop :=
  match r with
  | RAdd t => snapshot_type t ≠ Continuation ∧ free_id h (pt_id t)
  | RPrepare d | RDiscard d => free_id h d.2
  | RCleanup _ => False
  | _ => True
  end.

(** Nobody holds a claim on a free id. *)
Lemma free_id_held h s l i :
  reachable pc s → world s = pool h → leaked l → key_of <$> holds s ≡ₚ owed (sandboxes h) ++ (key_of <$> l) →
  free_id h i → ∀ x, x ∈ holds s → h_id x ≠ i.
Proof.
  intros Hr Ew Hl Ek (Hf & _ & Hs) x Hx Ex.
  assert (key_of x ∈ owed (sandboxes h) ++ (key_of <$> l)) as Hk.
  { rewrite <- Ek. apply list_elem_of_fmap. eauto. }
  apply elem_of_app in Hk as [Hk|Hk].
  - apply list_elem_of_omap in Hk as ([id b] & Hb & Ho). apply elem_of_map_to_list in Hb. simpl in Ho.
    apply (Hs id b Hb). unfold owes in Ho. destruct (template_id (sb_restore b)); [|done]. simpl in Ho.
    repeat case_match; simplify_eq/=; unfold key_of in *; congruence.
  - apply list_elem_of_fmap in Hk as (y & Ey & Hy).
    pose proof (proj1 (Forall_forall _ _) Hl y Hy) as Hc.
    assert (h_claim x = Restoring) as Hc' by (injection Ey as E1 E2; congruence).
    destruct (so_hold _ _ (reachable_ok pc s Hr) x Hx) as [_ Hp _]. rewrite Hc', Ew in Hp.
    by apply (Hf (h_tmpl x) Hp).
Qed.
Lemma pool_allowed_sys h s l r :
  reachable pc s → world s = pool h → leaked l → key_of <$> holds s ≡ₚ owed (sandboxes h) ++ (key_of <$> l) →
  pool_allowed h r → allowed s r.
Proof.
  intros Hr Ew Hl Ek. pose proof (free_id_held h s l) as Hfree. destruct r; try done; simpl; rewrite ?Ew.
  - intros [Hty Hf]. split_and!; [done|apply Hf|]. by apply Hfree.
  - intros Hf. by apply Hfree.
  - intros Hf. by apply Hfree.
Qed.

Lemma template_dir_id t (d : DirKey) : template_dir t = Some d → d.2 = pt_id t.
Proof. unfold template_dir. destruct (snapshot_type t); simpl; by intros [= <-]. Qed.

Lemma host_pool r h :
  host_ok h → pool_allowed h r → ∃ h', in_pool (serve pc r) h = Some (tt, h') ∧ host_ok h'.
Proof.
  intros [(s & l & Hr & Ew & Hl & Ek) D S T] Ha.
  pose proof (pool_allowed_sys h s l r Hr Ew Hl Ek Ha) as Hal.
  destruct (serve_ok pc s r Hal (world s)) as ([] & w' & E & _); [split; [apply (reachable_ok pc s Hr)|done]|].
  exists (mkHost w' (store h) (metrics h) (sandboxes h) (ext h) (trace h)).
  unfold in_pool. rewrite <- Ew, E. split; [done|]. split; [|simpl|done|done].
  - exists (mkSys w' (holds s)), l. split_and!; try done.
    eapply reachable_step; [done|]. apply (step_serve pc s (io (world s)) r); [done|]. by rewrite set_io_same.
  - rewrite <- Ew in D. eapply (serve_placed pc (λ d _, ¬ cont d.2) (λ t, ¬ cont (pt_id t))); [done| | | | |exact D|exact E].
    + intros t d Ht Hd. by rewrite (template_dir_id _ _ Hd).
    + intros t d x Ht Hd. by rewrite (template_dir_id _ _ Hd).
    + intros t ->. by destruct Ha as (_ & _ & Hc & _).
    + intros d ->. by destruct Ha as (_ & Hc & _).
Qed.
End host.
