(* ===== verification/Builder.v ===== *)
(** * Building templates and the background tasks

    [vmm/sandbox/src/sandbox.rs]: the worker that boots a bare VM and snapshots
    it into the pool, the start-up of the pool and the continuation store, the
    refill task, the maintenance task and the collector of the continuation
    store. The loop of a background task is one round here; a spawned task is a
    computation of its own, noted in the trace when it is spawned. *)
From S2P Require Import Prelude Strs Storage Types Metrics Disk Pool Continuation GuestScan Mount Frame Inject Annotations Box BlockImage StorageOps Handlers Sandboxer.
Open Scope box_scope.

(** ** Data *)
Record CreateTemplateRequest := mkTemplateRequest {
  ct_id : string;
  ct_key : option string;
  ct_vcpus : option N;
  ct_memory_mb : option N;
  ct_lease_mode : TemplateLeaseMode
}.

Definition CreateTemplateRequest_new_with_lease_mode (id : string) (lm : TemplateLeaseMode) : CreateTemplateRequest :=
  mkTemplateRequest id None None None lm.

(** The fields of [SnapshotMeta] that the worker does not overwrite. *)
Record SnapshotMeta := mkSnapshotMeta {
  sm_snapshot_dir : string;
  sm_original_task_vsock : string;
  sm_original_console_path : string;
  sm_disk_images : list DiskImageEntry
}.

(** [VMFactory::with_resources] of the three hypervisors *)
Definition with_resources (f : Factory) (cpus mem : N) : Factory :=
  mkFactory (f_image_path f) (f_kernel_path f) cpus mem (f_kernel_params f) (f_policy f).

Definition apply_resource_overrides (f : Factory) (req : CreateTemplateRequest) : Factory :=
  match ct_vcpus req, ct_memory_mb req with
  | None, None => f
  | v, m => with_resources f (default (f_vcpus f) v) (default (f_memory_mb f) m)
  end.

(** What the outside answers to a builder: the snapshot of a VM below a
    directory, the time and the directory of the pool. *)
Record BuildEnv := mkBuildEnv {
  be_snapshot : string → string → SnapshotMeta;
  be_now : string → N;
  be_store_dir : string
}.

Section builder.
Context `{TemplateCodec} `{HashOrder} (su : Setup) (env : BuildEnv).

(** ** The worker *)
Definition template_base (id : string) : string := be_store_dir env +:+ "/environment/" +:+ id.

(** The template of a snapshot taken of the VM [id]. *)
Definition bare_template (f : Factory) (id : string) (meta : SnapshotMeta) : PooledTemplate :=
  PooledTemplate_new (be_now env id) id (factory_key f) (sm_snapshot_dir meta) (f_image_path f) (f_kernel_path f)
    (f_vcpus f) (f_memory_mb f) (sm_original_task_vsock meta) (sm_original_console_path meta).

Definition create_template_inner (f : Factory) (pc : PoolConfig) (req : CreateTemplateRequest)
  : M Host (result PooledTemplate SbError) :=
  let id := ct_id req in
  let snapshot_dir := template_base id +:+ "/snapshot" in
  d ← in_pool (create_dir_all (sub_environment, id));
  if negb (is_ok d) then mret (Err PoolFailed) else
  do? try id CreateVm;;
  do? try id VmStart;;
  do? try id (WaitAgentReady 30);;
  _ ← call id (ExecVm "sync; echo 1 > /proc/sys/vm/drop_caches");
  do? try id (CreateDirAll snapshot_dir);;
  do? try id (VmSnapshot snapshot_dir []);;
  _ ← call id VmStop;
  _ ← call id (RemoveDirAll (template_base id +:+ "/vm"));
  let t := bare_template f id (be_snapshot env id snapshot_dir) in
  a ← in_pool (add pc t);
  mret (if is_ok a then Ok t else Err PoolFailed).

Definition create_template_worker (f : Factory) (pc : PoolConfig) (req : CreateTemplateRequest)
  : M Host (result PooledTemplate SbError) :=
  r ← create_template_inner (apply_resource_overrides f req) pc req;
  match r with
  | Ok t => mret (Ok t)
  | Err e => _ ← in_pool (remove_dir_all (sub_environment, ct_id req)); mret (Err e)
  end.

Definition create_template (req : CreateTemplateRequest) : M Host (result PooledTemplate SbError) :=
  match template_pool su with
  | None => mret (Err NotInitialized)
  | Some pc => create_template_worker (factory su) pc req
  end.

(** ** Refills *)

(** The spawned task of one refill. *)
Definition refill_task (pc : PoolConfig) (k : TemplateKey) (id : string) : M Host unit :=
  _ ← create_template_worker (factory su) pc (CreateTemplateRequest_new_with_lease_mode id (lease_mode pc));
  in_pool (end_refill k).

(** [for _ in 0..need]: each refill is counted before its task is spawned. *)
Fixpoint spawn_refills (k : TemplateKey) (ids : nat → string) (need : nat) : M Host unit :=
  match need with
  | 0 => mret tt
  | S n =>
      in_pool (begin_refill k);;
      note (ids n) (SpawnRefill (ids n));;
      spawn_refills k ids n
  end.

(** One round of [start_maintenance_task]; the report of blocked templates
    only reads. *)
Definition maintenance_round (min_pool_depth : nat) (ids : nat → string) : M Host unit :=
  match template_pool su with
  | None => mret tt
  | Some pc =>
      let k := factory_key (factory su) in
      current ← gets (λ h, depth k (pool h));
      in_flight ← gets (λ h, in_flight_count_for_key k (pool h));
      (if (current + in_flight <? min_pool_depth)%nat
       then spawn_refills k ids (min_pool_depth - (current + in_flight)) else mret tt);;
      in_pool (gc_if_needed pc)
  end.

(** One round of [start_continuation_gc_task] *)
Definition continuation_gc_round : M Host unit :=
  if continuation_store su then
    bs ← gets (λ h, hash_values (sandboxes h));
    _ ← in_store (c_gc_orphaned_consumed (list_to_set (active_ids bs)));
    mret tt
  else mret tt.

(** ** Start-up *)

(** [probe]: what [check_reflink_support] answers, [None] for an error. *)
Definition reflink_setting (lm : TemplateLeaseMode) (enable_cow : bool) (probe : option bool)
  : result bool SbError :=
  match lm, probe with
  | Exclusive, _ => Ok false
  | Shared, Some true => Ok true
  | Shared, (Some false | None) => if enable_cow then Err NotConfigured else Ok false
  end.

Definition init_template_pool (env_max wf_max watermark : nat) (lm : TemplateLeaseMode) (probe : option bool)
  : M World (result PoolConfig SbError) :=
  match reflink_setting lm (enable_reflink_cow (f_policy (factory su))) probe with
  | Err e => mret (Err e)
  | Ok reflink =>
      r ← load_from_disk;
      mret (if is_ok r then Ok (mkPoolConfig env_max wf_max watermark lm reflink) else Err PoolFailed)
  end.

Definition init_continuation_store : M CStore (result unit SbError) :=
  r ← c_load_from_disk;
  mret (if is_ok r then Ok tt else Err StoreFailed).
End builder.
