(* ===== verification/Service.v ===== *)
(** * The admin service: snapshots, slots and restores

    [vmm/sandbox/src/service/mod.rs]: what the requests of the admin socket do
    to the sandboxes, the pool and the store. The requests themselves, their
    validation and the replies are in [ServiceApi]. *)
From S2P Require Import Prelude Strs Storage Types Metrics Disk Pool Continuation GuestScan Mount Frame Inject Annotations Box BlockImage StorageOps Handlers Sandboxer Builder.
Open Scope box_scope.

Definition READY_PROTOCOL_ANNOTATION : string := "kuasar.io/warm-fork-ready-protocol-version".
Definition PROTOCOL_V1 : string := "1".
Definition CONTAINER_NAME_ANNOTATION : string := "io.kubernetes.container.name".

(** The status of one target in the guest's answer to a readiness check. *)
Record CheckResult := mkCheckResult { cr_container_id : string; cr_ok : bool }.

(** What the service needs besides the sandboxer's surroundings. *)
Record Admin := mkAdmin {
  ad_env : BuildEnv;
  ad_check : string → list (string * string) → list CheckResult;
  ad_base_dir : string;
  ad_continuation_dir : string
}.

Section service.
Context `{TemplateCodec} `{HashOrder} (su : Setup) (ad : Admin).

(** ** The targets of a WarmFork snapshot *)

(** [name_to_cid], collected in iteration order: the last container of a name
    wins. *)
Definition name_to_cid (m : gmap string KuasarContainer) : gmap string string :=
  foldl (λ acc p,
    match s ← cd_spec (kc_data p.2); sp_annotations s !! CONTAINER_NAME_ANNOTATION with
    | Some name => <[name := p.1]> acc
    | None => acc
    end) ∅ (hash_iter m).

Fixpoint named_targets (ann : gmap string string) (pod_socket : string) (cids : gmap string string)
    (names : list string) : result (list WarmForkTarget) SbError :=
  match names with
  | [] => Ok []
  | name :: names =>
      match cids !! name with
      | None => Err (ContainerNotFound name)
      | Some cid =>
          match named_targets ann pod_socket cids names with
          | Err e => Err e
          | Ok l =>
              let socket := default pod_socket (ann !! container_key name "/warm-fork-readiness-socket") in
              Ok (mkTarget name cid socket ∅ "" :: l)
          end
      end
  end.

Definition only_target (pod_socket : string) (cids : list string) : result (list WarmForkTarget) SbError :=
  match cids with
  | [cid] => Ok [mkTarget "" cid pod_socket ∅ ""]
  | _ => Err (WrongContainerCount (length cids))
  end.

Definition snapshot_targets (b : Sandbox) : result (list WarmForkTarget) SbError :=
  let ann := default ∅ (sb_annotations b) in
  let pod_socket := default DEFAULT_READINESS_SOCKET (ann !! READINESS_SOCKET_ANNOTATION) in
  match parse_warm_fork_container_names ann with
  | Err e => Err (BadAnnotation e)
  | Ok (Some names) => named_targets ann pod_socket (name_to_cid (sb_containers b)) names
  | Ok None => only_target pod_socket (hash_keys (sb_containers b))
  end.

Definition inject_target (t : WarmForkTarget) : string * string := (container_id t, socket_path t).

(** [KuasarSandbox::check_inject_socket] *)
Definition check_inject_socket (id : string) (l : list (string * string)) : M Host (result unit SbError) :=
  c ← field id sb_client false;
  if negb c then mret (Err NoClient) else
  do? try id (CheckInject l);;
  mret (if forallb cr_ok (ad_check ad id l) then Ok tt else Err NotReady).

(** The checks before a WarmFork snapshot: the protocol the pod announces and
    the readiness of every target. *)
Definition warm_fork_check (id : string) (b : Sandbox) : M Host (result (string * list WarmForkTarget) SbError) :=
  let pv := default "" (default ∅ (sb_annotations b) !! READY_PROTOCOL_ANNOTATION) in
  if negb (bool_decide (pv = PROTOCOL_V1)) then mret (Err NotReady) else
  match snapshot_targets b with
  | Err e => mret (Err e)
  | Ok l => do? check_inject_socket id (inject_target <$> l);; mret (Ok (pv, l))
  end.

(** ** The template of a running sandbox *)
Definition snapshot_disks (l : list Storage) : list DiskSnapshot :=
  omap (λ s, if owned_by_runtime s
             then d ← device_id s; p ← cleanup_path s; Some (mkDiskSnapshot (s_id s) d p)
             else None) l.

Definition snapshot_containers_of (l : list Storage) : list SnapshotContainerMeta :=
  l ≫= λ s,
    if owned_by_runtime s && bool_decide (is_Some (device_id s)) && bool_decide (is_Some (cleanup_path s))
    then (λ cid, mkContainerMeta cid (default "" (lower_dirs s)) (s_id s) (default "" (device_id s))
                   (default "" (cleanup_path s))) <$> hash_keys (ref_container s)
    else [].

Definition orphans_of (b : Sandbox) : list string :=
  foldl (λ acc cid, if bool_decide (cid ∈ acc) then acc else acc ++ [cid])
    (hash_keys (sb_containers b)) (r_orphan_container_ids (sb_restore b)).

Definition snapshot_key (ty : SnapshotType) (wi : option WorkloadIdentity) (k : string) : TemplateKey :=
  match ty, wi with
  | Continuation, Some w => from_workload_identity (pod_uid w) (generation w)
  | _, _ => user k
  end.

Definition sandbox_template (b : Sandbox) (tid : string) (k : TemplateKey) (ty : SnapshotType)
    (wi : option WorkloadIdentity) (check : option (string * list WarmForkTarget)) (m : SnapshotMeta)
  : PooledTemplate :=
  let f := factory su in
  {| pt_id := tid; pt_key := k; Types.snapshot_dir := sm_snapshot_dir m; pmem_path := f_image_path f;
     kernel_path := f_kernel_path f; vcpus := f_vcpus f; memory_mb := f_memory_mb f;
     created_at_secs := be_now (ad_env ad) tid; original_task_vsock := sm_original_task_vsock m;
     original_console_path := sm_original_console_path m; hypervisor_api_version := "";
     Types.snapshot_type := ty; id_generator := sb_id_generator b; disk_images := sm_disk_images m;
     storages := sb_storages b; orphan_container_ids := orphans_of b;
     snapshot_containers := snapshot_containers_of (sb_storages b);
     ready_protocol_version := fst <$> check; Types.workload_identity := wi;
     warm_fork_targets := default [] (snd <$> check) |}.

(** ** Where the snapshot goes *)

(** [dir.exists()] of an entry's snapshot directory: it is made with the
    entry; what a failed removal left of an entry answers like an error. *)
Definition c_snapshot_exists (w : WorkloadIdentity) : M CStore bool :=
  x ← c_dir_exists (entry_dir w);
  mret (default false x).

Definition continuation_path (w : WorkloadIdentity) : string :=
  ad_continuation_dir ad +:+ "/" +:+ (entry_dir w).1 +:+ "/" +:+ (entry_dir w).2 +:+ "/snapshot".
Definition warmfork_path (tid : string) : string :=
  be_store_dir (ad_env ad) +:+ "/warmfork/" +:+ tid +:+ "/snapshot".

Definition prepare_snapshot_dir (tid : string) (ty : SnapshotType) (wi : option WorkloadIdentity)
  : M Host (result string SbError) :=
  match ty, wi with
  | Continuation, None => mret (Err InvalidArgument)
  | Continuation, Some w =>
      if negb (continuation_store su) then mret (Err NotConfigured) else
      x ← in_store (c_snapshot_exists w);
      if x : bool then mret (Err AlreadySnapshotted) else
      r ← in_store (c_create_dir_all (entry_dir w));
      mret (if is_ok r then Ok (continuation_path w) else Err StoreFailed)
  | _, _ =>
      match template_pool su with
      | None => mret (Err NotConfigured)
      | Some _ =>
          r ← in_pool (create_dir_all (sub_warmfork, tid));
          mret (if is_ok r then Ok (warmfork_path tid) else Err PoolFailed)
      end
  end.

Definition keep_template (t : PooledTemplate) : M Host (result unit SbError) :=
  match Types.snapshot_type t with
  | Continuation =>
      if negb (continuation_store su) then mret (Err NotConfigured) else
      r ← in_store (c_save t);
      mret (if is_ok r then Ok tt else Err StoreFailed)
  | _ =>
      match template_pool su with
      | None => mret (Err NotConfigured)
      | Some pc => r ← in_pool (add pc t); mret (if is_ok r then Ok tt else Err PoolFailed)
      end
  end.

Definition create_from_sandbox (id tid k : string) (ty : SnapshotType) (wi : option WorkloadIdentity)
  : M Host (result PooledTemplate SbError) :=
  if negb (bool_decide (ty = Continuation)) && negb (bool_decide (is_Some (template_pool su)))
  then mret (Err NotConfigured) else
  o ← this id;
  match o with
  | None => mret (Err SbNotFound)
  | Some b =>
      if negb (match sb_status b with StRunning _ => true | _ => false end) then mret (Err StatusError) else
      if negb (sb_virtio_blk b) then mret (Err WrongBackend) else
      let! check := (if bool_decide (ty = WarmFork)
                     then (r ← warm_fork_check id b; mret (match r with Ok x => Ok (Some x) | Err e => Err e end))
                     else mret (Ok None)) in
      let! dir := prepare_snapshot_dir tid ty wi in
      do? try id (VmSnapshot dir (snapshot_disks (sb_storages b)));;
      let t := sandbox_template b tid (snapshot_key ty wi k) ty wi check (be_snapshot (ad_env ad) id dir) in
      do? keep_template t;;
      mret (Ok t)
  end.

(** ** Slots *)
Definition create_sandbox_slot (id : string) : M Host (result unit SbError) :=
  o ← this id;
  match o with
  | Some _ => mret (Err AlreadyExist)
  | None =>
      let base_dir := ad_base_dir ad +:+ "/" +:+ id in
      do? try id (CreateDirAll base_dir);;
      do? try id CreateVm;;
      do? try id SetupSandboxFiles;;
      do? dump id;;
      set_sandboxes (insert id (mkSandbox StCreated base_dir "" None None ∅ [] 0 None false ""
        (f_policy (factory su)) no_restore));;
      mret (Ok tt)
  end.

(** The lease is released as in [delete], but a continuation stays in its
    store. *)
Definition release_lease (r : RestoreMetadata) : M Host unit :=
  match template_id r, template_pool su with
  | Some tid, Some pc =>
      match template_snapshot_type r with
      | Some Environment =>
          match memory_restore_mode r with
          | Some Copy | None => mret tt
          | Some _ => in_pool (deref pc tid)
          end
      | Some WarmFork =>
          match r_lease_mode r with
          | Some Exclusive => in_pool (cleanup_consumed tid)
          | Some Shared => in_pool (deref pc tid)
          | None => in_pool (cleanup_consumed tid)
          end
      | Some Continuation => mret tt
      | None => in_pool (cleanup_consumed tid)
      end
  | _, _ => mret tt
  end.

Definition destroy_sandbox (id : string) : M Host (result unit SbError) :=
  o ← this id;
  match o with
  | None => mret (Err SbNotFound)
  | Some b =>
      do? stop id true;;
      (if negb (bool_decide (sb_cgroup_parent b = "")) && negb (cgroup2 su)
       then _ ← call id RemoveCgroups; mret tt else mret tt);;
      do? try id CleanupMounts;;
      do? try id RemoveBaseDir;;
      release_lease (sb_restore b);;
      set_sandboxes (delete id);;
      mret (Ok tt)
  end.

(** ** Restores *)

(** What the slot records before its VM is restored. *)
Definition record_restore (id tid : string) (ty : SnapshotType) (lm : TemplateLeaseMode) (reflink : bool)
  : M Host unit :=
  upd id (λ b, let r := sb_restore b in
               set_restore (mkRestore (Some tid) (Some ty) (Some lm) (Some reflink)
                 (memory_restore_mode r) (r_orphan_container_ids r)) b).

(** The restore of the VM and what follows it, with the roll-back of each
    failure; [net] destroys the network and [fail] fails the lease. *)
Definition restore_slot (id : string) (src : RestoreSource) (net fail : M Host unit) : M Host (result unit SbError) :=
  try? restore_vm su id src else (clear_template_restore_state id;; net;; fail);;
  let rollback := clear_template_restore_state id;; _ ← stop id true; net;; fail in
  p ← field id sb_cgroup_parent "";
  try? (if bool_decide (p = "") then mret (Ok tt) else add_to_cgroup su id) else rollback;;
  try? dump id else rollback;;
  mret (Ok tt).

Definition source_of (t : PooledTemplate) (ty : SnapshotType) (wf : option WarmForkParams) : RestoreSource :=
  mkSource (Types.snapshot_dir t) ty (storages t) (orphan_container_ids t)
    (default_memory_restore_mode (snapshot su)) wf.

(** The second part of [restore_sandbox_warm_fork], with the lease. *)
Definition restore_leased (id : string) (pc : PoolConfig) (l : TemplateLease) : M Host (result string SbError) :=
  let t := l_tmpl l in
  netns ← field id sb_netns "";
  try? (if bool_decide (netns = "") then mret (Ok tt) else prepare_network su id)
  else (fail_lease pc l;; destroy_network id);;
  record_restore id (pt_id t) WarmFork (lease_mode pc) (reflink_supported pc);;
  upd id (set_id_generator (id_generator t));;
  let src := source_of t WarmFork (Some (mkParams None (warm_fork_targets t) 10000 5000)) in
  do? restore_slot id src (destroy_network id) (fail_lease pc l);;
  in_pool (lease_complete pc l);;
  mret (Ok (pt_id t)).

Definition ask_for (pc : PoolConfig) (k tid : option string) : M World (option PooledTemplate) :=
  match tid, k with
  | Some tid, _ => acquire_by_id_for_restore pc tid
  | None, Some k => acquire_for_restore pc (user k)
  | None, None => panic
  end.

Definition restore_sandbox_warm_fork (id : string) (k tid : option string) : M Host (result string SbError) :=
  o ← this id;
  match o with
  | None => mret (Err SbNotFound)
  | Some b =>
      if negb (match sb_status b with StCreated => true | _ => false end) then mret (Err StatusError) else
      match template_pool su with
      | None => mret (Err NotConfigured)
      | Some pc =>
          o ← in_pool (ask_for pc k tid);
          match o with
          | None => mret (Err PoolMiss)
          | Some t =>
              if negb (bool_decide (Types.snapshot_type t = WarmFork)) then mret (Err WrongTemplateType) else
              l ← in_pool (lease_new pc t);
              if negb (match tid, k with
                       | Some _, Some k => bool_decide (key (pt_key t) = key (user k))
                       | _, _ => true
                       end)
              then fail_lease pc l;; mret (Err KeyMismatch)
              else restore_leased id pc l
          end
      end
  end.

Definition restore_sandbox_continuation (id uid : string) (gen : N) : M Host (result string SbError) :=
  o ← this id;
  match o with
  | None => mret (Err SbNotFound)
  | Some b =>
      if negb (match sb_status b with StCreated => true | _ => false end) then mret (Err StatusError) else
      if negb (continuation_store su) then mret (Err NotConfigured) else
      o ← in_store (c_acquire (mkIdentity uid gen));
      match o with
      | None => mret (Err PoolMiss)
      | Some t =>
          let reflink := match template_pool su with Some pc => reflink_supported pc | None => false end in
          record_restore id (pt_id t) Continuation Exclusive reflink;;
          upd id (set_id_generator (id_generator t));;
          do? restore_slot id (source_of t Continuation None) (mret tt) (in_store (c_fail t));;
          mret (Ok (pt_id t))
      end
  end.
End service.
