(* ===== verification/ServiceApi.v ===== *)
(** * The admin service: requests and replies

    [vmm/sandbox/src/service/mod.rs]: the validation of the fields of a
    request, one handler per action and the dispatch of a connection. A request
    is one JSON object; [serde_json] is the parameter [from_str]. *)
From S2P Require Import Prelude Strs Storage Types Metrics Disk Pool Continuation GuestScan Mount Frame Inject Annotations Box BlockImage StorageOps Handlers Sandboxer Builder Service.
Open Scope box_scope.

(** ** JSON *)

(** Why a request is refused; the formatted messages are not modelled. *)
Inductive ReqError :=
  | MissingField (f : string) | InvalidField (f : string) | NotAccepted (f : string)
  | UnknownValue (f : string) | UnknownAction (action : string) | NotFoundId (f : string)
  | Unconfigured | PoolRefused (e : PoolError) | Sb (e : SbError).

(** [VNum] is a number that is a natural; [VRatio n d] is the [f64] quotient
    [n / d], not rounded; [VError] is a message. *)
Inductive Value :=
  | VNull | VBool (b : bool) | VNum (n : N) | VRatio (n d : N) | VStr (s : string)
  | VArr (l : list Value) | VObj (m : list (string * Value)) | VError (e : ReqError).

(** [req.get(k)] and [req\[k\]]: [null] for what is not there. *)
Definition vget (v : Value) (k : string) : option Value :=
  match v with
  | VObj m => snd <$> find_first (λ p, bool_decide (p.1 = k)) (rev m)
  | _ => None
  end.
Definition vindex (v : Value) (k : string) : Value := default VNull (vget v k).

Definition json_str (v : Value) : option string := match v with VStr s => Some s | _ => None end.
Definition as_u64 (v : Value) : option N :=
  match v with VNum n => if (n <=? u64_max)%N then Some n else None | _ => None end.

Definition vnat (n : nat) : Value := VNum (N.of_nat n).
Definition vopt (o : option string) : Value := match o with Some s => VStr s | None => VNull end.
Definition accepted (l : list (string * Value)) : Value := VObj (("ok", VBool true) :: l).
Definition refused (e : ReqError) : Value := VObj [("ok", VBool false); ("error", VError e)].

(** ** Validation *)
Definition first_char (s : string) : option ascii := match s with String a _ => Some a | EmptyString => None end.
Fixpoint last_char (s : string) : option ascii :=
  match s with
  | EmptyString => None
  | String a EmptyString => Some a
  | String _ s => last_char s
  end.
Definition is_some_and {A} (p : A → bool) (o : option A) : bool := match o with Some a => p a | None => false end.

Definition is_key_char (a : ascii) : bool :=
  is_ascii_alphanumeric a || bool_decide (a = "-"%char) || bool_decide (a = "_"%char) || bool_decide (a = "."%char).
Definition is_id_char (a : ascii) : bool :=
  is_ascii_alphanumeric a || bool_decide (a = "-"%char) || bool_decide (a = "_"%char).

Definition validate_key (k : string) : bool :=
  if (String.length k =? 0)%nat || (253 <? String.length k)%nat then false
  else if negb (is_some_and is_ascii_alphanumeric (first_char k))
       || negb (is_some_and is_ascii_alphanumeric (last_char k)) then false
  else all_chars is_key_char k.

Definition validate_id (i : string) : bool :=
  if (String.length i <? 12)%nat || (64 <? String.length i)%nat then false
  else all_chars is_id_char i.

(** A generation that does not fit is refused here, and cut off in
    [sandbox-run]. *)
Definition generation_of (v : Value) : result N ReqError :=
  match as_u64 v with
  | None => Ok 0%N
  | Some n => if (n <=? u32_max)%N then Ok n else Err (InvalidField "generation")
  end.

Section api.
Context `{TemplateCodec} `{HashOrder} (su : Setup) (ad : Admin).
(** [new_template_id] and the id of a new sandbox *)
Context (fresh_ids : nat → string) (sandbox_id : string).

Definition AdminHandler : Type := Value → M Host (result Value ReqError).

Definition lift {A} (m : M Host (result A SbError)) : M Host (result A ReqError) :=
  r ← m; mret (match r with Ok a => Ok a | Err e => Err (Sb e) end).

(** [req\[f\].json_str().ok_or(..)?] *)
Definition need_str (req : Value) (f : string) : result string ReqError :=
  match json_str (vindex req f) with Some s => Ok s | None => Err (MissingField f) end.
Definition need_id (req : Value) (f : string) : result string ReqError :=
  match need_str req f with
  | Err e => Err e
  | Ok s => if validate_id s then Ok s else Err (InvalidField f)
  end.

(** ** Templates *)
Definition template_kind (req : Value) : result SnapshotType ReqError :=
  let s := default "warm_fork" (json_str (vindex req "snapshot_type")) in
  if bool_decide (s = "warm_fork") then Ok WarmFork
  else if bool_decide (s = "continuation") then Ok Continuation
  else Err (UnknownValue "snapshot_type").

(** The key and the workload identity of a new template. *)
Definition template_subject (req : Value) (ty : SnapshotType)
  : result (string * option WorkloadIdentity) ReqError :=
  if bool_decide (ty = Continuation) then
    match need_str req "pod_uid" with
    | Err e => Err e
    | Ok uid =>
        if bool_decide (uid = "") then Err (InvalidField "pod_uid") else
        match generation_of (vindex req "generation") with
        | Err e => Err e
        | Ok g => Ok (uid, Some (mkIdentity uid g))
        end
    end
  else
    match need_str req "key" with
    | Err e => Err e
    | Ok k => if validate_key k then Ok (k, None) else Err (InvalidField "key")
    end.

Definition snapshot_type_str : SnapshotType → string := SnapshotType_serialize.

Definition handle_template_create : AdminHandler := λ req,
  match need_id req "sandbox_id" with
  | Err e => mret (Err e)
  | Ok id =>
      match template_kind req with
      | Err e => mret (Err e)
      | Ok ty =>
          match template_subject req ty with
          | Err e => mret (Err e)
          | Ok (k, wi) =>
              let tid := fresh_ids 0 in
              if negb (validate_id tid) then mret (Err (InvalidField "template_id")) else
              let! t := lift (create_from_sandbox su ad id tid k ty wi) in
              mret (Ok (accepted [("template_id", VStr (pt_id t)); ("key", VStr (key (pt_key t)));
                                  ("snapshot_type", VStr (snapshot_type_str (Types.snapshot_type t)))]))
          end
      end
  end.

Definition template_json (t : PooledTemplate) : Value :=
  VObj ([("template_id", VStr (pt_id t)); ("snapshot_type", VStr (snapshot_type_str (Types.snapshot_type t)));
         ("key", VStr (key (pt_key t))); ("created_at_secs", VNum (created_at_secs t));
         ("snapshot_dir", VStr (Types.snapshot_dir t))] ++
        match Types.workload_identity t with
        | Some w => [("pod_uid", VStr (pod_uid w)); ("generation", VNum (generation w))]
        | None => []
        end).

Definition store_list : M Host (list PooledTemplate) :=
  if continuation_store su then in_store c_list else mret [].

Definition handle_template_list : M Host (result Value ReqError) :=
  l1 ← (match template_pool su with Some _ => gets (λ h, list_templates (pool h)) | None => mret [] end);
  l2 ← store_list;
  mret (Ok (accepted [("templates", VArr (template_json <$> sort_by by_id (l1 ++ l2)))])).

Definition handle_template_get : AdminHandler := λ req,
  match need_id req "template_id" with
  | Err e => mret (Err e)
  | Ok tid =>
      o ← (match template_pool su with Some _ => gets (λ h, get_template tid (pool h)) | None => mret None end);
      match o with
      | Some t => mret (Ok (accepted [("template", template_json t)]))
      | None =>
          l ← store_list;
          mret (match find_first (λ t, bool_decide (pt_id t = tid)) l with
                | Some t => Ok (accepted [("template", template_json t)])
                | None => Err (NotFoundId "template")
                end)
      end
  end.

(** ** Sandboxes *)
Definition run_reply (m : M Host (result string SbError)) : M Host (result Value ReqError) :=
  do? lift (create_sandbox_slot su ad sandbox_id);;
  let! tid := lift m in
  mret (Ok (accepted [("sandbox_id", VStr sandbox_id); ("template_id", VStr tid)])).

(** A field that may be absent but must be valid. *)
Definition optional_field (valid : string → bool) (req : Value) (f : string) : result (option string) ReqError :=
  match json_str (vindex req f) with
  | None => Ok None
  | Some s => if valid s then Ok (Some s) else Err (InvalidField f)
  end.

Definition has_str (req : Value) (f : string) : bool := bool_decide (is_Some (vget req f ≫= json_str)).

Definition run_warm_fork : AdminHandler := λ req,
  if has_str req "pod_uid" || bool_decide (is_Some (vget req "generation"))
  then mret (Ok (refused (NotAccepted "pod_uid"))) else
  match optional_field validate_key req "template_key" with
  | Err e => mret (Err e)
  | Ok k =>
      match optional_field validate_id req "template_id" with
      | Err e => mret (Err e)
      | Ok tid =>
          if bool_decide (k = None) && bool_decide (tid = None)
          then mret (Ok (refused (MissingField "template_key")))
          else run_reply (restore_sandbox_warm_fork su sandbox_id k tid)
      end
  end.

Definition run_continuation : AdminHandler := λ req,
  if has_str req "template_id" || has_str req "template_key"
  then mret (Ok (refused (NotAccepted "template_id"))) else
  match json_str (vindex req "pod_uid") with
  | None => mret (Ok (refused (MissingField "pod_uid")))
  | Some uid =>
      let g := uwrap 32 (default 0%N (as_u64 (vindex req "generation"))) in
      run_reply (restore_sandbox_continuation su sandbox_id uid g)
  end.

Definition handle_sandbox_run : AdminHandler := λ req,
  let ty := default "" (vget req "snapshot_type" ≫= json_str) in
  if bool_decide (ty = "warm_fork") then run_warm_fork req
  else if bool_decide (ty = "continuation") then run_continuation req
  else mret (Ok (refused (UnknownValue "snapshot_type"))).

Definition resolve_sandbox_id (id : string) : M Host (result string ReqError) :=
  o ← this id;
  mret (match o with Some _ => Ok id | None => Err (NotFoundId "sandbox") end).

Definition handle_sandbox_destroy : AdminHandler := λ req,
  match need_id req "sandbox_id" with
  | Err e => mret (Err e)
  | Ok id =>
      let! id := resolve_sandbox_id id in
      do? lift (destroy_sandbox su id);;
      mret (Ok (accepted [("sandbox_id", VStr id)]))
  end.

Definition sandbox_status_str (s : SandboxStatus) : string :=
  match s with
  | StCreated => "created"
  | StRunning _ => "running"
  | StStopped _ _ => "stopped"
  | StOther => "unknown"
  end.

Definition sandbox_json (id : string) (b : Sandbox) : list (string * Value) :=
  [("id", VStr id); ("status", VStr (sandbox_status_str (sb_status b))); ("base_dir", VStr (sb_base_dir b));
   ("template_id", vopt (template_id (sb_restore b)));
   ("template_snapshot_type", vopt (snapshot_type_str <$> template_snapshot_type (sb_restore b)))].

Definition handle_sandbox_list : M Host (result Value ReqError) :=
  l ← gets (λ h, hash_iter (sandboxes h));
  mret (Ok (accepted [("sandboxes", VArr ((λ p, VObj (sandbox_json p.1 p.2)) <$> l))])).

Definition handle_sandbox_get : AdminHandler := λ req,
  match need_id req "sandbox_id" with
  | Err e => mret (Err e)
  | Ok id =>
      o ← this id;
      mret (match o with
            | None => Err (NotFoundId "sandbox")
            | Some b =>
                Ok (accepted (sandbox_json id b ++
                  [("lease_mode", vopt (TemplateLeaseMode_fmt <$> r_lease_mode (sb_restore b)));
                   ("memory_restore_mode",
                    vopt (MemoryRestoreMode_serialize <$> memory_restore_mode (sb_restore b)))]))
            end)
  end.

(** ** The pool *)
Definition counts (name : string) (l : list (string * nat)) (field : string) : list Value :=
  (λ p, VObj [(name, VStr p.1); (field, vnat p.2)]) <$> l.

Definition ratio (n d : N) : Value := if (d =? 0)%N then VRatio 0 1 else VRatio n d.

Definition handle_pool_status : M Host (result Value ReqError) :=
  match template_pool su with
  | None => mret (Err Unconfigured)
  | Some _ =>
      w ← gets pool;
      x ← gets metrics;
      l ← store_list;
      mret (Ok (accepted
        [("total", vnat (total_depth w));
         ("by_type", VArr (counts "type" (depth_by_type w) "count"));
         ("continuation", vnat (length l));
         ("keys", vnat (key_count w));
         ("in_flight", vnat (in_flight_count w));
         ("by_key", VArr (counts "key" (depth_by_key w) "depth"));
         ("active_shared_refs", VArr (counts "template_id" (active_shared_refs w) "refs"));
         ("in_flight_restores", VArr (counts "template_id" (in_flight_restores_by_template w) "count"));
         ("gc_blocked", VArr ((λ p, VObj [("template_id", VStr p.1); ("reason", VStr p.2)]) <$> gc_blocked_templates w));
         ("templates_created", VNum (templates_created x));
         ("pool_hits", VNum (pool_hits x));
         ("pool_misses", VNum (pool_misses x));
         ("hit_rate", ratio (pool_hits x) (total_starts x));
         ("avg_restore_ms", ratio (restore_total_ms x) (restore_count x))]))
  end.

Definition handle_pool_refill : AdminHandler := λ req,
  match template_pool su with
  | None => mret (Err Unconfigured)
  | Some _ =>
      match json_str (vindex req "kind") with
      | None => mret (Ok (refused (MissingField "kind")))
      | Some kind =>
          let target := N.to_nat (default 1%N (as_u64 (vindex req "target_depth"))) in
          if bool_decide (kind = "environment") then
            let k := factory_key (factory su) in
            current ← gets (λ h, depth k (pool h));
            in_flight ← gets (λ h, in_flight_count_for_key k (pool h));
            let need := target - (current + in_flight) in
            spawn_refills k fresh_ids need;;
            n ← gets (λ h, in_flight_count_for_key k (pool h));
            mret (Ok (accepted [("kind", VStr "environment"); ("queued", vnat need); ("in_flight", vnat n)]))
          else mret (Ok (refused (UnknownValue "kind")))
      end
  end.

Definition handle_pool_gc : AdminHandler := λ req,
  match template_pool su with
  | None => mret (Err Unconfigured)
  | Some _ =>
      match json_str (vindex req "kind"), json_str (vindex req "template_id") with
      | None, _ => mret (Ok (refused (MissingField "kind")))
      | _, None => mret (Ok (refused (MissingField "template_id")))
      | Some kind, Some tid =>
          match SnapshotType_deserialize kind with
          | None => mret (Ok (refused (UnknownValue "kind")))
          | Some Continuation => mret (Ok (refused (NotAccepted "kind")))
          | Some expected =>
              r ← in_pool (remove_by_id tid expected);
              match r with
              | Err e => mret (Ok (refused (PoolRefused e)))
              | Ok false => mret (Ok (refused (NotFoundId "template")))
              | Ok true =>
                  n ← gets (λ h, total_depth (pool h));
                  mret (Ok (accepted [("kind", VStr kind); ("removed", vnat 1); ("remaining", vnat n)]))
              end
          end
      end
  end.

(** ** The continuation store *)
Definition continuation_json (t : PooledTemplate) : Value :=
  let w := default (mkIdentity "" 0) (Types.workload_identity t) in
  VObj [("template_id", VStr (pt_id t)); ("pod_uid", VStr (pod_uid w)); ("generation", VNum (generation w));
        ("created_at_secs", VNum (created_at_secs t)); ("snapshot_dir", VStr (Types.snapshot_dir t))].

Definition handle_continuation_list : M Host (result Value ReqError) :=
  if continuation_store su then
    l ← in_store c_list;
    mret (Ok (accepted [("entries", VArr (continuation_json <$> l))]))
  else mret (Err Unconfigured).

Definition handle_continuation_delete : AdminHandler := λ req,
  if negb (continuation_store su) then mret (Err Unconfigured) else
  match need_str req "pod_uid" with
  | Err e => mret (Err e)
  | Ok uid =>
      match generation_of (vindex req "generation") with
      | Err e => mret (Err e)
      | Ok g =>
          r ← in_store (c_delete (mkIdentity uid g));
          mret (match r with
                | Err _ => Err (Sb StoreFailed)
                | Ok removed => Ok (accepted [("removed", VBool removed); ("pod_uid", VStr uid); ("generation", VNum g)])
                end)
      end
  end.

(** ** Dispatch *)
Inductive Verb :=
  | SandboxRun | SandboxDestroy | SandboxList | SandboxGet
  | TemplateCreate | TemplateList | TemplateGet
  | PoolStatus | PoolRefill | PoolGc
  | ContinuationList | ContinuationDelete.

#[global] Instance Verb_eq_dec : EqDecision Verb.
Proof. solve_decision. Defined.

(** [action.split_once('-')] *)
Fixpoint split_once (c : ascii) (s : string) : option (string * string) :=
  match s with
  | EmptyString => None
  | String a s =>
      if bool_decide (a = c) then Some (EmptyString, s)
      else p ← split_once c s; Some (String a p.1, p.2)
  end.

Definition one_of {A} (l : list (string * A)) (s : string) : option A :=
  snd <$> find_first (λ p, bool_decide (p.1 = s)) l.

Definition sandbox_verbs := [("run", SandboxRun); ("destroy", SandboxDestroy); ("list", SandboxList); ("get", SandboxGet)].
Definition template_verbs := [("create", TemplateCreate); ("list", TemplateList); ("get", TemplateGet)].
Definition pool_verbs := [("status", PoolStatus); ("refill", PoolRefill); ("gc", PoolGc)].
Definition continuation_verbs := [("list", ContinuationList); ("delete", ContinuationDelete)].

Definition verb_of (action : string) : option Verb :=
  let (category, verb) := default (action, "") (split_once "-"%char action) in
  verbs ← one_of [("sandbox", sandbox_verbs); ("template", template_verbs); ("pool", pool_verbs);
                  ("continuation", continuation_verbs)] category;
  one_of verbs verb.

Definition handle_verb (v : Verb) : AdminHandler := λ req,
  match v with
  | SandboxRun => handle_sandbox_run req
  | SandboxDestroy => handle_sandbox_destroy req
  | SandboxList => handle_sandbox_list
  | SandboxGet => handle_sandbox_get req
  | TemplateCreate => handle_template_create req
  | TemplateList => handle_template_list
  | TemplateGet => handle_template_get req
  | PoolStatus => handle_pool_status
  | PoolRefill => handle_pool_refill req
  | PoolGc => handle_pool_gc req
  | ContinuationList => handle_continuation_list
  | ContinuationDelete => handle_continuation_delete req
  end.

(** One request, with its reply. *)
Definition dispatch (req : Value) : M Host Value :=
  let action := default "" (json_str (vindex req "action")) in
  r ← match verb_of action with
      | Some v => handle_verb v req
      | None => mret (Err (UnknownAction action))
      end;
  mret (match r with Ok v => v | Err e => refused e end).

(** One connection: the reply to its first line; [None] is a connection that
    ends without a reply. *)
Definition handle_connection (from_str : string → option Value) (line : option string) : M Host (option Value) :=
  match line ≫= from_str with
  | None => mret None
  | Some req => v ← dispatch req; mret (Some v)
  end.
End api.
