(* ===== verification/ServiceInv.v ===== *)
(** * The admin service keeps the host invariant

    Every request of the admin socket, the template worker and the background
    tasks leave the pool with exactly the claims the sandboxes' metadata
    records. *)
From S2P Require Import Prelude Strs Storage Types Metrics Disk Pool PoolLemmas PoolInv PoolFrame PoolSys PoolProps PoolDisk Continuation ContinuationProps GuestScan Mount Frame Inject Annotations Box BlockImage StorageOps Handlers BoxCalm Sandboxer SandboxerInv SandboxerProps HostInv Builder Service ServiceApi.

Section admin.
Context `{TemplateCodec} `{HashOrder} (su : Setup) (pc : PoolConfig) (Hsu : template_pool su = Some pc).
Context (cont : string → Prop).
Implicit Types (h : Host) (id : string).
Abbreviation host_ok := (host_ok pc cont).
Abbreviation free_id := (free_id cont).

(** ** Programs that keep the invariant *)
Definition safe {A} (m : M Host A) : Prop := hoare host_ok m (λ _, host_ok).

Lemma safe_ret {A} (a : A) : safe (mret a).
Proof. by apply hoare_ret. Qed.
Lemma safe_gets {A} (f : Host → A) : safe (gets f).
Proof. by apply hoare_gets. Qed.
Lemma safe_bind {A B} (m : M Host A) (k : A → M Host B) : safe m → (∀ a, safe (k a)) → safe (m ≫= k).
Proof. intros Hm Hk. by eapply hoare_seq. Qed.
Lemma safe_keeps {A} (m : M Host A) id : keeps id m → safe m.
Proof. intros Hm h Hok. by eapply host_keeps. Qed.
Lemma safe_store {A} (c : M CStore A) : sound cont c → safe (in_store c).
Proof. intros Hc h Hok. by apply host_store. Qed.

(** A pool operation that is one of the requests of [PoolSys]. *)
Lemma host_request {A} (c : M World A) r h :
  (∀ w, serve pc r w = (_ ← c; mret tt) w) → host_ok h → pool_allowed cont h r →
  ∃ a h', in_pool c h = Some (a, h') ∧ host_ok h' ∧ sandboxes h' = sandboxes h ∧ c (pool h) = Some (a, pool h').
Proof.
  intros Hc Hok Ha. destruct (host_pool pc cont r h Hok Ha) as (h' & E & Hok').
  unfold in_pool in *. rewrite Hc in E. unfold mbind, M_bind in E.
  destruct (c (pool h)) as [[a w]|] eqn:Ec; [|done]. simpl in E. injection E as <-.
  eexists a, _. done.
Qed.

Lemma safe_pool {A} (c : M World A) r :
  (∀ w, serve pc r w = (_ ← c; mret tt) w) → (∀ h, pool_allowed cont h r) → safe (in_pool c).
Proof. intros Hc Ha h Hok. destruct (host_request c r h Hc Hok (Ha h)) as (a & h' & E & Hok' & _). eauto. Qed.

Lemma safe_begin_refill k : safe (in_pool (begin_refill k)).
Proof. by apply (safe_pool _ (RBeginRefill k)). Qed.
Lemma safe_end_refill k : safe (in_pool (end_refill k)).
Proof. by apply (safe_pool _ (REndRefill k)). Qed.
Lemma safe_gc : safe (in_pool (gc_if_needed pc)).
Proof.
  apply (safe_pool _ RGc); [|done]. intros w. simpl. unfold mbind, M_bind.
  destruct (gc_if_needed pc w) as [[[] w']|]; done.
Qed.
Lemma safe_remove i kind : safe (in_pool (remove_by_id i kind)).
Proof. by apply (safe_pool _ (RRemove i kind)). Qed.
Lemma safe_note id a : safe (note id a).
Proof. apply (safe_keeps _ id), keeps_note. Qed.

(** ** A new id stays new until its template is added *)
Definition fresh_ok (i : string) h : Prop := host_ok h ∧ free_id h i.

Lemma free_id_same h h' i :
  avail (pool h') = avail (pool h) → sandboxes h' = sandboxes h → free_id h i → free_id h' i.
Proof. unfold free_id. by intros -> ->. Qed.

Lemma free_id_still id h h' i : still id h h' → free_id h i → free_id h' i.
Proof.
  intros [Ep _ Eo Em] (Hf & Hc & Hs). split_and!; [by rewrite Ep|done|].
  intros j b Hj. destruct (decide (j = id)) as [->|Hne]; [|rewrite Eo in Hj by done; by apply (Hs j)].
  rewrite Hj in Em. simpl in Em. destruct (sandboxes h !! id) as [b0|] eqn:Eb; [|done].
  injection Em as Et _ _ _. rewrite Et. by eapply Hs.
Qed.

Lemma fresh_keeps {A} (m : M Host A) id i : keeps id m → hoare (fresh_ok i) m (λ _, fresh_ok i).
Proof.
  intros Hm h [Hok Hf]. destruct (host_keeps pc cont m id h Hok Hm) as (a & h' & E & Hok').
  exists a, h'. split; [done|]. split; [done|]. destruct (Hm h) as (a1 & h1 & E1 & Hs).
  rewrite E in E1. injection E1 as <- <-. by eapply free_id_still.
Qed.

Lemma fresh_dir {A} (c : M World A) r (d : DirKey) :
  (∀ w, serve pc r w = (_ ← c; mret tt) w) → (∀ h, free_id h d.2 → pool_allowed cont h r) →
  (∀ w a w', c w = Some (a, w') → touches d w w') →
  hoare (fresh_ok d.2) (in_pool c) (λ _, fresh_ok d.2).
Proof.
  intros Hc Ha Ht h [Hok Hf]. destruct (host_request c r h Hc Hok (Ha h Hf)) as (a & h' & E & Hok' & Es & Ec).
  exists a, h'. split; [done|]. split; [done|]. destruct (Ht _ _ _ Ec) as [[Ea _ _ _ _] _].
  by eapply free_id_same.
Qed.

Lemma fresh_prepare d : hoare (fresh_ok d.2) (in_pool (create_dir_all d)) (λ _, fresh_ok d.2).
Proof. apply (fresh_dir _ (RPrepare d)); [done|done|apply create_dir_all_touches]. Qed.
Lemma fresh_discard d : hoare (fresh_ok d.2) (in_pool (remove_dir_all d)) (λ _, fresh_ok d.2).
Proof. apply (fresh_dir _ (RDiscard d)); [done|done|apply remove_dir_all_touches]. Qed.

Lemma host_ok_pool h : host_ok h → pool_ok (pool h).
Proof. intros [(s & l & Hr & <- & _) _ _ _]. apply (reachable_ok pc s Hr). Qed.

Lemma fresh_add t :
  snapshot_type t ≠ Continuation →
  hoare (fresh_ok (pt_id t)) (in_pool (add pc t))
    (λ r h, host_ok h ∧ if is_ok r then listed t (avail (pool h)) else free_id h (pt_id t)).
Proof.
  intros Hty h [Hok Hf].
  destruct (host_request (add pc t) (RAdd t) h) as (r & h' & E & Hok' & Es & Ec); [done|done|done|].
  exists r, h'. split; [done|]. split; [done|].
  destruct (add_spec pc t Hty (pool h)) as (r' & w' & E' & _ & Hf'); [split; [by apply host_ok_pool|apply Hf]|].
  rewrite Ec in E'. injection E' as <- <-. destruct (is_ok r); [done|].
  destruct Hf as (_ & Hc & Hs). split_and!; [done|done|]. by rewrite Es.
Qed.

(** ** The template worker *)
Context (env : BuildEnv).

Lemma fresh_do {A} (c : M Host (result unit SbError)) (k : M Host (result A SbError)) id i Q :
  keeps id c → (∀ e h, fresh_ok i h → Q (Err e) h) → hoare (fresh_ok i) k Q →
  hoare (fresh_ok i) (r ← c; match r with Ok _ => k | Err e => mret (Err e) end) Q.
Proof.
  intros Hc He Hk. eapply hoare_seq; [by eapply fresh_keeps|]. intros [u|e]; [done|].
  apply hoare_ret. intros h. apply He.
Qed.

(** A template that was made is in the pool; one that was not leaves its id
    free. *)
Definition made (f : Factory) (i : string) (r : result PooledTemplate SbError) h : Prop :=
  host_ok h ∧ match r with
              | Ok t => pt_id t = i ∧ pt_key t = factory_key f ∧ listed t (avail (pool h))
              | Err _ => free_id h i
              end.

Lemma inner_spec f req :
  hoare (fresh_ok (ct_id req)) (create_template_inner env f pc req) (made f (ct_id req)).
Proof.
  assert (∀ e h, fresh_ok (ct_id req) h → made f (ct_id req) (Err e) h) as He by done.
  unfold create_template_inner. eapply hoare_seq; [apply (fresh_prepare (sub_environment, ct_id req))|].
  intros d. case_match; [by apply hoare_ret; intros h; apply He|].
  do 3 (eapply fresh_do; [apply keeps_try|exact He|]).
  eapply hoare_seq; [eapply fresh_keeps, keeps_call|]. intros _.
  do 2 (eapply fresh_do; [apply keeps_try|exact He|]).
  do 2 (eapply hoare_seq; [eapply fresh_keeps, keeps_call|]; intros _).
  eapply hoare_bind; [by apply (fresh_add (bare_template env f (ct_id req) _))|].
  intros r. apply hoare_ret. intros h [Hok Hf]. split; [done|]. by destruct (is_ok r).
Qed.


Lemma worker_spec f req :
  hoare (fresh_ok (ct_id req)) (create_template_worker env f pc req)
    (made (apply_resource_overrides f req) (ct_id req)).
Proof.
  unfold create_template_worker. eapply hoare_bind; [apply inner_spec|]. intros [t|e].
  - by apply hoare_ret.
  - eapply (hoare_bind _ _ _ (λ _, fresh_ok (ct_id req))).
    { by apply (fresh_discard (sub_environment, ct_id req)). }
    intros d. by apply hoare_ret.
Qed.

Lemma refill_task_spec k i : hoare (fresh_ok i) (refill_task su env pc k i) (λ _, host_ok).
Proof.
  unfold refill_task. eapply hoare_bind; [apply (worker_spec (factory su) (CreateTemplateRequest_new_with_lease_mode i (lease_mode pc)))|].
  intros r. eapply hoare_conseq; [apply safe_end_refill|by intros h []|done].
Qed.

Lemma create_template_spec req :
  hoare (fresh_ok (ct_id req)) (create_template su env req)
    (made (apply_resource_overrides (factory su) req) (ct_id req)).
Proof. unfold create_template. rewrite Hsu. apply worker_spec. Qed.

Lemma safe_spawn k ids n : safe (spawn_refills k ids n).
Proof.
  induction n as [|n IH]; simpl; [apply safe_ret|].
  apply safe_bind; [apply safe_begin_refill|]. intros _.
  apply safe_bind; [apply safe_note|]. by intros _.
Qed.

Lemma safe_maintenance n ids : safe (maintenance_round su n ids).
Proof.
  unfold maintenance_round. rewrite Hsu. do 2 (apply safe_bind; [apply safe_gets|]; intros ?).
  apply safe_bind; [case_match; [apply safe_spawn|apply safe_ret]|]. intros _. apply safe_gc.
Qed.

Lemma safe_continuation_gc : safe (continuation_gc_round su).
Proof.
  unfold continuation_gc_round. case_match; [|apply safe_ret].
  apply safe_bind; [apply safe_gets|]. intros bs.
  apply safe_bind; [apply safe_store, sound_gc|]. intros _. apply safe_ret.
Qed.

(** ** Snapshots of running sandboxes *)
Context (ad : Admin).

Lemma keeps_check id l : keeps id (check_inject_socket ad id l).
Proof. unfold check_inject_socket. keep. Qed.
Lemma keeps_warm_fork_check id b : keeps id (warm_fork_check ad id b).
Proof. pose proof (keeps_check id). unfold warm_fork_check. keep. Qed.

(** A new template has a new id, and a continuation an id of its own. *)
Definition new_id (tid : string) (ty : SnapshotType) h : Prop :=
  match ty with Continuation => cont tid | _ => free_id h tid end.
Definition building (tid : string) (ty : SnapshotType) h : Prop := host_ok h ∧ new_id tid ty h.

Lemma building_keeps {A} (m : M Host A) id tid ty : keeps id m → hoare (building tid ty) m (λ _, building tid ty).
Proof.
  intros Hm h [Hok Hn]. destruct ty; simpl in Hn.
  3:{ destruct (safe_keeps m id Hm h Hok) as (a & h' & E & Hok'). exists a, h'. done. }
  all: destruct (fresh_keeps m id tid Hm h (conj Hok Hn)) as (a & h' & E & Hf); by exists a, h'.
Qed.

Lemma building_prepare tid ty wi :
  hoare (building tid ty) (prepare_snapshot_dir su ad tid ty wi) (λ _, building tid ty).
Proof.
  assert (∀ r, hoare (building tid ty) (mret r) (λ _ : result string SbError, building tid ty)) as Hret
    by (intros r; by apply hoare_ret).
  assert (∀ A (c : M CStore A), sound cont c → ty = Continuation →
    hoare (building tid ty) (in_store c) (λ _, building tid ty)) as Hst.
  { intros A c Hc -> h [Hok Hn]. destruct (safe_store c Hc h Hok) as (a & h' & E & Hok'). by exists a, h'. }
  unfold prepare_snapshot_dir. rewrite Hsu. destruct ty eqn:Ety.
  3:{ destruct wi as [w|]; [|apply Hret]. case_match; [apply Hret|].
      eapply hoare_seq; [apply Hst; [|done]|].
      { unfold c_snapshot_exists. apply sound_bind; [apply sound_dir_exists|intros; apply sound_ret]. }
      intros x. case_match; [apply Hret|].
      eapply hoare_seq; [apply Hst; [apply sound_create|done]|]. intros r. apply Hret. }
  all: eapply hoare_seq; [apply (fresh_prepare (sub_warmfork, tid))|]; intros r; apply Hret.
Qed.

Lemma building_keep t :
  hoare (building (pt_id t) (snapshot_type t)) (keep_template su t) (λ _, host_ok).
Proof.
  unfold keep_template. rewrite Hsu. destruct (snapshot_type t) eqn:Ety.
  3:{ case_match; [apply hoare_ret; by intros h []|].
      eapply (hoare_bind _ _ _ (λ _, host_ok)); [|intros r; by apply hoare_ret].
      intros h [Hok Hn]. by apply safe_store; [apply sound_save|]. }
  all: eapply hoare_bind; [apply fresh_add; by rewrite Ety|]; intros r; apply hoare_ret; by intros h [].
Qed.

Lemma building_do {A} (c : M Host (result unit SbError)) (k : M Host (result A SbError)) id tid ty :
  keeps id c → hoare (building tid ty) k (λ _, host_ok) →
  hoare (building tid ty) (r ← c; match r with Ok _ => k | Err e => mret (Err e) end) (λ _, host_ok).
Proof.
  intros Hc Hk. eapply hoare_seq; [by eapply building_keeps|]. intros [u|e]; [done|].
  apply hoare_ret. by intros h [].
Qed.

Lemma create_from_sandbox_spec id tid k ty wi :
  hoare (building tid ty) (create_from_sandbox su ad id tid k ty wi) (λ _, host_ok).
Proof.
  assert (∀ r, hoare (building tid ty) (mret r) (λ _ : result PooledTemplate SbError, host_ok)) as Hret.
  { intros r. apply hoare_ret. by intros h []. }
  unfold create_from_sandbox. case_match; [apply Hret|].
  eapply hoare_seq; [eapply building_keeps, keeps_this|]. intros [b|]; [|apply Hret].
  destruct (negb (match sb_status b with StRunning _ => true | _ => false end)); [apply Hret|].
  destruct (negb (sb_virtio_blk b)); [apply Hret|].
  eapply hoare_seq.
  { eapply (building_keeps _ id). pose proof (keeps_warm_fork_check id b). keep. }
  intros [check|e]; [|apply Hret].
  eapply hoare_seq; [apply building_prepare|]. intros [dir|e]; [|apply Hret].
  eapply building_do; [apply keeps_try|].
  eapply hoare_bind; [apply (building_keep (sandbox_template su ad b tid _ ty wi check _))|].
  intros [u|e]; by apply hoare_ret.
Qed.

(** ** One slot at a time *)
Section slot.
Context (id : string) (rest : list Hold) (others : gmap string Sandbox).
Abbreviation working := (working pc cont id rest others).
Abbreviation ended := (ended pc cont id rest others).

(** [ended], whatever an operation that succeeds returns. *)
Definition finished {A} (r : result A SbError) h : Prop :=
  ended (match r with Ok _ => Ok tt | Err e => Err e end) h.

Lemma finished_err {A} m e h : settled cont m → owing m = None → working [] m h → finished (Err e : result A SbError) h.
Proof. apply ended_err. Qed.

Lemma do_keeps {A} (c : M Host (result unit SbError)) (k : M Host (result A SbError)) hs m Q :
  keeps id c → (∀ e h, working hs m h → Q (Err e) h) → hoare (working hs m) k Q →
  hoare (working hs m) (r ← c; match r with Ok _ => k | Err e => mret (Err e) end) Q.
Proof.
  intros Hc He Hk. eapply hoare_bind; [by apply hoare_keeps|]. intros [u|e]; [done|].
  apply hoare_ret. intros h. apply He.
Qed.

Lemma restore_slot_spec src net fail hs x :
  keeps id net → (∀ m, hoare (working hs m) fail (λ _, working [] m)) →
  hoare (working hs (Some x)) (restore_slot su id src net fail)
    (λ r h, match r with Ok _ => working hs (Some x) h | Err _ => working [] (Some cleared) h end).
Proof.
  intros Hn Hf. unfold restore_slot.
  assert (∀ {A} (c : M Host A), keeps id c → hoare (working hs (Some x))
    (clear_template_restore_state id;; _ ← c; net;; fail) (λ _, working [] (Some cleared))) as Hroll.
  { intros A c Hc. eapply hoare_bind; [apply hoare_clear|]. intros []. simpl.
    do 2 (eapply hoare_seq; [by apply hoare_keeps|]; intros _). apply Hf. }
  apply hoare_try_else; [eauto with keep| |].
  { intros e. exact (Hroll _ (mret tt) (keeps_ret id tt)). }
  eapply hoare_seq; [apply hoare_keeps; eauto with keep|]. intros p.
  apply hoare_try_else; [case_match; eauto with keep|intros e; apply Hroll; eauto with keep|].
  apply hoare_try_else; [eauto with keep|intros e; apply Hroll; eauto with keep|].
  by apply hoare_ret.
Qed.

Lemma record_restore_spec tid ty lm reflink hs m :
  hoare (working hs m) (record_restore id tid ty lm reflink)
    (λ _, working hs ((λ y : Meta, (Some tid, Some ty, Some lm, y.2)) <$> m)).
Proof.
  apply hoare_modify. intros h [C D S O M]. split; try done; simpl.
  - intros j Hj. rewrite lookup_alter_ne by done. by apply O.
  - rewrite <- M, lookup_alter_eq. by destruct (sandboxes h !! id).
Qed.

Lemma restore_leased_spec x k y :
  h_claim x = claim_of k → lease_kind pc (h_tmpl x) = Some k → snapshot_type (h_tmpl x) = WarmFork →
  settled cont (Some y) → owing (Some y) = None →
  hoare (working [x] (Some y)) (restore_leased su id pc (mkLease (h_tmpl x) k)) finished.
Proof.
  intros Hc Hk Hty Hs Ho. unfold restore_leased. simpl.
  eapply hoare_seq; [apply hoare_keeps; eauto with keep|]. intros netns.
  eapply hoare_bind; [apply hoare_keeps; case_match; eauto with keep|]. intros [[]|e].
  2:{ eapply (hoare_bind _ _ _ (λ _, finished (Err e : result string SbError))); [|intros []; by apply hoare_ret].
      eapply hoare_bind; [by apply fail_lease_spec|]. intros [].
      eapply hoare_conseq; [apply hoare_keeps; eauto with keep|done|].
      intros [] h Hw. by eapply (finished_err (Some y)). }
  eapply hoare_bind; [apply record_restore_spec|]. intros [].
  eapply hoare_seq; [apply hoare_keeps, keeps_upd; by intros b|]. intros [].
  eapply hoare_bind.
  { apply restore_slot_spec; [eauto with keep|]. intros m. by apply fail_lease_spec. }
  intros [[]|e].
  2:{ apply hoare_ret. intros h. apply finished_err; [apply settled_cleared|done]. }
  eapply hoare_bind; [by apply (complete_spec pc cont id rest others x k [])|]. intros [].
  apply hoare_ret. intros h Hw. eexists _, _. split; [exact Hw|]. split; [|split; [by intros z [= <-]|done]].
  unfold completed, owing, owes, lease_kind in *. rewrite Hty in Hk. simpl.
  destruct (lease_mode pc); simplify_eq/=; rewrite Hc; cbn; unfold key_of; cbn; by rewrite ?Hc.
Qed.

Lemma hoare_created hs m {A} (c : Sandbox → M Host (result A SbError)) Q :
  (∀ e h, working hs m h → Q (Err e) h) →
  (∀ b, m = Some (meta (sb_restore b)) → hoare (working hs m) (c b) Q) →
  hoare (working hs m) (o ← this id; match o with
    | None => mret (Err SbNotFound)
    | Some b => if negb (match sb_status b with StCreated => true | _ => false end) then mret (Err StatusError) else c b
    end) Q.
Proof.
  intros He Hc. eapply hoare_bind; [apply hoare_this|]. intros o. apply hoare_pure. intros Eo.
  destruct o as [b|]; [|apply hoare_ret; intros h; apply He].
  destruct (negb _); [apply hoare_ret; intros h; apply He|]. by apply Hc.
Qed.

Lemma restore_warm_fork_slot_spec k tid m :
  k ≠ None ∨ tid ≠ None → settled cont m → owing m = None →
  hoare (working [] m) (restore_sandbox_warm_fork su id k tid) finished.
Proof.
  intros Hkt Hs Ho. assert (∀ e h, working [] m h → finished (Err e : result string SbError) h) as He.
  { intros e h. by apply finished_err. }
  unfold restore_sandbox_warm_fork. apply hoare_created; [done|]. intros b ->. rewrite Hsu.
  eapply hoare_bind.
  { apply (hoare_pool pc cont id rest others _ [] _ (granted pc)). unfold ask_for. destruct tid as [i|].
    - apply (steps_ask pc cont (ById i)).
    - destruct k as [k|]; [apply (steps_ask pc cont (ByKey (user k)))|by destruct Hkt]. }
  intros [t|].
  2:{ apply hoare_ret. intros h (hs' & -> & Hw). by apply He. }
  intros h (hs' & (x & kd & -> & <- & Hk & Hc) & Hw). revert h Hw.
  match goal with |- ∀ h, _ → ∃ a s', ?c h = _ ∧ finished _ _ =>
    change (hoare (working [x] (Some (meta (sb_restore b)))) c finished) end.
  case_bool_decide as Ety; simpl.
  2:{ apply hoare_ret. intros h Hw. apply He. apply (working_leak _ _ _ _ _ x); [|done].
      rewrite Hc. unfold lease_kind in Hk.
      destruct (snapshot_type (h_tmpl x)); [by injection Hk as <-|done|done]. }
  intros h Hw. unfold mbind at 1, M_bind, in_pool at 1. rewrite (lease_new_spec pc _ _ Hk). 
  assert (mkHost (pool h) (store h) (metrics h) (sandboxes h) (ext h) (trace h) = h) as -> by by destruct h.
  revert h Hw. match goal with |- ∀ h, _ → ∃ a s', ?c h = _ ∧ finished _ _ =>
    change (hoare (working [x] (Some (meta (sb_restore b)))) c finished) end.
  destruct (negb _); [|by apply restore_leased_spec].
  eapply hoare_bind; [by apply fail_lease_spec|]. intros []. apply hoare_ret. intros h. apply He.
Qed.

Lemma restore_continuation_slot_spec uid gen m :
  settled cont m → owing m = None →
  hoare (working [] m) (restore_sandbox_continuation su id uid gen) finished.
Proof.
  intros Hs Ho. assert (∀ e h, working [] m h → finished (Err e : result string SbError) h) as He.
  { intros e h. by apply finished_err. }
  unfold restore_sandbox_continuation. apply hoare_created; [done|]. intros b ->.
  case_match; [apply hoare_ret; intros h; apply He|].
  eapply hoare_bind; [apply (hoare_store pc cont id rest others _ (λ o, ∀ t, o = Some t → cont (pt_id t))), sound_acquire|].
  intros [t|]; apply hoare_pure; intros Ht; [|apply hoare_ret; intros h; apply He].
  eapply hoare_bind; [apply record_restore_spec|]. intros []. simpl.
  eapply hoare_seq; [apply hoare_keeps, keeps_upd; by intros b'|]. intros [].
  eapply hoare_bind.
  { apply restore_slot_spec; [apply keeps_ret|]. intros m. apply c_fail_spec. }
  intros [[]|e]; apply hoare_ret; intros h Hw.
  - eexists _, []. split; [exact Hw|]. split; [done|]. split; [by intros z [= <-]|done].
  - revert Hw. apply finished_err; [apply settled_cleared|done].
Qed.

Lemma create_slot_spec hs m :
  (m = None → hs = []) →
  hoare (working hs m) (create_sandbox_slot su ad id)
    (λ r h, match r with Ok _ => working [] (Some cleared) h | Err _ => working hs m h end).
Proof.
  intros Hm. unfold create_sandbox_slot. eapply hoare_bind; [apply hoare_this|]. intros o.
  apply hoare_pure. intros Eo. destruct o as [b|]; [by apply hoare_ret|]. simpl in Eo.
  do 4 (apply do_keeps; [eauto with keep|done|]).
  rewrite (Hm (eq_sym Eo)).
  eapply hoare_bind; [apply (hoare_modify _ _ (λ _ h', working [] (Some cleared) h'))|].
  - intros h1 [C D S O M]. split; try done; simpl.
    + intros j Hj. rewrite lookup_insert_ne by done. by apply O.
    + by rewrite lookup_insert_eq.
  - intros []. by apply hoare_ret.
Qed.

(** The claim of a sandbox that goes is released; a continuation has none. *)
Lemma release_lease_spec x hs r :
  meta r = x → key_of <$> hs = option_list (owes (of_meta x)) → settled cont (Some x) →
  hoare (working hs (Some x)) (release_lease su r) (λ _, working [] (Some x)).
Proof.
  intros Ex Ek Hs. destruct (decide (template_snapshot_type r = Some Continuation)) as [Ec|Hc].
  - assert (owes r = None) as Eo by (unfold owes; rewrite Ec; by destruct (template_id r)).
    rewrite <- Ex, owes_of_meta, Eo in Ek. destruct hs; [|done].
    unfold release_lease. rewrite Ec. destruct (template_id r), (template_pool su); by apply hoare_ret.
  - assert (release_lease su r = release_template su r) as ->.
    { unfold release_lease, release_template, pins_environment.
      destruct (template_id r), (template_pool su); try done.
      destruct (template_snapshot_type r) as [[]|]; try done; by destruct (memory_restore_mode r) as [[]|]. }
    by apply (release_spec su pc Hsu cont id rest others x hs r).
Qed.
End slot.

Lemma lift_spec {A} (m : M Host (result A SbError)) P (Q : result A ReqError → Host → Prop) :
  hoare P m (λ r, Q (match r with Ok a => Ok a | Err e => Err (Sb e) end)) → hoare P (lift m) Q.
Proof. intros Hm. unfold lift. eapply hoare_bind; [exact Hm|]. intros r. by apply hoare_ret. Qed.

(** ** The handlers *)
Lemma safe_run id m :
  (∀ rest others, hoare (working pc cont id rest others [] (Some cleared)) m (finished id rest others)) →
  safe (run_reply su ad id m).
Proof.
  intros Hm h Hok. destruct (host_op pc cont (run_reply su ad id m) id (λ _ _, True) h Hok)
    as (a & h' & E & _ & Hok'); [|eauto].
  intros rest hs Ek Hs. set (Q := λ (r : result Value ReqError) h', True ∧
    ∃ m hs', working pc cont id rest (sandboxes h) hs' m h' ∧ key_of <$> hs' = option_list (owing m) ∧ settled cont m).
  unfold run_reply.
  eapply (hoare_bind _ _ _ (λ r h1, match r with
    | Ok _ => working pc cont id rest (sandboxes h) [] (Some cleared) h1
    | Err _ => working pc cont id rest (sandboxes h) hs (meta_at h id) h1 end)).
  { apply lift_spec. eapply hoare_conseq;
      [apply (create_slot_spec id rest (sandboxes h) hs (meta_at h id))|done|by intros [] h1].
    intros Em. rewrite Em in Ek. by destruct hs. }
  intros [[]|e].
  - eapply (hoare_bind _ _ _ (λ r, Q (Err Unconfigured))).
    + apply lift_spec. eapply hoare_conseq; [apply Hm|done|]. intros r h1 (m1 & hs1 & Hw & Hk & Hs1 & _).
      split; [done|]. by exists m1, hs1.
    + intros [tid|e]; by apply hoare_ret.
  - apply hoare_ret. intros h1 Hw. split; [done|]. by exists (meta_at h id), hs.
Qed.

Lemma host_destroy id h :
  host_ok h → ∃ r h', destroy_sandbox su id h = Some (r, h') ∧ host_ok h' ∧
    (r = Ok tt → sandboxes h' !! id = None).
Proof.
  intros Hok.
  destruct (host_op pc cont (destroy_sandbox su id) id (λ r h', r = Ok tt → sandboxes h' !! id = None) h Hok)
    as (r & h' & E & HR & Hok'); [|eauto 6].
  intros rest hs Ek Hs. set (Q := λ (r : result unit SbError) h', (r = Ok tt → sandboxes h' !! id = None) ∧
    ∃ m hs', working pc cont id rest (sandboxes h) hs' m h' ∧ key_of <$> hs' = option_list (owing m) ∧ settled cont m).
  assert (∀ e h1, working pc cont id rest (sandboxes h) hs (meta_at h id) h1 → Q (Err e) h1) as HQ.
  { intros e h1 Hw. split; [done|]. by exists (meta_at h id), hs. }
  unfold destroy_sandbox. eapply hoare_bind; [apply hoare_this|]. intros o. apply hoare_pure. intros Eo.
  destruct o as [b|]; [|apply hoare_ret; intros h1; apply HQ].
  apply do_keeps; [eauto with keep|exact HQ|].
  eapply hoare_seq; [apply hoare_keeps; destruct (_ && _); keep|]. intros [].
  do 2 (apply do_keeps; [eauto with keep|exact HQ|]).
  rewrite <- Eo in *. simpl in *.
  eapply hoare_bind; [by apply (release_lease_spec id rest (sandboxes h) (meta (sb_restore b)) hs)|]. intros [].
  eapply hoare_bind; [apply (hoare_modify _ _ (λ _ h', working pc cont id rest (sandboxes h) [] None h' ∧ sandboxes h' !! id = None))|].
  - intros h1 [C D S O M]. simpl. split; [|by rewrite lookup_delete_eq]. split; try done; simpl.
    + intros j Hj. rewrite lookup_delete_ne by done. by apply O.
    + by rewrite lookup_delete_eq.
  - intros []. apply hoare_ret. intros h1 [Hw Hn]. split; [done|]. exists None, []. split_and!; [done|done|]. by intros y.
Qed.

Lemma safe_destroy id : safe (destroy_sandbox su id).
Proof. intros h Hok. destruct (host_destroy id h Hok) as (r & h' & E & Hok' & _). eauto. Qed.

(** ** Any request *)
Context (fresh_ids : nat → string) (sandbox_id : string).

Definition action_of (req : Value) : string := default "" (json_str (vindex req "action")).

(** A request that makes a template gets a new id for it. *)
Definition request_allowed (req : Value) h : Prop :=
  verb_of (action_of req) = Some TemplateCreate →
  ∀ ty, template_kind req = Ok ty → new_id (fresh_ids 0) ty h.

Lemma safe_lift {A} (m : M Host (result A SbError)) : safe m → safe (lift m).
Proof. intros Hm. by apply lift_spec. Qed.
Hint Resolve safe_ret safe_gets safe_begin_refill safe_end_refill safe_gc safe_remove safe_spawn safe_destroy : safe.

(** Walk over a handler. *)
Ltac safely :=
  repeat first
    [ solve [eauto 2 with safe nocore]
    | apply safe_bind; [|intros ?]
    | apply safe_lift
    | progress (repeat case_match) ].

Lemma safe_this id : safe (this id).
Proof. apply (safe_keeps _ id), keeps_this. Qed.
Lemma safe_list : safe (store_list su).
Proof. unfold store_list. case_match; [apply safe_store, sound_list|apply safe_ret]. Qed.
Lemma safe_c_list : safe (in_store c_list).
Proof. apply safe_store, sound_list. Qed.
Lemma safe_c_delete w : safe (in_store (c_delete w)).
Proof. apply safe_store, sound_delete. Qed.
Hint Resolve safe_this safe_list safe_c_list safe_c_delete : safe.

Lemma safe_sandbox_run req : safe (handle_sandbox_run su ad sandbox_id req).
Proof.
  unfold handle_sandbox_run, run_warm_fork, run_continuation.
  case_match; [|case_match; [|apply safe_ret]].
  - case_match; [apply safe_ret|]. case_match; [|apply safe_ret]. case_match; [|apply safe_ret].
    case_match eqn:Ekt; [apply safe_ret|]. apply safe_run. intros rest others.
    apply restore_warm_fork_slot_spec; [|apply settled_cleared|done].
    apply andb_false_iff in Ekt as [Ekt|Ekt]; apply bool_decide_eq_false in Ekt; auto.
  - case_match; [apply safe_ret|]. case_match; [|apply safe_ret]. apply safe_run. intros rest others.
    apply restore_continuation_slot_spec; [apply settled_cleared|done].
Qed.

Lemma template_create_spec req :
  hoare (λ h, host_ok h ∧ ∀ ty, template_kind req = Ok ty → new_id (fresh_ids 0) ty h)
    (handle_template_create su ad fresh_ids req) (λ _, host_ok).
Proof.
  assert (∀ r, hoare (λ h, host_ok h ∧ ∀ ty, template_kind req = Ok ty → new_id (fresh_ids 0) ty h) (mret r)
    (λ _ : result Value ReqError, host_ok)) as Hret by (intros r; apply hoare_ret; by intros h []).
  unfold handle_template_create. destruct (need_id req "sandbox_id") as [id|]; [|apply Hret].
  destruct (template_kind req) as [ty|]; [|apply Hret].
  destruct (template_subject req ty) as [[k wi]|]; [|apply Hret].
  destruct (negb _); [apply Hret|].
  eapply (hoare_bind _ _ _ (λ _, host_ok)); [|intros [t|e]; by apply hoare_ret].
  apply lift_spec. eapply hoare_conseq; [apply (create_from_sandbox_spec id (fresh_ids 0) k ty wi)| |done].
  intros h [Hok Hn]. split; [done|by apply Hn].
Qed.

Lemma safe_verb v req : v ≠ TemplateCreate → safe (handle_verb su ad fresh_ids sandbox_id v req).
Proof.
  intros Hv. destruct v; try done; simpl.
  - apply safe_sandbox_run.
  - unfold handle_sandbox_destroy, resolve_sandbox_id. safely.
  - unfold handle_sandbox_list. safely.
  - unfold handle_sandbox_get. safely.
  - unfold handle_template_list. safely.
  - unfold handle_template_get. safely.
  - unfold handle_pool_status. safely.
  - unfold handle_pool_refill. safely.
  - unfold handle_pool_gc. safely.
  - unfold handle_continuation_list. safely.
  - unfold handle_continuation_delete. safely.
Qed.

Lemma dispatch_spec req :
  hoare (λ h, host_ok h ∧ request_allowed req h) (dispatch su ad fresh_ids sandbox_id req) (λ _, host_ok).
Proof.
  unfold dispatch. fold (action_of req).
  eapply (hoare_bind _ _ _ (λ _, host_ok)); [|intros r; by apply hoare_ret].
  destruct (verb_of (action_of req)) as [v|] eqn:Ev; [|apply hoare_ret; by intros h []].
  destruct (decide (v = TemplateCreate)) as [->|Hv].
  - eapply hoare_conseq; [apply (template_create_spec req)| |done].
    intros h [Hok Ha]. split; [done|]. by apply Ha.
  - eapply hoare_conseq; [by apply safe_verb|by intros h []|done].
Qed.

Lemma connection_spec from_str line :
  hoare (λ h, host_ok h ∧ ∀ req, line ≫= from_str = Some req → request_allowed req h)
    (handle_connection su ad fresh_ids sandbox_id from_str line) (λ _, host_ok).
Proof.
  unfold handle_connection. destruct (line ≫= from_str) as [req|]; [|apply hoare_ret; by intros h []].
  eapply (hoare_bind _ _ _ (λ _, host_ok)); [|intros v; by apply hoare_ret].
  eapply hoare_conseq; [apply (dispatch_spec req)| |done]. intros h [Hok Ha]. split; [done|by apply Ha].
Qed.
End admin.
