(* ===== verification/SandboxerSys.v ===== *)
(** * The sandboxer as a whole

    A transition system over the host: every step is one whole operation of
    the sandboxer, the admin service or a background task, with arbitrary
    outcomes of every outside call and file-system call. Operations run one
    after the other here, although the program runs them as concurrent tasks:
    what waits inside an operation sees other tasks' work ([wakes]), but a
    deletion of one sandbox by two tasks ([double_delete_drops_reference]) or an
    eviction that overlaps a lease ([gc_race_deletes_leased_directory]) is not a
    history of this system. Within it, what the sandboxes of a reachable host
    owe the pool is exactly what the pool counts. *)
From S2P Require Import Prelude Strs Storage Types Metrics Disk Pool PoolLemmas PoolInv PoolFrame PoolSys PoolProps PoolDisk Continuation ContinuationProps GuestScan Mount Frame Inject Annotations Box BlockImage StorageOps Handlers BoxCalm Sandboxer SandboxerInv SandboxerProps DeviceGraph StorageClaims HostInv Builder Service ServiceApi ServiceInv.

Section system.
Context `{TemplateCodec} `{HashOrder} (su : Setup) (pc : PoolConfig) (Hsu : template_pool su = Some pc).
Context (ad : Admin) (cont : string → Prop).
Implicit Types (h : Host) (id : string).
Abbreviation host_ok := (host_ok pc cont).
Abbreviation pool_allowed := (pool_allowed cont).

(** ** The system *)
Inductive HostOp :=
  | OpCreate (id base netns : string) (ann : option (gmap string string)) (pid : option bool)
      (cgroup_parent : option string)
  | OpUpdate (id netns : string) (ann : option (gmap string string)) (pid : option bool)
  | OpAppendContainer (id cid : string) (o : ContainerData)
  | OpUpdateContainer (id cid : string) (o : ContainerData)
  | OpRemoveContainer (id cid : string)
  | OpStart (id : string) (wakes : TemplateKey → list Wake)
  | OpStop (id : string) (force : bool)
  | OpDelete (id : string)
  | OpExit (id : string) (code : N) (ts : Z)
  (** one request of the admin socket, with the ids it draws *)
  | OpAdmin (req : Value) (ids : nat → string) (sandbox_id : string)
  | OpCreateTemplate (req : CreateTemplateRequest)
  (** the background tasks *)
  | OpRefill (k : TemplateKey) (id : string)
  | OpMaintenance (min_pool_depth : nat) (ids : nat → string)
  | OpContinuationGc
  (** single steps of a builder between which others run *)
  | OpPool (r : Request)
  | OpSave (t : PooledTemplate)
  | OpDiscard (w : WorkloadIdentity).

Definition perform (o : HostOp) : M Host unit :=
  match o with
  | OpCreate id base netns ann pid cg => _ ← create su id base netns ann pid cg; mret tt
  | OpUpdate id netns ann pid => _ ← update id netns ann pid; mret tt
  | OpAppendContainer id cid o => _ ← in_box id (append_container (outside su) cid o); mret tt
  | OpUpdateContainer id cid o => _ ← in_box id (update_container (outside su) cid o); mret tt
  | OpRemoveContainer id cid => _ ← in_box id (remove_container cid); mret tt
  | OpStart id wakes => _ ← start su wakes id; mret tt
  | OpStop id force => _ ← stop_sandbox id force; mret tt
  | OpDelete id => _ ← delete_sandbox su id; mret tt
  | OpExit id code ts => monitor_exit id code ts
  | OpAdmin req ids sid => _ ← dispatch su ad ids sid req; mret tt
  | OpCreateTemplate req => _ ← create_template su (ad_env ad) req; mret tt
  | OpRefill k i => refill_task su (ad_env ad) pc k i
  | OpMaintenance n ids => maintenance_round su n ids
  | OpContinuationGc => continuation_gc_round su
  | OpPool r => in_pool (serve pc r)
  | OpSave t => _ ← in_store (c_save t); mret tt
  | OpDiscard w => _ ← in_store (c_delete w); mret tt
  end.

(** A sandbox is started once: not again while it holds a template. The
    sandboxer relies on its caller for this and does not check it
    ([second_start_leaks]). New ids are new: they are random UUIDs. *)
Definition op_allowed h (o : HostOp) : Prop :=
  match o with
  | OpStart id wakes =>
      owed_by (sandboxes h) id = None ∧ ∀ k f, Changed f ∈ wakes k → quiet pc cont f
  | OpAdmin req ids _ => request_allowed cont ids req h
  | OpCreateTemplate req => free_id cont h (ct_id req)
  | OpRefill _ i => free_id cont h i
  | OpPool r => pool_allowed h r
  | OpSave t => cont (pt_id t)
  | _ => True
  end.

(** New outcomes for every call of the next operation. *)
Definition reload (e : list bool) (l c : list IoOut) h : Host :=
  mkHost (set_io l (pool h)) (mkCStore (tree (store h)) c) (metrics h) (sandboxes h) e (trace h).

(** The sandboxer begins with a pool that was just loaded and no sandbox. *)
Definition host_initial h : Prop :=
  initial (mkSys (pool h) []) ∧ no_cont cont (pool h) ∧ cont_store cont (store h) ∧ sandboxes h = ∅.

Inductive hreachable : Host → Prop :=
  | hreachable_init h : host_initial h → hreachable h
  | hreachable_step h o e l c h' :
      hreachable h → op_allowed h o → perform o (reload e l c h) = Some (tt, h') → hreachable h'.

Lemma perform_ok o h : host_ok h → op_allowed h o → ∃ h', perform o h = Some (tt, h') ∧ host_ok h'.
Proof.
  intros Hok Ha.
  assert (∀ A (c : M Host A), (∃ a h', c h = Some (a, h') ∧ host_ok h') →
    ∃ h', (_ ← c; mret tt) h = Some (tt, h') ∧ host_ok h') as Hign.
  { intros A c (a & h' & E & Hok'). exists h'. unfold mbind, M_bind. by rewrite E. }
  assert (∀ id m, keeps id m → ∃ h', m h = Some (tt, h') ∧ host_ok h') as Hk.
  { intros id m Hm. destruct (host_keeps pc cont m id h Hok Hm) as ([] & h' & E & Hok'). eauto. }
  destruct o; simpl in Ha |- *.
  - by apply Hign, host_create.
  - eapply Hk. unfold update. keep.
  - eapply Hk, keeps_bind; [apply keeps_in_box, calm_append|intros; apply keeps_ret].
  - eapply Hk, keeps_bind; [apply keeps_in_box, calm_update|intros; apply keeps_ret].
  - eapply Hk, keeps_bind; [apply keeps_in_box, calm_remove|intros; apply keeps_ret].
  - apply Hign. destruct Ha as [Ho Hq]. destruct (host_start su pc Hsu cont wakes id h Hq Hok Ho) as (r & h' & E & Hok' & _). eauto.
  - eapply Hk. unfold stop_sandbox. keep.
  - apply Hign. destruct (host_delete su pc Hsu cont id h Hok) as (r & h' & E & Hok' & _). eauto.
  - eapply Hk. unfold monitor_exit. keep.
  - apply Hign. by apply (dispatch_spec su pc Hsu cont ad).
  - apply Hign. destruct (create_template_spec su pc Hsu cont (ad_env ad) req h) as (r & h' & E & Hok' & _); [done|eauto].
  - destruct (refill_task_spec su pc cont (ad_env ad) k id h) as ([] & h' & E & Hok'); [done|eauto].
  - destruct (safe_maintenance su pc Hsu cont min_pool_depth ids h Hok) as ([] & h' & E & Hok'); eauto.
  - destruct (safe_continuation_gc su pc cont h Hok) as ([] & h' & E & Hok'); eauto.
  - by apply host_pool.
  - by apply Hign, host_store, sound_save.
  - by apply Hign, host_store, sound_delete.
Qed.

Lemma op_allowed_reload h o e l c : op_allowed h o → op_allowed (reload e l c h) o.
Proof. by destruct o. Qed.

Lemma hreachable_ok h : hreachable h → host_ok h.
Proof.
  induction 1 as [h (Hi & D & S & E)|h o e l c h' _ IH Ha E].
  - split; [|done|done|by rewrite E].
    exists (mkSys (pool h) []), []. rewrite E. split_and!; [by constructor|done|constructor|done].
  - destruct (perform_ok o (reload e l c h)) as (h1 & E1 & Hok); [by apply host_reload|by apply op_allowed_reload|].
    congruence.
Qed.

(** What waiting sandboxes see of a refill: the template of a finished refill
    is added, its id being new. *)
Definition refilled (t : PooledTemplate) (w : World) : World :=
  if bool_decide (Forall (λ u, pt_id u ≠ pt_id t) (all_templates (avail w))) &&
     bool_decide (set_Forall (λ d : DirKey, d.2 ≠ pt_id t) (dom (disk w)))
  then match serve pc (RAdd t) w with Some (_, w') => w' | None => w end
  else w.

Lemma refilled_quiet t : snapshot_type t ≠ Continuation → ¬ cont (pt_id t) → quiet pc cont (refilled t).
Proof.
  intros Hty Hc s Hr Hn. unfold refilled. case_bool_decide as Ha; cbn [andb]; [|by destruct s].
  case_bool_decide as Hd; [|by destruct s].
  assert (allowed s (RAdd t)) as Hal.
  { split_and!; [done| |].
    - intros u Hu. by apply (proj1 (Forall_forall _ _) Ha u), elem_of_all_templates.
    - intros x Hx Ex. destruct (so_hold _ _ (reachable_ok pc s Hr) x Hx) as [_ Hp Ho].
      assert (listed (h_tmpl x) (avail (world s)) → False) as Hl.
      { intros Hl%elem_of_all_templates. by apply (proj1 (Forall_forall _ _) Ha (h_tmpl x)). }
      assert (∀ y, h_dir x = Some y → False) as Hy.
      { intros y Hy. rewrite Hy in Ho. unfold on_disk in Ho.
        destruct (template_dir (h_tmpl x)) as [d|] eqn:Ed; [|done]. simpl in Ho.
        apply (Hd d); [by apply elem_of_dom|]. by rewrite (template_dir_id _ _ Ed). }
      destruct (h_claim x); [by apply Hl..| |]; destruct Hp as (_ & y & Hxy & _); by eapply Hy. }
  destruct (serve_ok pc s _ Hal (world s)) as ([] & w' & E & _); [split; [apply (reachable_ok pc s Hr)|done]|].
  rewrite E. split.
  - eapply reachable_step; [done|]. apply (step_serve pc s (io (world s)) (RAdd t)); [done|]. by rewrite set_io_same.
  - eapply (serve_placed pc (λ d _, ¬ cont d.2) (λ t, ¬ cont (pt_id t))); [done| | | | |exact Hn|exact E].
    + intros u d Hu Ed. by rewrite (template_dir_id _ _ Ed).
    + intros u d x Hu Ed. by rewrite (template_dir_id _ _ Ed).
    + by intros u [= <-].
    + done.
Qed.

(** ** What holds of every reachable host *)
Lemma claims_keys cl i hs : claims cl i hs = length (filter (λ k, k = (cl, i)) (key_of <$> hs)).
Proof.
  induction hs as [|x hs IH]; [done|]. rewrite claims_cons, IH, fmap_cons, filter_cons.
  destruct (decide (key_of x = (cl, i))) as [E|Hn].
  - injection E as E1 E2. by rewrite !bool_decide_true.
  - do 2 (case_bool_decide; [|done]). destruct Hn. unfold key_of. congruence.
Qed.

Lemma leaked_count l cl i :
  leaked l → cl ≠ Restoring → length (filter (λ k, k = (cl, i)) (key_of <$> l)) = 0.
Proof.
  intros Hl Hc. induction Hl as [|x l Hx _ IH]; [done|]. rewrite fmap_cons, filter_cons.
  rewrite decide_False; [done|]. intros E. injection E as E _. congruence.
Qed.

(** The sandboxes that owe the claim [k]. *)
Definition owing_sandboxes (k : Claim * string) (m : gmap string Sandbox) : list (string * Sandbox) :=
  filter (λ p, owes (sb_restore p.2) = Some k) (map_to_list m).

Lemma owed_count k m : length (filter (λ x, x = k) (owed m)) = length (owing_sandboxes k m).
Proof.
  unfold owed, owing_sandboxes. induction (map_to_list m) as [|[j b] l IH]; [done|].
  rewrite filter_cons. simpl. destruct (owes (sb_restore b)) as [y|]; [|by rewrite decide_False].
  rewrite filter_cons. destruct (decide (y = k)) as [->|Hn].
  - rewrite decide_True by done. cbn [length]. f_equal. exact IH.
  - rewrite decide_False by congruence. exact IH.
Qed.


(** C17: the sandboxer is a correct client of the pool. After any sequence of
    creations, starts, stops, deletions, container operations, VMM exits, admin
    requests, template builds and rounds of the background tasks that run one
    after the other, start no sandbox again while it holds a template and draw
    new ids, with any outcome of every call, the pool is in a state its own
    protocol reaches, with exactly the claims that the restore metadata of the
    sandboxes says are held, and besides them only restore references of
    Environment templates that nobody releases. *)
Theorem sandboxer_refines_pool h :
  hreachable h →
  ∃ s l, reachable pc s ∧ world s = pool h ∧ leaked l ∧
    key_of <$> holds s ≡ₚ owed (sandboxes h) ++ (key_of <$> l).
Proof. by intros [Hc _ _ _]%hreachable_ok. Qed.

(** In every reachable host the pool's [in_use_count] of a template is
    the number of sandboxes whose metadata says they reference it. *)
Theorem references_are_sandboxes h i :
  hreachable h →
  default 0 (in_use (pool h) !! i) = length (owing_sandboxes (Referencing, i) (sandboxes h)).
Proof.
  intros [(s & l & Hr & Ew & Hl & Ek) _ _ _]%hreachable_ok.
  pose proof (so_in_use _ _ (reachable_ok pc s Hr) i) as E. rewrite Ew in E. rewrite E, claims_keys, Ek.
  by rewrite filter_app, length_app, (leaked_count l) by done; rewrite Nat.add_0_r, owed_count.
Qed.


(** C19: a start that fails gives back every template it took. Operations
    running one after the other, [start] of a sandbox that holds no template
    returns, whatever the calls to the outside, the file system and the waits
    answer; the other sandboxes are as they were, and when it returns an error
    its sandbox holds no template and the claims on the pool are exactly those
    of the other sandboxes, besides restore references of Environment templates
    that nobody releases: each [in_use_count] is the number of other sandboxes
    that reference the template. *)
Theorem failed_start_gives_back h id wakes e l c :
  hreachable h → op_allowed h (OpStart id wakes) →
  ∃ r h', start su wakes id (reload e l c h) = Some (r, h') ∧
    (∀ j, j ≠ id → sandboxes h' !! j = sandboxes h !! j) ∧
    ∀ err, r = Err err →
      owed_by (sandboxes h') id = None ∧
      (∃ s k, reachable pc s ∧ world s = pool h' ∧ leaked k ∧
         key_of <$> holds s ≡ₚ owed (delete id (sandboxes h)) ++ (key_of <$> k)) ∧
      ∀ i, default 0 (in_use (pool h') !! i) =
           length (owing_sandboxes (Referencing, i) (delete id (sandboxes h))).
Proof.
  intros Hh%hreachable_ok [Ho Hq]. pose proof (host_reload pc cont h l c e Hh) as Hr.
  destruct (host_start su pc Hsu cont wakes id (reload e l c h) Hq Hr Ho) as (r & h' & E & Hok & HO & He).
  exists r, h'. split; [done|]. split; [done|]. intros err ->. specialize (He err eq_refl). split; [done|].
  destruct Hok as [(s & k & Hs & Ew & Hk & Ek) _ _ _].
  assert (delete id (sandboxes h') = delete id (sandboxes h)) as Ed.
  { apply map_eq. intros j. rewrite !lookup_delete. case_decide; [done|]. by apply HO. }
  rewrite (owed_split _ id), He, Ed in Ek. simpl in Ek. split; [by exists s, k|].
  intros i. pose proof (so_in_use _ _ (reachable_ok pc s Hs) i) as Ei. rewrite Ew in Ei.
  rewrite Ei, claims_keys, Ek, filter_app, length_app, (leaked_count k) by done. by rewrite Nat.add_0_r, owed_count.
Qed.
End system.

(** ** Concrete runs *)
#[local] Existing Instance plain_codec.
#[local] Existing Instance listing_order.

Definition demo_shared : PoolConfig := demo_cfg 4 2 Shared.

Definition demo_factory : Factory := mkFactory "/i" "/k" 1 1024 "" ContainerStoragePolicy_default.
Definition env_key : string := key (factory_key demo_factory).

Definition demo_setup (mode : MemoryRestoreMode) : Setup :=
  mkSetup (Some demo_shared) true (mkSnapshotConfig true true true 4 true mode) demo_factory true
    (λ _, 7%N) (λ _, 42%N) (λ _, mkNetwork true true) (λ _ _, []) demo_outside.

Definition demo_admin : Admin :=
  mkAdmin (mkBuildEnv (λ _ dir, mkSnapshotMeta dir "vsock" "console" []) (λ _, 9%N) "/pool") (λ _ _, []) "/run" "/cont".

Definition empty_host : Host := mkHost empty_world (mkCStore (Some ∅) []) metrics_default ∅ [] [].

Definition demo_cont (i : string) : Prop := i = "c1".
Definition demo_env : PooledTemplate := demo_template "e1" env_key Environment 5.

Definition run_host {A} (m : M Host A) (h : Host) : Host := match m h with Some (_, h') => h' | None => h end.

(** A refill of the Environment key is in flight; a sandbox is created, waits
    for the refill and is restored from its template, which stays pinned. *)
Definition demo_wakes : TemplateKey → list Wake := λ _, [Changed (refilled demo_shared demo_env)].
Definition demo_ops : list HostOp :=
  [OpPool (RBeginRefill (mkKey env_key)); OpCreate "s1" "/run/s1" "" None None None; OpStart "s1" demo_wakes].
Definition demo_host (n : nat) : Host :=
  foldl (λ h o, run_host (perform (demo_setup OnDemand) demo_shared demo_admin o) (reload [] [] [] h)) empty_host (take n demo_ops).

Lemma empty_host_initial : host_initial demo_cont empty_host.
Proof.
  split_and!; [|by intros d x|by intros [p g] x j t|done].
  split_and!; [|by intros d x|done..]. split; [apply avail_ok_empty|..]; apply map_Forall_empty.
Qed.

Lemma demo_host_reachable n : n ≤ 3 → hreachable (demo_setup OnDemand) demo_shared demo_admin demo_cont (demo_host n).
Proof.
  assert (∀ k f, Changed f ∈ demo_wakes k → quiet demo_shared demo_cont f) as Hq.
  { intros k f [= ->]%list_elem_of_singleton. by apply refilled_quiet. }
  induction n as [|n IH]; intros Hn; [apply hreachable_init, empty_host_initial|].
  destruct (demo_ops !! n) as [o|] eqn:Eo; [|apply lookup_ge_None in Eo; simpl in Eo; lia].
  eapply (hreachable_step _ _ _ _ (demo_host n) o [] [] []); [apply IH; lia| |].
  - destruct n as [|[|[|?]]]; [..|done]; injection Eo as <-; [done|done|]. split; [reflexivity|exact Hq].
  - destruct n as [|[|[|?]]]; [..|done]; injection Eo as <-; vm_compute; reflexivity.
Qed.

Lemma sandboxer_refines_pool_witness :
  ∃ s l, reachable demo_shared s ∧ world s = pool (demo_host 3) ∧ leaked l ∧
    key_of <$> holds s ≡ₚ (Referencing, "e1") :: (key_of <$> l).
Proof. exact (sandboxer_refines_pool (demo_setup OnDemand) demo_shared eq_refl demo_admin demo_cont (demo_host 3) (demo_host_reachable 3 (le_n 3))). Defined.

Lemma references_are_sandboxes_witness :
  default 0 (in_use (pool (demo_host 3)) !! "e1") = 1.
Proof.
  rewrite (references_are_sandboxes (demo_setup OnDemand) demo_shared eq_refl demo_admin demo_cont (demo_host 3) "e1" (demo_host_reachable 3 (le_n 3))).
  vm_compute. reflexivity.
Defined.


(** The same start when the VM restore fails and the cold boot fails too. *)
Lemma failed_start_gives_back_witness :
  ∃ r h', start (demo_setup OnDemand) demo_wakes "s1" (reload [true; true; true; false; true; true; false] [] [] (demo_host 2))
    = Some (r, h') ∧ is_ok r = false ∧ owed_by (sandboxes h') "s1" = None ∧ default 0 (in_use (pool h') !! "e1") = 0.
Proof.
  destruct (failed_start_gives_back (demo_setup OnDemand) demo_shared eq_refl demo_admin demo_cont (demo_host 2) "s1" demo_wakes
    [true; true; true; false; true; true; false] [] [] (demo_host_reachable 2 ltac:(lia))
    ltac:(split; [reflexivity|]; intros k f [= ->]%list_elem_of_singleton; by apply refilled_quiet))
    as (r & h' & E & _ & He).
  destruct r as [u|err]; [exfalso; vm_compute in E; discriminate|].
  destruct (He err eq_refl) as (Ho & _ & Hi). exists (Err err), h'. split; [exact E|]. split; [reflexivity|].
  split; [exact Ho|]. rewrite (Hi "e1"). vm_compute. reflexivity.
Defined.

(** [start] does not ask whether the sandbox already runs from a template: a
    second one takes a second reference and records only that one, so a deletion
    gives back one of the two. This is why [op_allowed] starts only sandboxes
    that hold no template. *)
Example second_start_leaks :
  let su := demo_setup OnDemand in
  let again := run_host (start su (λ _, []) "s1") (reload [] [] [] (demo_host 3)) in
  let gone := run_host (delete_sandbox su "s1") (reload [] [] [] again) in
  default 0 (in_use (pool again) !! "e1") = 2 ∧
  sandboxes gone !! "s1" = None ∧ default 0 (in_use (pool gone) !! "e1") = 1.
Proof. vm_compute. split_and!; reflexivity. Qed.
