(* ===== verification/ServiceProps.v ===== *)
(** * What the admin service promises

    Refills reach their target and settle, a WarmFork snapshot is taken only
    of a workload that was checked to be ready, a continuation that was
    snapshotted is the one that is restored, exactly the documented actions
    are served and the inspecting ones change nothing. *)
From S2P Require Import Prelude Strs Storage Types Metrics Disk Pool PoolLemmas PoolInv PoolFrame PoolSys PoolProps PoolDisk Continuation ContinuationProps GuestScan Mount Frame Inject Annotations Box BlockImage StorageOps Handlers BoxCalm Sandboxer SandboxerInv SandboxerProps DeviceGraph StorageClaims HostInv Builder Service ServiceApi ServiceInv SandboxerSys.


(** ** Refills *)
Section refills.
Context `{TemplateCodec} `{HashOrder} (su : Setup) (pc : PoolConfig) (Hsu : template_pool su = Some pc).
Context (ad : Admin) (cont : string → Prop).
Implicit Types (w : World) (h : Host).

Lemma preserves_touches {A} (m : M World A) d R :
  (∀ w a w', m w = Some (a, w') → touches d w w') → preserves (λ w, refills w = R) m.
Proof. intros Hm w a w' Hw E. destruct (Hm _ _ _ E) as [[_ Er _ _ _] _]. by rewrite Er. Qed.

Lemma refills_create d R : preserves (λ w, refills w = R) (create_dir_all d).
Proof. apply (preserves_touches _ d), create_dir_all_touches. Qed.
Lemma refills_remove d R : preserves (λ w, refills w = R) (remove_dir_all d).
Proof. apply (preserves_touches _ d), remove_dir_all_touches. Qed.
Lemma refills_save t d R : preserves (λ w, refills w = R) (save t d).
Proof. apply (preserves_touches _ d), save_touches. Qed.
#[local] Hint Resolve refills_create refills_remove refills_save : preserve.

Lemma refills_add t R : preserves (λ w, refills w = R) (add pc t).
Proof. unfold add, watermark_step, per_key_step, insert_step, dir_of. preserve. Qed.

Lemma quiet_create d : preserves (λ w, io w = []) (create_dir_all d).
Proof. intros w a w' Hw. io_cases; done. Qed.
Lemma quiet_remove d : preserves (λ w, io w = []) (remove_dir_all d).
Proof. intros w a w' Hw. io_cases; done. Qed.
Lemma quiet_save t d : preserves (λ w, io w = []) (save t d).
Proof. intros w a w' Hw. io_cases; done. Qed.
#[local] Hint Resolve quiet_create quiet_remove quiet_save : preserve.

Lemma quiet_add t : preserves (λ w, io w = []) (add pc t).
Proof. unfold add, watermark_step, per_key_step, insert_step, dir_of. preserve. Qed.

Lemma remove_gone d w r w' :
  io w = [] → remove_dir_all d w = Some (r, w') → disk w' !! d = None.
Proof.
  intros Hw E. io_cases; try done; by rewrite lookup_delete_eq.
Qed.

Lemma in_pool_preserves {A} (P : World → Prop) (m : M World A) :
  preserves P m → preserves (λ h, P (pool h)) (in_pool m).
Proof.
  intros Hm h a h' Hh. unfold in_pool. destruct (m (pool h)) as [[b w]|] eqn:E; [|done].
  intros [= <- <-]. simpl. by eapply Hm.
Qed.
Lemma call_preserves (P : World → Prop) id a : preserves (λ h, P (pool h)) (call id a).
Proof. intros h b h' Hh. unfold call. by intros [= <- <-]. Qed.
Lemma try_preserves (P : World → Prop) id a : preserves (λ h, P (pool h)) (try id a).
Proof. apply preserves_bind; [apply call_preserves|]. intros b. apply preserves_ret. Qed.

Lemma inner_preserves (P : World → Prop) f env req :
  (∀ d, preserves P (create_dir_all d)) → (∀ t, preserves P (add pc t)) →
  preserves (λ h, P (pool h)) (create_template_inner env f pc req).
Proof.
  intros Hc Ha. pose proof (call_preserves P) as Hcall. pose proof (try_preserves P) as Htry.
  pose proof (λ d, in_pool_preserves P _ (Hc d)) as Hc'. pose proof (λ t, in_pool_preserves P _ (Ha t)) as Ha'.
  unfold create_template_inner. preserve.
Qed.

Lemma worker_preserves (P : World → Prop) f env req :
  (∀ d, preserves P (create_dir_all d)) → (∀ t, preserves P (add pc t)) → (∀ d, preserves P (remove_dir_all d)) →
  preserves (λ h, P (pool h)) (create_template_worker env f pc req).
Proof.
  intros Hc Ha Hr. unfold create_template_worker. apply preserves_bind; [by apply inner_preserves|].
  intros [t|e]; [apply preserves_ret|]. apply preserves_bind; [by apply in_pool_preserves|]. intros. apply preserves_ret.
Qed.

(** Without file-system faults a failed build leaves no directory. *)
Lemma worker_gone f env req h e h' :
  io (pool h) = [] → create_template_worker env f pc req h = Some (Err e, h') →
  disk (pool h') !! (sub_environment, ct_id req) = None.
Proof.
  intros Hio. unfold create_template_worker. unfold mbind at 1, M_bind.
  destruct (create_template_inner env _ pc req h) as [[[t|e1] h1]|] eqn:Ei; [done| |done].
  assert (io (pool h1) = []) as Hio1.
  { apply (inner_preserves (λ w, io w = []) _ _ _ quiet_create quiet_add _ _ _ Hio Ei). }
  unfold mbind, M_bind, in_pool. destruct (remove_dir_all _ (pool h1)) as [[r w]|] eqn:Er; [|done].
  intros [= _ <-]. by eapply remove_gone.
Qed.

Definition in_flight (k : TemplateKey) h : nat := in_flight_count_for_key k (pool h).

Lemma end_refill_count k k' w w' :
  end_refill k w = Some (tt, w') →
  in_flight_count_for_key k' w' = in_flight_count_for_key k' w - (if bool_decide (k' = k) then 1 else 0).
Proof.
  unfold end_refill. munfold. intros [= <-]. unfold in_flight_count_for_key. simpl.
  destruct (decide (k' = k)) as [->|Hne].
  - rewrite bool_decide_true by done. destruct (refills w !! k) as [c|] eqn:E; [|by rewrite E].
    case_bool_decide; [rewrite lookup_delete_eq|rewrite lookup_insert_eq]; simpl; lia.
  - rewrite bool_decide_false by done. destruct (refills w !! k) as [c|]; [|lia].
    case_bool_decide; [rewrite lookup_delete_ne by done|rewrite lookup_insert_ne by done]; lia.
Qed.

(** C5: a refill settles. Whatever its calls and the file system answer, the
    task ends, its key's count of refills in flight falls by one and no other
    does; and either its template is in the pool under the key of the factory,
    or its id is not in the pool and, without file-system faults, nothing of it
    is left on disk. *)
Theorem refill_settles h k i e l c :
  hreachable su pc ad cont h → free_id cont h i →
  ∃ h', perform su pc ad (OpRefill k i) (reload e l c h) = Some (tt, h') ∧
    (∀ k', in_flight k' h' = in_flight k' h - (if bool_decide (k' = k) then 1 else 0)) ∧
    ((∃ t, listed t (avail (pool h')) ∧ pt_id t = i ∧ pt_key t = factory_key (factory su)) ∨
     (fresh_id i (avail (pool h')) ∧ (l = [] → disk (pool h') !! (sub_environment, i) = None))).
Proof.
  intros Hh%(hreachable_ok su pc Hsu) Hf.
  set (req := CreateTemplateRequest_new_with_lease_mode i (lease_mode pc)).
  destruct (worker_spec pc cont (ad_env ad) (factory su) req (reload e l c h)) as (r & h1 & E & Hok & Hr).
  { split; [by apply host_reload|done]. }
  assert (refills (pool h1) = refills (pool h)) as Er.
  { apply (worker_preserves _ _ _ _ (λ d, refills_create d (refills (pool h))) (λ t, refills_add t _)
      (λ d, refills_remove d _) (reload e l c h) _ _ eq_refl E). }
  simpl. unfold refill_task. fold req. unfold mbind at 1, M_bind. rewrite E.
  destruct (safe_end_refill pc cont k h1 Hok) as ([] & h2 & E2 & _). exists h2. split; [done|].
  unfold in_pool in E2. destruct (end_refill k (pool h1)) as [[[] w2]|] eqn:Ew; [|done].
  injection E2 as <-. simpl. split.
  - intros k'. unfold in_flight. simpl. rewrite (end_refill_count k k' _ _ Ew).
    unfold in_flight_count_for_key. by rewrite Er.
  - assert (avail w2 = avail (pool h1) ∧ disk w2 = disk (pool h1)) as [-> ->].
    { unfold end_refill in Ew. munfold. by injection Ew as <-. }
    destruct r as [t|er].
    + left. exists t. destruct Hr as (Ei & Ek & Hl). done.
    + right. split; [apply Hr|]. intros ->. by eapply (worker_gone (factory su) _ req (reload e [] c h)).
Qed.

(** The tasks that were spawned. *)
Definition spawned (ids : nat → string) (n : nat) : list (string * Action * bool) :=
  (λ i, (ids i, SpawnRefill (ids i), true)) <$> rev (seq 0 n).

Lemma spawned_S ids n : spawned ids (S n) = (ids n, SpawnRefill (ids n), true) :: spawned ids n.
Proof. unfold spawned. by rewrite (seq_S n 0), rev_app_distr. Qed.

Lemma spawn_run k ids n h :
  ∃ h', spawn_refills k ids n h = Some (tt, h') ∧ in_flight k h' = in_flight k h + n ∧
    (∀ k', k' ≠ k → in_flight k' h' = in_flight k' h) ∧ avail (pool h') = avail (pool h) ∧
    sandboxes h' = sandboxes h ∧ store h' = store h ∧ trace h' = trace h ++ spawned ids n.
Proof.
  revert h. induction n as [|n IH]; intros h.
  { exists h. split_and!; try done; first [lia|by rewrite app_nil_r]. }
  rewrite spawned_S. cbn [spawn_refills]. unfold in_pool, begin_refill, note. unfold mbind at 1, M_bind, modify. cbn.
  match goal with |- ∃ h', (_ ≫= _) ?g = _ ∧ _ => unfold mbind at 1, M_bind; cbn end.
  match goal with |- ∃ h', spawn_refills _ _ _ ?g = _ ∧ _ => destruct (IH g) as (h' & -> & Ek & Eo & Ea & Es & Ec & Et) end.
  exists h'. unfold in_flight, in_flight_count_for_key in *. simpl in *. split_and!; try done.
  - rewrite Ek, lookup_insert_eq. simpl. lia.
  - intros k' Hk. rewrite Eo by done. by rewrite lookup_insert_ne.
  - by rewrite Et, <- app_assoc.
Qed.

(** The templates a key has or will have. *)
Definition covered (k : TemplateKey) h : nat := depth k (pool h) + in_flight k h.

(** [pool-refill] brings a key up to its target and not beyond. The
    request never fails once it names its kind; the templates available and in
    flight afterwards are exactly the target, or as many as before when there
    were enough; one task is spawned for each one missing, the reply says how
    many, and neither the templates nor another key's refills change. *)
Theorem refill_reaches_target ids req h :
  json_str (vindex req "kind") = Some "environment" →
  let k := factory_key (factory su) in
  let target := N.to_nat (default 1%N (as_u64 (vindex req "target_depth"))) in
  let need := target - covered k h in
  ∃ h', handle_pool_refill su ids req h =
      Some (Ok (accepted [("kind", VStr "environment"); ("queued", vnat need); ("in_flight", vnat (in_flight k h'))]), h') ∧
    covered k h' = max target (covered k h) ∧
    trace h' = trace h ++ spawned ids need ∧
    avail (pool h') = avail (pool h) ∧ sandboxes h' = sandboxes h ∧
    (∀ k', k' ≠ k → in_flight k' h' = in_flight k' h).
Proof.
  intros Hkind k target need. unfold handle_pool_refill. rewrite Hsu, Hkind. rewrite bool_decide_true by done.
  fold k target. unfold mbind at 1, M_bind, gets at 1. unfold mbind at 1, M_bind, gets at 1.
  change (target - (depth k (pool h) + in_flight_count_for_key k (pool h))) with need.
  destruct (spawn_run k ids need h) as (h' & E & Ek & Eo & Ea & Es & _ & Et).
  exists h'. unfold mbind at 1, M_bind. rewrite E. split; [done|]. split_and!; try done.
  unfold covered. assert (depth k (pool h') = depth k (pool h)) as -> by (unfold depth; by rewrite Ea).
  rewrite Ek. unfold need, covered. lia.
Qed.
End refills.

(** ** The actions of the socket *)
Definition verb_name (v : Verb) : string :=
  match v with
  | SandboxRun => "sandbox-run"
  | SandboxDestroy => "sandbox-destroy"
  | SandboxList => "sandbox-list"
  | SandboxGet => "sandbox-get"
  | TemplateCreate => "template-create"
  | TemplateList => "template-list"
  | TemplateGet => "template-get"
  | PoolStatus => "pool-status"
  | PoolRefill => "pool-refill"
  | PoolGc => "pool-gc"
  | ContinuationList => "continuation-list"
  | ContinuationDelete => "continuation-delete"
  end.

Lemma split_once_app c s a b : split_once c s = Some (a, b) → s = a +:+ String c b.
Proof.
  revert a. induction s as [|x s IH]; intros a; simpl; [done|]. case_bool_decide as Hx.
  - intros [= <- <-]. by subst.
  - destruct (split_once c s) as [[a' b']|]; [|done]. simpl. intros [= <- <-]. simpl. f_equal. by apply IH.
Qed.

Lemma one_of_inv {A} (l : list (string * A)) s v : one_of l s = Some v → (s, v) ∈ l.
Proof.
  unfold one_of. intros ([k x] & E & ->)%fmap_Some. apply find_first_Some in E as [Hin Hb].
  apply bool_decide_eq_true in Hb. simpl in *. by subst.
Qed.

Ltac table H :=
  unfold sandbox_verbs, template_verbs, pool_verbs, continuation_verbs in H;
  rewrite !elem_of_cons, elem_of_nil in H; repeat (destruct H as [[= -> ->]|H]); try done.

Lemma verb_of_inv s v : verb_of s = Some v → s = verb_name v.
Proof.
  unfold verb_of. destruct (split_once "-"%char s) as [[a b]|] eqn:E; cbn [default];
    [apply split_once_app in E as ->|]; intros (vs & Hc & Hv)%bind_Some; apply one_of_inv in Hc, Hv;
    table Hc; table Hv.
Qed.

Section requests.
Context `{TemplateCodec} `{HashOrder} (su : Setup) (ad : Admin) (fresh_ids : nat → string) (sandbox_id : string).
Implicit Types (h : Host) (req : Value).

(** The socket serves exactly the twelve documented actions: each name
    reaches its own handler, and a request with any other action, or without
    one, is refused and changes nothing. *)
Theorem actions_exact :
  (∀ v, verb_of (verb_name v) = Some v) ∧ (∀ s v, verb_of s = Some v → s = verb_name v) ∧
  (∀ req h, (∀ v, action_of req ≠ verb_name v) →
     dispatch su ad fresh_ids sandbox_id req h = Some (refused (UnknownAction (action_of req)), h)).
Proof.
  split_and!; [by intros []|apply verb_of_inv|]. intros req h Hv. unfold dispatch. fold (action_of req).
  destruct (verb_of (action_of req)) as [v|] eqn:E; [|done]. by destruct (Hv v); apply verb_of_inv.
Qed.

(** ** Inspection *)

(** The actions that only report. *)
Definition inspects (v : Verb) : bool :=
  match v with
  | SandboxList | SandboxGet | TemplateList | TemplateGet | PoolStatus | ContinuationList => true
  | _ => false
  end.

(** Nothing but the queue of file-system answers differs. *)
Definition unchanged h0 h : Prop :=
  pool h = pool h0 ∧ tree (store h) = tree (store h0) ∧ metrics h = metrics h0 ∧ sandboxes h = sandboxes h0 ∧
  ext h = ext h0 ∧ trace h = trace h0.

Lemma tree_io T : preserves (λ c : CStore, tree c = T) cio_next.
Proof. intros c a c' Hc. unfold cio_next. destruct (cio c); by intros [= <- <-]. Qed.
#[local] Hint Resolve tree_io : preserve.
Lemma tree_marker T e : preserves (λ c : CStore, tree c = T) (c_marker_exists e).
Proof. unfold c_marker_exists. preserve. Qed.
Lemma tree_load T e : preserves (λ c : CStore, tree c = T) (c_load e).
Proof. unfold c_load. preserve. Qed.
#[local] Hint Resolve tree_marker tree_load : preserve.
Lemma tree_gens T p gs acc : preserves (λ c : CStore, tree c = T) (c_list_gens p gs acc).
Proof. revert acc. induction gs; intros acc; simpl; preserve. Qed.
#[local] Hint Resolve tree_gens : preserve.
Lemma tree_pods T ps acc : preserves (λ c : CStore, tree c = T) (c_list_pods ps acc).
Proof. revert acc. induction ps; intros acc; simpl; preserve. Qed.
#[local] Hint Resolve tree_pods : preserve.
Lemma tree_list T : preserves (λ c : CStore, tree c = T) c_list.
Proof. unfold c_list. preserve. Qed.

Lemma unchanged_list h0 : preserves (unchanged h0) (in_store c_list).
Proof.
  intros h a h' (Ep & Et & Em & Es & Ee & Er). unfold in_store.
  destruct (c_list (store h)) as [[l c]|] eqn:E; [|done]. intros [= <- <-].
  split_and!; try done; simpl. by apply (tree_list _ _ _ _ Et E).
Qed.
Lemma unchanged_store_list h0 : preserves (unchanged h0) (store_list su).
Proof. unfold store_list. case_match; [apply unchanged_list|apply preserves_ret]. Qed.
Lemma unchanged_this h0 id : preserves (unchanged h0) (this id).
Proof. apply preserves_gets. Qed.
#[local] Hint Resolve unchanged_list unchanged_store_list unchanged_this : preserve.

(** The reporting actions change nothing: whatever they answer, the
    pool, the sandboxes, the continuation entries and the metrics are as
    before and no call was made to the outside. *)
Theorem inspection_changes_nothing v req h r h' :
  inspects v = true → handle_verb su ad fresh_ids sandbox_id v req h = Some (r, h') → unchanged h h'.
Proof.
  intros Hv E. cut (preserves (unchanged h) (handle_verb su ad fresh_ids sandbox_id v req)).
  { intros Hp. eapply Hp; [|exact E]. done. }
  destruct v; try done; simpl.
  - unfold handle_sandbox_list. preserve.
  - unfold handle_sandbox_get. preserve.
  - unfold handle_template_list. preserve.
  - unfold handle_template_get. preserve.
  - unfold handle_pool_status. preserve.
  - unfold handle_continuation_list. preserve.
Qed.
End requests.

(** ** Snapshots of ready workloads *)
Section snapshots.
Context `{TemplateCodec} `{HashOrder} (su : Setup) (ad : Admin).
Implicit Types (h : Host) (b : Sandbox) (id : string).

Lemma name_to_cid_container m name cid : name_to_cid m !! name = Some cid → is_Some (m !! cid).
Proof.
  unfold name_to_cid. assert (∀ p, p ∈ hash_iter m → is_Some (m !! p.1)) as Hl.
  { intros [c x] Hp%elem_of_hash_iter. eauto. }
  revert Hl. assert (∀ c, (∅ : gmap string string) !! name = Some c → is_Some (m !! c)) as Hz by done. revert Hz.
  generalize (∅ : gmap string string) as acc. induction (hash_iter m) as [|p l IH]; intros acc Hz Hl; simpl; [apply Hz|].
  apply IH; [|intros q Hq; apply Hl; by right]. intros c. case_match; [|apply Hz].
  rewrite lookup_insert. case_decide; [|apply Hz]. intros [= <-]. apply Hl. by left.
Qed.

Lemma named_targets_containers m ann sock names l :
  named_targets ann sock (name_to_cid m) names = Ok l →
  container_name <$> l = names ∧ Forall (λ t, is_Some (m !! container_id t)) l.
Proof.
  revert l. induction names as [|n names IH]; intros l; simpl; [by intros [= <-]|].
  destruct (name_to_cid m !! n) as [cid|] eqn:E; [|done].
  destruct (named_targets ann sock (name_to_cid m) names) as [l'|]; [|done]. intros [= <-].
  destruct (IH l' eq_refl) as [En Hl]. split; [by rewrite fmap_cons, En|]. constructor; [|done]. by eapply name_to_cid_container.
Qed.

(** Every target of a snapshot is a container of its sandbox. *)
Lemma snapshot_targets_containers b l :
  snapshot_targets b = Ok l → Forall (λ t, is_Some (sb_containers b !! container_id t)) l.
Proof.
  unfold snapshot_targets. destruct (parse_warm_fork_container_names _) as [[names|]|]; [| |done].
  - intros E. by eapply named_targets_containers.
  - unfold only_target. destruct (hash_keys (sb_containers b)) as [|c [|]] eqn:E; [done| |done].
    intros [= <-]. constructor; [|done]. simpl. apply elem_of_hash_keys. rewrite E. by left.
Qed.

Definition target_of (p : Peer) : string * string := (ct_container_id (p_task p), ct_socket_path (p_task p)).

(** The agent's answer as the sandboxer reads it. *)
Definition agent_answer (rs : list (string * TargetCheckStatus)) : list CheckResult :=
  (λ r, mkCheckResult r.1 (bool_decide (r.2 = TARGET_CHECK_OK))) <$> rs.

(** The probe of the targets [l] was passed: no result that came back is a
    refusal, and when the results are the ones the agent computes for those
    targets, every target could be connected to and announced the protocol. *)
Definition passed id (l : list (string * string)) : Prop :=
  Forall (λ c, cr_ok c = true) (ad_check ad id l) ∧
  ∀ peers rs, target_of <$> peers = l → guest_check_inject_socket peers = Some rs →
    ad_check ad id l = agent_answer rs → Forall announces peers.

Lemma passed_results id l : Forall (λ c, cr_ok c = true) (ad_check ad id l) → passed id l.
Proof.
  intros Hok. split; [done|]. intros peers rs _ Hrs E. rewrite E in Hok. apply (guest_check_all peers rs Hrs).
  unfold agent_answer in Hok. rewrite Forall_fmap in Hok. eapply Forall_impl; [exact Hok|].
  intros r Hr. by apply bool_decide_eq_true in Hr.
Qed.

(** A workload that may be snapshotted for forking: it announces the protocol
    and its targets, containers of its own, passed the probe. *)
Record ready b id (l : list WarmForkTarget) : Prop := {
  rd_running : ∃ pid, sb_status b = StRunning pid;
  rd_backend : sb_virtio_blk b = true;
  rd_protocol : default ∅ (sb_annotations b) !! READY_PROTOCOL_ANNOTATION = Some PROTOCOL_V1;
  rd_targets : snapshot_targets b = Ok l;
  rd_containers : Forall (λ t, is_Some (sb_containers b !! container_id t)) l;
  rd_answers : passed id (inject_target <$> l)
}.

Definition no_snapshot (ev : list (string * Action * bool)) : Prop :=
  ∀ d ds, Forall (λ e, e.1.2 ≠ VmSnapshot d ds) ev.

Lemma check_run id l h r h' :
  check_inject_socket ad id l h = Some (r, h') →
  match r with
  | Ok _ => trace h' = trace h ++ [(id, CheckInject l, true)] ∧ passed id l
  | Err _ => ∃ ev, trace h' = trace h ++ ev ∧ no_snapshot ev
  end ∧ sandboxes h' = sandboxes h.
Proof.
  unfold check_inject_socket, field, this, try, call. munfold. simpl.
  set (c := match sandboxes h !! id with Some b => sb_client b | None => false end). destruct c; simpl.
  - destruct (default true (head (ext h))); simpl.
    + destruct (forallb cr_ok _) eqn:Ef; intros [= <- <-]; simpl; (split; [|done]).
      * split; [done|]. apply passed_results, Forall_forall. intros x Hx. rewrite forallb_forall in Ef. apply Ef. by apply list_elem_of_In.
      * eexists. split; [done|]. intros d ds. by repeat constructor.
    + intros [= <- <-]. simpl. split; [|done]. eexists. split; [done|]. intros d ds. by repeat constructor.
  - intros [= <- <-]. split; [|done]. exists []. rewrite app_nil_r. split; [done|]. intros d ds. constructor.
Qed.

Lemma no_snapshot_nil h : ∃ ev, trace h = trace h ++ ev ∧ no_snapshot ev.
Proof. exists []. rewrite app_nil_r. split; [done|]. intros d ds. constructor. Qed.

Lemma warm_fork_check_run id b h r h' :
  (∃ pid, sb_status b = StRunning pid) → sb_virtio_blk b = true →
  warm_fork_check ad id b h = Some (r, h') →
  match r with
  | Ok x => x.1 = PROTOCOL_V1 ∧ ready b id x.2 ∧ trace h' = trace h ++ [(id, CheckInject (inject_target <$> x.2), true)]
  | Err _ => ∃ ev, trace h' = trace h ++ ev ∧ no_snapshot ev
  end.
Proof.
  intros Hrun Hblk. unfold warm_fork_check. case_bool_decide as Hp; simpl.
  2:{ intros [= <- <-]. apply no_snapshot_nil. }
  destruct (snapshot_targets b) as [l|e] eqn:El; [|intros [= <- <-]; apply no_snapshot_nil].
  unfold mbind at 1, M_bind. destruct (check_inject_socket _ _ _ h) as [[[[]|e] h1]|] eqn:Ec; [| |done];
    apply check_run in Ec as [Ec _]; intros [= <- <-]; [|done].
  destruct Ec as [Et Ha]. simpl. split_and!; [done| |done]. split; try done.
  - destruct (default ∅ (sb_annotations b) !! READY_PROTOCOL_ANNOTATION) as [v|]; simpl in Hp; [by subst|done].
  - by apply snapshot_targets_containers.
Qed.

Lemma in_pool_trace {A} (m : M World A) T : preserves (λ h, trace h = T) (in_pool m).
Proof. intros h a h' Hh. unfold in_pool. destruct (m (pool h)) as [[b w]|]; [|done]. by intros [= <- <-]. Qed.
Lemma in_store_trace {A} (m : M CStore A) T : preserves (λ h, trace h = T) (in_store m).
Proof. intros h a h' Hh. unfold in_store. destruct (m (store h)) as [[b w]|]; [|done]. by intros [= <- <-]. Qed.
#[local] Hint Resolve in_pool_trace in_store_trace : preserve.
Lemma prepare_trace tid ty wi T : preserves (λ h, trace h = T) (prepare_snapshot_dir su ad tid ty wi).
Proof. unfold prepare_snapshot_dir. preserve. Qed.
Lemma keep_trace t T : preserves (λ h, trace h = T) (keep_template su t).
Proof. unfold keep_template. preserve. Qed.

(** C3: the VM of a sandbox is frozen for a WarmFork template only after the
    readiness check. In every run of [template-create], whatever every call
    answers, either no snapshot is taken and the request fails, or the sandbox
    is running on virtio-blk with the announced protocol, every target is one
    of its containers, no result of the probe that came back is a refusal, and
    when the results are those the guest agent's [check_inject_socket] computes
    for these targets every target could be connected to and announced the
    protocol version; the probe comes immediately before the snapshot, and a
    template that results records exactly the targets that were probed. (An
    answer without any result passes too: [empty_answer_is_ready].) *)
Theorem snapshot_only_when_ready id tid k h r h' :
  create_from_sandbox su ad id tid k WarmFork None h = Some (r, h') →
  (is_ok r = false ∧ ∃ ev, trace h' = trace h ++ ev ∧ no_snapshot ev) ∨
  ∃ b l d ok, sandboxes h !! id = Some b ∧ ready b id l ∧
    trace h' = trace h ++ [(id, CheckInject (inject_target <$> l), true);
                           (id, VmSnapshot d (snapshot_disks (sb_storages b)), ok)] ∧
    ∀ t, r = Ok t → ok = true ∧ warm_fork_targets t = l ∧ ready_protocol_version t = Some PROTOCOL_V1.
Proof.
  unfold create_from_sandbox. case_match; [intros [= <- <-]; left; split; [done|apply no_snapshot_nil]|].
  rewrite bind_run. unfold this, gets at 1.
  destruct (sandboxes h !! id) as [b|] eqn:Eb; [|intros [= <- <-]; left; split; [done|apply no_snapshot_nil]].
  destruct (sb_status b) as [|pid| |] eqn:Es; cbn [negb];
    try (intros [= <- <-]; left; split; [done|apply no_snapshot_nil]).
  destruct (sb_virtio_blk b) eqn:Eblk; cbn [negb]; [|intros [= <- <-]; left; split; [done|apply no_snapshot_nil]].
  rewrite bool_decide_true by done. rewrite bind_run, bind_run.
  destruct (warm_fork_check ad id b h) as [[[[pv l]|e] h1]|] eqn:Ec; [| |done];
    apply warm_fork_check_run in Ec; eauto; unfold mret, M_ret; cbv beta iota.
  2:{ intros [= <- <-]. left. eauto. }
  destruct Ec as (Hpv & Hr & Et). cbn [fst snd] in *. rewrite bind_run.
  destruct (prepare_snapshot_dir su ad tid WarmFork None h1) as [[[dir|e] h2]|] eqn:Ep; [| |done];
    apply (prepare_trace _ _ _ (trace h1) _ _ _ eq_refl) in Ep.
  2:{ intros [= <- <-]. left. split; [done|]. exists [(id, CheckInject (inject_target <$> l), true)].
      split; [congruence|]. intros d ds. by repeat constructor. }
  unfold try. rewrite bind_run, bind_run. unfold call, mret, M_ret.
  set (ok := default true (head (ext h2))).
  assert (∀ h3, trace h3 = trace h2 ++ [(id, VmSnapshot dir (snapshot_disks (sb_storages b)), ok)] →
    trace h3 = trace h ++ [(id, CheckInject (inject_target <$> l), true);
                           (id, VmSnapshot dir (snapshot_disks (sb_storages b)), ok)]) as Htr.
  { intros h3 E3. rewrite E3, Ep, Et. by rewrite <- app_assoc. }
  destruct ok eqn:E'; cbv beta iota zeta.
  2:{ intros [= <- <-]. right. exists b, l, dir, false. split_and!; [done|done|by apply Htr|done]. }
  rewrite bind_run.
  destruct (keep_template su _ _) as [[[[]|e] h3]|] eqn:Ek; [| |done];
    apply (keep_trace _ _ _ _ _ eq_refl) in Ek; intros [= <- <-]; right; exists b, l, dir, true;
    (split_and!; [done|done|apply Htr; by rewrite Ek|]); [|done].
  intros t [= <-]. simpl. by subst pv.
Qed.
End snapshots.

(** ** A continuation, from the snapshot to the restore *)
Section success.
Context `{TemplateCodec} `{HashOrder} (su : Setup) (sid : string).
Implicit Types (h : Host) (b : Sandbox).

Context (st : CStore).

(** The sandbox [sid] is [b], the store is [st], and every call to the outside
    succeeds. *)
Definition runs_as b h : Prop := sandboxes h !! sid = Some b ∧ ext h = [] ∧ store h = st.

Lemma as_call b a : hoare (runs_as b) (call sid a) (λ r h, r = true ∧ runs_as b h).
Proof. intros h (Hb & He & Es). unfold call. rewrite He. by eexists _, _. Qed.
Lemma as_try b a : hoare (runs_as b) (try sid a) (λ r h, r = Ok tt ∧ runs_as b h).
Proof. eapply hoare_bind; [apply as_call|]. intros r. apply hoare_pure. intros ->. by apply hoare_ret. Qed.
Lemma as_note b a : hoare (runs_as b) (note sid a) (λ _, runs_as b).
Proof. by apply hoare_modify. Qed.
Lemma as_upd b f : hoare (runs_as b) (upd sid f) (λ _, runs_as (f b)).
Proof. apply hoare_modify. intros h (Hb & He & Es). split; [|done]. simpl. by rewrite lookup_alter_eq, Hb. Qed.
Lemma as_field {A} b (f : Sandbox → A) d : hoare (runs_as b) (field sid f d) (λ r h, r = f b ∧ runs_as b h).
Proof. unfold field, this. intros h (Hb & He & Es). unfold mbind, M_bind, gets. simpl. rewrite Hb. by eexists _, _. Qed.
Lemma as_with_client b m : hoare (runs_as b) m (λ _, runs_as b) → hoare (runs_as b) (with_client sid m) (λ _, runs_as b).
Proof.
  intros Hm. unfold with_client. eapply hoare_bind; [apply as_field|]. intros c. apply hoare_pure. intros ->.
  destruct (sb_client b); [done|by apply hoare_ret].
Qed.

Lemma as_connect b : hoare (runs_as b) (init_client sid) (λ r h, r = Ok tt ∧ runs_as (set_client true b) h).
Proof.
  unfold init_client. eapply hoare_bind; [apply as_field|]. intros c. apply hoare_pure. intros ->.
  destruct (sb_client b) eqn:Ec.
  - apply hoare_ret. intros h Hb. split; [done|]. destruct b. simpl in *. by subst.
  - eapply hoare_bind; [apply as_call|]. intros r. apply hoare_pure. intros ->.
    eapply hoare_bind; [apply as_upd|]. intros []. by apply hoare_ret.
Qed.

(** What a continuation restore makes of its slot. *)
Definition revived (src : RestoreSource) b : Sandbox :=
  let b1 := set_client true b in
  let b2 := set_storages (λ _, remap_restored_storage_artifacts (sb_base_dir b) (rs_storages src)) b1 in
  set_status (StRunning (vmm_pid su sid)) (set_restore (set_orphans (rs_orphan_container_ids src) (sb_restore b2)) b2).

Lemma as_restore src b :
  rs_snapshot_type src = Continuation →
  hoare (runs_as b) (restore_vm su sid src) (λ r h, r = Ok tt ∧ runs_as (revived src b) h).
Proof.
  intros Ety. unfold restore_vm, try_restore. rewrite Ety.
  eapply (hoare_bind _ _ _ (λ r h, r = Ok tt ∧ runs_as (revived src b) h));
    [|intros r; apply hoare_pure; intros ->; by apply hoare_ret].
  eapply hoare_bind; [apply as_try|]. intros r. apply hoare_pure. intros ->.
  eapply hoare_bind; [apply as_connect|]. intros r. apply hoare_pure. intros ->.
  eapply (hoare_bind _ _ _ (λ r h, r = Ok tt ∧ runs_as _ h)).
  { unfold take_storages. eapply hoare_bind; [eapply hoare_bind; [apply as_upd|]; intros []; apply as_upd|]. intros [].
    eapply hoare_bind; [apply as_with_client, as_note|]. intros []. apply hoare_ret. intros h Hb. split; [done|exact Hb]. }
  intros r. apply hoare_pure. intros ->. rewrite (bool_decide_false (Continuation = Environment)) by done.
  eapply hoare_seq; [by apply hoare_ret|]. intros [].
  eapply hoare_bind; [apply as_with_client, as_note|]. intros [].
  eapply hoare_bind; [apply as_upd|]. intros [].
  eapply (hoare_bind _ _ _ (λ _, runs_as (revived src b))); [|intros []; by apply hoare_ret].
  case_bool_decide; [|by apply hoare_ret]. unfold cleanup_work_dir.
  eapply hoare_bind; [apply as_call|]. intros r. apply hoare_ret. by intros h [].
Qed.

Lemma as_slot src b net fail :
  rs_snapshot_type src = Continuation →
  hoare (runs_as b) (restore_slot su sid src net fail) (λ r h, r = Ok tt ∧ runs_as (revived src b) h).
Proof.
  intros Ety. unfold restore_slot. eapply hoare_bind; [by apply as_restore|]. intros r. apply hoare_pure. intros ->.
  eapply hoare_bind; [apply as_field|]. intros p. apply hoare_pure. intros ->.
  eapply (hoare_bind _ _ _ (λ r h, r = Ok tt ∧ runs_as (revived src b) h)).
  { case_bool_decide; [by apply hoare_ret|]. unfold add_to_cgroup. case_match; [by apply hoare_ret|].
    eapply hoare_bind; [apply as_field|]. intros x. apply hoare_pure. intros ->. apply as_try. }
  intros r. apply hoare_pure. intros ->. unfold dump.
  eapply hoare_bind; [apply as_try|]. intros r. apply hoare_pure. intros ->. by apply hoare_ret.
Qed.
End success.

Section roundtrip.
Context `{TemplateCodec} `{HashOrder} (su : Setup) (ad : Admin).
Implicit Types (h : Host) (b : Sandbox) (w : WorkloadIdentity).

(** A continuation snapshot that succeeded is the template of its sandbox,
    stored unconsumed. *)
Lemma snapshot_stored id tid k w t h h1 :
  cio (store h) = [] →
  create_from_sandbox su ad id tid k Continuation (Some w) h = Some (Ok t, h1) →
  ∃ b m, continuation_store su = true ∧ sandboxes h !! id = Some b ∧
    t = sandbox_template su ad b tid (from_workload_identity (pod_uid w) (generation w)) Continuation (Some w) None m ∧
    cio (store h1) = [] ∧ lookup_entry (entry_dir w) (store h1) = Some (mkDir (Some (to_json t)) false).
Proof.
  intros Hio. unfold create_from_sandbox. rewrite (bool_decide_true (Continuation = Continuation)) by done. cbn [negb andb].
  rewrite bind_run. unfold this, gets at 1. destruct (sandboxes h !! id) as [b|] eqn:Eb; [|done].
  destruct (negb (match sb_status b with StRunning _ => true | _ => false end)); [done|].
  destruct (negb (sb_virtio_blk b)); [done|].
  rewrite (bool_decide_false (Continuation = WarmFork)) by done. rewrite bind_run. unfold mret, M_ret. cbv beta iota zeta.
  rewrite bind_run. unfold prepare_snapshot_dir. destruct (continuation_store su) eqn:Ecs; cbn [negb]; [|done].
  rewrite bind_run. unfold in_store at 1, c_snapshot_exists, c_dir_exists, cio_next. munfold. rewrite Hio. simpl.
  destruct (lookup_entry (entry_dir w) (store h)) as [d0|] eqn:Ed; [by rewrite bool_decide_true by eauto|].
  rewrite bool_decide_false by by intros []. simpl.
  destruct (c_create_dir_all_free (entry_dir w) (store h) Hio) as (c0 & E0 & Hio0 & Hd0). rewrite Ed in Hd0. simpl in Hd0.
  unfold in_store. simpl. rewrite E0. simpl. destruct (default true (head (ext h))); [|done]. simpl.
  unfold keep_template. cbn [Types.snapshot_type sandbox_template]. rewrite Ecs. cbn [negb].
  unfold in_store. munfold. simpl.
  match goal with |- context [c_save ?u c0] => set (t0 := u) end.
  destruct (c_save t0 c0) as [[[[]|e] c1]|] eqn:Es; [|done|done]. simpl. intros [= <- <-].
  destruct (c_save_stored w t0 c0 c1) as [Hio1 Hd1]; [done|done| |done|].
  { intros d. rewrite Hd0. by intros [= <-]. }
  exists b, (be_snapshot (ad_env ad) id (continuation_path ad w)). done.
Qed.

(** C4: a continuation that was snapshotted is the one that is restored.
    When [template-create] succeeded for a workload, nothing else used the store
    since, and neither the store's file system nor a call to the outside fails,
    [sandbox-run] for the same pod and generation on any fresh slot succeeds: the
    slot runs with the storages of the snapshotted sandbox (their images renamed
    into the slot's directory), its device counter and its containers as
    orphans, and owns the template; an acquisition of the workload after that
    finds nothing. (With a failing marker or two acquisitions at once a
    continuation can be taken twice: [acquire_twice_on_marker_error],
    [concurrent_acquires_both_win].) *)
Theorem continuation_restored id tid k w t h h1 sid b0 h2 :
  cio (store h) = [] →
  create_from_sandbox su ad id tid k Continuation (Some w) h = Some (Ok t, h1) →
  store h2 = store h1 → ext h2 = [] → sandboxes h2 !! sid = Some b0 → sb_status b0 = StCreated →
  ∃ b b' h3 c, sandboxes h !! id = Some b ∧
    restore_sandbox_continuation su sid (pod_uid w) (generation w) h2 = Some (Ok tid, h3) ∧
    sandboxes h3 !! sid = Some b' ∧ sb_status b' = StRunning (vmm_pid su sid) ∧
    template_id (sb_restore b') = Some tid ∧ template_snapshot_type (sb_restore b') = Some Continuation ∧
    sb_storages b' = remap_restored_storage_artifacts (sb_base_dir b0) (sb_storages b) ∧
    sb_id_generator b' = sb_id_generator b ∧ r_orphan_container_ids (sb_restore b') = orphans_of b ∧
    c_acquire w (store h3) = Some (None, c).
Proof.
  intros Hio E1 Est Eext Eb0 Es0.
  destruct (snapshot_stored _ _ _ _ _ _ _ Hio E1) as (b & m & Ecs & Eb & Et & Hio1 & Hd1).
  rewrite <- Est in Hio1, Hd1.
  pose proof (c_acquire_stored w t (store h2) ltac:(by rewrite Et) ltac:(by rewrite Et) Hio1 Hd1) as Eacq.
  set (c2 := alter_entry (λ d, mkDir (d_meta d) true) (entry_dir w) (store h2)) in Eacq.
  assert (cio c2 = []) as Hio2 by done.
  assert (lookup_entry (entry_dir w) c2 = Some (mkDir (Some (to_json t)) true)) as Hd2.
  { unfold c2. rewrite lookup_alter_entry, decide_True by done. by rewrite Hd1. }
  destruct (unavailable_acquire w c2) as [c3 E3]; [|done|].
  { split; [unfold orderly; by rewrite Hio2|]. rewrite Hd2. intros d [= <-]. by left. }
  set (reflink := match template_pool su with Some pc => reflink_supported pc | None => false end).
  set (b1 := set_id_generator (id_generator t) (set_restore (mkRestore (Some (pt_id t)) (Some Continuation) (Some Exclusive)
    (Some reflink) (memory_restore_mode (sb_restore b0)) (r_orphan_container_ids (sb_restore b0))) b0)).
  set (src := source_of su t Continuation None).
  assert (hoare (runs_as sid c2 b0)
    (record_restore sid (pt_id t) Continuation Exclusive reflink;; upd sid (set_id_generator (id_generator t));;
     r ← restore_slot su sid src (mret tt) (in_store (c_fail t));
     match r with Ok _ => mret (Ok (pt_id t)) | Err e => mret (Err e) end)
    (λ r h3, r = Ok tid ∧ runs_as sid c2 (revived su sid src b1) h3)) as Hrun.
  { eapply hoare_bind; [apply as_upd|]. intros []. eapply hoare_bind; [apply as_upd|]. intros [].
    eapply hoare_bind; [by apply as_slot|]. intros r. apply hoare_pure. intros ->. apply hoare_ret.
    intros h3 H3. split; [by rewrite Et|done]. }
  destruct (Hrun (mkHost (pool h2) c2 (metrics h2) (sandboxes h2) (ext h2) (trace h2))) as (r & h3 & Er & -> & Hb3 & _ & Hst3);
    [done|].
  exists b, (revived su sid src b1), h3, c3. split_and!; try done.
  - unfold restore_sandbox_continuation. rewrite bind_run. unfold this, gets at 1. rewrite Eb0, Es0, Ecs. cbn [negb].
    rewrite bind_run. unfold in_store at 1. destruct w as [uid g]. simpl in *. rewrite Eacq. exact Er.
  - simpl. by rewrite Et.
  - simpl. by rewrite Et.
  - simpl. by rewrite Et.
  - simpl. by rewrite Et.
  - by rewrite Hst3.
Qed.
End roundtrip.

(** ** Concrete runs *)
#[local] Existing Instance plain_codec.
#[local] Existing Instance listing_order.

Lemma demo_free : free_id demo_cont (demo_host 1) "r1".
Proof.
  split_and!; [|done|].
  - intros u (k & q & Hq & _). vm_compute in Hq. by destruct k.
  - intros j b Hj. vm_compute in Hj. by destruct j.
Qed.

Lemma refill_settles_witness :
  ∃ h', perform (demo_setup OnDemand) demo_shared demo_admin (OpRefill (mkKey env_key) "r1")
      (reload [] [] [] (demo_host 1)) = Some (tt, h') ∧ in_flight (mkKey env_key) h' = 0.
Proof.
  destruct (refill_settles (demo_setup OnDemand) demo_shared eq_refl demo_admin demo_cont (demo_host 1)
    (mkKey env_key) "r1" [] [] [] (demo_host_reachable 1 ltac:(lia)) demo_free) as (h' & E & Ec & _).
  exists h'. split; [exact E|]. rewrite Ec. vm_compute. reflexivity.
Defined.

Definition demo_refill : Value :=
  VObj [("action", VStr "pool-refill"); ("kind", VStr "environment"); ("target_depth", VNum 3)].

Lemma refill_reaches_target_witness :
  ∃ h' r, handle_pool_refill (demo_setup OnDemand) (λ i, pretty i) demo_refill (demo_host 1) = Some (r, h') ∧
    covered (mkKey env_key) h' = 3.
Proof.
  destruct (refill_reaches_target (demo_setup OnDemand) demo_shared eq_refl (λ i, pretty i) demo_refill (demo_host 1) eq_refl)
    as (h' & E & Ec & _).
  exists h'; eexists. split; [exact E|]. etrans; [exact Ec|]. vm_compute. reflexivity.
Defined.

Lemma inspection_changes_nothing_witness :
  ∃ r h', handle_verb (demo_setup OnDemand) demo_admin (λ i, pretty i) "n1" SandboxList VNull (demo_host 3) = Some (r, h') ∧
    unchanged (demo_host 3) h'.
Proof.
  destruct (handle_verb (demo_setup OnDemand) demo_admin (λ i, pretty i) "n1" SandboxList VNull (demo_host 3)) as [[r h']|] eqn:E;
    [|discriminate].
  exists r, h'. split; [reflexivity|].
  exact (inspection_changes_nothing (demo_setup OnDemand) demo_admin (λ i, pretty i) "n1" SandboxList VNull (demo_host 3) r h' eq_refl E).
Defined.

(** A running sandbox on virtio-blk with one container that is ready. *)
Definition blk_policy : ContainerStoragePolicy := mkPolicy VIRTIO_BLK true false 20 50 1024 64 8.
Definition ready_box : Sandbox :=
  mkSandbox (StRunning 7) "/run/s1" "" (Some {[READY_PROTOCOL_ANNOTATION := "1"]}) None
    {["k1" := mkContainer "k1" (mkContainerData "k1" None [] None [] "") [] []]} [] 4 None true "" blk_policy no_restore.
Definition fresh_slot : Sandbox :=
  mkSandbox StCreated "/run/s2" "" None None ∅ [] 0 None false "" blk_policy no_restore.
Definition ready_host : Host :=
  mkHost empty_world (mkCStore (Some ∅) []) metrics_default {["s1" := ready_box; "s2" := fresh_slot]} [] [].

(** The guest of [ready_box]: its only container listens on the default
    socket and announces version 1; the admin service gets the agent's own
    answer. *)
Definition ready_peer (x : string * string) : Peer :=
  mkPeer (mkTask x.1 x.2 "" ∅ "") (λ _ _, None) (mkConn [Some (CapabilitiesMsg (mkCapabilities "1" []))] [] [] 9).
Definition probing_admin : Admin :=
  mkAdmin (ad_env demo_admin) (λ _ l, from_option agent_answer [] (guest_check_inject_socket (ready_peer <$> l)))
    (ad_base_dir demo_admin) (ad_continuation_dir demo_admin).

Lemma snapshot_only_when_ready_witness :
  ∃ r h' b l d ok,
    create_from_sandbox (demo_setup OnDemand) probing_admin "s1" "w1" "key" WarmFork None ready_host = Some (r, h') ∧
    ready probing_admin b "s1" l ∧
    trace h' = [("s1", CheckInject (inject_target <$> l), true); ("s1", VmSnapshot d (snapshot_disks (sb_storages b)), ok)] ∧
    ad_check probing_admin "s1" (inject_target <$> l) = [mkCheckResult "k1" true] ∧
    announces (ready_peer ("k1", DEFAULT_READINESS_SOCKET)).
Proof.
  destruct (create_from_sandbox (demo_setup OnDemand) probing_admin "s1" "w1" "key" WarmFork None ready_host) as [[r h']|] eqn:E;
    [|discriminate].
  destruct (snapshot_only_when_ready (demo_setup OnDemand) probing_admin "s1" "w1" "key" ready_host r h' E)
    as [[Hr _]|(b & l & d & ok & Hs & Hb & Ht & _)].
  - exfalso. vm_compute in E. injection E as <- <-. discriminate Hr.
  - exists r, h', b, l, d, ok. split; [reflexivity|]. split; [exact Hb|]. split; [exact Ht|].
    destruct Hb as [_ _ _ Htg _ [_ Hag]]. vm_compute in Hs. injection Hs as <-. vm_compute in Htg. injection Htg as <-.
    split; [vm_compute; reflexivity|].
    eapply Forall_inv. apply (Hag [ready_peer ("k1", DEFAULT_READINESS_SOCKET)] [("k1", TARGET_CHECK_OK)]); vm_compute; reflexivity.
Defined.

Definition demo_workload : WorkloadIdentity := mkIdentity "pod-a" 3.

Lemma continuation_restored_witness :
  ∃ h1 t h3, create_from_sandbox (demo_setup OnDemand) demo_admin "s1" "c1" "" Continuation (Some demo_workload) ready_host
      = Some (Ok t, h1) ∧
    restore_sandbox_continuation (demo_setup OnDemand) "s2" "pod-a" 3 h1 = Some (Ok "c1", h3).
Proof.
  destruct (create_from_sandbox (demo_setup OnDemand) demo_admin "s1" "c1" "" Continuation (Some demo_workload) ready_host)
    as [[[t|e] h1]|] eqn:E; [|exfalso; vm_compute in E; discriminate..].
  assert (ext h1 = [] ∧ sandboxes h1 !! "s2" = Some fresh_slot) as [Ee Es].
  { vm_compute in E. injection E as <- <-. split; reflexivity. }
  destruct (continuation_restored (demo_setup OnDemand) demo_admin "s1" "c1" "" demo_workload t ready_host h1 "s2" fresh_slot h1
    eq_refl E eq_refl Ee Es eq_refl) as (b & b' & h3 & c & _ & Er & _).
  exists h1, t, h3. split; [reflexivity|exact Er].
Defined.
