(* ===== verification/HostCases.v ===== *)
(** * Containers, restores and the admin service: cases worth knowing

    Evaluated runs that end differently from what the surrounding code
    suggests: of the container operations, of the restore paths of the
    sandboxer, and of the admin service, whose error paths leave things behind
    and where two requests treat the same field differently. *)
From S2P Require Import Prelude Strs Storage Types Metrics Disk Pool PoolLemmas PoolSys PoolProps Continuation Mount GuestFile GuestScan Frame Inject Annotations Box BlockImage StorageOps Handlers BoxCalm StorageProps DeviceGraph StorageClaims HandlerProps Sandboxer SandboxerInv SandboxerProps HostInv Builder Service ServiceApi ServiceInv SandboxerSys ServiceProps.

#[local] Existing Instance plain_codec.
#[local] Existing Instance listing_order.

(** ** Containers and storages *)

Definition after {A} (m : M Box A) (x : Box) : Box := match m x with Some (_, x') => x' | None => x end.

(** A block special file is attached before its file system is probed; when
    [blkid] fails the device stays in the VM and no storage knows it. *)
Example probe_failure_leaks_device :
  let m := mkMount "/data" "bind" "/dev/vdb" [] in
  let x := after (attach_storage demo_outside "c1" m false) (demo_box [true; true; false]) in
  sb_storages (bx x) = [] ∧ plugged (bx_log x) = {["blk2"]}.
Proof. vm_compute. done. Qed.

(** Two containers of different images: each has its own storage, but the
    second container's root is the first one's mount point, because the root
    is looked up by source and type only. *)
Definition two_images : Box := run_box [BoxAppend "c2" (other_data "c2")] (with_outcomes [true; false] demo_one).
Example second_root_is_the_first :
  (s_id <$> sb_storages (bx two_images)) = ["storage1"; "storage4"] ∧
  (root_path <$> (c ← sb_containers (bx two_images) !! "c2"; s ← cd_spec (kc_data c); sp_root s)) =
    Some "/run/kuasar/storage/containers/storage1".
Proof. vm_compute. done. Qed.

(** Two containers of one image: the second reuses the first one's writable
    image although their upper directories differ. *)
Example writable_root_is_shared :
  let x := run_box [BoxAppend "c2" (demo_data "c2")] (with_outcomes [true] demo_one) in
  (λ s, (s_id s, s_options s, map_to_list (ref_container s))) <$> sb_storages (bx x) =
    [("storage1", [], [("c1", 1%N); ("c2", 1%N)])] ∨
  (λ s, (s_id s, s_options s, map_to_list (ref_container s))) <$> sb_storages (bx x) =
    [("storage1", [], [("c2", 1%N); ("c1", 1%N)])].
Proof. vm_compute. auto. Qed.

(** Adding a container whose id exists, when its bundle directory cannot be
    created: the first handler fails and is rolled back itself, which drops
    the container that was there. *)
Example failed_readd_drops_container :
  let x := after (append_container demo_outside "c1" (demo_data "c1")) (with_outcomes [false] demo_one) in
  sb_containers (bx demo_one) !! "c1" ≠ None ∧ sb_containers (bx x) !! "c1" = None.
Proof. vm_compute. done. Qed.

(** The pipes a container got before one could not be attached stay attached:
    they are recorded only when all of them and the file succeeded. *)
Example partial_pipes_leak :
  let o := mkContainerData "c3" (Some demo_spec) [] (Some (mkIo "/p/in" "/p/out" "" false)) [] "/b" in
  let x := after (append_container demo_outside "c3" o) (demo_box (repeat true 6 ++ [false])) in
  sb_containers (bx x) = ∅ ∧ plugged (bx_log x) = {["virtioserial1"]}.
Proof. vm_compute. done. Qed.

(** ** The restore paths *)

Definition calls_of (h : Host) : list (Action * bool) := (λ x, (x.1.2, x.2)) <$> trace h.

(** ** The guest client after a failed restore *)

(** The calls of a start: hook, restore the VM, connect, hotplug fails, the VM
    is stopped; then the cold boot. *)
Definition failed_hotplug : list bool := [true; true; true; true; true; false].

Definition after_fallback : Host :=
  run_host (start (demo_setup OnDemand) demo_wakes "s1") (reload failed_hotplug [] [] (demo_host 2)).

(** [init_client] connects only when no client is set and a failed restore
    leaves the client of the stopped VM in place: the freshly booted VM is used
    without a connection to it. *)
Example fallback_reuses_client :
  drop (length (trace (demo_host 2))) (calls_of after_fallback) =
    [(StatSnapshot "/snap" "state.json", true); (StatSnapshot "/snap" "/pmem", true); (HookPreStart, true);
     (VmRestore "/snap", true); (ConnectClient, true); (HotplugNetwork, false); (VmStop, true);
     (CleanupWorkDir, true);
     (HookPreStart, true); (VmStart, true); (SetupSandbox, true); (ForwardEvents, true); (HookPostStart, true);
     (Dump, true)].
Proof. vm_compute. reflexivity. Qed.

(** ** A pin that is never released *)

(** The pod names an Environment template by id. *)
Definition by_id_host : Host :=
  foldl (λ h o, run_host (perform (demo_setup OnDemand) demo_shared demo_admin o) h) empty_host
    [OpPool (RAdd demo_env);
     OpCreate "s1" "/run/s1" "" (Some {[TEMPLATE_ID_ANNOTATION := "e1"]}) None None;
     OpStart "s1" (λ _, []); OpDelete "s1"].

(** [start_with_template_id] returns before the lease exists, so the restore
    reference it took stays: the template can never be collected. *)
Example by_id_wrong_kind_leaks :
  sandboxes by_id_host = ∅ ∧ restores (pool by_id_host) !! "e1" = Some 1.
Proof. vm_compute. split; reflexivity. Qed.

(** ** Two deletions at once *)

(** [delete] clones the map before it waits for the sandbox's mutex: two
    deletions of one sandbox both run the part under the mutex. Two sandboxes
    reference the template; one is deleted twice. *)
Definition two_sandboxes : Host :=
  foldl (λ h o, run_host (perform (demo_setup OnDemand) demo_shared demo_admin o) h) empty_host
    [OpPool (RAdd demo_env);
     OpCreate "s1" "/run/s1" "" None None None; OpStart "s1" (λ _, []);
     OpCreate "s2" "/run/s2" "" None None None; OpStart "s2" (λ _, [])].
Definition deleted_twice : Host :=
  run_host (_ ← delete_held (demo_setup OnDemand) "s1"; _ ← delete_held (demo_setup OnDemand) "s1";
            set_sandboxes (delete "s1")) two_sandboxes.

Example double_delete_drops_reference :
  in_use (pool two_sandboxes) !! "e1" = Some 2 ∧
  length (owing_sandboxes (Referencing, "e1") (sandboxes deleted_twice)) = 1 ∧
  in_use (pool deleted_twice) !! "e1" = None.
Proof. vm_compute. split_and!; reflexivity. Qed.

(** ** The admin service *)

Definition demo_su : Setup := demo_setup OnDemand.
Definition send (req : Value) (sid : string) (h : Host) : option (Value * Host) :=
  dispatch demo_su demo_admin (λ _, "0123456789abcdef") sid req h.
Definition reply {A} (o : option (Value * A)) : option Value := fst <$> o.

(** ** Generations *)
Definition cont_host : Host :=
  run_host (create_from_sandbox demo_su demo_admin "s1" "c1" "" Continuation (Some demo_workload)) ready_host.

Definition too_large : N := (2 ^ 32 + 3)%N.

(** [sandbox-run] cuts a generation off to 32 bits and restores the snapshot
    of another generation, where [template-create] and [continuation-delete]
    refuse the request. *)
Example run_truncates_generation :
  reply (send (VObj [("action", VStr "sandbox-run"); ("snapshot_type", VStr "continuation"); ("pod_uid", VStr "pod-a");
               ("generation", VNum too_large)]) "n1" cont_host)
    = Some (accepted [("sandbox_id", VStr "n1"); ("template_id", VStr "c1")]) ∧
  reply (send (VObj [("action", VStr "continuation-delete"); ("pod_uid", VStr "pod-a"); ("generation", VNum too_large)])
           "n1" cont_host) = Some (refused (InvalidField "generation")).
Proof. vm_compute. split; reflexivity. Qed.

(** ** What failures leave behind *)
Definition missing_template : Value :=
  VObj [("action", VStr "sandbox-run"); ("snapshot_type", VStr "warm_fork"); ("template_key", VStr "none")].

(** The slot is made before the template is looked for, and stays. *)
Example failed_run_leaves_slot :
  match send missing_template "n1" empty_host with
  | Some (v, h) => v = refused (Sb PoolMiss) ∧ sb_status <$> sandboxes h !! "n1" = Some StCreated
  | None => False
  end.
Proof. vm_compute. split; reflexivity. Qed.

(** The id of an Environment template: the restore reference is taken before
    the kind is checked, and no lease exists to give it back. *)
Definition env_by_id : Host :=
  run_host (in_pool (serve demo_shared (RAdd (demo_template "0123456789ab" env_key Environment 5)))) empty_host.

Example run_by_id_leaks :
  match send (VObj [("action", VStr "sandbox-run"); ("snapshot_type", VStr "warm_fork"); ("template_id", VStr "0123456789ab")])
          "n1" env_by_id with
  | Some (v, h) => v = refused (Sb WrongTemplateType) ∧ restores (pool h) !! "0123456789ab" = Some 1
  | None => False
  end.
Proof. vm_compute. split; reflexivity. Qed.

(** The directory is made before the snapshot: when the snapshot fails the
    directory stays, and the same request is refused from then on. *)
Definition snapshot_again : M Host (result PooledTemplate SbError) :=
  create_from_sandbox demo_su demo_admin "s1" "c1" "" Continuation (Some demo_workload).

Example failed_snapshot_blocks_retry :
  match snapshot_again (reload [false] [] [] ready_host) with
  | Some (Err e, h) => e = Failed (VmSnapshot "/cont/pod-a/g3/snapshot" []) ∧
      fst <$> snapshot_again h = Some (Err AlreadySnapshotted)
  | _ => False
  end.
Proof. vm_compute. split; reflexivity. Qed.

(** A VM that was started for a template and whose agent does not answer is
    not stopped. *)
Example failed_build_leaves_vm :
  match create_template_worker (ad_env demo_admin) demo_factory demo_shared
          (CreateTemplateRequest_new_with_lease_mode "r1" Shared) (reload [true; true; false] [] [] empty_host) with
  | Some (Err _, h) => trace h = [("r1", CreateVm, true); ("r1", VmStart, true); ("r1", WaitAgentReady 30, false)]
  | _ => False
  end.
Proof. vm_compute. reflexivity. Qed.

(** ** Smaller things *)

(** The consumed entry of a continuation goes with [delete] and stays with
    [sandbox-destroy]. *)
Definition restored_cont : Host := run_host (restore_sandbox_continuation demo_su "s2" "pod-a" 3) cont_host.

Example destroy_keeps_entry :
  is_Some (lookup_entry ("pod-a", "g3") (store (run_host (destroy_sandbox demo_su "s2") restored_cont))) ∧
  lookup_entry ("pod-a", "g3") (store (run_host (delete_sandbox demo_su "s2") restored_cont)) = None.
Proof. vm_compute. split; [eauto|reflexivity]. Qed.

(** A guest that answers the readiness probe with no result at all passes it. *)
Example empty_answer_is_ready :
  ad_check demo_admin "s1" [("k1", DEFAULT_READINESS_SOCKET)] = [] ∧
  match create_from_sandbox demo_su demo_admin "s1" "w1" "key" WarmFork None ready_host with
  | Some (Ok t, _) => warm_fork_targets t = [mkTarget "" "k1" DEFAULT_READINESS_SOCKET ∅ ""]
  | _ => False
  end.
Proof. vm_compute. split; reflexivity. Qed.

(** The pod uid is a directory name below the store and is not validated. *)
Example pod_uid_not_validated :
  template_subject (VObj [("pod_uid", VStr "../../etc")]) Continuation
    = Ok ("../../etc", Some (mkIdentity "../../etc" 0)) ∧ validate_key "../../etc" = false.
Proof. vm_compute. split; reflexivity. Qed.

(** The counter of created templates is reported and never counted. *)
Example created_is_not_counted :
  match refill_task demo_su (ad_env demo_admin) demo_shared (mkKey env_key) "r1" (demo_host 1) with
  | Some (_, h) => total_depth (pool h) = 1 ∧ templates_created (metrics h) = 0%N
  | None => False
  end.
Proof. vm_compute. split; reflexivity. Qed.
