(* ===== verification/SandboxerPolicy.v ===== *)
(** * The sandboxer: no boot without fallback, and recovery

    Without [fallback_to_fresh_boot] no path of a start boots a fresh VM. After
    a restart the sandboxer reads the sandboxes back, rebuilds the reference
    counts of the pool from their restore metadata and collects the consumed
    templates that no sandbox uses any more. *)
From S2P Require Import Prelude Strs Storage Types Metrics Disk Pool PoolLemmas PoolInv PoolFrame PoolSys PoolProps PoolDisk Continuation ContinuationProps Mount GuestScan Frame Inject Annotations Box BlockImage StorageOps Handlers BoxCalm StorageClaims Sandboxer SandboxerInv SandboxerProps SandboxerSys.
Abbreviation Log := (list (string * Action * bool)).

Section logs.
Context `{TemplateCodec} `{HashOrder} (su : Setup) (id : string).
Implicit Types (t : Log) (h : Host).

(** [m] only adds to the trace, and what it adds satisfies [Q]. *)
Definition logs {A} (m : M Host A) (Q : A → Log → Prop) : Prop :=
  ∀ h a h', m h = Some (a, h') → ∃ t, trace h' = trace h ++ t ∧ Q a t.

(** No VM was started from scratch. *)
Definition no_boot t : Prop := Forall (λ x, x.1.2 ≠ VmStart) t.
(** A VM was restored from a snapshot. *)
Definition restored t : Prop := ∃ d, (id, VmRestore d, true) ∈ t.

Lemma logs_ret {A} (a : A) (Q : A → Log → Prop) : Q a [] → logs (mret a) Q.
Proof. intros Hq h b h' [= <- <-]. exists []. by rewrite app_nil_r. Qed.
Lemma logs_bind {A B} (m : M Host A) (k : A → M Host B) (Q : A → Log → Prop) (R : B → Log → Prop) :
  logs m Q → (∀ a t, Q a t → logs (k a) (λ b t', R b (t ++ t'))) → logs (m ≫= k) R.
Proof.
  intros Hm Hk h b h2. unfold mbind, M_bind. destruct (m h) as [[a h1]|] eqn:E1; [|done]. intros E2.
  destruct (Hm _ _ _ E1) as (t1 & T1 & Q1). destruct (Hk a t1 Q1 _ _ _ E2) as (t2 & T2 & Q2).
  exists (t1 ++ t2). split; [|done]. by rewrite T2, T1, app_assoc.
Qed.
Lemma logs_conseq {A} (m : M Host A) (Q R : A → Log → Prop) :
  logs m Q → (∀ a t, Q a t → R a t) → logs m R.
Proof. intros Hm Hq h a h' E. destruct (Hm _ _ _ E) as (t & T & Ht). eauto. Qed.
Lemma logs_quiet {A} (m : M Host A) (Q : A → Log → Prop) :
  (∀ h a h', m h = Some (a, h') → trace h' = trace h) → (∀ a, Q a []) → logs m Q.
Proof. intros Hm Hq h a h' E. exists []. rewrite app_nil_r. eauto. Qed.

(** ** No boot *)
Definition bootless {A} (m : M Host A) : Prop := logs m (λ _, no_boot).

Lemma bootless_ret {A} (a : A) : bootless (mret a).
Proof. apply logs_ret. constructor. Qed.
Lemma bootless_bind {A B} (m : M Host A) (k : A → M Host B) :
  bootless m → (∀ a, bootless (k a)) → bootless (m ≫= k).
Proof.
  intros Hm Hk. eapply logs_bind; [exact Hm|]. intros a t Ht. eapply logs_conseq; [apply Hk|].
  intros b t' Ht'. by apply Forall_app.
Qed.
Lemma bootless_gets {A} (f : Host → A) : bootless (gets f).
Proof. apply logs_quiet; [by intros h a h' [= <- <-]|constructor]. Qed.
Lemma bootless_panic {A} : bootless (panic (A := A)).
Proof. by intros h a h'. Qed.
Lemma bootless_pool {A} (m : M World A) : bootless (in_pool m).
Proof.
  apply logs_quiet; [|constructor]. intros h a h'. unfold in_pool. destruct (m (pool h)) as [[b w]|]; [|done].
  by intros [= <- <-].
Qed.
Lemma bootless_store {A} (m : M CStore A) : bootless (in_store m).
Proof.
  apply logs_quiet; [|constructor]. intros h a h'. unfold in_store. destruct (m (store h)) as [[b w]|]; [|done].
  by intros [= <- <-].
Qed.
Lemma bootless_count f : bootless (count f).
Proof. apply logs_quiet; [by intros h a h' [= <- <-]|constructor]. Qed.
Lemma bootless_upd f : bootless (upd id f).
Proof. apply logs_quiet; [by intros h a h' [= <- <-]|constructor]. Qed.
Lemma bootless_call a : a ≠ VmStart → bootless (call id a).
Proof.
  intros Ha h b h' [= <- <-]. eexists. split; [reflexivity|]. repeat constructor. done.
Qed.
Lemma bootless_note a : a ≠ VmStart → bootless (note id a).
Proof. intros Ha h b h' [= <- <-]. eexists. split; [reflexivity|]. repeat constructor. done. Qed.
End logs.

Create HintDb bootless.
#[export] Hint Resolve bootless_ret bootless_gets bootless_panic bootless_pool bootless_store bootless_count
  bootless_upd : bootless.

(** Walk over a program without a boot. *)
Ltac bootless :=
  repeat first
    [ solve [eauto 2 with bootless nocore]
    | apply bootless_call; discriminate
    | apply bootless_note; discriminate
    | apply bootless_bind; [|intros ?]
    | progress (repeat case_match) ].

Section policy.
Context `{TemplateCodec} `{HashOrder} (su : Setup) (wakes : TemplateKey → list Wake) (id : string).
Implicit Types (h : Host).

Lemma bootless_try a : a ≠ VmStart → bootless (try id a).
Proof. intros Ha. unfold try. apply bootless_bind; [by apply bootless_call|]. intros b. bootless. Qed.
#[local] Hint Extern 1 (bootless (try _ _)) => apply bootless_try; discriminate : bootless.
Lemma bootless_field {A} (f : Sandbox → A) d : bootless (field id f d).
Proof. unfold field, this. bootless. Qed.
#[local] Hint Resolve bootless_field : bootless.
Lemma bootless_this : bootless (this id).
Proof. apply bootless_gets. Qed.
Lemma bootless_destroy : bootless (destroy_network id).
Proof. unfold destroy_network. bootless. Qed.
Lemma bootless_prepare : bootless (prepare_network su id).
Proof. unfold prepare_network. bootless. Qed.
Lemma bootless_client : bootless (init_client id).
Proof. unfold init_client. bootless. Qed.
#[local] Hint Resolve bootless_this bootless_destroy bootless_prepare bootless_client : bootless.
Lemma bootless_in_box m : calm m → bootless (in_box id m).
Proof.
  intros Hm h r h'. unfold in_box. destruct (sandboxes h !! id) as [b|].
  - destruct (Hm (mkBox b (ext h) [])) as (r' & x & t & E & _ & El & Hf). rewrite E. intros [= <- <-].
    simpl in El. eexists. split; [reflexivity|]. rewrite El. apply Forall_fmap. exact Hf.
  - intros [= <- <-]. exists []. rewrite app_nil_r. split; [done|constructor].
Qed.
Lemma bootless_remove_container cid : bootless (in_box id (remove_container cid)).
Proof. apply bootless_in_box, calm_remove. Qed.
#[local] Hint Resolve bootless_remove_container : bootless.
Lemma bootless_remove_containers force l : bootless (remove_containers id force l).
Proof. induction l; simpl; bootless. Qed.
#[local] Hint Resolve bootless_remove_containers : bootless.
Lemma bootless_stop force : bootless (stop id force).
Proof. unfold stop, stop_running. bootless. Qed.
#[local] Hint Resolve bootless_stop : bootless.
Lemma bootless_push : bootless (push_sandbox_files id).
Proof. unfold push_sandbox_files. bootless. Qed.
Lemma bootless_reseed : bootless (reseed_guest_entropy id).
Proof. unfold reseed_guest_entropy, with_client. bootless. Qed.
Lemma bootless_events : bootless (forward_events id).
Proof. unfold forward_events, with_client. bootless. Qed.
Lemma bootless_setup : bootless (setup_sandbox id).
Proof. unfold setup_sandbox. bootless. Qed.
Lemma bootless_clock : bootless (sync_clock id).
Proof. unfold sync_clock, with_client. bootless. Qed.
Lemma bootless_vm : bootless (rollback_vm id).
Proof. unfold rollback_vm. bootless. Qed.
#[local] Hint Resolve bootless_push bootless_reseed bootless_events bootless_setup bootless_clock bootless_vm : bootless.
Lemma bootless_warm_fork src : bootless (restore_warm_fork su id src).
Proof.
  unfold restore_warm_fork, take_storages, refresh_instance_identity, refresh_network, inject_warm_fork_task.
  bootless.
Qed.
Lemma bootless_environment : bootless (restore_environment id).
Proof. unfold restore_environment. bootless. Qed.
#[local] Hint Resolve bootless_warm_fork bootless_environment : bootless.

(** ** A start that succeeds restored a VM *)
Definition restores_vm (m : M Host (result unit SbError)) : Prop :=
  logs m (λ r t, no_boot t ∧ (r = Ok tt → restored id t)).

Lemma restores_bootless m : restores_vm m → bootless m.
Proof. intros Hm. eapply logs_conseq; [exact Hm|]. by intros a t []. Qed.
Lemma restores_err e : restores_vm (mret (Err e)).
Proof. apply logs_ret. split; [constructor|done]. Qed.
Lemma restores_seq {A} (c : M Host A) (k : A → M Host (result unit SbError)) :
  bootless c → (∀ a, restores_vm (k a)) → restores_vm (c ≫= k).
Proof.
  intros Hc Hk. eapply logs_bind; [exact Hc|]. intros a t Ht. eapply logs_conseq; [apply Hk|].
  intros r t' [Hn Hr]. split; [by apply Forall_app|]. intros E. destruct (Hr E) as [d Hd].
  exists d. apply elem_of_app. by right.
Qed.
Lemma restores_then (c : M Host (result unit SbError)) (k : SbError → M Host unit) m :
  restores_vm c → (∀ e, bootless (k e)) → bootless m →
  restores_vm (r ← c; match r with Ok _ => m | Err e => k e;; mret (Err e) end).
Proof.
  intros Hc Hk Hm. eapply logs_bind; [exact Hc|]. intros [[]|e] t [Hn Hr].
  - eapply logs_conseq; [exact Hm|]. intros r t' Ht'. split; [by apply Forall_app|]. intros _.
    destruct (Hr eq_refl) as [d Hd]. exists d. apply elem_of_app. by left.
  - eapply logs_bind; [apply Hk|]. intros [] t' Ht'. apply logs_ret. rewrite app_nil_r.
    split; [by apply Forall_app|done].
Qed.
Lemma restores_vmrestore dir m :
  bootless m → restores_vm (r ← try id (VmRestore dir); match r with Ok _ => m | Err e => mret (Err e) end).
Proof.
  intros Hm. eapply (logs_bind _ _ (λ r t, no_boot t ∧ (r = Ok tt → restored id t))).
  { intros h a h' [= <- <-]. eexists. split; [reflexivity|]. split; [repeat constructor; discriminate|].
    destruct (default true (head (ext h))); [|discriminate]. intros _. exists dir. by left. }
  intros [[]|e] t [Hn Hr].
  - eapply logs_conseq; [exact Hm|]. intros r t' Ht'. split; [by apply Forall_app|]. intros _.
    destruct (Hr eq_refl) as [d Hd]. exists d. apply elem_of_app. by left.
  - apply logs_ret. by rewrite app_nil_r.
Qed.

Lemma restores_try_restore src : restores_vm (try_restore su id src).
Proof. unfold try_restore, cleanup_work_dir, take_storages. apply restores_vmrestore. bootless. Qed.
Lemma restores_restore_vm src : restores_vm (restore_vm su id src).
Proof. unfold restore_vm, cleanup_work_dir. apply restores_then; [apply restores_try_restore|intros e; bootless|bootless]. Qed.

Lemma bootless_rollback b : bootless (rollback_post_restore su id b).
Proof. unfold rollback_post_restore, clear_template_restore_state. bootless. Qed.
Lemma bootless_pin : bootless (pin_environment su id).
Proof. unfold pin_environment. bootless. Qed.
Lemma bootless_cgroup : bootless (add_to_cgroup su id).
Proof. unfold add_to_cgroup. bootless. Qed.
Lemma bootless_files t : bootless (snapshot_files_ok id t).
Proof. unfold snapshot_files_ok. bootless. Qed.
Lemma bootless_miss pc l : bootless (miss pc l).
Proof. unfold miss, fail_lease. bootless. Qed.
#[local] Hint Resolve bootless_rollback bootless_pin bootless_cgroup bootless_files bootless_miss : bootless.

Create HintDb restores.
#[local] Hint Resolve restores_restore_vm : restores.
(** Walk to the call that restores. *)
Ltac restores :=
  repeat first
    [ apply restores_err
    | solve [eauto 2 with restores nocore]
    | apply restores_then; [solve [eauto 2 with restores nocore]|intros ?; solve [bootless]|solve [bootless]]
    | apply restores_seq; [solve [bootless]|intros ?]
    | progress case_match ].

Lemma restores_start_from_snapshot p : restores_vm (start_from_snapshot su id p).
Proof.
  unfold start_from_snapshot, clear_template_restore_state, dump.
  restores.
Qed.

#[local] Hint Resolve restores_start_from_snapshot : restores.
Lemma restores_continuation w : restores_vm (start_with_continuation_snapshot su id w).
Proof.
  unfold start_with_continuation_snapshot, publish_template_id, clear_template_restore_state. restores.
Qed.
Lemma restores_warm_fork_template pc l lm : restores_vm (restore_from_warm_fork_template su id pc l lm).
Proof.
  unfold restore_from_warm_fork_template. restores.
Qed.
Lemma restores_environment_template pc l lm : restores_vm (restore_from_environment_template su id pc l lm).
Proof.
  unfold restore_from_environment_template. restores.
Qed.
Lemma restores_panic : restores_vm panic.
Proof. by intros h a h'. Qed.
#[local] Hint Resolve restores_continuation restores_warm_fork_template restores_environment_template
  restores_panic : restores.
Lemma restores_template_key k : restores_vm (start_with_template_key su wakes id k).
Proof. unfold start_with_template_key. restores. Qed.
Lemma restores_template_id tid k : restores_vm (start_with_template_id su id tid k).
Proof. unfold start_with_template_id, fail_lease. restores. Qed.
#[local] Hint Resolve restores_template_key restores_template_id : restores.

(** ** No fallback *)
Section no_fallback.
Hypothesis Hany : any_snapshot_restore_enabled su = true.
Hypothesis Hno : fallback_to_fresh_boot (snapshot su) = false.

(** Either it succeeded, having restored, or something else is tried. *)
Lemma restores_or (c m : M Host (result unit SbError)) :
  restores_vm c → restores_vm m →
  restores_vm (r ← c; match r with Ok _ => mret (Ok tt) | Err _ => m end).
Proof.
  intros Hc Hm. eapply logs_bind; [exact Hc|]. intros [[]|e] t [Hn Hr].
  - apply logs_ret. by rewrite app_nil_r.
  - eapply logs_conseq; [exact Hm|]. intros r t' [Hn' Hr']. split; [by apply Forall_app|].
    intros E. destruct (Hr' E) as [d Hd]. exists d. apply elem_of_app. by right.
Qed.

Lemma restores_environment_or_cold : restores_vm (environment_or_cold su wakes id).
Proof.
  unfold environment_or_cold. rewrite Hany, Hno. apply restores_or; restores.
Qed.
#[local] Hint Resolve restores_environment_or_cold : restores.

Lemma restores_warm_fork i c : start_warm_fork su wakes id i = Some c → restores_vm c.
Proof. unfold start_warm_fork. intros E. repeat case_match; simplify_eq; eauto with restores. Qed.

Lemma restores_intent i : restores_vm (start_with_intent su wakes id i).
Proof.
  unfold start_with_intent. destruct (start_warm_fork su wakes id i) as [c|] eqn:Ec;
    [pose proof (restores_warm_fork i c Ec)|]; repeat case_match; simpl; eauto with restores;
    try apply restores_err; by apply restores_or, restores_environment_or_cold.
Qed.
End no_fallback.

(** C20: without [fallback_to_fresh_boot] a sandbox runs from a snapshot or not
    at all. When a template source is configured and any kind of restore is
    enabled, no path of [start] boots a fresh VM, whatever the pod's
    annotations and the outcomes of all calls; and a start that succeeds has
    restored the VM of this sandbox from a snapshot directory. *)
Theorem no_fallback_no_boot h r h' :
  template_pool su ≠ None ∨ continuation_store su = true →
  any_snapshot_restore_enabled su = true → fallback_to_fresh_boot (snapshot su) = false →
  start su wakes id h = Some (r, h') →
  ∃ t, trace h' = trace h ++ t ∧ no_boot t ∧ (r = Ok tt → restored id t).
Proof.
  intros Hsrc Hany Hno. revert h r h'.
  change (restores_vm (start su wakes id)). unfold start.
  assert (bool_decide (is_Some (template_pool su)) || continuation_store su = true) as ->.
  { destruct Hsrc as [Hp| ->]; [|apply orb_true_r]. destruct (template_pool su); [done|by destruct Hp]. }
  pose proof (restores_environment_or_cold Hany Hno). pose proof (restores_intent Hany Hno). restores.
Qed.
End policy.

#[local] Existing Instance plain_codec.
#[local] Existing Instance listing_order.

Definition strict_setup : Setup :=
  mkSetup (Some demo_shared) true (mkSnapshotConfig true true true 4 false OnDemand) demo_factory true
    (λ _, 7%N) (λ _, 42%N) (λ _, mkNetwork true true) (λ _ _, []) demo_outside.

(** The sandbox waits for the refill and is restored. *)
Lemma no_fallback_no_boot_witness :
  ∃ h' t, start strict_setup demo_wakes "s1" (demo_host 2) = Some (Ok tt, h') ∧
    trace h' = trace (demo_host 2) ++ t ∧ no_boot t ∧ restored "s1" t.
Proof.
  destruct (start strict_setup demo_wakes "s1" (demo_host 2)) as [[r h']|] eqn:E;
    [|exfalso; vm_compute in E; discriminate].
  assert (r = Ok tt) as -> by (vm_compute in E; injection E as <- _; reflexivity).
  destruct (no_fallback_no_boot strict_setup demo_wakes "s1" (demo_host 2) (Ok tt) h' (or_intror eq_refl) eq_refl eq_refl E)
    as (t & H1 & H2 & H3).
  exists h', t. split_and!; [reflexivity|exact H1|exact H2|exact (H3 eq_refl)].
Defined.

(** ** Recovery after a restart *)
Section recovery.
Context `{TemplateCodec} `{HashOrder} (su : Setup) (pc : PoolConfig).
Implicit Types (h : Host) (w : World).

(** ** The sandboxes are read without touching the pool or the store *)
Definition steady {A} (m : M Host A) : Prop :=
  ∀ h, ∃ a h', m h = Some (a, h') ∧ pool h' = pool h ∧ store h' = store h.

Lemma steady_keeps {A} id (m : M Host A) : keeps id m → steady m.
Proof. intros Hm h. destruct (Hm h) as (a & h' & E & [Ep Es _ _]). eauto. Qed.
Lemma steady_ret {A} (a : A) : steady (mret a).
Proof. intros h. by exists a, h. Qed.
Lemma steady_bind {A B} (m : M Host A) (k : A → M Host B) : steady m → (∀ a, steady (k a)) → steady (m ≫= k).
Proof.
  intros Hm Hk h. destruct (Hm h) as (a & h1 & E1 & P1 & S1). destruct (Hk a h1) as (b & h2 & E2 & P2 & S2).
  exists b, h2. unfold mbind, M_bind. rewrite E1. split_and!; [done|congruence|congruence].
Qed.
Lemma steady_set f : steady (set_sandboxes f).
Proof. intros h. eexists _, _. done. Qed.

Lemma steady_recover_sandbox id b : steady (recover_sandbox id b).
Proof.
  unfold recover_sandbox. apply steady_bind; [apply steady_set|]. intros [].
  apply (steady_keeps id). unfold recover_running. pose proof (keeps_init_client id).
  pose proof (keeps_sync_clock id). pose proof (keeps_forward_events id). keep.
Qed.
Lemma steady_recover_entry e : steady (recover_entry e).
Proof.
  unfold recover_entry. apply steady_bind; [case_match; [apply steady_recover_sandbox|apply steady_ret]|].
  intros [u|err]; [apply steady_ret|].
  do 2 (apply steady_bind; [apply (steady_keeps e.1), keeps_call|intros _]). apply steady_set.
Qed.
Lemma steady_recover_entries l : steady (recover_entries l).
Proof.
  induction l as [|e l IH]; simpl; [apply steady_ret|]. apply steady_bind; [apply steady_recover_entry|].
  by intros [].
Qed.

(** ** The counts *)
Lemma bump_all_count (l : list string) (m : gmap string nat) i :
  default 0 (foldl (λ m j, bump j m) m l !! i) = default 0 (m !! i) + length (filter (λ j, j = i) l).
Proof.
  revert m. induction l as [|j l IH]; intros m; simpl; [lia|]. rewrite IH, filter_cons. unfold bump.
  rewrite lookup_insert. destruct (decide (j = i)) as [->|Hne]; simpl; lia.
Qed.

Lemma count_omap_cons {A} (f : A → option string) x l i :
  length (filter (λ j, j = i) (omap f (x :: l))) =
    (if decide (f x = Some i) then 1 else 0) + length (filter (λ j, j = i) (omap f l)).
Proof.
  simpl. destruct (f x) as [j|]; [|done]. rewrite filter_cons.
  destruct (decide (j = i)) as [->|Hne]; [by rewrite decide_True|by rewrite decide_False by congruence].
Qed.

Lemma owes_reference r i :
  (if decide (owes r = Some (Referencing, i)) then 1 else 0) =
    (if decide ((if is_shared_ref r then template_id r else None) = Some i) then 1 else 0) +
    (if decide ((if is_shared_ref r then None else if pins_environment r then template_id r else None) = Some i)
     then 1 else 0).
Proof.
  unfold owes, is_shared_ref, pins_environment.
  destruct (template_id r) as [tid|], (template_snapshot_type r) as [[]|], (r_lease_mode r) as [[]|],
    (memory_restore_mode r) as [[]|]; simpl; repeat case_decide; simplify_eq/=; done.
Qed.

Lemma references_of_metadata (bs : list Sandbox) i :
  length (filter (λ j, j = i) (shared_ids bs ++ pinned_ids bs)) =
    length (filter (λ b, owes (sb_restore b) = Some (Referencing, i)) bs).
Proof.
  rewrite filter_app, length_app. unfold shared_ids, pinned_ids.
  induction bs as [|b bs IH]; [done|]. rewrite filter_cons, !count_omap_cons.
  pose proof (owes_reference (sb_restore b) i) as Ho.
  destruct (decide (owes (sb_restore b) = Some (Referencing, i))); cbn [length]; lia.
Qed.

Lemma values_of_sandboxes (m : gmap string Sandbox) k :
  length (filter (λ b, owes (sb_restore b) = Some k) (hash_values m)) = length (owing_sandboxes k m).
Proof.
  unfold hash_values, owing_sandboxes. rewrite hash_iter_perm.
  induction (map_to_list m) as [|[j b] l IH]; [done|]. rewrite fmap_cons, !filter_cons. simpl.
  destruct (decide (owes (sb_restore b) = Some k)); simpl; by rewrite IH.
Qed.

(** ** The collection of consumed templates *)
Section collect.
Context (active : gset string) (w0 : World).
Definition spared w : Prop :=
  in_use w = in_use w0 ∧ avail w = avail w0 ∧ restores w = restores w0 ∧
  ∀ d : DirKey, d.2 ∈ active → disk w !! d = disk w0 !! d.

Lemma spared_io : hoare spared io_next (λ _, spared).
Proof.
  intros w Hw. unfold io_next. destruct (io w) as [|o l]; eexists _, _; (split; [done|]); [done|]. by destruct Hw.
Qed.
Lemma spared_entry d : hoare spared (gc_orphan_entry active d) (λ _, spared).
Proof.
  unfold gc_orphan_entry, marker_exists. eapply hoare_seq.
  { eapply hoare_seq; [apply spared_io|]. intros o. eapply hoare_seq; [by apply hoare_gets|]. intros m.
    case_match; by apply (hoare_ret _ _ (λ _, spared)). }
  intros r. case_match; [|by apply hoare_ret]. case_match; [|by apply hoare_ret].
  case_bool_decide as Hd; [by apply hoare_ret|]. apply hoare_ignore. unfold remove_dir_all.
  eapply hoare_seq; [apply spared_io|]. intros o.
  eapply hoare_seq; [by apply hoare_gets|]. intros m.
  assert (∀ f, (∀ (x : gmap DirKey Dir) (d' : DirKey), d' ≠ d → f x !! d' = x !! d') →
    hoare spared (modify (set_disk f)) (λ _, spared)) as Hmod.
  { intros f Hf. apply hoare_modify. intros w (E1 & E2 & E3 & E4). split_and!; try done.
    intros d' Hd'. simpl. rewrite Hf; [by apply E4|]. by intros ->. }
  repeat case_match; try (by apply hoare_ret);
    (eapply hoare_seq; [apply Hmod|intros _; by apply hoare_ret]); intros x d' Hne;
    first [by rewrite lookup_delete_ne | by rewrite lookup_alter_ne].
Qed.
Lemma spared_entries l : hoare spared (for_entries (gc_orphan_entry active) l) (λ _, spared).
Proof.
  induction l as [|d l IH]; simpl; (eapply hoare_seq; [apply spared_io|]); intros o; case_match;
    try (by apply hoare_ret). eapply hoare_seq; [apply spared_entry|]. by intros _.
Qed.
Lemma spared_gc : hoare spared (gc_orphaned_consumed active) (λ _, spared).
Proof.
  assert (∀ sd, hoare spared (scan_subdir (gc_orphan_entry active) sd) (λ _, spared)) as Hs.
  { intros sd. unfold scan_subdir. eapply hoare_seq; [apply spared_io|]. intros o.
    case_match; [|by apply hoare_ret]. eapply hoare_seq; [by apply hoare_gets|]. intros l. apply spared_entries. }
  unfold gc_orphaned_consumed. eapply hoare_seq; [apply Hs|]. intros _. apply Hs.
Qed.
End collect.

(** C21: recovery. Whatever [sandbox.json] files are found and whatever the
    calls and the file system answer, recovery ends; afterwards the pool's
    [in_use_count] of every template is the number of recovered sandboxes
    that reference it by their metadata, so a later deletion releases exactly
    what was counted; and the collection of consumed templates left the
    directories of every template a recovered sandbox runs from as they were. *)
Theorem recovery_rebuilds_references entries h :
  template_pool su = Some pc →
  ∃ h', recover su entries h = Some (tt, h') ∧
    (∀ i, default 0 (in_use (pool h') !! i) = length (owing_sandboxes (Referencing, i) (sandboxes h'))) ∧
    (∀ id b tid sd, sandboxes h' !! id = Some b → template_id (sb_restore b) = Some tid →
       disk (pool h') !! (sd, tid) = disk (pool h) !! (sd, tid)) ∧
    avail (pool h') = avail (pool h) ∧ restores (pool h') = restores (pool h).
Proof.
  intros Hpool. destruct (steady_recover_entries entries h) as ([] & h1 & E1 & P1 & S1).
  set (bs := hash_values (sandboxes h1)). set (act := list_to_set (C := gset string) (active_ids bs)).
  set (w1 := set_in_use (λ _, foldl (λ m id, bump id m) ∅ (shared_ids bs ++ pinned_ids bs)) (pool h1)).
  destruct (spared_gc act w1 w1) as ([] & w2 & E2 & I2 & A2 & R2 & D2); [done|].
  assert (∃ c2, (if continuation_store su then _ ← in_store (c_gc_orphaned_consumed act); mret tt else mret tt)
    (mkHost w2 (store h1) (metrics h1) (sandboxes h1) (ext h1) (trace h1)) =
    Some (tt, mkHost w2 c2 (metrics h1) (sandboxes h1) (ext h1) (trace h1))) as [c2 E3].
  { destruct (continuation_store su); [|by eexists].
    destruct (sound_gc (λ _, True) act (store h1)) as (a & c2 & E & _); [by intros e x j t|].
    exists c2. unfold mbind, M_bind, in_store. simpl. by rewrite E. }
  exists (mkHost w2 c2 (metrics h1) (sandboxes h1) (ext h1) (trace h1)). split_and!; simpl.
  - unfold recover, recover_templates. rewrite Hpool. unfold mbind at 1, M_bind. rewrite E1.
    unfold mbind at 1, M_bind, gets. fold bs. unfold mbind at 1, M_bind, in_pool at 1, rebuild_active_refs, modify.
    simpl. fold w1. fold act. unfold mbind at 1, M_bind, in_pool at 1. simpl. by rewrite E2.
  - intros i. rewrite I2. unfold w1. simpl. rewrite bump_all_count, references_of_metadata. simpl.
    apply values_of_sandboxes.
  - intros id b tid sd Hb Ht. rewrite (D2 (sd, tid)); simpl; [by rewrite P1|].
    unfold act. rewrite elem_of_list_to_set. apply list_elem_of_omap. exists b. split; [|done].
    apply elem_of_hash_values. eauto.
  - by rewrite A2, <- P1.
  - by rewrite R2, <- P1.
Qed.
End recovery.

#[local] Existing Instance plain_codec.
#[local] Existing Instance listing_order.

(** The sandboxer restarts over the state of [demo_host 3]: the running sandbox
    references its template again; a [sandbox.json] that does not parse is
    skipped. *)
Lemma recovery_rebuilds_references_witness :
  ∃ h', recover (demo_setup OnDemand) [("s1", sandboxes (demo_host 3) !! "s1"); ("bad", None)] empty_host = Some (tt, h') ∧
    default 0 (in_use (pool h') !! "e1") = 1.
Proof.
  destruct (recovery_rebuilds_references (demo_setup OnDemand) demo_shared
    [("s1", sandboxes (demo_host 3) !! "s1"); ("bad", None)] empty_host eq_refl) as (h' & E & Hc & _).
  exists h'. split; [exact E|]. rewrite Hc. vm_compute in E. injection E as <-. vm_compute. reflexivity.
Defined.
