(* ===== verification/Fs.v ===== *)
(** * Files

    The part of the host file system the Cloud Hypervisor driver works on: an
    entry per path, which is a regular file with its contents, a symbolic link
    or a directory. Links are followed at the last component of a path, as
    [open(2)] does; the directories above it are not links. A call that the
    kernel refuses for a reason that is not in this state (a missing parent, a
    full disk, another file system) is a failure of the caller's environment:
    see [outcome] in [ChDriver]. *)
From S2P Require Import Prelude Strs.

(** ** Paths: [std::path::Path] *)
Definition ends_with_slash (p : string) : bool := bool_decide (trim_end_char "/"%char p ≠ p).

(** [Path::join]: an absolute path replaces the base. *)
Definition path_join (base p : string) : string :=
  if starts_with p "/" || bool_decide (base = "") then p
  else if ends_with_slash base then base +:+ p
  else base +:+ "/" +:+ p.

Fixpoint rsplit_once (c : ascii) (s : string) : option (string * string) :=
  match s with
  | "" => None
  | String a s' =>
      match rsplit_once c s' with
      | Some (x, y) => Some (String a x, y)
      | None => if decide (a = c) then Some ("", s') else None
      end
  end.

(** [Path::file_name] and [Path::parent], for paths without a final [.]
    component. *)
Definition file_name (p : string) : option string :=
  let q := trim_end_char "/"%char p in
  let n := match rsplit_once "/"%char q with Some (_, n) => n | None => q end in
  if bool_decide (n ∈ [""; "."; ".."]) then None else Some n.

Definition parent (p : string) : option string :=
  let q := trim_end_char "/"%char p in
  match rsplit_once "/"%char q with
  | Some ("", _) => Some "/"
  | Some (d, _) => Some (trim_end_char "/"%char d)
  | None => if bool_decide (q = "") then None else Some ""
  end.

(** [Path::with_file_name] *)
Definition with_file_name (p n : string) : string :=
  match file_name p with
  | Some _ => path_join (default "" (parent p)) n
  | None => path_join p n
  end.

(** ** The store *)
Inductive Entry := EFile (content : string) | ELink (target : string) | EDir.

#[global] Instance Entry_eq_dec : EqDecision Entry.
Proof. solve_decision. Defined.

Abbreviation Fs := (gmap string Entry).

(** The kernel follows at most 40 links. *)
Definition MAX_LINKS : nat := 40.

Fixpoint follow (n : nat) (fs : Fs) (p : string) : option string :=
  match fs !! p with
  | Some (ELink t) =>
      match n with
      | 0 => None
      | S n => follow n fs (path_join (default "" (parent p)) t)
      end
  | _ => Some p
  end.
Definition resolve (fs : Fs) (p : string) : option string := follow MAX_LINKS fs p.

(** [stat]: what the path names in the end *)
Definition entry_at (fs : Fs) (p : string) : option Entry := q ← resolve fs p; fs !! q.

Definition fs_read (fs : Fs) (p : string) : option string :=
  match entry_at fs p with Some (EFile s) => Some s | _ => None end.

(** [open] with [O_CREAT | O_TRUNC] and a complete write *)
Definition fs_write (fs : Fs) (p s : string) : option Fs :=
  q ← resolve fs p;
  match fs !! q with
  | Some EDir => None
  | _ => Some (<[q := EFile s]> fs)
  end.

Inductive FsError := FsNotFound | FsExists | FsOther.

#[global] Instance FsError_eq_dec : EqDecision FsError.
Proof. solve_decision. Defined.

Definition fs_create_dir_all (fs : Fs) (p : string) : result Fs FsError :=
  match entry_at fs p with
  | Some EDir => Ok fs
  | Some _ => Err FsExists
  | None => match fs !! p with None => Ok (<[p := EDir]> fs) | Some _ => Err FsExists end
  end.

Definition fs_remove_file (fs : Fs) (p : string) : result Fs FsError :=
  match fs !! p with
  | Some EDir => Err FsOther
  | Some _ => Ok (delete p fs)
  | None => Err FsNotFound
  end.

(** [rename(2)] of something that is not a directory: the destination is
    replaced. *)
Definition fs_rename (fs : Fs) (a b : string) : result Fs FsError :=
  match fs !! a, fs !! b with
  | None, _ => Err FsNotFound
  | Some EDir, _ | _, Some EDir => Err FsOther
  | Some e, _ => Ok (<[b := e]> (delete a fs))
  end.

Definition fs_symlink (fs : Fs) (target p : string) : result Fs FsError :=
  match fs !! p with
  | Some _ => Err FsExists
  | None => Ok (<[p := ELink target]> fs)
  end.

(** [std::fs::copy] and [cp]: contents are read and written through links. *)
Definition fs_copy (fs : Fs) (a b : string) : result Fs FsError :=
  match fs_read fs a with
  | None => Err FsNotFound
  | Some s => match fs_write fs b s with Some fs' => Ok fs' | None => Err FsOther end
  end.

(** ** Lemmas on paths *)
Lemma contains_char_cons a s c : contains_char (String a s) c = false → a ≠ c ∧ contains_char s c = false.
Proof. simpl. by case_decide. Qed.

Lemma rsplit_once_None c n : contains_char n c = false → rsplit_once c n = None.
Proof.
  induction n as [|a n IH]; [done|]. intros [Ha Hn]%contains_char_cons. simpl.
  by rewrite IH, decide_False.
Qed.

Lemma rsplit_once_app c b n : contains_char n c = false → rsplit_once c (b +:+ String c n) = Some (b, n).
Proof.
  intros Hn. induction b as [|a b IH]; simpl; [|by rewrite IH].
  by rewrite rsplit_once_None, decide_True.
Qed.

Lemma trim_end_char_no_sep c n : contains_char n c = false → trim_end_char c n = n.
Proof.
  induction n as [|a n IH]; [done|]. intros [Ha Hn]%contains_char_cons. simpl.
  rewrite IH by done. destruct n; [by rewrite decide_False|done].
Qed.

Lemma trim_end_char_app c b n : contains_char n c = false → n ≠ "" → trim_end_char c (b +:+ n) = b +:+ n.
Proof.
  intros Hn Hne. induction b as [|a b IH]; simpl; [by apply trim_end_char_no_sep|].
  rewrite IH. destruct (b +:+ n) eqn:E; [|done]. by destruct b, n.
Qed.

(** A plain name: one path component that is neither empty nor special. *)
Definition plain (n : string) : bool :=
  negb (contains_char n "/"%char) && bool_decide (n ∉ [""; "."; ".."]).
(** A directory as the configuration gives it: not empty, no final slash. *)
Definition proper_dir (d : string) : bool := bool_decide (d ≠ "") && negb (ends_with_slash d).

Lemma plain_spec n : plain n = true → contains_char n "/"%char = false ∧ n ≠ "" ∧ n ∉ [""; "."; ".."].
Proof.
  unfold plain. intros [H1%negb_true_iff H2%bool_decide_eq_true]%andb_prop.
  split; [done|]. split; [|done]. intros ->. apply H2. by left.
Qed.

Lemma plain_relative n : plain n = true → starts_with n "/" = false.
Proof.
  intros (Hn & _ & _)%plain_spec. destruct (starts_with n "/") eqn:E; [|done].
  apply starts_with_spec in E as [t ->]. simpl in Hn. done.
Qed.

Lemma join_plain d n : proper_dir d = true → plain n = true → path_join d n = d +:+ "/" +:+ n.
Proof.
  unfold proper_dir, path_join. intros [Hd%bool_decide_eq_true Hs%negb_true_iff]%andb_prop Hn.
  rewrite plain_relative by done. rewrite bool_decide_eq_false_2 by done. simpl. by rewrite Hs.
Qed.

Lemma str_app_inj_l d n m : d +:+ n = d +:+ m → n = m.
Proof. induction d as [|a d IH]; simpl; [done|]. intros [= H]. auto. Qed.

Lemma join_plain_inj d n m : proper_dir d = true → plain n = true → plain m = true →
  path_join d n = path_join d m → n = m.
Proof. intros Hd Hn Hm. rewrite !join_plain by done. intros E%str_app_inj_l. by injection E. Qed.

Section named.
Context (d n : string) (Hd : proper_dir d = true) (Hn : plain n = true).

Lemma trim_join : trim_end_char "/"%char (path_join d n) = d +:+ "/" +:+ n.
Proof.
  rewrite join_plain by done. pose proof Hn as (Hc & Hne & _)%plain_spec.
  change (d +:+ "/" +:+ n) with (d +:+ ("/" +:+ n)). rewrite <- app_assoc_str.
  by apply trim_end_char_app.
Qed.

Lemma rsplit_join : rsplit_once "/"%char (d +:+ "/" +:+ n) = Some (d, n).
Proof. apply rsplit_once_app. by apply plain_spec in Hn as (? & _ & _). Qed.

Lemma file_name_join : file_name (path_join d n) = Some n.
Proof.
  unfold file_name. rewrite trim_join, rsplit_join. apply plain_spec in Hn as (_ & _ & Hp).
  by rewrite bool_decide_eq_false_2.
Qed.

Lemma parent_join : parent (path_join d n) = Some d.
Proof.
  unfold parent. rewrite trim_join, rsplit_join.
  unfold proper_dir, ends_with_slash in Hd. apply andb_prop in Hd as [Hd1%bool_decide_eq_true Hd2%negb_true_iff].
  apply bool_decide_eq_false in Hd2. destruct (decide (trim_end_char "/" d = d)) as [E|]; [|done].
  destruct d; [done|]. by rewrite E.
Qed.

Lemma with_file_name_join m : with_file_name (path_join d n) m = path_join d m.
Proof. unfold with_file_name. by rewrite file_name_join, parent_join. Qed.
End named.

(** ** Lemmas on the store *)
Lemma follow_file n (fs : Fs) p : (∀ t, fs !! p ≠ Some (ELink t)) → follow n fs p = Some p.
Proof. intros Hp. destruct n; simpl; destruct (fs !! p) as [[| |]|] eqn:E; try done; by edestruct Hp. Qed.

Lemma read_file (fs : Fs) p s : fs !! p = Some (EFile s) → fs_read fs p = Some s.
Proof.
  intros E. unfold fs_read, entry_at, resolve. rewrite follow_file by (intros t; by rewrite E). simpl. by rewrite E.
Qed.

(** The path something resolves to is not a link. *)
Lemma resolve_not_link fs p q t : resolve fs p = Some q → fs !! q ≠ Some (ELink t).
Proof.
  unfold resolve. generalize MAX_LINKS. intros n. revert p. induction n as [|n IH]; intros p; simpl.
  all: destruct (fs !! p) as [[| |]|] eqn:E; try (intros [= <-]; by rewrite E); try done.
  apply IH.
Qed.

Lemma write_spec fs p s fs' : fs_write fs p s = Some fs' →
  ∃ q, resolve fs p = Some q ∧ fs' = <[q := EFile s]> fs ∧ fs !! q ≠ Some EDir.
Proof.
  unfold fs_write. destruct (resolve fs p) as [q|]; simpl; [|done]. intros E. exists q. split; [done|].
  destruct (fs !! q) as [[| |]|]; try done; by injection E as <-.
Qed.

Lemma rename_ok fs a b fs' : fs_rename fs a b = Ok fs' →
  ∃ e, fs !! a = Some e ∧ e ≠ EDir ∧ fs !! b ≠ Some EDir ∧ fs' = <[b := e]> (delete a fs).
Proof.
  unfold fs_rename. destruct (fs !! a) as [e|]; [|done]. intros E. exists e.
  destruct e, (fs !! b) as [[| |]|]; try done; injection E as <-; done.
Qed.

(** Renaming there and back is the identity when the destination was free. *)
Lemma rename_back fs a b fs' : a ≠ b → fs !! b = None → fs_rename fs a b = Ok fs' →
  fs_rename fs' b a = Ok fs.
Proof.
  intros Hab Hb (e & Ha & He & _ & ->)%rename_ok. unfold fs_rename.
  rewrite lookup_insert_eq, lookup_insert_ne, lookup_delete_eq by done.
  assert (<[a := e]> (delete b (<[b := e]> (delete a fs))) = fs) as ->.
  { rewrite delete_insert_id by (rewrite lookup_delete_ne by done; done). by rewrite insert_delete_id. }
  by destruct e.
Qed.
