(* ===== verification/Descriptors.v ===== *)
(** * Descriptors handed to a hypervisor

    [set_cmd_fd] of [vmm/sandbox/src/utils.rs]: between [fork] and [exec] the
    child moves the descriptors the VM was given to the numbers 3, 4, ... and
    keeps them open across the [exec]. *)
From S2P Require Import Prelude.

(** An open descriptor: the open file behind it and its close-on-exec flag. *)
Record Desc := mkDesc { ds_file : N; ds_cloexec : bool }.
Abbreviation DescTable := (gmap N Desc).

Definition fd_target (i : nat) : N := N.of_nat (3 + i).

(** One turn of the loop: [fcntl] or [dup2], which fail on a closed number. *)
Definition move_fd (i : nat) (old_fd : N) (t : DescTable) : option DescTable :=
  let new_fd := fd_target i in
  d ← t !! old_fd;
  Some (<[new_fd := mkDesc (ds_file d) false]> t).

Fixpoint move_fds (i : nat) (fds : list N) (t : DescTable) : option DescTable :=
  match fds with
  | [] => Some t
  | fd :: fds => t' ← move_fd i fd t; move_fds (S i) fds t'
  end.
Definition set_cmd_fd (fds : list N) (t : DescTable) : option DescTable := move_fds 0 fds t.

(** What a program sees after [exec]. *)
Definition after_exec (t : DescTable) : DescTable := filter (λ p, ds_cloexec p.2 = false) t.

(** Number [3 + j] of the new program is the file of the [j]th descriptor. *)
Definition inherits (t t' : DescTable) (fds : list N) : Prop :=
  ∀ j fd d, fds !! j = Some fd → t !! fd = Some d →
    after_exec t' !! fd_target j = Some (mkDesc (ds_file d) false).

(** No descriptor has a number an earlier one is moved to. *)
Definition no_clobber (fds : list N) : Prop := ∀ i j, i < j → fds !! j ≠ Some (fd_target i).

#[global] Instance fd_target_inj : Inj (=) (=) fd_target.
Proof. intros i j. unfold fd_target. lia. Qed.

Lemma lookup_after_exec t n d : after_exec t !! n = Some d ↔ t !! n = Some d ∧ ds_cloexec d = false.
Proof. unfold after_exec. by rewrite map_lookup_filter_Some. Qed.

Section move.
Implicit Types t : DescTable.

Lemma move_fd_open i fd t : is_Some (t !! fd) → ∃ t', move_fd i fd t = Some t' ∧ dom t ⊆ dom t'.
Proof.
  intros [d Hd]. unfold move_fd. rewrite Hd. simpl. eexists. split; [done|]. rewrite dom_insert. set_solver.
Qed.

(** Open descriptors are moved without an error. *)
Lemma move_fds_total i fds t : Forall (λ fd, is_Some (t !! fd)) fds → is_Some (move_fds i fds t).
Proof.
  revert i t. induction fds as [|fd fds IH]; intros i t H; simpl; [eauto|].
  inversion_clear H as [|?? Hfd Hfds]. destruct (move_fd_open i fd t Hfd) as (t' & -> & Ht'). simpl. apply IH.
  eapply Forall_impl; [exact Hfds|]. intros x Hx. apply elem_of_dom. apply Ht'. by apply elem_of_dom.
Qed.

(** Numbers that are no target, or the target of an earlier turn, keep their
    entry. *)
Lemma move_fds_frame i fds t t' n : move_fds i fds t = Some t' →
  (∀ k, k < length fds → n ≠ fd_target (i + k)) → t' !! n = t !! n.
Proof.
  revert i t. induction fds as [|fd fds IH]; intros i t; simpl; [by intros [= <-]|].
  unfold move_fd. destruct (t !! fd) as [d|]; simpl; [|done]. intros E Hn. rewrite (IH _ _ E).
  - apply lookup_insert_ne. specialize (Hn 0). rewrite Nat.add_0_r in Hn. intros <-. apply Hn; [lia|done].
  - intros k Hk. specialize (Hn (S k)). rewrite Nat.add_succ_r in Hn. apply Hn. lia.
Qed.

(** The entry of a target is the file its turn found. *)
Lemma move_fds_target i fds t t' j fd : move_fds i fds t = Some t' → fds !! j = Some fd →
  ∃ t1 d, move_fds i (take j fds) t = Some t1 ∧ move_fds (i + j) (drop j fds) t1 = Some t' ∧
    t1 !! fd = Some d ∧ t' !! fd_target (i + j) = Some (mkDesc (ds_file d) false).
Proof.
  revert i t j. induction fds as [|x fds IH]; intros i t j; [done|]. intros E.
  destruct j as [|j]; intros Hj; simpl in *.
  - injection Hj as ->. rewrite Nat.add_0_r. exists t. destruct (t !! fd) as [d|] eqn:Ed.
    2:{ unfold move_fd in E. by rewrite Ed in E. }
    exists d. repeat (split; [done|]). unfold move_fd in E. rewrite Ed in E. simpl in E.
    rewrite (move_fds_frame _ _ _ _ _ E) by (intros k _ ?%(inj fd_target); lia). by rewrite lookup_insert_eq.
  - destruct (move_fd i x t) as [t1|] eqn:Et; simpl in *; [|done].
    destruct (IH _ _ _ E Hj) as (t2 & d & H1 & H2 & H3). exists t2, d. rewrite Nat.add_succ_r. done.
Qed.
End move.

(** An unclobbered descriptor is found by its turn as it was. *)
Lemma unclobbered_turn fds t t1 j fd : no_clobber fds → fds !! j = Some fd →
  move_fds 0 (take j fds) t = Some t1 → t1 !! fd = t !! fd.
Proof.
  intros Hc Hj E. apply (move_fds_frame _ _ _ _ _ E). intros k Hk ->. rewrite length_take in Hk.
  apply (Hc k j); [lia|done].
Qed.

Lemma no_clobber_inherits fds t t' : no_clobber fds → set_cmd_fd fds t = Some t' → inherits t t' fds.
Proof.
  intros Hc E j fd d Hj Hd. apply lookup_after_exec. split; [|done].
  destruct (move_fds_target _ _ _ _ _ _ E Hj) as (t1 & d1 & H1 & _ & H3 & H4).
  rewrite (unclobbered_turn _ _ _ _ _ Hc Hj H1) in H3. rewrite Hd in H3. by injection H3 as <-.
Qed.

(** A clobbered descriptor ends as the file of the one that overwrote it. *)
Lemma clobbered fds t t' i j fd : set_cmd_fd fds t = Some t' → i < j → fds !! i = Some fd →
  fds !! j = Some (fd_target i) → t' !! fd_target j = t' !! fd_target i.
Proof.
  intros E Hij Hi Hj. destruct (move_fds_target _ _ _ _ _ _ E Hj) as (t1 & d & H1 & H2 & H3 & H4).
  simpl in *. rewrite H4. rewrite (move_fds_frame _ _ _ _ _ H2) by (intros k _ ?%(inj fd_target); lia).
  rewrite H3. assert (take j fds !! i = Some fd) as Hi' by (rewrite lookup_take_lt by done; done).
  destruct (move_fds_target _ _ _ _ _ _ H1 Hi') as (_ & d' & _ & _ & _ & H5). simpl in H5.
  rewrite H3 in H5. by injection H5 as ->.
Qed.

(** C14: the hypervisor gets the descriptors it was told about exactly when no
    descriptor has a number that an earlier one is moved to: for any distinct
    open descriptors the loop succeeds, and number [3 + j] is the file of the
    [j]th descriptor for every [j] if and only if the list is free of such an
    overlap. *)
Theorem set_cmd_fd_exact fds t :
  NoDup fds → Forall (λ fd, is_Some (t !! fd)) fds →
  (∀ a b da db, t !! a = Some da → t !! b = Some db → ds_file da = ds_file db → a = b) →
  ∃ t', set_cmd_fd fds t = Some t' ∧ (inherits t t' fds ↔ no_clobber fds).
Proof.
  intros Hnd Hopen Hinj. destruct (move_fds_total 0 fds t Hopen) as [t' E]. exists t'. split; [done|].
  split; [|by intros Hc; apply no_clobber_inherits]. intros Hinh i j Hij Hj.
  destruct (lookup_lt_is_Some_2 fds i) as [fd Hi]; [apply lookup_lt_Some in Hj; lia|].
  rewrite Forall_lookup in Hopen. destruct (Hopen _ _ Hi) as [di Hdi], (Hopen _ _ Hj) as [dj Hdj].
  pose proof (Hinh _ _ _ Hi Hdi) as [H1 _]%lookup_after_exec.
  pose proof (Hinh _ _ _ Hj Hdj) as [H2 _]%lookup_after_exec.
  rewrite (clobbered _ _ _ _ _ _ E Hij Hi Hj), H1 in H2. injection H2 as Hf.
  pose proof (Hinj _ _ _ _ Hdi Hdj Hf) as ->. pose proof (NoDup_lookup _ _ _ _ Hnd Hi Hj). lia.
Qed.

(** Descriptors 3 and 5 of the parent, in the order 5, 3. *)
Definition demo_table : DescTable := list_to_map [(3, mkDesc 30 true); (5, mkDesc 50 true)]%N.

Lemma set_cmd_fd_exact_witness :
  ∃ t', set_cmd_fd [3; 5]%N demo_table = Some t' ∧ (inherits demo_table t' [3; 5]%N ↔ no_clobber [3; 5]%N).
Proof.
  apply set_cmd_fd_exact.
  - by apply (bool_decide_unpack _).
  - by apply (bool_decide_unpack _).
  - intros a b da db Ha Hb. unfold demo_table in *.
    apply elem_of_list_to_map_2 in Ha, Hb. set_unfold. naive_solver.
Defined.

(** Ascending descriptors, as consecutive [open] calls number them, never
    overlap. *)
Lemma ascending_no_clobber fds : StronglySorted N.lt fds → Forall (λ fd, (3 ≤ fd)%N) fds → no_clobber fds.
Proof.
  intros Hs H3 i j Hij Hj. enough (∀ k fd, fds !! k = Some fd → (3 + N.of_nat k ≤ fd)%N) as H.
  { specialize (H _ _ Hj). unfold fd_target in H. lia. }
  clear i j Hij Hj. intros k. induction k as [|k IH]; intros fd Hk.
  - rewrite Forall_lookup in H3. specialize (H3 _ _ Hk). lia.
  - destruct (lookup_lt_is_Some_2 fds k) as [fd' Hk']; [apply lookup_lt_Some in Hk; lia|].
    specialize (IH _ Hk'). enough (fd' < fd)%N by lia. clear -Hs Hk Hk'.
    revert k Hk Hk'. induction Hs as [|x l Hl IH Hx]; intros k; [done|]. destruct k as [|k]; simpl.
    + intros Hk [= ->]. rewrite Forall_lookup in Hx. by eapply Hx.
    + apply IH.
Qed.

(** In the order 5, 3 both numbers of the child are the file of 5. *)
Lemma descending_fds_clobbered :
  (after_exec <$> set_cmd_fd [5; 3]%N demo_table) = Some (list_to_map [(3, mkDesc 50 false); (4, mkDesc 50 false)]%N).
Proof. vm_compute. reflexivity. Qed.
