(* ===== verification/ChConfig.v ===== *)
(** * Cloud Hypervisor: configuration, devices and command line

    [vmm/sandbox/src/cloud_hypervisor/{config,factory,hooks}.rs], its
    [devices/], the command-line rendering of [vmm/sandbox/src/param.rs] and
    what the derive macros of [vmm/sandbox/derive] generate for each struct. *)
From S2P Require Import Prelude Strs Storage Types Metrics Disk Pool Continuation GuestScan Mount Frame Inject Annotations Box BlockImage StorageOps Handlers Sandboxer.

(** ** Rendering: [param.rs] *)
Record Property := mkProperty { p_key : string; p_value : string; p_ignore_key : bool }.
Record Param := mkParam { pm_name : string; pm_properties : list Property }.

Definition render_property (p : Property) : string :=
  if p_ignore_key p then p_value p else p_key p +:+ "=" +:+ p_value p.

(** [ToCmdLineParams] of what has [ToParams] *)
Definition to_cmdline_params (hyphen : string) (l : list Param) : list string :=
  mjoin ((λ x, [hyphen +:+ pm_name x; join "," (render_property <$> pm_properties x)]) <$> l).

Definition StringParam (hyphen key value : string) : list string := [hyphen +:+ key; value].
Definition BoolParam (hyphen key : string) (b : bool) : list string := if b then [hyphen +:+ key] else [].
Definition OptionParam (hyphen key : string) (o : option string) : list string :=
  match o with Some v => [hyphen +:+ key; v] | None => [] end.

(** The code the [CmdLineParams] macro generates for a field: always one
    property, one when the field is [Some], or one when a predicate holds. *)
Definition prop (key value : string) : list Property := [mkProperty key value false].
Definition prop_opt {A} (key : string) (f : A → string) (o : option A) : list Property :=
  match o with Some a => prop key (f a) | None => [] end.
Definition prop_if (b : bool) (key value : string) : list Property := if b then prop key value else [].

Definition show (b : bool) : string := if b then "true" else "false".
Definition bool_to_on_off (b : bool) : string := if b then "on" else "off".
(** [utils::vec_to_string] and the one of [virtio_net.rs] *)
Definition vec_to_string (l : list string) : string := join ":" l.
Definition fd_list (l : list N) : string := "[" +:+ join "," (pretty <$> l) +:+ "]".

(** ** Devices *)
Record Disk := mkDisk {
  dk_path : string; dk_id : string; dk_readonly : option bool; dk_direct : option bool;
  dk_iommu : option bool; dk_num_queues : option N; dk_bw_refill_time : option N; dk_ops_size : option N;
  dk_ope_one_time_burst : option N; dk_ops_refill_time : option N; dk_pci_segment : option string
}.
Record Console := mkConsole { co_id : string; co_file : option string; co_iommu : option bool }.
Record FsDevice := mkFsDevice { fd_tag : string; fd_socket : string; fd_id : string }.
Record Pmem := mkPmem {
  pe_id : string; pe_file : string; pe_size : option N; pe_iommu : option bool; pe_discard_writes : option bool
}.
Record Rng := mkRng { rn_id : string; rn_src : string; rn_iommu : option bool }.
Record VfioDevice := mkVfio { vf_id : string; vf_path : string }.
(** The descriptors are numbers of the child process. *)
Record VirtioNetDevice := mkNet {
  vn_id : string; vn_ifname : option string; vn_fds : list N; vn_mac : string; vn_num_queues : N
}.
Record Vsock := mkVsock { vk_cid : N; vk_socket : string; vk_id : string; vk_iommu : option bool }.

Definition Disk_new (id path : string) (readonly direct : bool) : Disk :=
  mkDisk path id (Some readonly) (Some direct) None None None None None None None.
Definition Console_new (path id : string) : Console := mkConsole id (Some path) None.
Definition Fs_new (id socket tag : string) : FsDevice := mkFsDevice tag socket id.
Definition Pmem_new (id file : string) (discard_writes : bool) : Pmem := mkPmem id file None None (Some discard_writes).
Definition Rng_new (id src : string) : Rng := mkRng id src None.
Definition VFIO_DEVICE_SYSFS_PATH : string := "/sys/bus/pci/devices".
Definition VfioDevice_new (id bdf : string) : VfioDevice := mkVfio id (VFIO_DEVICE_SYSFS_PATH +:+ "/" +:+ bdf).
Definition VirtioNetDevice_new (id : string) (name : option string) (mac : string) (fds : list N) : VirtioNetDevice :=
  mkNet id name fds mac (uwrap 32 (N.of_nat (length fds * 2))).
Definition Vsock_new (cid : N) (socket id : string) : Vsock := mkVsock cid socket id None.

(** [Box<dyn CloudHypervisorDevice>] *)
Inductive ChDevice :=
  | DDisk (d : Disk) | DConsole (d : Console) | DFs (d : FsDevice) | DPmem (d : Pmem) | DRng (d : Rng)
  | DVfio (d : VfioDevice) | DNet (d : VirtioNetDevice) | DVsock (d : Vsock).

Definition Disk_params (d : Disk) : Param := mkParam "disk"
  (prop "path" (dk_path d) ++ prop "id" (dk_id d) ++ prop_opt "readonly" show (dk_readonly d) ++
   prop_opt "direct" show (dk_direct d) ++ prop_opt "iommu" show (dk_iommu d) ++
   prop_opt "num-queues" pretty (dk_num_queues d) ++ prop_opt "bw-refill-time" pretty (dk_bw_refill_time d) ++
   prop_opt "ops-size" pretty (dk_ops_size d) ++ prop_opt "ope-one-time-burst" pretty (dk_ope_one_time_burst d) ++
   prop_opt "ops-refill-time" pretty (dk_ops_refill_time d) ++ prop_opt "pci-segment" id (dk_pci_segment d)).
Definition Console_params (d : Console) : Param := mkParam "console"
  (prop_opt "file" id (co_file d) ++ prop_opt "iommu" show (co_iommu d)).
Definition Fs_params (d : FsDevice) : Param := mkParam "fs"
  (prop "tag" (fd_tag d) ++ prop "socket" (fd_socket d) ++ prop "id" (fd_id d)).
Definition Pmem_params (d : Pmem) : Param := mkParam "pmem"
  (prop "id" (pe_id d) ++ prop "file" (pe_file d) ++ prop_opt "size" pretty (pe_size d) ++
   prop_opt "iommu" bool_to_on_off (pe_iommu d) ++ prop_opt "discard_writes" bool_to_on_off (pe_discard_writes d)).
Definition Rng_params (d : Rng) : Param := mkParam "rng"
  (prop "src" (rn_src d) ++ prop_opt "iommu" show (rn_iommu d)).
Definition VfioDevice_params (d : VfioDevice) : Param := mkParam "device" (prop "path" (vf_path d)).
(** The predicate of [ifname] replaces the test that it is [Some], and the
    generated code unwraps it. *)
Definition VirtioNetDevice_params (d : VirtioNetDevice) : option Param :=
  let has_fds := bool_decide (vn_fds d ≠ []) in
  tap ← (if has_fds then Some [] else prop "tap" <$> vn_ifname d);
  Some (mkParam "net"
    (prop "id" (vn_id d) ++ tap ++ prop_if has_fds "fd" (fd_list (vn_fds d)) ++ prop "mac" (vn_mac d) ++
     prop_if has_fds "num_queues" (pretty (vn_num_queues d)))).
Definition Vsock_params (d : Vsock) : Param := mkParam "vsock"
  (prop "cid" (pretty (vk_cid d)) ++ prop "socket" (vk_socket d) ++ prop "id" (vk_id d) ++
   prop_opt "iommu" show (vk_iommu d)).

(** [None] is a panic. *)
Definition device_params (d : ChDevice) : option Param :=
  match d with
  | DDisk d => Some (Disk_params d) | DConsole d => Some (Console_params d) | DFs d => Some (Fs_params d)
  | DPmem d => Some (Pmem_params d) | DRng d => Some (Rng_params d) | DVfio d => Some (VfioDevice_params d)
  | DNet d => VirtioNetDevice_params d | DVsock d => Some (Vsock_params d)
  end.

(** ** Configuration *)
Inductive ContainerStorageBackend := Virtiofs | VirtioBlk.

#[global] Instance ContainerStorageBackend_eq_dec : EqDecision ContainerStorageBackend.
Proof. solve_decision. Defined.

Definition backend_str (b : ContainerStorageBackend) : string :=
  match b with Virtiofs => VIRTIOFS | VirtioBlk => VIRTIO_BLK end.
Definition sharefs_type (b : ContainerStorageBackend) : string :=
  match b with Virtiofs => "virtiofs" | VirtioBlk => "none" end.

Record VirtioBlkConfig := mkVirtioBlk {
  vb_allow_large_bind_mount : bool; vb_enable_reflink_cow : bool; vb_overhead_percent : N;
  vb_small_dir_max_files : nat; vb_small_dir_max_bytes : N; vb_overlay_fallback_mb : N; vb_bind_fallback_mb : N;
  vb_direct_io : bool
}.
Definition VirtioBlkConfig_default : VirtioBlkConfig :=
  mkVirtioBlk false false 20 50 (10 * 1024 * 1024) 64 8 true.

Record VirtiofsdConfig := mkVirtiofsd {
  vd_path : string; vd_log_level : string; vd_cache : string; vd_thread_pool_size : N;
  vd_socket_path : string; vd_shared_dir : string; vd_syslog : bool
}.
Definition VirtiofsdConfig_default : VirtiofsdConfig :=
  mkVirtiofsd "/usr/local/bin/virtiofsd" "info" "never" 4 "" "" true.

Definition VirtiofsdConfig_params (hyphen : string) (c : VirtiofsdConfig) : list string :=
  StringParam hyphen "log-level" (vd_log_level c) ++ StringParam hyphen "cache" (vd_cache c) ++
  StringParam hyphen "thread-pool-size" (pretty (vd_thread_pool_size c)) ++
  StringParam hyphen "socket-path" (vd_socket_path c) ++ StringParam hyphen "shared-dir" (vd_shared_dir c) ++
  BoolParam hyphen "syslog" (vd_syslog c).

Record HypervisorCommonConfig := mkCommon {
  hc_debug : bool; hc_vcpus : N; hc_memory_in_mb : N; hc_kernel_path : string; hc_image_path : string;
  hc_initrd_path : string; hc_kernel_params : string; hc_firmware : string; hc_enable_mem_prealloc : bool
}.
Definition HypervisorCommonConfig_default : HypervisorCommonConfig :=
  mkCommon false 1 1024 "/var/lib/kuasar/vmlinux.bin" "" "" "" "" false.

Record TaskConfig := mkTaskConfig { tc_debug : bool; tc_enable_tracing : bool }.

Record CloudHypervisorVMConfig := mkChVmConfig {
  cv_path : string; cv_common : HypervisorCommonConfig; cv_hugepages : bool; cv_entropy_source : string;
  cv_task : TaskConfig; cv_virtiofsd : VirtiofsdConfig; cv_virtio_blk : VirtioBlkConfig;
  cv_container_storage_backend : ContainerStorageBackend
}.
Definition CloudHypervisorVMConfig_default : CloudHypervisorVMConfig :=
  mkChVmConfig "/usr/local/bin/cloud-hypervisor" HypervisorCommonConfig_default false "/dev/urandom"
    (mkTaskConfig false false) VirtiofsdConfig_default VirtioBlkConfig_default Virtiofs.

Record Cpus := mkCpus {
  cp_boot : N; cp_max : option N; cp_topology : option string; cp_affinity : list string; cp_features : list string
}.
Record Memory := mkMemory {
  me_size : N; me_shared : bool; me_hugepages : bool; me_hugepage_size : option string;
  me_prefault : option bool; me_thp : option bool
}.
Record CloudHypervisorConfig := mkChConfig {
  cc_path : string; cc_api_socket : string; cc_cpus : Cpus; cc_memory : Memory; cc_kernel : string;
  cc_cmdline : string; cc_initramfs : option string; cc_log_file : option string; cc_debug : bool
}.

Definition Cpus_params (c : Cpus) : Param := mkParam "cpus"
  (prop "boot" (pretty (cp_boot c)) ++ prop_opt "max" pretty (cp_max c) ++ prop_opt "topology" id (cp_topology c) ++
   prop "affinity" (vec_to_string (cp_affinity c)) ++ prop "features" (vec_to_string (cp_features c))).
Definition Memory_params (m : Memory) : Param := mkParam "memory"
  (prop "size" (pretty (me_size m)) ++ prop "shared" (bool_to_on_off (me_shared m)) ++
   prop "hugepages" (bool_to_on_off (me_hugepages m)) ++ prop_opt "hugepage_size" id (me_hugepage_size m) ++
   prop_opt "prefault" bool_to_on_off (me_prefault m) ++ prop_opt "thp" bool_to_on_off (me_thp m)).
Definition CloudHypervisorConfig_params (hyphen : string) (c : CloudHypervisorConfig) : list string :=
  StringParam hyphen "api-socket" (cc_api_socket c) ++ to_cmdline_params hyphen [Cpus_params (cc_cpus c)] ++
  to_cmdline_params hyphen [Memory_params (cc_memory c)] ++ StringParam hyphen "kernel" (cc_kernel c) ++
  StringParam hyphen "cmdline" (cc_cmdline c) ++ OptionParam hyphen "initramfs" (cc_initramfs c) ++
  OptionParam hyphen "log-file" (cc_log_file c).

Definition DEFAULT_KERNEL_PARAMS : string :=
  "console=hvc0 root=/dev/pmem0p1 rootflags=data=ordered,errors=remount-ro ro rootfstype=ext4".

(** [(memory_in_mb as u64) * 1024 * 1024] fits for every [u32]. *)
Definition CloudHypervisorConfig_from (c : CloudHypervisorVMConfig) : CloudHypervisorConfig :=
  let common := cv_common c in
  let b := cv_container_storage_backend c in
  let cmdline := DEFAULT_KERNEL_PARAMS +:+ " task.sharefs_type=" +:+ sharefs_type b +:+
                 " task.container_storage_backend=" +:+ backend_str b +:+ " " +:+ hc_kernel_params common in
  let cmdline := if tc_debug (cv_task c) then cmdline +:+ " task.log_level=debug" else cmdline in
  let cmdline := cmdline +:+ " task.enable_tracing=" +:+ show (tc_enable_tracing (cv_task c)) in
  mkChConfig (cv_path c) "" (mkCpus (hc_vcpus common) None None [] [])
    (mkMemory (uwrap 64 (hc_memory_in_mb common * 1024 * 1024)) (bool_decide (b = Virtiofs)) (cv_hugepages c)
       None None None)
    (hc_kernel_path common) cmdline None None (hc_debug common).

(** ** The VM value: [cloud_hypervisor/mod.rs] *)
Record NetHotplugInfo := mkHotplug { nh_id : string; nh_mac : string; nh_raw_fds : list N; nh_num_queues : N }.
Record Pids := mkPids { pid_vmm : option N; pid_affiliated : list N }.

(** [wait_chan] holds the last value of the channel; [client] is the process
    whose API socket it is connected to; a descriptor is its number. *)
Record CloudHypervisorVM := mkChVM {
  vm_id : string;
  vm_config : CloudHypervisorConfig;
  vm_devices : list ChDevice;
  vm_netns : string;
  vm_base_dir : string;
  vm_agent_socket : string;
  vm_virtiofsd_config : VirtiofsdConfig;
  vm_backend : ContainerStorageBackend;
  vm_direct_io : bool;
  vm_wait_chan : option (N * Z);
  vm_client : option N;
  vm_fds : list N;
  vm_pids : Pids;
  vm_pending_net : list NetHotplugInfo
}.

Definition set_api_socket (s : string) (c : CloudHypervisorConfig) : CloudHypervisorConfig :=
  mkChConfig (cc_path c) s (cc_cpus c) (cc_memory c) (cc_kernel c) (cc_cmdline c) (cc_initramfs c)
    (cc_log_file c) (cc_debug c).
Definition set_initramfs (i : option string) (c : CloudHypervisorConfig) : CloudHypervisorConfig :=
  mkChConfig (cc_path c) (cc_api_socket c) (cc_cpus c) (cc_memory c) (cc_kernel c) (cc_cmdline c) i
    (cc_log_file c) (cc_debug c).
Definition set_resources (cpus : Cpus) (mem : Memory) (c : CloudHypervisorConfig) : CloudHypervisorConfig :=
  mkChConfig (cc_path c) (cc_api_socket c) cpus mem (cc_kernel c) (cc_cmdline c) (cc_initramfs c)
    (cc_log_file c) (cc_debug c).

Definition TASK_VSOCK_FILENAME : string := "task.vsock".
Definition CONSOLE_LOG_FILENAME : string := "task.log".

Definition CloudHypervisorVM_new (id netns base_dir : string) (c : CloudHypervisorVMConfig) : CloudHypervisorVM :=
  let config := set_api_socket (base_dir +:+ "/api.sock") (CloudHypervisorConfig_from c) in
  let initrd := hc_initrd_path (cv_common c) in
  let config := if bool_decide (initrd = "") then config else set_initramfs (Some initrd) config in
  let vd := cv_virtiofsd c in
  let vd := if bool_decide (cv_container_storage_backend c = Virtiofs)
            then mkVirtiofsd (vd_path vd) (vd_log_level vd) (vd_cache vd) (vd_thread_pool_size vd)
                   (base_dir +:+ "/virtiofs.sock") (base_dir +:+ "/" +:+ SHARED_DIR_SUFFIX) (vd_syslog vd)
            else vd in
  mkChVM id config [] netns base_dir "" vd (cv_container_storage_backend c) (vb_direct_io (cv_virtio_blk c))
    None None [] (mkPids None []) [].

Definition add_device (d : ChDevice) (v : CloudHypervisorVM) : CloudHypervisorVM :=
  mkChVM (vm_id v) (vm_config v) (vm_devices v ++ [d]) (vm_netns v) (vm_base_dir v) (vm_agent_socket v)
    (vm_virtiofsd_config v) (vm_backend v) (vm_direct_io v) (vm_wait_chan v) (vm_client v) (vm_fds v) (vm_pids v)
    (vm_pending_net v).
Definition set_agent_socket (s : string) (v : CloudHypervisorVM) : CloudHypervisorVM :=
  mkChVM (vm_id v) (vm_config v) (vm_devices v) (vm_netns v) (vm_base_dir v) s
    (vm_virtiofsd_config v) (vm_backend v) (vm_direct_io v) (vm_wait_chan v) (vm_client v) (vm_fds v) (vm_pids v)
    (vm_pending_net v).
Definition set_config (c : CloudHypervisorConfig) (v : CloudHypervisorVM) : CloudHypervisorVM :=
  mkChVM (vm_id v) c (vm_devices v) (vm_netns v) (vm_base_dir v) (vm_agent_socket v)
    (vm_virtiofsd_config v) (vm_backend v) (vm_direct_io v) (vm_wait_chan v) (vm_client v) (vm_fds v) (vm_pids v)
    (vm_pending_net v).

Definition vsock_path (v : CloudHypervisorVM) : string := vm_base_dir v +:+ "/" +:+ TASK_VSOCK_FILENAME.
Definition console_log_path (v : CloudHypervisorVM) : string := vm_base_dir v +:+ "/" +:+ CONSOLE_LOG_FILENAME.

(** ** The factory: [factory.rs] *)

(** The accessors of [VMFactory], as the sandboxer reads them. *)
Definition storage_policy (c : CloudHypervisorVMConfig) : ContainerStoragePolicy :=
  let v := cv_virtio_blk c in
  mkPolicy (backend_str (cv_container_storage_backend c)) (vb_allow_large_bind_mount v) (vb_enable_reflink_cow v)
    (vb_overhead_percent v) (vb_small_dir_max_files v) (vb_small_dir_max_bytes v) (vb_overlay_fallback_mb v)
    (vb_bind_fallback_mb v).
Definition ch_factory (c : CloudHypervisorVMConfig) : Factory :=
  let k := cv_common c in
  mkFactory (hc_image_path k) (hc_kernel_path k) (hc_vcpus k) (hc_memory_in_mb k) (hc_kernel_params k)
    (storage_policy c).

Definition ch_with_resources (c : CloudHypervisorVMConfig) (vcpus memory_mb : N) : CloudHypervisorVMConfig :=
  let k := cv_common c in
  mkChVmConfig (cv_path c)
    (mkCommon (hc_debug k) vcpus memory_mb (hc_kernel_path k) (hc_image_path k) (hc_initrd_path k)
       (hc_kernel_params k) (hc_firmware k) (hc_enable_mem_prealloc k))
    (cv_hugepages c) (cv_entropy_source c) (cv_task c) (cv_virtiofsd c) (cv_virtio_blk c)
    (cv_container_storage_backend c).

Definition add_if (b : bool) (d : ChDevice) (v : CloudHypervisorVM) : CloudHypervisorVM :=
  if b then add_device d v else v.

(** [create_vm]; [None] is the error of a missing virtiofsd. *)
Definition create_vm (c : CloudHypervisorVMConfig) (id netns base_dir : string) : option CloudHypervisorVM :=
  if bool_decide (cv_container_storage_backend c = Virtiofs) && bool_decide (vd_path (cv_virtiofsd c) = "")
  then None else
  let vm := CloudHypervisorVM_new id netns base_dir c in
  let image := hc_image_path (cv_common c) in
  let vm := add_if (bool_decide (image ≠ "")) (DPmem (Pmem_new "rootfs" image true)) vm in
  let vm := add_if (bool_decide (cv_entropy_source c ≠ "")) (DRng (Rng_new "rng" (cv_entropy_source c))) vm in
  let guest_socket_path := base_dir +:+ "/" +:+ TASK_VSOCK_FILENAME in
  let vm := add_device (DVsock (Vsock_new 3 guest_socket_path "vsock")) vm in
  let vm := set_agent_socket ("hvsock://" +:+ guest_socket_path +:+ ":1024") vm in
  let console_path := "/tmp/" +:+ id +:+ "-" +:+ CONSOLE_LOG_FILENAME in
  let vm := add_device (DConsole (Console_new console_path "console")) vm in
  let sock := vd_socket_path (vm_virtiofsd_config vm) in
  Some (add_if (bool_decide (sock ≠ "")) (DFs (Fs_new "fs" sock "kuasar")) vm).

(** ** The hooks: [hooks.rs] *)

(** [process_config]: the ceiling of [quota / period] ([i64] operands; the
    [f64] quotient is exact enough below 2^53) and the memory limit replace
    the configured size; [as u32] saturates. *)
Definition process_config (cpu_period cpu_quota memory_limit : Z) (c : CloudHypervisorConfig) : CloudHypervisorConfig :=
  let cpus := cc_cpus c in
  let cpus := if (0 <? cpu_period)%Z && (0 <? cpu_quota)%Z
              then let base := N.min (Z.to_N ((cpu_quota + cpu_period - 1) / cpu_period)) u32_max in
                   mkCpus base (Some base) (cp_topology cpus) (cp_affinity cpus) (cp_features cpus)
              else cpus in
  let mem := cc_memory c in
  let mem := if (0 <? memory_limit)%Z
             then mkMemory (Z.to_N memory_limit) (me_shared mem) (me_hugepages mem) (me_hugepage_size mem)
                    (me_prefault mem) (me_thp mem)
             else mem in
  set_resources cpus mem c.
