(* ===== verification/ChSnapshot.v ===== *)
(** * Cloud Hypervisor: the configuration inside a snapshot

    [vmm/sandbox/src/cloud_hypervisor/snapshot.rs]: the check of a snapshot's
    [config.json] and its adaptation to the sandbox the snapshot is restored
    into, on JSON values. Reading and writing the file is in [ChDriver]. *)
From S2P Require Import Prelude Strs Storage Types Fs.

(** ** JSON values: [serde_json::Value] *)

(** A number is its text; the keys of an object are distinct ([json_wf]). *)
Inductive JValue :=
  | JNull | JBool (b : bool) | JNum (text : string) | JStr (s : string)
  | JArr (l : list JValue) | JObj (m : list (string * JValue)).

Fixpoint assoc {A} (k : string) (m : list (string * A)) : option A :=
  match m with
  | [] => None
  | (k', v) :: m => if decide (k = k') then Some v else assoc k m
  end.
(** [Map::insert] *)
Fixpoint assoc_set {A} (k : string) (v : A) (m : list (string * A)) : list (string * A) :=
  match m with
  | [] => [(k, v)]
  | (k', w) :: m => if decide (k = k') then (k, v) :: m else (k', w) :: assoc_set k v m
  end.

(** [Value::get], [as_str] and [pointer("/a/b")] *)
Definition jget (v : JValue) (k : string) : option JValue :=
  match v with JObj m => assoc k m | _ => None end.
Definition jstr (v : JValue) : option string := match v with JStr s => Some s | _ => None end.
Definition pointer (v : JValue) (a b : string) : option JValue := x ← jget v a; jget x b.

(** [*v.get_mut(k)? = x], and [v\[k\] = x] of an object. *)
Definition jset (v : JValue) (k : string) (x : JValue) : JValue :=
  match v with JObj m => JObj (assoc_set k x m) | _ => v end.
(** [*v.pointer_mut("/a/b")? = x] *)
Definition pointer_set (v : JValue) (a b : string) (x : JValue) : option JValue :=
  w ← jget v a; _ ← jget w b; Some (jset v a (jset w b x)).

(** ** The paths of the new sandbox: [vm.rs] *)
Record SnapshotPathOverrides := mkOverrides { ov_task_vsock : string; ov_console_path : string }.

Definition from_original (new_base_dir original_vsock sandbox_id : string) : SnapshotPathOverrides :=
  mkOverrides (path_join new_base_dir (default "task.vsock" (file_name original_vsock)))
    ("/tmp/" +:+ sandbox_id +:+ "-" +:+ "task.log").

(** ** Checking *)
Definition has_network_devices (cfg : JValue) : bool :=
  match jget cfg "net" with
  | Some (JArr l) => bool_decide (l ≠ [])
  | Some (JObj m) => bool_decide (m ≠ [])
  | _ => false
  end.

Inductive ConfigError := NoVsock | HasNetwork.

(** [validate_snapshot_config], once the file is parsed *)
Definition validate_config (cfg : JValue) (ty : SnapshotType) : result unit ConfigError :=
  match pointer cfg "vsock" "socket" ≫= jstr with
  | None => Err NoVsock
  | Some _ =>
      if bool_decide (ty = Environment) && has_network_devices cfg then Err HasNetwork else Ok tt
  end.

(** ** Patching *)

(** The closure of [retain_mut] *)
Definition remap_disk (remaps : list (string * string)) (disk : JValue) : option JValue :=
  i ← jget disk "id" ≫= jstr;
  p ← assoc i remaps;
  Some (jset disk "path" (JStr p)).

Definition patch_disks (remaps : list (string * string)) (cfg : JValue) : JValue :=
  match jget cfg "disks" with
  | None => cfg
  | Some d =>
      if bool_decide (remaps = []) then jset cfg "disks" (JArr [])
      else match d with
           | JArr l => jset cfg "disks" (JArr (omap (remap_disk remaps) l))
           | _ => cfg
           end
  end.

(** [patch_snapshot_config], between reading and writing *)
Definition patch_config (cfg : JValue) (ov : SnapshotPathOverrides) (remaps : list (string * string))
  : result JValue ConfigError :=
  match pointer_set cfg "vsock" "socket" (JStr (ov_task_vsock ov)) with
  | None => Err NoVsock
  | Some cfg =>
      let cfg := default cfg (pointer_set cfg "console" "file" (JStr (ov_console_path ov))) in
      Ok (patch_disks remaps cfg)
  end.

(** ** Lemmas *)
Section assoc.
Context {A : Type}.
Implicit Types m : list (string * A).

Lemma assoc_set_eq k v m : assoc k (assoc_set k v m) = Some v.
Proof. induction m as [|[k' w] m IH]; simpl; [by rewrite decide_True|]. case_decide; simpl; [by rewrite decide_True|by rewrite decide_False]. Qed.

Lemma assoc_set_ne k k' v m : k' ≠ k → assoc k' (assoc_set k v m) = assoc k' m.
Proof.
  intros Hne. induction m as [|[k1 w] m IH]; simpl; [by rewrite decide_False|].
  repeat (case_decide; simpl); subst; try done; by rewrite decide_False.
Qed.

Lemma assoc_elem k v m : assoc k m = Some v → (k, v) ∈ m.
Proof.
  induction m as [|[k' w] m IH]; simpl; [done|]. case_decide as Hk.
  - intros [= ->]. subst. by left.
  - intros H. right. auto.
Qed.
End assoc.

Lemma jget_set_eq v k x y : jget v k = Some y → jget (jset v k x) k = Some x.
Proof. destruct v; try done. intros _. simpl. by rewrite assoc_set_eq. Qed.

Lemma jget_set_obj m k x : jget (jset (JObj m) k x) k = Some x.
Proof. simpl. by rewrite assoc_set_eq. Qed.

Lemma jget_set_ne v k k' x : k' ≠ k → jget (jset v k x) k' = jget v k'.
Proof. intros Hne. destruct v; try done. simpl. by rewrite assoc_set_ne. Qed.

Lemma jget_is_obj v k x : jget v k = Some x → ∃ m, v = JObj m.
Proof. destruct v; try done. eauto. Qed.

(** A pointer write is read back, and touches nothing else. *)
Lemma pointer_set_spec v a b x v' : pointer_set v a b x = Some v' →
  pointer v' a b = Some x ∧
  (∀ c, c ≠ b → pointer v' a c = pointer v a c) ∧
  (∀ k, k ≠ a → jget v' k = jget v k).
Proof.
  unfold pointer_set, pointer. destruct (jget v a) as [w|] eqn:Ea; simpl; [|done].
  destruct (jget w b) as [y|] eqn:Eb; simpl; [|done]. intros [= <-].
  rewrite (jget_set_eq _ _ _ _ Ea). simpl. split; [by eapply jget_set_eq|]. split.
  - intros c Hc. by rewrite jget_set_ne.
  - intros k Hk. by rewrite jget_set_ne.
Qed.

(** ** What a patched disk list is *)

(** The reference: the disks that have a remap, in their order, each with
    the path it is remapped to and everything else as it was. *)
Definition remapped (remaps : list (string * string)) (old new : JValue) : Prop :=
  ∃ i p, jget old "id" = Some (JStr i) ∧ assoc i remaps = Some p ∧
    jget new "path" = Some (JStr p) ∧ ∀ k, k ≠ "path" → jget new k = jget old k.

Lemma remap_disk_spec remaps d d' : remap_disk remaps d = Some d' ↔
  ∃ i p, jget d "id" = Some (JStr i) ∧ assoc i remaps = Some p ∧ d' = jset d "path" (JStr p).
Proof.
  unfold remap_disk. destruct (jget d "id") as [[| | |i| |]|] eqn:Ei; simpl; split; try done.
  all: try (intros (? & ? & ? & ? & ?); congruence).
  - destruct (assoc i remaps) as [p|] eqn:Ep; simpl; [|done]. intros [= <-]. eauto 10.
  - intros (i' & p & [= <-] & -> & ->). done.
Qed.

Lemma remap_disk_remapped remaps d d' : remap_disk remaps d = Some d' → remapped remaps d d'.
Proof.
  intros (i & p & Hi & Hp & ->)%remap_disk_spec. exists i, p. repeat (split; [done|]).
  destruct (jget_is_obj _ _ _ Hi) as [m ->]. split; [apply jget_set_obj|].
  intros k Hk. by rewrite jget_set_ne.
Qed.

(** Which disks survive. *)
Definition keeps_disk (remaps : list (string * string)) (d : JValue) : bool :=
  match jget d "id" ≫= jstr with Some i => bool_decide (is_Some (assoc i remaps)) | None => false end.

Lemma keeps_disk_remap remaps d : keeps_disk remaps d = bool_decide (is_Some (remap_disk remaps d)).
Proof.
  unfold keeps_disk, remap_disk. destruct (jget d "id" ≫= jstr) as [i|]; simpl; [|done].
  by destruct (assoc i remaps).
Qed.

Lemma omap_remap remaps l :
  Forall2 (remapped remaps) (retain (keeps_disk remaps) l) (omap (remap_disk remaps) l).
Proof.
  induction l as [|d l IH]; simpl; [constructor|]. rewrite keeps_disk_remap.
  destruct (remap_disk remaps d) as [d'|] eqn:E; simpl; [|done].
  constructor; [by apply remap_disk_remapped|done].
Qed.

Lemma patch_disks_other remaps cfg k : k ≠ "disks" → jget (patch_disks remaps cfg) k = jget cfg k.
Proof.
  intros Hk. unfold patch_disks. repeat case_match; try done; by rewrite jget_set_ne.
Qed.

(** The steps of a successful patch. *)
Lemma patch_config_inv cfg ov remaps cfg' : patch_config cfg ov remaps = Ok cfg' →
  ∃ c1 c2, pointer_set cfg "vsock" "socket" (JStr (ov_task_vsock ov)) = Some c1 ∧
    c2 = default c1 (pointer_set c1 "console" "file" (JStr (ov_console_path ov))) ∧
    cfg' = patch_disks remaps c2.
Proof.
  unfold patch_config. destruct (pointer_set _ _ _ _) as [c1|]; [|done]. intros [= <-]. eauto.
Qed.

Lemma pointer_other v v' a b : jget v' a = jget v a → pointer v' a b = pointer v a b.
Proof. unfold pointer. by intros ->. Qed.

(** C13: a patched snapshot configuration belongs to the new sandbox: its
    agent socket is the new one, its console file (if it has one) is the new
    one, every other field of the document is unchanged, and its disk list is
    exactly the disks that were remapped, in order, each pointing at its new
    image and otherwise unchanged; without remaps no disk is left. *)
Theorem patch_config_spec cfg ov remaps cfg' : patch_config cfg ov remaps = Ok cfg' →
  pointer cfg' "vsock" "socket" = Some (JStr (ov_task_vsock ov)) ∧
  (∀ x, pointer cfg "console" "file" = Some x → pointer cfg' "console" "file" = Some (JStr (ov_console_path ov))) ∧
  (∀ k, k ∉ ["vsock"; "console"; "disks"] → jget cfg' k = jget cfg k) ∧
  (∀ c, c ≠ "socket" → pointer cfg' "vsock" c = pointer cfg "vsock" c) ∧
  (∀ c, c ≠ "file" → pointer cfg' "console" c = pointer cfg "console" c) ∧
  (∀ l, jget cfg "disks" = Some (JArr l) →
     ∃ l', jget cfg' "disks" = Some (JArr l') ∧ Forall2 (remapped remaps) (retain (keeps_disk remaps) l) l') ∧
  (remaps = [] → is_Some (jget cfg "disks") → jget cfg' "disks" = Some (JArr [])).
Proof.
  intros (c1 & c2 & E1 & -> & ->)%patch_config_inv.
  apply pointer_set_spec in E1 as (V1 & V2 & V3). set (c2 := default c1 _).
  assert ((∀ c, c ≠ "file" → pointer c2 "console" c = pointer c1 "console" c) ∧
          (∀ k, k ≠ "console" → jget c2 k = jget c1 k) ∧
          (∀ x, pointer c1 "console" "file" = Some x → pointer c2 "console" "file" = Some (JStr (ov_console_path ov))))
    as (C1 & C2 & C3).
  { unfold c2. destruct (pointer_set c1 "console" _ _) as [c|] eqn:Ec; simpl.
    - apply pointer_set_spec in Ec as (? & ? & ?). done.
    - split; [done|]. split; [done|]. intros x Hx. unfold pointer, pointer_set in *.
      destruct (jget c1 "console") as [w|]; simpl in *; [|done]. by rewrite Hx in Ec. }
  assert (∀ k, k ≠ "vsock" → k ≠ "console" → jget c2 k = jget cfg k) as HO.
  { intros k H1 H2. by rewrite C2, V3. }
  assert (∀ a b, a ≠ "disks" → pointer (patch_disks remaps c2) a b = pointer c2 a b) as HD.
  { intros a b Ha. apply pointer_other. by apply patch_disks_other. }
  assert (∀ b, pointer c2 "vsock" b = pointer c1 "vsock" b) as HV by (intros b; apply pointer_other; by apply C2).
  assert (∀ b, pointer c1 "console" b = pointer cfg "console" b) as HC by (intros b; apply pointer_other; by apply V3).
  split; [by rewrite HD, HV|].
  split; [intros x Hx; rewrite HD by done; apply (C3 x); by rewrite HC|].
  split; [intros k Hk; rewrite patch_disks_other by set_solver; apply HO; set_solver|].
  split; [intros c Hc; rewrite HD, HV by done; by apply V2|].
  split; [intros c Hc; rewrite HD, C1, HC; done|].
  assert (jget c2 "disks" = jget cfg "disks") as Hd by (by apply HO).
  split.
  - intros l Hl. unfold patch_disks. rewrite Hd, Hl. destruct (jget_is_obj c2 "disks" (JArr l)) as [m ->]; [by rewrite Hd|].
    case_bool_decide as Hr; [subst|]; (eexists; split; [apply jget_set_obj|]); [|by apply omap_remap].
    rewrite (proj2 (retain_nil _ _)); [constructor|]. intros d _. unfold keeps_disk. by destruct (jget d "id" ≫= jstr).
  - intros -> [d Hdd]. unfold patch_disks. rewrite Hd, Hdd. rewrite bool_decide_eq_true_2 by done.
    destruct (jget_is_obj c2 "disks" d) as [m ->]; [by rewrite Hd|]. apply jget_set_obj.
Qed.

(** The document of the unit test of [snapshot.rs]. *)
Definition sample_config : JValue := JObj
  [("vsock", JObj [("socket", JStr "/old/task.vsock"); ("cid", JNum "3")]);
   ("console", JObj [("file", JStr "/tmp/old.log"); ("mode", JStr "File")]);
   ("pmem", JArr [JObj [("file", JStr "/var/lib/kuasar/rootfs.img"); ("discard_writes", JBool true)]]);
   ("disks", JArr [JObj [("path", JStr "/old/storage3.img"); ("readonly", JBool false); ("id", JStr "blk3")];
                   JObj [("path", JStr "/old/storage4.img"); ("readonly", JBool false); ("id", JStr "blk4")]])].
Definition sample_overrides : SnapshotPathOverrides := mkOverrides "/new/task.vsock" "/tmp/new.log".
Definition sample_patched : JValue := JObj
  [("vsock", JObj [("socket", JStr "/new/task.vsock"); ("cid", JNum "3")]);
   ("console", JObj [("file", JStr "/tmp/new.log"); ("mode", JStr "File")]);
   ("pmem", JArr [JObj [("file", JStr "/var/lib/kuasar/rootfs.img"); ("discard_writes", JBool true)]]);
   ("disks", JArr [JObj [("path", JStr "/new/sandbox/storage3.img"); ("readonly", JBool false); ("id", JStr "blk3")]])].

Lemma patch_config_spec_witness :
  patch_config sample_config sample_overrides [("blk3", "/new/sandbox/storage3.img")] = Ok sample_patched ∧
  pointer sample_patched "vsock" "socket" = Some (JStr "/new/task.vsock").
Proof.
  split; [reflexivity|].
  apply (patch_config_spec sample_config sample_overrides [("blk3", "/new/sandbox/storage3.img")]). reflexivity.
Defined.

(** A configuration that passes the check is always patched. *)
Lemma validated_patches cfg ty ov remaps : validate_config cfg ty = Ok tt → ∃ cfg', patch_config cfg ov remaps = Ok cfg'.
Proof.
  unfold validate_config, patch_config, pointer, pointer_set.
  destruct (jget cfg "vsock") as [w|]; simpl; [|done]. destruct (jget w "socket"); simpl; [|done]. eauto.
Qed.

(** An Environment snapshot is restored without network devices of its own. *)
Lemma validated_environment cfg : validate_config cfg Environment = Ok tt → has_network_devices cfg = false.
Proof. unfold validate_config. case_match; [|done]. simpl. by destruct (has_network_devices cfg). Qed.
