(* ===== verification/ChDriver.v ===== *)
(** * Cloud Hypervisor: the driver

    [vmm/sandbox/src/cloud_hypervisor/{mod,block_backend,memory_backend,client}.rs]:
    starting, stopping, snapshotting and restoring a VM. The state is the VM
    value, the file store, the processes the driver started and the guest of
    each, and the outcomes of the calls to come. *)
From S2P Require Import Prelude Strs Storage Types Metrics Disk Pool Continuation GuestScan Mount Frame Inject Annotations Box BlockImage StorageOps Handlers Sandboxer Fs ChConfig ChSnapshot.
Open Scope box_scope.

(** ** The outside *)

(** [serde_json]: the text of a value parses to that value. [json_number]
    are the number texts it prints. *)
Class JsonCodec := {
  json_parse : string → option JValue;
  json_print : JValue → string;
  json_number : string → Prop
}.

Fixpoint json_wf `{JsonCodec} (v : JValue) : Prop :=
  match v with
  | JNum t => json_number t
  | JArr l => foldr (λ v P, json_wf v ∧ P) True l
  | JObj m => NoDup m.*1 ∧ foldr (λ p P, json_wf p.2 ∧ P) True m
  | _ => True
  end.

(** [serde_json::from_str] yields well-formed values, and reads back what
    [to_string_pretty] wrote. *)
Class JsonLaws `{JsonCodec} : Prop := {
  json_parse_wf : ∀ s v, json_parse s = Some v → json_wf v;
  json_roundtrip : ∀ v, json_wf v → json_parse (json_print v) = Some v
}.

Inductive ChErrno := ESRCH | EEXIST | ENOENT | EOTHER.

(** How a call ends. [Bad e took partial]: it fails with [e], or runs into its
    time limit; [took] says whether it had an effect all the same, and a
    write that fails leaves [partial] in its file. *)
Inductive Outcome := Good | Bad (e : ChErrno) (took : bool) (partial : string).

(** A process the driver started: a VMM without a guest (or virtiofsd), a
    guest with the disks (id and path) it has open, a process that has been
    sent a signal. *)
Inductive ProcState :=
  | NoGuest
  | GuestPaused (disks : list (string * string))
  | GuestRunning (disks : list (string * string))
  | Signalled.

(** Requests on the API socket of the VMM *)
Inductive ApiReq :=
  | ApiPause | ApiResume | ApiSnapshot (url : string) | ApiRestore (url : string) (mode : MemoryRestoreMode)
  | ApiAddDisk (id path : string) (readonly direct : bool)
  | ApiAddNet (id mac : string) (num_queues : N) (fds : list N) | ApiRemove (id : string).

Inductive ChCall :=
  | CMkdir (p : string) | CRemove (p : string) | CRename (a b : string) | CCp (always : bool) (a b : string)
  | CCopy (a b : string) | CSymlink (target p : string) | CStat (p : string) | CRead (p : string)
  | CWrite (p s : string)
  | CSpawn (cmd : string) (args : list string) (fds : list N) (netns : string)
  | CProbe (pid : N) | CKill (pid : N) (force : bool) | CWait (pid : N) | CConnect (pid : N)
  | CApi (pid : N) (r : ApiReq) | CSync | CCheck.

Record Driver := mkDriver {
  dr_vm : CloudHypervisorVM;
  dr_fs : Fs;
  dr_procs : gmap N ProcState;
  dr_next_pid : N;
  dr_trace : list (ChCall * bool);                 (** the calls made, and whether each succeeded *)
  dr_outs : list Outcome;                          (** [Good] when it is empty *)
  dr_guest : list (string * string)                (** what a running guest writes, and where *)
}.

Definition set_vm (f : CloudHypervisorVM → CloudHypervisorVM) (d : Driver) : Driver :=
  mkDriver (f (dr_vm d)) (dr_fs d) (dr_procs d) (dr_next_pid d) (dr_trace d) (dr_outs d) (dr_guest d).
Definition set_fs (f : Fs → Fs) (d : Driver) : Driver :=
  mkDriver (dr_vm d) (f (dr_fs d)) (dr_procs d) (dr_next_pid d) (dr_trace d) (dr_outs d) (dr_guest d).
Definition set_procs (f : gmap N ProcState → gmap N ProcState) (d : Driver) : Driver :=
  mkDriver (dr_vm d) (dr_fs d) (f (dr_procs d)) (dr_next_pid d) (dr_trace d) (dr_outs d) (dr_guest d).
Definition set_next_pid (n : N) (d : Driver) : Driver :=
  mkDriver (dr_vm d) (dr_fs d) (dr_procs d) n (dr_trace d) (dr_outs d) (dr_guest d).

Inductive ChError :=
  | EFailed (c : ChCall) | EConfig (e : ConfigError) | EParse | ENoPid | ENoClient | EUnsupported | ETimeout
  | EGone | ENoSocket | EPath.

Abbreviation Ch A := (M Driver (result A ChError)).

(** ** Calls *)
Definition next_outcome : M Driver Outcome := λ d,
  match dr_outs d with
  | [] => Some (Good, d)
  | o :: l => Some (o, mkDriver (dr_vm d) (dr_fs d) (dr_procs d) (dr_next_pid d) (dr_trace d) l (dr_guest d))
  end.
Definition log_call (c : ChCall) (ok : bool) : M Driver unit := modify (λ d,
  mkDriver (dr_vm d) (dr_fs d) (dr_procs d) (dr_next_pid d) (dr_trace d ++ [(c, ok)]) (dr_outs d) (dr_guest d)).

Definition errno_fs (e : ChErrno) : FsError :=
  match e with EEXIST => FsExists | ENOENT => FsNotFound | _ => FsOther end.

(** A file-system call: [f] is what it does, [bad] what a failure may leave. *)
Definition fs_call (c : ChCall) (f : Fs → result Fs FsError) (bad : string → Fs → Fs) : M Driver (result unit FsError) :=
  o ← next_outcome;
  fs ← gets dr_fs;
  match o with
  | Good =>
      match f fs with
      | Ok fs' => modify (set_fs (λ _, fs'));; log_call c true;; mret (Ok tt)
      | Err e => log_call c false;; mret (Err e)
      end
  | Bad e took partial =>
      (if took : bool then modify (set_fs (bad partial)) else mret tt);;
      log_call c false;; mret (Err (errno_fs e))
  end.

Definition harmless (_ : string) (fs : Fs) : Fs := fs.
Definition leaves (p : string) (partial : string) (fs : Fs) : Fs := default fs (fs_write fs p partial).
Definition overwrite (p s : string) (fs : Fs) : result Fs FsError :=
  match fs_write fs p s with Some fs' => Ok fs' | None => Err FsOther end.
Definition present (p : string) (fs : Fs) : result Fs FsError :=
  match entry_at fs p with Some _ => Ok fs | None => Err FsNotFound end.

Definition create_dir (p : string) := fs_call (CMkdir p) (λ fs, fs_create_dir_all fs p) harmless.
Definition remove_file (p : string) := fs_call (CRemove p) (λ fs, fs_remove_file fs p) harmless.
Definition rename (a b : string) := fs_call (CRename a b) (λ fs, fs_rename fs a b) harmless.
Definition symlink (target p : string) := fs_call (CSymlink target p) (λ fs, fs_symlink fs target p) harmless.
Definition copy (a b : string) := fs_call (CCopy a b) (λ fs, fs_copy fs a b) (leaves b).
Definition metadata (p : string) := fs_call (CStat p) (present p) harmless.

(** [r.map_err(..)?] *)
Definition orf {A} (c : ChCall) (m : M Driver (result A FsError)) : Ch A :=
  r ← m; mret (match r with Ok a => Ok a | Err _ => Err (EFailed c) end).

(** [cp --reflink]: it may not start at all ([Err]), or end with a status. *)
Definition cp (always : bool) (a b : string) : M Driver (result bool FsError) :=
  r ← fs_call (CCp always a b) (λ fs, fs_copy fs a b) (leaves b);
  mret (match r with Ok _ => Ok true | Err FsNotFound => Err FsNotFound | Err _ => Ok false end).

Definition read_to_string (p : string) : Ch string :=
  fs ← gets dr_fs;
  do? orf (CRead p) (fs_call (CRead p) (λ fs, match fs_read fs p with Some _ => Ok fs | None => Err FsNotFound end) harmless);;
  mret (match fs_read fs p with Some s => Ok s | None => Err (EFailed (CRead p)) end).

(** [utils::fs_write_file_atomic] *)
Definition fs_write_file_atomic (p s : string) : Ch unit :=
  match file_name p, parent p with
  | Some n, Some dir =>
      let tmp := path_join dir ("." +:+ n) in
      do? orf (CWrite tmp s) (fs_call (CWrite tmp s) (overwrite tmp s) (leaves tmp));;
      orf (CRename tmp p) (rename tmp p)
  | _, _ => mret (Err EPath)
  end.

(** ** Processes *)
Definition spawn (cmd : string) (args : list string) (fds : list N) (st : ProcState) : Ch N :=
  o ← next_outcome;
  netns ← gets (λ d, vm_netns (dr_vm d));
  let c := CSpawn cmd args fds netns in
  match o with
  | Good =>
      pid ← gets dr_next_pid;
      modify (set_procs (insert pid st));;
      modify (set_next_pid (pid + 1));;
      log_call c true;; mret (Ok pid)
  | Bad _ _ _ => log_call c false;; mret (Err (EFailed c))
  end.

(** [signal::kill]: [ESRCH] when there is no such process. *)
Definition kill (pid : N) (force : bool) : M Driver (result unit ChErrno) :=
  o ← next_outcome;
  procs ← gets dr_procs;
  match procs !! pid, o with
  | None, _ => log_call (CKill pid force) false;; mret (Err ESRCH)
  | Some _, Good => modify (set_procs (insert pid Signalled));; log_call (CKill pid force) true;; mret (Ok tt)
  | Some _, Bad e _ _ => log_call (CKill pid force) false;; mret (Err e)
  end.

Definition set_wait_chan (c : option (N * Z)) (v : CloudHypervisorVM) : CloudHypervisorVM :=
  mkChVM (vm_id v) (vm_config v) (vm_devices v) (vm_netns v) (vm_base_dir v) (vm_agent_socket v)
    (vm_virtiofsd_config v) (vm_backend v) (vm_direct_io v) c (vm_client v) (vm_fds v) (vm_pids v) (vm_pending_net v).
Definition set_vm_client (c : option N) (v : CloudHypervisorVM) : CloudHypervisorVM :=
  mkChVM (vm_id v) (vm_config v) (vm_devices v) (vm_netns v) (vm_base_dir v) (vm_agent_socket v)
    (vm_virtiofsd_config v) (vm_backend v) (vm_direct_io v) (vm_wait_chan v) c (vm_fds v) (vm_pids v) (vm_pending_net v).
Definition set_fds (l : list N) (v : CloudHypervisorVM) : CloudHypervisorVM :=
  mkChVM (vm_id v) (vm_config v) (vm_devices v) (vm_netns v) (vm_base_dir v) (vm_agent_socket v)
    (vm_virtiofsd_config v) (vm_backend v) (vm_direct_io v) (vm_wait_chan v) (vm_client v) l (vm_pids v) (vm_pending_net v).
Definition set_pids (f : Pids → Pids) (v : CloudHypervisorVM) : CloudHypervisorVM :=
  mkChVM (vm_id v) (vm_config v) (vm_devices v) (vm_netns v) (vm_base_dir v) (vm_agent_socket v)
    (vm_virtiofsd_config v) (vm_backend v) (vm_direct_io v) (vm_wait_chan v) (vm_client v) (vm_fds v) (f (vm_pids v)) (vm_pending_net v).
Definition set_pending (l : list NetHotplugInfo) (v : CloudHypervisorVM) : CloudHypervisorVM :=
  mkChVM (vm_id v) (vm_config v) (vm_devices v) (vm_netns v) (vm_base_dir v) (vm_agent_socket v)
    (vm_virtiofsd_config v) (vm_backend v) (vm_direct_io v) (vm_wait_chan v) (vm_client v) (vm_fds v) (vm_pids v) l.

Definition vmm_pid_of (d : Driver) : option N := pid_vmm (vm_pids (dr_vm d)).

(** [wait_stop]: until the exit of the VMM is on the channel, or 10 s. *)
Definition wait_stop : Ch unit :=
  v ← gets dr_vm;
  match vm_wait_chan v, pid_vmm (vm_pids v) with
  | Some (_, ts), Some pid =>
      if (ts =? 0)%Z then
        o ← next_outcome;
        match o with
        | Good =>
            modify (set_procs (delete pid));;
            modify (set_vm (set_wait_chan (Some (0%N, 1%Z))));;
            log_call (CWait pid) true;; mret (Ok tt)
        | Bad _ _ _ => log_call (CWait pid) false;; mret (Err ETimeout)
        end
      else mret (Ok tt)
  | _, _ => mret (Ok tt)
  end.

(** [signal::kill(..).unwrap_or_default()] on each affiliated process *)
Fixpoint kill_all (pids : list N) (force : bool) : M Driver unit :=
  match pids with
  | [] => mret tt
  | p :: l => (if (0 <? p)%N then _ ← kill p force; mret tt else mret tt);; kill_all l force
  end.

(** [VM::stop] *)
Definition ch_stop (force : bool) : Ch unit :=
  pids ← gets (λ d, vm_pids (dr_vm d));
  do? (match pid_vmm pids with
       | Some pid =>
           if (0 <? pid)%N then
             r ← kill pid force;
             match r with
             | Ok _ => wait_stop
             | Err ESRCH => mret (Ok tt)
             | Err _ => mret (Err (EFailed (CKill pid force)))
             end
           else mret (Ok tt)
       | None => mret (Ok tt)
       end);;
  kill_all (pid_affiliated pids) force;;
  mret (Ok tt).

(** ** The API client: [client.rs] *)

(** [ChClient::new] tries again every 10 ms; [took] marks the attempt after
    which the 10 s are over. *)
Fixpoint connect_loop (outs : list Outcome) : bool * list Outcome :=
  match outs with
  | [] => (true, [])
  | Good :: l => (true, l)
  | Bad _ true _ :: l => (false, l)
  | Bad _ false _ :: l => connect_loop l
  end.

Definition set_outs (l : list Outcome) (d : Driver) : Driver :=
  mkDriver (dr_vm d) (dr_fs d) (dr_procs d) (dr_next_pid d) (dr_trace d) l (dr_guest d).

(** Nobody listens on the socket of a process that is gone. *)
Definition listening (pid : N) (procs : gmap N ProcState) : bool :=
  match procs !! pid with Some Signalled | None => false | Some _ => true end.

Definition create_client : Ch N :=
  d ← gets id;
  match vmm_pid_of d with
  | None => mret (Err ENoPid)
  | Some pid =>
      let '(ok, rest) := connect_loop (dr_outs d) in
      let ok := ok && listening pid (dr_procs d) in
      modify (set_outs rest);;
      log_call (CConnect pid) ok;;
      mret (if ok then Ok pid else Err (EFailed (CConnect pid)))
  end.

Definition get_client : Ch N :=
  c ← gets (λ d, vm_client (dr_vm d));
  mret (match c with Some p => Ok p | None => Err ENoClient end).

Section driver.
Context `{JsonCodec}.
(** What the VMM writes into a snapshot directory for a guest with these
    disks. *)
Context (snapshot_files : list (string * string) → list (string * string)).

Definition url_dir (url : string) : string := default url (strip_prefix "file://" url).

Definition write_files (dir : string) (files : list (string * string)) (fs : Fs) : Fs :=
  foldl (λ fs p, default fs (fs_write fs (path_join dir p.1) p.2)) fs files.

(** The disks a snapshot configuration names *)
Definition disk_entry (v : JValue) : option (string * string) :=
  i ← jget v "id" ≫= jstr; p ← jget v "path" ≫= jstr; Some (i, p).
Definition config_disks (cfg : JValue) : list (string * string) :=
  match jget cfg "disks" with Some (JArr l) => omap disk_entry l | _ => [] end.

(** What a request does in the VMM: its guest and the files. [None]: the
    request is refused in this state. *)
Definition api_effect (r : ApiReq) (st : ProcState) (fs : Fs) : option (ProcState * Fs) :=
  match r, st with
  | ApiPause, GuestRunning ds => Some (GuestPaused ds, fs)
  | ApiResume, GuestPaused ds => Some (GuestRunning ds, fs)
  | ApiSnapshot url, GuestPaused ds => Some (st, write_files (url_dir url) (snapshot_files ds) fs)
  | ApiRestore url _, NoGuest =>
      let dir := url_dir url in
      _ ← fs_read fs (path_join dir "memory-ranges");
      _ ← fs_read fs (path_join dir "state.json");
      s ← fs_read fs (path_join dir "config.json");
      cfg ← json_parse s;
      Some (GuestPaused (config_disks cfg), fs)
  | ApiAddDisk i p _ _, GuestRunning ds => Some (GuestRunning (ds ++ [(i, p)]), fs)
  | ApiAddDisk i p _ _, GuestPaused ds => Some (GuestPaused (ds ++ [(i, p)]), fs)
  | ApiAddNet _ _ _ _, (GuestRunning _ | GuestPaused _) => Some (st, fs)
  | ApiRemove i, GuestRunning ds => Some (GuestRunning (retain (λ d, negb (bool_decide (d.1 = i))) ds), fs)
  | ApiRemove i, GuestPaused ds => Some (GuestPaused (retain (λ d, negb (bool_decide (d.1 = i))) ds), fs)
  | _, _ => None
  end.

Definition apply_effect (pid : N) (e : ProcState * Fs) : M Driver unit :=
  modify (set_procs (insert pid e.1));; modify (set_fs (λ _, e.2)).

(** [simple_api_command] on the socket of process [pid] *)
Definition api (pid : N) (r : ApiReq) : Ch unit :=
  o ← next_outcome;
  d ← gets id;
  let e := st ← dr_procs d !! pid; api_effect r st (dr_fs d) in
  match o, e with
  | Good, Some e => apply_effect pid e;; log_call (CApi pid r) true;; mret (Ok tt)
  | Good, None => log_call (CApi pid r) false;; mret (Err (EFailed (CApi pid r)))
  | Bad _ took _, _ =>
      (match took, e with true, Some e => apply_effect pid e | _, _ => mret tt end);;
      log_call (CApi pid r) false;; mret (Err (EFailed (CApi pid r)))
  end.

(** ** Devices *)
Inductive DeviceInfo :=
  | BlockInfo (id path : string) (read_only : bool)
  | TapInfo (id : string) (name mac : string) (fds : list N)
  | PhysicalInfo (id bdf : string)
  | VhostUserInfo (id : string)
  | CharInfo (id : string).

(** [append_fd]: the number the descriptor gets in the child. *)
Definition append_fd (fd : N) (v : CloudHypervisorVM) : N * CloudHypervisorVM :=
  (N.of_nat (length (vm_fds v) + 3), set_fds (vm_fds v ++ [fd]) v).

Fixpoint append_fds (fds : list N) (v : CloudHypervisorVM) : list N * CloudHypervisorVM :=
  match fds with
  | [] => ([], v)
  | fd :: fds =>
      let '(i, v) := append_fd fd v in
      let '(l, v) := append_fds fds v in
      (i :: l, v)
  end.

(** [VM::attach], before the VM starts; a tap without a queue is a panic. *)
Definition attach (info : DeviceInfo) : Ch unit :=
  v ← gets dr_vm;
  match info with
  | BlockInfo i p ro => modify (set_vm (add_device (DDisk (Disk_new i p ro (vm_direct_io v)))));; mret (Ok tt)
  | TapInfo i name mac fds =>
      let '(idx, v') := append_fds fds v in
      if bool_decide (fds = []) then panic else
      let v' := add_device (DNet (VirtioNetDevice_new i (Some name) mac idx)) v' in
      let num_queues := uwrap 32 (N.of_nat (length fds) * 2) in
      modify (set_vm (λ _, set_pending (vm_pending_net v' ++ [mkHotplug i mac fds num_queues]) v'));;
      mret (Ok tt)
  | PhysicalInfo i bdf => modify (set_vm (add_device (DVfio (VfioDevice_new i bdf))));; mret (Ok tt)
  | VhostUserInfo _ | CharInfo _ => mret (Err EUnsupported)
  end.

(** [ChClient::hot_attach]: the address of a disk is in the answer. *)
Definition hot_attach (bdf_of : string → string) (info : DeviceInfo) : Ch (BusType * string) :=
  v ← gets dr_vm;
  let! pid := get_client in
  match info with
  | BlockInfo i p ro => do? api pid (ApiAddDisk i p ro (vm_direct_io v));; mret (Ok (PCI, bdf_of i))
  | TapInfo i _ mac fds =>
      if bool_decide (fds = []) then mret (Err EUnsupported) else
      do? api pid (ApiAddNet i mac (uwrap 32 (N.of_nat (length fds) * 2)) fds);; mret (Ok (PCI, ""))
  | PhysicalInfo _ _ | VhostUserInfo _ | CharInfo _ => panic
  end.

Definition hot_detach (i : string) : Ch unit :=
  let! pid := get_client in api pid (ApiRemove i).

Fixpoint add_nets (l : list NetHotplugInfo) : Ch unit :=
  match l with
  | [] => mret (Ok tt)
  | n :: l =>
      let! pid := get_client in
      do? api pid (ApiAddNet (nh_id n) (nh_mac n) (nh_num_queues n) (nh_raw_fds n));;
      add_nets l
  end.

Definition hotplug_pending_network : Ch unit :=
  l ← gets (λ d, vm_pending_net (dr_vm d));
  if bool_decide (l = []) then mret (Ok tt) else
  modify (set_vm (set_pending []));;
  add_nets l.

(** ** Starting *)
Definition forget_error {A} (m : M Driver A) : M Driver unit := _ ← m; mret tt.

Definition start_virtiofsd : Ch N :=
  v ← gets dr_vm;
  let c := vm_virtiofsd_config v in
  do? orf (CMkdir (vd_shared_dir c)) (create_dir (vd_shared_dir c));;
  spawn (vd_path c) (VirtiofsdConfig_params "--" c) [] NoGuest.

Definition device_disks (l : list ChDevice) : list (string * string) :=
  omap (λ d, match d with DDisk d => Some (dk_id d, dk_path d) | _ => None end) l.

(** What follows the spawn of the VMM in [start] and [launch_for_restore]:
    the exit channel and the API client; without one the VMM is killed. *)
Definition adopt_vmm (pid : N) : Ch unit :=
  modify (set_vm (λ v, set_wait_chan (Some (0%N, 0%Z)) (set_pids (λ p, mkPids (Some pid) (pid_affiliated p)) v)));;
  r ← create_client;
  match r with
  | Ok c => modify (set_vm (set_vm_client (Some c)));; mret (Ok tt)
  | Err e => forget_error (ch_stop true);; mret (Err e)
  end.

(** [VM::start] *)
Definition ch_start : Ch N :=
  v ← gets dr_vm;
  do? orf (CMkdir (vm_base_dir v)) (create_dir (vm_base_dir v));;
  forget_error (remove_file (cc_api_socket (vm_config v)));;
  do? (if bool_decide (vm_backend v = Virtiofs) then
         let! pid := start_virtiofsd in
         modify (set_vm (set_pids (λ p, mkPids (pid_vmm p) (pid_affiliated p ++ [pid]))));;
         mret (Ok tt)
       else mret (Ok tt));;
  match mapM device_params (vm_devices v) with
  | None => panic
  | Some ps =>
      let params := CloudHypervisorConfig_params "--" (vm_config v) ++ to_cmdline_params "--" ps ++
                    (if cc_debug (vm_config v) then ["-vv"] else []) in
      modify (set_vm (set_fds []));;
      let! pid := spawn (cc_path (vm_config v)) params (vm_fds v) (GuestRunning (device_disks (vm_devices v))) in
      do? adopt_vmm pid;;
      mret (Ok pid)
  end.

Definition launch_for_restore : Ch unit :=
  v ← gets dr_vm;
  do? orf (CMkdir (vm_base_dir v)) (create_dir (vm_base_dir v));;
  forget_error (remove_file (cc_api_socket (vm_config v)));;
  let! pid := spawn (cc_path (vm_config v))
                (["--api-socket"; cc_api_socket (vm_config v)] ++ (if cc_debug (vm_config v) then ["-vv"] else []))
                [] NoGuest in
  adopt_vmm pid.

(** [Recoverable::recover] *)
Definition ch_recover : Ch unit :=
  v ← gets dr_vm;
  match pid_vmm (vm_pids v) with
  | None => mret (Err ENoPid)
  | Some pid =>
      procs ← gets dr_procs;
      if negb (bool_decide (is_Some (procs !! pid))) then log_call (CProbe pid) false;; mret (Err EGone) else
      log_call (CProbe pid) true;;
      r ← metadata (cc_api_socket (vm_config v));
      match r with
      | Err _ => mret (Err ENoSocket)
      | Ok _ =>
          let! c := create_client in
          modify (set_vm (λ v, set_wait_chan (Some (0%N, 0%Z)) (set_vm_client (Some c) v)));;
          mret (Ok tt)
      end
  end.

(** ** The guest agent *)

(** A running guest writes to the disks it has open. *)
Definition guest_write (ds : list (string * string)) (fs : Fs) (w : string * string) : Fs :=
  if bool_decide (w.1 ∈ ds.*2) then default fs (fs_write fs w.1 w.2) else fs.
Definition guest_runs : M Driver unit := modify (λ d,
  match vmm_pid_of d ≫= λ pid, dr_procs d !! pid with
  | Some (GuestRunning ds) => set_fs (λ fs, foldl (guest_write ds) fs (dr_guest d)) d
  | _ => d
  end).

(** [wait_agent_ready]: connect and check until it works or the time is up,
    while the guest runs. *)
Definition wait_agent_ready : Ch unit :=
  guest_runs;;
  d ← gets id;
  let '(ok, rest) := connect_loop (dr_outs d) in
  modify (set_outs rest);;
  log_call CCheck ok;;
  mret (if ok then Ok tt else Err ETimeout).

(** [VM::ping]: a single attempt *)
Definition ping : Ch unit :=
  v ← gets dr_vm;
  if bool_decide (vm_agent_socket v = "") then mret (Ok tt) else
  o ← next_outcome;
  match o with
  | Good => log_call CCheck true;; mret (Ok tt)
  | Bad _ _ _ => log_call CCheck false;; mret (Err (EFailed CCheck))
  end.

(** [exec_vm_process("sync")] in the guest *)
Definition sync_guest_fs : Ch unit :=
  o ← next_outcome;
  match o with
  | Good => log_call CSync true;; mret (Ok tt)
  | Bad _ _ _ => log_call CSync false;; mret (Err (EFailed CSync))
  end.

(** ** Disk images *)
Definition tmp_name (dst : string) : string :=
  with_file_name dst ("." +:+ default "" (file_name dst) +:+ ".tmp").

Definition copy_img_file (src dst : string) : Ch unit :=
  let tmp := tmp_name dst in
  r ← cp false src tmp;
  do? (match r with
       | Ok true => mret (Ok tt)
       | _ => forget_error (remove_file tmp);; orf (CCopy src tmp) (copy src tmp)
       end);;
  orf (CRename tmp dst) (rename tmp dst).

Definition copy_img_file_reflink (src dst : string) : Ch unit :=
  let tmp := tmp_name dst in
  let! ok := orf (CCp true src tmp) (cp true src tmp) in
  if (ok : bool) then orf (CRename tmp dst) (rename tmp dst)
  else forget_error (remove_file tmp);; mret (Err (EFailed (CCp true src tmp))).

Definition symlink_idempotent (src dst : string) : Ch unit :=
  r ← symlink src dst;
  mret (match r with Ok _ => Ok tt | Err FsExists => Ok tt | Err _ => Err (EFailed (CSymlink src dst)) end).

Definition check_reflink_support (working_dir store_dir : string) : Ch bool :=
  let test_src := path_join working_dir ".reflink_test_src" in
  let test_dst := path_join store_dir ".reflink_test_dst" in
  let content := "test content for reflink" in
  do? orf (CWrite test_src content) (fs_call (CWrite test_src content) (overwrite test_src content) (leaves test_src));;
  let! ok := orf (CCp true test_src test_dst) (cp true test_src test_dst) in
  forget_error (remove_file test_src);;
  forget_error (remove_file test_dst);;
  mret (Ok ok).

(** ** Snapshots *)
Definition disk_file (storage_id : string) : string := "disks/" +:+ storage_id +:+ ".img".

Fixpoint copy_disks (disks : list DiskSnapshot) (dest_dir : string) (entries : list DiskImageEntry)
  : Ch (list DiskImageEntry) :=
  match disks with
  | [] => mret (Ok entries)
  | k :: disks =>
      let filename := disk_file (ds_storage_id k) in
      do? copy_img_file (ds_img_path k) (path_join dest_dir filename);;
      copy_disks disks dest_dir (entries ++ [mkDiskImage (ds_storage_id k) (ds_device_id k) filename])
  end.

Definition copy_disk_images (disks : list DiskSnapshot) (dest_dir disks_dir : string) : Ch (list DiskImageEntry) :=
  do? orf (CMkdir disks_dir) (create_dir disks_dir);;
  copy_disks disks dest_dir [].

Record ChSnapshotMeta := mkSnapshotMeta {
  sn_snapshot_dir : string; sn_task_vsock : string; sn_console_path : string; sn_disk_images : list DiskImageEntry
}.

(** [Snapshottable::snapshot] *)
Definition ch_snapshot (dest_dir : string) (disks : list DiskSnapshot) : Ch ChSnapshotMeta :=
  do? orf (CMkdir dest_dir) (create_dir dest_dir);;
  forget_error sync_guest_fs;;
  let! pid := get_client in
  do? api pid ApiPause;;
  r ← (if bool_decide (disks = []) then mret (Ok [])
       else copy_disk_images disks dest_dir (path_join dest_dir "disks"));
  match r with
  | Err e => forget_error (api pid ApiResume);; mret (Err e)
  | Ok images =>
      snap_result ← api pid (ApiSnapshot ("file://" +:+ dest_dir));
      forget_error (api pid ApiResume);;
      v ← gets dr_vm;
      do? mret snap_result;;
      mret (Ok (mkSnapshotMeta dest_dir (vsock_path v) (console_log_path v) images))
  end.

(** ** Restores *)
Record ChRestoreSource := mkChSource {
  cs_snapshot_dir : string;
  cs_work_dir : string;
  cs_overrides : SnapshotPathOverrides;
  cs_snapshot_type : SnapshotType;
  cs_disk_images : list DiskImageEntry;
  cs_memory_restore_mode : MemoryRestoreMode;
  cs_reflink_supported : bool;
  cs_lease_mode : TemplateLeaseMode
}.

Inductive RestoreBlockAction := NoBlockAction | ReflinkCopied | PlainCopied | Symlinked | MovedExclusive.

Record PendingMove := mkMove { mv_current : string; mv_original : string }.

Record RestoredBlockArtifacts := mkArtifacts {
  ra_disk_remaps : list (string * string);
  ra_restored_paths : list string;
  ra_action : RestoreBlockAction;
  ra_pending_moves : list PendingMove
}.
Definition no_artifacts : RestoredBlockArtifacts := mkArtifacts [] [] NoBlockAction [].

Definition restore_action (src : ChRestoreSource) : RestoreBlockAction :=
  match cs_snapshot_type src with
  | Continuation => MovedExclusive
  | WarmFork =>
      if bool_decide (cs_lease_mode src = Shared)
      then if cs_reflink_supported src then ReflinkCopied else PlainCopied
      else Symlinked
  | Environment => Symlinked
  end.

Definition snapshot_disk_path (src : ChRestoreSource) (e : DiskImageEntry) : string :=
  path_join (cs_snapshot_dir src) (di_filename e).
Definition restored_disk_path (base_dir : string) (e : DiskImageEntry) : string :=
  path_join base_dir (di_storage_id e +:+ ".img").

(** Every rename is tried; failures are logged. *)
Fixpoint undo_moves (l : list PendingMove) : M Driver unit :=
  match l with
  | [] => mret tt
  | m :: l => forget_error (rename (mv_current m) (mv_original m));; undo_moves l
  end.

(** [rollback_pending_moves] stops at the first error. *)
Fixpoint rollback_moves (l : list PendingMove) : M Driver (result unit FsError) :=
  match l with
  | [] => mret (Ok tt)
  | m :: l =>
      r ← rename (mv_current m) (mv_original m);
      match r with Ok _ => rollback_moves l | Err e => mret (Err e) end
  end.
Definition rollback_pending_moves (a : RestoredBlockArtifacts) : M Driver (result unit FsError) :=
  rollback_moves (ra_pending_moves a).

(** One disk: the match of the loop *)
Definition restore_disk (action : RestoreBlockAction) (src_img dst_img : string) (moves : list PendingMove)
  : Ch (list PendingMove) :=
  match action with
  | ReflinkCopied => do? copy_img_file_reflink src_img dst_img;; mret (Ok moves)
  | PlainCopied => do? copy_img_file src_img dst_img;; mret (Ok moves)
  | Symlinked => do? orf (CSymlink src_img dst_img) (symlink src_img dst_img);; mret (Ok moves)
  | MovedExclusive =>
      r ← rename src_img dst_img;
      match r with
      | Err _ => undo_moves moves;; mret (Err (EFailed (CRename src_img dst_img)))
      | Ok _ => mret (Ok (moves ++ [mkMove dst_img src_img]))
      end
  | NoBlockAction => mret (Ok moves)
  end.

Fixpoint restore_disks (action : RestoreBlockAction) (src : ChRestoreSource) (base_dir : string)
    (l : list DiskImageEntry) (remaps : list (string * string)) (paths : list string) (moves : list PendingMove)
  : Ch RestoredBlockArtifacts :=
  match l with
  | [] => mret (Ok (mkArtifacts remaps paths action moves))
  | e :: l =>
      let dst_img := restored_disk_path base_dir e in
      let! moves := restore_disk action (snapshot_disk_path src e) dst_img moves in
      restore_disks action src base_dir l (remaps ++ [(di_device_id e, dst_img)]) (paths ++ [dst_img]) moves
  end.

Definition prepare_restore_block_artifacts (src : ChRestoreSource) (base_dir : string) : Ch RestoredBlockArtifacts :=
  if bool_decide (cs_disk_images src = []) then mret (Ok no_artifacts) else
  do? orf (CMkdir base_dir) (create_dir base_dir);;
  restore_disks (restore_action src) src base_dir (cs_disk_images src) [] [] [].

Definition parse_file (p : string) : Ch JValue :=
  let! s := read_to_string p in
  mret (match json_parse s with Some v => Ok v | None => Err EParse end).

Definition validate_snapshot_config (p : string) (ty : SnapshotType) : Ch unit :=
  let! cfg := parse_file p in
  mret (match validate_config cfg ty with Ok _ => Ok tt | Err e => Err (EConfig e) end).

Definition patch_snapshot_config (p dst : string) (ov : SnapshotPathOverrides) (remaps : list (string * string)) : Ch unit :=
  let! cfg := parse_file p in
  match patch_config cfg ov remaps with
  | Err e => mret (Err (EConfig e))
  | Ok cfg' => fs_write_file_atomic dst (json_print cfg')
  end.

(** [memory_backend.rs] *)
Definition memory_artifacts_for_mode (m : MemoryRestoreMode) : list string :=
  ["memory-ranges"; "state.json"] ++
  match m with
  | Copy | OnDemand => []
  | FileBackend => ["memory.img"]
  | ExternalUffd => ["memory.img"; "memory-ranges.manifest"]
  end.

Fixpoint pin_artifacts (src : ChRestoreSource) (l : list string) : Ch unit :=
  match l with
  | [] => mret (Ok tt)
  | a :: l =>
      let source := path_join (cs_snapshot_dir src) a in
      do? orf (CStat source) (metadata source);;
      do? symlink_idempotent source (path_join (cs_work_dir src) a);;
      pin_artifacts src l
  end.

Record PreparedMemoryBackend := mkPrepared { pb_source_url : string; pb_mode : MemoryRestoreMode }.

Definition prepare_memory_backend (src : ChRestoreSource) : Ch PreparedMemoryBackend :=
  do? pin_artifacts src (memory_artifacts_for_mode (cs_memory_restore_mode src));;
  mret (Ok (mkPrepared ("file://" +:+ cs_work_dir src) (cs_memory_restore_mode src))).

(** Steps 2 to 4, each under [restore_try!] *)
Definition prepare_vmm (src : ChRestoreSource) (remaps : list (string * string)) : Ch PreparedMemoryBackend :=
  let config := path_join (cs_snapshot_dir src) "config.json" in
  do? validate_snapshot_config config (cs_snapshot_type src);;
  do? patch_snapshot_config config (path_join (cs_work_dir src) "config.json") (cs_overrides src) remaps;;
  let! mem := prepare_memory_backend src in
  do? launch_for_restore;;
  mret (Ok mem).

(** Steps 5 and 6, each under [restore_try_with_kill!] *)
Definition resume_guest (mem : PreparedMemoryBackend) : Ch unit :=
  do? (let! pid := get_client in
       do? api pid (ApiRestore (pb_source_url mem) (pb_mode mem));;
       api pid ApiResume);;
  wait_agent_ready.

(** [Snapshottable::restore] *)
Definition ch_restore (src : ChRestoreSource) : Ch unit :=
  v ← gets dr_vm;
  do? orf (CMkdir (cs_work_dir src)) (create_dir (cs_work_dir src));;
  let! blocks := prepare_restore_block_artifacts src (vm_base_dir v) in
  r ← prepare_vmm src (ra_disk_remaps blocks);
  match r with
  | Err e => forget_error (rollback_pending_moves blocks);; mret (Err e)
  | Ok mem =>
      try? resume_guest mem
      else (forget_error (ch_stop true);; forget_error (rollback_pending_moves blocks));;
      mret (Ok tt)
  end.
End driver.
