(* ===== verification/ChLemmas.v ===== *)
(** * Cloud Hypervisor: reasoning about the driver

    Inversion of runs, one lemma per call, and the two frame properties the
    theorems share: which entries of the file store an operation may change,
    and that the log of calls only grows. *)
From S2P Require Import Prelude Strs Storage Types Metrics Disk Pool Continuation GuestScan Mount Frame Inject Annotations Box BlockImage StorageOps Handlers Sandboxer Fs ChConfig ChSnapshot ChDriver.

(** Take a run apart, as far as its branches are decided. *)
Ltac run H :=
  lazymatch type of H with
  | (_ ≫= _) _ = Some _ =>
      let a := fresh "a" in let d := fresh "d" in let H1 := fresh "H" in
      apply bind_inv in H as (a & d & H1 & H); run H1; run H
  | mret _ _ = Some _ => injection H as ? ?; subst
  | gets _ _ = Some _ => injection H as ? ?; subst
  | modify _ _ = Some _ => injection H as ? ?; subst
  | log_call _ _ _ = Some _ => injection H as ? ?; subst
  | forget_error _ _ = Some _ => unfold forget_error in H; run H
  | orf _ _ _ = Some _ => unfold orf in H; run H
  | _ => idtac
  end.

(** The driver after a call on the file store. *)
Definition after_call (d : Driver) (fs : Fs) (ev : ChCall * bool) (outs : list Outcome) : Driver :=
  mkDriver (dr_vm d) fs (dr_procs d) (dr_next_pid d) (dr_trace d ++ [ev]) outs (dr_guest d).

Lemma fs_call_inv c f bad d r d' : fs_call c f bad d = Some (r, d') →
  (∃ fs' outs, r = Ok tt ∧ f (dr_fs d) = Ok fs' ∧ d' = after_call d fs' (c, true) outs) ∨
  (∃ e fs' outs, r = Err e ∧ (fs' = dr_fs d ∨ ∃ l, fs' = bad l (dr_fs d)) ∧ d' = after_call d fs' (c, false) outs).
Proof.
  unfold fs_call, next_outcome, log_call, gets, modify, mret, M_ret, mbind, M_bind, set_fs.
  destruct d as [v fs pr np tr outs g]; simpl. destruct outs as [|o outs]; simpl.
  - destruct (f fs) as [fs'|e] eqn:E; intros [= <- <-]; [left|right]; unfold after_call; simpl; eauto 10.
  - destruct o as [|e took l]; simpl.
    + destruct (f fs) as [fs'|e] eqn:E; intros [= <- <-]; [left|right]; unfold after_call; simpl; eauto 10.
    + destruct took; intros [= <- <-]; right; unfold after_call; simpl; eauto 10.
Qed.

(** ** Entries outside a set stay *)
Definition agree (X : string → Prop) (fs fs' : Fs) : Prop := ∀ p, ¬ X p → fs' !! p = fs !! p.

#[global] Instance agree_po X : PreOrder (agree X).
Proof. split; [by intros fs p|]. intros a b c H1 H2 p Hp. by rewrite H2, H1. Qed.

Lemma agree_mono (X Y : string → Prop) fs fs' : (∀ p, X p → Y p) → agree X fs fs' → agree Y fs fs'.
Proof. intros HXY H p Hp. apply H. auto. Qed.

Lemma agree_insert (X : string → Prop) p e fs : X p → agree X fs (<[p := e]> fs).
Proof. intros Hp q Hq. apply lookup_insert_ne. by intros ->. Qed.
Lemma agree_delete (X : string → Prop) p fs : X p → agree X fs (delete p fs).
Proof. intros Hp q Hq. apply lookup_delete_ne. by intros ->. Qed.

Lemma agree_mkdir X p fs fs' : X p → fs_create_dir_all fs p = Ok fs' → agree X fs fs'.
Proof.
  intros Hp. unfold fs_create_dir_all. repeat case_match; intros [= <-]; try done; by apply agree_insert.
Qed.
Lemma agree_remove X p fs fs' : X p → fs_remove_file fs p = Ok fs' → agree X fs fs'.
Proof. intros Hp. unfold fs_remove_file. repeat case_match; intros [= <-]; by apply agree_delete. Qed.
Lemma agree_rename (X : string → Prop) a b fs fs' : X a → X b → fs_rename fs a b = Ok fs' → agree X fs fs'.
Proof.
  intros Ha Hb (e & _ & _ & _ & ->)%rename_ok. transitivity (delete a fs); [by apply agree_delete|by apply agree_insert].
Qed.
Lemma agree_symlink X t p fs fs' : X p → fs_symlink fs t p = Ok fs' → agree X fs fs'.
Proof. intros Hp. unfold fs_symlink. case_match; intros [= <-]. by apply agree_insert. Qed.

(** A write goes to the path itself when that is no link. *)
Definition no_link (fs : Fs) (p : string) : Prop := ∀ t, fs !! p ≠ Some (ELink t).

Lemma resolve_no_link fs p : no_link fs p → resolve fs p = Some p.
Proof. apply follow_file. Qed.

Lemma write_no_link fs p s fs' : no_link fs p → fs_write fs p s = Some fs' → fs' = <[p := EFile s]> fs.
Proof. intros Hp. intros (q & Hq & -> & _)%write_spec. rewrite resolve_no_link in Hq by done. by injection Hq as ->. Qed.

Lemma leaves_cases p l fs : no_link fs p → leaves p l fs = fs ∨ leaves p l fs = <[p := EFile l]> fs.
Proof.
  intros Hp. unfold leaves. destruct (fs_write fs p l) as [fs'|] eqn:E; [|by left]. right. by apply write_no_link.
Qed.

Lemma no_link_insert fs p q e : no_link fs p → (∀ t, q = p → e ≠ ELink t) → no_link (<[q := e]> fs) p.
Proof.
  intros Hp He t. destruct (decide (q = p)) as [->|Hne].
  - rewrite lookup_insert_eq. intros [= ->]. by eapply He.
  - rewrite lookup_insert_ne by done. apply Hp.
Qed.

Lemma no_link_file fs p s : fs !! p = Some (EFile s) → no_link fs p.
Proof. intros E t. by rewrite E. Qed.
Lemma no_link_None fs p : fs !! p = None → no_link fs p.
Proof. intros E t. by rewrite E. Qed.

(** ** The log grows, and what the guest will write is not the driver's *)
Definition logs_grow (d d' : Driver) : Prop := dr_trace d `prefix_of` dr_trace d' ∧ dr_guest d' = dr_guest d.

#[global] Instance logs_po : PreOrder logs_grow.
Proof. split; [done|]. intros a b c [? ?] [? ?]. split; [by etransitivity|congruence]. Qed.

Definition grows {A} (m : M Driver A) : Prop := ∀ d a d', m d = Some (a, d') → logs_grow d d'.

Lemma grows_ret {A} (a : A) : grows (mret a).
Proof. by intros d a' d' [= _ <-]. Qed.
Lemma grows_panic {A} : grows (panic (A := A)).
Proof. by intros d a d'. Qed.
Lemma grows_gets {A} (f : Driver → A) : grows (gets f).
Proof. by intros d a' d' [= _ <-]. Qed.
Lemma grows_modify f : (∀ d, dr_trace (f d) = dr_trace d ∧ dr_guest (f d) = dr_guest d) → grows (modify f).
Proof. intros Hf d a' d' [= _ <-]. destruct (Hf d) as [E1 E2]. split; [by rewrite E1|done]. Qed.
Lemma grows_bind {A B} (m : M Driver A) (k : A → M Driver B) : grows m → (∀ a, grows (k a)) → grows (m ≫= k).
Proof. intros Hm Hk d b d' (a & d1 & E1 & E2)%bind_inv. transitivity d1; [by eapply Hm|by eapply Hk]. Qed.
Lemma grows_log_call c ok : grows (log_call c ok).
Proof. intros d a d' [= _ <-]. split; [|done]. by apply prefix_app_r. Qed.
Lemma grows_next : grows next_outcome.
Proof. intros d a d'. unfold next_outcome. destruct (dr_outs d); by intros [= _ <-]. Qed.

Create HintDb grow.
#[export] Hint Resolve grows_ret grows_panic grows_gets grows_log_call grows_next : grow.
Ltac grow :=
  repeat first
    [ solve [eauto 2 with grow nocore]
    | apply grows_modify; intros ?; split; reflexivity
    | apply grows_bind; [|intros ?]
    | progress (repeat case_match) ].

Lemma grows_fs_call c f bad : grows (fs_call c f bad).
Proof. unfold fs_call. grow. Qed.
#[export] Hint Resolve grows_fs_call : grow.
Lemma grows_spawn cmd args fds st : grows (spawn cmd args fds st).
Proof. unfold spawn. grow. Qed.
Lemma grows_kill pid force : grows (kill pid force).
Proof. unfold kill. grow. Qed.
Lemma grows_wait_stop : grows wait_stop.
Proof. unfold wait_stop. grow. Qed.
#[export] Hint Resolve grows_spawn grows_kill grows_wait_stop : grow.
Lemma grows_kill_all pids force : grows (kill_all pids force).
Proof. induction pids as [|p l IH]; simpl; grow. Qed.
#[export] Hint Resolve grows_kill_all : grow.
Lemma grows_stop force : grows (ch_stop force).
Proof. unfold ch_stop. grow. Qed.
Lemma grows_create_client : grows create_client.
Proof. unfold create_client. grow. Qed.
Lemma grows_get_client : grows get_client.
Proof. unfold get_client. grow. Qed.
Lemma grows_guest_runs : grows guest_runs.
Proof. intros d a d' [= _ <-]. by repeat case_match. Qed.
#[export] Hint Resolve grows_stop grows_create_client grows_get_client grows_guest_runs : grow.
Lemma grows_api `{JsonCodec} sf pid r : grows (api sf pid r).
Proof. unfold api, apply_effect. grow. Qed.
#[export] Hint Resolve grows_api : grow.
Lemma grows_rollback l : grows (rollback_moves l).
Proof. induction l as [|m l IH]; simpl; unfold rename; grow. Qed.
Lemma grows_undo l : grows (undo_moves l).
Proof. induction l as [|m l IH]; simpl; unfold rename, forget_error; grow. Qed.
#[export] Hint Resolve grows_rollback grows_undo : grow.
Lemma grows_adopt pid : grows (adopt_vmm pid).
Proof. unfold adopt_vmm, forget_error. grow. Qed.
#[export] Hint Resolve grows_adopt : grow.
Lemma grows_launch : grows launch_for_restore.
Proof. unfold launch_for_restore, forget_error, orf, create_dir, remove_file. grow. Qed.
#[export] Hint Resolve grows_launch : grow.
Lemma grows_pin src l : grows (pin_artifacts src l).
Proof. induction l as [|a l IH]; simpl; unfold orf, metadata, symlink_idempotent, symlink; grow. Qed.
Lemma grows_parse `{JsonCodec} p : grows (parse_file p).
Proof. unfold parse_file, read_to_string, orf. grow. Qed.
Lemma grows_write_atomic p s : grows (fs_write_file_atomic p s).
Proof. unfold fs_write_file_atomic, orf, rename. grow. Qed.
#[export] Hint Resolve grows_pin grows_parse grows_write_atomic : grow.
Lemma grows_vmm `{JsonCodec} src remaps : grows (prepare_vmm src remaps).
Proof. unfold prepare_vmm, validate_snapshot_config, patch_snapshot_config, prepare_memory_backend. grow. Qed.
Lemma grows_resume `{JsonCodec} sf mem : grows (resume_guest sf mem).
Proof. unfold resume_guest, wait_agent_ready. grow. Qed.
#[export] Hint Resolve grows_vmm grows_resume : grow.

(** ** Invariants of the file store *)
Definition on_fs (J : Fs → Prop) (d : Driver) : Prop := J (dr_fs d).

Section on_fs.
Context (J : Fs → Prop).

Lemma fs_call_keeps c f bad :
  (∀ fs fs', J fs → f fs = Ok fs' → J fs') → (∀ l fs, J fs → J (bad l fs)) → preserves (on_fs J) (fs_call c f bad).
Proof.
  intros Hf Hb d r d' Hd [(fs' & outs & _ & E & ->)|(e & fs' & outs & _ & [->|[l ->]] & ->)]%fs_call_inv;
    unfold on_fs in *; simpl; eauto.
Qed.

Lemma modify_off_fs f : (∀ d, dr_fs (f d) = dr_fs d) → preserves (on_fs J) (modify f).
Proof. intros Hf. apply preserves_modify. intros d Hd. unfold on_fs. by rewrite Hf. Qed.
Lemma log_call_keeps c ok : preserves (on_fs J) (log_call c ok).
Proof. by apply modify_off_fs. Qed.
Lemma next_keeps : preserves (on_fs J) next_outcome.
Proof. intros d a d' Hd. unfold next_outcome. destruct (dr_outs d); by intros [= _ <-]. Qed.
End on_fs.
#[export] Hint Resolve log_call_keeps next_keeps : preserve.

(** [preserve], with the updates that are not of the file store done. *)
Ltac pfs := repeat (preserve; try (apply modify_off_fs; intros ?; reflexivity)).

Lemma kill_keeps J pid force : preserves (on_fs J) (kill pid force).
Proof. unfold kill. pfs. Qed.
Lemma wait_stop_keeps J : preserves (on_fs J) wait_stop.
Proof. unfold wait_stop. pfs. Qed.
Lemma spawn_keeps J cmd args fds st : preserves (on_fs J) (spawn cmd args fds st).
Proof. unfold spawn. pfs. Qed.
#[export] Hint Resolve kill_keeps wait_stop_keeps spawn_keeps : preserve.
Lemma kill_all_keeps J pids force : preserves (on_fs J) (kill_all pids force).
Proof. induction pids as [|p l IH]; simpl; pfs. Qed.
#[export] Hint Resolve kill_all_keeps : preserve.
Lemma stop_keeps J force : preserves (on_fs J) (ch_stop force).
Proof. unfold ch_stop. pfs. Qed.
Lemma create_client_keeps J : preserves (on_fs J) create_client.
Proof. unfold create_client. pfs. Qed.
Lemma get_client_keeps J : preserves (on_fs J) get_client.
Proof. unfold get_client. pfs. Qed.
#[export] Hint Resolve stop_keeps create_client_keeps get_client_keeps : preserve.
Lemma adopt_keeps J pid : preserves (on_fs J) (adopt_vmm pid).
Proof. unfold adopt_vmm, forget_error. pfs. Qed.
#[export] Hint Resolve adopt_keeps : preserve.

(** The requests that leave the files alone. *)
Lemma api_effect_fs `{JsonCodec} sf r st fs e :
  (∀ url, r ≠ ApiSnapshot url) → api_effect sf r st fs = Some e → e.2 = fs.
Proof.
  intros Hr E. destruct r as [| |url| | | |]; [| |by edestruct Hr| | | |]; destruct st; simpl in E; try done.
  all: try by injection E as <-.
  unfold mbind, option_bind in E. repeat case_match; try done. by injection E as <-.
Qed.

Lemma api_inv `{JsonCodec} sf pid r d a d' : api sf pid r d = Some (a, d') →
  ∃ ok pr' fs' outs,
    d' = mkDriver (dr_vm d) fs' pr' (dr_next_pid d) (dr_trace d ++ [(CApi pid r, ok)]) outs (dr_guest d) ∧
    (a = Ok tt ∧ ok = true ∨ a = Err (EFailed (CApi pid r)) ∧ ok = false) ∧
    ((ok = false ∧ pr' = dr_procs d ∧ fs' = dr_fs d) ∨
     ∃ st e, dr_procs d !! pid = Some st ∧ api_effect sf r st (dr_fs d) = Some e ∧
       pr' = <[pid := e.1]> (dr_procs d) ∧ fs' = e.2).
Proof.
  unfold api. intros (o & d1 & E1 & E)%bind_inv.
  assert (∃ outs, d1 = set_outs outs d) as [outs ->].
  { destruct d as [? ? ? ? ? os ?]. unfold next_outcome in E1. simpl in E1. destruct os; injection E1 as _ <-; by eexists. }
  clear E1. run E. subst. cbn [id set_outs dr_procs dr_fs] in E. cbv zeta in E.
  remember (dr_procs d !! pid ≫= λ st, api_effect sf r st (dr_fs d)) as oe eqn:Hoe. symmetry in Hoe.
  assert (∀ e, oe = Some e → ∃ st, dr_procs d !! pid = Some st ∧ api_effect sf r st (dr_fs d) = Some e) as He.
  { intros e ->. by apply bind_Some in Hoe. }
  clear Hoe. destruct oe as [e|]; [destruct (He e eq_refl) as (st & Hst & Hef)|]; clear He.
  all: unfold apply_effect in E; destruct o as [|? [] ?]; run E; subst; unfold set_fs, set_procs, set_outs; simpl.
  all: eexists _, _, _, _; split; [reflexivity|]; eauto 10.
Qed.

Lemma api_keeps `{JsonCodec} sf J pid r : (∀ url, r ≠ ApiSnapshot url) → preserves (on_fs J) (api sf pid r).
Proof.
  intros Hr d a d' Hd (ok & pr' & fs' & outs & -> & _ & [(_ & _ & ->)|(st & e & _ & He & _ & ->)])%api_inv; [done|].
  unfold on_fs. simpl. by rewrite (api_effect_fs _ _ _ _ _ Hr He).
Qed.

(** ** Operations on the file store alone *)
Definition same_vm (d d' : Driver) : Prop :=
  dr_vm d' = dr_vm d ∧ dr_procs d' = dr_procs d ∧ dr_next_pid d' = dr_next_pid d ∧ dr_guest d' = dr_guest d.

#[global] Instance same_vm_po : PreOrder same_vm.
Proof. split; [done|]. intros a b c (?&?&?&?) (?&?&?&?). repeat split; congruence. Qed.

Definition fs_only {A} (m : M Driver A) : Prop := ∀ d a d', m d = Some (a, d') → same_vm d d'.

Lemma fs_only_ret {A} (a : A) : fs_only (mret a).
Proof. by intros d a' d' [= _ <-]. Qed.
Lemma fs_only_gets {A} (f : Driver → A) : fs_only (gets f).
Proof. by intros d a' d' [= _ <-]. Qed.
Lemma fs_only_bind {A B} (m : M Driver A) (k : A → M Driver B) : fs_only m → (∀ a, fs_only (k a)) → fs_only (m ≫= k).
Proof. intros Hm Hk d b d' (a & d1 & E1 & E2)%bind_inv. transitivity d1; [by eapply Hm|by eapply Hk]. Qed.
Lemma fs_only_call c f bad : fs_only (fs_call c f bad).
Proof. by intros d r d' [(? & ? & _ & _ & ->)|(? & ? & ? & _ & _ & ->)]%fs_call_inv. Qed.

Create HintDb fso.
#[export] Hint Resolve fs_only_ret fs_only_gets fs_only_call : fso.
Ltac fso :=
  repeat first
    [ solve [eauto 2 with fso nocore]
    | apply fs_only_bind; [|intros ?]
    | progress (repeat case_match) ].

Lemma fs_only_parse `{JsonCodec} p : fs_only (parse_file p).
Proof. unfold parse_file, read_to_string, orf. fso. Qed.
Lemma fs_only_write_atomic p s : fs_only (fs_write_file_atomic p s).
Proof. unfold fs_write_file_atomic, orf, rename. fso. Qed.
#[export] Hint Resolve fs_only_parse fs_only_write_atomic : fso.
Lemma fs_only_validate `{JsonCodec} p ty : fs_only (validate_snapshot_config p ty).
Proof. unfold validate_snapshot_config. fso. Qed.
Lemma fs_only_patch `{JsonCodec} p dst ov remaps : fs_only (patch_snapshot_config p dst ov remaps).
Proof. unfold patch_snapshot_config. fso. Qed.
Lemma fs_only_pin src l : fs_only (pin_artifacts src l).
Proof. induction l as [|a l IH]; simpl; unfold orf, metadata, symlink_idempotent, symlink; fso. Qed.
#[export] Hint Resolve fs_only_validate fs_only_patch fs_only_pin : fso.
Lemma fs_only_memory src : fs_only (prepare_memory_backend src).
Proof. unfold prepare_memory_backend. fso. Qed.
Lemma fs_only_copy a b : fs_only (copy_img_file a b).
Proof. unfold copy_img_file, cp, orf, forget_error, remove_file, copy, rename. fso. Qed.
Lemma fs_only_reflink a b : fs_only (copy_img_file_reflink a b).
Proof. unfold copy_img_file_reflink, cp, orf, forget_error, remove_file, rename. fso. Qed.
Lemma fs_only_undo l : fs_only (undo_moves l).
Proof. induction l as [|m l IH]; simpl; unfold forget_error, rename; fso. Qed.
Lemma fs_only_rollback l : fs_only (rollback_moves l).
Proof. induction l as [|m l IH]; simpl; unfold rename; fso. Qed.
#[export] Hint Resolve fs_only_memory fs_only_copy fs_only_reflink fs_only_undo fs_only_rollback : fso.
Lemma fs_only_disks action src base l : ∀ remaps paths moves, fs_only (restore_disks action src base l remaps paths moves).
Proof.
  induction l as [|e l IH]; intros remaps paths moves; simpl; [fso|].
  unfold restore_disk, rename, symlink, orf. fso.
Qed.
#[export] Hint Resolve fs_only_disks : fso.
Lemma fs_only_prepare src base : fs_only (prepare_restore_block_artifacts src base).
Proof. unfold prepare_restore_block_artifacts, orf, create_dir. fso. Qed.
#[export] Hint Resolve fs_only_prepare : fso.

(** Reading changes nothing. *)
Lemma read_keeps J p : preserves (on_fs J) (read_to_string p).
Proof.
  assert (∀ c f, (∀ fs fs', f fs = Ok fs' → fs' = fs) → preserves (on_fs J) (fs_call c f harmless)) as Hc.
  { intros c f Hf. apply fs_call_keeps; [|done]. intros fs fs' Hfs E. by rewrite (Hf _ _ E). }
  unfold read_to_string, orf. apply preserves_bind; [apply preserves_gets|intros fs].
  apply preserves_bind; [|intros r; preserve].
  apply preserves_bind; [apply Hc; intros fs1 fs2; by case_match; intros [= <-]|intros r; preserve].
Qed.
Lemma parse_keeps `{JsonCodec} J p : preserves (on_fs J) (parse_file p).
Proof. unfold parse_file. pose proof (read_keeps J p). preserve. Qed.
Lemma stat_keeps J p : preserves (on_fs J) (metadata p).
Proof. apply fs_call_keeps; [|done]. intros fs fs' Hfs. unfold present. by case_match; intros [= <-]. Qed.
#[export] Hint Resolve read_keeps parse_keeps stat_keeps : preserve.

(** ** Assertions on the file store *)
Definition fpost {A} (P : Fs → Prop) (m : M Driver A) (Q : A → Fs → Prop) : Prop :=
  ∀ d a d', P (dr_fs d) → m d = Some (a, d') → Q a (dr_fs d').

Lemma fpost_ret {A} (a : A) (P : Fs → Prop) Q : (∀ fs, P fs → Q a fs) → fpost P (mret a) Q.
Proof. intros HPQ d a' d' Hd [= <- <-]. by apply HPQ. Qed.
Lemma fpost_gets {A} (f : Driver → A) (P : Fs → Prop) (Q : A → Fs → Prop) : (∀ a fs, P fs → Q a fs) → fpost P (gets f) Q.
Proof. intros HPQ d a' d' Hd [= <- <-]. by apply HPQ. Qed.
Lemma fpost_bind {A B} (m : M Driver A) (k : A → M Driver B) P R Q :
  fpost P m R → (∀ a, fpost (R a) (k a) Q) → fpost P (m ≫= k) Q.
Proof. intros Hm Hk d b d' Hd (a & d1 & E1 & E2)%bind_inv. eapply Hk; [|exact E2]. by eapply Hm. Qed.
Lemma fpost_conseq {A} (m : M Driver A) (P P' : Fs → Prop) (Q Q' : A → Fs → Prop) :
  fpost P' m Q' → (∀ fs, P fs → P' fs) → (∀ a fs, Q' a fs → Q a fs) → fpost P m Q.
Proof. intros Hm HP HQ d a d' Hd E. eapply HQ, Hm; [by apply HP|done]. Qed.
Lemma fpost_and {A} (m : M Driver A) P (Q R : A → Fs → Prop) : fpost P m Q → fpost P m R → fpost P m (λ a fs, Q a fs ∧ R a fs).
Proof. intros H1 H2 d a d' Hd E. split; [by eapply H1|by eapply H2]. Qed.
Lemma fpost_keeps {A} (m : M Driver A) J : preserves (on_fs J) m → fpost J m (λ _, J).
Proof. intros Hm d a d' Hd E. by eapply Hm. Qed.

Lemma fpost_call c f bad P Q :
  (∀ fs fs', P fs → f fs = Ok fs' → Q (Ok tt) fs') → (∀ fs e, P fs → Q (Err e) fs) →
  (∀ fs e l, P fs → Q (Err e) (bad l fs)) → fpost P (fs_call c f bad) Q.
Proof.
  intros H1 H2 H3 d r d' Hd [(fs' & outs & -> & E & ->)|(e & fs' & outs & -> & [->|[l ->]] & ->)]%fs_call_inv; simpl; eauto.
Qed.

(** [map_err(..)?] keeps what a success promises. *)
Lemma fpost_orf {A} c (m : M Driver (result A FsError)) P (Q : result A ChError → Fs → Prop) :
  fpost P m (λ r fs, match r with Ok a => Q (Ok a) fs | Err _ => ∀ e, Q (Err e) fs end) → fpost P (orf c m) Q.
Proof.
  intros Hm. unfold orf. eapply fpost_bind; [exact Hm|]. intros [a|e]; apply fpost_ret; [done|]. intros fs Hfs. apply Hfs.
Qed.

(** [?]: only the success goes on. *)
Lemma fpost_try {A B} (m : Ch A) (k : A → Ch B) P R (Q : result B ChError → Fs → Prop) :
  fpost P m (λ r fs, match r with Ok a => R a fs | Err e => Q (Err e) fs end) → (∀ a, fpost (R a) (k a) Q) →
  fpost P (r ← m; match r with Ok a => k a | Err e => mret (Err e) end) Q.
Proof. intros Hm Hk. eapply fpost_bind; [exact Hm|]. intros [a|e]; [apply Hk|by apply fpost_ret]. Qed.
