(* ===== verification/ChSample.v ===== *)
(** * Cloud Hypervisor: a JSON codec, a template and a sandbox to try the driver on

    A concrete reader and writer of JSON values (not [serde_json]'s syntax:
    a bit string) that satisfies [JsonLaws]; a template with two images under
    [/t], and the VM of the sandbox [s1] in [/b], before it is restored. *)
From Stdlib Require Import String Ascii.
From stdpp Require Import countable.
From S2P Require Import Prelude Strs Storage Types Metrics Disk Pool Continuation GuestScan Mount Frame Inject Annotations Box BlockImage StorageOps Handlers Sandboxer Fs ChConfig ChSnapshot ChDriver.
Local Open Scope string_scope.

Section induction.
Context (P : JValue → Prop) (Hnull : P JNull) (Hbool : ∀ b, P (JBool b)) (Hnum : ∀ t, P (JNum t)) (Hstr : ∀ s, P (JStr s)).
Context (Harr : ∀ l, Forall P l → P (JArr l)) (Hobj : ∀ m, Forall (λ p, P p.2) m → P (JObj m)).

Fixpoint json_induction (v : JValue) : P v :=
  match v with
  | JNull => Hnull
  | JBool b => Hbool b
  | JNum t => Hnum t
  | JStr s => Hstr s
  | JArr l => Harr l ((fix go l := match l return Forall P l with [] => Forall_nil_2 _ | x :: l => Forall_cons_2 _ _ _ (json_induction x) (go l) end) l)
  | JObj m => Hobj m ((fix go m := match m return Forall (λ p, P p.2) m with [] => Forall_nil_2 _ | x :: m => Forall_cons_2 _ _ _ (json_induction x.2) (go m) end) m)
  end.
End induction.

(** ** Values as trees *)
Fixpoint to_tree (v : JValue) : gen_tree string :=
  match v with
  | JNull => GenNode 0 []
  | JBool false => GenNode 1 []
  | JBool true => GenNode 2 []
  | JNum t => GenNode 3 [GenLeaf t]
  | JStr s => GenNode 4 [GenLeaf s]
  | JArr l => GenNode 5 (map to_tree l)
  | JObj m => GenNode 6 (map (λ p, GenNode 7 [GenLeaf p.1; to_tree p.2]) m)
  end.

Fixpoint of_tree (t : gen_tree string) : JValue :=
  match t with
  | GenNode 1 _ => JBool false
  | GenNode 2 _ => JBool true
  | GenNode 3 [GenLeaf t] => JNum t
  | GenNode 4 [GenLeaf s] => JStr s
  | GenNode 5 l => JArr (map of_tree l)
  | GenNode 6 l => JObj (map (λ t, match t with GenNode _ [GenLeaf k; t] => (k, of_tree t) | _ => ("", JNull) end) l)
  | _ => JNull
  end.

Lemma of_to_tree v : of_tree (to_tree v) = v.
Proof.
  induction v as [|b| | |l IH|m IH] using json_induction; simpl; try done; [by destruct b| |].
  - f_equal. induction IH as [|x l Hx _ IHl]; simpl; [done|]. by rewrite Hx, IHl.
  - f_equal. induction IH as [|[k x] m Hx _ IHm]; simpl in *; [done|]. by rewrite Hx, IHm.
Qed.

(** ** Trees as bit strings *)
Fixpoint bits (p : positive) : string :=
  match p with xH => "" | xO p => String "0" (bits p) | xI p => String "1" (bits p) end.
Fixpoint unbits (s : string) : positive :=
  match s with EmptyString => xH | String c s => if Ascii.eqb c "0" then xO (unbits s) else xI (unbits s) end.
Lemma unbits_bits p : unbits (bits p) = p.
Proof. induction p as [p IH|p IH|]; simpl; [by rewrite IH..|done]. Qed.

(** ** The codec *)
Fixpoint distinct_keys (v : JValue) : bool :=
  match v with
  | JArr l => forallb distinct_keys l
  | JObj m => bool_decide (NoDup m.*1) && forallb (λ p, distinct_keys p.2) m
  | _ => true
  end.

#[global] Instance bit_codec : JsonCodec := {|
  json_print v := bits (encode (to_tree v));
  json_parse s := t ← decode (unbits s); let v := of_tree t in if distinct_keys v then Some v else None;
  json_number _ := True
|}.

Lemma distinct_keys_wf v : distinct_keys v = true ↔ json_wf v.
Proof.
  induction v as [|b| | |l IH|m IH] using json_induction; try done; simpl.
  - induction IH as [|x l Hx _ IHl]; simpl; [done|]. by rewrite andb_true_iff, Hx, IHl.
  - rewrite andb_true_iff, bool_decide_eq_true. apply and_iff_compat_l.
    induction IH as [|x m Hx _ IHm]; simpl; [done|]. by rewrite andb_true_iff, Hx, IHm.
Qed.

#[global] Instance bit_laws : JsonLaws.
Proof.
  split.
  - intros s v. simpl. destruct (decode (unbits s)) as [t|]; simpl; [|done]. destruct (distinct_keys (of_tree t)) eqn:E; [|done].
    intros [= <-]. by apply distinct_keys_wf.
  - intros v Hv. simpl. rewrite unbits_bits, decode_encode. simpl. rewrite of_to_tree. by rewrite (proj2 (distinct_keys_wf v) Hv).
Qed.

(** ** The template and the sandbox *)
Definition sample_images : list DiskImageEntry :=
  [mkDiskImage "storage3" "blk3" "disks/storage3.img"; mkDiskImage "storage4" "blk4" "disks/storage4.img"].

Lemma sample_images_cases e : e ∈ sample_images →
  e = mkDiskImage "storage3" "blk3" "disks/storage3.img" ∨ e = mkDiskImage "storage4" "blk4" "disks/storage4.img".
Proof. unfold sample_images. rewrite !elem_of_cons, elem_of_nil. tauto. Qed.

Definition sample_source (ty : SnapshotType) (lease : TemplateLeaseMode) (mode : MemoryRestoreMode) : ChRestoreSource :=
  mkChSource "/t" "/w" (from_original "/b" "/old/task.vsock" "s1") ty sample_images mode false lease.

Definition sample_fs : Fs := list_to_map
  [("/t/config.json", EFile (json_print sample_config)); ("/t/memory-ranges", EFile "mem"); ("/t/state.json", EFile "st");
   ("/t/memory.img", EFile "img"); ("/t/disks/storage3.img", EFile "A"); ("/t/disks/storage4.img", EFile "B")].

Definition sample_vm : CloudHypervisorVM := CloudHypervisorVM_new "s1" "" "/b" CloudHypervisorVMConfig_default.

(** Nothing runs yet; [outs] and [writes] are the outcomes of the calls to
    come and what the guest writes. *)
Definition sample_driver (outs : list Outcome) (writes : list (string * string)) : Driver :=
  mkDriver sample_vm sample_fs ∅ 100 [] outs writes.

(** What the VMM writes into a snapshot directory. *)
Definition sample_files (disks : list (string * string)) : list (string * string) :=
  [("config.json", json_print sample_config); ("memory-ranges", "mem"); ("state.json", "st")].

(** What can be seen of a run: its result, the processes, and some files. *)
Definition observe {A} (m : M Driver A) (paths : list string) (d : Driver)
  : option (A * list (N * ProcState) * list (option Entry)) :=
  match m d with Some (a, d') => Some (a, map_to_list (dr_procs d'), (λ p, dr_fs d' !! p) <$> paths) | None => None end.

Definition trace_of {A} (m : M Driver A) (d : Driver) : list (ChCall * bool) :=
  match m d with Some (_, d') => dr_trace d' | None => [] end.
Lemma trace_of_run {A} (m : M Driver A) d a d' : m d = Some (a, d') → dr_trace d' = trace_of m d.
Proof. unfold trace_of. by intros ->. Qed.

(** An event is not in a log that has none of its kind. *)
Lemma not_in_log {A} (f : ChCall * bool → bool) (m : M Driver A) d a d' ev :
  m d = Some (a, d') → existsb f (trace_of m d) = false → f ev = true → ev ∉ dr_trace d'.
Proof.
  intros E Hf Hev Hin. rewrite (trace_of_run _ _ _ _ E) in Hin. apply list_elem_of_In in Hin.
  assert (existsb f (trace_of m d) = true) by (apply existsb_exists; eauto). congruence.
Qed.
Definition failed_rename (ev : ChCall * bool) : bool := match ev with (CRename _ _, false) => true | _ => false end.
Definition failed_request (ev : ChCall * bool) : bool := match ev with (CApi _ _, false) => true | _ => false end.
