(* ===== verification/ChRestore.v ===== *)
(** * Cloud Hypervisor: restoring

    What a restore leaves behind when it fails, what it shares with the
    template, and that it succeeds when nothing fails. *)
From S2P Require Import Prelude Strs Storage Types Metrics Disk Pool Continuation GuestScan Mount Frame Inject Annotations Box BlockImage StorageOps Handlers Sandboxer Fs ChConfig ChSnapshot ChDriver ChLemmas ChSample.

(** ** A sequence of renames *)
Fixpoint renames (l : list (string * string)) (fs : Fs) : result Fs FsError :=
  match l with
  | [] => Ok fs
  | (a, b) :: l => match fs_rename fs a b with Ok fs' => renames l fs' | Err e => Err e end
  end.

Lemma renames_app l k fs fs1 : renames l fs = Ok fs1 → renames (l ++ k) fs = renames k fs1.
Proof.
  revert fs. induction l as [|[a b] l IH]; intros fs; simpl; [by intros [= ->]|].
  destruct (fs_rename fs a b); [apply IH|done].
Qed.

Lemma renames_agree l fs fs' : renames l fs = Ok fs' → agree (λ p, p ∈ l.*1 ∨ p ∈ l.*2) fs fs'.
Proof.
  revert fs. induction l as [|[a b] l IH]; intros fs; simpl; [by intros [= <-]|].
  destruct (fs_rename fs a b) as [fs1|] eqn:E; [|done]. intros H. transitivity fs1.
  - eapply agree_rename; [..|exact E]; simpl; [left|right]; by left.
  - eapply agree_mono; [|by apply IH]. intros p [Hp|Hp]; [left|right]; by right.
Qed.

(** Between distinct paths every file ends at its destination. *)
Lemma renames_spec l fs fs' : NoDup (l.*1 ++ l.*2) → renames l fs = Ok fs' →
  ∀ a b, (a, b) ∈ l → is_Some (fs !! a) ∧ fs' !! b = fs !! a ∧ fs' !! a = None.
Proof.
  revert fs. induction l as [|[a b] l IH]; intros fs Hnd; simpl; [by intros _ ? ? ?%elem_of_nil|].
  destruct (fs_rename fs a b) as [fs1|] eqn:E; [|done]. intros H. simpl in Hnd.
  apply NoDup_cons in Hnd as [Ha Hnd]. rewrite <- Permutation_middle in Hnd. apply NoDup_cons in Hnd as [Hb Hnd].
  apply rename_ok in E as (e & Hae & _ & _ & ->). rewrite !elem_of_app, elem_of_cons in Ha. rewrite elem_of_app in Hb.
  pose proof (renames_agree _ _ _ H) as Hag.
  intros a' b' [[= -> ->]|Hin]%elem_of_cons.
  - rewrite (Hag b), (Hag a) by tauto. rewrite lookup_insert_eq.
    rewrite lookup_insert_ne, lookup_delete_eq by (intros ->; tauto). eauto.
  - destruct (IH _ Hnd H _ _ Hin) as (H1 & H2 & H3).
    assert (a' ∈ l.*1) by (by apply (list_elem_of_fmap_2 fst _ (a', b'))).
    rewrite lookup_insert_ne, lookup_delete_ne in H1, H2 by (intros ->; tauto). done.
Qed.

(** ** Where the images of a restore are *)
Section restore.
Context `{JsonCodec} (sf : list (string * string) → list (string * string)) (src : ChRestoreSource) (base api_sock : string).

Let from (e : DiskImageEntry) : string := snapshot_disk_path src e.
Let to (e : DiskImageEntry) : string := restored_disk_path base e.

Definition moves_of (l : list DiskImageEntry) : list PendingMove := (λ e, mkMove (to e) (from e)) <$> l.
Definition there (l : list DiskImageEntry) : list (string * string) := (λ e, (from e, to e)) <$> l.
Definition back (l : list DiskImageEntry) : list (string * string) := (λ e, (to e, from e)) <$> l.

(** The paths the steps after the disks write. *)
Definition tmp_config : string := path_join (cs_work_dir src) ".config.json".
Definition new_config : string := path_join (cs_work_dir src) "config.json".
Definition memory_pins : list string :=
  path_join (cs_work_dir src) <$> memory_artifacts_for_mode (cs_memory_restore_mode src).
Definition scratch (p : string) : Prop := p ∈ [cs_work_dir src; base; api_sock; tmp_config; new_config] ++ memory_pins.

(** The images of the template and of the new sandbox are distinct files, and
    none of the files the restore uses for itself. *)
Record layout (fs : Fs) : Prop := mkLayout {
  lay_work : proper_dir (cs_work_dir src) = true;
  lay_distinct : NoDup ((from <$> cs_disk_images src) ++ (to <$> cs_disk_images src));
  lay_scratch : ∀ e, e ∈ cs_disk_images src → ¬ scratch (from e) ∧ ¬ scratch (to e);
  lay_free : ∀ e, e ∈ cs_disk_images src → fs !! to e = None;
  lay_tmp : fs !! tmp_config = None
}.

(** No image that was moved could not be moved back. *)
Definition all_moved_back (d : Driver) : Prop :=
  ∀ e, e ∈ cs_disk_images src → (CRename (to e) (from e), false) ∉ dr_trace d.

Lemma fst_there l : (there l).*1 = from <$> l.
Proof. unfold there. by rewrite <- list_fmap_compose. Qed.
Lemma snd_there l : (there l).*2 = to <$> l.
Proof. unfold there. by rewrite <- list_fmap_compose. Qed.
Lemma fst_back l : (back l).*1 = to <$> l.
Proof. unfold back. by rewrite <- list_fmap_compose. Qed.
Lemma snd_back l : (back l).*2 = from <$> l.
Proof. unfold back. by rewrite <- list_fmap_compose. Qed.

(** ** Moving and moving back *)
Lemma rename_inv a b d r d' : rename a b d = Some (r, d') →
  (r = Ok tt ∧ ∃ outs fs', fs_rename (dr_fs d) a b = Ok fs' ∧ d' = after_call d fs' (CRename a b, true) outs) ∨
  (∃ e outs, r = Err e ∧ d' = after_call d (dr_fs d) (CRename a b, false) outs).
Proof.
  intros [(fs' & outs & -> & E & ->)|(e & fs' & outs & -> & Hfs & ->)]%fs_call_inv; [left; eauto 10|right].
  destruct Hfs as [->|[l ->]]; eauto.
Qed.

Lemma rollback_runs l d r d' : rollback_moves (moves_of l) d = Some (r, d') →
  (∀ e, e ∈ l → (CRename (to e) (from e), false) ∉ dr_trace d') →
  renames (back l) (dr_fs d) = Ok (dr_fs d').
Proof.
  revert d. induction l as [|e l IH]; intros d; simpl; [intros E _; by run E|].
  intros (r1 & d1 & E1 & E)%bind_inv Hno.
  apply rename_inv in E1 as [(-> & outs & fs' & Hfs & ->)|(x & outs & -> & ->)].
  - rewrite Hfs. apply IH in E; [done|]. intros y Hy. apply Hno. by right.
  - injection E as _ <-. destruct (Hno e); [by left|]. simpl. apply elem_of_app. right. by left.
Qed.

Lemma undo_runs l d r d' : undo_moves (moves_of l) d = Some (r, d') →
  (∀ e, e ∈ l → (CRename (to e) (from e), false) ∉ dr_trace d') →
  renames (back l) (dr_fs d) = Ok (dr_fs d').
Proof.
  revert d. induction l as [|e l IH]; intros d; simpl; [intros E _; by run E|].
  intros (u & d1 & E1 & E)%bind_inv Hno. run E1. subst.
  apply rename_inv in H0 as [(-> & outs & fs' & Hfs & ->)|(x & outs & -> & ->)].
  - rewrite Hfs. apply IH in E; [done|]. intros y Hy. apply Hno. by right.
  - destruct (Hno e); [by left|]. apply grows_undo in E as [[k ->] _]. simpl. rewrite !elem_of_app. left. right. by left.
Qed.

(** There and back again: nothing has changed. *)
Lemma there_and_back l fs fs1 fs2 : NoDup ((from <$> l) ++ (to <$> l)) → (∀ e, e ∈ l → fs !! to e = None) →
  renames (there l) fs = Ok fs1 → renames (back l) fs1 = Ok fs2 → fs2 = fs.
Proof.
  intros Hnd Hfree H1 H2. apply map_eq. intros p.
  assert (NoDup ((there l).*1 ++ (there l).*2)) as Hnd1 by (by rewrite fst_there, snd_there).
  assert (NoDup ((back l).*1 ++ (back l).*2)) as Hnd2 by (rewrite fst_back, snd_back, Permutation_app_comm; done).
  pose proof (renames_spec _ _ _ Hnd1 H1) as S1. pose proof (renames_spec _ _ _ Hnd2 H2) as S2.
  assert (∀ e, e ∈ l → (from e, to e) ∈ there l ∧ (to e, from e) ∈ back l) as Hin.
  { intros e He. split; [by apply (list_elem_of_fmap_2 (λ e, (from e, to e)))|by apply (list_elem_of_fmap_2 (λ e, (to e, from e)))]. }
  destruct (decide (p ∈ from <$> l)) as [(e & -> & He)%list_elem_of_fmap|Hf].
  { destruct (Hin e He) as [I1 I2]. destruct (S2 _ _ I2) as (_ & -> & _). by destruct (S1 _ _ I1) as (_ & -> & _). }
  destruct (decide (p ∈ to <$> l)) as [(e & -> & He)%list_elem_of_fmap|Ht].
  { destruct (Hin e He) as [I1 I2]. destruct (S2 _ _ I2) as (_ & _ & ->). by rewrite Hfree. }
  rewrite (renames_agree _ _ _ H2), (renames_agree _ _ _ H1); [done|..].
  - rewrite fst_there, snd_there. tauto.
  - rewrite fst_back, snd_back. tauto.
Qed.

Lemma moves_app l e : moves_of l ++ [mkMove (to e) (from e)] = moves_of (l ++ [e]).
Proof. unfold moves_of. by rewrite fmap_app. Qed.

(** The loop over the disks of a continuation. *)
Lemma moving_disks l : ∀ pre remaps paths d r d' fs0,
  restore_disks MovedExclusive src base l remaps paths (moves_of pre) d = Some (r, d') →
  renames (there pre) fs0 = Ok (dr_fs d) →
  (∃ a, r = Ok a ∧ ra_pending_moves a = moves_of (pre ++ l) ∧ renames (there (pre ++ l)) fs0 = Ok (dr_fs d')) ∨
  (∃ e k fs1, r = Err e ∧ k `prefix_of` pre ++ l ∧ renames (there k) fs0 = Ok fs1 ∧
     ((∀ x, x ∈ k → (CRename (to x) (from x), false) ∉ dr_trace d') → renames (back k) fs1 = Ok (dr_fs d'))).
Proof.
  induction l as [|e l IH]; intros pre remaps paths d r d' fs0 E Hpre; simpl in E.
  - run E. left. eexists. rewrite app_nil_r. done.
  - apply bind_inv in E as (r1 & d1 & E1 & E). unfold restore_disk in E1. apply bind_inv in E1 as (r2 & d2 & E2 & E1).
    apply rename_inv in E2 as [(-> & outs & fs' & Hfs & ->)|(x & outs & -> & ->)]; run E1; subst.
    + rewrite moves_app in E. rewrite (app_assoc pre [e] l : pre ++ e :: l = (pre ++ [e]) ++ l).
      eapply IH; [exact E|]. unfold there. rewrite fmap_app, (renames_app _ _ _ _ Hpre). simpl.
      unfold from, to. by rewrite Hfs.
    + run E. right. eexists _, pre, _. split; [done|]. split; [by apply prefix_app_r|]. split; [exact Hpre|].
      intros Hno. by eapply (undo_runs pre) in H0.
Qed.

(** ** The five ways a restore ends *)
Inductive restore_run (d : Driver) : result unit ChError → Driver → Prop :=
  | run_no_dir e d1 : create_dir (cs_work_dir src) d = Some (Err e, d1) →
      restore_run d (Err (EFailed (CMkdir (cs_work_dir src)))) d1
  | run_no_disks d1 e d2 : create_dir (cs_work_dir src) d = Some (Ok tt, d1) →
      prepare_restore_block_artifacts src (vm_base_dir (dr_vm d)) d1 = Some (Err e, d2) →
      restore_run d (Err e) d2
  | run_no_vmm d1 blocks d2 e d3 r d4 : create_dir (cs_work_dir src) d = Some (Ok tt, d1) →
      prepare_restore_block_artifacts src (vm_base_dir (dr_vm d)) d1 = Some (Ok blocks, d2) →
      prepare_vmm src (ra_disk_remaps blocks) d2 = Some (Err e, d3) →
      rollback_pending_moves blocks d3 = Some (r, d4) →
      restore_run d (Err e) d4
  | run_no_guest d1 blocks d2 mem d3 e d4 r d5 r' d6 : create_dir (cs_work_dir src) d = Some (Ok tt, d1) →
      prepare_restore_block_artifacts src (vm_base_dir (dr_vm d)) d1 = Some (Ok blocks, d2) →
      prepare_vmm src (ra_disk_remaps blocks) d2 = Some (Ok mem, d3) →
      resume_guest sf mem d3 = Some (Err e, d4) →
      ch_stop true d4 = Some (r, d5) →
      rollback_pending_moves blocks d5 = Some (r', d6) →
      restore_run d (Err e) d6
  | run_restored d1 blocks d2 mem d3 d4 : create_dir (cs_work_dir src) d = Some (Ok tt, d1) →
      prepare_restore_block_artifacts src (vm_base_dir (dr_vm d)) d1 = Some (Ok blocks, d2) →
      prepare_vmm src (ra_disk_remaps blocks) d2 = Some (Ok mem, d3) →
      resume_guest sf mem d3 = Some (Ok tt, d4) →
      restore_run d (Ok tt) d4.

Lemma restore_runs d r d' : ch_restore sf src d = Some (r, d') → restore_run d r d'.
Proof.
  unfold ch_restore, orf, forget_error. intros (v & d0 & E0 & E)%bind_inv. injection E0 as <- <-.
  apply bind_inv in E as (r1 & d1 & E1 & E). apply bind_inv in E1 as (r0 & d0 & E0 & ER). injection ER as <- <-.
  destruct r0 as [[]|e]; [|run E; by eapply run_no_dir].
  apply bind_inv in E as (r2 & d2 & E2 & E). destruct r2 as [blocks|e]; [|run E; by eapply run_no_disks].
  apply bind_inv in E as (r3 & d3 & E3 & E). destruct r3 as [mem|e].
  - apply bind_inv in E as (r4 & d4 & E4 & E). destruct r4 as [[]|e]; [run E; by eapply run_restored|].
    apply bind_inv in E as (u & d6 & E5 & E). run E. apply bind_inv in E5 as (u1 & d5 & E5 & E6).
    apply bind_inv in E5 as (r5 & d5' & E5 & ER). injection ER as _ <-.
    apply bind_inv in E6 as (r6 & d6' & E6 & ER). injection ER as _ <-. by eapply run_no_guest.
  - apply bind_inv in E as (u & d4 & E4 & E). run E.
    apply bind_inv in E4 as (r4 & d4' & E4 & ER). injection ER as _ <-. by eapply run_no_vmm.
Qed.

(** ** The steps between the disks and the guest *)

(** Only scratch files changed since [fs1], and the configuration is not
    written through a link. *)
Definition untouched (fs1 fs : Fs) : Prop := agree scratch fs1 fs ∧ no_link fs tmp_config.

Context (Hwork : proper_dir (cs_work_dir src) = true).

Lemma scratch_pin a : a ∈ memory_artifacts_for_mode (cs_memory_restore_mode src) → scratch (path_join (cs_work_dir src) a).
Proof. intros Ha. apply elem_of_app. right. by apply list_elem_of_fmap_2. Qed.

Lemma artifact_plain m a : a ∈ memory_artifacts_for_mode m → plain a = true ∧ a ≠ ".config.json" ∧ a ≠ "config.json".
Proof. destruct m; set_unfold; naive_solver. Qed.

Lemma pin_not_config a n : a ∈ memory_artifacts_for_mode (cs_memory_restore_mode src) →
  plain n = true → a ≠ n → path_join (cs_work_dir src) a ≠ path_join (cs_work_dir src) n.
Proof.
  intros (Ha & _ & _)%artifact_plain Hn Hne E. apply join_plain_inj in E; done.
Qed.

Lemma untouched_insert fs1 fs p e : scratch p → (∀ t, p = tmp_config → e ≠ ELink t) →
  untouched fs1 fs → untouched fs1 (<[p := e]> fs).
Proof.
  intros Hp He [H1 H2]. split; [transitivity fs; [done|by apply agree_insert]|]. by apply no_link_insert.
Qed.
Lemma untouched_delete fs1 fs p : scratch p → untouched fs1 fs → untouched fs1 (delete p fs).
Proof.
  intros Hp [H1 H2]. split; [transitivity fs; [done|by apply agree_delete]|].
  intros t. rewrite lookup_delete_Some. intros [_ E]. by eapply H2.
Qed.

Lemma write_config_keeps fs1 s : preserves (on_fs (untouched fs1)) (fs_write_file_atomic new_config s).
Proof.
  assert (scratch tmp_config ∧ scratch new_config) as [S1 S2] by (split; unfold scratch; set_solver).
  unfold fs_write_file_atomic, new_config. rewrite file_name_join, parent_join by done. fold new_config.
  change (path_join (cs_work_dir src) ("." +:+ "config.json")) with tmp_config. unfold orf.
  apply preserves_bind; [apply preserves_bind; [apply fs_call_keeps|intros r; preserve]|].
  - intros fs fs' Hfs. unfold overwrite. destruct (fs_write fs tmp_config s) as [fs2|] eqn:E; [|done].
    intros [= <-]. apply write_no_link in E as ->; [|apply Hfs]. by apply untouched_insert.
  - intros l fs Hfs. destruct (leaves_cases tmp_config l fs) as [-> | ->]; [apply Hfs|done|]. by apply untouched_insert.
  - intros [a|e]; [|preserve]. apply preserves_bind; [apply fs_call_keeps; [|done]|intros r; preserve].
    intros fs fs' Hfs (e & He & _ & _ & ->)%rename_ok. apply untouched_insert; [done| |by apply untouched_delete].
    intros t Ht ->. by eapply (proj2 Hfs).
Qed.

Lemma patch_keeps fs1 p remaps : preserves (on_fs (untouched fs1)) (patch_snapshot_config p new_config (cs_overrides src) remaps).
Proof. unfold patch_snapshot_config. pose proof (write_config_keeps fs1). preserve. Qed.

Lemma pin_keeps fs1 l : (∀ a, a ∈ l → a ∈ memory_artifacts_for_mode (cs_memory_restore_mode src)) →
  preserves (on_fs (untouched fs1)) (pin_artifacts src l).
Proof.
  intros Hl. induction l as [|a l IH]; simpl; [preserve|].
  assert (a ∈ memory_artifacts_for_mode (cs_memory_restore_mode src)) as Ha by (apply Hl; by left).
  assert (preserves (on_fs (untouched fs1)) (symlink_idempotent (path_join (cs_snapshot_dir src) a) (path_join (cs_work_dir src) a))) as Hs.
  { unfold symlink_idempotent. apply preserves_bind; [apply fs_call_keeps; [|done]|intros r; preserve].
    intros fs fs' Hfs. unfold fs_symlink. case_match; [done|]. intros [= <-].
    apply untouched_insert; [by apply scratch_pin| |done]. intros t E. exfalso. revert E.
    apply pin_not_config; [done..|]. by apply artifact_plain in Ha as (_ & ? & _). }
  assert (preserves (on_fs (untouched fs1)) (pin_artifacts src l)) as IH' by (apply IH; intros b Hb; apply Hl; by right).
  unfold orf. preserve.
Qed.

(** The VM value the scratch paths belong to. *)
Definition for_vm (d : Driver) : Prop :=
  vm_base_dir (dr_vm d) = base ∧ cc_api_socket (vm_config (dr_vm d)) = api_sock.

Lemma create_keeps fs1 p : scratch p → preserves (on_fs (untouched fs1)) (create_dir p).
Proof.
  intros Hp. apply fs_call_keeps; [|done]. intros fs fs' Hfs. unfold fs_create_dir_all.
  repeat case_match; intros [= <-]; try done; by apply untouched_insert.
Qed.
Lemma remove_keeps fs1 p : scratch p → preserves (on_fs (untouched fs1)) (remove_file p).
Proof.
  intros Hp. apply fs_call_keeps; [|done]. intros fs fs' Hfs. unfold fs_remove_file.
  repeat case_match; intros [= <-]; by apply untouched_delete.
Qed.

Lemma launch_keeps fs1 d r d' : for_vm d → on_fs (untouched fs1) d → launch_for_restore d = Some (r, d') →
  on_fs (untouched fs1) d'.
Proof.
  intros [Hb Ha] Hd. unfold launch_for_restore. intros (v & d1 & E1 & E)%bind_inv. injection E1 as <- <-.
  revert E. apply (λ Hp : preserves (on_fs (untouched fs1)) _, Hp d r d' Hd). rewrite Hb, Ha. clear Hd.
  assert (scratch base ∧ scratch api_sock) as [S1 S2] by (unfold scratch; set_solver).
  pose proof (create_keeps fs1 base S1). pose proof (remove_keeps fs1 api_sock S2). unfold orf, forget_error. preserve.
Qed.

Lemma vmm_keeps fs1 remaps d r d' : for_vm d → on_fs (untouched fs1) d → prepare_vmm src remaps d = Some (r, d') →
  on_fs (untouched fs1) d'.
Proof.
  intros Hv Hd. unfold prepare_vmm. intros (r1 & d1 & E1 & E)%bind_inv.
  assert (on_fs (untouched fs1) d1) as Hd1.
  { revert E1. apply (λ Hp : preserves (on_fs (untouched fs1)) _, Hp d r1 d1 Hd). unfold validate_snapshot_config. preserve. }
  apply fs_only_validate in E1 as (V1 & _). destruct r1 as [[]|]; [|by run E; subst].
  apply bind_inv in E as (r2 & d2 & E2 & E). pose proof (patch_keeps _ _ _ _ _ _ Hd1 E2) as Hd2.
  apply fs_only_patch in E2 as (V2 & _). destruct r2 as [[]|]; [|by run E; subst].
  apply bind_inv in E as (r3 & d3 & E3 & E).
  assert (on_fs (untouched fs1) d3) as Hd3.
  { revert E3. apply (λ Hp : preserves (on_fs (untouched fs1)) _, Hp d2 r3 d3 Hd2). unfold prepare_memory_backend.
    pose proof (pin_keeps fs1 (memory_artifacts_for_mode (cs_memory_restore_mode src)) (λ a Ha, Ha)). preserve. }
  apply fs_only_memory in E3 as (V3 & _). destruct r3 as [mem|]; [|by run E; subst].
  apply bind_inv in E as (r4 & d4 & E4 & E). apply launch_keeps with (fs1 := fs1) in E4; [|unfold for_vm; by rewrite V3, V2, V1|done].
  by destruct r4; run E; subst.
Qed.

Lemma resume_keeps J mem d r d' : dr_guest d = [] → on_fs J d → resume_guest sf mem d = Some (r, d') → on_fs J d'.
Proof.
  intros Hg Hd. unfold resume_guest. intros (r1 & d1 & E1 & E)%bind_inv.
  assert (dr_guest d1 = [] ∧ on_fs J d1) as [Hg1 Hd1].
  { split.
    - assert (logs_grow d d1) as [_ ->]; [|done]. revert E1.
      apply (λ Hp : grows _, Hp d r1 d1). grow.
    - revert E1. apply (λ Hp : preserves (on_fs J) _, Hp d r1 d1 Hd).
      assert (∀ pid url mode, preserves (on_fs J) (api sf pid (ApiRestore url mode))) by (intros; by apply api_keeps).
      assert (∀ pid, preserves (on_fs J) (api sf pid ApiResume)) by (intros; by apply api_keeps). preserve. }
  destruct r1 as [[]|]; [|by run E; subst].
  unfold wait_agent_ready, guest_runs in E. run E. subst.
  destruct (connect_loop _) as [ok rest]. run E. subst. unfold on_fs in *. simpl.
  destruct (vmm_pid_of d1 ≫= _) as [[| |ds|]|]; try done. simpl. by rewrite Hg1.
Qed.

(** ** A failed restore of a continuation *)
Section gives_back.
Context (Hty : cs_snapshot_type src = Continuation).

Lemma distinct_prefix k : NoDup ((from <$> cs_disk_images src) ++ (to <$> cs_disk_images src)) →
  k `prefix_of` cs_disk_images src → NoDup ((from <$> k) ++ (to <$> k)).
Proof.
  intros Hnd [k' E]. rewrite E, !fmap_app in Hnd.
  assert ((from <$> k) ++ (to <$> k) ⊆+ ((from <$> k) ++ (from <$> k')) ++ (to <$> k) ++ (to <$> k')) as Hs.
  { apply submseteq_app; by apply submseteq_inserts_r. }
  apply submseteq_Permutation in Hs as [k2 Hk2]. rewrite Hk2 in Hnd. by apply NoDup_app in Hnd as (? & _ & _).
Qed.

(** Preparing the disks moves all of them, or leaves everything in place. *)
Lemma prepare_moves fs0 d r d' :
  NoDup ((from <$> cs_disk_images src) ++ (to <$> cs_disk_images src)) →
  (∀ e, e ∈ cs_disk_images src → ¬ scratch (from e) ∧ ¬ scratch (to e)) →
  (∀ e, e ∈ cs_disk_images src → fs0 !! to e = None) →
  untouched fs0 (dr_fs d) → prepare_restore_block_artifacts src base d = Some (r, d') → all_moved_back d' →
  (∃ a fs1, r = Ok a ∧ ra_pending_moves a = moves_of (cs_disk_images src) ∧ untouched fs0 fs1 ∧
     renames (there (cs_disk_images src)) fs1 = Ok (dr_fs d')) ∨
  (∃ e, r = Err e ∧ untouched fs0 (dr_fs d')).
Proof.
  intros Hnd Hsc Hfree Hd. unfold prepare_restore_block_artifacts. case_bool_decide as Hnil.
  { intros E. run E. rewrite Hnil. left. eexists _, _. split; [done|]. split; [done|]. by split; [exact Hd|]. }
  intros E Hback. unfold orf in E. apply bind_inv in E as (r1 & d1 & E1 & E). apply bind_inv in E1 as (r0 & d0 & E0 & E1).
  assert (untouched fs0 (dr_fs d0)) as Hd0 by (eapply create_keeps; [|exact Hd|exact E0]; unfold scratch; set_solver).
  injection E1 as <- <-. destruct r0 as [[]|]; [|run E; subst; right; eauto].
  unfold restore_action in E. rewrite Hty in E.
  destruct (moving_disks (cs_disk_images src) [] [] [] d0 r d' (dr_fs d0) E eq_refl)
    as [(a & -> & Ha & Hr)|(e & k & fs1 & -> & Hk & Hr & Hu)]; [left; eauto 10|right].
  exists e. split; [done|]. simpl in Hk. assert (∀ x, x ∈ k → x ∈ cs_disk_images src) as Hin.
  { intros x Hx. destruct Hk as [k' Ek]. rewrite Ek. apply elem_of_app. by left. }
  specialize (Hu (λ x Hx, Hback x (Hin x Hx))). rewrite (there_and_back k (dr_fs d0) fs1 (dr_fs d')); [done|..].
  - by apply distinct_prefix.
  - intros x Hx. rewrite (proj1 Hd0); [by apply Hfree, Hin|by apply Hsc, Hin].
  - done.
  - done.
Qed.

(** The renames back, from any state in between. *)
Lemma back_again fs0 fs1 fs2 fs3 fs' e :
  NoDup ((from <$> cs_disk_images src) ++ (to <$> cs_disk_images src)) → ¬ scratch (from e) ∧ ¬ scratch (to e) →
  untouched fs0 fs1 → renames (there (cs_disk_images src)) fs1 = Ok fs2 →
  renames (back (cs_disk_images src)) fs3 = Ok fs' → e ∈ cs_disk_images src →
  fs' !! to e = None ∧ is_Some (fs' !! from e) ∧ (untouched fs2 fs3 → fs' !! from e = fs0 !! from e).
Proof.
  intros Hnd [Hsf Hst] [Hu _] H1 H2 He.
  destruct (renames_spec _ _ _ ltac:(by rewrite fst_there, snd_there) H1 (from e) (to e)) as (_ & T & _).
  { by apply (list_elem_of_fmap_2 (λ e, (from e, to e))). }
  destruct (renames_spec _ _ _ ltac:(by rewrite fst_back, snd_back, Permutation_app_comm) H2 (to e) (from e)) as (S & B & N).
  { by apply (list_elem_of_fmap_2 (λ e, (to e, from e))). }
  split; [done|]. split; [by rewrite B|]. intros [Hu2 _]. by rewrite B, (Hu2 (to e) Hst), T, (Hu (from e) Hsf).
Qed.

Lemma moved_untouched fs0 fs1 fs2 :
  (∀ e, e ∈ cs_disk_images src → ¬ scratch (from e) ∧ ¬ scratch (to e)) →
  untouched fs0 fs1 → renames (there (cs_disk_images src)) fs1 = Ok fs2 → untouched fs2 fs2.
Proof.
  intros Hsc [_ Hl] Hr. split; [done|]. intros t. rewrite (renames_agree _ _ _ Hr); [apply Hl|].
  rewrite fst_there, snd_there. assert (scratch tmp_config) by (unfold scratch; set_solver).
  intros [(e & Ee & He)%list_elem_of_fmap|(e & Ee & He)%list_elem_of_fmap]; apply Hsc in He; rewrite Ee in *; tauto.
Qed.

(** What comes after the disks only adds to the log. *)
Lemma moved_back_before {A} (m : M Driver A) d a d' : grows m → m d = Some (a, d') → all_moved_back d' → all_moved_back d.
Proof.
  intros Hm E Hback x Hx Hin. apply (Hback x Hx). destruct (Hm _ _ _ E) as [[k ->] _]. apply elem_of_app. by left.
Qed.

(** The state from which the VMM is prepared. *)
Lemma disks_moved d r1 d1 bl d2 : for_vm d → layout (dr_fs d) → create_dir (cs_work_dir src) d = Some (r1, d1) →
  prepare_restore_block_artifacts src base d1 = Some (Ok bl, d2) → all_moved_back d2 →
  ra_pending_moves bl = moves_of (cs_disk_images src) ∧ for_vm d2 ∧ dr_guest d2 = dr_guest d ∧
  ∃ fs1, untouched (dr_fs d) fs1 ∧ renames (there (cs_disk_images src)) fs1 = Ok (dr_fs d2) ∧
    untouched (dr_fs d2) (dr_fs d2).
Proof.
  intros [Hb Ha] [_ Hnd Hsc Hfree Htmp] E1 E2 Hback.
  assert (untouched (dr_fs d) (dr_fs d1)) as Hd1.
  { eapply create_keeps; [|split; [done|by apply no_link_None]|exact E1]. unfold scratch. set_solver. }
  destruct (prepare_moves _ _ _ _ Hnd Hsc Hfree Hd1 E2 Hback) as [(a & fs1 & [= <-] & Hp & Hu & Hr)|(y & ? & _)]; [|done].
  destruct (fs_only_call _ _ _ _ _ _ E1) as (V1 & _ & _ & G1), (fs_only_prepare _ _ _ _ _ E2) as (V2 & _ & _ & G2).
  split; [done|]. split; [unfold for_vm; by rewrite V2, V1|]. split; [congruence|]. exists fs1.
  split; [done|]. split; [done|]. by eapply moved_untouched.
Qed.

Lemma failed_continuation d err d' : for_vm d → layout (dr_fs d) →
  ch_restore sf src d = Some (Err err, d') → all_moved_back d' → ∀ e, e ∈ cs_disk_images src →
  dr_fs d' !! to e = None ∧ (is_Some (dr_fs d !! from e) → is_Some (dr_fs d' !! from e)) ∧
  (dr_guest d = [] → dr_fs d' !! from e = dr_fs d !! from e).
Proof.
  intros Hv HL E%restore_runs Hback e He. pose proof HL as [_ Hnd Hsc Hfree Htmp]. pose proof (Hsc e He) as [Hsf Hst].
  assert (∀ fs', untouched (dr_fs d) fs' → fs' !! to e = None ∧ (is_Some (dr_fs d !! from e) → is_Some (fs' !! from e)) ∧
           (dr_guest d = [] → fs' !! from e = dr_fs d !! from e)) as Hsame.
  { intros fs' [Hag _]. rewrite (Hag (to e) Hst), (Hag (from e) Hsf). split; [by apply Hfree|done]. }
  assert (∀ d1 r1, create_dir (cs_work_dir src) d = Some (r1, d1) → untouched (dr_fs d) (dr_fs d1)) as Hmk.
  { intros d1 r1 E1. eapply create_keeps; [|split; [done|by apply no_link_None]|exact E1]. unfold scratch. set_solver. }
  assert (∀ fs1 fs2 fs3, untouched (dr_fs d) fs1 → renames (there (cs_disk_images src)) fs1 = Ok fs2 →
    renames (back (cs_disk_images src)) fs3 = Ok (dr_fs d') → (dr_guest d = [] → untouched fs2 fs3) →
    dr_fs d' !! to e = None ∧ (is_Some (dr_fs d !! from e) → is_Some (dr_fs d' !! from e)) ∧
    (dr_guest d = [] → dr_fs d' !! from e = dr_fs d !! from e)) as Hend.
  { intros fs1 fs2 fs3 Hu Hr1 Hr3 Hg. destruct (back_again (dr_fs d) fs1 fs2 fs3 (dr_fs d') e) as (H1 & H2 & H3); try done.
    split; [done|]. split; [done|]. intros Hg0. by apply H3, Hg. }
  pose proof Hv as [Hb _].
  inversion E as [x d1 E1|d1 x d2 E1 E2|d1 bl d2 x d3 r d4 E1 E2 E3 E4|d1 bl d2 mem d3 x d4 r d5 r' d6 E1 E2 E3 E4 E5 E6|];
    subst; [by eapply Hsame, Hmk|..]; rewrite Hb in E2.
  - destruct (prepare_moves _ _ _ _ Hnd Hsc Hfree (Hmk _ _ E1) E2 Hback) as [(a & ? & ? & _)|(y & _ & Hu)]; [done|].
    by apply Hsame.
  - assert (all_moved_back d2) as Hback2.
    { eapply moved_back_before; [|exact E3|]; [grow|]. eapply moved_back_before; [|exact E4|done]. unfold rollback_pending_moves. grow. }
    destruct (disks_moved _ _ _ _ _ Hv HL E1 E2 Hback2) as (Hp & Hv2 & Hg & fs1 & Hu & Hr & Hm).
    unfold rollback_pending_moves in E4. rewrite Hp in E4. apply rollback_runs in E4; [|done].
    eapply Hend; [done..|]. intros _. by eapply vmm_keeps.
  - assert (all_moved_back d2) as Hback2.
    { eapply moved_back_before; [|exact E3|]; [grow|]. eapply moved_back_before; [|exact E4|]; [grow|].
      eapply moved_back_before; [|exact E5|]; [grow|]. eapply moved_back_before; [|exact E6|done]. unfold rollback_pending_moves. grow. }
    destruct (disks_moved _ _ _ _ _ Hv HL E1 E2 Hback2) as (Hp & Hv2 & Hg & fs1 & Hu & Hr & Hm).
    unfold rollback_pending_moves in E6. rewrite Hp in E6. apply rollback_runs in E6; [|done].
    eapply Hend; [done..|]. intros Hg0. eapply (stop_keeps (untouched (dr_fs d2))); [|exact E5].
    eapply resume_keeps; [|by eapply vmm_keeps|exact E4]. destruct (grows_vmm _ _ _ _ _ E3) as [_ ->]. congruence.
Qed.
End gives_back.
End restore.

(** C7: a restore of a Continuation that fails gives the images back. The
    images of such a template are moved, not copied; whichever call fails, at
    the end no image is left in the sandbox and every image is again under
    the template, with its contents unless a resumed guest wrote to it,
    provided that no rename on the way back failed. *)
Theorem failed_restore_gives_back `{JsonCodec} sf src d err d' :
  cs_snapshot_type src = Continuation →
  layout src (vm_base_dir (dr_vm d)) (cc_api_socket (vm_config (dr_vm d))) (dr_fs d) →
  ch_restore sf src d = Some (Err err, d') → all_moved_back src (vm_base_dir (dr_vm d)) d' →
  ∀ e, e ∈ cs_disk_images src →
    dr_fs d' !! restored_disk_path (vm_base_dir (dr_vm d)) e = None ∧
    (is_Some (dr_fs d !! snapshot_disk_path src e) → is_Some (dr_fs d' !! snapshot_disk_path src e)) ∧
    (dr_guest d = [] → dr_fs d' !! snapshot_disk_path src e = dr_fs d !! snapshot_disk_path src e).
Proof.
  intros Hty HL E Hb e He.
  by apply (failed_continuation sf src _ (cc_api_socket (vm_config (dr_vm d))) (lay_work _ _ _ _ HL) Hty d err d').
Qed.

(** The agent of the restored guest does not answer in time: it was the last
    of the calls, and the images are back. *)
Definition unanswered : list Outcome := replicate 18 Good ++ [Bad EOTHER true ""].

Lemma failed_restore_gives_back_witness :
  match ch_restore sample_files (sample_source Continuation Exclusive Copy) (sample_driver unanswered []) with
  | Some (r, d') => r = Err ETimeout ∧ dr_fs d' !! "/t/disks/storage3.img" = Some (EFile "A")
  | None => False
  end.
Proof.
  destruct (ch_restore _ _ _) as [[r d']|] eqn:E; [|vm_compute in E; discriminate].
  assert (r = Err ETimeout) as Hr by (vm_compute in E; injection E as <- <-; reflexivity).
  split; [exact Hr|]. rewrite Hr in E. change "/t/disks/storage3.img" with
    (snapshot_disk_path (sample_source Continuation Exclusive Copy) (mkDiskImage "storage3" "blk3" "disks/storage3.img")).
  destruct (failed_restore_gives_back sample_files (sample_source Continuation Exclusive Copy) (sample_driver unanswered []) ETimeout d')
    with (e := mkDiskImage "storage3" "blk3" "disks/storage3.img") as (_ & _ & H).
  - reflexivity.
  - split.
    + reflexivity.
    + apply (bool_decide_unpack _). reflexivity.
    + apply (Forall_forall (λ e, ¬ _ ∧ ¬ _)). unfold scratch. apply (bool_decide_unpack _). reflexivity.
    + apply (Forall_forall (λ e, _ = None)). apply (bool_decide_unpack _). reflexivity.
    + reflexivity.
  - exact E.
  - intros e He. apply (not_in_log failed_rename _ _ _ _ _ E); vm_compute; reflexivity.
  - left.
  - apply H. reflexivity.
Defined.
