(* ===== verification/ChProcess.v ===== *)
(** * Cloud Hypervisor: processes

    Which processes are there after a stop, a launch and a failed restore. *)
From S2P Require Import Prelude Strs Storage Types Metrics Disk Pool Continuation GuestScan Mount Frame Inject Annotations Box BlockImage StorageOps Handlers Sandboxer Fs ChConfig ChSnapshot ChDriver ChLemmas ChSample ChRestore.

(** The log says that [pid] could not be killed, or did not end in time. *)
Definition unkillable (pid : N) (d : Driver) : Prop :=
  (CKill pid true, false) ∈ dr_trace d ∨ (CWait pid, false) ∈ dr_trace d.

Lemma unkillable_later pid d d' : logs_grow d d' → unkillable pid d → unkillable pid d'.
Proof. intros [[k Hk] _] [H|H]; [left|right]; rewrite Hk; apply elem_of_app; by left. Qed.

(** No process that was not there. *)
Definition fewer (d d' : Driver) : Prop := ∀ pid, is_Some (dr_procs d' !! pid) → is_Some (dr_procs d !! pid).

#[global] Instance fewer_po : PreOrder fewer.
Proof. split; [by intros d pid|]. intros a b c H1 H2 pid Hp. by apply H1, H2. Qed.

Lemma next_outcome_inv d o d' : next_outcome d = Some (o, d') → ∃ outs, d' = set_outs outs d.
Proof.
  unfold next_outcome. destruct d as [v fs pr np tr os g]. simpl.
  destruct os as [|o' os]; intros [= _ <-]; by eexists.
Qed.

Lemma kill_inv pid force d r d' : kill pid force d = Some (r, d') →
  ∃ outs ok pr', d' = mkDriver (dr_vm d) (dr_fs d) pr' (dr_next_pid d) (dr_trace d ++ [(CKill pid force, ok)]) outs (dr_guest d) ∧
    (r = Ok tt ∧ ok = true ∧ is_Some (dr_procs d !! pid) ∧ pr' = <[pid := Signalled]> (dr_procs d) ∨
     (∃ e, r = Err e ∧ ok = false ∧ pr' = dr_procs d)).
Proof.
  unfold kill. intros (o & d1 & E1 & E)%bind_inv. apply next_outcome_inv in E1 as [outs ->].
  apply bind_inv in E as (pr & d2 & E2 & E). injection E2 as <- <-. simpl in E.
  destruct (dr_procs d !! pid) as [st|] eqn:Est; [destruct o as [|e tk l]|]; run E; subst;
    eexists _, _, _; (split; [reflexivity|]); [left; eauto|right; eauto..].
Qed.

Lemma kill_fewer pid force d r d' : kill pid force d = Some (r, d') → fewer d d' ∧ dr_vm d' = dr_vm d.
Proof.
  intros (outs & ok & pr' & -> & H)%kill_inv. split; [|done]. intros p. simpl.
  destruct H as [(_ & _ & Hp & ->)|(e & _ & _ & ->)]; [|done].
  destruct (decide (p = pid)) as [->|Hne]; [done|]. by rewrite lookup_insert_ne.
Qed.

Lemma kill_all_fewer pids force d r d' : kill_all pids force d = Some (r, d') → fewer d d' ∧ dr_vm d' = dr_vm d.
Proof.
  revert d. induction pids as [|p l IH]; intros d; simpl; [intros E; by run E; subst|].
  intros (u & d1 & E1 & E)%bind_inv. assert (fewer d d1 ∧ dr_vm d1 = dr_vm d) as [F1 V1].
  { destruct (0 <? p)%N; [|by run E1; subst]. apply bind_inv in E1 as (x & d2 & E1 & E2). run E2. by apply kill_fewer in E1. }
  apply IH in E as [F2 V2]. split; [by transitivity d1|congruence].
Qed.

(** A forced stop: the VMM is gone, or the log says why it is not. *)
Lemma stop_spec d pid c r d' : pid_vmm (vm_pids (dr_vm d)) = Some pid → (0 < pid)%N →
  vm_wait_chan (dr_vm d) = Some (c, 0%Z) → ch_stop true d = Some (r, d') →
  fewer d d' ∧ (dr_procs d' !! pid = None ∨ unkillable pid d').
Proof.
  intros Hpid Hpos Hch. unfold ch_stop. intros (pids & d0 & E0 & E)%bind_inv. injection E0 as <- <-.
  rewrite Hpid in E. rewrite (proj2 (N.ltb_lt 0 pid) Hpos) in E.
  apply bind_inv in E as (r1 & d1 & E1 & E). apply bind_inv in E1 as (k & d2 & E2 & E1).
  assert (fewer d d1 ∧ (dr_procs d1 !! pid = None ∨ unkillable pid d1)) as [F1 H1].
  { pose proof (kill_fewer _ _ _ _ _ E2) as [Fk Vk].
    apply kill_inv in E2 as (outs & ok & pr' & -> & [(-> & -> & Hp & ->)|(e & -> & -> & ->)]).
    - unfold wait_stop in E1. apply bind_inv in E1 as (v & d3 & E3 & E1). injection E3 as <- <-. simpl in E1.
      rewrite Hch, Hpid in E1. simpl in E1. apply bind_inv in E1 as (o & d4 & E4 & E1).
      apply next_outcome_inv in E4 as [outs' ->]. destruct o; run E1; subst; simpl.
      + split; [|left; by rewrite lookup_delete_eq]. intros p. simpl. intros Hs.
        apply Fk. simpl. destruct (decide (p = pid)) as [->|Hne]; [by rewrite lookup_delete_eq in Hs; destruct Hs|].
        by rewrite lookup_delete_ne in Hs.
      + split; [done|]. right. right. simpl. apply elem_of_app. right. by left.
    - assert (d1 = mkDriver (dr_vm d) (dr_fs d) (dr_procs d) (dr_next_pid d) (dr_trace d ++ [(CKill pid true, false)]) outs (dr_guest d)) as ->.
      { destruct e; run E1; by subst. }
      split; [done|]. right. left. simpl. apply elem_of_app. right. by left. }
  destruct r1 as [[]|]; [|by run E; subst].
  apply bind_inv in E as (u & d5 & E5 & E). run E.
  destruct (kill_all_fewer _ _ _ _ _ E5) as [F5 V5]. pose proof (grows_kill_all _ _ _ _ _ E5) as G5.
  split; [by transitivity d1|]. destruct H1 as [H1|H1]; [left|right; by eapply unkillable_later].
  destruct (dr_procs d' !! pid) eqn:Ep; [|done]. destruct (F5 pid) as [x Hx]; [eauto|]. congruence.
Qed.

(** ** Launching *)
Lemma spawn_inv cmd args fds st d r d' : spawn cmd args fds st d = Some (r, d') →
  (r = Ok (dr_next_pid d) ∧ ∃ outs, d' = mkDriver (dr_vm d) (dr_fs d) (<[dr_next_pid d := st]> (dr_procs d)) (dr_next_pid d + 1)
     (dr_trace d ++ [(CSpawn cmd args fds (vm_netns (dr_vm d)), true)]) outs (dr_guest d)) ∨
  (is_ok r = false ∧ same_vm d d').
Proof.
  unfold spawn. intros (o & d1 & E1 & E)%bind_inv. apply next_outcome_inv in E1 as [outs ->].
  apply bind_inv in E as (ns & d2 & E2 & E). injection E2 as <- <-. destruct o.
  - left. apply bind_inv in E as (pid & d3 & E3 & E). injection E3 as <- <-. run E. subst. simpl. eauto.
  - right. run E. subst. done.
Qed.

(** The VM value after the VMM [pid] was adopted. *)
Definition adopted (pid : N) (d : Driver) : Prop :=
  pid_vmm (vm_pids (dr_vm d)) = Some pid ∧ vm_wait_chan (dr_vm d) = Some (0%N, 0%Z).

Lemma create_client_inv d r d' : create_client d = Some (r, d') → dr_vm d' = dr_vm d ∧ dr_procs d' = dr_procs d ∧ dr_next_pid d' = dr_next_pid d.
Proof.
  unfold create_client. intros (x & d1 & E1 & E)%bind_inv. injection E1 as <- <-.
  destruct (vmm_pid_of d); [|by run E; subst]. destruct (connect_loop _) as [ok rest]. run E. by subst.
Qed.

Lemma adopt_spec d pid r d' : (0 < pid)%N → adopt_vmm pid d = Some (r, d') →
  match r with
  | Ok _ => dr_procs d' = dr_procs d ∧ adopted pid d'
  | Err _ => fewer d d' ∧ (dr_procs d' !! pid = None ∨ unkillable pid d')
  end.
Proof.
  intros Hpos. unfold adopt_vmm, forget_error. intros (u & d1 & E1 & E)%bind_inv. injection E1 as _ <-.
  apply bind_inv in E as (r2 & d2 & E2 & E). apply create_client_inv in E2 as (V & P & _). simpl in V, P.
  destruct r2 as [c|e].
  - run E. subst. simpl. unfold adopted. simpl. rewrite V. done.
  - apply bind_inv in E as (u2 & d3 & E3 & E). run E. apply bind_inv in E3 as (r3 & d4 & E3 & ER). injection ER as _ <-.
    destruct (stop_spec d2 pid 0%N r3 d4) as [F H]; [by rewrite V|done|by rewrite V|done|].
    split; [|done]. intros p Hp. apply F in Hp. by rewrite P in Hp.
Qed.

(** What a launch may leave: nothing new when it fails, except a VMM that
    could not be killed; exactly the next process when it succeeds. *)
Lemma launch_spec d r d' : (0 < dr_next_pid d)%N → launch_for_restore d = Some (r, d') →
  match r with
  | Ok _ => dr_procs d' = <[dr_next_pid d := NoGuest]> (dr_procs d) ∧ adopted (dr_next_pid d) d'
  | Err _ => ∀ p, is_Some (dr_procs d' !! p) → is_Some (dr_procs d !! p) ∨ p = dr_next_pid d ∧ unkillable p d'
  end.
Proof.
  intros Hpos. unfold launch_for_restore, orf, forget_error. intros (v & d0 & E0 & E)%bind_inv. injection E0 as <- <-.
  apply bind_inv in E as (r1 & d1 & E1 & E). apply bind_inv in E1 as (r1' & d1' & E1 & ER). injection ER as <- <-.
  apply fs_only_call in E1 as (V1 & P1 & N1 & _). destruct r1' as [[]|]; [|run E; subst; rewrite P1; by left].
  apply bind_inv in E as (u & d2 & E2 & E). apply bind_inv in E2 as (r2 & d2' & E2 & ER). injection ER as _ <-.
  apply fs_only_call in E2 as (V2 & P2 & N2 & _). apply bind_inv in E as (r3 & d3 & E3 & E).
  apply spawn_inv in E3 as [(-> & outs & ->)|(Hr3 & V3 & P3 & _)].
  - rewrite N2, N1, P2, P1 in E. apply adopt_spec in E; [|done]. destruct r as [[]|x]; [done|]. simpl in E.
    destruct E as [F H]. intros p Hp. destruct (decide (p = dr_next_pid d)) as [->|Hne].
    + right. destruct H as [H|H]; [|done]. rewrite H in Hp. by destruct Hp.
    + left. apply F in Hp. simpl in Hp. by rewrite lookup_insert_ne in Hp.
  - destruct r3; [done|]. run E. subst. rewrite P3, P2, P1. by left.
Qed.

(** ** The guest *)
Lemma api_procs `{JsonCodec} sf pid r d a d' : api sf pid r d = Some (a, d') → fewer d d' ∧ dr_vm d' = dr_vm d.
Proof.
  intros (ok & pr' & fs' & outs & -> & _ & H1)%api_inv. split; [|done]. intros p. simpl.
  destruct H1 as [(_ & -> & _)|(st & e & Hst & _ & -> & _)]; [done|].
  destruct (decide (p = pid)) as [->|Hne]; [eauto|]. by rewrite lookup_insert_ne.
Qed.

Lemma resume_procs `{JsonCodec} sf mem d r d' : resume_guest sf mem d = Some (r, d') → fewer d d' ∧ dr_vm d' = dr_vm d.
Proof.
  unfold resume_guest. intros (r1 & d1 & E1 & E)%bind_inv.
  assert (fewer d d1 ∧ dr_vm d1 = dr_vm d) as [F1 V1].
  { apply bind_inv in E1 as (c & d0 & E0 & E1). unfold get_client in E0. apply bind_inv in E0 as (o & d0' & E0 & ER).
    injection E0 as <- <-. injection ER as <- <-. destruct (vm_client (dr_vm d)) as [pid|]; [|by run E1; subst].
    apply bind_inv in E1 as (r2 & d2 & E2 & E1). apply api_procs in E2 as [F2 V2].
    destruct r2 as [[]|]; [|by run E1; subst]. apply api_procs in E1 as [F3 V3]. split; [by transitivity d2|congruence]. }
  destruct r1 as [[]|]; [|by run E; subst].
  unfold wait_agent_ready, guest_runs in E. run E. subst. destruct (connect_loop _) as [ok rest]. run E. subst. simpl.
  destruct (vmm_pid_of d1 ≫= _) as [[| |ds|]|]; (split; [|by simpl]); intros p Hp; apply F1; exact Hp.
Qed.

(** Preparing the VMM: no process unless it succeeds or cannot be killed. *)
Lemma vmm_procs `{JsonCodec} src remaps d r d' : (0 < dr_next_pid d)%N → prepare_vmm src remaps d = Some (r, d') →
  match r with
  | Ok _ => dr_procs d' = <[dr_next_pid d := NoGuest]> (dr_procs d) ∧ adopted (dr_next_pid d) d'
  | Err _ => ∀ p, is_Some (dr_procs d' !! p) → is_Some (dr_procs d !! p) ∨ p = dr_next_pid d ∧ unkillable p d'
  end.
Proof.
  intros Hpos. unfold prepare_vmm. intros (r1 & d1 & E1 & E)%bind_inv. apply fs_only_validate in E1 as (V1 & P1 & N1 & _).
  destruct r1 as [[]|]; [|run E; subst; rewrite P1; by left].
  apply bind_inv in E as (r2 & d2 & E2 & E). apply fs_only_patch in E2 as (V2 & P2 & N2 & _).
  destruct r2 as [[]|]; [|run E; subst; rewrite P2, P1; by left].
  apply bind_inv in E as (r3 & d3 & E3 & E). apply fs_only_memory in E3 as (V3 & P3 & N3 & _).
  destruct r3 as [mem|]; [|run E; subst; rewrite P3, P2, P1; by left].
  apply bind_inv in E as (r4 & d4 & E4 & E). apply launch_spec in E4; [|by rewrite N3, N2, N1].
  rewrite N3, N2, N1, P3, P2, P1 in E4. destruct r4 as [[]|]; run E; subst; done.
Qed.

(** C10: a restore that fails leaves no VMM behind: every process that was not
    there before it is one that the driver tried to kill, and that could not be
    killed or did not end within the time limit. *)
Theorem failed_restore_no_vmm `{JsonCodec} sf src d err d' :
  (0 < dr_next_pid d)%N → (∀ p, (dr_next_pid d ≤ p)%N → dr_procs d !! p = None) →
  ch_restore sf src d = Some (Err err, d') →
  ∀ p, is_Some (dr_procs d' !! p) → is_Some (dr_procs d !! p) ∨ unkillable p d'.
Proof.
  intros Hpos Hfresh E%restore_runs.
  assert (∀ r1 d1, create_dir (cs_work_dir src) d = Some (r1, d1) → dr_procs d1 = dr_procs d ∧ dr_next_pid d1 = dr_next_pid d) as Hmk.
  { intros r1 d1 E1. by apply fs_only_call in E1 as (_ & ? & ? & _). }
  inversion E as [x d1 E1|d1 x d2 E1 E2|d1 bl d2 x d3 r d4 E1 E2 E3 E4|d1 bl d2 mem d3 x d4 r d5 r' d6 E1 E2 E3 E4 E5 E6|];
    subst; destruct (Hmk _ _ E1) as [P1 N1]; try (apply fs_only_prepare in E2 as (_ & P2 & N2 & _)); intros p Hp.
  - left. by rewrite P1 in Hp.
  - left. by rewrite P2, P1 in Hp.
  - apply vmm_procs in E3; [|by rewrite N2, N1]. pose proof (grows_rollback _ _ _ _ E4) as G.
    apply fs_only_rollback in E4 as (_ & P4 & _). rewrite P4 in Hp. apply E3 in Hp as [Hp|[-> Hu]].
    + left. by rewrite P2, P1 in Hp.
    + right. by eapply unkillable_later.
  - apply vmm_procs in E3; [|by rewrite N2, N1]. destruct E3 as [P3 [A1 A2]]. apply resume_procs in E4 as [F4 V4].
    rewrite <- V4 in A1, A2. rewrite N2, N1 in A1.
    destruct (stop_spec _ _ _ _ _ A1 Hpos A2 E5) as [F5 H5]. pose proof (grows_rollback _ _ _ _ E6) as G.
    apply fs_only_rollback in E6 as (_ & P6 & _). rewrite P6 in Hp.
    destruct (decide (p = dr_next_pid d)) as [->|Hne].
    + right. destruct H5 as [H5|H5]; [rewrite H5 in Hp; by destruct Hp|]. by eapply unkillable_later.
    + left. apply F5, F4 in Hp. rewrite P3, N2, N1, lookup_insert_ne in Hp by done. by rewrite P2, P1 in Hp.
Qed.

(** The VMM does not take the configuration: it is killed. *)
Definition restore_refused : list Outcome := replicate 16 Good ++ [Bad EOTHER false ""].

Lemma failed_restore_no_vmm_witness :
  match ch_restore sample_files (sample_source WarmFork Shared Copy) (sample_driver restore_refused []) with
  | Some (Err _, d') => ∀ p, is_Some (dr_procs d' !! p) → is_Some (dr_procs (sample_driver restore_refused []) !! p) ∨ unkillable p d'
  | _ => False
  end.
Proof.
  destruct (ch_restore _ _ _) as [[[[]|err] d']|] eqn:E; [vm_compute in E; discriminate| |vm_compute in E; discriminate].
  apply (failed_restore_no_vmm sample_files (sample_source WarmFork Shared Copy) (sample_driver restore_refused []) err d').
  - reflexivity.
  - intros p _. apply lookup_empty.
  - exact E.
Defined.
