(* ===== verification/ChShared.v ===== *)
(** * Cloud Hypervisor: restoring from a shared template

    Many sandboxes run from one WarmFork template at the same time, each on
    images of its own. *)
From S2P Require Import Prelude Strs Storage Types Metrics Disk Pool Continuation GuestScan Mount Frame Inject Annotations Box BlockImage StorageOps Handlers Sandboxer Fs ChConfig ChSnapshot ChDriver ChLemmas ChSample ChRestore.

(** ** Temporary files never are images *)
Fixpoint last_ascii (s : string) : option ascii :=
  match s with "" => None | String a "" => Some a | String _ s => last_ascii s end.

Lemma last_ascii_app s t : t ≠ "" → last_ascii (s +:+ t) = last_ascii t.
Proof.
  intros Ht. induction s as [|a s IH]; [done|]. simpl. rewrite IH.
  destruct (s +:+ t) eqn:E; [|done]. by destruct s, t.
Qed.

Lemma tmp_not_img s t : s +:+ ".tmp" ≠ t +:+ ".img".
Proof. intros E. apply (f_equal last_ascii) in E. rewrite !last_ascii_app in E; done. Qed.

(** ** Copying one image *)
Lemma fpost_fail {A B} (m : M Driver A) P (Q : result B ChError → Fs → Prop) e :
  (∀ fs, Q (Err e) fs) → fpost P (m ≫= λ _, mret (Err e)) Q.
Proof. intros HQ d a d' _ (x & d1 & _ & E)%bind_inv. injection E as <- <-. apply HQ. Qed.

Section copying.
Implicit Types (fs : Fs) (d : Driver).

Lemma copy_ok fs a b s fs' : fs !! a = Some (EFile s) → no_link fs b → fs_copy fs a b = Ok fs' →
  fs' = <[b := EFile s]> fs.
Proof.
  intros Ha Hb. unfold fs_copy. rewrite (read_file _ _ _ Ha). destruct (fs_write fs b s) as [fs1|] eqn:E; [|done].
  intros [= <-]. by eapply write_no_link.
Qed.

Context (a b : string).
Let tmp := tmp_name b.

(** The image is in place and the temporary file is no link. *)
Definition ready_to_copy (s : string) (fs : Fs) : Prop := fs !! a = Some (EFile s) ∧ no_link fs tmp.
(** A success leaves the image at [p]. *)
Definition copied_to (p s : string) {A E} (r : result A E) (fs : Fs) : Prop :=
  match r with Ok _ => fs !! p = Some (EFile s) | Err _ => True end.

Context (Hne : a ≠ tmp).

Lemma ready_leaves s l fs : ready_to_copy s fs → ready_to_copy s (leaves tmp l fs).
Proof.
  intros [Ha Hn]. destruct (leaves_cases tmp l fs Hn) as [->| ->]; [done|].
  split; [by rewrite lookup_insert_ne|by apply no_link_insert].
Qed.

Lemma cp_copies always s : fpost (ready_to_copy s) (cp always a tmp)
  (λ r fs, ready_to_copy s fs ∧ (r = Ok true → fs !! tmp = Some (EFile s))).
Proof.
  unfold cp. eapply (fpost_bind _ _ _ (λ r fs, ready_to_copy s fs ∧ (r = Ok tt → fs !! tmp = Some (EFile s)))).
  - apply fpost_call; [|by intros fs e Hfs|].
    + intros fs fs' [Ha Hn] E. rewrite (copy_ok _ _ _ _ _ Ha Hn E). rewrite lookup_insert_eq. split; [|done].
      split; [by rewrite lookup_insert_ne|by apply no_link_insert].
    + intros fs e l Hfs. split; [by apply ready_leaves|done].
  - intros r. apply fpost_ret. intros fs [Hfs Ht]. split; [done|]. destruct r as [[]|[]]; try done. auto.
Qed.

Lemma remove_tmp s : fpost (ready_to_copy s) (remove_file tmp) (λ _, ready_to_copy s).
Proof.
  apply fpost_call; [|done..]. intros fs fs' [Ha Hn]. unfold fs_remove_file.
  repeat case_match; intros [= <-].
  all: split; [by rewrite lookup_delete_ne|]; intros t; by rewrite lookup_delete_eq.
Qed.

Lemma copy_copies s : fpost (ready_to_copy s) (copy a tmp) (copied_to tmp s).
Proof.
  apply fpost_call; [|done..]. intros fs fs' [Ha Hn] E. rewrite (copy_ok _ _ _ _ _ Ha Hn E). simpl. by rewrite lookup_insert_eq.
Qed.

Lemma rename_copies s : fpost (λ fs, fs !! tmp = Some (EFile s)) (rename tmp b) (copied_to b s).
Proof.
  apply fpost_call; [|done..]. intros fs fs' Ht (e & He & _ & _ & ->)%rename_ok. simpl. rewrite lookup_insert_eq. congruence.
Qed.

Lemma copied_orf {A} p s c P (m : M Driver (result A FsError)) :
  fpost P m (copied_to p s) → fpost P (orf c m) (copied_to p s).
Proof. intros Hm. apply fpost_orf. eapply fpost_conseq; [exact Hm|done|]. by intros [x|e] fs Hfs. Qed.

Lemma copy_img_copies s : fpost (ready_to_copy s) (copy_img_file a b) (copied_to b s).
Proof.
  unfold copy_img_file. fold tmp. eapply fpost_bind; [apply (cp_copies false s)|]. intros r.
  eapply (fpost_try _ _ _ (λ _ fs, fs !! tmp = Some (EFile s))); [|intros _; apply copied_orf, rename_copies].
  assert (fpost (λ fs, ready_to_copy s fs ∧ (r = Ok true → fs !! tmp = Some (EFile s)))
    (forget_error (remove_file tmp);; orf (CCopy a tmp) (copy a tmp)) (copied_to tmp s)) as Hfall.
  { eapply (fpost_bind _ _ _ (λ _, ready_to_copy s)).
    - unfold forget_error. eapply (fpost_bind _ _ _ (λ _, ready_to_copy s)).
      { eapply fpost_conseq; [apply remove_tmp|by intros fs []|done]. }
      intros x. by apply fpost_ret.
    - intros x. apply copied_orf, copy_copies. }
  destruct r as [[]|]; [|exact Hfall..]. apply fpost_ret. intros fs [_ Ht]. by apply Ht.
Qed.

Lemma reflink_copies s : fpost (ready_to_copy s) (copy_img_file_reflink a b) (copied_to b s).
Proof.
  unfold copy_img_file_reflink. fold tmp.
  eapply (fpost_try _ _ _ (λ ok fs, ok = true → fs !! tmp = Some (EFile s))).
  - apply fpost_orf. eapply fpost_conseq; [apply (cp_copies true s)|done|]. intros [[]|e] fs [_ Ht]; auto; done.
  - intros []; [eapply fpost_conseq; [apply copied_orf, rename_copies|by intros fs Hfs; apply Hfs|done]|].
    by apply fpost_fail.
Qed.

(** Only the destination and the temporary file change, and no link appears. *)
Definition copy_frame (fs0 fs : Fs) : Prop :=
  agree (λ p, p = b ∨ p = tmp) fs0 fs ∧ no_link fs tmp ∧ (∀ p, no_link fs0 p → no_link fs p).

Lemma frame_insert fs0 fs p e : p = b ∨ p = tmp → (∀ t, e ≠ ELink t) → copy_frame fs0 fs → copy_frame fs0 (<[p := e]> fs).
Proof.
  intros Hp He (H1 & H2 & H3). split; [transitivity fs; [done|by apply agree_insert]|].
  split; [by apply no_link_insert|]. intros q Hq. apply no_link_insert; [by apply H3|done].
Qed.
Lemma frame_delete fs0 fs p : p = b ∨ p = tmp → copy_frame fs0 fs → copy_frame fs0 (delete p fs).
Proof.
  intros Hp (H1 & H2 & H3). split; [transitivity fs; [done|by apply agree_delete]|].
  split; [intros t|intros q Hq t]; rewrite lookup_delete_Some; intros [_ E]; [by eapply H2|by eapply H3].
Qed.

Lemma frame_copying fs0 c : preserves (on_fs (copy_frame fs0)) (fs_call c (λ fs, fs_copy fs a tmp) (leaves tmp)).
Proof.
  apply fs_call_keeps.
  - intros fs fs' Hfs. unfold fs_copy. destruct (fs_read fs a) as [s|]; [|done].
    destruct (fs_write fs tmp s) as [fs1|] eqn:E; [|done]. intros [= <-].
    apply write_no_link in E as ->; [|exact (proj1 (proj2 Hfs))]. apply frame_insert; [by right|done|done].
  - intros l fs Hfs. destruct (leaves_cases tmp l fs) as [->| ->]; [exact (proj1 (proj2 Hfs))|done|].
    apply frame_insert; [by right|done|done].
Qed.
Lemma frame_cp fs0 always : preserves (on_fs (copy_frame fs0)) (cp always a tmp).
Proof. unfold cp. apply preserves_bind; [apply frame_copying|intros r; preserve]. Qed.
Lemma frame_copy fs0 : preserves (on_fs (copy_frame fs0)) (copy a tmp).
Proof. apply frame_copying. Qed.
Lemma frame_remove fs0 : preserves (on_fs (copy_frame fs0)) (remove_file tmp).
Proof.
  apply fs_call_keeps; [|done]. intros fs fs' Hfs. unfold fs_remove_file.
  repeat case_match; intros [= <-]; apply frame_delete; auto.
Qed.
Lemma frame_rename fs0 : preserves (on_fs (copy_frame fs0)) (rename tmp b).
Proof.
  apply fs_call_keeps; [|done]. intros fs fs' Hfs (e & He & _ & _ & ->)%rename_ok.
  apply frame_insert; [by left| |apply frame_delete; auto]. intros t ->. by eapply (proj1 (proj2 Hfs)).
Qed.

Lemma frame_copy_img fs0 : preserves (on_fs (copy_frame fs0)) (copy_img_file a b).
Proof.
  pose proof (frame_cp fs0 false). pose proof (frame_copy fs0). pose proof (frame_remove fs0). pose proof (frame_rename fs0).
  unfold copy_img_file, orf, forget_error. fold tmp. preserve.
Qed.
Lemma frame_reflink fs0 : preserves (on_fs (copy_frame fs0)) (copy_img_file_reflink a b).
Proof.
  pose proof (frame_cp fs0 true). pose proof (frame_remove fs0). pose proof (frame_rename fs0).
  unfold copy_img_file_reflink, orf, forget_error. fold tmp. preserve.
Qed.
End copying.

(** ** All images *)
Section shared.
Context (src : ChRestoreSource) (base : string).
Context (Hbase : proper_dir base = true).
Context (Hplain : ∀ e, e ∈ cs_disk_images src → plain (di_storage_id e +:+ ".img") = true).

Let from (e : DiskImageEntry) : string := snapshot_disk_path src e.
Let to (e : DiskImageEntry) : string := restored_disk_path base e.

(** The files of the new sandbox: its images and the temporary files of
    their copies. *)
Definition sandbox_file (p : string) : Prop := ∃ e, e ∈ cs_disk_images src ∧ (p = to e ∨ p = tmp_name (to e)).

Lemma tmp_name_to e : e ∈ cs_disk_images src → tmp_name (to e) = path_join base ("." +:+ (di_storage_id e +:+ ".img") +:+ ".tmp").
Proof.
  intros He. unfold tmp_name, to, restored_disk_path.
  rewrite file_name_join, with_file_name_join by (try done; by apply Hplain). done.
Qed.

Lemma plain_tmp n : plain n = true → plain ("." +:+ n +:+ ".tmp") = true.
Proof.
  intros (Hc & Hn & _)%plain_spec. unfold plain. apply andb_true_intro. split.
  - apply negb_true_iff. simpl. clear Hn. induction n as [|a n IH]; [done|]. apply contains_char_cons in Hc as [Ha Hc].
    simpl. rewrite decide_False by done. by apply IH.
  - apply bool_decide_eq_true. destruct n as [|a n]; [done|]. simpl. intros Hin. set_unfold in Hin.
    destruct Hin as [|[|[|]]]; simplify_eq; by destruct n.
Qed.

(** No copy overwrites another one, or its temporary file. *)
Lemma tmp_not_to e e' : e ∈ cs_disk_images src → e' ∈ cs_disk_images src → tmp_name (to e) ≠ to e'.
Proof.
  intros He He' E. rewrite tmp_name_to in E by done. unfold to, restored_disk_path in E.
  rewrite !join_plain in E; [|done|by apply Hplain|done|by apply plain_tmp, Hplain].
  apply str_app_inj_l in E. injection E as E. by apply (tmp_not_img ("." +:+ di_storage_id e +:+ ".img")) in E.
Qed.

(** Only the sandbox directory changed, and none of its images is a link. *)
Definition own_files (fs0 fs : Fs) : Prop :=
  agree (λ p, p = base ∨ sandbox_file p) fs0 fs ∧ ∀ p, sandbox_file p → no_link fs p.

(** The images of the template are regular files outside the sandbox. *)
Context (Hfrom : ∀ e, e ∈ cs_disk_images src → from e ≠ base ∧ ¬ sandbox_file (from e)).
Context (Hto : NoDup (to <$> cs_disk_images src)).

Definition image_copied (fs0 fs : Fs) (e : DiskImageEntry) : Prop :=
  ∀ s, fs0 !! from e = Some (EFile s) → fs !! to e = Some (EFile s).

(** One image, under either action. *)
Lemma copy_one action fs0 e moves d r d' : e ∈ cs_disk_images src → action = ReflinkCopied ∨ action = PlainCopied →
  own_files fs0 (dr_fs d) → restore_disk action (from e) (to e) moves d = Some (r, d') →
  own_files fs0 (dr_fs d') ∧
  (∀ m, r = Ok m → m = moves ∧ image_copied fs0 (dr_fs d') e) ∧
  agree (λ p, p = to e ∨ p = tmp_name (to e)) (dr_fs d) (dr_fs d').
Proof.
  intros He Hact [Hag Hnl]. destruct (Hfrom e He) as [Hb Hf].
  assert (sandbox_file (tmp_name (to e))) as Htmp by (exists e; auto).
  assert (copy_frame (to e) (dr_fs d) (dr_fs d)) as Hfr by (split; [done|]; split; [by apply Hnl|done]).
  assert (∀ s, fs0 !! from e = Some (EFile s) → ready_to_copy (from e) (to e) s (dr_fs d)) as Hready.
  { intros s Hs. split; [|by apply Hnl]. rewrite Hag; [done|]. tauto. }
  assert (from e ≠ tmp_name (to e)) as Hne by (intros E; apply Hf; by rewrite E).
  assert (∀ (m : Ch unit) x d1, m d = Some (x, d1) → preserves (on_fs (copy_frame (to e) (dr_fs d))) m →
    (∀ s, fpost (ready_to_copy (from e) (to e) s) m (copied_to (to e) s)) →
    own_files fs0 (dr_fs d1) ∧ (x = Ok tt → image_copied fs0 (dr_fs d1) e) ∧
    agree (λ p, p = to e ∨ p = tmp_name (to e)) (dr_fs d) (dr_fs d1)) as Hstep.
  { intros m x d1 Em Hm Hc. destruct (Hm _ _ _ Hfr Em) as (G1 & G2 & G3). split; [split|split; [|done]].
    - transitivity (dr_fs d); [done|]. eapply agree_mono; [|exact G1]. intros p [-> | ->]; right; exists e; auto.
    - intros p Hp. by apply G3, Hnl.
    - intros -> s Hs. exact (Hc s _ _ _ (Hready s Hs) Em). }
  destruct Hact as [-> | ->]; unfold restore_disk; intros (x & d1 & E1 & E)%bind_inv.
  - destruct (Hstep _ _ _ E1) as (S1 & S2 & S3); [apply frame_reflink|intros s; by apply reflink_copies|].
    destruct x as [[]|]; run E; subst; (split; [done|]); (split; [|done]); intros m [= <-]. auto.
  - destruct (Hstep _ _ _ E1) as (S1 & S2 & S3); [apply frame_copy_img|intros s; by apply copy_img_copies|].
    destruct x as [[]|]; run E; subst; (split; [done|]); (split; [|done]); intros m [= <-]. auto.
Qed.

Definition remaps_of (l : list DiskImageEntry) : list (string * string) := (λ e, (di_device_id e, to e)) <$> l.

(** An image that is copied stays while the others are. *)
Lemma image_stays fs0 fs fs' e e' : e ∈ cs_disk_images src → e' ∈ cs_disk_images src → to e ≠ to e' →
  agree (λ p, p = to e' ∨ p = tmp_name (to e')) fs fs' → image_copied fs0 fs e → image_copied fs0 fs' e.
Proof.
  intros He He' Hne Hag Hc s Hs. rewrite Hag; [by apply Hc|]. intros [E|E]; [done|]. by apply (tmp_not_to e' e).
Qed.

Lemma copy_disks_spec action l : action = ReflinkCopied ∨ action = PlainCopied →
  ∀ pre remaps paths moves fs0 d r d', cs_disk_images src = pre ++ l →
  restore_disks action src base l remaps paths moves d = Some (r, d') →
  own_files fs0 (dr_fs d) → (∀ e, e ∈ pre → image_copied fs0 (dr_fs d) e) →
  own_files fs0 (dr_fs d') ∧
  (∀ a, r = Ok a → ra_disk_remaps a = remaps ++ remaps_of l ∧ ra_pending_moves a = moves ∧
     ∀ e, e ∈ pre ++ l → image_copied fs0 (dr_fs d') e).
Proof.
  intros Hact. induction l as [|e l IH]; intros pre remaps paths moves fs0 d r d' Himg E Hown Hpre; simpl in E.
  - run E. subst. split; [done|]. intros a [= <-]. simpl. rewrite !app_nil_r. done.
  - assert (e ∈ cs_disk_images src) as He by (rewrite Himg; apply elem_of_app; right; by left).
    apply bind_inv in E as (r1 & d1 & E1 & E).
    destruct (copy_one action fs0 e moves d r1 d1 He Hact Hown E1) as (Hown1 & Hr1 & Hag).
    destruct r1 as [m|x]; [|run E; subst; done]. destruct (Hr1 m eq_refl) as [-> Hcopied].
    destruct (IH (pre ++ [e]) _ _ _ fs0 _ _ _ ltac:(by rewrite <- app_assoc) E Hown1) as [H1 H2].
    + intros e' [He'|He']%elem_of_app; [|by apply list_elem_of_singleton in He' as ->]. apply (image_stays fs0 (dr_fs d) _ e' e); [|done| |done|by apply Hpre].
      * rewrite Himg. apply elem_of_app. by left.
      * intros Heq. rewrite Himg, fmap_app, fmap_cons in Hto. apply NoDup_app in Hto as (_ & Hd & _).
        apply (Hd (to e')); [by apply list_elem_of_fmap_2|]. rewrite Heq. by left.
    + split; [done|]. intros a Ha. destruct (H2 a Ha) as (Ra & Ma & Ca). split; [by rewrite Ra, <- app_assoc|].
      split; [done|]. intros e' He'. apply Ca. by rewrite <- app_assoc.
Qed.
End shared.

(** C8: sandboxes restored from a shared WarmFork template do not disturb it
    or each other through their disks. Whatever fails, preparing the disks
    changes nothing outside the new sandbox's own images; on success every
    image is a regular file with the contents of the template's image, the
    configuration is told to use exactly these, and a later write to one
    changes no other file. *)
Theorem shared_restore_isolated src base d r d' :
  proper_dir base = true →
  (∀ e, e ∈ cs_disk_images src → plain (di_storage_id e +:+ ".img") = true) →
  NoDup (restored_disk_path base <$> cs_disk_images src) →
  (∀ e, e ∈ cs_disk_images src → snapshot_disk_path src e ≠ base ∧ ¬ sandbox_file src base (snapshot_disk_path src e)) →
  (∀ p, sandbox_file src base p → dr_fs d !! p = None) →
  cs_snapshot_type src = WarmFork → cs_lease_mode src = Shared →
  prepare_restore_block_artifacts src base d = Some (r, d') →
  (∀ p, p ≠ base → ¬ sandbox_file src base p → dr_fs d' !! p = dr_fs d !! p) ∧
  (∀ a, r = Ok a →
     ra_disk_remaps a = remaps_of base (cs_disk_images src) ∧
     ∀ e s, e ∈ cs_disk_images src → dr_fs d !! snapshot_disk_path src e = Some (EFile s) →
       dr_fs d' !! restored_disk_path base e = Some (EFile s) ∧
       ∀ w fs', fs_write (dr_fs d') (restored_disk_path base e) w = Some fs' →
         ∀ p, p ≠ restored_disk_path base e → fs' !! p = dr_fs d' !! p).
Proof.
  intros Hbase Hplain Hnd Hfrom Hfree Hty Hlm. unfold prepare_restore_block_artifacts.
  case_bool_decide as Hnil.
  { intros E. run E. subst. split; [done|]. intros a [= <-]. rewrite Hnil. split; [done|]. by intros e s ?%elem_of_nil. }
  intros (r1 & d1 & E1 & E)%bind_inv.
  assert (own_files src base (dr_fs d) (dr_fs d1)) as Hown.
  { assert (own_files src base (dr_fs d) (dr_fs d)) as H0 by (split; [done|]; intros p Hp; by apply no_link_None, Hfree).
    revert E1. apply (λ Hp : preserves (on_fs (own_files src base (dr_fs d))) _, Hp d r1 d1 H0). unfold orf.
    apply preserves_bind; [apply fs_call_keeps; [|done]|intros x; preserve]. intros fs fs' [H1 H2]. unfold fs_create_dir_all.
    repeat case_match; intros [= <-]; try done.
    all: split; [transitivity fs; [done|apply agree_insert; by left]|].
    all: intros p Hp; apply no_link_insert; [by apply H2|done]. }
  assert (∀ fs', own_files src base (dr_fs d) fs' → ∀ p, p ≠ base → ¬ sandbox_file src base p → fs' !! p = dr_fs d !! p) as Hout.
  { intros fs' [Hag _] p Hb Hp. apply Hag. tauto. }
  destruct r1 as [[]|]; [|run E; subst; split; [by apply Hout|done]].
  assert (restore_action src = ReflinkCopied ∨ restore_action src = PlainCopied) as Hact.
  { unfold restore_action. rewrite Hty, Hlm. simpl. destruct (cs_reflink_supported src); auto. }
  destruct (copy_disks_spec src base Hbase Hplain Hfrom Hnd _ _ Hact [] [] [] [] (dr_fs d) d1 r d' eq_refl E Hown) as [H1 H2];
    [by intros e ?%elem_of_nil|].
  split; [by apply Hout|]. intros a Ha. destruct (H2 a Ha) as (Hr & _ & Hc). split; [done|].
  intros e s He Hs. pose proof (Hc e He s Hs) as Hfile. split; [done|].
  intros w fs' Hw p Hp. apply write_no_link in Hw as ->; [|by eapply no_link_file]. by apply lookup_insert_ne.
Qed.

Lemma shared_restore_isolated_witness :
  match prepare_restore_block_artifacts (sample_source WarmFork Shared Copy) "/b" (sample_driver [] []) with
  | Some (Ok a, d') => dr_fs d' !! "/t/disks/storage3.img" = Some (EFile "A") ∧ dr_fs d' !! "/b/storage3.img" = Some (EFile "A")
  | _ => False
  end.
Proof.
  destruct (prepare_restore_block_artifacts _ _ _) as [[[a|err] d']|] eqn:E; [|vm_compute in E; discriminate..].
  destruct (shared_restore_isolated (sample_source WarmFork Shared Copy) "/b" (sample_driver [] []) (Ok a) d') as [Hout Hin].
  - reflexivity.
  - apply (Forall_forall (λ e, _ = true)). repeat constructor.
  - apply (bool_decide_unpack _). reflexivity.
  - assert (∀ p, sandbox_file (sample_source WarmFork Shared Copy) "/b" p → p ∈ ["/b/storage3.img"; "/b/storage4.img"; "/b/.storage3.img.tmp"; "/b/.storage4.img.tmp"]) as Hs.
    { intros p (e & He & Hp). apply sample_images_cases in He.
      destruct He as [-> | ->], Hp as [->| ->]; apply (bool_decide_unpack _); reflexivity. }
    intros e He. split; [|intros Hf%Hs]; apply sample_images_cases in He.
    + destruct He as [-> | ->]; discriminate.
    + destruct He as [-> | ->]; revert Hf; apply (bool_decide_unpack (_ ∉ _)); reflexivity.
  - intros p (e & He & Hp). apply sample_images_cases in He.
    destruct He as [-> | ->], Hp as [->| ->]; reflexivity.
  - reflexivity.
  - reflexivity.
  - exact E.
  - destruct (Hin a eq_refl) as [_ Hi]. split.
    + apply (Hout "/t/disks/storage3.img"); [discriminate|]. intros (e & He & Hp). apply sample_images_cases in He.
      destruct He as [-> | ->], Hp as [Hp|Hp]; discriminate Hp.
    + apply (Hi (mkDiskImage "storage3" "blk3" "disks/storage3.img") "A"); [left|reflexivity].
Defined.
