(* ===== verification/ChCapture.v ===== *)
(** * Cloud Hypervisor: taking a snapshot

    The order of the calls of a snapshot, and that the guest runs again
    afterwards. *)
From S2P Require Import Prelude Strs Storage Types Metrics Disk Pool Continuation GuestScan Mount Frame Inject Annotations Box BlockImage StorageOps Handlers Sandboxer Fs ChConfig ChSnapshot ChDriver ChLemmas ChSample ChRestore ChShared.

(** ** What a program logs *)
Definition file_call (ev : ChCall * bool) : Prop :=
  match ev.1 with
  | CMkdir _ | CRemove _ | CRename _ _ | CCp _ _ _ | CCopy _ _ | CSymlink _ _ | CStat _ | CRead _ | CWrite _ _ => True
  | _ => False
  end.
(** Not a request to the VMM *)
Definition no_request (ev : ChCall * bool) : Prop := match ev.1 with CApi _ _ => False | _ => True end.

Lemma file_call_no_request l : Forall file_call l → Forall no_request l.
Proof. intros Hl. eapply Forall_impl; [exact Hl|]. by intros [[] ok]. Qed.

Definition emits {A} (E : ChCall * bool → Prop) (m : M Driver A) : Prop :=
  ∀ d a d', m d = Some (a, d') → ∃ tr, dr_trace d' = dr_trace d ++ tr ∧ Forall E tr.

Section emits.
Context (E : ChCall * bool → Prop).
Lemma emits_ret {A} (a : A) : emits E (mret a).
Proof. intros d a' d' [= _ <-]. exists []. by rewrite app_nil_r. Qed.
Lemma emits_gets {A} (f : Driver → A) : emits E (gets f).
Proof. intros d a' d' [= _ <-]. exists []. by rewrite app_nil_r. Qed.
Lemma emits_bind {A B} (m : M Driver A) (k : A → M Driver B) : emits E m → (∀ a, emits E (k a)) → emits E (m ≫= k).
Proof.
  intros Hm Hk d b d' (a & d1 & E1 & E2)%bind_inv. apply Hm in E1 as (t1 & T1 & F1). apply Hk in E2 as (t2 & T2 & F2).
  exists (t1 ++ t2). rewrite T2, T1, app_assoc. split; [done|]. by apply Forall_app.
Qed.
Lemma emits_fs_call c f bad : (∀ ok, E (c, ok)) → emits E (fs_call c f bad).
Proof.
  intros Hc d r d' [(? & ? & _ & _ & ->)|(? & ? & ? & _ & _ & ->)]%fs_call_inv; simpl; (eexists; split; [reflexivity|]);
    by constructor.
Qed.
End emits.

Create HintDb emit.
#[export] Hint Resolve emits_ret emits_gets : emit.
Ltac emit :=
  repeat first
    [ solve [eauto 2 with emit nocore]
    | apply emits_fs_call; intros ?; exact I
    | apply emits_bind; [|intros ?]
    | progress (repeat case_match) ].

Lemma emits_copy_img a b : emits file_call (copy_img_file a b).
Proof. unfold copy_img_file, cp, orf, forget_error, remove_file, copy, rename. emit. Qed.
#[export] Hint Resolve emits_copy_img : emit.
Lemma emits_copy_disks disks dest : ∀ l, emits file_call (copy_disks disks dest l).
Proof. induction disks as [|k disks IH]; intros l; simpl; emit. Qed.
#[export] Hint Resolve emits_copy_disks : emit.
Lemma emits_copy_images disks dest dir : emits file_call (copy_disk_images disks dest dir).
Proof. unfold copy_disk_images, orf, create_dir. emit. Qed.

Lemma fs_only_copy_disks disks dest : ∀ l, fs_only (copy_disks disks dest l).
Proof. induction disks as [|k disks IH]; intros l; simpl; fso. Qed.
#[export] Hint Resolve fs_only_copy_disks : fso.
Lemma fs_only_copy_images disks dest dir : fs_only (copy_disk_images disks dest dir).
Proof. unfold copy_disk_images, orf, create_dir. fso. Qed.

(** ** The log of a snapshot *)

(** The calls of a snapshot of the VMM [pid], and whether it succeeds: it
    fails before the pause, at the pause, at the copies, or at the snapshot
    itself; the images are copied while the guest is paused, and whenever it
    was paused it is resumed last. *)
Inductive snapshot_log (pid : N) (dest : string) : list (ChCall * bool) → bool → Prop :=
  | log_early tr : Forall no_request tr → snapshot_log pid dest tr false
  | log_not_paused pre : Forall no_request pre → snapshot_log pid dest (pre ++ [(CApi pid ApiPause, false)]) false
  | log_no_copy pre copies resumed : Forall no_request pre → Forall file_call copies →
      snapshot_log pid dest (pre ++ [(CApi pid ApiPause, true)] ++ copies ++ [(CApi pid ApiResume, resumed)]) false
  | log_taken pre copies taken resumed : Forall no_request pre → Forall file_call copies →
      snapshot_log pid dest (pre ++ [(CApi pid ApiPause, true)] ++ copies ++
        [(CApi pid (ApiSnapshot ("file://" +:+ dest)), taken); (CApi pid ApiResume, resumed)]) taken.

(** What the requests of a snapshot do to the guest of [pid]. *)
Lemma pause_guest `{JsonCodec} sf pid d r d' ds : dr_procs d !! pid = Some (GuestRunning ds) →
  api sf pid ApiPause d = Some (r, d') → r = Ok tt → dr_procs d' !! pid = Some (GuestPaused ds).
Proof.
  intros Hp (ok & pr' & fs' & outs & -> & [[-> ->]|[-> _]] & H1)%api_inv; [|done]. intros _. simpl.
  destruct H1 as [(? & _)|(st & e & Hst & He & -> & _)]; [done|]. rewrite Hp in Hst. injection Hst as <-.
  simpl in He. injection He as <-. by rewrite lookup_insert_eq.
Qed.
Lemma snapshot_guest `{JsonCodec} sf pid url d r d' ds : dr_procs d !! pid = Some (GuestPaused ds) →
  api sf pid (ApiSnapshot url) d = Some (r, d') → dr_procs d' !! pid = Some (GuestPaused ds).
Proof.
  intros Hp (ok & pr' & fs' & outs & -> & _ & H1)%api_inv. simpl.
  destruct H1 as [(_ & -> & _)|(st & e & Hst & He & -> & _)]; [done|]. rewrite Hp in Hst. injection Hst as <-.
  simpl in He. injection He as <-. by rewrite lookup_insert_eq.
Qed.
Lemma resume_guest_running `{JsonCodec} sf pid d r d' ds : dr_procs d !! pid = Some (GuestPaused ds) →
  api sf pid ApiResume d = Some (r, d') → (CApi pid ApiResume, false) ∉ dr_trace d' →
  dr_procs d' !! pid = Some (GuestRunning ds).
Proof.
  intros Hp (ok & pr' & fs' & outs & -> & _ & H1)%api_inv. simpl. intros Hno.
  destruct H1 as [(-> & _)|(st & e & Hst & He & -> & _)].
  { destruct Hno. apply elem_of_app. right. by left. }
  rewrite Hp in Hst. injection Hst as <-. simpl in He. injection He as <-. by rewrite lookup_insert_eq.
Qed.

Lemma api_log `{JsonCodec} sf pid r d a d' : api sf pid r d = Some (a, d') →
  dr_trace d' = dr_trace d ++ [(CApi pid r, is_ok a)] ∧ dr_vm d' = dr_vm d.
Proof. by intros (ok & pr' & fs' & outs & -> & [[-> ->]|[-> ->]] & _)%api_inv. Qed.

(** The part of a snapshot that runs with the guest paused. *)
Section paused.
Context `{JsonCodec} (sf : list (string * string) → list (string * string)) (pid : N) (dest : string) (disks : list DiskSnapshot).

Definition paused_part : Ch ChSnapshotMeta :=
  r ← (if bool_decide (disks = []) then mret (Ok [])
       else copy_disk_images disks dest (path_join dest "disks"));
  match r with
  | Err e => forget_error (api sf pid ApiResume);; mret (Err e)
  | Ok images =>
      snap_result ← api sf pid (ApiSnapshot ("file://" +:+ dest));
      forget_error (api sf pid ApiResume);;
      v ← gets dr_vm;
      match snap_result with
      | Ok _ => mret (Ok (mkSnapshotMeta dest (vsock_path v) (console_log_path v) images))
      | Err e => mret (Err e)
      end
  end.

Lemma paused_spec d r d' : paused_part d = Some (r, d') →
  (∃ copies, Forall file_call copies ∧
     ((∃ ok, dr_trace d' = dr_trace d ++ copies ++ [(CApi pid ApiResume, ok)] ∧ is_ok r = false) ∨
      (∃ ok, dr_trace d' = dr_trace d ++ copies ++
               [(CApi pid (ApiSnapshot ("file://" +:+ dest)), is_ok r); (CApi pid ApiResume, ok)]))) ∧
  (∀ ds, dr_procs d !! pid = Some (GuestPaused ds) → (CApi pid ApiResume, false) ∉ dr_trace d' →
     dr_procs d' !! pid = Some (GuestRunning ds)).
Proof.
  unfold paused_part, forget_error. intros (r1 & d1 & E1 & E)%bind_inv.
  assert ((∃ copies, dr_trace d1 = dr_trace d ++ copies ∧ Forall file_call copies) ∧ dr_procs d1 = dr_procs d) as [(copies & T1 & F1) P1].
  { revert E1. case_bool_decide; intros E1.
    - injection E1 as _ <-. split; [exists []; by rewrite app_nil_r|done].
    - split; [by apply emits_copy_images in E1|by apply fs_only_copy_images in E1 as (_ & ? & _)]. }
  destruct r1 as [images|e].
  - apply bind_inv in E as (r2 & d2 & E2 & E). apply bind_inv in E as (u & d3 & E3 & E).
    apply bind_inv in E3 as (r3 & d3' & E3 & ER). injection ER as _ <-.
    apply bind_inv in E as (v & d4 & E4 & E). injection E4 as <- <-.
    assert (d' = d3' ∧ is_ok r = is_ok r2) as [-> Hr] by (destruct r2; run E; by subst).
    pose proof (api_log _ _ _ _ _ _ E2) as [T2 _]. pose proof (api_log _ _ _ _ _ _ E3) as [T3 _]. split.
    + exists copies. split; [done|]. right. exists (is_ok r3). rewrite T3, T2, T1, Hr, <- !app_assoc. done.
    + intros ds Hp Hno. rewrite <- P1 in Hp. eapply resume_guest_running; [by eapply snapshot_guest|exact E3|done].
  - apply bind_inv in E as (u & d3 & E3 & E). apply bind_inv in E3 as (r3 & d3' & E3 & ER). injection ER as _ <-.
    run E. pose proof (api_log _ _ _ _ _ _ E3) as [T3 _]. split.
    + exists copies. split; [done|]. left. exists (is_ok r3). by rewrite T3, T1, <- app_assoc.
    + intros ds Hp Hno. rewrite <- P1 in Hp. by eapply resume_guest_running.
Qed.
End paused.

Lemma sync_inv d r d' : sync_guest_fs d = Some (r, d') →
  dr_trace d' = dr_trace d ++ [(CSync, is_ok r)] ∧ dr_vm d' = dr_vm d ∧ dr_procs d' = dr_procs d.
Proof.
  unfold sync_guest_fs. intros (o & d1 & E1 & E)%bind_inv.
  assert (dr_trace d1 = dr_trace d ∧ dr_vm d1 = dr_vm d ∧ dr_procs d1 = dr_procs d) as (T & V & P).
  { unfold next_outcome in E1. destruct (dr_outs d); by injection E1 as _ <-. }
  destruct o; run E; subst; simpl; by rewrite T.
Qed.

(** C9: a snapshot whose pause was accepted asks for the resume. Whatever the
    calls answer, the log of a snapshot is one of four: nothing was requested of
    the VMM, the pause was reported as failed and nothing followed, or the
    pause was reported as done, the images were copied, a snapshot was requested
    (unless a copy failed) and the last request is the resume; the snapshot
    succeeds exactly when the VMM took it. A guest that ran runs again provided
    neither the pause nor the resume was reported as failed. (A pause that took
    effect but was reported as failed is not undone: [lost_pause_answer].) *)
Theorem snapshot_resumes `{JsonCodec} sf dest disks d r d' :
  ch_snapshot sf dest disks d = Some (r, d') →
  (∃ pid tr, dr_trace d' = dr_trace d ++ tr ∧ snapshot_log pid dest tr (is_ok r)) ∧
  (∀ pid ds, vm_client (dr_vm d) = Some pid → dr_procs d !! pid = Some (GuestRunning ds) →
     (CApi pid ApiPause, false) ∉ dr_trace d' → (CApi pid ApiResume, false) ∉ dr_trace d' →
     dr_procs d' !! pid = Some (GuestRunning ds)).
Proof.
  unfold ch_snapshot, forget_error. intros (r1 & d1 & E1 & E)%bind_inv. unfold orf in E1.
  apply bind_inv in E1 as (r0 & d0 & E0 & ER). injection ER as <- <-.
  pose proof (fs_only_call _ _ _ _ _ _ E0) as (V0 & P0 & _).
  destruct (emits_fs_call no_request (CMkdir dest) _ _ (λ _, I) _ _ _ E0) as (t0 & T0 & F0).
  destruct r0 as [[]|e].
  2:{ run E. split; [exists 0%N, t0; split; [done|by constructor]|]. intros pid ds _ Hp _ _. by rewrite P0. }
  apply bind_inv in E as (u & d2 & E2 & E). apply bind_inv in E2 as (r2 & d2' & E2 & ER). injection ER as _ <-.
  apply sync_inv in E2 as (T2 & V2 & P2).
  assert (Forall no_request (t0 ++ [(CSync, is_ok r2)])) as F2 by (apply Forall_app; split; [done|by repeat constructor]).
  apply bind_inv in E as (r3 & d3 & E3 & E). unfold get_client in E3. apply bind_inv in E3 as (o & d3' & E3 & ER).
  injection E3 as <- <-. injection ER as <- <-. rewrite V2, V0 in E. destruct (vm_client (dr_vm d)) as [pid|] eqn:Hc.
  2:{ run E. split; [|done]. eexists 0%N, _. rewrite T2, T0, <- app_assoc. split; [done|by constructor]. }
  apply bind_inv in E as (r4 & d4 & E4 & E). pose proof (api_log _ _ _ _ _ _ E4) as [T4 _].
  destruct r4 as [[]|e].
  2:{ run E. split.
      - eexists pid, _. rewrite T4, T2, T0, <- !app_assoc, (app_assoc t0). split; [done|by constructor].
      - intros pid' ds [= <-] _ Hno. destruct Hno. rewrite T4. apply elem_of_app. right. by left. }
  apply (paused_spec sf pid dest disks) in E as [(copies & FC & HT) HP]. split.
  - exists pid. destruct HT as [(ok & T5 & ->)|(ok & T5)].
    + eexists. split; [rewrite T5, T4, T2, T0, <- !app_assoc, (app_assoc t0); reflexivity|]. by constructor.
    + eexists. split; [rewrite T5, T4, T2, T0, <- !app_assoc, (app_assoc t0); reflexivity|]. by constructor.
  - intros pid' ds [= <-] Hp _ Hno. apply HP; [|done]. eapply pause_guest; [|exact E4|done]. by rewrite P2, P0.
Qed.

(** A VM whose guest runs on two disks; the copy of the second image fails. *)
Definition running_driver (outs : list Outcome) : Driver :=
  mkDriver (set_vm_client (Some 100%N) (set_pids (λ _, mkPids (Some 100%N) []) sample_vm)) sample_fs
    {[100%N := GuestRunning [("blk3", "/t/disks/storage3.img")]]} 101 [] outs [].
Definition sample_disks : list DiskSnapshot :=
  [mkDiskSnapshot "storage3" "blk3" "/t/disks/storage3.img"; mkDiskSnapshot "storage4" "blk4" "/t/disks/missing.img"].

Lemma snapshot_resumes_witness :
  match ch_snapshot sample_files "/c" sample_disks (running_driver []) with
  | Some (r, d') => is_ok r = false ∧ dr_procs d' !! 100%N = Some (GuestRunning [("blk3", "/t/disks/storage3.img")])
  | None => False
  end.
Proof.
  destruct (ch_snapshot _ _ _ _) as [[r d']|] eqn:E; [|vm_compute in E; discriminate].
  split; [vm_compute in E; injection E as <- <-; reflexivity|].
  destruct (snapshot_resumes sample_files "/c" sample_disks (running_driver []) r d') as [_ H].
  - exact E.
  - apply H; [reflexivity|reflexivity| |];
      apply (not_in_log failed_request _ _ _ _ _ E); vm_compute; reflexivity.
Defined.
