(* ===== verification/ChWorks.v ===== *)
(** * Cloud Hypervisor: a restore in which nothing fails

    From a complete template a restore ends with the guest running on the
    images of its own sandbox. *)
From S2P Require Import Prelude Strs Storage Types Metrics Disk Pool Continuation GuestScan Mount Frame Inject Annotations Box BlockImage StorageOps Handlers Sandboxer Fs ChConfig ChSnapshot ChDriver ChLemmas ChSample ChRestore ChProcess ChShared.

(** ** Programs on the file store that do not fail *)
Definition works {A} (P : Fs → Prop) (m : M Driver A) (Q : A → Fs → Prop) : Prop :=
  ∀ d, dr_outs d = [] → P (dr_fs d) →
    ∃ a d', m d = Some (a, d') ∧ dr_outs d' = [] ∧ same_vm d d' ∧ Q a (dr_fs d').
(** It returns [Ok]. *)
Definition succeeds {A} (P : Fs → Prop) (m : Ch A) (R : A → Fs → Prop) : Prop :=
  works P m (λ r fs, ∃ a, r = Ok a ∧ R a fs).

Lemma works_ret {A} (a : A) (P : Fs → Prop) (Q : A → Fs → Prop) : (∀ fs, P fs → Q a fs) → works P (mret a) Q.
Proof. intros HQ d Ho Hd. exists a, d. split; [done|]. split; [done|]. split; [done|by apply HQ]. Qed.
Lemma works_bind {A B} (m : M Driver A) (k : A → M Driver B) P R Q :
  works P m R → (∀ a, works (R a) (k a) Q) → works P (m ≫= k) Q.
Proof.
  intros Hm Hk d Ho Hd. destruct (Hm d Ho Hd) as (a & d1 & E1 & O1 & S1 & R1).
  destruct (Hk a d1 O1 R1) as (b & d2 & E2 & O2 & S2 & Q2). exists b, d2. rewrite bind_run, E1.
  split; [done|]. split; [done|]. split; [by transitivity d1|done].
Qed.
Lemma works_conseq {A} (m : M Driver A) (P P' : Fs → Prop) (Q Q' : A → Fs → Prop) :
  works P' m Q' → (∀ fs, P fs → P' fs) → (∀ a fs, Q' a fs → Q a fs) → works P m Q.
Proof. intros Hm HP HQ d Ho Hd. destruct (Hm d Ho (HP _ Hd)) as (a & d1 & ? & ? & ? & ?). exists a, d1. auto. Qed.
Lemma works_call c f bad (P : Fs → Prop) (Q : result unit FsError → Fs → Prop) :
  (∀ fs, P fs → match f fs with Ok fs' => Q (Ok tt) fs' | Err e => Q (Err e) fs end) → works P (fs_call c f bad) Q.
Proof.
  intros HQ d Ho Hd. unfold fs_call, next_outcome. rewrite bind_run, Ho. specialize (HQ _ Hd).
  destruct (f (dr_fs d)) as [fs'|e] eqn:E; rewrite !bind_run; simpl; rewrite E; eexists _, _; (split; [reflexivity|]); done.
Qed.

Lemma succeeds_ret {A} (a : A) (P : Fs → Prop) (R : A → Fs → Prop) : (∀ fs, P fs → R a fs) → succeeds P (mret (Ok a)) R.
Proof. intros HR. apply works_ret. eauto. Qed.
Lemma succeeds_try {A B} (m : Ch A) (k : A → Ch B) P R Q :
  succeeds P m R → (∀ a, succeeds (R a) (k a) Q) →
  succeeds P (r ← m; match r with Ok a => k a | Err e => mret (Err e) end) Q.
Proof.
  intros Hm Hk. eapply works_bind; [exact Hm|]. intros [a|e].
  - eapply works_conseq; [apply (Hk a)| |done]. by intros fs (a' & [= <-] & HR).
  - intros d Ho (a' & ? & _). done.
Qed.
Lemma succeeds_conseq {A} (m : Ch A) (P P' : Fs → Prop) (R R' : A → Fs → Prop) :
  succeeds P' m R' → (∀ fs, P fs → P' fs) → (∀ a fs, R' a fs → R a fs) → succeeds P m R.
Proof. intros Hm HP HR. eapply works_conseq; [exact Hm|done|]. intros r fs (a & -> & Ha). eauto. Qed.
Lemma succeeds_orf c0 c f bad (P : Fs → Prop) (R : unit → Fs → Prop) :
  (∀ fs, P fs → ∃ fs', f fs = Ok fs' ∧ R tt fs') → succeeds P (orf c0 (fs_call c f bad)) R.
Proof.
  intros HR. unfold orf. eapply (works_bind _ _ _ (λ r fs, r = Ok tt ∧ R tt fs)).
  - apply works_call. intros fs Hfs. destruct (HR fs Hfs) as (fs' & -> & H). done.
  - intros r. apply works_ret. intros fs [-> HRf]. eauto.
Qed.
(** The result is ignored. *)
Lemma works_forget c f bad (P : Fs → Prop) (Q : Fs → Prop) :
  (∀ fs, P fs → match f fs with Ok fs' => Q fs' | Err _ => Q fs end) → works P (forget_error (fs_call c f bad)) (λ _, Q).
Proof.
  intros HQ. unfold forget_error. eapply (works_bind _ _ _ (λ _, Q)); [|intros r; by apply works_ret].
  apply works_call. intros fs Hfs. specialize (HQ fs Hfs). by destruct (f fs).
Qed.

(** ** Single calls *)
Definition dir_or_free (fs : Fs) (p : string) : Prop := fs !! p = None ∨ fs !! p = Some EDir.

Lemma entry_no_link fs p : no_link fs p → entry_at fs p = fs !! p.
Proof. intros Hp. unfold entry_at. by rewrite resolve_no_link. Qed.

Lemma follow_link n fs p t : fs !! p = Some (ELink t) →
  follow (S n) fs p = follow n fs (path_join (default "" (parent p)) t).
Proof. intros Hp. simpl. by rewrite Hp. Qed.

Lemma mkdir_ok fs p : dir_or_free fs p → fs_create_dir_all fs p = Ok fs ∨ fs_create_dir_all fs p = Ok (<[p := EDir]> fs).
Proof.
  intros [Hp|Hp]; unfold fs_create_dir_all; rewrite entry_no_link by (intros t; by rewrite Hp); rewrite Hp; eauto.
Qed.

Lemma write_free fs p s : fs !! p = None → fs_write fs p s = Some (<[p := EFile s]> fs).
Proof. intros Hp. unfold fs_write. rewrite resolve_no_link by (by apply no_link_None). simpl. by rewrite Hp. Qed.

Lemma rename_file fs a b s : fs !! a = Some (EFile s) → fs !! b ≠ Some EDir → fs_rename fs a b = Ok (<[b := EFile s]> (delete a fs)).
Proof. intros Ha Hb. unfold fs_rename. rewrite Ha. by destruct (fs !! b) as [[| |]|]. Qed.

Lemma remove_cases fs p : fs_remove_file fs p = Ok (delete p fs) ∨ ∃ e, fs_remove_file fs p = Err e.
Proof. unfold fs_remove_file. destruct (fs !! p) as [[| |]|]; eauto. Qed.

(** ** The template and the new sandbox *)
Section works.
Context `{JsonLaws} (sf : list (string * string) → list (string * string)) (src : ChRestoreSource) (base api_sock : string).
Context (cfg : JValue).

Let from (e : DiskImageEntry) : string := snapshot_disk_path src e.
Let to (e : DiskImageEntry) : string := restored_disk_path base e.
Let S (n : string) : string := path_join (cs_snapshot_dir src) n.
Let W (n : string) : string := path_join (cs_work_dir src) n.
Let artifacts : list string := memory_artifacts_for_mode (cs_memory_restore_mode src).

(** A complete template: configuration, memory and images. *)
Record complete (fs : Fs) : Prop := mkComplete {
  cm_absolute : starts_with (cs_snapshot_dir src) "/" = true;
  cm_config : ∃ s, fs !! S "config.json" = Some (EFile s) ∧ json_parse s = Some cfg;
  cm_valid : validate_config cfg (cs_snapshot_type src) = Ok tt;
  cm_memory : ∀ a, a ∈ artifacts → ∃ s, fs !! S a = Some (EFile s);
  cm_images : ∀ e, e ∈ cs_disk_images src → ∃ s, fs !! from e = Some (EFile s)
}.

(** The files of the template are not those of the sandbox. *)
Definition template_file (p : string) : Prop :=
  p = S "config.json" ∨ (∃ a, a ∈ artifacts ∧ p = S a) ∨ (∃ e, e ∈ cs_disk_images src ∧ p = from e).
Definition new_file (p : string) : Prop := scratch src base api_sock p ∨ sandbox_file src base p.

(** A sandbox whose directories hold none of these files yet. *)
Record fresh (fs : Fs) : Prop := mkFresh {
  fr_base : proper_dir base = true;
  fr_work : proper_dir (cs_work_dir src) = true;
  fr_plain : ∀ e, e ∈ cs_disk_images src → plain (di_storage_id e +:+ ".img") = true;
  fr_from : NoDup (from <$> cs_disk_images src);
  fr_to : NoDup (to <$> cs_disk_images src);
  fr_apart : ∀ p, template_file p → ¬ new_file p;
  fr_images : ∀ e p, e ∈ cs_disk_images src → p = from e → p ≠ S "config.json" ∧ ∀ a, a ∈ artifacts → p ≠ S a;
  fr_scratch : ∀ p, sandbox_file src base p → ¬ scratch src base api_sock p;
  fr_socket : api_sock ∉ [tmp_config src; new_config src] ++ memory_pins src;
  fr_dirs : base ∉ [tmp_config src; new_config src] ++ memory_pins src ∧ cs_work_dir src ∉ [tmp_config src; new_config src] ++ memory_pins src;
  fr_free : ∀ p, p ∈ [tmp_config src; new_config src] ++ memory_pins src ∨ sandbox_file src base p → fs !! p = None;
  fr_base_dir : dir_or_free fs base;
  fr_work_dir : dir_or_free fs (cs_work_dir src)
}.

(** An image of the sandbox reads as [s]: its own file, or a link to the
    template's. *)
Definition reads (s : string) (e : DiskImageEntry) (fs : Fs) : Prop :=
  fs !! to e = Some (EFile s) ∨ fs !! to e = Some (ELink (from e)) ∧ fs !! from e = Some (EFile s).

Definition images_ready (fs0 fs : Fs) : Prop :=
  ∀ e s, e ∈ cs_disk_images src → fs0 !! from e = Some (EFile s) → reads s e fs.

(** The state in which the VMM is prepared. *)
Record prepared (fs0 fs : Fs) : Prop := mkPreparedFs {
  pr_config : fs !! S "config.json" = fs0 !! S "config.json";
  pr_memory : ∀ a, a ∈ artifacts → fs !! S a = fs0 !! S a;
  pr_free : ∀ p, p ∈ [tmp_config src; new_config src] ++ memory_pins src → fs !! p = None;
  pr_base : dir_or_free fs base;
  pr_images : images_ready fs0 fs
}.

Lemma absolute_join x n : starts_with (cs_snapshot_dir src) "/" = true → path_join x (S n) = S n.
Proof.
  intros Ha. unfold path_join at 1. enough (starts_with (S n) "/" = true) as -> by done.
  unfold S, path_join. destruct (starts_with n "/") eqn:En; simpl; [done|].
  apply starts_with_spec in Ha as [t Ht]. rewrite Ht. simpl. apply starts_with_spec.
  case_match; [exists (t +:+ n)|exists (t +:+ "/" +:+ n)]; done.
Qed.

Lemma read_reads fs s e : starts_with (cs_snapshot_dir src) "/" = true → reads s e fs → fs_read fs (to e) = Some s.
Proof.
  intros Habs [Hr|[Hr Hf]]; [by apply read_file|].
  unfold fs_read, entry_at, resolve. change MAX_LINKS with (Datatypes.S 39). rewrite (follow_link _ _ _ _ Hr).
  change (from e) with (S (di_filename e)) in *. rewrite absolute_join by done.
  rewrite follow_file by (intros t; by rewrite Hf). simpl. by rewrite Hf.
Qed.

(** ** The disks *)

(** The store after one disk. *)
Definition disk_placed (action : RestoreBlockAction) (e : DiskImageEntry) (s : string) (fs : Fs) : Fs :=
  match action with
  | ReflinkCopied | PlainCopied => <[to e := EFile s]> fs
  | Symlinked => <[to e := ELink (from e)]> fs
  | MovedExclusive => <[to e := EFile s]> (delete (from e) fs)
  | NoBlockAction => fs
  end.

Lemma tmp_roundtrip fs tmp dst s : fs !! tmp = None → fs !! dst = None → tmp ≠ dst →
  fs_rename (<[tmp := EFile s]> fs) tmp dst = Ok (<[dst := EFile s]> fs).
Proof.
  intros Ht Hd Hne. rewrite (rename_file _ _ _ s); [|by rewrite lookup_insert_eq|by rewrite lookup_insert_ne, Hd].
  by rewrite delete_insert_id.
Qed.

Lemma copy_free fs a b s : fs !! a = Some (EFile s) → fs !! b = None → fs_copy fs a b = Ok (<[b := EFile s]> fs).
Proof. intros Ha Hb. unfold fs_copy. by rewrite (read_file _ _ _ Ha), write_free. Qed.

Lemma place_works action e moves fs s : action ≠ NoBlockAction →
  fs !! from e = Some (EFile s) → fs !! to e = None → fs !! tmp_name (to e) = None → tmp_name (to e) ≠ to e →
  succeeds (λ f, f = fs) (restore_disk action (from e) (to e) moves) (λ _ f, f = disk_placed action e s fs).
Proof.
  intros Hact Hf Ht Htmp Hne. unfold restore_disk.
  assert (∀ always, works (λ f, f = fs) (cp always (from e) (tmp_name (to e))) (λ r f, r = Ok true ∧ f = <[tmp_name (to e) := EFile s]> fs)) as Hcp.
  { intros always. unfold cp. eapply (works_bind _ _ _ (λ r f, r = Ok tt ∧ f = <[tmp_name (to e) := EFile s]> fs)).
    - apply works_call. intros f ->. by rewrite (copy_free _ _ _ s).
    - intros r. apply works_ret. by intros f [-> ->]. }
  assert (∀ c, succeeds (λ f, f = <[tmp_name (to e) := EFile s]> fs) (orf c (rename (tmp_name (to e)) (to e))) (λ _ f, f = <[to e := EFile s]> fs)) as Hren.
  { intros c. apply succeeds_orf. intros f ->. eexists. split; [by apply tmp_roundtrip|done]. }
  destruct action; [done|..].
  - apply (succeeds_try _ _ _ (λ _ f, f = <[to e := EFile s]> fs)); [|intros x; by apply succeeds_ret].
    unfold copy_img_file_reflink. apply (succeeds_try _ _ _ (λ ok f, ok = true ∧ f = <[tmp_name (to e) := EFile s]> fs)).
    + unfold orf. eapply works_bind; [apply Hcp|]. intros r. apply works_ret. intros f [-> ->]. eauto.
    + intros []; [eapply succeeds_conseq; [apply Hren|by intros f []|done]|]. by intros d _ [? _].
  - apply (succeeds_try _ _ _ (λ _ f, f = <[to e := EFile s]> fs)); [|intros x; by apply succeeds_ret].
    unfold copy_img_file. eapply works_bind; [apply Hcp|]. intros r.
    apply (succeeds_try _ _ _ (λ _ f, f = <[tmp_name (to e) := EFile s]> fs)); [|intros x; apply Hren].
    destruct r as [[]|]; [apply succeeds_ret; by intros f []|by intros d _ [? _]..].
  - apply (succeeds_try _ _ _ (λ _ f, f = <[to e := ELink (from e)]> fs)); [|intros x; by apply succeeds_ret].
    apply succeeds_orf. intros f ->. unfold fs_symlink. rewrite Ht. eauto.
  - eapply (works_bind _ _ _ (λ r f, r = Ok tt ∧ f = <[to e := EFile s]> (delete (from e) fs))).
    + apply works_call. intros f ->. rewrite (rename_file _ _ _ s); [done|done|by rewrite Ht].
    + intros [[]|x]; [|by intros d _ [? _]]. apply works_ret. intros f [_ ->]. eauto.
Qed.

(** The state of the loop: [pre] has been placed, [l] has not. *)
Definition moved_away (action : RestoreBlockAction) (pre : list DiskImageEntry) (p : string) : Prop :=
  action = MovedExclusive ∧ p ∈ from <$> pre.
Record placing (action : RestoreBlockAction) (pre l : list DiskImageEntry) (fs0 fs : Fs) : Prop := mkPlacing {
  pl_agree : agree (λ p, p = cs_work_dir src ∨ p = base ∨ (∃ e, e ∈ pre ∧ p = to e) ∨ moved_away action pre p) fs0 fs;
  pl_ready : ∀ e s, e ∈ pre → fs0 !! from e = Some (EFile s) → reads s e fs;
  pl_base : dir_or_free fs base
}.

Context (fs0 : Fs) (Hfresh : fresh fs0) (Hcomp : complete fs0).

Lemma from_apart e p : e ∈ cs_disk_images src → new_file p → from e ≠ p.
Proof. intros He Hp <-. eapply (fr_apart _ Hfresh); [|exact Hp]. right. right. eauto. Qed.
Lemma to_new e : e ∈ cs_disk_images src → new_file (to e) ∧ new_file (tmp_name (to e)).
Proof. intros He. split; right; exists e; auto. Qed.
Lemma base_new : new_file base ∧ new_file (cs_work_dir src).
Proof. unfold new_file, scratch. set_solver. Qed.

(** Where the loop stands, and what that says about paths. *)
Section step.
Context (action : RestoreBlockAction) (pre l : list DiskImageEntry) (e : DiskImageEntry) (s : string).
Context (Himg : cs_disk_images src = pre ++ e :: l).

Lemma step_in x : x ∈ pre ∨ x = e → x ∈ cs_disk_images src.
Proof. rewrite Himg, elem_of_app, elem_of_cons. tauto. Qed.

Lemma step_diff x : x ∈ pre → from x ≠ from e ∧ to x ≠ to e.
Proof.
  intros Hx. pose proof (fr_from _ Hfresh) as Nf. pose proof (fr_to _ Hfresh) as Nt.
  rewrite Himg, fmap_app, fmap_cons in Nf, Nt. apply NoDup_app in Nf as (_ & Nf & _), Nt as (_ & Nt & _).
  split; intros E; [apply (Nf (from x))|apply (Nt (to x))]; try (by apply list_elem_of_fmap_2); rewrite E; by left.
Qed.

Lemma sandbox_not_dir p : sandbox_file src base p → p ≠ base ∧ p ≠ cs_work_dir src.
Proof. intros Hp%(fr_scratch _ Hfresh). unfold scratch in Hp. set_solver. Qed.

Lemma from_not_to x y : x ∈ cs_disk_images src → y ∈ cs_disk_images src → from x ≠ to y.
Proof. intros Hx Hy. apply from_apart; [done|]. by apply to_new. Qed.

Context (fs : Fs) (Hpl : placing action pre (e :: l) fs0 fs).

Lemma step_source : fs !! from e = fs0 !! from e.
Proof.
  assert (e ∈ cs_disk_images src) as He by (apply step_in; by right).
  apply (pl_agree _ _ _ _ _ Hpl). destruct base_new as [Bn Wn]. intros [E|[E|[(x & Hx & E)|(_ & Hx)]]].
  - by apply (from_apart e (cs_work_dir src)).
  - by apply (from_apart e base).
  - apply (from_not_to e x); [done|apply step_in; by left|done].
  - apply list_elem_of_fmap in Hx as (x & E & Hx). destruct (step_diff x Hx). congruence.
Qed.

Lemma step_free p : sandbox_file src base p → (∀ x, x ∈ pre → p ≠ to x) → fs !! p = None.
Proof.
  intros Hp Hx. rewrite (pl_agree _ _ _ _ _ Hpl); [apply (fr_free _ Hfresh); by right|].
  destruct (sandbox_not_dir p Hp). intros [E|[E|[(x & Hx' & E)|(_ & Hx')]]]; try done.
  - by apply (Hx x).
  - apply list_elem_of_fmap in Hx' as (x & -> & Hx'). apply (from_apart x (from x)); [apply step_in; by left|by right|done].
Qed.

Lemma step_target : fs !! to e = None ∧ fs !! tmp_name (to e) = None.
Proof.
  assert (e ∈ cs_disk_images src) as He by (apply step_in; by right). split; apply step_free; try (by exists e; auto).
  - intros x Hx E. by destruct (step_diff x Hx).
  - intros x Hx. apply (tmp_not_to src base (fr_base _ Hfresh) (fr_plain _ Hfresh)); [done|apply step_in; by left].
Qed.

Lemma placed_other p : p ≠ to e → p ≠ from e → disk_placed action e s fs !! p = fs !! p.
Proof.
  intros H1 H2. destruct action; simpl; [done|by rewrite lookup_insert_ne..|].
  by rewrite lookup_insert_ne, lookup_delete_ne.
Qed.

Lemma placed_agree : agree (λ p, p = to e ∨ moved_away action [e] p) fs (disk_placed action e s fs).
Proof.
  intros p Hp. unfold moved_away in Hp. rewrite list_fmap_singleton, list_elem_of_singleton in Hp.
  destruct action; simpl; [done|rewrite lookup_insert_ne; [done|intros <-; tauto]..|].
  rewrite lookup_insert_ne, lookup_delete_ne; [done|intros <-; tauto..].
Qed.

Lemma step_placing : fs0 !! from e = Some (EFile s) → action ≠ NoBlockAction → placing action (pre ++ [e]) l fs0 (disk_placed action e s fs).
Proof.
  intros Hs Hact. assert (e ∈ cs_disk_images src) as He by (apply step_in; by right). split.
  - transitivity fs; [eapply agree_mono; [|apply (pl_agree _ _ _ _ _ Hpl)]|eapply agree_mono; [|apply placed_agree]].
    + unfold moved_away. rewrite fmap_app. set_solver.
    + unfold moved_away. rewrite fmap_app. set_solver.
  - intros x s' Hx Hs'. apply elem_of_app in Hx as [Hx|Hx%list_elem_of_singleton].
    + destruct (step_diff x Hx). assert (x ∈ cs_disk_images src) as Hxi by (apply step_in; by left).
      pose proof (not_eq_sym (from_not_to e x He Hxi)). pose proof (from_not_to x e Hxi He).
      destruct (pl_ready _ _ _ _ _ Hpl x s' Hx Hs') as [R|[R1 R2]]; [left|right]; rewrite !placed_other; auto.
    + subst x. rewrite Hs in Hs'. injection Hs' as <-. unfold reads. pose proof step_source as Hsrc. pose proof (not_eq_sym (from_not_to e e He He)) as Hnt.
      destruct action; simpl; [done|left; by rewrite lookup_insert_eq..| |left; by rewrite lookup_insert_eq].
      right. rewrite lookup_insert_eq, lookup_insert_ne by done. split; [done|]. by rewrite Hsrc.
  - assert (disk_placed action e s fs !! base = fs !! base) as Eb.
    { apply placed_other; [|apply not_eq_sym, from_apart; [done|apply base_new]].
      destruct (sandbox_not_dir (to e)) as [? _]; [exists e; auto|]. by apply not_eq_sym. }
    unfold dir_or_free. rewrite Eb. apply (pl_base _ _ _ _ _ Hpl).
Qed.
End step.

(** The loop over the disks. *)
Lemma place_all action l : action ≠ NoBlockAction → ∀ pre remaps paths moves, cs_disk_images src = pre ++ l →
  succeeds (placing action pre l fs0) (restore_disks action src base l remaps paths moves)
    (λ a fs, ra_disk_remaps a = remaps ++ remaps_of base l ∧ placing action (pre ++ l) [] fs0 fs).
Proof.
  intros Hact. induction l as [|e l IH]; intros pre remaps paths moves Himg; simpl.
  { apply succeeds_ret. intros fs Hfs. simpl. by rewrite !app_nil_r. }
  assert (e ∈ cs_disk_images src) as He by (rewrite Himg; apply elem_of_app; right; by left).
  destruct (cm_images _ Hcomp e He) as [s Hs].
  apply (succeeds_try _ _ _ (λ _ fs, placing action (pre ++ [e]) l fs0 fs)).
  - intros d Ho Hd. destruct (step_target _ _ _ _ Himg _ Hd) as [T1 T2].
    destruct (place_works action e moves (dr_fs d) s Hact) with (d := d) as (r & d' & E & O & V & m & -> & Em); try done.
    + by rewrite (step_source _ _ _ _ Himg _ Hd).
    + by apply (tmp_not_to src base (fr_base _ Hfresh) (fr_plain _ Hfresh)).
    + exists (Ok m), d'. split; [done|]. split; [done|]. split; [done|]. exists m. split; [done|]. rewrite Em.
      by eapply step_placing.
  - intros m. eapply succeeds_conseq; [apply (IH (pre ++ [e])); by rewrite <- app_assoc|done|].
    intros a fs [Ra Pa]. rewrite Ra, <- !app_assoc in *. done.
Qed.

Lemma dirs_ok : succeeds (λ fs, fs = fs0) (orf (CMkdir (cs_work_dir src)) (create_dir (cs_work_dir src)))
  (λ _ fs, placing (restore_action src) [] (cs_disk_images src) fs0 fs).
Proof.
  apply succeeds_orf. intros fs ->. destruct (mkdir_ok fs0 (cs_work_dir src) (fr_work_dir _ Hfresh)) as [-> | ->];
    (eexists; split; [reflexivity|]); split; try (by intros e s ?%elem_of_nil).
  - done.
  - apply (fr_base_dir _ Hfresh).
  - apply agree_insert. by left.
  - destruct (decide (base = cs_work_dir src)) as [E|Hne]; [right; by rewrite E, lookup_insert_eq|].
    unfold dir_or_free. rewrite lookup_insert_ne by done. apply (fr_base_dir _ Hfresh).
Qed.

Lemma blocks_ok : succeeds (placing (restore_action src) [] (cs_disk_images src) fs0) (prepare_restore_block_artifacts src base)
  (λ a fs, ra_disk_remaps a = remaps_of base (cs_disk_images src) ∧ placing (restore_action src) (cs_disk_images src) [] fs0 fs).
Proof.
  unfold prepare_restore_block_artifacts. case_bool_decide as Hnil; [apply succeeds_ret; by rewrite Hnil|].
  apply (succeeds_try _ _ _ (λ _, placing (restore_action src) [] (cs_disk_images src) fs0)).
  - apply succeeds_orf. intros fs [Hag Hre Hb]. destruct (mkdir_ok fs base Hb) as [-> | ->];
      (eexists; split; [reflexivity|]); [by split|]. split; [|by intros e s ?%elem_of_nil|right; by rewrite lookup_insert_eq].
    transitivity fs; [done|]. apply agree_insert. by right; left.
  - intros _. apply (place_all (restore_action src) (cs_disk_images src)); [|done].
    unfold restore_action. by repeat case_match.
Qed.

(** Template files other than images stay in place. *)
Lemma placing_template action fs p : placing action (cs_disk_images src) [] fs0 fs →
  p = S "config.json" ∨ (∃ a, a ∈ artifacts ∧ p = S a) → fs !! p = fs0 !! p.
Proof.
  intros Hpl Hp. apply (pl_agree _ _ _ _ _ Hpl). assert (template_file p) as Ht by (destruct Hp; [by left|by right; left]).
  pose proof (fr_apart _ Hfresh p Ht) as Hn. destruct base_new as [Bn Wn].
  intros [->|[->|[(x & Hx & ->)|(_ & Hx)]]]; [done|done|destruct (to_new x Hx); done|].
  apply list_elem_of_fmap in Hx as (x & E & Hx). destruct (fr_images _ Hfresh x p Hx E) as [H1 H2].
  destruct Hp as [|(a & Ha & Ep)]; [done|]. by apply (H2 a).
Qed.

Lemma placing_prepared action fs : placing action (cs_disk_images src) [] fs0 fs → prepared fs0 fs.
Proof.
  intros Hpl. split.
  - apply (placing_template _ _ _ Hpl). by left.
  - intros a Ha. apply (placing_template _ _ _ Hpl). right. eauto.
  - intros p Hp. rewrite (pl_agree _ _ _ _ _ Hpl); [apply (fr_free _ Hfresh); by left|].
    assert (scratch src base api_sock p) as Hsc by (unfold scratch; set_solver). destruct (fr_dirs _ Hfresh) as [Hb Hw].
    intros [->|[->|[(x & Hx & ->)|(_ & Hx)]]]; [done|done| |].
    + eapply (fr_scratch _ Hfresh); [|exact Hsc]. exists x. auto.
    + apply list_elem_of_fmap in Hx as (x & -> & Hx). apply (from_apart x (from x)); [done|by left|done].
  - apply (pl_base _ _ _ _ _ Hpl).
  - intros e s He Hs. by apply (pl_ready _ _ _ _ _ Hpl).
Qed.

(** ** The configuration *)
Lemma read_ok (P : Fs → Prop) p s : (∀ fs, P fs → fs !! p = Some (EFile s)) →
  succeeds P (read_to_string p) (λ x fs, x = s ∧ P fs).
Proof.
  intros HP d Ho Hd. pose proof (read_file _ _ _ (HP _ Hd)) as Hr. unfold read_to_string. rewrite bind_run. simpl.
  assert (succeeds P (orf (CRead p) (fs_call (CRead p) (λ fs, match fs_read fs p with Some _ => Ok fs | None => Err FsNotFound end) harmless)) (λ _, P)) as Hc.
  { apply succeeds_orf. intros fs Hfs. rewrite (read_file _ _ _ (HP _ Hfs)). eauto. }
  destruct (Hc d Ho Hd) as (r & d' & E & O & V & u & -> & HP'). rewrite bind_run, E, Hr.
  exists (Ok s), d'. eauto 10.
Qed.

Lemma parse_ok : succeeds (prepared fs0) (parse_file (S "config.json")) (λ c fs, c = cfg ∧ prepared fs0 fs).
Proof.
  destruct (cm_config _ Hcomp) as (s & Hs & Hp). unfold parse_file.
  apply (succeeds_try _ _ _ (λ x fs, x = s ∧ prepared fs0 fs)).
  - apply read_ok. intros fs Hfs. by rewrite (pr_config _ _ Hfs).
  - intros x. apply works_ret. intros fs [-> Hfs]. rewrite Hp. eauto.
Qed.

Lemma validate_ok : succeeds (prepared fs0) (validate_snapshot_config (S "config.json") (cs_snapshot_type src)) (λ _, prepared fs0).
Proof.
  unfold validate_snapshot_config. apply (succeeds_try _ _ _ _ _ parse_ok). intros c. apply works_ret.
  intros fs [-> Hfs]. rewrite (cm_valid _ Hcomp). eauto.
Qed.

(** The state after the configuration is written, with some of the memory
    artifacts linked. *)
Record configured (cfg' : JValue) (linked : list string) (fs : Fs) : Prop := mkConfigured {
  cf_config : fs !! new_config src = Some (EFile (json_print cfg'));
  cf_memory : ∀ a, a ∈ artifacts → fs !! S a = fs0 !! S a;
  cf_linked : ∀ a, a ∈ linked → a ∈ artifacts ∧ fs !! W a = Some (ELink (S a));
  cf_free : ∀ a, a ∈ artifacts → a ∉ linked → fs !! W a = None;
  cf_base : dir_or_free fs base;
  cf_images : images_ready fs0 fs
}.

(** Scratch files are neither images nor memory of the template. *)
Lemma scratch_apart p : scratch src base api_sock p →
  (∀ a, a ∈ artifacts → S a ≠ p) ∧ (∀ e, e ∈ cs_disk_images src → to e ≠ p ∧ from e ≠ p).
Proof.
  intros Hp. split; [intros a Ha <-|intros e He; split; intros <-].
  - eapply (fr_apart _ Hfresh); [|left; exact Hp]. right. left. eauto.
  - eapply (fr_scratch _ Hfresh); [|exact Hp]. exists e. auto.
  - eapply (fr_apart _ Hfresh); [|left; exact Hp]. right. right. eauto.
Qed.

Lemma images_insert fs p x : scratch src base api_sock p → images_ready fs0 fs → images_ready fs0 (<[p := x]> fs).
Proof.
  intros [_ Hp]%scratch_apart Hi e s He Hs. destruct (Hp e He).
  destruct (Hi e s He Hs) as [R|[R1 R2]]; [left|right]; rewrite !lookup_insert_ne; auto.
Qed.
Lemma images_delete fs p : scratch src base api_sock p → images_ready fs0 fs → images_ready fs0 (delete p fs).
Proof.
  intros [_ Hp]%scratch_apart Hi e s He Hs. destruct (Hp e He).
  destruct (Hi e s He Hs) as [R|[R1 R2]]; [left|right]; rewrite !lookup_delete_ne; auto.
Qed.

Lemma config_paths : tmp_config src ≠ new_config src ∧ base ≠ tmp_config src ∧ base ≠ new_config src ∧
  ∀ a, a ∈ artifacts → W a ≠ tmp_config src ∧ W a ≠ new_config src ∧ W a ≠ base.
Proof.
  destruct (fr_dirs _ Hfresh) as [Hb _]. pose proof (fr_work _ Hfresh) as Hw. split; [by intros E%join_plain_inj|].
  split; [set_solver|]. split; [set_solver|]. intros a Ha. destruct (artifact_plain src Hw _ _ Ha) as (_ & H1 & H2).
  split; [by apply (pin_not_config src Hw)|]. split; [by apply (pin_not_config src Hw)|]. intros E. apply Hb. rewrite <- E.
  apply elem_of_app. right. by apply list_elem_of_fmap_2.
Qed.

Lemma patch_ok cfg' : patch_config cfg (cs_overrides src) (remaps_of base (cs_disk_images src)) = Ok cfg' →
  succeeds (prepared fs0)
    (patch_snapshot_config (S "config.json") (new_config src) (cs_overrides src) (remaps_of base (cs_disk_images src)))
    (λ _ fs, configured cfg' [] fs).
Proof.
  intros Hpatch. unfold patch_snapshot_config. apply (succeeds_try _ _ _ _ _ parse_ok). intros c.
  intros d Ho [-> Hd]. rewrite Hpatch. revert d Ho Hd.
  change (succeeds (prepared fs0) (fs_write_file_atomic (new_config src) (json_print cfg')) (λ _ fs, configured cfg' [] fs)).
  destruct config_paths as (N1 & N2 & N3 & N4).
  assert (scratch src base api_sock (tmp_config src) ∧ scratch src base api_sock (new_config src)) as [S1 S2] by (unfold scratch; set_solver).
  unfold fs_write_file_atomic, new_config. rewrite file_name_join, parent_join by (try done; apply (fr_work _ Hfresh)).
  fold (new_config src). change (path_join (cs_work_dir src) ("." +:+ "config.json")) with (tmp_config src).
  apply (succeeds_try _ _ _ (λ _ fs, ∃ fs1, prepared fs0 fs1 ∧ fs = <[tmp_config src := EFile (json_print cfg')]> fs1)).
  - apply succeeds_orf. intros fs Hfs. unfold overwrite. rewrite write_free by (apply (pr_free _ _ Hfs); set_solver). eauto.
  - intros _. apply succeeds_orf. intros fs (fs1 & [Hc Hm Hf Hb Hi] & ->). eexists.
    split; [apply tmp_roundtrip; [apply Hf; set_solver..|done]|]. split.
    + by rewrite lookup_insert_eq.
    + intros a Ha. rewrite lookup_insert_ne by (apply not_eq_sym; by apply (proj1 (scratch_apart _ S2))). by apply Hm.
    + by intros a ?%elem_of_nil.
    + intros a Ha _. destruct (N4 a Ha) as (_ & ? & _). rewrite lookup_insert_ne by done. apply Hf.
      apply elem_of_app. right. by apply list_elem_of_fmap_2.
    + unfold dir_or_free. by rewrite lookup_insert_ne.
    + by apply images_insert.
Qed.

(** ** The memory *)
Lemma link_step cfg' a linked fs : a ∈ artifacts → a ∉ linked → configured cfg' linked fs →
  configured cfg' (a :: linked) (<[W a := ELink (S a)]> fs).
Proof.
  intros Ha Hn [Hc Hm Hl Hf Hb Hi]. destruct config_paths as (N1 & N2 & N3 & N4). destruct (N4 a Ha) as (P1 & P2 & P3).
  pose proof (scratch_pin src base api_sock a Ha) as Hs. pose proof (proj1 (scratch_apart _ Hs)) as HS.
  assert (∀ b, b ∈ artifacts → b ≠ a → W b ≠ W a) as Hinj.
  { intros b Hb' Hne E. apply join_plain_inj in E; [done|apply (fr_work _ Hfresh)|by apply (artifact_plain src (fr_work _ Hfresh)) in Hb' as (? & _)|by apply (artifact_plain src (fr_work _ Hfresh)) in Ha as (? & _)]. }
  split.
  - by rewrite lookup_insert_ne.
  - intros b Hb'. rewrite lookup_insert_ne by (apply not_eq_sym; by apply HS). by apply Hm.
  - intros b Hb'. destruct (decide (b = a)) as [->|Hne]; [by rewrite lookup_insert_eq|].
    apply elem_of_cons in Hb' as [?|Hb']; [done|]. destruct (Hl b Hb') as [Hba Hbl]. split; [done|].
    rewrite lookup_insert_ne by (apply not_eq_sym; auto). done.
  - intros b Hb' Hn'. apply not_elem_of_cons in Hn' as [Hne Hn']. rewrite lookup_insert_ne by (apply not_eq_sym; auto). by apply Hf.
  - unfold dir_or_free. by rewrite lookup_insert_ne.
  - by apply images_insert.
Qed.

Lemma pin_step cfg' a linked : a ∈ artifacts →
  succeeds (configured cfg' linked) (symlink_idempotent (S a) (W a)) (λ _, configured cfg' (a :: linked)).
Proof.
  intros Ha. unfold symlink_idempotent.
  apply (works_bind _ _ _ (λ r fs, (r = Ok tt ∨ r = Err FsExists) ∧ configured cfg' (a :: linked) fs)).
  - apply works_call. intros fs Hfs. unfold fs_symlink. destruct (decide (a ∈ linked)) as [Hin|Hn].
    + destruct (cf_linked _ _ _ Hfs a Hin) as [_ ->]. split; [by right|]. destruct Hfs as [Hc Hm Hl Hf Hb Hi]. split; try done.
      * intros b [->|Hb']%elem_of_cons; by apply Hl.
      * intros b Hb' [_ Hn']%not_elem_of_cons. by apply Hf.
    + rewrite (cf_free _ _ _ Hfs a Ha Hn). split; [by left|]. by apply link_step.
  - intros r. apply works_ret. intros fs [[-> | ->] Hfs]; eauto.
Qed.

Lemma pin_all cfg' l : (∀ a, a ∈ l → a ∈ artifacts) → ∀ linked,
  succeeds (configured cfg' linked) (pin_artifacts src l) (λ _ fs, ∃ k, configured cfg' k fs ∧ ∀ a, a ∈ l ∨ a ∈ linked → a ∈ k).
Proof.
  intros Hl. induction l as [|a l IH]; intros linked; simpl.
  { apply succeeds_ret. intros fs Hfs. exists linked. split; [done|]. by intros a [?%elem_of_nil|?]. }
  assert (a ∈ artifacts) as Ha by (apply Hl; by left).
  apply (succeeds_try _ _ _ (λ _, configured cfg' linked)).
  { apply succeeds_orf. intros fs Hfs. destruct (cm_memory _ Hcomp a Ha) as [s Hs]. rewrite <- (cf_memory _ _ _ Hfs a Ha) in Hs.
    unfold present. rewrite entry_no_link by (by eapply no_link_file). rewrite (Hs : fs !! path_join _ a = _). eauto. }
  intros _. apply (succeeds_try _ _ _ _ _ (pin_step cfg' a linked Ha)). intros _.
  eapply succeeds_conseq; [apply (IH (λ b Hb, Hl b (list_elem_of_further _ _ _ Hb)) (a :: linked))|done|].
  intros _ fs (k & Hk & Hin). exists k. split; [done|]. intros b Hb. apply Hin. rewrite elem_of_cons in *. tauto.
Qed.

(** Every artifact is linked. *)
Definition memory_pinned (cfg' : JValue) (fs : Fs) : Prop := ∃ k, configured cfg' k fs ∧ ∀ a, a ∈ artifacts → a ∈ k.

Lemma memory_ok cfg' : succeeds (configured cfg' []) (prepare_memory_backend src)
  (λ mem fs, mem = mkPrepared ("file://" +:+ cs_work_dir src) (cs_memory_restore_mode src) ∧ memory_pinned cfg' fs).
Proof.
  unfold prepare_memory_backend. apply (succeeds_try _ _ _ _ _ (pin_all cfg' _ (λ a Ha, Ha) [])). intros _.
  apply succeeds_ret. intros fs (k & Hk & Hin). split; [done|]. exists k. split; [done|]. intros a Ha. apply Hin. by left.
Qed.

(** ** The VMM *)
Lemma pinned_mkdir cfg' fs : memory_pinned cfg' fs → memory_pinned cfg' (<[base := EDir]> fs).
Proof.
  intros (k & [Hc Hm Hl Hf Hb Hi] & Hk). exists k. split; [|done].
  destruct config_paths as (N1 & N2 & N3 & N4). assert (scratch src base api_sock base) as Hs by (unfold scratch; set_solver).
  pose proof (proj1 (scratch_apart _ Hs)) as HS. split.
  - by rewrite lookup_insert_ne.
  - intros a Ha. rewrite lookup_insert_ne by (apply not_eq_sym; auto). auto.
  - intros a Ha. destruct (Hl a Ha) as [Ha' ?]. rewrite lookup_insert_ne by (apply not_eq_sym; by apply N4). done.
  - intros a Ha ?. rewrite lookup_insert_ne by (apply not_eq_sym; by apply N4). auto.
  - right. by rewrite lookup_insert_eq.
  - by apply images_insert.
Qed.

Lemma pinned_remove cfg' fs : memory_pinned cfg' fs → memory_pinned cfg' (delete api_sock fs).
Proof.
  intros (k & [Hc Hm Hl Hf Hb Hi] & Hk). exists k. split; [|done]. pose proof (fr_socket _ Hfresh) as Hso.
  assert (scratch src base api_sock api_sock) as Hs by (unfold scratch; set_solver).
  pose proof (proj1 (scratch_apart _ Hs)) as HS. split.
  - rewrite lookup_delete_ne; [done|]. set_solver.
  - intros a Ha. rewrite lookup_delete_ne by (apply not_eq_sym; auto). auto.
  - intros a Ha. destruct (Hl a Ha) as [Ha' ?]. split; [done|]. rewrite lookup_delete_ne; [done|].
    intros ->. apply Hso, elem_of_app. right. by apply list_elem_of_fmap_2.
  - intros a Ha ?. apply lookup_delete_None. right. auto.
  - unfold dir_or_free. destruct (decide (api_sock = base)) as [Eb|?]; [left; rewrite Eb; apply lookup_delete_eq|].
    by rewrite lookup_delete_ne.
  - by apply images_delete.
Qed.

(** A VMM without a guest, its client connected. *)
Definition launched (d d' : Driver) : Prop :=
  dr_procs d' = <[dr_next_pid d := NoGuest]> (dr_procs d) ∧ vm_client (dr_vm d') = Some (dr_next_pid d) ∧
  vmm_pid_of d' = Some (dr_next_pid d) ∧ dr_guest d' = dr_guest d.

Lemma spawn_ok cmd args fds st d : dr_outs d = [] → ∃ d', spawn cmd args fds st d = Some (Ok (dr_next_pid d), d') ∧
  dr_outs d' = [] ∧ dr_procs d' = <[dr_next_pid d := st]> (dr_procs d) ∧ dr_fs d' = dr_fs d ∧ dr_guest d' = dr_guest d ∧ dr_vm d' = dr_vm d.
Proof. intros Ho. unfold spawn, next_outcome. rewrite bind_run, Ho. eexists. split; [reflexivity|]. done. Qed.

Lemma adopt_ok pid d : dr_outs d = [] → dr_procs d !! pid = Some NoGuest → ∃ d', adopt_vmm pid d = Some (Ok tt, d') ∧
  dr_outs d' = [] ∧ dr_procs d' = dr_procs d ∧ dr_fs d' = dr_fs d ∧ dr_guest d' = dr_guest d ∧
  vm_client (dr_vm d') = Some pid ∧ vmm_pid_of d' = Some pid.
Proof.
  destruct d as [v fs pr np tr outs g]. simpl. intros -> Hp.
  unfold adopt_vmm, create_client, listening, vmm_pid_of, log_call, gets, modify, mret, M_ret, mbind, M_bind. simpl. rewrite Hp. simpl.
  eexists. split; [reflexivity|]. done.
Qed.

Lemma launch_ok cfg' d : dr_outs d = [] → for_vm base api_sock d → memory_pinned cfg' (dr_fs d) →
  ∃ d', launch_for_restore d = Some (Ok tt, d') ∧ dr_outs d' = [] ∧ launched d d' ∧ memory_pinned cfg' (dr_fs d').
Proof.
  intros Ho [Hb Ha] Hd. unfold launch_for_restore. rewrite bind_run. simpl. rewrite Hb, Ha.
  assert (succeeds (memory_pinned cfg') (orf (CMkdir base) (create_dir base)) (λ _, memory_pinned cfg')) as Hmk.
  { apply succeeds_orf. intros fs Hfs. destruct Hfs as (k & Hk & Hin) eqn:E. clear E.
    destruct (mkdir_ok fs base (cf_base _ _ _ Hk)) as [-> | ->]; eexists; (split; [done|]); [by exists k|apply pinned_mkdir; by exists k]. }
  assert (works (memory_pinned cfg') (forget_error (remove_file api_sock)) (λ _, memory_pinned cfg')) as Hrm.
  { apply works_forget. intros fs Hfs. destruct (remove_cases fs api_sock) as [-> |[e ->]]; [by apply pinned_remove|done]. }
  destruct (Hmk d Ho Hd) as (r1 & d1 & E1 & O1 & (V1 & P1 & N1 & G1) & [] & -> & Hd1). rewrite bind_run, E1.
  destruct (Hrm d1 O1 Hd1) as (u & d2 & E2 & O2 & (V2 & P2 & N2 & G2) & Hd2). rewrite bind_run, E2, bind_run.
  destruct (spawn_ok (cc_path (vm_config (dr_vm d))) ("--api-socket" :: api_sock :: (if cc_debug (vm_config (dr_vm d)) then ["-vv"] else [])) [] NoGuest d2 O2)
    as (d3 & E3 & O3 & P3 & F3 & G3 & V3). rewrite E3, N2, N1.
  destruct (adopt_ok (dr_next_pid d) d3 O3) as (d4 & E4 & O4 & P4 & F4 & G4 & C4 & I4).
  { by rewrite P3, N2, N1, lookup_insert_eq. }
  exists d4. split; [exact E4|]. split; [done|]. rewrite F4, F3. split; [|done]. unfold launched.
  rewrite P4, P3, P2, P1, N2, N1, G4, G3, G2, G1. done.
Qed.

(** ** The guest *)
Lemma pinned_read cfg' fs a s : memory_pinned cfg' fs → a ∈ artifacts → fs0 !! S a = Some (EFile s) → fs_read fs (W a) = Some s.
Proof.
  intros (k & Hk & Hin) Ha Hs. destruct (cf_linked _ _ _ Hk a (Hin a Ha)) as [_ Hl]. rewrite <- (cf_memory _ _ _ Hk a Ha) in Hs.
  unfold fs_read, entry_at, resolve. change MAX_LINKS with (Datatypes.S 39). rewrite (follow_link _ _ _ _ Hl).
  rewrite absolute_join by apply (cm_absolute _ Hcomp). rewrite follow_file by (intros t; by rewrite Hs). simpl. by rewrite Hs.
Qed.

Lemma restore_effect cfg' fs mode : memory_pinned cfg' fs → json_wf cfg' →
  api_effect sf (ApiRestore ("file://" +:+ cs_work_dir src) mode) NoGuest fs = Some (GuestPaused (config_disks cfg'), fs).
Proof.
  intros Hp Hwf. assert ("memory-ranges" ∈ artifacts ∧ "state.json" ∈ artifacts) as [A1 A2].
  { unfold artifacts, memory_artifacts_for_mode. set_solver. }
  destruct (cm_memory _ Hcomp _ A1) as [s1 H1], (cm_memory _ Hcomp _ A2) as [s2 H2]. unfold api_effect.
  assert (url_dir ("file://" +:+ cs_work_dir src) = cs_work_dir src) as -> by (unfold url_dir; by rewrite strip_prefix_app).
  change (path_join (cs_work_dir src) "memory-ranges") with (W "memory-ranges").
  change (path_join (cs_work_dir src) "state.json") with (W "state.json").
  rewrite (pinned_read _ _ _ _ Hp A1 H1), (pinned_read _ _ _ _ Hp A2 H2). simpl. destruct Hp as (k & Hk & _).
  change (path_join (cs_work_dir src) "config.json") with (new_config src).
  rewrite (read_file _ _ _ (cf_config _ _ _ Hk)). simpl. rewrite json_roundtrip by done. done.
Qed.

Lemma api_ok pid r st e d : dr_outs d = [] → dr_procs d !! pid = Some st → api_effect sf r st (dr_fs d) = Some e →
  api sf pid r d = Some (Ok tt, mkDriver (dr_vm d) e.2 (<[pid := e.1]> (dr_procs d)) (dr_next_pid d)
    (dr_trace d ++ [(CApi pid r, true)]) [] (dr_guest d)).
Proof.
  destruct d as [v fs pr np tr outs g]. simpl. intros -> Hp He.
  unfold api, apply_effect, next_outcome, log_call, gets, modify, mret, M_ret, mbind, M_bind. simpl. rewrite Hp. simpl. by rewrite He.
Qed.

Lemma resume_ok cfg' pid mode d : dr_outs d = [] → dr_procs d !! pid = Some NoGuest → vm_client (dr_vm d) = Some pid →
  vmm_pid_of d = Some pid → memory_pinned cfg' (dr_fs d) → json_wf cfg' →
  ∃ d', resume_guest sf (mkPrepared ("file://" +:+ cs_work_dir src) mode) d = Some (Ok tt, d') ∧
    dr_procs d' !! pid = Some (GuestRunning (config_disks cfg')) ∧ dr_vm d' = dr_vm d ∧
    dr_fs d' = foldl (guest_write (config_disks cfg')) (dr_fs d) (dr_guest d).
Proof.
  intros Ho Hp Hc Hv Hpin Hwf. pose proof (restore_effect cfg' (dr_fs d) mode Hpin Hwf) as He. revert He.
  generalize ("file://" +:+ cs_work_dir src). intros url He. unfold resume_guest. rewrite bind_run, bind_run. unfold get_client. rewrite bind_run. simpl. rewrite Hc. simpl.
  rewrite bind_run, (api_ok _ _ _ _ _ Ho Hp He). rewrite (api_ok pid ApiResume (GuestPaused (config_disks cfg')) (GuestRunning (config_disks cfg'), dr_fs d));
    [|done|simpl; by rewrite lookup_insert_eq|done].
  unfold wait_agent_ready, guest_runs, log_call, gets, modify, mret, M_ret, mbind, M_bind, vmm_pid_of in *. simpl.
  rewrite Hv. simpl. rewrite lookup_insert_eq. simpl. eexists. split; [reflexivity|]. simpl. by rewrite lookup_insert_eq.
Qed.
End works.

(** ** Well-formed documents stay well-formed *)
Section json.
Context `{JsonCodec}.

Lemma wf_arr l : json_wf (JArr l) ↔ ∀ v, v ∈ l → json_wf v.
Proof.
  simpl. induction l as [|x l IH]; simpl; [set_solver|]. rewrite IH. split; [|set_solver].
  intros [? ?] v [->|?]%elem_of_cons; auto.
Qed.
Lemma wf_obj m : json_wf (JObj m) ↔ NoDup m.*1 ∧ ∀ k v, (k, v) ∈ m → json_wf v.
Proof.
  simpl. assert (foldr (λ p P, json_wf p.2 ∧ P) True m ↔ ∀ k v, (k, v) ∈ m → json_wf v) as ->; [|done].
  induction m as [|[k x] m IH]; simpl; [set_solver|]. rewrite IH. split.
  - intros [? ?] k' v [[= -> ->]|?]%elem_of_cons; eauto.
  - intros Hm. split; [apply (Hm k); by left|]. intros k' v ?. apply (Hm k'). by right.
Qed.

Lemma assoc_set_keys {A} k (v : A) m : NoDup m.*1 → NoDup (assoc_set k v m).*1 ∧ ∀ k', k' ∈ (assoc_set k v m).*1 → k' = k ∨ k' ∈ m.*1.
Proof.
  induction m as [|[k1 w] m IH]; simpl; [intros _; split; [by apply NoDup_singleton|set_solver]|].
  intros [Hk Hm]%NoDup_cons. destruct (IH Hm) as [I1 I2]. case_decide as E; simpl.
  - rewrite E. split; [by constructor|set_solver].
  - split; [constructor; [|done]|set_solver]. intros [?|?]%I2; [congruence|done].
Qed.
Lemma assoc_set_elem {A} k (v : A) m k' x : (k', x) ∈ assoc_set k v m → x = v ∨ (k', x) ∈ m.
Proof. induction m as [|[k1 w] m IH]; simpl; [set_solver|]. case_decide; simpl; set_solver. Qed.

Lemma wf_set v k x : json_wf v → json_wf x → json_wf (jset v k x).
Proof.
  destruct v as [| | | | |m]; try done. rewrite wf_obj. intros [Hk Hm] Hx. apply wf_obj.
  destruct (assoc_set_keys k x m Hk) as [? _]. split; [done|]. intros k' y [->|?]%assoc_set_elem; eauto.
Qed.
Lemma wf_get v k x : json_wf v → jget v k = Some x → json_wf x.
Proof. destruct v as [| | | | |m]; try done. rewrite wf_obj. intros [_ Hm] E%assoc_elem. eauto. Qed.

Lemma wf_pointer_set v a b x v' : json_wf v → json_wf x → pointer_set v a b x = Some v' → json_wf v'.
Proof.
  intros Hv Hx. unfold pointer_set. destruct (jget v a) as [w|] eqn:Ea; simpl; [|done]. destruct (jget w b); simpl; [|done].
  intros [= <-]. apply wf_set; [done|]. apply wf_set; [eapply wf_get; [exact Hv|exact Ea]|done].
Qed.

Lemma wf_patch cfg ov remaps cfg' : json_wf cfg → patch_config cfg ov remaps = Ok cfg' → json_wf cfg'.
Proof.
  intros Hc (c1 & c2 & E1 & -> & ->)%patch_config_inv. apply wf_pointer_set in E1; [|done|done].
  assert (json_wf (default c1 (pointer_set c1 "console" "file" (JStr (ov_console_path ov))))) as Hc2.
  { destruct (pointer_set c1 "console" _ _) eqn:E2; [|done]. simpl. by apply (wf_pointer_set _ _ _ _ _ E1) in E2. }
  revert Hc2. generalize (default c1 (pointer_set c1 "console" "file" (JStr (ov_console_path ov)))). intros c Hcc.
  unfold patch_disks. destruct (jget c "disks") as [x|] eqn:Ed; [|done]. case_bool_decide; [by apply wf_set|].
  destruct x as [| | | |l|]; try done. apply wf_set; [done|]. apply wf_arr. intros v (d & Hd & Hr)%list_elem_of_omap.
  apply remap_disk_spec in Hr as (i & p & _ & _ & ->). apply wf_set; [|done]. by apply (proj1 (wf_arr l) (wf_get _ _ _ Hcc Ed)).
Qed.
End json.

(** The disks of a patched configuration are the remapped ones. *)
Lemma config_disks_remapped cfg ov remaps cfg' i p : patch_config cfg ov remaps = Ok cfg' →
  (i, p) ∈ config_disks cfg' → (i, p) ∈ remaps.
Proof.
  intros (c1 & c2 & _ & _ & ->)%patch_config_inv. unfold config_disks, patch_disks.
  destruct (jget c2 "disks") as [x|] eqn:Ed; [|rewrite Ed; set_solver]. destruct (jget_is_obj _ _ _ Ed) as [m ->].
  case_bool_decide; [rewrite jget_set_obj; set_solver|]. destruct x as [| | | |l|]; try (rewrite Ed; set_solver).
  rewrite jget_set_obj. intros (v & (d & Hd & Hr)%list_elem_of_omap & He)%list_elem_of_omap.
  apply remap_disk_remapped in Hr as (j & q & Hj & Hq & Hp & Ho). unfold disk_entry in He.
  rewrite (Ho "id"), Hj, Hp in He by done. simpl in He. injection He as <- <-. by apply assoc_elem.
Qed.

Section restore_works.
Context `{JsonLaws} (sf : list (string * string) → list (string * string)) (src : ChRestoreSource) (base api_sock : string).
Context (cfg cfg' : JValue) (fs0 : Fs) (Hfresh : fresh src base api_sock fs0) (Hcomp : complete src cfg fs0).
Context (Hpatch : patch_config cfg (cs_overrides src) (remaps_of base (cs_disk_images src)) = Ok cfg').

Lemma complete_wf : json_wf cfg'.
Proof.
  destruct (cm_config _ _ _ Hcomp) as (s & _ & Hs). eapply wf_patch; [|exact Hpatch]. by eapply json_parse_wf.
Qed.

(** Steps 2 to 4 *)
Lemma vmm_ok d : dr_outs d = [] → for_vm base api_sock d → prepared src base fs0 (dr_fs d) →
  ∃ d', prepare_vmm src (remaps_of base (cs_disk_images src)) d =
      Some (Ok (mkPrepared ("file://" +:+ cs_work_dir src) (cs_memory_restore_mode src)), d') ∧
    dr_outs d' = [] ∧ launched d d' ∧ memory_pinned src base fs0 cfg' (dr_fs d').
Proof.
  intros Ho Hv Hd. unfold prepare_vmm.
  destruct (validate_ok src base cfg fs0 Hcomp d Ho Hd) as (r1 & d1 & E1 & O1 & (V1 & P1 & N1 & G1) & [] & -> & Hd1).
  rewrite bind_run, E1.
  destruct (patch_ok src base api_sock cfg fs0 Hfresh Hcomp cfg' Hpatch d1 O1 Hd1) as (r2 & d2 & E2 & O2 & (V2 & P2 & N2 & G2) & [] & -> & Hd2).
  rewrite bind_run. unfold new_config in E2. rewrite E2.
  destruct (memory_ok src base api_sock cfg fs0 Hfresh Hcomp cfg' d2 O2 Hd2) as (r3 & d3 & E3 & O3 & (V3 & P3 & N3 & G3) & mem & -> & -> & Hd3).
  rewrite bind_run, E3.
  destruct (launch_ok src base api_sock cfg fs0 Hfresh Hcomp cfg' d3 O3) as (d4 & E4 & O4 & L4 & Hd4); [|done|].
  { unfold for_vm. by rewrite V3, V2, V1. }
  rewrite bind_run, E4. exists d4. split; [done|]. split; [done|]. split; [|done].
  unfold launched in *. by rewrite P3, P2, P1, N3, N2, N1, G3, G2, G1 in L4.
Qed.
End restore_works.

(** C6: from a complete template a restore whose calls do not fail succeeds.
    Whatever the snapshot type, the lease and the memory mode, it ends with a
    guest running under a VMM the driver holds, on the adapted configuration:
    the disks it has open are images of its own sandbox, and until the guest
    writes each of them reads as the template's image did. *)
Theorem restore_succeeds `{JsonLaws} sf src cfg d :
  dr_outs d = [] → complete src cfg (dr_fs d) →
  fresh src (vm_base_dir (dr_vm d)) (cc_api_socket (vm_config (dr_vm d))) (dr_fs d) →
  ∃ cfg' d', patch_config cfg (cs_overrides src) (remaps_of (vm_base_dir (dr_vm d)) (cs_disk_images src)) = Ok cfg' ∧
    ch_restore sf src d = Some (Ok tt, d') ∧
    dr_procs d' !! dr_next_pid d = Some (GuestRunning (config_disks cfg')) ∧
    vm_client (dr_vm d') = Some (dr_next_pid d) ∧ vmm_pid_of d' = Some (dr_next_pid d) ∧
    (∀ i p, (i, p) ∈ config_disks cfg' → ∃ e, e ∈ cs_disk_images src ∧ i = di_device_id e ∧ p = restored_disk_path (vm_base_dir (dr_vm d)) e) ∧
    (dr_guest d = [] → ∀ e s, e ∈ cs_disk_images src → dr_fs d !! snapshot_disk_path src e = Some (EFile s) →
       fs_read (dr_fs d') (restored_disk_path (vm_base_dir (dr_vm d)) e) = Some s).
Proof.
  intros Ho Hcomp Hfresh. set (base := vm_base_dir (dr_vm d)) in *. set (sock := cc_api_socket (vm_config (dr_vm d))) in *.
  destruct (validated_patches cfg _ (cs_overrides src) (remaps_of base (cs_disk_images src)) (cm_valid _ _ _ Hcomp)) as [cfg' Hpatch].
  exists cfg'. unfold ch_restore. rewrite bind_run. cbn [gets]. fold base.
  destruct (dirs_ok src base sock (dr_fs d) Hfresh d Ho eq_refl) as (r1 & d1 & E1 & O1 & (V1 & P1 & N1 & G1) & [] & -> & Hd1).
  rewrite bind_run, E1.
  destruct (blocks_ok src base sock cfg (dr_fs d) Hfresh Hcomp d1 O1 Hd1) as (r2 & d2 & E2 & O2 & (V2 & P2 & N2 & G2) & bl & -> & Hbl & Hd2).
  rewrite bind_run, E2, bind_run, Hbl.
  destruct (vmm_ok src base sock cfg cfg' (dr_fs d) Hfresh Hcomp Hpatch d2 O2) as (d3 & E3 & O3 & (P3 & C3 & I3 & G3) & Hd3).
  { unfold for_vm. by rewrite V2, V1. }
  { by eapply placing_prepared. }
  rewrite E3. rewrite N2, N1 in P3, C3, I3.
  destruct (resume_ok sf src base sock cfg (dr_fs d) Hfresh Hcomp cfg' (dr_next_pid d) (cs_memory_restore_mode src) d3 O3)
    as (d4 & E4 & P4 & V4 & F4); [by rewrite P3, lookup_insert_eq|done..|by eapply complete_wf|].
  rewrite bind_run, E4. exists d4. split; [done|]. split; [done|]. split; [done|]. unfold vmm_pid_of in *. rewrite V4.
  split; [done|]. split; [done|]. split.
  - intros i p Hip. eapply config_disks_remapped in Hip; [|exact Hpatch].
    apply list_elem_of_fmap in Hip as (e & [= -> ->] & He). eauto.
  - intros Hg e s He Hs. rewrite F4, G3, G2, G1, Hg. simpl. destruct Hd3 as (k & Hk & _).
    eapply read_reads; [apply (cm_absolute _ _ _ Hcomp)|]. by apply (cf_images _ _ _ _ _ _ Hk).
Qed.

(** ** The sample template, restored by links with its memory in a file *)
Definition linked_source : ChRestoreSource := sample_source WarmFork Exclusive FileBackend.
Definition template_paths : list string :=
  ["/t/config.json"; "/t/memory-ranges"; "/t/state.json"; "/t/memory.img"; "/t/disks/storage3.img"; "/t/disks/storage4.img"].
Definition sandbox_paths : list string :=
  ["/b/storage3.img"; "/b/storage4.img"; "/b/.storage3.img.tmp"; "/b/.storage4.img.tmp"].
Definition scratch_paths : list string :=
  ["/w"; "/b"; "/b/api.sock"; "/w/.config.json"; "/w/config.json"; "/w/memory-ranges"; "/w/state.json"; "/w/memory.img"].

Lemma template_in p : template_file linked_source p → p ∈ template_paths.
Proof.
  intros [->|[(a & Ha & ->)|(e & He & ->)]]; [by left| |].
  - change (memory_artifacts_for_mode (cs_memory_restore_mode linked_source)) with ["memory-ranges"; "state.json"; "memory.img"] in Ha.
    rewrite !elem_of_cons, elem_of_nil in Ha. destruct Ha as [->|[->|[->|[]]]]; by apply (bool_decide_unpack _).
  - apply sample_images_cases in He as [-> | ->]; by apply (bool_decide_unpack _).
Qed.
Lemma sandbox_in p : sandbox_file linked_source "/b" p → p ∈ sandbox_paths.
Proof. intros (e & He & Hp). apply sample_images_cases in He as [-> | ->]; destruct Hp as [-> | ->]; by apply (bool_decide_unpack _). Qed.
Lemma scratch_in p : scratch linked_source "/b" "/b/api.sock" p → p ∈ scratch_paths.
Proof. done. Qed.

Lemma sample_fresh : fresh linked_source "/b" "/b/api.sock" sample_fs.
Proof.
  assert (∀ p, p ∈ template_paths → p ∉ sandbox_paths ++ scratch_paths) as Hap.
  { apply (proj1 (Forall_forall _ _)). by apply (bool_decide_unpack _). }
  split.
  - reflexivity.
  - reflexivity.
  - intros e [-> | ->]%sample_images_cases; reflexivity.
  - by apply (bool_decide_unpack _).
  - by apply (bool_decide_unpack _).
  - intros p Hp%template_in Hn. apply (Hap p Hp). apply elem_of_app. destruct Hn as [Hn|Hn]; [right; by apply scratch_in|left; by apply sandbox_in].
  - intros e p [-> | ->]%sample_images_cases ->; (split; [done|]).
    all: intros a Ha; revert a Ha; apply (proj1 (Forall_forall (λ a, _ ≠ _) _)); by apply (bool_decide_unpack _).
  - intros p Hp%sandbox_in Hs%scratch_in. revert p Hp Hs. apply (proj1 (Forall_forall (λ p, p ∉ _) _)). by apply (bool_decide_unpack _).
  - by apply (bool_decide_unpack _).
  - by apply (bool_decide_unpack _).
  - intros p Hp. assert (p ∈ sandbox_paths ++ scratch_paths) as Hin.
    { apply elem_of_app. destruct Hp as [Hp|Hp]; [right; by do 3 right|left; by apply sandbox_in]. }
    clear Hp. revert p Hin. apply (proj1 (Forall_forall (λ p, _ = None) _)). by apply (bool_decide_unpack _).
  - by left.
  - by left.
Qed.

Lemma sample_complete : complete linked_source sample_config sample_fs.
Proof.
  split.
  - reflexivity.
  - eexists. split; [reflexivity|]. vm_compute. reflexivity.
  - reflexivity.
  - intros a Ha. change (a ∈ ["memory-ranges"; "state.json"; "memory.img"]) in Ha.
    rewrite !elem_of_cons, elem_of_nil in Ha. destruct Ha as [->|[->|[->|[]]]]; eexists; reflexivity.
  - intros e [-> | ->]%sample_images_cases; eexists; reflexivity.
Qed.

Lemma restore_succeeds_witness :
  match ch_restore sample_files linked_source (sample_driver [] []) with
  | Some (r, d') => r = Ok tt ∧ fs_read (dr_fs d') "/b/storage4.img" = Some "B"
  | None => False
  end.
Proof.
  destruct (restore_succeeds sample_files linked_source sample_config (sample_driver [] [])) as (c & d' & _ & E & _ & _ & _ & _ & Hr).
  - reflexivity.
  - exact sample_complete.
  - exact sample_fresh.
  - rewrite E. split; [reflexivity|]. apply (Hr eq_refl (mkDiskImage "storage4" "blk4" "disks/storage4.img") "B"); [right; left|reflexivity].
Defined.
