(* ===== verification/ChAttach.v ===== *)
(** * Cloud Hypervisor: taps from [attach] to the VMM, and cases

    The descriptor numbers on the command line of the VMM are those its
    descriptors have in the child process. Then runs of the driver on concrete
    inputs: the command lines of the unit tests of [config.rs] and [vfio.rs],
    and what the error paths of restore, start and snapshot leave behind. *)
From S2P Require Import Prelude Strs Storage Types Metrics Disk Pool Continuation Mount GuestScan Frame Inject Annotations Box BlockImage StorageOps Handlers Sandboxer Fs Descriptors ChConfig ChSnapshot ChDriver ChLemmas ChSample ChRestore ChProcess ChShared ChCapture.
Open Scope box_scope.

(** The interfaces of a network, attached one after the other. *)
Fixpoint attach_all (l : list DeviceInfo) : Ch unit :=
  match l with [] => mret (Ok tt) | i :: l => do? attach i;; attach_all l end.

(** [net] is told the child's numbers of the descriptors [fds]. *)
Definition wired (v : CloudHypervisorVM) (net : VirtioNetDevice) (fds : list N) : Prop :=
  ∃ off, vn_fds net = fd_target <$> seq off (length fds) ∧
    ∀ i fd, fds !! i = Some fd → vm_fds v !! (off + i) = Some fd.

Lemma append_fds_spec fds v : let '(idx, v') := append_fds fds v in
  idx = fd_target <$> seq (length (vm_fds v)) (length fds) ∧ v' = set_fds (vm_fds v ++ fds) v.
Proof.
  revert v. induction fds as [|fd fds IH]; intros v; simpl.
  - rewrite app_nil_r. by destruct v.
  - specialize (IH (set_fds (vm_fds v ++ [fd]) v)). destruct (append_fds fds _) as [idx v']. destruct IH as [-> ->].
    simpl. rewrite length_app, Nat.add_1_r, <- app_assoc. split; [|by destruct v]. f_equal. unfold fd_target. lia.
Qed.

(** Attaching adds to the devices and to the descriptors. *)
Definition extends (v v' : CloudHypervisorVM) : Prop :=
  vm_fds v `prefix_of` vm_fds v' ∧ (∀ x, x ∈ vm_devices v → x ∈ vm_devices v') ∧
  vm_config v' = vm_config v ∧ vm_pids v' = vm_pids v.

#[global] Instance extends_po : PreOrder extends.
Proof.
  split; [by intros v|]. intros a b c (P1 & D1 & C1 & I1) (P2 & D2 & C2 & I2).
  split; [by transitivity (vm_fds b)|]. split; [by auto|]. split; congruence.
Qed.

Lemma wired_extends v v' net fds : extends v v' → wired v net fds → wired v' net fds.
Proof.
  intros ([k Hk] & _) (off & Hn & Hf). exists off. split; [done|]. intros i fd Hi. rewrite Hk. apply lookup_app_l_Some. auto.
Qed.

(** The device of a tap *)
Definition tap_device (v : CloudHypervisorVM) (i name mac : string) (fds : list N) : Prop :=
  ∃ net, DNet net ∈ vm_devices v ∧ vn_id net = i ∧ vn_mac net = mac ∧ wired v net fds.

Lemma attach_spec info d r d' : attach info d = Some (r, d') → r = Ok tt →
  extends (dr_vm d) (dr_vm d') ∧ ∀ i name mac fds, info = TapInfo i name mac fds → tap_device (dr_vm d') i name mac fds ∧ fds ≠ [].
Proof.
  unfold attach. intros (v & d1 & E1 & E)%bind_inv. injection E1 as <- <-. destruct info as [i p ro|i name mac fds|i bdf|i|i].
  - run E. subst. intros _. split; [|done]. split; [done|]. split; [|done]. intros x Hx. simpl. apply elem_of_app. by left.
  - pose proof (append_fds_spec fds (dr_vm d)) as Ha. destruct (append_fds fds (dr_vm d)) as [idx v']. destruct Ha as [-> ->].
    case_bool_decide as Hnil; [done|]. run E. subst. simpl. intros _. split.
    + split; [by apply prefix_app_r|]. split; [|done]. intros x Hx. apply elem_of_app. by left.
    + intros i' name' mac' fds' [= <- <- <- <-]. split; [|done]. eexists. split; [apply elem_of_app; right; by left|].
      split; [done|]. split; [done|]. exists (length (vm_fds (dr_vm d))). split; [done|]. intros k fd Hk. simpl.
      by rewrite lookup_app_r, Nat.add_sub_swap, Nat.sub_diag by lia.
  - run E. subst. intros _. split; [|done]. split; [done|]. split; [|done]. intros x Hx. simpl. apply elem_of_app. by left.
  - by run E; subst.
  - by run E; subst.
Qed.

Lemma attach_all_spec l d r d' : attach_all l d = Some (r, d') → r = Ok tt →
  extends (dr_vm d) (dr_vm d') ∧ ∀ i name mac fds, TapInfo i name mac fds ∈ l → tap_device (dr_vm d') i name mac fds ∧ fds ≠ [].
Proof.
  revert d. induction l as [|x l IH]; intros d; simpl; [intros E; run E; subst; intros _; split; [done|]; by intros ? ? ? ? ?%elem_of_nil|].
  intros (r1 & d1 & E1 & E)%bind_inv. destruct r1 as [[]|]; [|by run E; subst]. intros Hr.
  apply attach_spec in E1 as [X1 T1]; [|done]. apply IH in E as [X2 T2]; [|done]. split; [by transitivity (dr_vm d1)|].
  intros i name mac fds [Hx|Hin]%elem_of_cons; [|by apply T2]. destruct (T1 _ _ _ _ (eq_sym Hx)) as ((net & Hd & Hi & Hm & Hw) & Hne).
  split; [|done]. exists net. split; [by apply X2|]. split; [done|]. split; [done|by eapply wired_extends].
Qed.

(** ** The command line *)
Definition start_params (v : CloudHypervisorVM) (ps : list Param) : list string :=
  CloudHypervisorConfig_params "--" (vm_config v) ++ to_cmdline_params "--" ps ++
  (if cc_debug (vm_config v) then ["-vv"] else []).

Lemma params_sublist ps p : p ∈ ps → ∃ a b, to_cmdline_params "--" ps = a ++ to_cmdline_params "--" [p] ++ b.
Proof.
  intros (l & k & ->)%list_elem_of_split. exists (to_cmdline_params "--" l), (to_cmdline_params "--" k).
  unfold to_cmdline_params. by rewrite fmap_app, join_app.
Qed.

(** A started VMM was spawned with the devices and the descriptors of the VM. *)
Lemma start_spawns d r d' : ch_start d = Some (r, d') → is_ok r = true →
  ∃ ps ns, mapM device_params (vm_devices (dr_vm d)) = Some ps ∧
    (CSpawn (cc_path (vm_config (dr_vm d))) (start_params (dr_vm d) ps) (vm_fds (dr_vm d)) ns, true) ∈ dr_trace d'.
Proof.
  unfold ch_start. intros (v & d0 & E0 & E)%bind_inv Hok. injection E0 as <- <-.
  apply bind_inv in E as (r1 & d1 & E1 & E). destruct r1 as [[]|]; [|run E; by subst].
  apply bind_inv in E as (u & d2 & E2 & E). apply bind_inv in E as (r3 & d3 & E3 & E). destruct r3 as [[]|]; [|run E; by subst].
  destruct (mapM device_params _) as [ps|] eqn:Ep; [|done]. exists ps.
  apply bind_inv in E as (u4 & d4 & E4 & E). injection E4 as _ <-. apply bind_inv in E as (r5 & d5 & E5 & E).
  destruct r5 as [p|]; [|run E; by subst]. apply spawn_inv in E5 as [(_ & outs & ->)|(? & _)]; [|done]. simpl in E.
  exists (vm_netns (dr_vm d3)). split; [done|]. apply bind_inv in E as (r6 & d6 & E6 & E). apply grows_adopt in E6 as [[k Hk] _].
  assert (dr_trace d' = dr_trace d6) as -> by (destruct r6 as [[]|]; run E; by subst). rewrite Hk. simpl.
  apply elem_of_app. left. apply elem_of_app. right. by left.
Qed.

(** What the VMM gets for a tap of the VM. *)
Definition vmm_has_tap (d d' : Driver) (i mac : string) (fds : list N) : Prop :=
  ∃ cmd args ns net p, (CSpawn cmd args (vm_fds (dr_vm d)) ns, true) ∈ dr_trace d' ∧
    VirtioNetDevice_params net = Some p ∧ (∃ a b, args = a ++ to_cmdline_params "--" [p] ++ b) ∧
    vn_id net = i ∧ vn_mac net = mac ∧ length (vn_fds net) = length fds ∧
    ∀ t t', set_cmd_fd (vm_fds (dr_vm d)) t = Some t' → no_clobber (vm_fds (dr_vm d)) →
      ∀ k fd n f, fds !! k = Some fd → vn_fds net !! k = Some n → t !! fd = Some f →
        after_exec t' !! n = Some (mkDesc (ds_file f) false).

Lemma started_tap d pid d' i name mac fds :
  tap_device (dr_vm d) i name mac fds → ch_start d = Some (Ok pid, d') → vmm_has_tap d d' i mac fds.
Proof.
  intros (net & Hd & Hi & Hm & off & Hn & Hf) Es.
  destruct (start_spawns _ _ _ Es eq_refl) as (ps & ns & Hps & Htr). apply mapM_Some in Hps.
  apply list_elem_of_lookup in Hd as [j Hj]. destruct (Forall2_lookup_l _ _ _ _ _ Hps Hj) as (p & Hp & Hpar).
  eexists _, _, ns, net, p. split; [exact Htr|]. split; [exact Hpar|]. split.
  { destruct (params_sublist ps p) as (a & b & Hab); [by eapply list_elem_of_lookup_2|]. unfold start_params. rewrite Hab.
    eexists (CloudHypervisorConfig_params "--" (vm_config (dr_vm d)) ++ a), (b ++ (if cc_debug (vm_config (dr_vm d)) then ["-vv"] else [])).
    by rewrite <- !(assoc_L (++)). }
  split; [done|]. split; [done|]. split; [by rewrite Hn, length_fmap, length_seq|].
  intros t t' Hset Hc k fd n f Hk Hnk Hfd. rewrite Hn, list_lookup_fmap, lookup_seq_lt in Hnk by (by eapply lookup_lt_Some).
  injection Hnk as <-. apply (no_clobber_inherits _ _ _ Hc Hset _ fd); [by apply Hf|done].
Qed.

(** A tap reaches the guest. After a list of devices was attached and the
    VMM started, the command line of the VMM has a network device with the id
    and the address of each tap, and the descriptor numbers in it are, in the
    child process that [set_cmd_fd] sets up from the VM's descriptors, the
    files of the tap's own descriptors, in order; the only condition is that
    no descriptor is overwritten by the move of an earlier one. *)
Theorem taps_reach_vmm infos d d1 pid d2 i name mac fds :
  attach_all infos d = Some (Ok tt, d1) → ch_start d1 = Some (Ok pid, d2) → TapInfo i name mac fds ∈ infos →
  vmm_has_tap d1 d2 i mac fds.
Proof.
  intros Ea Es Hin. destruct (attach_all_spec _ _ _ _ Ea eq_refl) as [_ Ht]. destruct (Ht _ _ _ _ Hin) as [Htap _].
  by eapply started_tap.
Qed.

Lemma taps_reach_vmm_witness :
  match attach_all [BlockInfo "blk1" "/i" true; TapInfo "net1" "eth0" "aa" [7; 9]%N] (sample_driver [] []) with
  | Some (Ok _, d1) =>
      match ch_start d1 with
      | Some (Ok _, d2) => ∃ cmd args ns, (CSpawn cmd args [7; 9]%N ns, true) ∈ dr_trace d2
      | _ => False
      end
  | _ => False
  end.
Proof.
  destruct (attach_all _ _) as [[[[]|] d1]|] eqn:E1; [|vm_compute in E1; discriminate..].
  assert (vm_fds (dr_vm d1) = [7; 9]%N) as Hv by (vm_compute in E1; injection E1 as <-; reflexivity).
  destruct (ch_start d1) as [[[pid|] d2]|] eqn:E2; [|vm_compute in E1; injection E1 as <-; vm_compute in E2; discriminate..].
  destruct (taps_reach_vmm _ _ _ _ _ "net1" "eth0" "aa" [7; 9]%N E1 E2) as (cmd & args & ns & net & p & Htr & _).
  - right. left.
  - rewrite Hv in Htr. eauto.
Defined.

(** ** Cases *)
(** ** Command lines *)
Lemma config_test_cmdline :
  CloudHypervisorConfig_params "--"
    (mkChConfig "/use/local/bin/cloud-hypervisor" "/tmp/test-api.sock"
       (mkCpus 2 None (Some "1:1:2:2") ["[0@[0-3],1@[4-5,8]]"] ["amx"])
       (mkMemory 4294967296 false true (Some "2M") None None) "/path/to/kernel"
       "task.container_storage_backend=virtiofs" None None false) =
  ["--api-socket"; "/tmp/test-api.sock"; "--cpus"; "boot=2,topology=1:1:2:2,affinity=[0@[0-3],1@[4-5,8]],features=amx";
   "--memory"; "size=4294967296,shared=off,hugepages=on,hugepage_size=2M"; "--kernel"; "/path/to/kernel";
   "--cmdline"; "task.container_storage_backend=virtiofs"].
Proof. vm_compute. reflexivity. Qed.

Lemma vfio_test_attr :
  to_cmdline_params "--" [VfioDevice_params (VfioDevice_new "" "0000:b4:05.1")] =
  ["--device"; "path=/sys/bus/pci/devices/0000:b4:05.1"].
Proof. vm_compute. reflexivity. Qed.

(** The descriptors of a tap with two queues *)
Lemma net_cmdline :
  to_cmdline_params "--" <$> mapM device_params [DNet (VirtioNetDevice_new "net1" (Some "eth0") "aa:bb" [3; 4]%N)] =
  Some ["--net"; "id=net1,fd=[3,4],mac=aa:bb,num_queues=4"].
Proof. vm_compute. reflexivity. Qed.

(** ** Restoring a Continuation *)
Definition continuation_restore : Ch unit := ch_restore sample_files (sample_source Continuation Exclusive Copy).
Definition image_paths : list string :=
  ["/t/disks/storage3.img"; "/t/disks/storage4.img"; "/b/storage3.img"; "/b/storage4.img"].

(** The guest wrote before the agent failed to answer: the template gets its
    images back, with contents its memory does not know about. *)
Lemma retried_template_modified :
  observe continuation_restore image_paths (sample_driver unanswered [("/b/storage3.img", "A2")]) =
  Some (Err ETimeout, [], [Some (EFile "A2"); Some (EFile "B"); None; None]).
Proof. vm_compute. reflexivity. Qed.

(** The VMM cannot be killed: the images are taken from under a guest that
    still runs. *)
Lemma rollback_under_running_guest :
  observe continuation_restore image_paths (sample_driver (unanswered ++ [Bad EOTHER false ""]) []) =
  Some (Err ETimeout, [(100%N, GuestRunning [("blk3", "/b/storage3.img"); ("blk4", "/b/storage4.img")])],
        [Some (EFile "A"); Some (EFile "B"); None; None]).
Proof. vm_compute. reflexivity. Qed.

(** The first image cannot be moved back: the second is not tried. *)
Lemma rollback_stops_early :
  observe continuation_restore image_paths (sample_driver (unanswered ++ [Good; Good; Bad EOTHER false ""]) []) =
  Some (Err ETimeout, [], [None; None; Some (EFile "A"); Some (EFile "B")]).
Proof. vm_compute. reflexivity. Qed.

(** ** Restoring by links *)
Definition exclusive_fork_restore : Ch unit := ch_restore sample_files (sample_source WarmFork Exclusive Copy).

(** What the guest writes goes to the template. *)
Lemma linked_writes_reach_template :
  observe exclusive_fork_restore image_paths (sample_driver [] [("/b/storage3.img", "A2")]) =
  Some (Ok tt, [(100%N, GuestRunning [("blk3", "/b/storage3.img"); ("blk4", "/b/storage4.img")])],
        [Some (EFile "A2"); Some (EFile "B"); Some (ELink "/t/disks/storage3.img"); Some (ELink "/t/disks/storage4.img")]).
Proof. vm_compute. reflexivity. Qed.

(** A failed restore leaves its links, and a second one into the same
    directory fails on them. *)
Lemma links_block_retry :
  (r ← exclusive_fork_restore; r' ← exclusive_fork_restore; mret (r, r')) (sample_driver (replicate 18 Good ++ [Bad EOTHER true ""; Good; Good; Good]) [])
  ≫= (λ p, Some p.1) =
  Some (Err ETimeout, Err (EFailed (CSymlink "/t/disks/storage3.img" "/b/storage3.img"))).
Proof. vm_compute. reflexivity. Qed.

(** ** Starting and capturing *)

(** The VMM cannot be spawned: virtiofsd stays. *)
Lemma failed_start_leaves_virtiofsd :
  match ch_start (sample_driver [Good; Good; Good; Good; Bad EOTHER false ""] []) with
  | Some (r, d') => is_ok r = false ∧ map_to_list (dr_procs d') = [(100%N, NoGuest)]
  | None => False
  end.
Proof. vm_compute. split; reflexivity. Qed.

(** A pause that took effect but was reported as failed is not undone. *)
Lemma lost_pause_answer :
  observe (ch_snapshot sample_files "/c" []) [] (running_driver [Good; Good; Bad EOTHER true ""]) =
  Some (Err (EFailed (CApi 100 ApiPause)), [(100%N, GuestPaused [("blk3", "/t/disks/storage3.img")])], []).
Proof. vm_compute. reflexivity. Qed.

(** The console of a new VM is not the file its snapshots name. *)
Lemma snapshot_console_differs c id netns base v : create_vm c id netns base = Some v →
  In (DConsole (Console_new ("/tmp/" +:+ id +:+ "-task.log") "console")) (vm_devices v) ∧
  console_log_path v = base +:+ "/task.log".
Proof.
  unfold create_vm, add_if. case_match; [done|]. intros [= <-]. split.
  - repeat case_match; simpl; rewrite ?in_app_iff; simpl; tauto.
  - by repeat case_match.
Qed.

(** Hot-plugging a passthrough device panics. *)
Lemma hot_attach_physical_panics bdf_of i bdf outs :
  hot_attach sample_files bdf_of (PhysicalInfo i bdf) (running_driver outs) = None.
Proof. reflexivity. Qed.
