(* ===== verification/Net.v ===== *)
(** * The pod network

    [vmm/sandbox/src/network/{mod,link,route,address,convert}.rs] and
    [prepare_network]/[destroy_network] of [sandbox.rs]: reading the
    interfaces and routes of a network namespace, attaching them to the VM
    (a tap beside each veth, passthrough of each physical device) and giving
    the physical devices back. *)
From S2P Require Import Prelude Strs Storage Types Metrics Disk Pool Continuation GuestScan Mount Frame Inject Annotations Box BlockImage StorageOps Handlers Sandboxer Fs Descriptors ChConfig ChSnapshot ChDriver.
Open Scope box_scope.

(** ** Addresses: [address.rs] *)

(** [std::net::IpAddr]: a 32-bit or a 128-bit number. *)
Inductive IpAddr := V4 (a : N) | V6 (a : N).
Definition is_ipv6 (i : IpAddr) : bool := match i with V6 _ => true | V4 _ => false end.
Definition is_loopback (i : IpAddr) : bool :=
  match i with V4 a => (N.shiftr a 24 =? 127)%N | V6 a => (a =? 1)%N end.

Record IpNet := mkIpNet { ip : IpAddr; prefix_len : N }.

(** [MAX.checked_shl((w - prefix_len) as u32).unwrap_or(MIN)] on [w] bits;
    the difference is taken in [u8]. *)
Definition checked_shl_max (w s : N) : N := if (s <? w)%N then uwrap w (N.shiftl (2 ^ w - 1) s) else 0%N.
Definition netmask_32 (n : IpNet) : N := checked_shl_max 32 (uwrap 8 (32 + 256 - prefix_len n)).
Definition netmask_u128 (n : IpNet) : N := checked_shl_max 128 (uwrap 8 (128 + 256 - prefix_len n)).
Definition netmask (n : IpNet) : IpAddr := if is_ipv6 (ip n) then V6 (netmask_u128 n) else V4 (netmask_32 n).

(** [MacAddress]: bytes; its text has two hexadecimal digits for each. *)
Abbreviation MacAddress := (list N).
Definition hex_digit (n : N) : ascii :=
  ascii_of_N (if (n <? 10)%N then 48 + n else 87 + n).
Definition hex2 (b : N) : string := String (hex_digit (b / 16)) (String (hex_digit (b `mod` 16)) "").
Definition mac_to_string (m : MacAddress) : string := join ":" (hex2 <$> m).

(** [char::to_digit(16)] *)
Definition hex_value (c : ascii) : option N :=
  let n := N_of_ascii c in
  if (48 <=? n)%N && (n <=? 57)%N then Some (n - 48)%N
  else if (97 <=? n)%N && (n <=? 102)%N then Some (n - 87)%N
  else if (65 <=? n)%N && (n <=? 70)%N then Some (n - 55)%N
  else None.
Fixpoint radix16 (acc : N) (s : string) : option N :=
  match s with
  | EmptyString => Some acc
  | String c s => d ← hex_value c; if (acc * 16 + d <=? 255)%N then radix16 (acc * 16 + d) s else None
  end.
(** [u8::from_str_radix(x, 16).unwrap_or_default()]: a sign is allowed, an
    empty number is not. *)
Definition byte_of_hex (s : string) : N :=
  let digits := match s with String "+" t => t | _ => s end in
  if bool_decide (digits = "") then 0%N else default 0%N (radix16 0 digits).
Definition mac_of_string (s : string) : MacAddress := byte_of_hex <$> split ":"%char s.

(** ** Links: [link.rs] *)
Inductive LinkType :=
  | LUnknown | LBridge | LVeth | LVlan (i : N) | LVxlan (i : N) | LBond | LIpvlan (i : N) | LMacvlan (i : N)
  | LMacvtap (i : N) | LTun | LVhostUser (sock : string) | LPhysical (bdf driver : string) | LTap | LLoopback.

#[global] Instance LinkType_eq_dec : EqDecision LinkType.
Proof. solve_decision. Defined.

Definition LinkType_fmt (t : LinkType) : string :=
  match t with
  | LUnknown => "" | LBridge => "bridge" | LVeth => "veth" | LVlan _ => "vlan" | LVxlan _ => "vxlan"
  | LBond => "bond" | LIpvlan _ => "ipvlan" | LMacvlan _ => "macvlan" | LMacvtap _ => "macvtap"
  | LTun => "tun" | LVhostUser _ => "vhostuser" | LPhysical _ _ => "physical" | LTap => "tap"
  | LLoopback => "loopback"
  end.

(** The data of a link in a netlink message; [first] is the attribute of
    interest when it comes first. *)
Inductive InfoData :=
  | InfoBridge | InfoTun | InfoVeth | InfoBond | InfoOther
  | InfoVlan (first : option N) | InfoVxlan (first : option N) | InfoIpVlan (first : option N)
  | InfoMacVlan (first : option N) | InfoMacVtap (first : option N).

Definition link_type_of (d : InfoData) : LinkType :=
  match d with
  | InfoBridge => LBridge | InfoTun => LTun | InfoVeth => LVeth | InfoBond => LBond
  | InfoVlan (Some i) => LVlan i | InfoVxlan (Some i) => LVxlan i | InfoIpVlan (Some i) => LIpvlan i
  | InfoMacVlan (Some i) => LMacvlan i | InfoMacVtap (Some i) => LMacvtap i
  | _ => LUnknown
  end.

(** [Option<Box<NetworkInterface>>] is used only for the name and the
    descriptors of the tap. *)
Record NetworkInterface := mkIntf {
  ni_type : LinkType;
  ni_index : N;
  ni_name : string;
  ni_addresses : list IpNet;
  ni_mac : MacAddress;
  ni_mtu : N;
  ni_flags : N;
  ni_alias : string;
  ni_twin : option (string * list N);
  ni_queue : N
}.

Inductive LinkInfo := LData (d : InfoData) | LKindVeth | LInfoOther.
Inductive LinkAttribute :=
  | ALinkInfo (infos : list LinkInfo) | AIfName (s : string) | AIfAlias (s : string) | AMtu (m : N)
  | AAddress (u : list N) | AOther.
(** A [LinkMessage], and what the kernel answers when it is asked for the
    addresses and the bus address of that link ([None]: an error). *)
Record LinkMessage := mkLink {
  lm_index : N; lm_flags : list N; lm_attributes : list LinkAttribute;
  lm_addresses : option (list IpNet); lm_bdf : option string
}.

(** [u32::from(&VecLinkFlag)] *)
Definition flags_sum (l : list N) : N := foldl (λ d f, uwrap 32 (d + f)) 0%N l.

Definition set_type (t : LinkType) (i : NetworkInterface) : NetworkInterface :=
  mkIntf t (ni_index i) (ni_name i) (ni_addresses i) (ni_mac i) (ni_mtu i) (ni_flags i) (ni_alias i) (ni_twin i) (ni_queue i).
Definition set_queue (q : N) (i : NetworkInterface) : NetworkInterface :=
  mkIntf (ni_type i) (ni_index i) (ni_name i) (ni_addresses i) (ni_mac i) (ni_mtu i) (ni_flags i) (ni_alias i) (ni_twin i) q.
Definition set_twin (t : option (string * list N)) (i : NetworkInterface) : NetworkInterface :=
  mkIntf (ni_type i) (ni_index i) (ni_name i) (ni_addresses i) (ni_mac i) (ni_mtu i) (ni_flags i) (ni_alias i) t (ni_queue i).

Definition read_info (queue : N) (i : NetworkInterface) (info : LinkInfo) : NetworkInterface :=
  match info with
  | LData d => set_type (link_type_of d) i
  | LKindVeth => set_type LVeth (set_queue queue i)
  | LInfoOther => i
  end.
Definition read_attribute (queue : N) (i : NetworkInterface) (a : LinkAttribute) : NetworkInterface :=
  match a with
  | ALinkInfo infos => foldl (read_info queue) i infos
  | AIfName s => mkIntf (ni_type i) (ni_index i) s (ni_addresses i) (ni_mac i) (ni_mtu i) (ni_flags i) (ni_alias i) (ni_twin i) (ni_queue i)
  | AIfAlias s => mkIntf (ni_type i) (ni_index i) (ni_name i) (ni_addresses i) (ni_mac i) (ni_mtu i) (ni_flags i) s (ni_twin i) (ni_queue i)
  | AMtu m => mkIntf (ni_type i) (ni_index i) (ni_name i) (ni_addresses i) (ni_mac i) m (ni_flags i) (ni_alias i) (ni_twin i) (ni_queue i)
  | AAddress u => mkIntf (ni_type i) (ni_index i) (ni_name i) (ni_addresses i) u (ni_mtu i) (ni_flags i) (ni_alias i) (ni_twin i) (ni_queue i)
  | AOther => i
  end.
Definition read_address (i : NetworkInterface) (a : IpNet) : NetworkInterface :=
  mkIntf (if is_loopback (ip a) then LLoopback else ni_type i) (ni_index i) (ni_name i) (ni_addresses i ++ [a]) (ni_mac i) (ni_mtu i)
    (ni_flags i) (ni_alias i) (ni_twin i) (ni_queue i).

(** ** The host *)

(** A PCI device: the driver it is bound to and [driver_override]. *)
Record Pci := mkPci { pci_driver : option string; pci_override : option string }.

Inductive NetCall :=
  | NReadDriver (bdf : string) | NOverride (bdf driver : string) | NUnbind (bdf : string) | NProbe (bdf : string)
  | NHandle (netns : string) | NOpenTun (name : string) (fd : N) | NPersist (name : string) | NLinkGet (name : string)
  | NLinks (netns : string) | NRoutes (netns : string) (version : N)
  | NLinkUp (name : string) (mtu : N) | NQdisc (netns dev : string) | NRedirect (netns dev dest : string).

Record NetHost := mkNetHost {
  nt_driver : Driver;                  (** the VM *)
  nt_pci : gmap string Pci;
  nt_links : string → LinkMessage;     (** the link of a name, once it exists *)
  nt_fd : N → N;                       (** the numbers the next [open] calls return *)
  nt_opened : N;
  nt_trace : list (NetCall * bool);
  nt_outs : list Outcome               (** [Good] when it is empty *)
}.

Inductive NetError := NFailed (c : NetCall) | NNameTooLong | NWrongDriver | NNoLink | NNoTap | NVm (e : ChError) | NAddresses | NNoBdf.
Abbreviation Net A := (M NetHost (result A NetError)).

(** A call that succeeds, or fails and may have had its effect. *)
Definition net_call (c : NetCall) (f : NetHost → NetHost) : M NetHost bool := λ h,
  let '(o, outs) := match nt_outs h with [] => (Good, []) | o :: l => (o, l) end in
  let ok := match o with Good => true | Bad _ _ _ => false end in
  let took := match o with Good => true | Bad _ b _ => b end in
  let h' := if took then f h else h in
  Some (ok, mkNetHost (nt_driver h') (nt_pci h') (nt_links h') (nt_fd h') (nt_opened h') (nt_trace h' ++ [(c, ok)]) outs).
Definition net_must (c : NetCall) (f : NetHost → NetHost) : Net unit :=
  ok ← net_call c f; mret (if ok : bool then Ok tt else Err (NFailed c)).

Definition set_pci (f : gmap string Pci → gmap string Pci) (h : NetHost) : NetHost :=
  mkNetHost (nt_driver h) (f (nt_pci h)) (nt_links h) (nt_fd h) (nt_opened h) (nt_trace h) (nt_outs h).
Definition set_opened (n : N) (h : NetHost) : NetHost :=
  mkNetHost (nt_driver h) (nt_pci h) (nt_links h) (nt_fd h) n (nt_trace h) (nt_outs h).

(** An operation of the VM *)
Definition on_vm {A} (m : Ch A) : Net A := λ h,
  match m (nt_driver h) with
  | None => None
  | Some (r, d) =>
      Some (match r with Ok a => Ok a | Err e => Err (NVm e) end,
            mkNetHost d (nt_pci h) (nt_links h) (nt_fd h) (nt_opened h) (nt_trace h) (nt_outs h))
  end.

(** ** Drivers of physical devices *)

(** [get_pci_driver]: the target of the link [driver], which only a bound
    device has. *)
Definition driver_of (bdf : string) (h : NetHost) : option string := nt_pci h !! bdf ≫= pci_driver.
Definition get_pci_driver (bdf : string) : Net string :=
  d ← gets (driver_of bdf);
  ok ← net_call (NReadDriver bdf) id;
  mret (match ok, d with true, Some d => Ok d | _, _ => Err (NFailed (NReadDriver bdf)) end).

(** What the kernel does on the three writes: an unbound device with an
    override is bound to that driver by a probe. *)
Definition override_driver (driver : string) (p : Pci) : Pci := mkPci (pci_driver p) (Some driver).
Definition unbind_driver (p : Pci) : Pci := mkPci None (pci_override p).
Definition probe_driver (p : Pci) : Pci :=
  match pci_driver p with Some _ => p | None => mkPci (pci_override p) (pci_override p) end.

Definition bind_device_to_driver (driver bdf : string) : Net unit :=
  let! current := get_pci_driver bdf in
  if bool_decide (current = driver) then mret (Ok tt) else
  do? net_must (NOverride bdf driver) (set_pci (alter (override_driver driver) bdf));;
  bound ← gets (λ h, bool_decide (is_Some (driver_of bdf h)));
  do? (if bound : bool then net_must (NUnbind bdf) (set_pci (alter unbind_driver bdf)) else mret (Ok tt));;
  do? net_must (NProbe bdf) (set_pci (alter probe_driver bdf));;
  let! result_driver := get_pci_driver bdf in
  mret (if bool_decide (result_driver = driver) then Ok tt else Err NWrongDriver).

(** ** Reading a link *)
Definition NetworkInterface_parse_from_message (msg : LinkMessage) (queue : N) : Net NetworkInterface :=
  let intf := mkIntf LUnknown (lm_index msg) "" [] [] 0 (flags_sum (lm_flags msg)) "" None 0 in
  let intf := foldl (read_attribute queue) intf (lm_attributes msg) in
  match lm_addresses msg with
  | None => mret (Err NAddresses)
  | Some l =>
      let intf := foldl read_address intf l in
      if bool_decide (ni_type intf = LUnknown) && bool_decide (ni_addresses intf ≠ []) then
        match lm_bdf msg with
        | None => mret (Err NNoBdf)
        | Some bdf =>
            let! driver := get_pci_driver bdf in
            mret (Ok (set_type (LPhysical bdf driver) intf))
        end
      else mret (Ok intf)
  end.

(** ** Attaching an interface *)

(** The loop of [create_tap_device]: one open descriptor per queue, attached
    to the tap [name] by [TUNSETIFF]. *)
Fixpoint open_queues (name : string) (n : nat) (fds : list N) : Net (list N) :=
  match n with
  | O => mret (Ok fds)
  | S n =>
      fd ← gets (λ h, nt_fd h (nt_opened h));
      do? net_must (NOpenTun name fd) (λ h, set_opened (nt_opened h + 1) h);;
      open_queues name n (fds ++ [fd])
  end.
Definition create_tap_device (tap_name : string) (queue : N) : Net (list N) :=
  if (15 <? N.of_nat (String.length tap_name))%N then mret (Err NNameTooLong) else
  let queue := if (queue =? 0)%N then 1%N else queue in
  let! fds := open_queues tap_name (N.to_nat queue) [] in
  do? net_must (NPersist tap_name) id;;
  mret (Ok fds).

Definition create_tap_in_netns (tap_name : string) (queue mtu : N) : Net (string * list N) :=
  let! fds := create_tap_device tap_name queue in
  do? net_must (NLinkGet tap_name) id;;
  msg ← gets (λ h, nt_links h tap_name);
  let! tap := NetworkInterface_parse_from_message msg queue in
  do? net_must (NLinkUp (ni_name tap) mtu) id;;
  mret (Ok (ni_name tap, fds)).

Definition DEVICE_DRIVER_VFIO : string := "vfio-pci".

Definition prepare_attaching (netns : string) (i : NetworkInterface) : Net NetworkInterface :=
  match ni_type i with
  | LVeth =>
      do? net_must (NHandle netns) id;;
      let! tap := create_tap_in_netns ("tap_kua_" +:+ pretty (ni_index i)) (ni_queue i) (ni_mtu i) in
      do? net_must (NQdisc netns tap.1) id;;
      do? net_must (NQdisc netns (ni_name i)) id;;
      do? net_must (NRedirect netns tap.1 (ni_name i)) id;;
      do? net_must (NRedirect netns (ni_name i) tap.1) id;;
      mret (Ok (set_twin (Some tap) i))
  | LPhysical bdf _ => do? bind_device_to_driver DEVICE_DRIVER_VFIO bdf;; mret (Ok i)
  | _ => mret (Ok i)
  end.

(** [NetworkInterface::attach_to]; the descriptors of the tap go to the VM. *)
Definition intf_attach_to (i : NetworkInterface) : Net NetworkInterface :=
  let id := "intf-" +:+ pretty (ni_index i) in
  let mac := mac_to_string (ni_mac i) in
  match ni_type i with
  | LVeth =>
      match ni_twin i with
      | Some (name, fds) =>
          do? on_vm (attach (TapInfo id name mac fds));; mret (Ok (set_twin (Some (name, [])) i))
      | None => mret (Err NNoTap)
      end
  | LVhostUser _ => do? on_vm (attach (VhostUserInfo id));; mret (Ok i)
  | LPhysical bdf _ => do? on_vm (attach (PhysicalInfo id bdf));; mret (Ok i)
  | LTap => do? on_vm (attach (TapInfo id (ni_name i) mac []));; mret (Ok i)
  | _ => mret (Ok i)
  end.

Definition after_detach (i : NetworkInterface) : Net unit :=
  match ni_type i with LPhysical bdf driver => bind_device_to_driver driver bdf | _ => mret (Ok tt) end.

(** ** Routes: [route.rs] *)
Definition RT_TABLE_MAIN : N := 254.

Inductive RouteAddress := RouteIp (i : IpAddr) | RouteUnsupported.
Inductive RouteAttribute :=
  | RDestination (a : RouteAddress) | RSource (a : RouteAddress) | RGateway (a : RouteAddress) | ROif (i : N) | ROther.
Record RouteMessage := mkRouteMsg {
  rm_table : N; rm_scope : N; rm_family : N; rm_flags : list N; rm_prefix : N; rm_attributes : list RouteAttribute
}.
(** The addresses before they are rendered ([None] is the empty string). *)
Record Route := mkRoute {
  rt_device : string; rt_source : option IpAddr; rt_dest : option IpNet; rt_gateway : option IpAddr;
  rt_scope : N; rt_family : N; rt_flags : N
}.

Definition convert_to_ip_address (a : RouteAddress) : option IpAddr :=
  match a with RouteIp i => Some i | RouteUnsupported => None end.

Definition read_route_attribute (intfs : list NetworkInterface) (prefix : N) (r : Route) (a : RouteAttribute) : option Route :=
  match a with
  | RDestination v =>
      i ← convert_to_ip_address v;
      Some (mkRoute (rt_device r) (rt_source r) (Some (mkIpNet i prefix)) (rt_gateway r) (rt_scope r) (rt_family r) (rt_flags r))
  | RSource v =>
      i ← convert_to_ip_address v;
      Some (mkRoute (rt_device r) (Some i) (rt_dest r) (rt_gateway r) (rt_scope r) (rt_family r) (rt_flags r))
  | RGateway v =>
      i ← convert_to_ip_address v;
      Some (mkRoute (rt_device r) (rt_source r) (rt_dest r) (Some i) (rt_scope r) (rt_family r) (rt_flags r))
  | ROif u =>
      x ← List.find (λ x, (ni_index x =? u)%N) intfs;
      Some (mkRoute (ni_name x) (rt_source r) (rt_dest r) (rt_gateway r) (rt_scope r) (rt_family r) (rt_flags r))
  | ROther => Some r
  end.

(** [None]: the message is not a route of the pod. *)
Definition Route_parse_from_message (msg : RouteMessage) (intfs : list NetworkInterface) : option Route :=
  if negb (rm_table msg =? RT_TABLE_MAIN)%N then None else
  let r := mkRoute "" None None None (rm_scope msg) (rm_family msg) (flags_sum (rm_flags msg)) in
  foldl (λ r a, r ← r; read_route_attribute intfs (rm_prefix msg) r a) (Some r) (rm_attributes msg).

Definition get_route (msgs : list RouteMessage) (intfs : list NetworkInterface) (routes : list Route) : list Route :=
  foldl (λ routes m, match Route_parse_from_message m intfs with Some r => routes ++ [r] | None => routes end) routes msgs.

(** ** The network of a sandbox: [mod.rs] *)
Record PodNetwork := mkPodNetwork { pn_netns : string; pn_queue : N; pn_intfs : list NetworkInterface; pn_routes : list Route }.

Definition filter_intfs (l : list NetworkInterface) : list NetworkInterface :=
  retain (λ i, match ni_type i with LVeth | LVhostUser _ | LPhysical _ _ | LTap | LLoopback => true | _ => false end) l.

(** The loop over the links: those that cannot be read are skipped, and
    loopback is. *)
Fixpoint read_links (queue : N) (msgs : list LinkMessage) (intfs : list NetworkInterface) : M NetHost (list NetworkInterface) :=
  match msgs with
  | [] => mret intfs
  | m :: msgs =>
      r ← NetworkInterface_parse_from_message m queue;
      match r with
      | Err _ => read_links queue msgs intfs
      | Ok i => read_links queue msgs (if bool_decide (ni_type i = LLoopback) then intfs else intfs ++ [i])
      end
  end.

(** [links], [v4] and [v6] are the answers of the namespace, each of which may
    end in an error. *)
Definition new_in_netns (netns : string) (queue : N) (links : list LinkMessage) (v4 v6 : list RouteMessage) : Net PodNetwork :=
  do? net_must (NHandle netns) id;;
  do? net_must (NLinks netns) id;;
  l ← read_links queue links [];
  let intfs := filter_intfs l in
  do? net_must (NRoutes netns 4) id;;
  do? net_must (NRoutes netns 6) id;;
  mret (Ok (mkPodNetwork netns queue intfs (get_route v6 intfs (get_route v4 intfs [])))).

Fixpoint attach_intfs (netns : string) (l : list NetworkInterface) : Net (list NetworkInterface) :=
  match l with
  | [] => mret (Ok [])
  | i :: l =>
      let! i := prepare_attaching netns i in
      let! i := intf_attach_to i in
      let! l := attach_intfs netns l in
      mret (Ok (i :: l))
  end.
(** [Network::attach_to]: the network the sandbox has afterwards. *)
Definition Network_attach_to (n : PodNetwork) : Net PodNetwork :=
  let! l := attach_intfs (pn_netns n) (pn_intfs n) in
  mret (Ok (mkPodNetwork (pn_netns n) (pn_queue n) l (pn_routes n))).

(** [Network::destroy]: errors are logged. *)
Fixpoint destroy_intfs (l : list NetworkInterface) : M NetHost unit :=
  match l with [] => mret tt | i :: l => _ ← after_detach i; destroy_intfs l end.
Definition Network_destroy (n : PodNetwork) : M NetHost unit := destroy_intfs (pn_intfs n).

(** [prepare_network] of [sandbox.rs]: one queue per CPU of the quota. *)
Definition network_queue (cpu_period cpu_quota : Z) : N :=
  if (0 <? cpu_period)%Z && (0 <? cpu_quota)%Z
  then N.min (Z.to_N ((cpu_quota + cpu_period - 1) / cpu_period)) u32_max else 1%N.
Definition pod_prepare_network (netns : string) (cpu_period cpu_quota : Z) (links : list LinkMessage) (v4 v6 : list RouteMessage)
  : Net PodNetwork :=
  let! n := new_in_netns netns (network_queue cpu_period cpu_quota) links v4 v6 in
  Network_attach_to n.
Definition pod_destroy_network (n : option PodNetwork) : M NetHost unit :=
  match n with Some n => Network_destroy n | None => mret tt end.

(** What is left of an interface after the sandbox was dumped and read back:
    the fields marked [serde(skip)] are the defaults. *)
Definition reloaded_intf (i : NetworkInterface) : NetworkInterface :=
  mkIntf LUnknown 0 (ni_name i) [] (mac_of_string (mac_to_string (ni_mac i))) (ni_mtu i) 0 "" None 0.
Definition reloaded_route (r : Route) : Route :=
  mkRoute (rt_device r) None (rt_dest r) (rt_gateway r) (rt_scope r) (rt_family r) (rt_flags r).
Definition reloaded_network (n : PodNetwork) : PodNetwork :=
  mkPodNetwork (pn_netns n) (pn_queue n) (reloaded_intf <$> pn_intfs n) (reloaded_route <$> pn_routes n).

(** ** What the guest is told: [convert.rs] *)
Record Interface := mkInterface {
  if_device : string; if_name : string; if_addresses : list (bool * IpAddr * string); if_mtu : N; if_hw_addr : string; if_raw_flags : N
}.
Definition IPAddress_from (n : IpNet) : bool * IpAddr * string := (is_ipv6 (ip n), ip n, pretty (prefix_len n)).
Definition Interface_from (i : NetworkInterface) : Interface :=
  mkInterface (ni_name i) (ni_name i) (IPAddress_from <$> ni_addresses i) (ni_mtu i) (mac_to_string (ni_mac i)) (ni_flags i).
