(* ===== verification/NetProps.v ===== *)
(** * The pod network: properties

    Addresses, the drivers of physical devices, and what a sandbox's VM gets
    of its network. *)
From S2P Require Import Prelude Strs Storage Types Metrics Disk Pool Continuation GuestScan Mount Frame Inject Annotations Box BlockImage StorageOps Handlers Sandboxer Fs Descriptors ChConfig ChSnapshot ChDriver ChLemmas ChSample ChProcess ChAttach Net.

(** ** Masks *)
Lemma checked_shl_max_bits w s i : (s ≤ w)%N → N.testbit (checked_shl_max w s) i = ((s <=? i)%N && (i <? w)%N).
Proof.
  intros Hs. unfold checked_shl_max, uwrap. destruct (N.ltb_spec s w).
  - destruct (N.ltb_spec i w).
    + rewrite N.mod_pow2_bits_low by done. destruct (N.leb_spec s i).
      * rewrite N.shiftl_spec_high' by done. rewrite N.sub_1_r, <- N.ones_equiv, N.ones_spec_low by lia. done.
      * by rewrite N.shiftl_spec_low.
    + rewrite N.mod_pow2_bits_high by done. by rewrite andb_false_r.
  - assert (s = w) as -> by lia. rewrite N.bits_0. destruct (N.leb_spec w i), (N.ltb_spec i w); try done; lia.
Qed.

(** The mask of a prefix has its [prefix_len] highest bits set, and no other. *)
Lemma netmask_bits n i : (prefix_len n ≤ if is_ipv6 (ip n) then 128 else 32)%N →
  match netmask n with
  | V4 m => is_ipv6 (ip n) = false ∧ N.testbit m i = ((32 - prefix_len n <=? i)%N && (i <? 32)%N)
  | V6 m => is_ipv6 (ip n) = true ∧ N.testbit m i = ((128 - prefix_len n <=? i)%N && (i <? 128)%N)
  end.
Proof.
  intros Hp. unfold netmask, netmask_32, netmask_u128.
  assert (∀ w, (prefix_len n ≤ w)%N → (w < 256)%N → uwrap 8 (w + 256 - prefix_len n) = (w - prefix_len n)%N) as Hw.
  { intros w H1 H2. unfold uwrap. change (2 ^ 8)%N with 256%N.
    replace (w + 256 - prefix_len n)%N with (w - prefix_len n + 1 * 256)%N by lia. rewrite N.Div0.mod_add. apply N.mod_small. lia. }
  destruct (is_ipv6 (ip n)); (split; [done|]); rewrite Hw by done; apply checked_shl_max_bits; lia.
Qed.

(** A prefix longer than the address: the difference wraps, and the mask is
    empty. *)
Lemma netmask_of_long_prefix a p : (32 < p < 256)%N → netmask (mkIpNet (V4 a) p) = V4 0.
Proof.
  intros Hp. unfold netmask, netmask_32, checked_shl_max. cbn [is_ipv6 ip prefix_len]. f_equal.
  change (32 + 256)%N with 288%N. assert (uwrap 8 (288 - p) = 288 - p)%N as -> by (apply uwrap_small; change (2 ^ 8)%N with 256%N; lia).
  destruct (N.ltb_spec (288 - p) 32); [lia|done].
Qed.

(** ** MAC addresses *)
Lemma hex_digit_value n : (n < 16)%N → hex_value (hex_digit n) = Some n.
Proof.
  intros Hn. assert (∀ k, k < 16 → hex_value (hex_digit (N.of_nat k)) = Some (N.of_nat k)) as H.
  { intros k Hk. do 16 (destruct k as [|k]; [reflexivity|]). lia. }
  rewrite <- (N2Nat.id n). apply H. lia.
Qed.

Lemma hex_digit_plain n : (n < 16)%N → hex_digit n ≠ ":"%char ∧ hex_digit n ≠ "+"%char.
Proof.
  intros Hn. assert (∀ k, k < 16 → hex_digit (N.of_nat k) ≠ ":"%char ∧ hex_digit (N.of_nat k) ≠ "+"%char) as H.
  { intros k Hk. do 16 (destruct k as [|k]; [by split|]). lia. }
  rewrite <- (N2Nat.id n). apply H. lia.
Qed.

Lemma byte_of_hex2 b : (b < 256)%N → byte_of_hex (hex2 b) = b.
Proof.
  intros Hb. assert (b / 16 < 16)%N as H1 by (apply N.Div0.div_lt_upper_bound; lia).
  assert (b `mod` 16 < 16)%N as H2 by (by apply N.mod_lt). destruct (hex_digit_plain _ H1) as [_ Hp].
  unfold byte_of_hex, hex2. assert ((match String (hex_digit (b / 16)) (String (hex_digit (b `mod` 16)) "") with
     | String "+" t => t | _ => String (hex_digit (b / 16)) (String (hex_digit (b `mod` 16)) "") end) =
     String (hex_digit (b / 16)) (String (hex_digit (b `mod` 16)) "")) as ->.
  { by repeat case_match. }
  rewrite bool_decide_eq_false_2 by done. cbn [radix16]. rewrite (hex_digit_value _ H1), (hex_digit_value _ H2).
  cbn [mbind option_bind]. pose proof (N.Div0.div_mod b 16). rewrite N.mul_0_l, N.add_0_l.
  destruct (N.leb_spec (b / 16) 255); [|lia]. destruct (N.leb_spec (b / 16 * 16 + b `mod` 16) 255); cbn [default from_option]; [unfold id|]; lia.
Qed.

(** The text of an address is read back. *)
Lemma mac_roundtrip m : m ≠ [] → Forall (λ b, (b < 256)%N) m → mac_of_string (mac_to_string m) = m.
Proof.
  intros Hne Hm. unfold mac_of_string, mac_to_string. rewrite split_join.
  - rewrite <- list_fmap_compose. rewrite <- (list_fmap_id m) at 2. apply list_fmap_ext. intros i b Hb. simpl.
    rewrite Forall_lookup in Hm. apply byte_of_hex2. by eapply Hm.
  - by destruct m.
  - intros w (b & -> & Hb)%list_elem_of_fmap. rewrite Forall_forall in Hm. specialize (Hm b Hb). unfold hex2.
    destruct (hex_digit_plain (b / 16)) as [? _]; [apply N.Div0.div_lt_upper_bound; lia|].
    destruct (hex_digit_plain (b `mod` 16)) as [? _]; [by apply N.mod_lt|].
    simpl. by rewrite !decide_False.
Qed.

(** The empty address is not: it comes back as one zero byte. *)
Lemma mac_roundtrip_empty : mac_of_string (mac_to_string []) = [0%N].
Proof. reflexivity. Qed.

(** ** Calls on the host *)
Lemma net_call_inv c f h ok h' : net_call c f h = Some (ok, h') →
  ∃ g, (g = f h ∨ g = h ∧ ok = false) ∧ nt_driver h' = nt_driver g ∧ nt_pci h' = nt_pci g ∧ nt_links h' = nt_links g ∧
    nt_fd h' = nt_fd g ∧ nt_opened h' = nt_opened g ∧ nt_trace h' = nt_trace g ++ [(c, ok)] ∧
    (nt_outs h = [] → ok = true ∧ nt_outs h' = []).
Proof.
  unfold net_call. destruct (nt_outs h) as [|[|e took s] l]; intros [= <- <-]; simpl.
  - exists (f h). eauto 10.
  - exists (f h). split; [by left|]. repeat (split; [done|]). done.
  - destruct took; [exists (f h)|exists h]; (split; [by auto|]); repeat (split; [done|]); done.
Qed.

(** A state in which only devices in [X] and the log may differ. *)
Definition net_frame (X : string → Prop) (h h' : NetHost) : Prop :=
  nt_driver h' = nt_driver h ∧ nt_links h' = nt_links h ∧ nt_fd h' = nt_fd h ∧ nt_trace h `prefix_of` nt_trace h' ∧
  (∀ b, ¬ X b → nt_pci h' !! b = nt_pci h !! b).
#[global] Instance net_frame_po X : PreOrder (net_frame X).
Proof.
  split; [by intros h|]. intros a b c (A1 & A2 & A3 & A4 & A5) (B1 & B2 & B3 & B4 & B5).
  repeat (split; [etrans; eauto|]). intros x Hx. by rewrite B5, A5.
Qed.

Definition framed {A} (X : string → Prop) (m : M NetHost A) : Prop := ∀ h a h', m h = Some (a, h') → net_frame X h h'.
Lemma framed_ret {A} X (a : A) : framed X (mret a).
Proof. intros h b h' [= <- <-]. done. Qed.
Lemma framed_gets {A} X (f : NetHost → A) : framed X (gets f).
Proof. intros h b h' [= <- <-]. done. Qed.
Lemma framed_bind {A B} X (m : M NetHost A) (k : A → M NetHost B) : framed X m → (∀ a, framed X (k a)) → framed X (m ≫= k).
Proof. intros Hm Hk h b h' (a & h1 & E1 & E2)%bind_inv. etrans; [by eapply Hm|by eapply Hk]. Qed.
Lemma framed_call X c f : (∀ h, nt_driver (f h) = nt_driver h ∧ nt_links (f h) = nt_links h ∧ nt_fd (f h) = nt_fd h ∧ nt_trace (f h) = nt_trace h ∧ ∀ b, ¬ X b → nt_pci (f h) !! b = nt_pci h !! b) →
  framed X (net_call c f).
Proof.
  intros Hf h ok h' (g & Hg & D & P & L & F & _ & T & _)%net_call_inv. unfold net_frame. rewrite D, P, L, F, T.
  destruct (Hf h) as (H1 & H2 & H3 & H4 & H5). destruct Hg as [-> |[-> _]].
  - rewrite H1, H2, H3, H4. repeat (split; [done|]). split; [by apply prefix_app_r|done].
  - repeat (split; [done|]). split; [by apply prefix_app_r|done].
Qed.
Lemma framed_alter X c f bdf : X bdf → framed X (net_call c (set_pci (alter f bdf))).
Proof. intros Hb. apply framed_call. intros h. simpl. repeat (split; [done|]). intros b Hn. apply lookup_alter_ne. by intros ->. Qed.
Lemma framed_id X c : framed X (net_call c id).
Proof. apply framed_call. done. Qed.

Create HintDb net discriminated.
#[export] Hint Resolve framed_ret framed_gets framed_id framed_alter : net.

Ltac frame :=
  repeat first
    [ by auto with net
    | apply framed_bind; [|intros ?]
    | progress unfold net_must
    | case_match ].

Lemma framed_get_driver X bdf : framed X (get_pci_driver bdf).
Proof. unfold get_pci_driver. frame. Qed.
#[export] Hint Resolve framed_get_driver : net.
Lemma framed_bind_device (X : string → Prop) driver bdf : X bdf → framed X (bind_device_to_driver driver bdf).
Proof. intros HX. unfold bind_device_to_driver. frame. Qed.
#[export] Hint Resolve framed_bind_device : net.

(** ** Binding a device *)
Lemma get_driver_inv bdf h r h' : get_pci_driver bdf h = Some (r, h') →
  nt_pci h' = nt_pci h ∧ (∀ d, r = Ok d → driver_of bdf h = Some d) ∧
  (nt_outs h = [] → nt_outs h' = [] ∧ ∀ d, driver_of bdf h = Some d → r = Ok d).
Proof.
  unfold get_pci_driver. intros (d & h0 & E0 & E)%bind_inv. injection E0 as <- <-.
  apply bind_inv in E as (ok & h1 & E1 & E). injection E as <- <-.
  apply net_call_inv in E1 as (g & Hg & _ & P & _ & _ & _ & _ & O). split; [by destruct Hg as [-> |[-> _]]|]. split.
  - intros d Hd. destruct ok, (driver_of bdf h); try done. by injection Hd as ->.
  - intros Ho. destruct (O Ho) as [-> ->]. split; [done|]. by intros d ->.
Qed.

(** A device that was bound is on the driver it was bound to. *)
Lemma bind_bound driver bdf h r h' : bind_device_to_driver driver bdf h = Some (r, h') → r = Ok tt → driver_of bdf h' = Some driver.
Proof.
  assert (∀ g r g', get_pci_driver bdf g = Some (r, g') → ∀ d, r = Ok d → driver_of bdf g' = Some d) as Hget.
  { intros g x g' (P & D & _)%get_driver_inv d Hd. unfold driver_of in *. rewrite P. auto. }
  unfold bind_device_to_driver. intros (r1 & h1 & E1 & E)%bind_inv. destruct r1 as [cur|]; [|run E; by subst].
  case_bool_decide as Hcur; [run E; subst; intros _; by eapply Hget|].
  apply bind_inv in E as (r2 & h2 & _ & E). destruct r2; [|run E; by subst].
  apply bind_inv in E as (b & h3 & _ & E). apply bind_inv in E as (r4 & h4 & _ & E). destruct r4; [|run E; by subst].
  apply bind_inv in E as (r5 & h5 & _ & E). destruct r5; [|run E; by subst].
  apply bind_inv in E as (r6 & h6 & E6 & E). destruct r6 as [d|]; [|run E; by subst]. run E. subst.
  case_bool_decide as Hd; [|done]. intros _. rewrite <- Hd. by eapply Hget.
Qed.

(** Without failures every bound device can be bound to any driver. *)
Lemma good_call c f h : nt_outs h = [] → net_call c f h =
  Some (true, mkNetHost (nt_driver (f h)) (nt_pci (f h)) (nt_links (f h)) (nt_fd (f h)) (nt_opened (f h)) (nt_trace (f h) ++ [(c, true)]) []).
Proof. unfold net_call. by intros ->. Qed.
Lemma good_must c f h : nt_outs h = [] → net_must c f h =
  Some (Ok tt, mkNetHost (nt_driver (f h)) (nt_pci (f h)) (nt_links (f h)) (nt_fd (f h)) (nt_opened (f h)) (nt_trace (f h) ++ [(c, true)]) []).
Proof. intros Ho. unfold net_must. by rewrite bind_run, good_call. Qed.
Lemma good_driver bdf d h : nt_outs h = [] → driver_of bdf h = Some d → get_pci_driver bdf h =
  Some (Ok d, mkNetHost (nt_driver h) (nt_pci h) (nt_links h) (nt_fd h) (nt_opened h) (nt_trace h ++ [(NReadDriver bdf, true)]) []).
Proof. intros Ho Hd. unfold get_pci_driver. rewrite bind_run. simpl. by rewrite bind_run, good_call, Hd. Qed.

Lemma bind_succeeds driver bdf h : nt_outs h = [] → is_Some (driver_of bdf h) →
  ∃ h', bind_device_to_driver driver bdf h = Some (Ok tt, h') ∧ nt_outs h' = [].
Proof.
  intros Ho [cur Hc]. unfold bind_device_to_driver. rewrite bind_run, (good_driver _ _ _ Ho Hc).
  case_bool_decide; [by eexists|]. rewrite bind_run, good_must by done. rewrite bind_run. simpl.
  unfold driver_of in Hc. destruct (nt_pci h !! bdf) as [p|] eqn:Ep; simpl in Hc; [|done].
  rewrite bool_decide_eq_true_2 by (unfold driver_of; simpl; rewrite lookup_alter_eq, Ep; simpl; rewrite Hc; eauto).
  rewrite bind_run, good_must by done. rewrite bind_run, good_must by done. rewrite bind_run, (good_driver bdf driver) by (try done;
    unfold driver_of; simpl; by rewrite !lookup_alter_eq, Ep). rewrite bool_decide_eq_true_2 by done. by eexists.
Qed.

(** ** Attaching *)
Definition phys_devices (l : list NetworkInterface) : list string :=
  omap (λ i, match ni_type i with LPhysical bdf _ => Some bdf | _ => None end) l.

Lemma on_vm_inv {A} (m : Ch A) h r h' : on_vm m h = Some (r, h') →
  ∃ x d, m (nt_driver h) = Some (x, d) ∧ (∀ a, r = Ok a → x = Ok a) ∧ nt_driver h' = d ∧ nt_pci h' = nt_pci h ∧
    nt_links h' = nt_links h ∧ nt_trace h' = nt_trace h ∧ nt_outs h' = nt_outs h.
Proof.
  unfold on_vm. destruct (m (nt_driver h)) as [[x d]|] eqn:E; [|done]. intros [= <- <-]. exists x, d.
  split; [done|]. split; [|done]. intros a. by destruct x; [intros [= ->]|].
Qed.

(** The interface a link message describes, before physical devices are
    looked up. *)
Definition described (m : LinkMessage) (queue : N) : NetworkInterface :=
  foldl read_address (foldl (read_attribute queue) (mkIntf LUnknown (lm_index m) "" [] [] 0 (flags_sum (lm_flags m)) "" None 0) (lm_attributes m))
    (default [] (lm_addresses m)).

Lemma parse_name msg queue h i h' :
  NetworkInterface_parse_from_message msg queue h = Some (Ok i, h') → ni_name i = ni_name (described msg queue).
Proof.
  unfold NetworkInterface_parse_from_message, described. destruct (lm_addresses msg) as [l|]; [|done]. simpl.
  case_match; [|by intros [= <- <-]]. destruct (lm_bdf msg) as [bdf|]; [|done].
  intros (r & h1 & _ & E)%bind_inv. destruct r; run E; by simplify_eq.
Qed.

(** A call whose success is in the log. *)
Lemma must_logged c f h h' r : net_must c f h = Some (r, h') → r = Ok tt → (c, true) ∈ nt_trace h'.
Proof.
  unfold net_must. intros (ok & h1 & E1 & E)%bind_inv. run E. subst. destruct ok; [|done]. intros _.
  apply net_call_inv in E1 as (g & _ & _ & _ & _ & _ & _ & -> & _). apply elem_of_app. right. by left.
Qed.

(** Every descriptor was opened for the tap [name]. *)
Definition opened_for (name : string) (h : NetHost) (fds : list N) : Prop :=
  Forall (λ fd, (NOpenTun name fd, true) ∈ nt_trace h) fds.
Lemma opened_prefix name h h' fds : nt_trace h `prefix_of` nt_trace h' → opened_for name h fds → opened_for name h' fds.
Proof.
  intros [k Hk] Ho. eapply Forall_impl; [exact Ho|]. intros fd Hfd. simpl. rewrite Hk. apply elem_of_app. by left.
Qed.

(** The descriptors of a new tap: one per queue, and at least one. *)
Lemma open_queues_spec name n : ∀ fds h r h', open_queues name n fds h = Some (r, h') →
  net_frame (λ _, False) h h' ∧ ∀ l, r = Ok l → length l = length fds + n ∧ (opened_for name h fds → opened_for name h' l).
Proof.
  induction n as [|n IH]; intros fds h r h' E; simpl in E.
  - run E. subst. split; [done|]. intros l [= <-]. split; [lia|done].
  - apply bind_inv in E as (fd & h0 & E0 & E). injection E0 as _ <-. apply bind_inv in E as (r1 & h1 & E1 & E).
    assert (net_frame (λ _, False) h h1) as F1.
    { revert E1. apply (λ H : framed _ _, H h r1 h1). unfold net_must. apply framed_bind; [by apply framed_call|intros ?; frame]. }
    pose proof (must_logged _ _ _ _ _ E1) as T1.
    destruct r1 as [[]|]; [|run E; by subst]. apply IH in E as [F2 H2]. split; [by etrans|].
    intros l Hl. destruct (H2 l Hl) as [L2 O2]. split; [rewrite L2, length_app; simpl; lia|]. intros Ho. apply O2.
    apply Forall_app. split; [|constructor; [by apply T1|done]]. eapply opened_prefix; [apply F1|done].
Qed.

Lemma create_tap_spec name queue mtu h r h' : create_tap_in_netns name queue mtu h = Some (r, h') →
  net_frame (λ _, False) h h' ∧ ∀ tap, r = Ok tap →
    length tap.2 = N.to_nat (N.max 1 queue) ∧ opened_for name h' tap.2 ∧
    tap.1 = ni_name (described (nt_links h' name) queue).
Proof.
  unfold create_tap_in_netns, create_tap_device. intros (r0 & h0 & E0 & E)%bind_inv.
  assert (net_frame (λ _, False) h h0 ∧ ∀ fds, r0 = Ok fds →
    length fds = N.to_nat (N.max 1 queue) ∧ opened_for name h0 fds) as [F0 L0].
  { destruct (15 <? N.of_nat (String.length name))%N; [run E0; subst; by split|]. apply bind_inv in E0 as (r1 & h1 & E1 & E0). apply open_queues_spec in E1 as [F1 L1].
    destruct r1 as [fds|]; [|run E0; by subst]. apply bind_inv in E0 as (r2 & h2 & E2 & E0).
    assert (net_frame (λ _, False) h1 h2) as F2 by (revert E2; apply (λ H : framed _ _, H h1 r2 h2); frame).
    split; [etrans; [exact F1|]; destruct r2; run E0; by subst|]. destruct r2; run E0; subst; [|done].
    destruct (L1 fds eq_refl) as [L1' O1]. intros l [= <-]. split; [rewrite L1'; simpl; destruct (N.eqb_spec queue 0); lia|].
    eapply opened_prefix; [apply F2|]. by apply O1, Forall_nil. }
  destruct r0 as [fds|]; [|run E; by subst]. destruct (L0 fds eq_refl) as [L0' O0].
  assert (net_frame (λ _, False) h0 h') as F1.
  { revert E. apply (λ H : framed _ _, H h0 r h'). unfold NetworkInterface_parse_from_message. frame. }
  split; [by etrans|]. intros tap Ht. assert (nt_links h' = nt_links h0) as EL by apply F1.
  apply bind_inv in E as (r1 & h1 & E1 & E). destruct r1; [|run E; by subst].
  assert (nt_links h1 = nt_links h0) as EL1.
  { revert E1. intros E1%(λ H : framed (λ _, False) _, H h0 _ h1); [apply E1|frame]. }
  apply bind_inv in E as (msg & h2 & E2 & E). injection E2 as <- <-.
  apply bind_inv in E as (r3 & h3 & E3 & E). destruct r3 as [i3|]; [|run E; by subst]. apply parse_name in E3.
  apply bind_inv in E as (r4 & h4 & _ & E). destruct r4; [|run E; by subst]. run E. subst. injection Ht as <-. simpl.
  split; [done|]. split; [eapply opened_prefix; [apply F1|done]|]. by rewrite EL, <- EL1.
Qed.

(** The tap beside a veth. *)
Definition tap_of (i : NetworkInterface) : string := "tap_kua_" +:+ pretty (ni_index i).
Definition tap_reported (i : NetworkInterface) (h : NetHost) : string := ni_name (described (nt_links h (tap_of i)) (ni_queue i)).

(** What preparing an interface establishes. *)
Definition prepared_intf (netns : string) (i i' : NetworkInterface) (h' : NetHost) : Prop :=
  match ni_type i with
  | LVeth => ∃ name fds, i' = set_twin (Some (name, fds)) i ∧ length fds = N.to_nat (N.max 1 (ni_queue i)) ∧
      opened_for (tap_of i) h' fds ∧ name = tap_reported i h' ∧
      (NRedirect netns name (ni_name i), true) ∈ nt_trace h' ∧ (NRedirect netns (ni_name i) name, true) ∈ nt_trace h'
  | LPhysical bdf _ => i' = i ∧ driver_of bdf h' = Some DEVICE_DRIVER_VFIO
  | _ => i' = i
  end.

Lemma prepare_spec netns i h r h' : prepare_attaching netns i h = Some (r, h') →
  net_frame (λ b, b ∈ phys_devices [i]) h h' ∧ ∀ i', r = Ok i' → prepared_intf netns i i' h'.
Proof.
  unfold prepare_attaching, prepared_intf, phys_devices. simpl. destruct (ni_type i) as [| | | | | | | | | | |bdf drv| |] eqn:Et;
    try (intros E; run E; subst; split; [done|]; by intros i' [= <-]).
  - intros (r1 & h1 & E1 & E)%bind_inv. assert (∀ X c g x g', net_must c id g = Some (x, g') → net_frame X g g') as Hm.
    { intros X c g x g'. apply (λ H : framed _ _, H g x g'). frame. }
    assert (∀ g g', net_frame (λ _ : string, False) g g' → net_frame (λ b, b ∈ @nil string) g g') as Hw.
    { intros g g' (? & ? & ? & ? & HP). repeat (split; [done|]). intros b _. apply HP; tauto. }
    apply Hm with (X := λ b, b ∈ @nil string) in E1. destruct r1 as [[]|]; [|run E; subst; by split].
    apply bind_inv in E as (r2 & h2 & E2 & E). apply create_tap_spec in E2 as [F2%Hw L2]. destruct r2 as [[name fds]|]; [|run E; subst; split; [by etrans|done]].
    apply bind_inv in E as (r3 & h3 & E3 & E). apply Hm with (X := λ b, b ∈ @nil string) in E3. destruct r3 as [[]|]; [|run E; subst; split; [by repeat (etrans; [done|])|done]].
    apply bind_inv in E as (r4 & h4 & E4 & E). apply Hm with (X := λ b, b ∈ @nil string) in E4. destruct r4 as [[]|]; [|run E; subst; split; [by repeat (etrans; [done|])|done]].
    apply bind_inv in E as (r5 & h5 & E5 & E). pose proof (must_logged _ _ _ _ _ E5) as T5. apply Hm with (X := λ b, b ∈ @nil string) in E5.
    destruct r5 as [[]|]; [|run E; subst; split; [by repeat (etrans; [done|])|done]]. specialize (T5 eq_refl).
    apply bind_inv in E as (r6 & h6 & E6 & E). pose proof (must_logged _ _ _ _ _ E6) as T6. apply Hm with (X := λ b, b ∈ @nil string) in E6.
    destruct r6 as [[]|]; [|run E; subst; split; [by repeat (etrans; [done|])|done]]. specialize (T6 eq_refl).
    run E. subst. destruct (L2 _ eq_refl) as (L3 & O3 & N3). simpl in L3, O3, N3.
    assert (net_frame (λ b, b ∈ @nil string) h2 h') as F26 by (by repeat (etrans; [done|])).
    split; [by repeat (etrans; [done|])|]. intros i' [= <-]. exists name, fds. split; [done|]. split; [done|].
    split; [eapply opened_prefix; [apply F26|done]|]. split; [unfold tap_reported; destruct F26 as (_ & -> & _); exact N3|].
    split; [|done]. destruct E6 as (_ & _ & _ & [k ->] & _). apply elem_of_app. by left.
  - intros (r1 & h1 & E1 & E)%bind_inv. pose proof (framed_bind_device (λ b, b ∈ [bdf]) _ _ (list_elem_of_here bdf []) _ _ _ E1) as F1.
    pose proof (bind_bound _ _ _ _ _ E1) as B1. destruct r1 as [[]|]; run E; subst; (split; [done|]); [|done]. intros i' [= <-]. eauto.
Qed.

(** An interface without its tap. *)
Definition base_of (i : NetworkInterface) : NetworkInterface := set_twin None i.

Definition intf_id (i : NetworkInterface) : string := "intf-" +:+ pretty (ni_index i).
Definition the_vm (h : NetHost) : CloudHypervisorVM := dr_vm (nt_driver h).

Lemma intf_attach_spec i h r h' : intf_attach_to i h = Some (r, h') →
  nt_pci h' = nt_pci h ∧ nt_trace h' = nt_trace h ∧ nt_links h' = nt_links h ∧ ∀ i', r = Ok i' →
    extends (the_vm h) (the_vm h') ∧ base_of i' = base_of i ∧
    ∀ name fds, ni_type i = LVeth → ni_twin i = Some (name, fds) → tap_device (the_vm h') (intf_id i) name (mac_to_string (ni_mac i)) fds.
Proof.
  assert (∀ info (k : NetworkInterface) g x g', (y ← on_vm (attach info); match y with Ok _ => mret (Ok k) | Err e => mret (Err e) end) g = Some (x, g') →
    nt_pci g' = nt_pci g ∧ nt_trace g' = nt_trace g ∧ nt_links g' = nt_links g ∧ ∀ j, x = Ok j → j = k ∧ extends (the_vm g) (the_vm g') ∧
      ∀ i name mac fds, info = TapInfo i name mac fds → tap_device (the_vm g') i name mac fds) as Hvm.
  { intros info k g x g' (y & g1 & E1 & E)%bind_inv. apply on_vm_inv in E1 as (z & d & Ea & Hz & Hd & Hp & Hl & Ht & _).
    destruct y as [[]|]; run E; subst; (split; [done|]); (split; [done|]); (split; [done|]); [|done]. intros j [= <-]. split; [done|]. unfold the_vm.
    destruct (attach_spec _ _ _ _ Ea (Hz tt eq_refl)) as [X T]. split; [done|]. intros i0 name mac fds Hi. by apply T. }
  unfold intf_attach_to. destruct (ni_type i) eqn:Et.
  all: try (intros E; run E; subst; split; [done|]; split; [done|]; split; [done|]; intros i' [= <-]; split; [done|]; by split).
  - destruct (ni_twin i) as [[name fds]|] eqn:Ew; [|intros E; run E; subst; done].
    intros (P & T & Lk & H)%Hvm. split; [done|]. split; [done|]. split; [done|]. intros i' Hi'. destruct (H i' Hi') as (-> & X & D). split; [done|]. split; [done|].
    intros n f _ [= <- <-]. by apply D.
  - intros (P & T & Lk & H)%Hvm. split; [done|]. split; [done|]. split; [done|]. intros i' Hi'. destruct (H i' Hi') as (-> & X & D). done.
  - intros (P & T & Lk & H)%Hvm. split; [done|]. split; [done|]. split; [done|]. intros i' Hi'. destruct (H i' Hi') as (-> & X & D). done.
  - intros (P & T & Lk & H)%Hvm. split; [done|]. split; [done|]. split; [done|]. intros i' Hi'. destruct (H i' Hi') as (-> & X & D). done.
Qed.

(** The tap of a veth, wired to the VM and to the veth. *)
Definition veth_attached (netns : string) (i : NetworkInterface) (h : NetHost) : Prop :=
  ∃ name fds, tap_device (the_vm h) (intf_id i) name (mac_to_string (ni_mac i)) fds ∧
    length fds = N.to_nat (N.max 1 (ni_queue i)) ∧ opened_for (tap_of i) h fds ∧ name = tap_reported i h ∧
    (NRedirect netns name (ni_name i), true) ∈ nt_trace h ∧ (NRedirect netns (ni_name i) name, true) ∈ nt_trace h.

Lemma veth_stays netns i h h' :
  extends (the_vm h) (the_vm h') → nt_trace h `prefix_of` nt_trace h' → nt_links h' = nt_links h →
  veth_attached netns i h → veth_attached netns i h'.
Proof.
  intros X Hp EL (name & fds & (net & Hd & Hi & Hm & Hw) & L & O & Nm & T1 & T2). exists name, fds. split.
  - exists net. split; [by apply X|]. split; [done|]. split; [done|by eapply wired_extends].
  - split; [done|]. split; [by eapply opened_prefix|]. split; [unfold tap_reported; by rewrite EL|].
    destruct Hp as [k Hk]. rewrite Hk, !elem_of_app. auto.
Qed.

(** What attaching a list of interfaces establishes. *)
Record attached (netns : string) (l l' : list NetworkInterface) (h h' : NetHost) : Prop := mkAttached {
  at_base : base_of <$> l' = base_of <$> l;
  at_vm : extends (the_vm h) (the_vm h');
  at_trace : nt_trace h `prefix_of` nt_trace h';
  at_links : nt_links h' = nt_links h;
  at_pci : ∀ b, b ∉ phys_devices l → nt_pci h' !! b = nt_pci h !! b;
  at_vfio : ∀ b, b ∈ phys_devices l ∨ driver_of b h = Some DEVICE_DRIVER_VFIO → driver_of b h' = Some DEVICE_DRIVER_VFIO;
  at_veth : ∀ i, i ∈ l → ni_type i = LVeth → veth_attached netns i h'
}.

Lemma attach_intfs_spec netns l : ∀ h r h', attach_intfs netns l h = Some (r, h') → ∀ l', r = Ok l' → attached netns l l' h h'.
Proof.
  induction l as [|i l IH]; intros h r h' E l' Hr; simpl in E.
  { run E. subst. injection Hr as <-. split; try done; [by intros b [?%elem_of_nil|?]|by intros i ?%elem_of_nil]. }
  apply bind_inv in E as (r1 & h1 & E1 & E). apply prepare_spec in E1 as [F1 P1]. destruct r1 as [i1|]; [|run E; by subst].
  specialize (P1 i1 eq_refl). apply bind_inv in E as (r2 & h2 & E2 & E). apply intf_attach_spec in E2 as (P2 & T2 & K2 & A2).
  destruct r2 as [i2|]; [|run E; by subst]. destruct (A2 i2 eq_refl) as (X2 & Ty2 & V2).
  apply bind_inv in E as (r3 & h3 & E3 & E). destruct r3 as [l3|]; [|run E; by subst].
  specialize (IH _ _ _ E3 l3 eq_refl). run E. subst. injection Hr as <-.
  destruct F1 as (D1 & K1 & _ & Tr1 & Pc1).
  assert (extends (the_vm h) (the_vm h2)) as X12 by (unfold the_vm in *; by rewrite D1 in X2).
  assert (nt_trace h `prefix_of` nt_trace h2) as T12 by (by rewrite T2).
  assert (base_of i1 = base_of i) as Ty1 by (unfold prepared_intf in P1; destruct (ni_type i) eqn:Et; try (by rewrite P1);
    [destruct P1 as (? & ? & -> & _); done|destruct P1 as [-> _]; done]).
  assert (phys_devices (i :: l) = phys_devices [i] ++ phys_devices l) as Hph by (unfold phys_devices; simpl; by destruct (ni_type i)).
  split.
  - by rewrite !fmap_cons, Ty2, Ty1, (at_base _ _ _ _ _ IH).
  - etrans; [exact X12|apply (at_vm _ _ _ _ _ IH)].
  - etrans; [exact T12|apply (at_trace _ _ _ _ _ IH)].
  - by rewrite (at_links _ _ _ _ _ IH), K2.
  - intros b Hb. rewrite Hph, elem_of_app in Hb. rewrite (at_pci _ _ _ _ _ IH) by tauto. rewrite P2. apply Pc1. tauto.
  - intros b Hb. apply (at_vfio _ _ _ _ _ IH). rewrite Hph, elem_of_app in Hb.
    destruct (decide (b ∈ phys_devices l)) as [?|Hl]; [by left|right]. unfold driver_of. rewrite P2. fold (driver_of b h1).
    destruct (decide (b ∈ phys_devices [i])) as [Hi|Hi].
    + unfold phys_devices in Hi. simpl in Hi. unfold prepared_intf in P1. destruct (ni_type i); try (by apply elem_of_nil in Hi).
      apply list_elem_of_singleton in Hi as ->. by destruct P1.
    + unfold driver_of. rewrite Pc1 by done. fold (driver_of b h). tauto.
  - intros x [->|Hx]%elem_of_cons Hv; [|by apply (at_veth _ _ _ _ _ IH)].
    eapply veth_stays; [apply (at_vm _ _ _ _ _ IH)|apply (at_trace _ _ _ _ _ IH)|apply (at_links _ _ _ _ _ IH)|].
    unfold prepared_intf in P1. rewrite Hv in P1. destruct P1 as (name & fds & -> & L & O & Nm & R1 & R2).
    exists name, fds. split; [by apply (V2 name fds)|]. unfold opened_for, tap_reported. rewrite T2, K2. done.
Qed.

(** ** Giving the devices back *)
Definition phys_entries (l : list NetworkInterface) : list (string * string) :=
  omap (λ i, match ni_type i with LPhysical bdf drv => Some (bdf, drv) | _ => None end) l.

Lemma phys_entries_devices l : (phys_entries l).*1 = phys_devices l.
Proof.
  unfold phys_entries, phys_devices. induction l as [|i l IH]; [done|]. simpl. destruct (ni_type i); try exact IH. rewrite fmap_cons. by f_equal.
Qed.
Lemma phys_entries_cons i l : phys_entries (i :: l) = match ni_type i with LPhysical bdf drv => (bdf, drv) :: phys_entries l | _ => phys_entries l end.
Proof. unfold phys_entries. simpl. by destruct (ni_type i). Qed.
Lemma phys_entries_base l l' : base_of <$> l' = base_of <$> l → phys_entries l' = phys_entries l.
Proof.
  revert l'. induction l as [|i l IH]; intros [|i' l']; try done. rewrite !fmap_cons. intros Hc.
  assert (base_of i' = base_of i ∧ base_of <$> l' = base_of <$> l) as [Hi Hl] by (split; congruence).
  rewrite !phys_entries_cons. assert (ni_type i' = ni_type i) as -> by (by apply (f_equal ni_type) in Hi).
  by rewrite (IH l' Hl).
Qed.

(** Without failures every device is back on the driver it came with. *)
Lemma destroy_spec l : ∀ h, nt_outs h = [] → NoDup (phys_devices l) → (∀ b, b ∈ phys_devices l → is_Some (driver_of b h)) →
  ∃ h', destroy_intfs l h = Some (tt, h') ∧ (∀ b, b ∉ phys_devices l → nt_pci h' !! b = nt_pci h !! b) ∧
    ∀ b drv, (b, drv) ∈ phys_entries l → driver_of b h' = Some drv.
Proof.
  induction l as [|i l IH]; intros h Ho Hnd Hb; simpl.
  { exists h. split; [done|]. split; [done|]. by intros b drv ?%elem_of_nil. }
  unfold after_detach, phys_devices, phys_entries in *. simpl in *. rewrite bind_run.
  destruct (ni_type i) as [| | | | | | | | | | |bdf drv| |] eqn:Et; simpl; try (by apply IH).
  apply NoDup_cons in Hnd as [Hn Hnd]. destruct (bind_succeeds drv bdf h Ho) as (h1 & E1 & O1); [apply Hb; by left|]. rewrite E1.
  destruct (framed_bind_device (λ b, b = bdf) _ _ eq_refl _ _ _ E1) as (_ & _ & _ & _ & P1).
  destruct (IH h1 O1 Hnd) as (h2 & E2 & P2 & D2).
  { intros b Hin. unfold driver_of. rewrite P1 by (intros ->; done). apply Hb. by right. }
  exists h2. split; [done|]. split.
  - intros b [Hne Hnb]%not_elem_of_cons. by rewrite P2, P1.
  - intros b d [[= -> ->]|Hin]%elem_of_cons; [|by apply D2]. unfold driver_of. rewrite P2 by done. by apply (bind_bound _ _ _ _ _ E1).
Qed.

(** C12: physical interfaces are lent to the VM and returned. When the network
    of a sandbox was attached, each of its physical devices is on the
    passthrough driver and no other device was touched; destroying the
    network afterwards, when its calls do not fail, puts every device back on
    the driver it was found on and touches no other device. *)
Theorem physical_devices_return n h n' h1 h2 :
  Network_attach_to n h = Some (Ok n', h1) → NoDup (phys_devices (pn_intfs n)) → nt_pci h2 = nt_pci h1 → nt_outs h2 = [] →
  (∀ b, b ∈ phys_devices (pn_intfs n) → driver_of b h1 = Some DEVICE_DRIVER_VFIO) ∧
  (∀ b, b ∉ phys_devices (pn_intfs n) → nt_pci h1 !! b = nt_pci h !! b) ∧
  ∃ h3, Network_destroy n' h2 = Some (tt, h3) ∧
    (∀ b drv, (b, drv) ∈ phys_entries (pn_intfs n) → driver_of b h3 = Some drv) ∧
    (∀ b, b ∉ phys_devices (pn_intfs n) → nt_pci h3 !! b = nt_pci h !! b).
Proof.
  unfold Network_attach_to. intros (r & h0 & E & E')%bind_inv Hnd Hp Ho. destruct r as [l|]; [|by run E'].
  injection E' as <- <-. pose proof (attach_intfs_spec _ _ _ _ _ E l eq_refl) as At.
  pose proof (phys_entries_base _ _ (at_base _ _ _ _ _ At)) as He.
  assert (phys_devices l = phys_devices (pn_intfs n)) as Hd by (by rewrite <- !phys_entries_devices, He).
  assert (∀ b, b ∈ phys_devices (pn_intfs n) → driver_of b h0 = Some DEVICE_DRIVER_VFIO) as Hv.
  { intros b Hb. apply (at_vfio _ _ _ _ _ At). by left. }
  split; [done|]. split; [apply (at_pci _ _ _ _ _ At)|].
  destruct (destroy_spec l h2 Ho) as (h3 & E3 & P3 & D3); [by rewrite Hd| |].
  { intros b. rewrite Hd. intros Hb. unfold driver_of. rewrite Hp. fold (driver_of b h0). rewrite Hv by done. eauto. }
  exists h3. split; [done|]. rewrite He in D3. split; [done|]. intros b Hb. rewrite P3 by (by rewrite Hd). rewrite Hp. by apply (at_pci _ _ _ _ _ At).
Qed.

(** ** From the namespace to the guest *)





(** ** A pod with a veth and a physical interface *)
Definition sample_veth : LinkMessage :=
  mkLink 2 [1; 64]%N [AIfName "eth0"; ALinkInfo [LKindVeth]; AMtu 1450; AAddress [2; 66; 172; 17; 0; 2]%N]
    (Some [mkIpNet (V4 2886795266) 16]) None.
Definition sample_nic : LinkMessage :=
  mkLink 3 [1; 64]%N [AIfName "eth1"; AMtu 1500; AAddress [2; 0; 0; 0; 0; 1]%N] (Some [mkIpNet (V4 167772161) 24]) (Some "0000:b4:05.1").
Definition sample_lo : LinkMessage := mkLink 1 [1]%N [AIfName "lo"] (Some [mkIpNet (V4 2130706433) 8]) None.
Definition sample_tap_link : LinkMessage := mkLink 4 []%N [AIfName "tap_kua_2"; ALinkInfo [LData InfoTun]] (Some []) None.

Definition sample_host (outs : list Outcome) : NetHost :=
  mkNetHost (sample_driver [] []) {["0000:b4:05.1" := mkPci (Some "mlx5_core") None; "0000:b4:05.2" := mkPci (Some "ixgbe") None]}
    (λ _, sample_tap_link) (λ k, (20 + k)%N) 0 [] outs.
Definition sample_prepare (outs : list Outcome) : option (result PodNetwork NetError * NetHost) :=
  pod_prepare_network "/run/netns/a" 100000 150000 [sample_lo; sample_veth; sample_nic] [] [] (sample_host outs).


Lemma physical_devices_return_witness :
  match sample_prepare [] with
  | Some (Ok n, h1) =>
      driver_of "0000:b4:05.1" h1 = Some "vfio-pci" ∧
      ∃ h3, Network_destroy n h1 = Some (tt, h3) ∧ driver_of "0000:b4:05.1" h3 = Some "mlx5_core"
  | _ => False
  end.
Proof.
  unfold sample_prepare, pod_prepare_network. rewrite bind_run.
  destruct (new_in_netns _ _ _ _ _ _) as [[[n0|] h0]|] eqn:E0; [|vm_compute in E0; discriminate..].
  destruct (Network_attach_to n0 h0) as [[[n|] h1]|] eqn:E1; [|vm_compute in E0; injection E0 as <- <-; vm_compute in E1; discriminate..].
  assert (phys_entries (pn_intfs n0) = [("0000:b4:05.1", "mlx5_core")]) as He by (vm_compute in E0; injection E0 as <- <-; reflexivity).
  assert (phys_devices (pn_intfs n0) = ["0000:b4:05.1"]) as Hd by (rewrite <- phys_entries_devices, He; reflexivity).
  assert (nt_outs h1 = []) as Ho by (vm_compute in E0; injection E0 as <- <-; vm_compute in E1; injection E1 as <- <-; reflexivity).
  destruct (physical_devices_return n0 h0 n h1 h1 E1) as (Hv & _ & h3 & E3 & D3 & _).
  - rewrite Hd. apply NoDup_singleton.
  - reflexivity.
  - exact Ho.
  - split; [apply Hv; rewrite Hd; left|]. exists h3. split; [exact E3|]. apply D3. rewrite He. left.
Defined.

(** ** Cases *)

(** The tap cannot be made after the physical device was switched: the
    sandbox has no network to destroy, and the device stays on the passthrough
    driver. *)
Lemma failed_prepare_keeps_vfio :
  match pod_prepare_network "/run/netns/a" 0 0 [sample_nic; sample_veth] [] [] (sample_host (replicate 11 Good ++ [Bad EOTHER false ""])) with
  | Some (Err e, h1) => e = NFailed (NOpenTun "tap_kua_2" 20) ∧ driver_of "0000:b4:05.1" h1 = Some "vfio-pci"
  | _ => False
  end.
Proof. vm_compute. split; reflexivity. Qed.

(** After a restart of the sandboxer the types of the interfaces are gone,
    and destroying the network gives no device back. *)
Lemma reloaded_network_returns_nothing n h : Network_destroy (reloaded_network n) h = Some (tt, h).
Proof.
  unfold Network_destroy, reloaded_network. cbn [pn_intfs]. induction (pn_intfs n) as [|i l IH]; [done|].
  rewrite fmap_cons. cbn [destroy_intfs after_detach ni_type reloaded_intf]. by rewrite bind_run.
Qed.

(** A failed probe leaves the device without a driver, and from then on it
    cannot be bound at all: the first step asks for the current driver. *)
Lemma unbound_device_is_lost driver bdf h r h' : driver_of bdf h = None →
  bind_device_to_driver driver bdf h = Some (r, h') → r = Err (NFailed (NReadDriver bdf)) ∧ nt_pci h' = nt_pci h.
Proof.
  intros Hn. unfold bind_device_to_driver. intros (r1 & h1 & E1 & E)%bind_inv.
  unfold get_pci_driver in E1. apply bind_inv in E1 as (d & h0 & E0 & E1). injection E0 as <- <-.
  apply bind_inv in E1 as (ok & h2 & E2 & E1). apply net_call_inv in E2 as (g & Hg & _ & P & _). run E1. subst.
  rewrite Hn in E. destruct ok; run E; subst; (split; [done|]); rewrite P; by destruct Hg as [-> |[-> _]].
Qed.

Lemma failed_probe_unbinds :
  match bind_device_to_driver "vfio-pci" "0000:b4:05.1" (sample_host [Good; Good; Good; Bad EOTHER false ""]) with
  | Some (r, h1) => is_ok r = false ∧ driver_of "0000:b4:05.1" h1 = None
  | None => False
  end.
Proof. vm_compute. split; reflexivity. Qed.
