(* ===== verification/GuestDevice.v ===== *)
(** * Guest agent: devices

    [vmm/task/src/device.rs] and [get_device] of [vmm/task/src/sandbox.rs]: the
    cache of block devices the guest kernel announced, and how a request waits
    for the device at an address. The monitor task and the request run
    concurrently and share the cache under one lock; a channel of capacity one
    leads from the monitor to each request. The iteration order of a [HashMap]
    is an argument of the definitions that depend on it. *)
From S2P Require Import Prelude Strs.

Definition SCSI_BLOCK_SUFFIX : string := "block".
Definition SYSTEM_DEV_PATH : string := "/dev".

Inductive DeviceType := DevBlk | DevScsi.
#[global] Instance DeviceType_eq_dec : EqDecision DeviceType.
Proof. solve_decision. Defined.

(** [Device] *)
Record GuestDevice := mkGuestDevice {
  gd_path : string;
  gd_addr : string;
  gd_type : DeviceType
}.
#[global] Instance GuestDevice_eq_dec : EqDecision GuestDevice.
Proof. solve_decision. Defined.

(** ** Events of the kernel *)
Record Uevent := mkUevent {
  ue_action : string;
  ue_devpath : string;
  ue_devname : string;
  ue_subsystem : string;
  ue_seqnum : string;
  ue_interface : string
}.
Definition default_uevent : Uevent := mkUevent "" "" "" "" "" "".

(** [splitn(2, '=')], when it has two parts. *)
Fixpoint key_value (arg : string) : option (string * string) :=
  match arg with
  | "" => None
  | String a s =>
      if decide (a = "="%char) then Some ("", s)
      else kv ← key_value s; Some (String a kv.1, kv.2)
  end.

Definition set_field (e : Uevent) (arg : string) : Uevent :=
  match key_value arg with
  | None => e
  | Some (k, v) =>
      if decide (k = "ACTION") then
        mkUevent v (ue_devpath e) (ue_devname e) (ue_subsystem e) (ue_seqnum e) (ue_interface e)
      else if decide (k = "DEVNAME") then
        mkUevent (ue_action e) (ue_devpath e) v (ue_subsystem e) (ue_seqnum e) (ue_interface e)
      else if decide (k = "SUBSYSTEM") then
        mkUevent (ue_action e) (ue_devpath e) (ue_devname e) v (ue_seqnum e) (ue_interface e)
      else if decide (k = "DEVPATH") then
        mkUevent (ue_action e) v (ue_devname e) (ue_subsystem e) (ue_seqnum e) (ue_interface e)
      else if decide (k = "SEQNUM") then
        mkUevent (ue_action e) (ue_devpath e) (ue_devname e) (ue_subsystem e) v (ue_interface e)
      else if decide (k = "INTERFACE") then
        mkUevent (ue_action e) (ue_devpath e) (ue_devname e) (ue_subsystem e) (ue_seqnum e) v
      else e
  end.

(** [Uevent::new]: the part up to the first NUL is the summary line. *)
Definition uevent_new (message : string) : Uevent :=
  foldl set_field default_uevent (tail (split "000"%char message)).

(** The part at [length - n] of a path is the [n]th from the end. *)
Definition convert_to_scsi_device (e : Uevent) : option GuestDevice :=
  match rev (split "/"%char (ue_devpath e)) with
  | _ :: p2 :: p3 :: _ :: _ =>
      if bool_decide (ue_subsystem e = "block") && starts_with p3 "0:0:"
           && bool_decide (p2 = "block") && negb (bool_decide (ue_devname e = ""))
      then addr ← strip_prefix "0:0:" p3;
           Some (mkGuestDevice (SYSTEM_DEV_PATH +:+ "/" +:+ ue_devname e) addr DevScsi)
      else None
  | _ => None
  end.

Definition convert_to_blk_device (e : Uevent) : option GuestDevice :=
  match rev (split "/"%char (ue_devpath e)) with
  | _ :: p2 :: p3 :: p4 :: p5 :: rest =>
      if bool_decide (ue_subsystem e = "block") && starts_with p4 "0000:"
           && starts_with p3 "virtio" && bool_decide (p2 = "block")
           && negb (bool_decide (ue_devname e = ""))
      then
        let pci_addr := if negb (bool_decide (rest = [])) && starts_with p5 "0000:" then p5 else p4 in
        Some (mkGuestDevice (SYSTEM_DEV_PATH +:+ "/" +:+ ue_devname e) pci_addr DevBlk)
      else None
  | _ => None
  end.

Definition DEVICE_CONVERTORS : list (Uevent → option GuestDevice) :=
  [convert_to_scsi_device; convert_to_blk_device].

(** The first converter that knows the device. *)
Fixpoint convert (l : list (Uevent → option GuestDevice)) (e : Uevent) : option GuestDevice :=
  match l with
  | [] => None
  | c :: l => match c e with Some d => Some d | None => convert l e end
  end.

(** ** The monitor's state *)
Record TypeAddrDeviceMatcher := mkMatcher { dm_type : DeviceType; dm_addr : string }.
#[global] Instance TypeAddrDeviceMatcher_eq_dec : EqDecision TypeAddrDeviceMatcher.
Proof. solve_decision. Defined.

Definition is_match (m : TypeAddrDeviceMatcher) (d : GuestDevice) : bool :=
  bool_decide (dm_addr m = gd_addr d) && bool_decide (dm_type m = gd_type d).

(** A subscriber with its channel: what was sent and not yet received, and
    whether the receiver is still there. *)
Record DeviceSubscriber := mkSubscriber {
  sub_matcher : TypeAddrDeviceMatcher;
  sub_queue : option GuestDevice;
  sub_open : bool
}.

Record DeviceMonitorInternal := mkMonitor {
  dmi_subscribers : gmap N DeviceSubscriber;
  dmi_devices : gmap string GuestDevice;
  dmi_id_generator : N
}.
Definition default_monitor : DeviceMonitorInternal := mkMonitor ∅ ∅ 0.

Definition set_subscribers (f : gmap N DeviceSubscriber → gmap N DeviceSubscriber) (i : DeviceMonitorInternal) :=
  mkMonitor (f (dmi_subscribers i)) (dmi_devices i) (dmi_id_generator i).
Definition set_devices (f : gmap string GuestDevice → gmap string GuestDevice) (i : DeviceMonitorInternal) :=
  mkMonitor (dmi_subscribers i) (f (dmi_devices i)) (dmi_id_generator i).

(** The cached devices a matcher accepts, in the order the cache is walked. *)
Definition cached_matches (order : list string) (m : TypeAddrDeviceMatcher) (i : DeviceMonitorInternal)
  : list GuestDevice :=
  filter (λ d, is_match m d = true) (omap (λ k, dmi_devices i !! k) order).

(** [subscribe]: every match is sent into the new channel, whose receiver is
    returned only afterwards; a second send waits for a receiver that never
    comes ([None]), with the lock held. *)
Definition subscribe (order : list string) (m : TypeAddrDeviceMatcher) (i : DeviceMonitorInternal)
  : option (N * DeviceMonitorInternal) :=
  let register q :=
    let id := uwrap 64 (dmi_id_generator i + 1) in
    Some (id, mkMonitor (<[id := mkSubscriber m q true]> (dmi_subscribers i)) (dmi_devices i) id) in
  match cached_matches order m i with
  | [] => register None
  | [d] => register (Some d)
  | _ :: _ :: _ => None
  end.

Definition unsubscribe (id : N) : DeviceMonitorInternal → DeviceMonitorInternal :=
  set_subscribers (delete id).

(** [add_device] up to the send: the cache is updated and the first subscriber
    that matches, in the order they are walked, is chosen. *)
Definition insert_device (key : string) (d : GuestDevice) : DeviceMonitorInternal → DeviceMonitorInternal :=
  set_devices (insert key d).
Definition chosen_subscriber (order : list N) (d : GuestDevice) (i : DeviceMonitorInternal) : option N :=
  snd <$> list_find (λ id, match dmi_subscribers i !! id with
                           | Some s => is_match (sub_matcher s) d
                           | None => false
                           end = true) order.

(** The send: into an empty channel, or lost when the receiver is gone; [None]
    while the channel is full. *)
Definition send_device (id : N) (d : GuestDevice) (i : DeviceMonitorInternal) : option DeviceMonitorInternal :=
  match dmi_subscribers i !! id with
  | None => Some i
  | Some s =>
      if negb (sub_open s) then Some i
      else match sub_queue s with
           | Some _ => None
           | None => Some (set_subscribers (insert id (mkSubscriber (sub_matcher s) (Some d) true)) i)
           end
  end.

(** [handle_event]: the new state, and the send it goes on with. *)
Definition handle_event (order : list N) (e : Uevent) (i : DeviceMonitorInternal)
  : DeviceMonitorInternal * option (N * GuestDevice) :=
  if decide (ue_action e = "add") then
    match convert DEVICE_CONVERTORS e with
    | None => (i, None)
    | Some d =>
        let i := insert_device (ue_devpath e) d i in
        (i, id ← chosen_subscriber order d i; Some (id, d))
    end
  else if decide (ue_action e = "remove") then (set_devices (delete (ue_devpath e)) i, None)
  else (i, None).

(** ** The devices that are there when the agent starts

    An entry of [/sys/class/scsi_device] with the listing of its
    [device/block], and an entry of [/sys/class/block] with the target of the
    link it is. [None] is a panic of the agent. *)
Record ScsiEntry := mkScsiEntry { se_name : string; se_block : option (list string) }.
Record BlkEntry := mkBlkEntry { be_name : string; be_link : option string }.

Definition init_scsi_device (e : ScsiEntry) : M DeviceMonitorInternal unit :=
  if starts_with (se_name e) "0:" then
    match se_block e with
    | Some (dev_name :: _) =>
        match strip_prefix "0:0:" (se_name e) with
        | Some addr =>
            modify (insert_device (se_name e +:+ "/" +:+ SCSI_BLOCK_SUFFIX)
                      (mkGuestDevice (SYSTEM_DEV_PATH +:+ "/" +:+ dev_name) addr DevScsi))
        | None => panic
        end
    | _ => panic
    end
  else mret tt.

Definition init_scsi_devices (dir : option (list ScsiEntry)) : M DeviceMonitorInternal unit :=
  match dir with
  | None => mret tt
  | Some entries => foldM (λ _ e, init_scsi_device e) tt entries
  end.

Definition init_blk_part (dev_name : string) (part : string) : M DeviceMonitorInternal unit :=
  if starts_with part "0000:" then
    modify (insert_device part (mkGuestDevice (SYSTEM_DEV_PATH +:+ "/" +:+ dev_name) part DevBlk))
  else mret tt.

Definition init_blk_device (e : BlkEntry) : M DeviceMonitorInternal unit :=
  match be_link e with
  | Some real_path =>
      if starts_with (be_name e) "vd"
      then foldM (λ _ part, init_blk_part (be_name e) part) tt (split "/"%char real_path)
      else mret tt
  | None => mret tt
  end.

Definition init_blk_devices (dir : option (list BlkEntry)) : M DeviceMonitorInternal unit :=
  match dir with
  | None => panic
  | Some entries => foldM (λ _ e, init_blk_device e) tt entries
  end.

(** [start], up to the spawn of the monitor task; nobody has subscribed yet. *)
Definition monitor_start (scsi : option (list ScsiEntry)) (blk : option (list BlkEntry))
  : option DeviceMonitorInternal :=
  snd <$> (init_scsi_devices scsi;; init_blk_devices blk) default_monitor.
