(* ===== verification/GuestMonitor.v ===== *)
(** * Guest agent: waiting for a device

    [get_device] of [vmm/task/src/sandbox.rs] against the monitor task of
    [device.rs], as a transition system. One request runs at a time (the
    caller holds the lock of the sandbox's resources); the monitor's own lock
    is held while it delivers a device, and by a subscription that blocks. *)
From S2P Require Import Prelude Strs GuestDevice.

(** Where the monitor task is: waiting for an event, or in the send of
    [add_device], with the lock. *)
Inductive MonitorPc := MonIdle | MonSend (id : N) (d : GuestDevice).

(** Where the request is: none, blocked in [subscribe] with the lock, waiting
    on its channel, or with a device and about to unsubscribe. *)
Inductive RequestPc :=
  | ReqIdle
  | ReqBlocked (m : TypeAddrDeviceMatcher)
  | ReqWaiting (id : N) (m : TypeAddrDeviceMatcher)
  | ReqLeaving (id : N) (m : TypeAddrDeviceMatcher) (d : GuestDevice).

(** [ms_log] and [ms_announced] record the finished requests, with [None] for
    a timeout, and the devices that ever entered the cache. *)
Record MonitorSys := mkMonitorSys {
  ms_internal : DeviceMonitorInternal;
  ms_monitor : MonitorPc;
  ms_request : RequestPc;
  ms_log : list (TypeAddrDeviceMatcher * option GuestDevice);
  ms_announced : list GuestDevice
}.

(** The receiver is gone; the subscriber stays. *)
Definition close_receiver (id : N) : DeviceMonitorInternal → DeviceMonitorInternal :=
  set_subscribers (alter (λ s, mkSubscriber (sub_matcher s) None false) id).
Definition take_received (id : N) : DeviceMonitorInternal → DeviceMonitorInternal :=
  set_subscribers (alter (λ s, mkSubscriber (sub_matcher s) None (sub_open s)) id).

(** What the two tasks do next on their own. *)
Inductive task_step : MonitorSys → MonitorSys → Prop :=
  | step_send i id d req log ann i' :
      send_device id d i = Some i' →
      task_step (mkMonitorSys i (MonSend id d) req log ann) (mkMonitorSys i' MonIdle req log ann)
  | step_recv i mon id m log ann s d :
      dmi_subscribers i !! id = Some s → sub_queue s = Some d →
      task_step (mkMonitorSys i mon (ReqWaiting id m) log ann)
                (mkMonitorSys (take_received id i) mon (ReqLeaving id m d) log ann)
  | step_leave i id m d log ann :
      task_step (mkMonitorSys i MonIdle (ReqLeaving id m d) log ann)
                (mkMonitorSys (unsubscribe id i) MonIdle ReqIdle (log ++ [(m, Some d)]) ann).

Definition announces (e : Uevent) : list GuestDevice :=
  if decide (ue_action e = "add") then option_list (convert DEVICE_CONVERTORS e) else [].

Definition not_blocked (r : RequestPc) : bool := match r with ReqBlocked _ => false | _ => true end.

Inductive monitor_step : MonitorSys → MonitorSys → Prop :=
  | step_task s s' : task_step s s' → monitor_step s s'
  | step_event i req log ann order e :
      not_blocked req = true → order ≡ₚ elements (dom (dmi_subscribers i)) →
      monitor_step (mkMonitorSys i MonIdle req log ann)
        (let '(i', snd) := handle_event order e i in
         mkMonitorSys i' (match snd with Some (id, d) => MonSend id d | None => MonIdle end)
           req log (ann ++ announces e))
  | step_subscribe i log ann order m :
      order ≡ₚ elements (dom (dmi_devices i)) →
      monitor_step (mkMonitorSys i MonIdle ReqIdle log ann)
        (match subscribe order m i with
         | Some (id, i') => mkMonitorSys i' MonIdle (ReqWaiting id m) log ann
         | None => mkMonitorSys i MonIdle (ReqBlocked m) log ann
         end)
  | step_timeout i mon id m log ann s :
      dmi_subscribers i !! id = Some s → sub_queue s = None →
      monitor_step (mkMonitorSys i mon (ReqWaiting id m) log ann)
                   (mkMonitorSys (close_receiver id i) mon ReqIdle (log ++ [(m, None)]) ann).

(** From the scan at the start of the agent. *)
Inductive monitor_reachable : MonitorSys → Prop :=
  | reach_start scsi blk i :
      monitor_start scsi blk = Some i →
      monitor_reachable (mkMonitorSys i MonIdle ReqIdle [] (map_to_list (dmi_devices i)).*2)
  | reach_step s s' : monitor_reachable s → monitor_step s s' → monitor_reachable s'.

(** ** The invariant *)
Definition request_sub (r : RequestPc) : option (N * TypeAddrDeviceMatcher) :=
  match r with
  | ReqWaiting id m | ReqLeaving id m _ => Some (id, m)
  | ReqIdle | ReqBlocked _ => None
  end.

Record monitor_inv (s : MonitorSys) : Prop := mkMonitorInv {
  inv_live id m : request_sub (ms_request s) = Some (id, m) →
    ∃ q, dmi_subscribers (ms_internal s) !! id = Some (mkSubscriber m q true);
  inv_dead id sub : dmi_subscribers (ms_internal s) !! id = Some sub →
    fst <$> request_sub (ms_request s) ≠ Some id →
    sub_open sub = false ∧ (sub_matcher sub, None) ∈ ms_log s;
  inv_queue id sub d : dmi_subscribers (ms_internal s) !! id = Some sub → sub_queue sub = Some d →
    is_match (sub_matcher sub) d = true ∧ d ∈ ms_announced s;
  inv_sending id d : ms_monitor s = MonSend id d →
    (∃ sub, dmi_subscribers (ms_internal s) !! id = Some sub ∧ is_match (sub_matcher sub) d = true)
    ∧ d ∈ ms_announced s;
  inv_cache k d : dmi_devices (ms_internal s) !! k = Some d → d ∈ ms_announced s;
  inv_holding id m d : ms_request s = ReqLeaving id m d → is_match m d = true ∧ d ∈ ms_announced s;
  inv_log m d : (m, Some d) ∈ ms_log s → is_match m d = true ∧ d ∈ ms_announced s;
  inv_none_lost id m sub k d : ms_request s = ReqWaiting id m → (m, None) ∉ ms_log s →
    dmi_subscribers (ms_internal s) !! id = Some sub → sub_queue sub = None →
    dmi_devices (ms_internal s) !! k = Some d → is_match m d = true →
    ∃ d', ms_monitor s = MonSend id d'
}.

Lemma is_match_spec m d : is_match m d = true ↔ m = mkMatcher (gd_type d) (gd_addr d).
Proof.
  unfold is_match. rewrite andb_true_iff, !bool_decide_eq_true.
  destruct m; simpl. split; [by intros [-> ->]|by intros [= -> ->]].
Qed.

Lemma is_match_inj m m' d : is_match m d = true → is_match m' d = true → m = m'.
Proof. rewrite !is_match_spec. congruence. Qed.

(** The scan subscribes nobody. *)
Definition unsubscribed (i : DeviceMonitorInternal) : Prop := dmi_subscribers i = ∅.

Lemma init_scsi_unsubscribed dir : preserves unsubscribed (init_scsi_devices dir).
Proof. unfold init_scsi_devices, init_scsi_device. preserve. Qed.

Lemma init_blk_unsubscribed dir : preserves unsubscribed (init_blk_devices dir).
Proof. unfold init_blk_devices, init_blk_device, init_blk_part. preserve. Qed.

Lemma monitor_start_unsubscribed scsi blk i : monitor_start scsi blk = Some i → unsubscribed i.
Proof.
  unfold monitor_start. intros ([u i'] & E & ->)%fmap_Some.
  eapply (preserves_bind unsubscribed _ _ (init_scsi_unsubscribed scsi) (λ _, init_blk_unsubscribed blk)); [|exact E].
  done.
Qed.

Lemma inv_start scsi blk i :
  monitor_start scsi blk = Some i →
  monitor_inv (mkMonitorSys i MonIdle ReqIdle [] (map_to_list (dmi_devices i)).*2).
Proof.
  intros E. apply monitor_start_unsubscribed in E. unfold unsubscribed in E.
  split; simpl; try done; try (intros *; rewrite E, lookup_empty; done).
  - intros k d Hk. apply list_elem_of_fmap. exists (k, d). split; [done|]. by apply elem_of_map_to_list.
  - intros m d []%elem_of_nil.
Qed.

(** *** Subscribing *)
Lemma subscribe_inv order m i id i' :
  subscribe order m i = Some (id, i') →
  ∃ q, i' = mkMonitor (<[id := mkSubscriber m q true]> (dmi_subscribers i)) (dmi_devices i) id
       ∧ match q with
         | None => cached_matches order m i = []
         | Some d => cached_matches order m i = [d]
         end.
Proof.
  unfold subscribe. destruct (cached_matches order m i) as [|d [|]]; [| |done]; intros [= <- <-].
  - by exists None.
  - by exists (Some d).
Qed.

Lemma cached_matches_elem order m i d :
  order ≡ₚ elements (dom (dmi_devices i)) →
  d ∈ cached_matches order m i ↔ is_match m d = true ∧ ∃ k, dmi_devices i !! k = Some d.
Proof.
  intros Ho. unfold cached_matches. rewrite list_elem_of_filter, list_elem_of_omap.
  apply and_iff_compat_l. split.
  - intros (k & _ & Hk). eauto.
  - intros [k Hk]. exists k. split; [|done]. rewrite Ho. apply elem_of_elements, elem_of_dom. eauto.
Qed.

Lemma subscribe_preserves order m i log ann :
  order ≡ₚ elements (dom (dmi_devices i)) →
  monitor_inv (mkMonitorSys i MonIdle ReqIdle log ann) →
  monitor_inv (match subscribe order m i with
               | Some (id, i') => mkMonitorSys i' MonIdle (ReqWaiting id m) log ann
               | None => mkMonitorSys i MonIdle (ReqBlocked m) log ann
               end).
Proof.
  intros Ho [Hl Hd Hq Hs Hc Hh Hlog Hn]; simpl in *.
  destruct (subscribe order m i) as [[id i']|] eqn:E; [|by split].
  apply subscribe_inv in E as (q & -> & Hq'). split; simpl in *; try done.
  - intros ?? [= <- <-]. exists q. by rewrite lookup_insert_eq.
  - intros id' sub Hid Hne. apply (Hd id'); [|done]. rewrite lookup_insert_ne in Hid; congruence.
  - intros id' sub d Hid Hsq. destruct (decide (id = id')) as [<-|Hne].
    + rewrite lookup_insert_eq in Hid. injection Hid as <-. simpl in *. subst q.
      assert (d ∈ cached_matches order m i) as Hin by (rewrite Hq'; by left).
      apply cached_matches_elem in Hin as [Hm [k Hk]]; eauto.
    + rewrite lookup_insert_ne in Hid by done. eauto.
  - intros id' m' sub k d [= <- <-] _ Hid Hsq Hk Hm. rewrite lookup_insert_eq in Hid.
    injection Hid as <-. simpl in Hsq. subst q.
    assert (d ∈ cached_matches order m i) as Hin by (apply cached_matches_elem; eauto).
    rewrite Hq' in Hin. by apply elem_of_nil in Hin.
Qed.

(** *** Events *)
Lemma chosen_subscriber_Some order d i id :
  chosen_subscriber order d i = Some id →
  ∃ sub, dmi_subscribers i !! id = Some sub ∧ is_match (sub_matcher sub) d = true.
Proof.
  unfold chosen_subscriber. intros ([j id'] & (_ & H & _)%list_find_Some & ->)%fmap_Some. simpl.
  destruct (dmi_subscribers i !! id'); [eauto|done].
Qed.

Lemma chosen_subscriber_exists order d i id sub :
  order ≡ₚ elements (dom (dmi_subscribers i)) →
  dmi_subscribers i !! id = Some sub → is_match (sub_matcher sub) d = true →
  is_Some (chosen_subscriber order d i).
Proof.
  intros Ho Hid Hm. unfold chosen_subscriber. apply fmap_is_Some.
  apply (list_find_elem_of _ _ id); [|by rewrite Hid].
  rewrite Ho. apply elem_of_elements, elem_of_dom. eauto.
Qed.

Lemma elem_of_announces_l (d : GuestDevice) ann e : d ∈ ann → d ∈ ann ++ announces e.
Proof. rewrite elem_of_app. by left. Qed.

Lemma event_preserves order e i req log ann :
  order ≡ₚ elements (dom (dmi_subscribers i)) →
  monitor_inv (mkMonitorSys i MonIdle req log ann) →
  monitor_inv (let '(i', snd) := handle_event order e i in
               mkMonitorSys i' (match snd with Some (id, d) => MonSend id d | None => MonIdle end)
                 req log (ann ++ announces e)).
Proof.
  intros Ho [Hl Hd Hq Hs Hc Hh Hlog Hn]; simpl in *.
  assert (∀ snd (i' : DeviceMonitorInternal), dmi_subscribers i' = dmi_subscribers i →
    (∀ k d, dmi_devices i' !! k = Some d → d ∈ ann ++ announces e) →
    (∀ id d, snd = MonSend id d →
      (∃ sub, dmi_subscribers i !! id = Some sub ∧ is_match (sub_matcher sub) d = true)
      ∧ d ∈ ann ++ announces e) →
    (∀ id m sub k d, req = ReqWaiting id m → (m, None) ∉ log →
      dmi_subscribers i !! id = Some sub → sub_queue sub = None →
      dmi_devices i' !! k = Some d → is_match m d = true → ∃ d', snd = MonSend id d') →
    monitor_inv (mkMonitorSys i' snd req log (ann ++ announces e))) as Hgen.
  { intros snd i' Hi' Hc' Hs' Hn'. split; simpl; rewrite ?Hi'; try done.
    - intros id sub d H1 H2. destruct (Hq id sub d H1 H2). eauto using elem_of_announces_l.
    - intros id m d H1. destruct (Hh id m d H1). eauto using elem_of_announces_l.
    - intros m d H1. destruct (Hlog m d H1). eauto using elem_of_announces_l. }
  unfold handle_event, announces in *. case_decide as Ha.
  - destruct (convert DEVICE_CONVERTORS e) as [d|]; simpl.
    2: { apply Hgen; [done| |done|exact Hn]. intros k d Hk. apply elem_of_app. left. eauto. }
    assert (d ∈ ann ++ [d]) as Hin by (apply elem_of_app; right; by left).
    apply Hgen; [done| | |].
    + simpl. intros k d'. destruct (decide (ue_devpath e = k)) as [<-|Hne].
      * rewrite lookup_insert_eq. by intros [= <-].
      * rewrite lookup_insert_ne by done. intros Hk. apply elem_of_app. left. eauto.
    + intros id d'. destruct (chosen_subscriber _ _ _) as [id'|] eqn:E; simpl; [|done].
      intros [= <- <-]. split; [|done]. by apply chosen_subscriber_Some in E.
    + simpl. intros id m sub k d' -> Hm Hid Hsq Hk Hmatch.
      destruct (Hl id m) as [q Hq']; [done|]. rewrite Hq' in Hid. injection Hid as <-. simpl in Hsq. subst q.
      destruct (decide (is_match m d = true)) as [Hmd|Hmd].
      * destruct (chosen_subscriber_exists order d (insert_device (ue_devpath e) d i) id _ Ho Hq' Hmd)
          as [id' E]. rewrite E. simpl.
        apply chosen_subscriber_Some in E as (sub & Hsub & Hms).
        destruct (decide (id' = id)) as [->|Hne]; [eauto|].
        destruct (Hd id' sub Hsub) as [_ Hin']; [simpl; congruence|].
        by rewrite (is_match_inj _ _ _ Hms Hmd) in Hin'.
      * destruct (decide (ue_devpath e = k)) as [<-|Hne].
        -- rewrite lookup_insert_eq in Hk. by injection Hk as ->.
        -- rewrite lookup_insert_ne in Hk by done. by destruct (Hn id m _ k d' eq_refl Hm Hq' eq_refl Hk Hmatch).
  - case_decide; simpl; apply Hgen; simpl; try done.
    + intros k d [_ Hk]%lookup_delete_Some. apply elem_of_app. left. eauto.
    + intros id m sub k d Hr Hm Hid Hsq [_ Hk]%lookup_delete_Some. eauto.
    + intros k d Hk. apply elem_of_app. left. eauto.
Qed.

(** *** The tasks *)
Lemma send_device_inv id d i i' :
  send_device id d i = Some i' →
  i' = i ∧ (∀ sub, dmi_subscribers i !! id = Some sub → sub_open sub = false)
  ∨ ∃ m, dmi_subscribers i !! id = Some (mkSubscriber m None true)
      ∧ i' = set_subscribers (insert id (mkSubscriber m (Some d) true)) i.
Proof.
  unfold send_device. destruct (dmi_subscribers i !! id) as [[m q o]|] eqn:E; simpl.
  2: { intros [= <-]. by left. }
  destruct o; simpl.
  2: { intros [= <-]. left. split; [done|]. by intros ? [= <-]. }
  destruct q; [done|]. intros [= <-]. right. eauto.
Qed.

Lemma send_preserves i id d req log ann i' :
  send_device id d i = Some i' →
  monitor_inv (mkMonitorSys i (MonSend id d) req log ann) →
  monitor_inv (mkMonitorSys i' MonIdle req log ann).
Proof.
  intros E [Hl Hd Hq Hs Hc Hh Hlog Hn]; simpl in *.
  destruct (send_device_inv _ _ _ _ E) as [[-> Hcl]|(m0 & E0 & ->)]; split; simpl; try done.
  - intros id' m s k d' -> Hm Hid Hsq Hk Hmm.
    destruct (Hn id' m s k d' eq_refl Hm Hid Hsq Hk Hmm) as [d'' [= -> _]].
    destruct (Hl id' m eq_refl) as [q Hq']. by specialize (Hcl _ Hq').
  - intros id' m Hr. destruct (Hl id' m Hr) as [q Hq'].
    destruct (decide (id = id')) as [<-|]; [|rewrite lookup_insert_ne by done; eauto].
    rewrite lookup_insert_eq. rewrite E0 in Hq'. injection Hq' as -> _. eauto.
  - intros id' s Hid Hne.
    destruct (decide (id = id')) as [<-|]; [|rewrite lookup_insert_ne in Hid by done; eauto].
    by destruct (Hd id _ E0 Hne).
  - intros id' s d' Hid Hsq.
    destruct (decide (id = id')) as [<-|]; [|rewrite lookup_insert_ne in Hid by done; eauto].
    rewrite lookup_insert_eq in Hid. injection Hid as <-. injection Hsq as <-.
    destruct (Hs id d eq_refl) as [(s' & E3 & Hm) Hin]. rewrite E0 in E3. by injection E3 as <-.
  - intros id' m s k d' Hr Hm Hid Hsq Hk Hmm.
    destruct (decide (id = id')) as [<-|].
    + rewrite lookup_insert_eq in Hid. by injection Hid as <-.
    + rewrite lookup_insert_ne in Hid by done.
      destruct (Hn id' m s k d' Hr Hm Hid Hsq Hk Hmm) as [d'' [= -> _]]. done.
Qed.

(** A subscriber changed by [alter]. *)
Lemma alter_subscriber (f : DeviceSubscriber → DeviceSubscriber) id i id' sub :
  dmi_subscribers (set_subscribers (alter f id) i) !! id' = Some sub →
  if decide (id = id') then ∃ sub0, dmi_subscribers i !! id = Some sub0 ∧ sub = f sub0
  else dmi_subscribers i !! id' = Some sub.
Proof.
  simpl. case_decide as E; [subst|by rewrite lookup_alter_ne].
  rewrite lookup_alter_eq. intros (s0 & -> & ->)%fmap_Some. eauto.
Qed.

Lemma recv_preserves i mon id m log ann sub d :
  dmi_subscribers i !! id = Some sub → sub_queue sub = Some d →
  monitor_inv (mkMonitorSys i mon (ReqWaiting id m) log ann) →
  monitor_inv (mkMonitorSys (take_received id i) mon (ReqLeaving id m d) log ann).
Proof.
  intros Hid Hsq [Hl Hd Hq Hs Hc Hh Hlog Hn]; simpl in *.
  destruct (Hl id m eq_refl) as [q Hq']. rewrite Hid in Hq'. injection Hq' as ->. simpl in Hsq. subst q.
  split; simpl; try done.
  - intros ?? [= <- <-]. exists None. by rewrite lookup_alter_eq, Hid.
  - intros id' s Hs' Hne. apply alter_subscriber in Hs'. case_decide; [congruence|eauto].
  - intros id' s d' Hs' Hsq. apply alter_subscriber in Hs'. case_decide; [|eauto].
    by destruct Hs' as (? & _ & ->).
  - intros id' d' ->. destruct (Hs id' d' eq_refl) as [(s & Es & Hm) Hin]. split; [|done].
    destruct (decide (id = id')) as [<-|]; [|rewrite lookup_alter_ne by done; eauto].
    rewrite lookup_alter_eq, Es. simpl. eauto.
  - intros ??? [= <- <- <-]. by apply (Hq id _ d Hid).
Qed.

Lemma leave_preserves i id m d log ann :
  monitor_inv (mkMonitorSys i MonIdle (ReqLeaving id m d) log ann) →
  monitor_inv (mkMonitorSys (unsubscribe id i) MonIdle ReqIdle (log ++ [(m, Some d)]) ann).
Proof.
  intros [Hl Hd Hq Hs Hc Hh Hlog Hn]; simpl in *. split; simpl; try done.
  - intros id' s [Hne Hs']%lookup_delete_Some _. destruct (Hd id' s Hs'); [congruence|].
    split; [done|]. apply elem_of_app. by left.
  - intros id' s d' [Hne Hs']%lookup_delete_Some. eauto.
  - intros m' d' [?|[= -> ->]%list_elem_of_singleton]%elem_of_app; eauto.
Qed.

Lemma timeout_preserves i mon id m log ann sub :
  dmi_subscribers i !! id = Some sub → sub_queue sub = None →
  monitor_inv (mkMonitorSys i mon (ReqWaiting id m) log ann) →
  monitor_inv (mkMonitorSys (close_receiver id i) mon ReqIdle (log ++ [(m, None)]) ann).
Proof.
  intros Hid Hsq [Hl Hd Hq Hs Hc Hh Hlog Hn]; simpl in *. 
  destruct (Hl id m eq_refl) as [q Hq']. rewrite Hid in Hq'. injection Hq' as ->. simpl in Hsq. subst q.
  split; simpl; try done.
  - intros id' s Hs' _. apply alter_subscriber in Hs'. rewrite elem_of_app. case_decide.
    + destruct Hs' as (s0 & E0 & ->). rewrite Hid in E0. injection E0 as <-. simpl. split; [done|]. right. by left.
    + destruct (Hd id' s Hs'); [congruence|]. auto.
  - intros id' s d' Hs' Hsq. apply alter_subscriber in Hs'. case_decide; [|eauto].
    by destruct Hs' as (? & _ & ->).
  - intros id' d' ->. destruct (Hs id' d' eq_refl) as [(s & Es & Hm) Hin]. split; [|done].
    destruct (decide (id = id')) as [<-|]; [|rewrite lookup_alter_ne by done; eauto].
    rewrite lookup_alter_eq, Es. simpl. eauto.
  - intros m' d' [?|[= -> ?]%list_elem_of_singleton]%elem_of_app; eauto.
Qed.

Lemma reachable_inv s : monitor_reachable s → monitor_inv s.
Proof.
  induction 1 as [scsi blk i E|s s' _ IH Hst]; [by eapply inv_start|].
  destruct Hst as [s s' []| | |];
    eauto using send_preserves, recv_preserves, leave_preserves, event_preserves,
      subscribe_preserves, timeout_preserves.
Qed.

(** ** Requests get their device *)
Lemma send_possible i id d req log ann :
  monitor_inv (mkMonitorSys i (MonSend id d) req log ann) →
  (∀ sub, dmi_subscribers i !! id = Some sub → fst <$> request_sub req = Some id → sub_queue sub = None) →
  ∃ i', send_device id d i = Some i'.
Proof.
  intros Hinv Hq. destruct (inv_sending _ Hinv id d eq_refl) as [(sub & Hsub & _) _]. simpl in Hsub.
  unfold send_device. rewrite Hsub. destruct (sub_open sub) eqn:Eo; simpl; [|eauto].
  destruct (decide (fst <$> request_sub req = Some id)) as [Hr|Hr].
  - rewrite (Hq sub Hsub Hr). eauto.
  - destruct (inv_dead _ Hinv id sub Hsub Hr). congruence.
Qed.

(** Where the tasks can be between a device on its way to the request for [m]
    and the end of that request with it. *)
Inductive served_by (m : TypeAddrDeviceMatcher) (d : GuestDevice)
    (log : list (TypeAddrDeviceMatcher * option GuestDevice)) : MonitorSys → Prop :=
  | served_sending i id ann :
      dmi_subscribers i !! id = Some (mkSubscriber m None true) →
      served_by m d log (mkMonitorSys i (MonSend id d) (ReqWaiting id m) log ann)
  | served_queued i mon id ann :
      dmi_subscribers i !! id = Some (mkSubscriber m (Some d) true) →
      served_by m d log (mkMonitorSys i mon (ReqWaiting id m) log ann)
  | served_leaving i mon id ann :
      (∀ id' d', mon = MonSend id' d' →
         ∀ sub, dmi_subscribers i !! id = Some sub → sub_queue sub = None) →
      served_by m d log (mkMonitorSys i mon (ReqLeaving id m d) log ann)
  | served_done i ann :
      served_by m d log (mkMonitorSys i MonIdle ReqIdle (log ++ [(m, Some d)]) ann).

Lemma send_elsewhere id id' d i i' q m :
  send_device id' d i = Some i' → dmi_subscribers i !! id = Some (mkSubscriber m (Some q) true) →
  dmi_subscribers i' !! id = Some (mkSubscriber m (Some q) true).
Proof.
  intros [[-> _]|(m' & E' & ->)]%send_device_inv Hid; [done|]. simpl.
  rewrite lookup_insert_ne; [done|]. intros ->. congruence.
Qed.

Lemma served_step m d log s s' : served_by m d log s → task_step s s' → served_by m d log s'.
Proof.
  intros Hs Hst. destruct Hs as [i id ann Hid|i mon id ann Hid|i mon id ann Hq|i ann];
    inversion Hst; subst.
  - match goal with E : send_device _ _ _ = Some _ |- _ =>
      destruct (send_device_inv _ _ _ _ E) as [[-> Hcl]|(m' & E' & ->)] end;
      [by specialize (Hcl _ Hid)|]. rewrite Hid in E'. injection E' as <-.
    apply served_queued. simpl. by rewrite lookup_insert_eq.
  - congruence || (match goal with H : dmi_subscribers i !! id = Some ?x |- _ =>
      rewrite Hid in H; injection H as <-; done end).
  - eapply served_queued, send_elsewhere; eauto.
  - match goal with H : dmi_subscribers i !! id = Some ?x, Q : sub_queue ?x = Some _ |- _ =>
      rewrite Hid in H; injection H as <-; injection Q as <- end.
    apply served_leaving. intros _ _ _ sub. simpl. rewrite lookup_alter_eq, Hid. by intros [= <-].
  - by apply served_leaving.
  - apply served_done.
Qed.

(** No state on the way is stuck. *)
Lemma served_stuck m d log s :
  monitor_inv s → served_by m d log s → (∀ s', ¬ task_step s s') → ms_log s = log ++ [(m, Some d)].
Proof.
  intros Hinv Hs Hno. destruct Hs as [i id ann Hid|i mon id ann Hid|i mon id ann Hq|i ann]; [| | |done]; exfalso.
  - destruct (send_possible _ _ _ _ _ _ Hinv) as [i' E]; [simpl; rewrite Hid; by intros ? [= <-]|].
    by eapply Hno, step_send.
  - by eapply Hno, step_recv.
  - destruct mon as [|id' d']; [by eapply Hno, step_leave|].
    destruct (send_possible _ _ _ _ _ _ Hinv) as [i' E]; [simpl; intros sub Hs [= ->]; eauto|].
    by eapply Hno, step_send.
Qed.

(** The steps left to the tasks. *)
Definition steps_left (s : MonitorSys) : nat :=
  match ms_monitor s with MonIdle => 0 | MonSend _ _ => 1 end
  + match ms_request s with ReqWaiting _ _ => 2 | ReqLeaving _ _ _ => 1 | ReqIdle | ReqBlocked _ => 0 end.

Lemma task_step_left s s' : task_step s s' → steps_left s = S (steps_left s').
Proof. destruct 1; unfold steps_left; simpl; lia. Qed.

Lemma task_steps_left n s s' : nsteps task_step n s s' → n ≤ steps_left s.
Proof.
  induction 1 as [|n s s1 s' Hst _ IH]; [lia|]. apply task_step_left in Hst. lia.
Qed.

Lemma task_run s s' m d log :
  monitor_inv s → served_by m d log s → rtc task_step s s' → monitor_inv s' ∧ served_by m d log s'.
Proof.
  intros Hinv Hs. induction 1 as [|s s1 s' Hst _ IH]; [done|].
  apply IH; [|by eapply served_step]. destruct Hst; eauto using send_preserves, recv_preserves, leave_preserves.
Qed.

Lemma waiting_served i mon id m k d0 log ann :
  monitor_inv (mkMonitorSys i mon (ReqWaiting id m) log ann) → (m, None) ∉ log →
  dmi_devices i !! k = Some d0 → is_match m d0 = true →
  ∃ d, is_match m d = true ∧ d ∈ ann ∧ served_by m d log (mkMonitorSys i mon (ReqWaiting id m) log ann).
Proof.
  intros Hinv Hto Hk Hm. destruct (inv_live _ Hinv id m eq_refl) as [[d|] Hid]; simpl in Hid.
  - exists d. destruct (inv_queue _ Hinv id _ d Hid eq_refl). eauto using served_queued.
  - destruct (inv_none_lost _ Hinv id m _ k d0 eq_refl Hto Hid eq_refl Hk Hm) as [d E]. simpl in E. subst mon.
    destruct (inv_sending _ Hinv id d eq_refl) as [(sub & Hsub & Hmd) Han]. simpl in Hsub.
    rewrite Hid in Hsub. injection Hsub as <-. exists d. eauto using served_sending.
Qed.

(** C32: waiting for a device. In every reachable state a finished request that
    has a device has one of the type and address it asked for, which the kernel
    announced or the scan at start found. While a request waits, a matching
    device is in the cache and no earlier request for the same type and address
    timed out, one such device is determined already: the monitor and the
    request take at most three more steps on their own, and every run of them
    that can not go on has ended the request with that device. An event or the
    timeout of the request is not a step of the two tasks. *)
Theorem device_requests_served s :
  monitor_reachable s →
  (∀ m d, (m, Some d) ∈ ms_log s → is_match m d = true ∧ d ∈ ms_announced s)
  ∧ ∀ id m k d0, ms_request s = ReqWaiting id m → (m, None) ∉ ms_log s →
      dmi_devices (ms_internal s) !! k = Some d0 → is_match m d0 = true →
      (∀ n s', nsteps task_step n s s' → n ≤ 3)
      ∧ ∃ d, is_match m d = true ∧ d ∈ ms_announced s
          ∧ ∀ s', rtc task_step s s' → (∀ s'', ¬ task_step s' s'') →
              ms_log s' = ms_log s ++ [(m, Some d)].
Proof.
  intros Hinv%reachable_inv. split; [apply (inv_log _ Hinv)|].
  intros id m k d0 Hreq Hto Hk Hm. split.
  { intros n s' Hn%task_steps_left. unfold steps_left in Hn. rewrite Hreq in Hn. destruct (ms_monitor s); lia. }
  destruct s as [i mon req log ann]; simpl in *. subst req.
  destruct (waiting_served _ _ _ _ _ _ _ _ Hinv Hto Hk Hm) as (d & Hd & Ha & Hs).
  exists d. split_and!; [done|done|]. intros s' Hrun Hno.
  destruct (task_run _ _ _ _ _ Hinv Hs Hrun). by eapply served_stuck.
Qed.

(** ** When a subscription blocks *)
Definition matching_at (m : TypeAddrDeviceMatcher) (i : DeviceMonitorInternal) (k : string) : bool :=
  match dmi_devices i !! k with Some d => is_match m d | None => false end.

Lemma cached_matches_length order m i :
  length (cached_matches order m i) = length (filter (λ k, matching_at m i k = true) order).
Proof.
  unfold cached_matches. induction order as [|k order IH]; [done|].
  rewrite filter_cons. cbn [omap list_omap].
  destruct (dmi_devices i !! k) as [d|] eqn:E.
  - rewrite filter_cons, (decide_ext (matching_at m i k = true) (is_match m d = true))
      by (unfold matching_at; by rewrite E).
    case_decide; simpl; by rewrite IH.
  - rewrite decide_False; [done|]. unfold matching_at. by rewrite E.
Qed.

Lemma NoDup_two {A} (l : list A) :
  NoDup l → 2 ≤ length l ↔ ∃ x y, x ∈ l ∧ y ∈ l ∧ x ≠ y.
Proof.
  intros Hnd. split.
  - destruct l as [|x [|y l]]; simpl; [lia|lia|]. intros _. exists x, y.
    inversion Hnd as [|? ? Hx]; subst. set_solver.
  - intros (x & y & Hx & Hy & Hne). destruct l as [|a [|b l]]; simpl; [set_solver| |lia].
    apply list_elem_of_singleton in Hx, Hy. congruence.
Qed.

(** A subscription blocks, with the lock held, exactly when two cached devices
    match. *)
Lemma subscribe_blocks_iff order m i :
  order ≡ₚ elements (dom (dmi_devices i)) →
  subscribe order m i = None ↔
  ∃ k k', k ≠ k' ∧ matching_at m i k = true ∧ matching_at m i k' = true.
Proof.
  intros Ho.
  trans (2 ≤ length (cached_matches order m i)).
  { unfold subscribe. destruct (cached_matches order m i) as [|? [|]]; simpl; split; try done; lia. }
  rewrite cached_matches_length, NoDup_two.
  2: { apply NoDup_filter. rewrite Ho. apply NoDup_elements. }
  assert (∀ k, k ∈ filter (λ k, matching_at m i k = true) order ↔ matching_at m i k = true) as Hin.
  { intros k. rewrite list_elem_of_filter, Ho, elem_of_elements, elem_of_dom. unfold matching_at.
    destruct (dmi_devices i !! k); [naive_solver|]. split; [by intros []|done]. }
  split; intros (k & k' & H); exists k, k'; rewrite ?Hin in *; naive_solver.
Qed.

(** ** Cases *)
Definition vda_link : string := "../../devices/pci0000:00/0000:00:05.0/virtio3/block/vda".
Definition blk_event (action : string) : Uevent :=
  uevent_new (action +:+ "@/devices/pci0000:00/0000:00:05.0/virtio3/block/vda" +:+
    String "000" ("ACTION=" +:+ action +:+
    String "000" ("DEVPATH=/devices/pci0000:00/0000:00:05.0/virtio3/block/vda" +:+
    String "000" ("SUBSYSTEM=block" +:+
    String "000" ("DEVNAME=vda" +:+
    String "000" ("SEQNUM=1234")))))).
Definition slot5 : TypeAddrDeviceMatcher := mkMatcher DevBlk "0000:00:05.0".

Example blk_event_fields :
  blk_event "add" =
  mkUevent "add" "/devices/pci0000:00/0000:00:05.0/virtio3/block/vda" "vda" "block" "1234" ""
  ∧ convert DEVICE_CONVERTORS (blk_event "add") = Some (mkGuestDevice "/dev/vda" "0000:00:05.0" DevBlk).
Proof. vm_compute. split; reflexivity. Qed.

(** A disk that was there when the agent started is unplugged and another is
    plugged into the same slot: the first one stays in the cache, and the next
    request for the slot blocks for ever. *)
Definition replugged : option DeviceMonitorInternal :=
  i ← monitor_start None (Some [mkBlkEntry "vda" (Some vda_link)]);
  let i := (handle_event [] (blk_event "remove") i).1 in
  Some (handle_event [] (blk_event "add") i).1.

Example replugged_slot_blocks :
  ∃ i, replugged = Some i ∧ elements (dom (dmi_devices i)) ≡ₚ ["0000:00:05.0"; ue_devpath (blk_event "add")]
       ∧ ∀ order, order ≡ₚ elements (dom (dmi_devices i)) → subscribe order slot5 i = None.
Proof.
  eexists. split; [vm_compute; reflexivity|]. split; [vm_compute; constructor|].
  intros order Ho. apply subscribe_blocks_iff; [done|].
  exists "0000:00:05.0", (ue_devpath (blk_event "add")). by vm_compute.
Qed.

(** A partition of a disk takes the disk's place at its address. *)
Example partition_shadows_disk :
  (λ i, dmi_devices i !! "0000:00:05.0") <$>
    monitor_start None (Some [mkBlkEntry "vda" (Some vda_link);
                              mkBlkEntry "vda1" (Some (vda_link +:+ "/vda1"))])
  = Some (Some (mkGuestDevice "/dev/vda1" "0000:00:05.0" DevBlk)).
Proof. vm_compute. reflexivity. Qed.

(** *** Runs *)
Definition disk5 : GuestDevice := mkGuestDevice "/dev/vda" "0000:00:05.0" DevBlk.
Definition disk5_path : string := ue_devpath (blk_event "add").
Definition sys0 : MonitorSys := mkMonitorSys default_monitor MonIdle ReqIdle [] [].
Definition waiting_sub (m : TypeAddrDeviceMatcher) : DeviceSubscriber := mkSubscriber m None true.

Lemma sys0_reachable : monitor_reachable sys0.
Proof. apply (reach_start None (Some [])). by vm_compute. Qed.

Definition sys_waiting : MonitorSys :=
  mkMonitorSys (mkMonitor {[1%N := waiting_sub slot5]} ∅ 1) MonIdle (ReqWaiting 1 slot5) [] [].

Lemma sys_waiting_reachable : monitor_reachable sys_waiting.
Proof.
  eapply reach_step; [apply sys0_reachable|].
  exact (step_subscribe default_monitor [] [] [] slot5 ltac:(reflexivity)).
Qed.

(** The event has arrived and its delivery is under way. *)
Definition sys_announced : MonitorSys :=
  mkMonitorSys (mkMonitor {[1%N := waiting_sub slot5]} {[disk5_path := disk5]} 1)
    (MonSend 1 disk5) (ReqWaiting 1 slot5) [] [disk5].

Lemma sys_announced_reachable : monitor_reachable sys_announced.
Proof.
  eapply reach_step; [apply sys_waiting_reachable|].
  exact (step_event (mkMonitor {[1%N := waiting_sub slot5]} ∅ 1) (ReqWaiting 1 slot5) [] [] [1%N]
           (blk_event "add") eq_refl ltac:(simpl; by rewrite dom_singleton_L, elements_singleton)).
Qed.

Lemma device_requests_served_witness :
  (∀ n s', nsteps task_step n sys_announced s' → n ≤ 3)
  ∧ ∃ d, is_match slot5 d = true ∧ d ∈ [disk5]
      ∧ ∀ s', rtc task_step sys_announced s' → (∀ s'', ¬ task_step s' s'') → ms_log s' = [(slot5, Some d)].
Proof.
  apply (proj2 (device_requests_served sys_announced sys_announced_reachable) 1%N slot5 disk5_path disk5);
    [reflexivity|intros []%elem_of_nil|vm_compute; reflexivity|vm_compute; reflexivity].
Defined.

(** After a timeout the old subscriber stays, without a receiver. The device of
    the next request is handed to it, and that request waits for nothing
    although the device is there. *)
Definition sys_timed_out : MonitorSys :=
  mkMonitorSys (mkMonitor {[1%N := mkSubscriber slot5 None false]} ∅ 1) MonIdle ReqIdle [(slot5, None)] [].
Definition sys_retry : MonitorSys :=
  mkMonitorSys (mkMonitor (<[2%N := waiting_sub slot5]> {[1%N := mkSubscriber slot5 None false]}) ∅ 2)
    MonIdle (ReqWaiting 2 slot5) [(slot5, None)] [].
Definition sys_swallowed (mon : MonitorPc) : MonitorSys :=
  mkMonitorSys (mkMonitor (<[2%N := waiting_sub slot5]> {[1%N := mkSubscriber slot5 None false]})
                  {[disk5_path := disk5]} 2)
    mon (ReqWaiting 2 slot5) [(slot5, None)] [disk5].

Lemma sys_retry_reachable : monitor_reachable sys_retry.
Proof.
  eapply reach_step; [|exact (step_subscribe (ms_internal sys_timed_out) [(slot5, None)] [] [] slot5
                                ltac:(reflexivity))].
  eapply reach_step; [apply sys_waiting_reachable|].
  exact (step_timeout (ms_internal sys_waiting) MonIdle 1 slot5 [] [] (waiting_sub slot5) eq_refl eq_refl).
Qed.

Lemma two_subscribers : [1%N; 2%N] ≡ₚ elements (dom (dmi_subscribers (ms_internal sys_retry))).
Proof.
  simpl. rewrite dom_insert_L, dom_singleton_L, elements_union_singleton by set_solver.
  rewrite elements_singleton. apply perm_swap.
Qed.

Lemma leaked_subscriber_swallows :
  monitor_reachable (sys_swallowed MonIdle)
  ∧ dmi_devices (ms_internal (sys_swallowed MonIdle)) !! disk5_path = Some disk5
  ∧ is_match slot5 disk5 = true
  ∧ ∀ s', ¬ task_step (sys_swallowed MonIdle) s'.
Proof.
  split; [|split; [vm_compute; reflexivity|split; [vm_compute; reflexivity|]]].
  - eapply reach_step; [|apply step_task, (step_send (ms_internal (sys_swallowed MonIdle)) 1 disk5); by vm_compute].
    eapply reach_step; [apply sys_retry_reachable|].
    exact (step_event (ms_internal sys_retry) (ReqWaiting 2 slot5) [(slot5, None)] [] [1%N; 2%N]
             (blk_event "add") eq_refl two_subscribers).
  - intros s' Hs. inversion Hs as [|i mon id m log ann sub d Hid Hq|]; subst.
    vm_compute in Hid. injection Hid as <-. discriminate Hq.
Qed.
