(* ===== verification/GuestStorage.v ===== *)
(** * Guest agent: storages

    [vmm/task/src/sandbox.rs]: the storages the host asks the agent to mount,
    their reference counts, the check of a mount against [/proc/mounts], the
    namespaces of the pod. What the guest kernel answers to a call is an input:
    every call takes the next answer, and when none are left it succeeds. *)
From S2P Require Import Prelude Strs Storage Mount Fs Frame Inject GuestDevice.

(** ** Text of [/proc/mounts] *)
Record MountRecord := mkMountRecord { mr_fstype : string; mr_options : list string }.

Definition has_option (r : MountRecord) (o : string) : bool := bool_decide (o ∈ mr_options r).

(** [str::replace] for a pattern that is not empty: the matches from the left
    that do not overlap. [skip] counts the rest of the match under way. *)
Fixpoint replace_from (p r : string) (skip : nat) (s : string) : string :=
  match s with
  | "" => ""
  | String a s' =>
      match skip with
      | S n => replace_from p r n s'
      | 0 => if starts_with s p then r +:+ replace_from p r (Nat.pred (String.length p)) s'
             else String a (replace_from p r 0 s')
      end
  end.
Definition str_replace (p r s : string) : string := replace_from p r 0 s.

Definition unescape_proc_mount_field (value : string) : string :=
  str_replace "\134" "\" (str_replace "\043" "#" (str_replace "\012" (String "010" "")
    (str_replace "\011" (String "009" "") (str_replace "\040" " " value)))).

Definition line_record (mp line : string) : option MountRecord :=
  match split_whitespace line with
  | _ :: f1 :: f2 :: f3 :: _ =>
      if bool_decide (unescape_proc_mount_field f1 = mp)
      then Some (mkMountRecord f2 (split ","%char f3)) else None
  | _ => None
  end.

(** [iter().find_map] *)
Fixpoint find_map {A B} (f : A → option B) (l : list A) : option B :=
  match l with
  | [] => None
  | x :: l => match f x with Some b => Some b | None => find_map f l end
  end.

Definition find_mount_record (mounts mp : string) : option MountRecord :=
  find_map (line_record mp) (rev (lines mounts)).

(** ** The guest kernel

    The mount table, oldest entry first. *)
Record MountEntry := mkMountEntry {
  me_source : string;
  me_target : string;
  me_record : MountRecord
}.

(** How the kernel prints its table ([proc_pid_mounts(5)]); see
    [GuestStorageProps] for what the theorems rely on. *)
Class ProcMounts := proc_mounts : list MountEntry → string.

Inductive PathKind := KFile | KDir | KOther | KMissing | KDenied.
#[global] Instance PathKind_eq_dec : EqDecision PathKind.
Proof. solve_decision. Defined.

(** An entry of [/sys/class/virtio-ports]: its file name, and the text of its
    [name] file when there is one and when it can be read. *)
Record VirtioPort := mkPort { vp_file : string; vp_name : option (option string) }.

(** One answer has a field for every kind of call. [ga_mounts] are the results
    of the [mount(2)] calls of one [mount]; a mount appears in the table with
    [ga_source] and [ga_record], and [ga_remounted] are its options after a
    remount; [ga_text] is what a file holds or how an error prints, and
    [ga_stderr] what a failed command wrote, when that is known; [ga_ports] is
    the listing of the virtio ports, [None] when there is no such directory. *)
Record Answer := mkAnswer {
  ga_ok : bool;
  ga_kind : PathKind;
  ga_mounts : list bool;
  ga_source : string;
  ga_record : MountRecord;
  ga_remounted : list string;
  ga_umount : option Errno;
  ga_device : option GuestDevice;
  ga_text : string;
  ga_stderr : option string;
  ga_ports : option (list VirtioPort)
}.
Definition good_answer : Answer :=
  mkAnswer true KMissing [] "none" (mkMountRecord "ext4" ["rw"]) ["ro"] None None "" None (Some []).

(** Commands of the OCI runtime. *)
Record CreateOpts := mkCreateOpts {
  co_pid_file : string;
  co_no_pivot : bool;
  co_no_new_keyring : bool;
  co_detach : bool;
  co_console : bool
}.
#[global] Instance CreateOpts_eq_dec : EqDecision CreateOpts.
Proof. solve_decision. Defined.

Inductive RuncCall :=
  | RcCreate (id : string) (o : CreateOpts)
  | RcStart (id : string)
  | RcKill (id : string) (signal : N) (all : bool)
  | RcDelete (id : string)
  | RcPs (id : string)
  | RcExec (id : string) (pid_file : string) (console : bool).
#[global] Instance RuncCall_eq_dec : EqDecision RuncCall.
Proof. solve_decision. Defined.

Inductive GuestCall :=
  | GStat (p : string)
  | GMkdirAll (p : string)
  | GCreate (p : string)
  | GMount (p : string)
  | GReadMounts
  | GUmount (p : string)
  | GRemoveFile (p : string)
  | GRemoveDir (p : string)
  | GScanScsi (addr : string)
  | GGetDevice (addr : string) (ty : DeviceType)
  | GSysctl (p v : string)
  | GRescan
  | GRead (p : string)
  | GFork
  | GUnshare
  | GHostname (name : string)
  | GAlive (pid : Z)
  | GBuildRuntime
  | GConsole
  | GConsoleClean
  | GCreateIo (id : string)
  | GCopyIo (id : string)
  | GListPorts
  | GMountStats
  | GRunc (c : RuncCall)
  | GCgroup (pid : Z)
  | GSignal (pid : Z) (signal : N).
#[global] Instance GuestCall_eq_dec : EqDecision GuestCall.
Proof. solve_decision. Defined.

(** [SandboxResources] with the kernel under it. *)
Record Guest := mkGuestOs {
  g_storages : list Storage;
  g_adoptions : gmap string AdoptionInfo;
  g_table : list MountEntry;
  g_trace : list GuestCall;
  g_answers : list Answer
}.

Definition set_guest_storages (f : list Storage → list Storage) (g : Guest) : Guest :=
  mkGuestOs (f (g_storages g)) (g_adoptions g) (g_table g) (g_trace g) (g_answers g).
Definition set_table (f : list MountEntry → list MountEntry) (g : Guest) : Guest :=
  mkGuestOs (g_storages g) (g_adoptions g) (f (g_table g)) (g_trace g) (g_answers g).

(** A call is recorded, whatever the answer. *)
Definition query (c : GuestCall) : M Guest Answer := λ g,
  let '(a, rest) := match g_answers g with [] => (good_answer, []) | a :: l => (a, l) end in
  Some (a, mkGuestOs (g_storages g) (g_adoptions g) (g_table g) (g_trace g ++ [c]) rest).

Inductive GuestError :=
  | EMkdir | ENotRegular | ENoParent | ECreate | EMount (e : MountError) | EReadMounts | ENotMounted
  | EWrongFstype | ENotReadonly | ENotReadWrite | EUmount | ERemove | EScsiAddr | EDeviceTimeout
  | ESysctl | ENsStat | ENsType | EFork | ENoFile | EBadJson | EOptions | EOrphanGone | EStdio
  | ENoRuntime | EConsole | EIo | ERuntime (text : string) | EPidFile | ENotFound (text : string)
  | EUnknown (text : string) | EPrecondition | EUnimplemented | ENoSpec | ECgroup | ESignal | EPs.

Abbreviation G A := (M Guest (result A GuestError)).

(** [?] on a call of the kernel. *)
Definition attempt (c : GuestCall) (e : GuestError) : G unit :=
  a ← query c; mret (if ga_ok a then Ok tt else Err e).

Notation "'try' x ':=' m 'in' k" :=
  (r ← m; match r with Ok x => k | Err e => mret (Err e) end)
  (at level 10, x pattern, m at level 100, k at level 200) : kuasar_scope.
Open Scope kuasar_scope.

(** ** Mounting *)

(** The last entry at a target, changed. *)
Fixpoint change_last (p : MountEntry → bool) (f : MountEntry → MountEntry) (l : list MountEntry)
  : option (list MountEntry) :=
  match l with
  | [] => None
  | x :: l =>
      match change_last p f l with
      | Some l' => Some (x :: l')
      | None => if p x then Some (f x :: l) else None
      end
  end.

Definition at_target (mp : string) (e : MountEntry) : bool := bool_decide (me_target e = mp).

(** What one [mount(2)] call does to the table: a remount changes the options
    of what is on top, a change of propagation nothing that is shown, and any
    other call mounts. *)
Definition apply_call (a : Answer) (table : list MountEntry) (c : MountCall) : list MountEntry :=
  if negb (bool_decide (N.land (mc_flags c) MS_REMOUNT = 0%N)) then
    default table
      (change_last (at_target (mc_target c))
         (λ e, mkMountEntry (me_source e) (me_target e)
                 (mkMountRecord (mr_fstype (me_record e)) (ga_remounted a))) table)
  else if bool_decide (mc_fstype c = None ∧ mc_source c = None
                       ∧ N.land (mc_flags c) PROPAGATION_TYPES ≠ 0%N) then table
  else table ++ [mkMountEntry (ga_source a) (mc_target c) (ga_record a)].

(** [vmm_common::mount::mount] on the guest's table. *)
Definition guest_mount (fst src : option string) (options : list string) (target : string) : G unit :=
  a ← query (GMount target);
  match mount fst src options target (mkKernel [] (ga_mounts a)) with
  | None => panic
  | Some (r, k) =>
      modify (set_table (λ t, foldl (apply_call a) t (calls k)));;
      mret (match r with Ok _ => Ok tt | Err e => Err (EMount e) end)
  end.

Definition none_if_empty (s : string) : option string := if bool_decide (s = "") then None else Some s.

(** [is_file] and [exists] see the same file. *)
Definition ensure_destination_file_exists (path : string) : G unit :=
  a ← query (GStat path);
  match ga_kind a with
  | KFile => mret (Ok tt)
  | KDir | KOther => mret (Err ENotRegular)
  | KMissing | KDenied =>
      match parent path with
      | None => mret (Err ENoParent)
      | Some dir =>
          try _ := attempt (GMkdirAll dir) EMkdir in
          attempt (GCreate path) ECreate
      end
  end.

Section with_proc_mounts.
Context `{ProcMounts}.

Definition verify_record (s : Storage) (r : MountRecord) : result unit GuestError :=
  if negb (bool_decide (fstype s = "")) && negb (bool_decide (fstype s = "bind"))
       && negb (bool_decide (mr_fstype r = fstype s)) then Err EWrongFstype else
  let expect_ro := bool_decide ("ro" ∈ s_options s) in
  if expect_ro && negb (has_option r "ro") then Err ENotReadonly else
  if negb expect_ro && negb (has_option r "rw") then Err ENotReadWrite else Ok tt.

Definition verify_storage_mount (s : Storage) : G unit :=
  a ← query GReadMounts;
  if negb (ga_ok a) then mret (Err EReadMounts) else
  mounts ← gets (λ g, proc_mounts (g_table g));
  mret (match find_mount_record mounts (mount_point s) with
        | None => Err ENotMounted
        | Some r => verify_record s r
        end).

(** [Path::is_dir] *)
Definition is_dir (p : string) : M Guest bool :=
  a ← query (GStat p); mret (bool_decide (ga_kind a = KDir)).

(** A file is mounted on a file; everything else on a directory. *)
Definition mounts_on_file (s : Storage) : M Guest bool :=
  if bool_decide (fstype s = "bind") then b ← is_dir (s_source s); mret (negb b) else mret false.

Definition prepare_mount_point (s : Storage) (on_file : bool) : G unit :=
  if on_file then ensure_destination_file_exists (mount_point s)
  else attempt (GMkdirAll (mount_point s)) EMkdir.

Definition mount_storage (s : Storage) : G unit :=
  on_file ← mounts_on_file s;
  try _ := prepare_mount_point s on_file in
  try _ := guest_mount (none_if_empty (fstype s)) (none_if_empty (s_source s)) (s_options s)
             (mount_point s) in
  verify_storage_mount s.

(** [umount2] takes the last mount at the target away. *)
Fixpoint remove_last (p : MountEntry → bool) (l : list MountEntry) : option (list MountEntry) :=
  match l with
  | [] => None
  | x :: l =>
      match remove_last p l with
      | Some l' => Some (x :: l')
      | None => if p x then Some l else None
      end
  end.

Definition guest_unmount (mp : string) : G unit :=
  a ← query (GUmount mp);
  (match ga_umount a with
   | None => modify (set_table (λ t, default t (remove_last (at_target mp) t)))
   | Some _ => mret tt
   end);;
  mret (match unmount (ga_umount a) with Ok _ => Ok tt | Err _ => Err EUmount end).

Definition remove_mount_point (s : Storage) (on_file : bool) : G unit :=
  attempt (if on_file then GRemoveFile (mount_point s) else GRemoveDir (mount_point s)) ERemove.

Definition unmount_storage (s : Storage) : G unit :=
  try _ := guest_unmount (mount_point s) in
  on_file ← mounts_on_file s;
  remove_mount_point s on_file.

(** ** Storages of containers *)
Definition set_source (src : string) (s : Storage) : Storage :=
  {| host_source := host_source s; s_type := s_type s; s_id := s_id s;
     device_id := device_id s; ref_container := ref_container s;
     need_guest_handle := need_guest_handle s; s_source := src; driver := driver s;
     driver_options := driver_options s; fstype := fstype s; s_options := s_options s;
     mount_point := mount_point s; lower_dirs := lower_dirs s; cleanup_path := cleanup_path s;
     owned_by_runtime := owned_by_runtime s; source_identity := source_identity s |}.

(** How a request of [GuestMonitor] ends. *)
Definition get_device (addr : string) (ty : DeviceType) : G GuestDevice :=
  a ← query (GGetDevice addr ty);
  mret (match ga_device a with Some d => Ok d | None => Err EDeviceTimeout end).

(** The write to every host's [scan] file is unwrapped. *)
Definition scan_scsi_bus (addr : string) : G unit :=
  match split ":"%char addr with
  | [_; _] => a ← query (GScanScsi addr); if ga_ok a then mret (Ok tt) else panic
  | _ => mret (Err EScsiAddr)
  end.

Definition handle_blk_storage (s : Storage) : G Storage :=
  try d := get_device (s_source s) DevBlk in
  let s := set_source (gd_path d) s in
  try _ := mount_storage s in
  mret (Ok s).

Definition handle_scsi_storage (s : Storage) : G Storage :=
  try _ := scan_scsi_bus (s_source s) in
  try d := get_device (s_source s) DevScsi in
  let s := set_source (gd_path d) s in
  try _ := mount_storage s in
  mret (Ok s).

Definition same_storage (a b : Storage) : bool :=
  bool_decide (host_source a = host_source b) && bool_decide (s_type a = s_type b)
    && bool_decide (mount_point a = mount_point b).

Fixpoint refer_first (p : Storage → bool) (c : string) (l : list Storage) : option (list Storage) :=
  match l with
  | [] => None
  | s :: l => if p s then Some (refer c s :: l) else (s ::.) <$> refer_first p c l
  end.

Definition add_storage (c : string) (s : Storage) : G unit :=
  storages ← gets g_storages;
  match refer_first (λ x, same_storage x s) c storages with
  | Some l => modify (set_guest_storages (λ _, l));; mret (Ok tt)
  | None =>
      try s := (if decide (driver s = "scsi") then handle_scsi_storage s
                else if decide (driver s = "ephemeral") then
                  try _ := mount_storage s in mret (Ok s)
                else if decide (driver s = "blk") then handle_blk_storage s
                else panic) in
      modify (set_guest_storages (λ l, l ++ [s]));; mret (Ok tt)
  end.

Fixpoint add_storages (c : string) (l : list Storage) : G unit :=
  match l with
  | [] => mret (Ok tt)
  | s :: l => try _ := add_storage c s in add_storages c l
  end.

Fixpoint unmount_removed (l : list Storage) : M Guest unit :=
  match l with
  | [] => mret tt
  | s :: l => _ ← unmount_storage s; unmount_removed l
  end.

Definition unreferenced (s : Storage) : bool := bool_decide (ref_count s = 0%N).

Definition guest_gc_storages : G unit :=
  storages ← gets g_storages;
  modify (set_guest_storages (filter (λ s, unreferenced s = false)));;
  unmount_removed (filter (λ s, unreferenced s = true) storages);;
  _ ← query GReadMounts;
  mret (Ok tt).

Definition defer_storages (c : string) : G unit :=
  modify (set_guest_storages (fmap (defer c)));;
  guest_gc_storages.
End with_proc_mounts.
