(* ===== verification/GuestText.v ===== *)
(** * Guest agent: reading [/proc/mounts]

    The kernel writes blanks and backslashes of a path as octal escapes, one
    line per mount, the oldest first; the agent takes the escapes back and
    looks for the newest mount at a path. *)
From S2P Require Import Prelude Strs Storage Mount Fs Frame Inject GuestDevice GuestStorage.

(** ** Escapes *)

(** The characters that may be escaped, with their codes. *)
Definition code (a : ascii) : option string :=
  if decide (a = " "%char) then Some "\040"
  else if decide (a = "009"%char) then Some "\011"
  else if decide (a = "010"%char) then Some "\012"
  else if decide (a = "#"%char) then Some "\043"
  else if decide (a = "\"%char) then Some "\134"
  else None.

(** [esc f s]: the characters [f] selects are escaped. *)
Fixpoint esc (f : ascii → bool) (s : string) : string :=
  match s with
  | "" => ""
  | String a s' => (if f a then default (String a "") (code a) else String a "") +:+ esc f s'
  end.

Definition but (f : ascii → bool) (c : ascii) : ascii → bool := λ a, f a && negb (bool_decide (a = c)).

Lemma code_cases a p :
  code a = Some p →
  (a = " "%char ∧ p = "\040") ∨ (a = "009"%char ∧ p = "\011") ∨ (a = "010"%char ∧ p = "\012")
  ∨ (a = "#"%char ∧ p = "\043") ∨ (a = "\"%char ∧ p = "\134").
Proof. unfold code. repeat case_decide; subst; intros [= <-]; auto 10. Qed.

Lemma esc_ext f g s : (∀ a, f a = g a) → esc f s = esc g s.
Proof. intros E. induction s as [|a s IH]; simpl; [done|]. by rewrite IH, E. Qed.

Lemma esc_none s : esc (λ _, false) s = s.
Proof. induction s as [|a s IH]; simpl; [done|]. by rewrite IH. Qed.

(** A character that is not a backslash starts no escape. *)
Lemma replace_plain p r a s : a ≠ "\"%char → replace_from (String "\" p) r 0 (String a s) = String a (replace_from (String "\" p) r 0 s).
Proof. intros Ha. cbn -[starts_with]. unfold starts_with; simpl. by rewrite decide_False. Qed.

(** Taking one code back, while backslashes are still escaped. *)
Lemma replace_code f c p s :
  code c = Some p → f "\"%char = true → (∀ a, f a = true → is_Some (code a)) →
  str_replace p (String c "") (esc f s) = esc (but f c) s.
Proof.
  intros Hc Hbs Hf. unfold str_replace. induction s as [|a s IH]; [done|]. cbn [esc].
  destruct (f a) eqn:Efa.
  - destruct (Hf a Efa) as [q Hq]. rewrite Hq. cbn [default from_option].
    unfold but at 1. rewrite Efa. cbn [andb].
    destruct (decide (a = c)) as [->|Hne].
    + rewrite bool_decide_true by done. rewrite Hc in Hq. injection Hq as <-. rewrite <- IH. clear -Hc.
      destruct (code_cases _ _ Hc) as [[-> ->]|[[-> ->]|[[-> ->]|[[-> ->]|[-> ->]]]]]; by cbn.
    + rewrite bool_decide_false by done. cbn [negb]. rewrite <- IH. clear -Hc Hq Hne.
      destruct (code_cases _ _ Hc) as [[-> ->]|[[-> ->]|[[-> ->]|[[-> ->]|[-> ->]]]]];
        destruct (code_cases _ _ Hq) as [[-> ->]|[[-> ->]|[[-> ->]|[[-> ->]|[-> ->]]]]]; by cbn.
  - assert (a ≠ "\"%char) as Ha by congruence.
    unfold but at 1. rewrite Efa. cbn [andb String.append]. rewrite <- IH.
    destruct (code_cases _ _ Hc) as [[-> ->]|[[-> ->]|[[-> ->]|[[-> ->]|[-> ->]]]]]; by apply replace_plain.
Qed.

Definition escapes (f : ascii → bool) : Prop := f "\"%char = true ∧ ∀ a, f a = true → is_Some (code a).

Lemma escapes_but f c : escapes f → c ≠ "\"%char → escapes (but f c).
Proof.
  intros [Hb Hf] Hc. unfold but. split; [by rewrite Hb, bool_decide_false|].
  intros a [Ha _]%andb_true_iff. auto.
Qed.

Lemma unescape_esc f s : escapes f → unescape_proc_mount_field (esc f s) = s.
Proof.
  intros H0. unfold unescape_proc_mount_field.
  assert (escapes (but f " ")) as H1 by by apply escapes_but.
  assert (escapes (but (but f " ") "009")) as H2 by by apply escapes_but.
  assert (escapes (but (but (but f " ") "009") "010")) as H3 by by apply escapes_but.
  assert (escapes (but (but (but (but f " ") "009") "010") "#")) as H4 by by apply escapes_but.
  destruct H0, H1, H2, H3, H4.
  rewrite (replace_code f " "), (replace_code _ "009"), (replace_code _ "010"), (replace_code _ "#"),
    (replace_code _ "\") by done.
  rewrite <- (esc_none s) at 2. apply esc_ext. intros a. apply not_true_iff_false. unfold but.
  rewrite !andb_true_iff, !negb_true_iff, !bool_decide_eq_false. intros [[[[[Ha ?] ?] ?] ?] ?].
  assert (is_Some (code a)) as [q [[? _]|[[? _]|[[? _]|[[? _]|[? _]]]]]%code_cases] by auto; done.
Qed.

(** What [proc_pid_mounts(5)] escapes in a path: blank, tab, newline and
    backslash, and in some kernels the hash sign. *)
Definition special (hash : bool) (a : ascii) : bool :=
  bool_decide (a ∈ [" "; "009"; "010"; "\"]%char) || hash && bool_decide (a = "#"%char).
Definition escape (hash : bool) (s : string) : string := esc (special hash) s.

Lemma escapes_special hash : escapes (special hash).
Proof.
  split; [done|]. intros a. unfold special.
  intros [Ha%bool_decide_eq_true|[_ ->%bool_decide_eq_true]%andb_true_iff]%orb_true_iff; [|eauto].
  unfold code. repeat case_decide; eauto. set_solver.
Qed.

Lemma unescape_escape hash s : unescape_proc_mount_field (escape hash s) = s.
Proof. apply unescape_esc, escapes_special. Qed.

(** ** Words *)

(** No whitespace of any kind. *)
Definition word (s : string) : bool := negb (bool_decide (s = "")) && all_chars (λ a, negb (is_ws a)) s.
(** No whitespace but what is escaped. *)
Definition escapable (s : string) : bool :=
  negb (bool_decide (s = "")) && all_chars (λ a, negb (is_ws a) || special false a) s.

Lemma escape_word hash s : escapable s = true → word (escape hash s) = true.
Proof.
  unfold escapable, word. rewrite !andb_true_iff, !negb_true_iff, !bool_decide_eq_false.
  intros [Hne Hall]. split.
  - destruct s as [|a s]; [done|]. unfold escape. cbn [esc].
    destruct (special hash a); [|done]. by destruct (code a) as [q|] eqn:E;
      [destruct (code_cases _ _ E) as [[-> ->]|[[-> ->]|[[-> ->]|[[-> ->]|[-> ->]]]]]|].
  - clear Hne. induction s as [|a s IH]; [done|]. cbn [all_chars] in Hall.
    apply andb_true_iff in Hall as [Ha Hs]. unfold escape in *. cbn [esc].
    rewrite all_chars_app, IH by done. rewrite andb_true_r.
    destruct (special hash a) eqn:E.
    + destruct (code a) as [q|] eqn:Eq; [by destruct (code_cases _ _ Eq) as [[-> ->]|[[-> ->]|[[-> ->]|[[-> ->]|[-> ->]]]]]|].
      destruct (escapes_special hash) as [_ He]. destruct (He a E). congruence.
    + cbn [all_chars]. rewrite andb_true_r. apply orb_true_iff in Ha as [Ha|Ha]; [done|].
      unfold special in E, Ha. rewrite andb_false_l, orb_false_r in Ha. by rewrite Ha in E.
Qed.

(** ** The table and its text *)
Definition printable (e : MountEntry) : bool :=
  escapable (me_source e) && escapable (me_target e) && word (mr_fstype (me_record e))
    && negb (bool_decide (mr_options (me_record e) = []))
    && forallb (λ o, word o && negb (contains_char o ","%char)) (mr_options (me_record e)).

Definition prints (line : string) (e : MountEntry) : Prop :=
  ∃ hash src rest, split_whitespace line =
    src :: escape hash (me_target e) :: mr_fstype (me_record e)
      :: join "," (mr_options (me_record e)) :: rest.

(** The format of [/proc/mounts]. *)
Class ProcMountsLaws `{ProcMounts} :=
  proc_mounts_lines t : Forall (λ e, printable e = true) t → Forall2 prints (lines (proc_mounts t)) t.

Definition top_mount (mp : string) (t : list MountEntry) : option MountEntry :=
  last (filter (λ e, at_target mp e = true) t).

Lemma printable_spec e :
  printable e = true ↔
  escapable (me_source e) = true ∧ escapable (me_target e) = true ∧ word (mr_fstype (me_record e)) = true
  ∧ mr_options (me_record e) ≠ []
  ∧ ∀ o, o ∈ mr_options (me_record e) → word o = true ∧ contains_char o ","%char = false.
Proof.
  unfold printable. rewrite !andb_true_iff, negb_true_iff, bool_decide_eq_false, forallb_forall.
  split.
  - intros [[[[? ?] ?] ?] Ho]. do 4 (split; [done|]). intros o Hin%list_elem_of_In.
    by apply Ho, andb_true_iff in Hin as [? ?%negb_true_iff].
  - intros (? & ? & ? & ? & Ho). split; [tauto|]. intros o Hin%list_elem_of_In.
    destruct (Ho o Hin) as [-> ->]. done.
Qed.

Lemma line_record_prints mp line e :
  printable e = true → prints line e →
  line_record mp line = if at_target mp e then Some (me_record e) else None.
Proof.
  intros (_ & _ & _ & Hne & Ho)%printable_spec (hash & src & rest & E).
  unfold line_record, at_target. rewrite E, unescape_escape.
  case_bool_decide; [|done]. do 2 f_equal.
  change "," with (String "," ""). rewrite split_join; [by destruct (me_record e)|done|].
  intros o Hin. by apply Ho.
Qed.

Section text_laws.
Context `{ProcMountsLaws}.

(** What [find_mount_record] finds is the newest mount at the path. *)
Lemma find_mount_record_top t mp :
  Forall (λ e, printable e = true) t →
  find_mount_record (proc_mounts t) mp = me_record <$> top_mount mp t.
Proof.
  intros Hp. pose proof (proc_mounts_lines t Hp) as Hl. unfold find_mount_record.
  generalize dependent (lines (proc_mounts t)). unfold top_mount.
  induction t as [|e t IH] using rev_ind; intros l Hl.
  { by inversion Hl. }
  apply Forall_app in Hp as [Hp He]. apply Forall_cons in He as [He _].
  apply Forall2_app_inv_r in Hl as (l1 & l2 & Hl1 & Hl2 & ->).
  inversion Hl2 as [|x ? ? ? Hx Hnil]; subst. inversion Hnil; subst.
  rewrite rev_app_distr. simpl. rewrite (line_record_prints _ _ _ He Hx), filter_app, filter_cons.
  rewrite filter_nil. destruct (at_target mp e).
  - rewrite decide_True by done. by rewrite last_snoc.
  - rewrite decide_False, app_nil_r by done. by apply IH.
Qed.
End text_laws.

(** ** A rendering that satisfies the laws *)
Definition mount_line (e : MountEntry) : string :=
  join " " [escape true (me_source e); escape false (me_target e); mr_fstype (me_record e);
            join "," (mr_options (me_record e)); "0"; "0"].
Definition plain_proc_mounts : ProcMounts := λ t,
  foldr (λ e s, mount_line e +:+ String "010" s) "" t.

Lemma split_ws_acc_word w s rest :
  all_chars (λ a, negb (is_ws a)) s = true →
  split_ws_acc w (s +:+ rest) = split_ws_acc (w +:+ s) rest.
Proof.
  revert w. induction s as [|a s IH]; simpl; intros w Hs; [by rewrite app_nil_r_str|].
  apply andb_true_iff in Hs as [Ha%negb_true_iff Hs]. rewrite Ha, IH, app_assoc_str by done. done.
Qed.

Lemma word_spec s : word s = true ↔ s ≠ "" ∧ all_chars (λ a, negb (is_ws a)) s = true.
Proof. unfold word. by rewrite andb_true_iff, negb_true_iff, bool_decide_eq_false. Qed.

Lemma split_whitespace_join l :
  Forall (λ w, word w = true) l → split_whitespace (join " " l) = l.
Proof.
  unfold split_whitespace. induction l as [|w l IH]; intros Hl; [done|].
  apply Forall_cons in Hl as [[Hne Hw]%word_spec Hl]. destruct l as [|w' l].
  - cbn [join]. rewrite <- (app_nil_r_str w), split_ws_acc_word by done. simpl.
    rewrite app_nil_r_str. by destruct w.
  - change (join " " (w :: w' :: l)) with (w +:+ String " " (join " " (w' :: l))).
    rewrite split_ws_acc_word by done. destruct w; [done|]. cbn. f_equal. by apply IH.
Qed.

Lemma word_join_comma l :
  l ≠ [] → (∀ o, o ∈ l → word o = true) → word (join "," l) = true.
Proof.
  induction l as [|w l IH]; intros Hne Hl; [done|].
  assert (word w = true) as [Hw Hall]%word_spec by (apply Hl; by left). destruct l as [|w' l]; [by apply word_spec|].
  assert (word (join "," (w' :: l)) = true) as [_ Hrest]%word_spec.
  { apply IH; [done|]. intros o Ho. apply Hl. by right. }
  apply word_spec. change (join "," (w :: w' :: l)) with (w +:+ "," +:+ join "," (w' :: l)). split; [by destruct w|]. rewrite !all_chars_app, Hall, Hrest. done.
Qed.

Lemma word_no_newline s : word s = true → contains_char s "010"%char = false.
Proof. intros [_ H]%word_spec. by apply (all_chars_contains (λ a, negb (is_ws a))). Qed.

Lemma printable_words e :
  printable e = true →
  Forall (λ w, word w = true)
    [escape true (me_source e); escape false (me_target e); mr_fstype (me_record e);
     join "," (mr_options (me_record e)); "0"; "0"].
Proof.
  intros (Hs & Ht & Hf & Hne & Ho)%printable_spec.
  repeat constructor; try done; [by apply escape_word..|].
  apply word_join_comma; [done|]. intros o ?. by apply Ho.
Qed.

Lemma join_no_newline l :
  Forall (λ w, word w = true) l → contains_char (join " " l) "010"%char = false.
Proof.
  induction l as [|w l IH]; intros Hl; [done|]. apply Forall_cons in Hl as [Hw Hl].
  destruct l as [|w' l]; [by apply word_no_newline|].
  change (join " " (w :: w' :: l)) with (w +:+ " " +:+ join " " (w' :: l)).
  rewrite !contains_char_app, word_no_newline, IH by done. done.
Qed.

#[global] Instance plain_laws : @ProcMountsLaws plain_proc_mounts.
Proof.
  intros t Ht. unfold lines, proc_mounts, plain_proc_mounts.
  induction t as [|e t IH]; [constructor|]. apply Forall_cons in Ht as [He Ht].
  cbn [foldr]. rewrite split_app_sep by (apply join_no_newline, printable_words, He).
  specialize (IH Ht). remember (split "010"%char _) as l eqn:El.
  assert (l ≠ []) by (subst; apply split_not_nil).
  assert (drop_last_empty (mount_line e :: l) = mount_line e :: drop_last_empty l) as ->.
  { destruct l; [done|]. by destruct (mount_line e). }
  constructor; [|done]. unfold prints, mount_line. rewrite split_whitespace_join by by apply printable_words.
  eauto.
Qed.
