(* ===== verification/GuestStorageProps.v ===== *)
(** * Guest agent: what storages promise

    A storage the agent accepted is mounted as the host asked, stays mounted
    as long as a container refers to it, and is unmounted when the last
    container is cleaned up. *)
From S2P Require Import Prelude Strs Storage Mount Fs Frame Inject GuestDevice GuestStorage GuestText.

(** ** The mount table *)
Definition mounts_at (mp : string) (t : list MountEntry) : nat :=
  length (filter (λ e, at_target mp e = true) t).

Lemma mounts_at_app mp t t' : mounts_at mp (t ++ t') = mounts_at mp t + mounts_at mp t'.
Proof. unfold mounts_at. by rewrite filter_app, length_app. Qed.

Lemma mounts_at_cons mp e t : mounts_at mp (e :: t) = (if at_target mp e then 1 else 0) + mounts_at mp t.
Proof. unfold mounts_at. rewrite filter_cons. by destruct (at_target mp e). Qed.

Lemma top_mount_exists mp t : 0 < mounts_at mp t → is_Some (top_mount mp t).
Proof.
  unfold mounts_at, top_mount. intros H. apply last_is_Some. intros E. rewrite E in H. simpl in H. lia.
Qed.

Lemma change_last_target p f t t' mp :
  (∀ e, me_target (f e) = me_target e) → change_last p f t = Some t' → mounts_at mp t' = mounts_at mp t.
Proof.
  intros Hf. revert t'. induction t as [|e t IH]; simpl; [done|]. intros t'.
  destruct (change_last p f t) as [t1|].
  - intros [= <-]. by rewrite !mounts_at_cons, (IH t1).
  - destruct (p e); [|done]. intros [= <-]. rewrite !mounts_at_cons. unfold at_target. by rewrite Hf.
Qed.

Lemma remove_last_target mp mp' t t' :
  remove_last (at_target mp) t = Some t' →
  mounts_at mp' t = mounts_at mp' t' + (if decide (mp = mp') then 1 else 0).
Proof.
  revert t'. induction t as [|e t IH]; simpl; [done|]. intros t'.
  destruct (remove_last (at_target mp) t) as [t1|].
  - intros [= <-]. rewrite !mounts_at_cons, (IH t1) by done. lia.
  - destruct (at_target mp e) eqn:E; [|done]. intros [= <-]. rewrite mounts_at_cons.
    unfold at_target in *. apply bool_decide_eq_true in E as ->.
    case_decide; case_bool_decide; try done; lia.
Qed.

(** A call never takes a mount away. *)
Lemma apply_call_grows a t c mp : mounts_at mp t ≤ mounts_at mp (apply_call a t c).
Proof.
  unfold apply_call. case_match.
  - destruct (change_last _ _ t) as [t'|] eqn:E; simpl; [|done].
    apply (change_last_target _ _ _ _ mp) in E; [lia|done].
  - case_match; [done|]. rewrite mounts_at_app. lia.
Qed.

Lemma apply_calls_grow a t l mp : mounts_at mp t ≤ mounts_at mp (foldl (apply_call a) t l).
Proof.
  revert t. induction l as [|c l IH]; intros t; [done|]. simpl.
  etrans; [apply (apply_call_grows a t c)|apply IH].
Qed.

(** A storage that [mount] mounts anew: its options ask for no remount. *)
Definition mounts_anew (s : Storage) : bool :=
  negb (bool_decide (fstype s = "")) && bool_decide (N.land (parse_options (s_options s)).1 MS_REMOUNT = 0%N).

Lemma land_ldiff_zero x y z : N.land x z = 0%N → N.land (N.ldiff x y) z = 0%N.
Proof.
  intros H. apply N.bits_inj. intros i. rewrite N.land_spec, N.ldiff_spec, N.bits_0.
  assert (N.testbit (N.land x z) i = false) as E by by rewrite H, N.bits_0.
  rewrite N.land_spec in E. destruct (N.testbit x i), (N.testbit z i), (N.testbit y i); done.
Qed.

(** A kernel whose calls start with those of another one. *)
Lemma sys_mount_extends c k b k' : sys_mount c k = Some (b, k') → calls k' = (calls k ++ if b then [c] else [])%list.
Proof.
  unfold sys_mount. destruct (answers k) as [|[] l]; intros [= <- <-]; simpl; by rewrite ?app_nil_r.
Qed.

Lemma maybe_mount_calls (p : bool) c k b k' :
  (if p then sys_mount c else mret true) k = Some (b, k') → calls k `prefix_of` calls k'.
Proof.
  destruct p; [intros E%sys_mount_extends; rewrite E; by apply prefix_app_r|by intros [= _ <-]].
Qed.

(** The first call of a [mount] that succeeds mounts. *)
Lemma mount_first_call fst src opts target ans k :
  mount (Some fst) src opts target (mkKernel [] ans) = Some (Ok tt, k) →
  N.land (parse_options opts).1 MS_REMOUNT = 0%N →
  ∃ c rest, calls k = c :: rest ∧ mc_target c = target ∧ mc_fstype c = Some fst
            ∧ N.land (mc_flags c) MS_REMOUNT = 0%N.
Proof.
  unfold mount. destruct (parse_options opts) as [fl data]. simpl. intros E Hr.
  case_bool_decide; [done|]. rewrite (bool_decide_true _ Hr) in E. cbn [orb] in E.
  rewrite andb_true_r in E.
  apply bind_inv in E as (b1 & k1 & E1 & E). destruct b1; [|done]. cbn [negb] in E.
  apply bind_inv in E as (b2 & k2 & E2 & E). destruct b2; [|done]. cbn [negb] in E.
  apply bind_inv in E as (b3 & k3 & E3 & E). destruct b3; [|done]. injection E as <-.
  apply maybe_mount_calls in E2, E3.
  match type of E1 with (if ?p then _ else _) _ = _ => assert (p = true) as Ep end.
  { apply negb_true_iff. by repeat case_bool_decide. }
  rewrite Ep in E1. apply sys_mount_extends in E1. simpl in E1.
  destruct E2 as [l2 E2], E3 as [l3 E3]. rewrite E1 in E2. rewrite E2 in E3.
  eexists _, _. split; [exact E3|]. simpl. split; [done|]. split; [done|]. by apply land_ldiff_zero.
Qed.

(** ** Steps that leave storages and mounts alone *)
Definition at_rest (st : list Storage) (t : list MountEntry) (g : Guest) : Prop := g_storages g = st ∧ g_table g = t.

Section at_rest.
Context `{ProcMounts} (st : list Storage) (t : list MountEntry).

Lemma still_ask c : preserves (at_rest st t) (query c).
Proof. intros g a g' [<- <-]. unfold query. destruct (g_answers g); by intros [= <- <-]. Qed.
#[local] Hint Resolve still_ask : preserve.

Lemma still_attempt c e : preserves (at_rest st t) (attempt c e).
Proof. unfold attempt. preserve. Qed.
#[local] Hint Resolve still_attempt : preserve.

Lemma still_mounts_on_file s : preserves (at_rest st t) (mounts_on_file s).
Proof. unfold mounts_on_file, is_dir. preserve. Qed.

Lemma still_prepare s b : preserves (at_rest st t) (prepare_mount_point s b).
Proof. unfold prepare_mount_point, ensure_destination_file_exists. preserve. Qed.

Lemma still_verify s : preserves (at_rest st t) (verify_storage_mount s).
Proof. unfold verify_storage_mount. preserve. Qed.

Lemma still_get_device a ty : preserves (at_rest st t) (get_device a ty).
Proof. unfold get_device. preserve. Qed.

Lemma still_scan a : preserves (at_rest st t) (scan_scsi_bus a).
Proof. unfold scan_scsi_bus. preserve. Qed.

Lemma still_remove s b : preserves (at_rest st t) (remove_mount_point s b).
Proof. unfold remove_mount_point. preserve. Qed.
End at_rest.

(** ** Mounting and unmounting *)
Definition mounts_grow (g g' : Guest) : Prop := ∀ mp, mounts_at mp (g_table g) ≤ mounts_at mp (g_table g').

Lemma grows_refl g : mounts_grow g g.
Proof. by intros mp. Qed.
Lemma grows_trans g1 g2 g3 : mounts_grow g1 g2 → mounts_grow g2 g3 → mounts_grow g1 g3.
Proof. intros H1 H2 mp. etrans; [apply H1|apply H2]. Qed.

(** From a quiet step. *)
Lemma still_grows (g g' : Guest) : at_rest (g_storages g) (g_table g) g' → g_storages g' = g_storages g ∧ mounts_grow g g'.
Proof. intros [-> E]. split; [done|]. intros mp. by rewrite E. Qed.

Lemma guest_mount_spec f src opts target g r g' :
  guest_mount f src opts target g = Some (r, g') →
  g_storages g' = g_storages g ∧ mounts_grow g g' ∧
  (r = Ok tt → is_Some f → N.land (parse_options opts).1 MS_REMOUNT = 0%N →
   mounts_at target (g_table g) < mounts_at target (g_table g')).
Proof.
  unfold guest_mount. intros E. apply bind_inv in E as (a & g1 & E1 & E).
  apply (still_ask (g_storages g) (g_table g)) in E1 as [Hs Ht]; [|done].
  destruct (mount _ _ _ _ _) as [[rm k]|] eqn:Em; [|done]. minv E. simpl.
  unfold mounts_grow. simpl. rewrite Ht. split; [done|]. split; [intros mp; apply apply_calls_grow|].
  intros Hok [fs ->] Hr. destruct rm; [|done].
  destruct a0. destruct (mount_first_call _ _ _ _ _ _ Em Hr) as (c & rest & -> & Hc & Hf & Hfl). simpl.
  eapply Nat.lt_le_trans; [|apply apply_calls_grow].
  unfold apply_call. rewrite bool_decide_true by done. simpl. rewrite bool_decide_false by (rewrite Hf; naive_solver).
  rewrite mounts_at_app, mounts_at_cons. unfold at_target. simpl. rewrite bool_decide_true by done. lia.
Qed.

Section storage_ops.
Context `{ProcMounts}.

Lemma mount_storage_spec s g r g' :
  mount_storage s g = Some (r, g') →
  g_storages g' = g_storages g ∧ mounts_grow g g' ∧
  (r = Ok tt → mounts_anew s = true →
   mounts_at (mount_point s) (g_table g) < mounts_at (mount_point s) (g_table g')).
Proof.
  unfold mount_storage. intros E.
  apply bind_inv in E as (b & g1 & E1 & E).
  apply (still_mounts_on_file (g_storages g) (g_table g)) in E1; [|done].
  apply bind_inv in E as (rp & g2 & E2 & E). eapply still_prepare in E2; [|exact E1]. clear E1.
  destruct rp as [[]|e].
  2: { minv E. apply still_grows in E2 as [? ?]. done. }
  apply bind_inv in E as (rm & g3 & E3 & E). apply guest_mount_spec in E3 as (Hs & Hg & Hn).
  destruct E2 as [E2s E2t].
  assert (g_storages g' = g_storages g3 ∧ g_table g' = g_table g3 ∧ (r = Ok tt → rm = Ok tt)) as (E4 & E5 & E6).
  { destruct rm as [[]|e]; [|by minv E]. apply (still_verify (g_storages g3) (g_table g3)) in E as [-> ->]; done. }
  unfold mounts_grow in *. rewrite E4, E5, Hs, E2s. rewrite E2t in Hg, Hn. do 2 (split; [done|]).
  intros Hr (Hf & Hfl%bool_decide_eq_true)%andb_true_iff. apply Hn; [auto|..|done].
  unfold none_if_empty. apply negb_true_iff, bool_decide_eq_false in Hf. by rewrite bool_decide_false.
Qed.

Lemma unmount_storage_spec s g r g' :
  unmount_storage s g = Some (r, g') →
  g_storages g' = g_storages g ∧
  ∀ mp, mounts_at mp (g_table g) ≤ mounts_at mp (g_table g') + (if decide (mount_point s = mp) then 1 else 0).
Proof.
  unfold unmount_storage. intros E. apply bind_inv in E as (ru & g1 & E1 & E).
  assert (g_storages g' = g_storages g1 ∧ g_table g' = g_table g1) as [-> ->].
  { destruct ru; [|by minv E]. apply bind_inv in E as (b & g2 & E2 & E).
    eapply still_mounts_on_file in E2; [|done]. by eapply still_remove in E. }
  clear E. unfold guest_unmount in E1. apply bind_inv in E1 as (a & g2 & E2 & E1).
  apply (still_ask (g_storages g) (g_table g)) in E2 as [Hs Ht]; [|done].
  destruct (ga_umount a); minv E1; simpl; rewrite Ht; split; try done; intros mp; [lia|].
  destruct (remove_last _ _) as [t'|] eqn:E; simpl; [|lia].
  apply (remove_last_target _ mp) in E. lia.
Qed.

(** *** Adding *)
Lemma refer_first_Some p c l l' :
  refer_first p c l = Some l' →
  ∃ l1 x l2, l = l1 ++ x :: l2 ∧ l' = l1 ++ refer c x :: l2 ∧ p x = true.
Proof.
  revert l'. induction l as [|s l IH]; simpl; [done|]. intros l'.
  destruct (p s) eqn:E; [intros [= <-]; by exists [], s, l|].
  intros (k & Hk & ->)%fmap_Some. destruct (IH k Hk) as (l1 & x & l2 & -> & -> & Hx).
  by exists (s :: l1), x, l2.
Qed.

Lemma refer_first_None p c l x : refer_first p c l = None → x ∈ l → p x = false.
Proof.
  induction l as [|s l IH]; simpl; [by intros _ []%elem_of_nil|].
  destruct (p s) eqn:E; [done|]. intros E'%fmap_None [->|Hx]%elem_of_cons; eauto.
Qed.

(** A mount of the storage with another source. *)
Lemma handled_spec s src g r g' :
  mount_storage (set_source src s) g = Some (r, g') →
  g_storages g' = g_storages g ∧ mounts_grow g g' ∧
  (r = Ok tt → mounts_anew s = true →
   mounts_at (mount_point s) (g_table g) < mounts_at (mount_point s) (g_table g')).
Proof. intros E. by apply mount_storage_spec in E. Qed.

Definition handles (m : G Storage) (s : Storage) : Prop :=
  ∀ g r g', m g = Some (r, g') →
  g_storages g' = g_storages g ∧ mounts_grow g g' ∧
  ∀ s', r = Ok s' → (∃ src, s' = set_source src s) ∧
    (mounts_anew s = true → mounts_at (mount_point s) (g_table g) < mounts_at (mount_point s) (g_table g')).

Lemma handles_mount src s : handles (try _ := mount_storage (set_source src s) in mret (Ok (set_source src s))) s.
Proof.
  intros g r g' E. apply bind_inv in E as (rm & g1 & E1 & E).
  apply handled_spec in E1 as (Hs & Hg & Hn). destruct rm as [[]|e]; minv E; split; auto; split; auto; [|done].
  intros s' [= <-]. eauto.
Qed.

Lemma handles_after {A} (m : G A) k s :
  (∀ st t, preserves (at_rest st t) m) → (∀ a, handles (k a) s) →
  handles (m ≫= λ r, match r with Ok a => k a | Err e => mret (Err e) end) s.
Proof.
  intros Hm Hk g r g' E. apply bind_inv in E as (ra & g1 & E1 & E).
  apply (Hm (g_storages g) (g_table g)) in E1 as [Hs Ht]; [|done]. destruct ra as [a|e].
  - destruct (Hk a g1 r g' E) as (Hs' & Hg & Hn). unfold mounts_grow in *. rewrite Hs', Hs. rewrite Ht in *. done.
  - minv E. rewrite Hs. unfold mounts_grow. by rewrite Ht.
Qed.

Lemma set_source_same s : set_source (s_source s) s = s.
Proof. by destruct s. Qed.

Lemma handle_blk_handles s : handles (handle_blk_storage s) s.
Proof. apply handles_after; [intros; apply still_get_device|]. intros d. apply handles_mount. Qed.
Lemma handle_scsi_handles s : handles (handle_scsi_storage s) s.
Proof.
  apply handles_after; [intros; apply still_scan|]. intros _.
  apply handles_after; [intros; apply still_get_device|]. intros d. apply handles_mount.
Qed.
Lemma handle_ephemeral_handles s : handles (try _ := mount_storage s in mret (Ok s)) s.
Proof. pose proof (handles_mount (s_source s) s) as Hh. by rewrite set_source_same in Hh. Qed.
Lemma handles_panic s : handles panic s.
Proof. by intros g r g'. Qed.

Lemma add_storage_spec c s g r g' :
  add_storage c s g = Some (r, g') →
  mounts_grow g g' ∧
  match r with
  | Err _ => g_storages g' = g_storages g
  | Ok _ =>
      refer_first (λ x, same_storage x s) c (g_storages g) = Some (g_storages g')
      ∨ (∀ x, x ∈ g_storages g → same_storage x s = false)
        ∧ (∃ src, g_storages g' = g_storages g ++ [set_source src s])
        ∧ (mounts_anew s = true →
           mounts_at (mount_point s) (g_table g) < mounts_at (mount_point s) (g_table g'))
  end.
Proof.
  unfold add_storage. intros E. apply bind_inv in E as (st & g0 & [= <- <-] & E).
  destruct (refer_first _ _ _) as [l|] eqn:Er.
  { minv E. split; [by intros mp|]. by left. }
  apply bind_inv in E as (rs & g1 & E1 & E).
  assert (handles (if decide (driver s = "scsi") then handle_scsi_storage s
                   else if decide (driver s = "ephemeral") then try _ := mount_storage s in mret (Ok s)
                   else if decide (driver s = "blk") then handle_blk_storage s else panic) s) as Hh.
  { repeat case_decide; eauto using handle_scsi_handles, handle_ephemeral_handles, handle_blk_handles, handles_panic. }
  destruct (Hh g rs g1 E1) as (Hs & Hg & Hn). destruct rs as [s'|e]; minv E; [|done].
  split; [done|]. right. simpl. destruct (Hn s' eq_refl) as ((src & ->) & Hm).
  split; [intros x Hx; by apply (refer_first_None _ _ _ x Er)|]. split; [|done]. exists src. by rewrite Hs.
Qed.
End storage_ops.
