(* ===== verification/GuestHistory.v ===== *)
(** * Guest agent: storages over the life of the pod

    Any sequence of container creations and clean-ups, with any answers of the
    guest kernel. *)
From S2P Require Import Prelude Strs Storage Mount Fs Frame Inject GuestDevice GuestStorage GuestText GuestStorageProps.

(** ** References *)

(** What the host sends: every container counted at least once and no more than
    [b] references in all. *)
Definition fair (b : N) (s : Storage) : Prop :=
  refs_pos (ref_container s) ∧ (refs_sum (ref_container s) ≤ b)%N.

Definition well_sent (c : string) (b : N) (s : Storage) : Prop :=
  c ∈ dom (ref_container s) ∧ fair b s ∧ mounts_anew s = true.

Lemma fair_mono b b' s : (b ≤ b')%N → fair b s → fair b' s.
Proof. intros ? [? ?]. split; [done|]. lia. Qed.

Lemma refer_fair b c s : (b < 2 ^ 32 - 1)%N → fair b s → fair (b + 1) (refer c s).
Proof.
  intros Hb [Hp Hs]. unfold fair. rewrite refer_ref_container.
  destruct (ref_container s !! c) as [v|] eqn:E; simpl.
  - pose proof (refs_sum_delete _ _ _ E) as Hd. rewrite uwrap_small by lia.
    rewrite <- insert_delete_eq. split.
    + apply map_Forall_insert_2; [lia|]. by apply map_Forall_delete.
    + rewrite refs_sum_insert_new by apply lookup_delete_eq. lia.
  - rewrite uwrap_small by lia. split.
    + apply map_Forall_insert_2; [lia|done].
    + rewrite refs_sum_insert_new by done. lia.
Qed.

Lemma defer_fair b c s : fair b s → fair b (defer c s).
Proof.
  intros [Hp Hs]. unfold fair, defer. simpl. split; [by apply map_Forall_delete|].
  destruct (ref_container s !! c) as [v|] eqn:E; [|by rewrite delete_id].
  pose proof (refs_sum_delete _ _ _ E). lia.
Qed.

(** A storage counts as unreferenced exactly when no container refers to it. *)
Lemma unreferenced_iff b s : (b < 2 ^ 32)%N → fair b s → unreferenced s = true ↔ ref_container s = ∅.
Proof.
  intros Hb [Hp Hs]. unfold unreferenced. rewrite bool_decide_eq_true, ref_count_wrap, uwrap_small by lia.
  by apply refs_sum_zero.
Qed.

(** ** Mount points *)
Definition at_point (mp : string) (l : list Storage) : nat := length (filter (λ s, mount_point s = mp) l).

Lemma at_point_nil mp : at_point mp [] = 0.
Proof. done. Qed.
Lemma at_point_app mp l l' : at_point mp (l ++ l') = at_point mp l + at_point mp l'.
Proof. unfold at_point. by rewrite filter_app, length_app. Qed.
Lemma at_point_cons mp s l : at_point mp (s :: l) = (if decide (mount_point s = mp) then 1 else 0) + at_point mp l.
Proof. unfold at_point. rewrite filter_cons. by case_decide. Qed.
Lemma at_point_in s l : s ∈ l → 0 < at_point (mount_point s) l.
Proof.
  intros (l1 & l2 & ->)%list_elem_of_split. rewrite at_point_app, at_point_cons, decide_True by done. lia.
Qed.
Lemma at_point_fmap mp (f : Storage → Storage) l :
  (∀ s, mount_point (f s) = mount_point s) → at_point mp (f <$> l) = at_point mp l.
Proof.
  intros Hf. induction l as [|s l IH]; [done|]. rewrite fmap_cons, !at_point_cons, Hf, IH. done.
Qed.
Lemma at_point_filter mp (p : Storage → bool) l :
  at_point mp l = at_point mp (filter (λ s, p s = false) l) + at_point mp (filter (λ s, p s = true) l).
Proof.
  induction l as [|s l IH]; [done|]. rewrite !filter_cons, at_point_cons, IH.
  destruct (p s) eqn:E.
  - rewrite (decide_False (P := true = false)), (decide_True (P := true = true)), at_point_cons by done. lia.
  - rewrite (decide_True (P := false = false)), (decide_False (P := false = true)), at_point_cons by done. lia.
Qed.

(** Every storage has a mount of its own. *)
Definition all_mounted (g : Guest) : Prop := ∀ mp, at_point mp (g_storages g) ≤ mounts_at mp (g_table g).

Section history.
Context `{ProcMounts}.

Lemma unmount_removed_spec l g u g' :
  unmount_removed l g = Some (u, g') →
  g_storages g' = g_storages g ∧ ∀ mp, mounts_at mp (g_table g) ≤ mounts_at mp (g_table g') + at_point mp l.
Proof.
  revert g. induction l as [|s l IH]; intros g E.
  { injection E as <- <-. split; [done|]. intros mp. lia. }
  cbn [unmount_removed] in E. apply bind_inv in E as (r & g1 & E1 & E).
  apply unmount_storage_spec in E1 as [Hs Hm]. apply IH in E as [Hs' Hm'].
  split; [by rewrite Hs'|]. intros mp. rewrite at_point_cons. specialize (Hm mp). specialize (Hm' mp). lia.
Qed.

Lemma defer_storages_spec c g r g' :
  defer_storages c g = Some (r, g') →
  r = Ok tt ∧ g_storages g' = filter (λ s, unreferenced s = false) (defer c <$> g_storages g)
  ∧ ∀ mp, mounts_at mp (g_table g) ≤ mounts_at mp (g_table g')
            + at_point mp (filter (λ s, unreferenced s = true) (defer c <$> g_storages g)).
Proof.
  unfold defer_storages, guest_gc_storages. intros E. minv E.
  match goal with H : unmount_removed _ _ = _ |- _ => apply unmount_removed_spec in H as [Hs Hm] end.
  match goal with H : query _ ?g1 = _ |- _ => apply (still_ask (g_storages g1) (g_table g1)) in H as [-> ->]; [|done] end.
  split; [done|]. split; [done|]. done.
Qed.

(** ** Operations and histories *)
Inductive GuestOp := OpAdd (c : string) (l : list Storage) | OpDefer (c : string).

Definition run_op (o : GuestOp) : G unit :=
  match o with OpAdd c l => add_storages c l | OpDefer c => defer_storages c end.

Definition op_size (o : GuestOp) : N := match o with OpAdd _ l => N.of_nat (length l) | OpDefer _ => 0 end.

Definition op_sent (b : N) (o : GuestOp) : Prop :=
  match o with OpAdd c l => Forall (well_sent c b) l | OpDefer _ => True end.

(** The kernel answers the next operation in any way. *)
Definition with_answers (l : list Answer) (g : Guest) : Guest :=
  mkGuestOs (g_storages g) (g_adoptions g) (g_table g) (g_trace g) l.

(** [guest_run P b n g g']: operations that satisfy [P], with [n] storages sent
    in all. *)
Inductive guest_run (P : GuestOp → Prop) (b : N) : N → Guest → Guest → Prop :=
  | run_nil g : guest_run P b 0 g g
  | run_cons o ans r n g g1 g2 :
      P o → op_sent b o → run_op o (with_answers ans g) = Some (r, g1) →
      guest_run P b n g1 g2 → guest_run P b (op_size o + n) g g2.

Definition fair_guest (b : N) (g : Guest) : Prop := Forall (fair b) (g_storages g).

Lemma add_storage_keeps c s b b' g r g' :
  add_storage c s g = Some (r, g') → (b' < 2 ^ 32 - 1)%N → (b ≤ b')%N → well_sent c b s →
  fair_guest b' g → all_mounted g → fair_guest (b' + 1) g' ∧ all_mounted g'.
Proof.
  intros E Hb Hle (_ & Hf & Hn) Hfair Hm. apply add_storage_spec in E as [Hg Hr].
  assert (fair_guest (b' + 1) g) as Hfair'.
  { eapply Forall_impl; [exact Hfair|]. intros x. apply fair_mono. lia. }
  unfold fair_guest, all_mounted in *. destruct r as [[]|e].
  2: { rewrite Hr. split; [done|]. intros mp. etrans; [apply Hm|apply Hg]. }
  destruct Hr as [(l1 & x & l2 & E1 & E2 & Hx)%refer_first_Some|(_ & (src & ->) & Hmm)].
  - rewrite E1 in Hm, Hfair, Hfair'. rewrite E2. split.
    + apply Forall_app in Hfair' as [? [_ ?]%Forall_cons]. apply Forall_app in Hfair as [_ [? _]%Forall_cons].
      apply Forall_app; split; [done|]. apply Forall_cons; split; [by apply refer_fair|done].
    + intros mp. etrans; [|apply Hg]. etrans; [|apply Hm]. by rewrite !at_point_app, !at_point_cons.
  - split.
    + apply Forall_app; split; [done|]. apply Forall_singleton. apply (fair_mono b); [lia|exact Hf].
    + intros mp. rewrite at_point_app, at_point_cons, at_point_nil. specialize (Hm mp). specialize (Hg mp).
      case_decide as Emp; [|lia]. simpl in Emp. subst mp. specialize (Hmm Hn). lia.
Qed.

Lemma add_storages_keep c l b b' g r g' :
  add_storages c l g = Some (r, g') → (b' + N.of_nat (length l) < 2 ^ 32)%N → (b ≤ b')%N →
  Forall (well_sent c b) l → fair_guest b' g → all_mounted g →
  fair_guest (b' + N.of_nat (length l)) g' ∧ all_mounted g'.
Proof.
  revert g b'. induction l as [|s l IH]; intros g b' E Hb Hle Hl Hf Hm.
  { injection E as <- <-. by rewrite N.add_0_r. }
  apply Forall_cons in Hl as [Hs Hl]. cbn [add_storages length] in *.
  apply bind_inv in E as (rs & g1 & E1 & E).
  apply (add_storage_keeps c s b b') in E1 as [Hf1 Hm1]; [|lia|done..].
  destruct rs as [[]|e].
  - apply (IH g1 (b' + 1)%N) in E; [|lia|lia|done..]. by replace (b' + N.of_nat (S (length l)))%N with (b' + 1 + N.of_nat (length l))%N by lia.
  - minv E. split; [|done]. eapply Forall_impl; [exact Hf1|]. intros x. apply fair_mono. lia.
Qed.

Lemma defer_keeps c b g r g' :
  defer_storages c g = Some (r, g') → fair_guest b g → all_mounted g → fair_guest b g' ∧ all_mounted g'.
Proof.
  intros (_ & Es & Ht)%defer_storages_spec Hf Hm. unfold fair_guest, all_mounted. rewrite Es. split.
  - apply Forall_forall. intros s [_ (s0 & -> & Hs0)%list_elem_of_fmap]%list_elem_of_filter.
    apply defer_fair. by eapply Forall_forall in Hf.
  - intros mp. specialize (Ht mp). specialize (Hm mp).
    rewrite <- (at_point_fmap mp (defer c) (g_storages g)) in Hm by done.
    rewrite (at_point_filter mp unreferenced) in Hm. lia.
Qed.

Lemma op_keeps o b b' g r g' :
  run_op o g = Some (r, g') → op_sent b o → (b' + op_size o < 2 ^ 32)%N → (b ≤ b')%N →
  fair_guest b' g → all_mounted g → fair_guest (b' + op_size o) g' ∧ all_mounted g'.
Proof.
  destruct o as [c l|c]; simpl; intros E Hs Hb Hle Hf Hm.
  - by eapply add_storages_keep.
  - rewrite N.add_0_r. by eapply defer_keeps.
Qed.

Lemma run_keeps P b b' n g g' :
  guest_run P b n g g' → (b ≤ b')%N → (b' + n < 2 ^ 32)%N → fair_guest b' g → all_mounted g →
  fair_guest (b' + n) g' ∧ all_mounted g'.
Proof.
  intros Hr. revert b'. induction Hr as [g|o ans r n g g1 g2 _ Hs E _ IH]; intros b' Hle Hb Hf Hm.
  { by rewrite N.add_0_r. }
  apply (op_keeps o b b') in E as [Hf1 Hm1]; [|done|lia|done..].
  rewrite N.add_assoc. apply IH; [lia|lia|done..].
Qed.

(** ** A container keeps its storages *)
Definition kept_for (c : string) (s : Storage) (g : Guest) : Prop :=
  ∃ s', s' ∈ g_storages g ∧ same_storage s' s = true ∧ c ∈ dom (ref_container s').

Lemma refer_dom c s : dom (ref_container (refer c s)) = {[c]} ∪ dom (ref_container s).
Proof. rewrite refer_ref_container. apply dom_insert_L. Qed.

Lemma same_storage_refl s src : same_storage (set_source src s) s = true.
Proof. unfold same_storage. simpl. by rewrite !bool_decide_true. Qed.

Lemma add_storage_holds c c' s s0 g r g' :
  add_storage c' s g = Some (r, g') → kept_for c s0 g → kept_for c s0 g'.
Proof.
  intros [_ Hr]%add_storage_spec (s' & Hin & Hsame & Hc). unfold kept_for. destruct r as [[]|e]; [|rewrite Hr; eauto].
  destruct Hr as [(l1 & x & l2 & E1 & E2 & Hx)%refer_first_Some|(_ & (src & ->) & _)].
  - rewrite E1 in Hin. rewrite E2. apply elem_of_app in Hin as [Hin|[->|Hin]%elem_of_cons].
    + exists s'. split; [|done]. apply elem_of_app. by left.
    + exists (refer c' x). split; [apply elem_of_app; right; by left|]. split; [done|]. rewrite refer_dom. set_solver.
    + exists s'. split; [|done]. apply elem_of_app. right. by right.
  - exists s'. split; [|done]. apply elem_of_app. by left.
Qed.

Lemma add_storage_held c s g g' :
  add_storage c s g = Some (Ok tt, g') → c ∈ dom (ref_container s) → kept_for c s g'.
Proof.
  intros [_ [(l1 & x & l2 & E1 & E2 & Hx)%refer_first_Some|(_ & (src & E) & _)]]%add_storage_spec Hc; unfold kept_for.
  - rewrite E2. exists (refer c x). split; [apply elem_of_app; right; by left|]. split; [done|]. rewrite refer_dom. set_solver.
  - rewrite E. exists (set_source src s). split; [apply elem_of_app; right; by left|].
    split; [apply same_storage_refl|done].
Qed.

Lemma add_storages_hold c c' l s0 g r g' :
  add_storages c' l g = Some (r, g') → kept_for c s0 g → kept_for c s0 g'.
Proof.
  revert g. induction l as [|s l IH]; intros g E Hh; [by injection E as <- <-|].
  cbn [add_storages] in E. apply bind_inv in E as (rs & g1 & E1 & E).
  eapply add_storage_holds in E1; [|exact Hh]. destruct rs as [[]|e]; [eauto|by minv E].
Qed.

Lemma add_storages_held c l g g' :
  add_storages c l g = Some (Ok tt, g') → (∀ s, s ∈ l → c ∈ dom (ref_container s)) →
  ∀ s, s ∈ l → kept_for c s g'.
Proof.
  revert g. induction l as [|s l IH]; intros g E Hl s0 Hin; [by apply elem_of_nil in Hin|].
  cbn [add_storages] in E. apply bind_inv in E as (rs & g1 & E1 & E). destruct rs as [[]|e]; [|done].
  apply elem_of_cons in Hin as [->|Hin].
  - eapply add_storages_hold; [exact E|]. eapply add_storage_held; [exact E1|]. apply Hl. by left.
  - eapply IH; [exact E| |done]. intros s1 ?. apply Hl. by right.
Qed.

Lemma defer_holds c c' b s0 g r g' :
  defer_storages c' g = Some (r, g') → c ≠ c' → (b < 2 ^ 32)%N → fair_guest b g → kept_for c s0 g → kept_for c s0 g'.
Proof.
  intros (_ & Es & _)%defer_storages_spec Hne Hb Hf (s' & Hin & Hsame & Hc).
  exists (defer c' s'). assert (c ∈ dom (ref_container (defer c' s'))) as Hd.
  { simpl. rewrite dom_delete_L. set_solver. }
  rewrite Es. split; [|done]. apply list_elem_of_filter. split; [|by apply list_elem_of_fmap_2].
  apply not_true_iff_false. rewrite (unreferenced_iff b); [|done|].
  - intros E. rewrite E in Hd. set_solver.
  - apply defer_fair. by eapply Forall_forall in Hf.
Qed.

Lemma run_holds c s0 b b' n g g' :
  guest_run (λ o, o ≠ OpDefer c) b n g g' → (b ≤ b')%N → (b' + n < 2 ^ 32)%N → fair_guest b' g → all_mounted g →
  kept_for c s0 g → kept_for c s0 g'.
Proof.
  intros Hr. revert b'. induction Hr as [g|o ans r n g g1 g2 Ho Hs E _ IH]; intros b' Hle Hb Hf Hm Hh; [done|].
  assert (kept_for c s0 g1) as Hh1.
  { destruct o as [c' l|c']; [by eapply add_storages_hold|].
    eapply (defer_holds c c' b'); [exact E|congruence|simpl in *; lia|done..]. }
  apply (op_keeps o b b') in E as [Hf1 Hm1]; [|done|lia|done..].
  apply (IH (b' + op_size o)%N); [lia|lia|done..].
Qed.

(** The agent before its first container. *)
Definition fresh_guest (g : Guest) : Prop := g_storages g = [].

Lemma fresh_fair b g : fresh_guest g → fair_guest b g ∧ all_mounted g.
Proof.
  unfold fresh_guest, fair_guest, all_mounted. intros ->. split; [done|]. intros mp. rewrite at_point_nil. lia.
Qed.

(** C30: storages of a container stay. After any creations and clean-ups of
    containers, when the agent accepts the storages of a container each of them
    is mounted and stays mounted, with the container on record, through
    whatever else is created and cleaned up before the container itself is
    cleaned up, and whatever the kernel answers; only the [2^32] references a
    counter holds are a limit. *)
Theorem container_storages_stay c l b n0 n g g0 ans g1 g2 :
  fresh_guest g → guest_run (λ _, True) b n0 g g0 →
  Forall (well_sent c b) l → add_storages c l (with_answers ans g0) = Some (Ok tt, g1) →
  guest_run (λ o, o ≠ OpDefer c) b n g1 g2 →
  (b + n0 + N.of_nat (length l) + n < 2 ^ 32)%N →
  ∀ s, s ∈ l →
    kept_for c s g2 ∧ is_Some (top_mount (mount_point s) (g_table g2)).
Proof.
  intros [Hf Hm]%(fresh_fair b) Hr0 Hl E Hr Hb s Hs.
  apply (run_keeps _ b b) in Hr0 as [Hf0 Hm0]; [|done|lia|done..].
  pose proof E as Eh. apply (add_storages_held c l) with (s := s) in Eh; [|intros x Hx|done].
  2: { by eapply Forall_forall in Hl as (? & _); [|exact Hx]. }
  apply (add_storages_keep c l b (b + n0)) in E as [Hf1 Hm1]; [|lia|lia|done..].
  pose proof Hr as Hr'. apply (run_keeps _ b (b + n0 + N.of_nat (length l))) in Hr' as [_ Hm2]; [|lia|lia|done..].
  eapply (run_holds c s b (b + n0 + N.of_nat (length l))) in Hr; [|lia|lia|done..].
  split; [done|]. destruct Hr as (s' & Hin & Hsame & _). apply top_mount_exists.
  eapply Nat.lt_le_trans; [|apply Hm2].
  unfold same_storage in Hsame. apply andb_true_iff in Hsame as [_ <-%bool_decide_eq_true].
  by apply at_point_in.
Qed.

(** ** Cleaning a container up *)

(** A computation always ends and makes calls of a kind. *)
Definition makes {A} (Q : list GuestCall → Prop) (m : M Guest A) : Prop :=
  ∀ g, ∃ a g' t, m g = Some (a, g') ∧ g_trace g' = g_trace g ++ t ∧ Q t.

Definition no_umount (t : list GuestCall) : Prop := ∀ mp, GUmount mp ∉ t.

Lemma makes_ret {A} (a : A) : makes (λ t, t = []) (mret a).
Proof. intros g. exists a, g, []. by rewrite app_nil_r. Qed.
Lemma makes_ask c : makes (λ t, t = [c]) (query c).
Proof. intros g. unfold query. destruct (g_answers g); eexists _, _, _; done. Qed.
Lemma makes_table f : makes (λ t, t = []) (modify (set_table f)).
Proof. intros g. eexists _, _, []. by rewrite app_nil_r. Qed.
Lemma makes_bind {A B} Q R S (m : M Guest A) (k : A → M Guest B) :
  makes Q m → (∀ a, makes R (k a)) → (∀ t1 t2, Q t1 → R t2 → S (t1 ++ t2)) → makes S (m ≫= k).
Proof.
  intros Hm Hk HS g. destruct (Hm g) as (a & g1 & t1 & E1 & T1 & Q1).
  destruct (Hk a g1) as (b & g2 & t2 & E2 & T2 & R2).
  exists b, g2, (t1 ++ t2). rewrite bind_run, E1. split; [done|]. rewrite T2, T1, app_assoc. eauto.
Qed.
Lemma makes_weaken {A} (Q R : list GuestCall → Prop) (m : M Guest A) : makes Q m → (∀ t, Q t → R t) → makes R m.
Proof. intros Hm HR g. destruct (Hm g) as (a & g1 & t & ? & ? & ?). eauto 10. Qed.

Lemma no_umount_app t1 t2 : no_umount t1 → no_umount t2 → no_umount (t1 ++ t2).
Proof. intros H1 H2 mp [Hm|Hm]%elem_of_app; [by eapply H1|by eapply H2]. Qed.
Lemma quiet_ret {A} (a : A) : makes no_umount (mret a).
Proof. eapply makes_weaken; [apply makes_ret|]. intros t -> mp []%elem_of_nil. Qed.
Lemma quiet_ask c : (∀ mp, c ≠ GUmount mp) → makes no_umount (query c).
Proof. intros Hc. eapply makes_weaken; [apply makes_ask|]. intros t -> mp Hm%list_elem_of_singleton. by eapply Hc. Qed.
Lemma quiet_bind {A B} (m : M Guest A) (k : A → M Guest B) :
  makes no_umount m → (∀ a, makes no_umount (k a)) → makes no_umount (m ≫= k).
Proof. intros Hm Hk. eapply makes_bind; eauto using no_umount_app. Qed.

(** The calls of the unmounting of one storage. *)
Definition umounts (mps : list string) (t : list GuestCall) : Prop := ∀ mp, GUmount mp ∈ t ↔ mp ∈ mps.

Lemma umounts_app l1 l2 t1 t2 : umounts l1 t1 → umounts l2 t2 → umounts (l1 ++ l2) (t1 ++ t2).
Proof. intros H1 H2 mp. rewrite !elem_of_app. by rewrite (H1 mp), (H2 mp). Qed.
Lemma umounts_none t : no_umount t → umounts [] t.
Proof. intros Ht mp. split; [by intros ?%Ht|by intros []%elem_of_nil]. Qed.

Lemma guest_unmount_calls mp : makes (umounts [mp]) (guest_unmount mp).
Proof.
  eapply makes_bind; [apply makes_ask| |].
  - intros a. apply (quiet_bind (B := result unit GuestError)); [|intros; apply quiet_ret].
    destruct (ga_umount a); [apply quiet_ret|].
    eapply makes_weaken; [apply makes_table|]. intros t -> mp' []%elem_of_nil.
  - intros t1 t2 -> Ht. apply (umounts_app [mp] []); [|by apply umounts_none].
    intros mp'. rewrite !list_elem_of_singleton. naive_solver.
Qed.

Lemma unmount_storage_calls s : makes (umounts [mount_point s]) (unmount_storage s).
Proof.
  eapply makes_bind; [apply guest_unmount_calls| |].
  - intros r. assert (makes no_umount (match r with
      | Ok _ => on_file ← mounts_on_file s; remove_mount_point s on_file | Err e => mret (Err e) end)) as Hq;
      [|exact Hq].
    destruct r; [|apply quiet_ret]. apply quiet_bind.
    + unfold mounts_on_file, is_dir. case_bool_decide; [|apply quiet_ret].
      do 2 (apply quiet_bind; [|intros; apply quiet_ret]). by apply quiet_ask.
    + intros b. unfold remove_mount_point, attempt. apply quiet_bind; [|intros; apply quiet_ret].
      apply quiet_ask. by destruct b.
  - intros t1 t2 H1 H2. by apply (umounts_app [mount_point s] []), umounts_none.
Qed.

Lemma unmount_removed_calls l : makes (umounts (mount_point <$> l)) (unmount_removed l).
Proof.
  induction l as [|s l IH].
  - eapply makes_weaken; [apply quiet_ret|]. apply umounts_none.
  - cbn [unmount_removed]. eapply makes_bind; [apply unmount_storage_calls|intros _; exact IH|].
    intros t1 t2. rewrite fmap_cons. apply (umounts_app [mount_point s]).
Qed.

(** The storages only [c] refers to. *)
Definition last_user (c : string) (s : Storage) : Prop := delete c (ref_container s) = ∅.
#[global] Instance last_user_dec c s : Decision (last_user c s).
Proof. unfold last_user. apply _. Defined.

(** C31: clean-up of a container. In every reachable state of the agent the
    clean-up ends without an error, whatever the kernel answers: the container
    is off every record, the storages no other container refers to are gone
    and all others are as before; the unmounts are of exactly the mount points
    of the storages that are gone. *)
Theorem cleanup_exact c b n g g0 ans :
  fresh_guest g → guest_run (λ _, True) b n g g0 → (b + n < 2 ^ 32)%N →
  ∃ g1 t, defer_storages c (with_answers ans g0) = Some (Ok tt, g1)
    ∧ g_storages g1 = defer c <$> filter (λ s, ¬ last_user c s) (g_storages g0)
    ∧ g_trace g1 = g_trace g0 ++ t
    ∧ ∀ mp, GUmount mp ∈ t ↔ ∃ s, s ∈ g_storages g0 ∧ last_user c s ∧ mount_point s = mp.
Proof.
  intros [Hf Hm]%(fresh_fair b) Hr Hb. apply (run_keeps _ b b) in Hr as [Hf0 _]; [|done|lia|done..].
  set (gone := filter (λ s, unreferenced s = true) (defer c <$> g_storages g0)).
  assert (∀ s, s ∈ g_storages g0 → unreferenced (defer c s) = true ↔ last_user c s) as Hlast.
  { intros s Hs. rewrite (unreferenced_iff (b + n)); [done|lia|]. apply defer_fair.
    eapply Forall_forall in Hf0; [exact Hf0|done]. }
  assert (makes (umounts (mount_point <$> gone)) (unmount_removed gone ≫= λ _, query GReadMounts ≫= λ _, mret (Ok (E := GuestError) tt))) as Hmk.
  { eapply makes_bind; [apply unmount_removed_calls|intros u; apply quiet_bind; [by apply quiet_ask|intros; apply quiet_ret]|].
    intros t1 t2 H1 H2. rewrite <- (app_nil_r (mount_point <$> gone)). by apply umounts_app, umounts_none. }
  set (g' := set_guest_storages (filter (λ s, unreferenced s = false)) (set_guest_storages (fmap (defer c)) (with_answers ans g0))).
  destruct (Hmk g') as (r & g1 & t & E & Ht & Hu).
  assert (defer_storages c (with_answers ans g0) = Some (r, g1)) as Ed by exact E.
  destruct (defer_storages_spec _ _ _ _ Ed) as (-> & Es & _).
  exists g1, t. split; [done|]. split; [|split; [done|]].
  - rewrite Es. simpl. clear -Hlast. revert Hlast. induction (g_storages g0) as [|s l IH]; intros Hlast; [done|].
    rewrite fmap_cons, !filter_cons.
    assert (unreferenced (defer c s) = true ↔ last_user c s) as Hs by (apply Hlast; by left).
    rewrite IH by (intros; apply Hlast; by right).
    destruct (unreferenced (defer c s)), (decide (last_user c s)); try (exfalso; naive_solver congruence).
    + by rewrite !decide_False by naive_solver.
    + by rewrite !decide_True by naive_solver.
  - intros mp. rewrite (Hu mp), list_elem_of_fmap. unfold gone. setoid_rewrite list_elem_of_filter.
    setoid_rewrite list_elem_of_fmap. split.
    + intros (? & -> & Hx & s & -> & Hs). exists s. rewrite <- Hlast by done. done.
    + intros (s & Hs & Hl & <-). exists (defer c s). split; [done|]. rewrite Hlast by done. eauto.
Qed.
End history.

(** ** A pod *)
Section sample.
#[local] Existing Instance plain_proc_mounts.

Definition agent0 : Guest := mkGuestOs [] ∅ [] [] [].
Definition disk_answer : Answer :=
  mkAnswer true KMissing [] "/dev/vda" (mkMountRecord "ext4" ["rw"]) ["ro"] None
    (Some (mkGuestDevice "/dev/vda" "0000:00:05.0" DevBlk)) "" None (Some []).
Definition blk_storage (refs : gmap string N) : Storage :=
  {| host_source := "/h/data"; s_type := "bind"; s_id := "storage1"; device_id := Some "blk1";
     ref_container := refs; need_guest_handle := true; s_source := "0000:00:05.0"; driver := "blk";
     driver_options := []; fstype := "ext4"; s_options := ["rw"]; mount_point := "/run/kuasar/storage/1";
     lower_dirs := None; cleanup_path := None; owned_by_runtime := false; source_identity := None |}.

(** The agent after an operation. *)
Definition op_result (o : GuestOp) (ans : list Answer) (g : Guest) : Guest :=
  match run_op o (with_answers ans g) with Some (_, g') => g' | None => g end.

Definition agent1 : Guest := op_result (OpAdd "c1" [blk_storage {["c1" := 1%N]}]) [disk_answer] agent0.
Definition agent2 : Guest :=
  op_result (OpAdd "c2" [blk_storage (<["c2" := 1%N]> {["c1" := 1%N]})]) [disk_answer] agent1.
Definition agent3 : Guest := op_result (OpDefer "c2") [] agent2.

Lemma blk_storage_sent c refs :
  refs_pos refs → (refs_sum refs ≤ 2)%N → c ∈ dom refs → well_sent c 2 (blk_storage refs).
Proof. by repeat split. Qed.

Lemma sent1 : Forall (well_sent "c1" 2) [blk_storage {["c1" := 1%N]}].
Proof. apply Forall_singleton, blk_storage_sent; [by apply map_Forall_singleton|by vm_compute|set_solver]. Qed.
Lemma sent2 : Forall (well_sent "c2" 2) [blk_storage (<["c2" := 1%N]> {["c1" := 1%N]})].
Proof.
  apply Forall_singleton, blk_storage_sent; [|by vm_compute|set_solver].
  apply map_Forall_insert_2; [done|]. by apply map_Forall_singleton.
Qed.

Lemma agent1_run : guest_run (λ _, True) 2 1 agent0 agent1.
Proof.
  eapply (run_cons _ 2 (OpAdd "c1" [blk_storage {["c1" := 1%N]}]) [disk_answer] (Ok tt) 0);
    [done|exact sent1|vm_compute; reflexivity|constructor].
Qed.

Lemma agent23_run : guest_run (λ o, o ≠ OpDefer "c1") 2 1 agent1 agent3.
Proof.
  eapply (run_cons _ 2 (OpAdd "c2" [blk_storage (<["c2" := 1%N]> {["c1" := 1%N]})]) [disk_answer] (Ok tt) 0);
    [done|exact sent2|vm_compute; reflexivity|].
  eapply (run_cons _ 2 (OpDefer "c2") [] (Ok tt) 0); [done|done|vm_compute; reflexivity|constructor].
Qed.

Lemma container_storages_stay_witness :
  kept_for "c1" (blk_storage {["c1" := 1%N]}) agent3
  ∧ is_Some (top_mount "/run/kuasar/storage/1" (g_table agent3)).
Proof.
  apply (container_storages_stay "c1" [blk_storage {["c1" := 1%N]}] 2 0 1 agent0 agent0 [disk_answer] agent1 agent3);
    [reflexivity|apply run_nil|exact sent1|vm_compute; reflexivity|exact agent23_run|vm_compute; reflexivity|by left].
Defined.

Lemma cleanup_exact_witness :
  ∃ g1 t, defer_storages "c1" (with_answers [] agent1) = Some (Ok tt, g1)
    ∧ g_storages g1 = defer "c1" <$> filter (λ s, ¬ last_user "c1" s) (g_storages agent1)
    ∧ g_trace g1 = g_trace agent1 ++ t
    ∧ ∀ mp, GUmount mp ∈ t ↔ ∃ s, s ∈ g_storages agent1 ∧ last_user "c1" s ∧ mount_point s = mp.
Proof.
  apply (cleanup_exact "c1" 2 1 agent0 agent1 []); [reflexivity|exact agent1_run|vm_compute; reflexivity].
Defined.
End sample.
