(* ===== verification/GuestVerify.v ===== *)
(** * Guest agent: a storage is mounted as the host asked

    [verify_storage_mount] reads the text of [/proc/mounts]; what it accepts is
    what the kernel's table says. *)
From S2P Require Import Prelude Strs Storage Mount Fs Frame Inject GuestDevice GuestStorage GuestText GuestStorageProps GuestHistory.

(** ** Names the kernel can print *)
Definition clean_answer (a : Answer) : Prop :=
  ∀ mp, escapable mp = true →
    printable (mkMountEntry (ga_source a) mp (ga_record a)) = true
    ∧ ∀ r : MountRecord, word (mr_fstype r) = true →
        printable (mkMountEntry (ga_source a) mp (mkMountRecord (mr_fstype r) (ga_remounted a))) = true.

Definition clean_table (t : list MountEntry) : Prop := Forall (λ e, printable e = true) t.
Definition clean (g : Guest) : Prop := clean_table (g_table g) ∧ Forall clean_answer (g_answers g).

Definition answer_printable (a : Answer) : bool :=
  printable (mkMountEntry (ga_source a) "/" (ga_record a))
    && printable (mkMountEntry (ga_source a) "/" (mkMountRecord "x" (ga_remounted a))).

Lemma answer_printable_clean a : answer_printable a = true → clean_answer a.
Proof.
  intros [(H1 & _ & H2 & H3 & H4)%printable_spec (_ & _ & _ & H5 & H6)%printable_spec]%andb_true_iff mp Hmp.
  split; [by apply printable_spec|]. intros r Hr. by apply printable_spec.
Qed.

Lemma good_answer_clean : clean_answer good_answer.
Proof. by apply answer_printable_clean. Qed.

Lemma ask_clean c g a g' : query c g = Some (a, g') → clean g → clean g' ∧ clean_answer a ∧ g_table g' = g_table g.
Proof.
  unfold query. intros E [Ht Ha]. destruct (g_answers g) as [|x l]; injection E as <- <-.
  - split; [split; [done|constructor]|]. split; [apply good_answer_clean|done].
  - apply Forall_cons in Ha as [Hx Hl]. done.
Qed.

Lemma change_last_clean p f t t' :
  (∀ e, printable e = true → printable (f e) = true) → clean_table t → change_last p f t = Some t' → clean_table t'.
Proof.
  intros Hf. revert t'. induction t as [|e t IH]; simpl; [done|]. intros t' [He Ht]%Forall_cons.
  destruct (change_last p f t) as [t1|].
  - intros [= <-]. apply Forall_cons. split; [done|]. by apply IH.
  - destruct (p e); [|done]. intros [= <-]. apply Forall_cons. auto.
Qed.

Lemma apply_call_clean a c t :
  clean_answer a → escapable (mc_target c) = true → clean_table t → clean_table (apply_call a t c).
Proof.
  intros Ha Hc Ht. unfold apply_call. case_match.
  - destruct (change_last _ _ t) as [t'|] eqn:E; [|done]. eapply change_last_clean; [|done|exact E].
    intros e He%printable_spec. destruct (Ha (mc_target c) Hc) as [_ Hr].
    destruct He as (Hs & Htg & Hf & _). specialize (Hr (me_record e) Hf).
    apply printable_spec in Hr as (_ & _ & H1 & H2 & H3). by apply printable_spec.
  - case_match; [done|]. apply Forall_app. split; [done|]. apply Forall_singleton. by apply Ha.
Qed.

(** Every call of a [mount] is for its target. *)
Lemma mount_targets fst src opts target ans r k :
  mount fst src opts target (mkKernel [] ans) = Some (r, k) → Forall (λ c, mc_target c = target) (calls k).
Proof.
  unfold mount. destruct (parse_options opts) as [fl data]. intros E.
  assert (∀ (p : bool) c k b k', mc_target c = target → Forall (λ c, mc_target c = target) (calls k) →
    (if p then sys_mount c else mret true) k = Some (b, k') → Forall (λ c, mc_target c = target) (calls k')) as Hstep.
  { intros p c k0 b k' Hc Hk. destruct p; [|by intros [= _ <-]].
    intros ->%sys_mount_extends. apply Forall_app. split; [done|]. destruct b; [by apply Forall_singleton|constructor]. }
  case_bool_decide; [by injection E as <- <-|].
  apply bind_inv in E as (b1 & k1 & E1 & E). apply Hstep in E1; [|done|constructor].
  destruct b1; [|by injection E as <- <-]. simpl in E.
  apply bind_inv in E as (b2 & k2 & E2 & E). apply Hstep in E2; [|done|done].
  destruct b2; [|by injection E as <- <-]. simpl in E.
  apply bind_inv in E as (b3 & k3 & E3 & E). apply Hstep in E3; [|done|done].
  destruct b3; by injection E as <- <-.
Qed.

Lemma guest_mount_clean f src opts target :
  escapable target = true → preserves clean (guest_mount f src opts target).
Proof.
  intros Ht g r g' Hg. unfold guest_mount. intros E. apply bind_inv in E as (a & g1 & E1 & E).
  apply ask_clean in E1 as ([Ht1 Ha1] & Ha & _); [|done].
  destruct (mount _ _ _ _ _) as [[rm k]|] eqn:Em; [|done]. apply mount_targets in Em. minv E.
  split; [|done]. simpl. revert Ht1. generalize (g_table g1).
  induction (calls k) as [|c l IH]; intros t Htab; [done|]. apply Forall_cons in Em as [Hc Hl]. simpl.
  apply IH; [done|]. apply apply_call_clean; [done|by rewrite Hc|done].
Qed.

Section verified.
Context `{ProcMountsLaws}.

Lemma clean_ask c : preserves clean (query c).
Proof. intros g a g' Hg E. by apply ask_clean in E as (? & _). Qed.
#[local] Hint Resolve clean_ask : preserve.

Lemma clean_prepare s b : preserves clean (prepare_mount_point s b).
Proof. unfold prepare_mount_point, ensure_destination_file_exists, attempt. preserve. Qed.
Lemma clean_mounts_on_file s : preserves clean (mounts_on_file s).
Proof. unfold mounts_on_file, is_dir. preserve. Qed.
Lemma clean_get_device a ty : preserves clean (get_device a ty).
Proof. unfold get_device. preserve. Qed.
Lemma clean_scan a : preserves clean (scan_scsi_bus a).
Proof. unfold scan_scsi_bus. preserve. Qed.

(** The mount a request ends with passed the check. *)
Definition verified (s : Storage) (g : Guest) : Prop :=
  ∃ e, top_mount (mount_point s) (g_table g) = Some e ∧ verify_record s (me_record e) = Ok tt.

Lemma verify_storage_mount_spec s g g' :
  verify_storage_mount s g = Some (Ok tt, g') → clean g → verified s g'.
Proof.
  unfold verify_storage_mount. intros E Hg. apply bind_inv in E as (a & g1 & E1 & E).
  apply ask_clean in E1 as ([Ht _] & _); [|done]. destruct (ga_ok a); [|done]. cbn [negb] in E. minv E.
  rewrite find_mount_record_top in * by done.
  destruct (top_mount (mount_point s) (g_table g')) as [e|] eqn:Et; [|done]. by exists e.
Qed.

Lemma mount_storage_verified s g g' :
  mount_storage s g = Some (Ok tt, g') → escapable (mount_point s) = true → clean g → verified s g'.
Proof.
  unfold mount_storage. intros E Hs Hg.
  apply bind_inv in E as (b & g1 & E1 & E). eapply clean_mounts_on_file in E1; [|done].
  apply bind_inv in E as (rp & g2 & E2 & E). eapply clean_prepare in E2; [|done]. destruct rp; [|done].
  apply bind_inv in E as (rm & g3 & E3 & E). eapply guest_mount_clean in E3; [|done|done]. destruct rm; [|done].
  by eapply verify_storage_mount_spec.
Qed.

(** The same, with the source the agent found. *)
Definition verifies (m : G Storage) (s : Storage) : Prop :=
  ∀ g s' g', m g = Some (Ok s', g') → clean g → verified s g' ∧ ∃ src, s' = set_source src s.

Lemma verifies_mount src s :
  escapable (mount_point s) = true →
  verifies (try _ := mount_storage (set_source src s) in mret (Ok (set_source src s))) s.
Proof.
  intros Hs g s' g' E Hg. apply bind_inv in E as (r & g1 & E1 & E). destruct r as [[]|]; [|done]. minv E.
  split; [|eauto]. exact (mount_storage_verified (set_source src s) _ _ E1 Hs Hg).
Qed.

Lemma verifies_after {A} (m : G A) k s :
  preserves clean m → (∀ a, verifies (k a) s) →
  verifies (m ≫= λ r, match r with Ok a => k a | Err e => mret (Err e) end) s.
Proof.
  intros Hm Hk g s' g' E Hg. apply bind_inv in E as (ra & g1 & E1 & E). apply Hm in E1; [|done].
  destruct ra; [|done]. by eapply Hk.
Qed.

(** C33: a storage is mounted as the host asked. When the agent accepts a
    storage it did not have, the newest mount at its mount point has the file
    system asked for (a bind mount, or no type, may have any), is read-only if
    that was asked and read-write otherwise, and the storage is on record. The
    agent sees only the text of [/proc/mounts], whose fields the kernel escapes;
    the mount point has no whitespace the kernel leaves as it is. (A storage that
    matches one on record is neither mounted nor checked again.) *)
Theorem storage_mounted_as_asked c s g g1 :
  clean g → escapable (mount_point s) = true →
  (∀ x, x ∈ g_storages g → same_storage x s = false) →
  add_storage c s g = Some (Ok tt, g1) →
  ∃ e src, top_mount (mount_point s) (g_table g1) = Some e
    ∧ (fstype s ≠ "" → fstype s ≠ "bind" → mr_fstype (me_record e) = fstype s)
    ∧ (if decide ("ro" ∈ s_options s) then "ro" else "rw") ∈ mr_options (me_record e)
    ∧ g_storages g1 = g_storages g ++ [set_source src s].
Proof.
  intros Hg Hs Hnew E. pose proof E as E0. apply add_storage_spec in E0 as [_ Hr].
  destruct Hr as [(l1 & x & l2 & E1 & _ & Hx)%refer_first_Some|(_ & (src & Es) & _)].
  { rewrite (Hnew x) in Hx; [done|]. rewrite E1. apply elem_of_app. right. by left. }
  unfold add_storage in E. apply bind_inv in E as (st & g0 & [= <- <-] & E).
  destruct (refer_first _ _ _) as [l|] eqn:Er.
  { apply refer_first_Some in Er as (l1 & x & l2 & E1 & _ & Hx). rewrite (Hnew x) in Hx; [done|].
    rewrite E1. apply elem_of_app. right. by left. }
  apply bind_inv in E as (rs & g2 & E2 & E). destruct rs as [s'|]; [|done].
  assert (verifies (if decide (driver s = "scsi") then handle_scsi_storage s
                    else if decide (driver s = "ephemeral") then try _ := mount_storage s in mret (Ok s)
                    else if decide (driver s = "blk") then handle_blk_storage s else panic) s) as Hv.
  { repeat case_decide; [| | |by intros g' s0 g3].
    - apply verifies_after; [apply clean_scan|intros _].
      apply verifies_after; [apply clean_get_device|intros d]. by apply verifies_mount.
    - pose proof (verifies_mount (s_source s) s Hs) as Hv. by rewrite set_source_same in Hv.
    - apply verifies_after; [apply clean_get_device|intros d]. by apply verifies_mount. }
  destruct (Hv g s' g2 E2 Hg) as [(e & Htop & Hver) _].
  apply bind_inv in E as (u & g3 & [= <- <-] & [= <-]). exists e, src. split; [done|].
  unfold verify_record, has_option in Hver.
  split; [|split; [|done]].
  - intros H1 H2. rewrite !bool_decide_false in Hver by done. cbn [negb andb] in Hver.
    destruct (bool_decide (mr_fstype (me_record e) = fstype s)) eqn:Eb; [by apply bool_decide_eq_true in Eb|done].
  - clear -Hver. case_match; [done|]. case_decide as Hro.
    + rewrite (bool_decide_true _ Hro) in Hver. cbn [negb andb] in Hver.
      destruct (bool_decide ("ro" ∈ mr_options (me_record e))) eqn:Eb; [by apply bool_decide_eq_true in Eb|done].
    + rewrite (bool_decide_false _ Hro) in Hver. cbn [negb andb] in Hver.
      destruct (bool_decide ("rw" ∈ mr_options (me_record e))) eqn:Eb; [by apply bool_decide_eq_true in Eb|done].
Qed.
End verified.

Section sample.
#[local] Existing Instance plain_proc_mounts.

Lemma storage_mounted_as_asked_witness :
  ∃ e src, top_mount "/run/kuasar/storage/1" (g_table agent1) = Some e
    ∧ ("ext4" ≠ "" → "ext4" ≠ "bind" → mr_fstype (me_record e) = "ext4")
    ∧ (if decide ("ro" ∈ ["rw"]) then "ro" else "rw") ∈ mr_options (me_record e)
    ∧ g_storages agent1 = [] ++ [set_source src (blk_storage {["c1" := 1%N]})].
Proof.
  apply (storage_mounted_as_asked "c1" (blk_storage {["c1" := 1%N]}) (with_answers [disk_answer] agent0) agent1).
  - split; [constructor|]. apply Forall_singleton, answer_printable_clean. reflexivity.
  - reflexivity.
  - intros x Hx. by apply elem_of_nil in Hx.
  - vm_compute. reflexivity.
Defined.

(** A mount whose check fails stays: the storage is not on record, and nothing
    unmounts it later. *)
Definition ro_answer : Answer :=
  mkAnswer true KMissing [] "/dev/vda" (mkMountRecord "ext4" ["ro"]) ["ro"] None
    (Some (mkGuestDevice "/dev/vda" "0000:00:05.0" DevBlk)) "" None (Some []).
Definition failed_agent : Guest :=
  op_result (OpDefer "c1") []
    (op_result (OpAdd "c1" [blk_storage {["c1" := 1%N]}]) [ro_answer; ro_answer; ro_answer] agent0).

Example failed_check_keeps_mount :
  fst <$> run_op (OpAdd "c1" [blk_storage {["c1" := 1%N]}])
            (with_answers [ro_answer; ro_answer; ro_answer] agent0) = Some (Err ENotReadWrite)
  ∧ g_storages failed_agent = [] ∧ is_Some (top_mount "/run/kuasar/storage/1" (g_table failed_agent)).
Proof. vm_compute. split; [reflexivity|split; [reflexivity|eauto]]. Qed.

(** A driver name the host may send and the agent does not know stops it. *)
Example unknown_driver_panics s c : driver s = "mmioblk" → add_storage c s agent0 = None.
Proof. intros E. unfold add_storage. rewrite bind_run. simpl. by rewrite E. Qed.
End sample.
