(* ===== verification/GuestLog.v ===== *)
(** * Guest agent: the runtime's log

    [get_last_runtime_error] and [runtime_error] of
    [vmm/task/src/container.rs]: the log of the OCI runtime is read backwards
    for its newest error. *)
From S2P Require Import Prelude Strs.

(** [serde_json::from_str::<Log>]: the level and the message of a line. *)
Class LogReader := parse_log : string → option (string * string).

Definition newline : ascii := "010"%char.

(** [read_until(b'\n')] from a position: the rest of the line with its newline. *)
Fixpoint read_until (s : list ascii) : list ascii :=
  match s with
  | [] => []
  | a :: s => if decide (a = newline) then [a] else a :: read_until s
  end.

Inductive LogError := LogParse (line : string) | LogOpen.

Section log.
Context `{LogReader}.

(** The loop over the offsets [n - 1, ..., 1]; [pre] is what was read one byte
    further on. *)
Fixpoint scan_log (content : list ascii) (n : nat) (pre : option (list ascii)) : result string LogError :=
  match n with
  | 0 => Ok ""
  | S offset =>
      if bool_decide (offset = 0) then Ok "" else
      let buffer := read_until (drop offset content) in
      match bool_decide (length buffer = 1), pre with
      | true, Some line =>
          let line := String.string_of_list_ascii line in
          match parse_log line with
          | None => Err (LogParse line)
          | Some (level, msg) =>
              if bool_decide (level = "error") then Ok (trim msg)
              else scan_log content offset (Some buffer)
          end
      | _, _ => scan_log content offset (Some buffer)
      end
  end.

Definition get_last_runtime_error (file : option (list ascii)) : result string LogError :=
  match file with
  | None => Err LogOpen
  | Some content => scan_log content (length content) None
  end.

(** The text of the error [runtime_error] makes. [r_err] is how the runtime's
    own error prints, [stderr] what a failed command wrote, if it is known;
    [log_err] how an error of the log prints. *)
Definition runtime_error (log_err : LogError → string) (file : option (list ascii)) (r_err : string)
  (stderr : option string) (msg : string) : string :=
  match get_last_runtime_error file with
  | Err e => msg +:+ ": unable to retrieve OCI runtime error (" +:+ log_err e +:+ "): " +:+ r_err
  | Ok rt_msg =>
      if bool_decide (rt_msg = "") then
        let stderr := from_option trim "" stderr in
        if bool_decide (stderr = "") then msg +:+ ": empty msg in log file: " +:+ r_err
        else msg +:+ ": " +:+ stderr
      else msg +:+ ": " +:+ rt_msg
  end.

(** ** Reference: the newest error *)

(** Over the lines, newest first, each with its newline. *)
Fixpoint newest_error (l : list (list ascii)) : result string LogError :=
  match l with
  | [] => Ok ""
  | x :: l =>
      let line := String.string_of_list_ascii (x ++ [newline]) in
      match parse_log line with
      | None => Err (LogParse line)
      | Some (level, msg) => if bool_decide (level = "error") then Ok (trim msg) else newest_error l
      end
  end.

(** A log as the runtime writes it. *)
Definition log_text (ls : list (list ascii)) : list ascii := mjoin ((λ l, l ++ [newline]) <$> ls).

Definition one_line (l : list ascii) : Prop := newline ∉ l.

Lemma read_until_line l b : one_line l → read_until (l ++ newline :: b) = l ++ [newline].
Proof.
  unfold one_line. induction l as [|a l IH]; intros Hl; simpl; [done|].
  rewrite decide_False by set_solver. rewrite IH by set_solver. done.
Qed.

(** Within a line nothing is parsed. *)
Lemma scan_within a l1 l2 b :
  a ≠ [] → one_line (l1 ++ l2) →
  scan_log (a ++ l1 ++ l2 ++ newline :: b) (length a + length l1) (Some (l2 ++ [newline]))
  = scan_log (a ++ l1 ++ l2 ++ newline :: b) (length a) (Some (l1 ++ l2 ++ [newline])).
Proof.
  intros Ha. revert l2. induction l1 as [|c l1 IH] using rev_ind; intros l2 Hl.
  { simpl. by rewrite Nat.add_0_r. }
  replace (length a + length (l1 ++ [c])) with (S (length a + length l1)) by (rewrite length_app; simpl; lia).
  cbn [scan_log].
  rewrite bool_decide_false by (destruct a; simpl; [done|lia]).
  replace (a ++ (l1 ++ [c]) ++ l2 ++ newline :: b) with ((a ++ l1) ++ (c :: l2) ++ newline :: b)
    by (by rewrite <- !app_assoc).
  rewrite drop_app_length' by (rewrite length_app; lia).
  rewrite read_until_line by (unfold one_line in *; set_solver).
  rewrite bool_decide_false by (simpl; rewrite length_app; simpl; lia).
  rewrite <- (app_assoc a l1). rewrite (IH (c :: l2)) by (unfold one_line in *; set_solver).
  by rewrite <- !app_assoc.
Qed.

(** One line, from its newline to its start. *)
Lemma scan_log_line a l b pre :
  a ≠ [] → one_line l →
  scan_log (a ++ l ++ newline :: b) (length a + length l + 1) pre
  = match pre with
    | None => scan_log (a ++ l ++ newline :: b) (length a) (Some (l ++ [newline]))
    | Some line =>
        let line := String.string_of_list_ascii line in
        match parse_log line with
        | None => Err (LogParse line)
        | Some (level, msg) =>
            if bool_decide (level = "error") then Ok (trim msg)
            else scan_log (a ++ l ++ newline :: b) (length a) (Some (l ++ [newline]))
        end
    end.
Proof.
  intros Ha Hl. rewrite Nat.add_1_r. cbn [scan_log].
  rewrite bool_decide_false by (destruct a; simpl; [done|lia]).
  rewrite app_assoc, drop_app_length' by (rewrite length_app; lia). cbn [read_until].
  rewrite decide_True by done. rewrite bool_decide_true by done. rewrite <- app_assoc.
  pose proof (scan_within a l [] b Ha) as Hw. rewrite app_nil_l, app_nil_r in Hw. cbn [app] in Hw.
  rewrite Hw by done. by destruct pre.
Qed.

Lemma log_text_snoc ls y : log_text (ls ++ [y]) = log_text ls ++ y ++ [newline].
Proof. unfold log_text. rewrite fmap_app, join_app. simpl. by rewrite app_nil_r. Qed.

Lemma log_text_first c f ls : log_text ((c :: f) :: ls) ≠ [].
Proof. done. Qed.

(** The first line: nothing before it is read. *)
Lemma scan_first c f b pre :
  one_line (c :: f) →
  scan_log ((c :: f) ++ newline :: b) (length (c :: f) + 1) pre
  = match pre with
    | None => Ok ""
    | Some line =>
        let line := String.string_of_list_ascii line in
        match parse_log line with
        | None => Err (LogParse line)
        | Some (level, msg) => if bool_decide (level = "error") then Ok (trim msg) else Ok ""
        end
    end.
Proof. intros Hl. apply (scan_log_line [c] f b pre); [done|]. unfold one_line in *. set_solver. Qed.

Lemma scan_log_lines c f ls x b :
  Forall one_line ((c :: f) :: ls) →
  scan_log (log_text ((c :: f) :: ls) ++ b) (length (log_text ((c :: f) :: ls))) (Some (x ++ [newline]))
  = newest_error (x :: rev ls).
Proof.
  revert x b. induction ls as [|y ls IH] using rev_ind; intros x b Hl.
  - unfold log_text. cbn [fmap list_fmap mjoin list_join]. rewrite app_nil_r, <- app_assoc, length_app.
    apply Forall_cons in Hl as [Hl _]. by apply (scan_first c f b (Some (x ++ [newline]))).
  - rewrite (app_comm_cons ls), log_text_snoc, <- !app_assoc in *. cbn [app].
    apply Forall_app in Hl as [Hl Hy]. apply Forall_cons in Hy as [Hy _].
    rewrite !length_app. cbn [length]. rewrite Nat.add_assoc, scan_log_line by (done || apply log_text_first).
    rewrite rev_app_distr. cbn [rev app]. simpl newest_error at 1.
    destruct (parse_log _) as [[level msg]|]; [|done]. case_bool_decide; [done|].
    by rewrite IH.
Qed.

(** C35: the runtime's last error. For a log of complete lines the backward scan
    returns the message of the newest error among all lines but the first, the
    empty text when there is none, and fails at the newest line that is not a
    log entry; a log of one line yields the empty text whatever it says. *)
Theorem last_runtime_error_spec first rest :
  first ≠ [] → Forall one_line (first :: rest) →
  get_last_runtime_error (Some (log_text (first :: rest))) = newest_error (rev rest).
Proof.
  intros Hne Hl. destruct first as [|c f]; [done|]. unfold get_last_runtime_error.
  destruct rest as [|y ls _] using rev_ind.
  - unfold log_text. cbn [fmap list_fmap mjoin list_join]. rewrite app_nil_r, length_app.
    apply Forall_cons in Hl as [Hl _]. by apply (scan_first c f [] None).
  - rewrite (app_comm_cons ls), log_text_snoc in *. apply Forall_app in Hl as [Hl Hy]. apply Forall_cons in Hy as [Hy _].
    rewrite !length_app. cbn [length]. rewrite Nat.add_assoc, scan_log_line by (done || apply log_text_first).
    rewrite rev_app_distr. cbn [rev app]. by apply scan_log_lines.
Qed.
End log.

Section sample.
(** A log of [level:message] lines. *)
Definition sample_reader : LogReader := λ s,
  match split ":"%char (trim s) with [level; msg] => Some (level, msg) | _ => None end.
#[local] Existing Instance sample_reader.

Definition bytes (s : string) : list ascii := String.list_ascii_of_string s.

Lemma last_runtime_error_spec_witness :
  get_last_runtime_error (Some (log_text [bytes "info:start"; bytes "error:failed"; bytes "info:exit"])) = Ok "failed".
Proof.
  rewrite (last_runtime_error_spec (bytes "info:start") [bytes "error:failed"; bytes "info:exit"]).
  - vm_compute. reflexivity.
  - discriminate.
  - repeat constructor; apply (bool_decide_unpack _); vm_compute; exact I.
Defined.

(** A log with the error in its only line. *)
Example single_line_lost :
  get_last_runtime_error (Some (log_text [bytes "error:failed"])) = Ok "".
Proof. vm_compute. reflexivity. Qed.
End sample.
