(* ===== verification/GuestContainer.v ===== *)
(** * Guest agent: containers

    [vmm/task/src/container.rs] and the helpers of [util.rs] and [io.rs]: creating a container with its storages or adopting a running
    one, and the life of its processes. The OCI runtime is called through
    [GRunc]; the files of the bundle that the host wrote are fields of the
    request. *)
From S2P Require Import Prelude Strs Storage Mount Fs Frame Inject GuestDevice GuestStorage GuestLog.

Definition GUEST_STATE_DIR : string := "/run/kuasar/state".
Definition INIT_PID_FILE : string := "init.pid".

(** ** Data *)
Record Stdio := mkStdio {
  io_stdin : string;
  io_stdout : string;
  io_stderr : string;
  io_terminal : bool
}.

(** [Options] of the request, as far as they are used. *)
Record Options := mkOptions {
  opt_binary_name : string;
  opt_root : string;
  opt_systemd_cgroup : bool;
  opt_no_pivot_root : bool;
  opt_no_new_keyring : bool;
  opt_io_uid : N;
  opt_io_gid : N;
  opt_criu_path : string
}.
Definition default_options : Options := mkOptions "" "" false false false 0 0 "".

(** The runtime as [create_runc] sets it up. *)
Record Runc := mkRunc {
  rc_command : string;
  rc_root : string;
  rc_log : string;
  rc_systemd_cgroup : bool
}.

Inductive Status := CREATED | RUNNING | STOPPED.
#[global] Instance Status_eq_dec : EqDecision Status.
Proof. solve_decision. Defined.

Record KuasarInitLifecycle := mkInitLifecycle {
  il_runtime : Runc;
  il_opts : Options;
  il_bundle : string;
  il_adopted : option string
}.

(** [ProcessTemplate] *)
Record InitProcess := mkInit {
  ip_id : string;
  ip_stdio : Stdio;
  ip_pid : Z;
  ip_state : Status;
  ip_exit : option Z;
  ip_lifecycle : KuasarInitLifecycle
}.

Record KuasarExecFactory := mkExecFactory {
  ef_runtime : Runc;
  ef_bundle : string;
  ef_io_uid : N;
  ef_io_gid : N;
  ef_adopted : option string
}.

Record ExecProcess := mkExec {
  ep_id : string;
  ep_stdio : Stdio;
  ep_pid : Z;
  ep_state : Status;
  ep_exit : option Z;
  ep_bundle : string;
  ep_container_id : string
}.

Record TaskContainer := mkContainer {
  kc_id : string;
  kc_bundle : string;
  kc_init : InitProcess;
  kc_factory : KuasarExecFactory;
  kc_processes : gmap string ExecProcess
}.

(** The request with the files of its bundle: the storages annotation of the
    spec ([None] outside: no readable spec; inside: no annotation; then no
    valid JSON), the storages file, the options ([None] outside: none sent;
    inside: not decodable) and the io file. *)
Record CreateTaskRequest := mkCreateRequest {
  cr_id : string;
  cr_spec : option (option (option (list Storage)));
  cr_storage_file : option (list Storage);
  cr_options : option (option Options);
  cr_io_file : option Stdio;
  cr_stdio : Stdio
}.

(** ** Setting up *)
Definition DEFAULT_RUNC_ROOT : string := "/run/containerd/runc".
Definition DEFAULT_COMMAND : string := "runc".

Definition create_runc (ns bundle : string) (opts : Options) : G Runc :=
  let runtime := if bool_decide (opt_binary_name opts = "") then DEFAULT_COMMAND else opt_binary_name opts in
  let root := path_join (if bool_decide (opt_root opts = "") then DEFAULT_RUNC_ROOT else opt_root opts) ns in
  let runc := mkRunc runtime root (path_join bundle "log.json") (opt_systemd_cgroup opts) in
  a ← query GBuildRuntime;
  mret (if ga_ok a then Ok runc else Err ENoRuntime).

Definition new_lifecycle (runc : Runc) (opts : Options) (bundle : string) : KuasarInitLifecycle :=
  let opts :=
    if bool_decide (opt_criu_path opts = "")
    then mkOptions (opt_binary_name opts) (opt_root opts) (opt_systemd_cgroup opts) (opt_no_pivot_root opts)
           (opt_no_new_keyring opts) (opt_io_uid opts) (opt_io_gid opts) (path_join bundle "work")
    else opts in
  mkInitLifecycle runc opts bundle None.

Definition new_adopted (runc : Runc) (opts : Options) (bundle orphan : string) : KuasarInitLifecycle :=
  let lc := new_lifecycle runc opts bundle in
  mkInitLifecycle (il_runtime lc) (il_opts lc) (il_bundle lc) (Some orphan).

Definition verify_orphan_alive (pid : Z) : G unit := attempt (GAlive pid) EOrphanGone.

(** [SandboxResources::take_adoption] *)
Definition take_pending (id : string) : M Guest (option AdoptionInfo) :=
  a ← gets (λ g, g_adoptions g !! id);
  modify (λ g, mkGuestOs (g_storages g) (delete id (g_adoptions g)) (g_table g) (g_trace g) (g_answers g));;
  mret a.

Definition register_adoption (new_id : string) (orphan_pid : Z) (orphan_id : string) : M Guest unit :=
  modify (λ g, mkGuestOs (g_storages g) (<[new_id := mkAdoption orphan_pid orphan_id]> (g_adoptions g))
                 (g_table g) (g_trace g) (g_answers g)).

(** [read_io]: the io file of an exec is removed after it was read. *)
Definition read_io (bundle cid : string) (eid : option string) (content : option Stdio) : G Stdio :=
  let path := path_join bundle (match eid with
                                | Some e => "io-" +:+ cid +:+ "-" +:+ e
                                | None => "io-" +:+ cid
                                end) in
  _ ← query (GRead path);
  match content with
  | None => mret (Err ENoFile)
  | Some io =>
      match eid with
      | None => mret (Ok io)
      | Some _ =>
          a ← query (GRemoveFile path);
          mret (if ga_ok a || bool_decide (ga_kind a = KMissing) then Ok io else Err ERemove)
      end
  end.

(** ** Serial ports: the device of the port whose name was asked for *)
Definition VSOCK : string := "vsock".

Fixpoint find_port (serial_name : string) (ports : list VirtioPort) : G string :=
  match ports with
  | [] => mret (Err EStdio)
  | p :: rest =>
      match vp_name p with
      | None => find_port serial_name rest
      | Some None => panic
      | Some (Some name) =>
          if bool_decide (trim name = serial_name) then mret (Ok (SYSTEM_DEV_PATH +:+ "/" +:+ vp_file p))
          else find_port serial_name rest
      end
  end.

Definition find_serial_dev (serial_name : string) : G string :=
  a ← query GListPorts;
  match ga_ports a with None => panic | Some ports => find_port serial_name ports end.

Definition get_io_file_name (name : string) : G string :=
  if negb (bool_decide (name = "")) && negb (contains name VSOCK) then find_serial_dev name
  else mret (Ok name).

Definition convert_stdio (io : Stdio) : G Stdio :=
  try i := get_io_file_name (io_stdin io) in
  try o := get_io_file_name (io_stdout io) in
  try e := get_io_file_name (io_stderr io) in
  mret (Ok (mkStdio i o e (io_terminal io))).

(** [str::parse::<i32>] *)
Definition parse_pid (s : string) : option Z :=
  let neg := starts_with s "-" in
  let body := default s (strip_prefix "-" s) in
  n ← (if neg then (if starts_with body "+" then None else parse_uint 2147483648 body)
       else parse_uint 2147483647 body);
  Some (if neg then - Z.of_N n else Z.of_N n)%Z.

(** [read_file_to_str(pid_path)?.parse::<i32>()?] *)
Definition read_pid (path : string) : G Z :=
  a ← query (GRead path);
  mret (if negb (ga_ok a) then Err EPidFile
        else match parse_pid (ga_text a) with Some p => Ok p | None => Err EPidFile end).

(** ** Errors of the runtime *)
Section runtime.
Context `{LogReader} (log_err : LogError → string).

(** [runtime_error]: the answer to the failed command, then the log. *)
Definition explain (lc : KuasarInitLifecycle) (failed : Answer) (msg : string) : M Guest string :=
  a ← query (GRead (path_join (il_bundle lc) "log.json"));
  mret (runtime_error log_err (if ga_ok a then Some (String.list_ascii_of_string (ga_text a)) else None)
          (ga_text failed) (ga_stderr failed) msg).

Definition check_kill_error (emsg : string) : GuestError :=
  let emsg := to_ascii_lowercase emsg in
  if contains emsg "process already finished" || contains emsg "container not running"
       || contains emsg "no such process"
  then ENotFound "process already finished"
  else if contains emsg "does not exist" then ENotFound "no such container"
  else EUnknown emsg.

(** ** Creating *)

(** [stdio.terminal]: a console socket, or the io of the process. *)
Definition open_io (terminal : bool) (id : string) : G unit :=
  if terminal then attempt GConsole EConsole else attempt (GCreateIo id) EIo.
Definition clean_socket (terminal : bool) : M Guest unit :=
  if terminal then _ ← query GConsoleClean; mret tt else mret tt.

(** [copy_io_or_console]: the socket is cleaned whether or not the console
    arrived. *)
Definition copy_io_or_console (terminal : bool) (id : string) : G unit :=
  a ← query (GCopyIo id);
  clean_socket terminal;;
  mret (if ga_ok a then Ok tt else Err EIo).

(** The pivot is left out on an initramfs. *)
Definition no_pivot (opts : Options) : M Guest bool :=
  a ← query GMountStats;
  mret (opt_no_pivot_root opts || ga_ok a && bool_decide (ga_text a = "rootfs")).

Definition do_create (init : InitProcess) : G InitProcess :=
  let lc := ip_lifecycle init in
  let id := ip_id init in
  let terminal := io_terminal (ip_stdio init) in
  let pid_path := path_join (il_bundle lc) INIT_PID_FILE in
  np ← no_pivot (il_opts lc);
  try _ := open_io terminal id in
  a ← query (GRunc (RcCreate id (mkCreateOpts pid_path np (opt_no_new_keyring (il_opts lc)) false terminal)));
  if negb (ga_ok a) then
    clean_socket terminal;;
    text ← explain lc a "OCI runtime create failed";
    mret (Err (ERuntime text))
  else
  try _ := copy_io_or_console terminal id in
  try pid := read_pid pid_path in
  mret (Ok (mkInit id (ip_stdio init) pid (ip_state init) (ip_exit init) lc)).

Definition requested_storages (bundle : string) (req : CreateTaskRequest) : G (list Storage) :=
  _ ← query (GRead (path_join bundle "config.json"));
  match cr_spec req with
  | None => mret (Err ENoFile)
  | Some (Some (Some l)) => mret (Ok l)
  | Some (Some None) => mret (Err EBadJson)
  | Some None =>
      _ ← query (GRead (path_join bundle ("storage-" +:+ cr_id req)));
      mret (match cr_storage_file req with Some l => Ok l | None => Err EBadJson end)
  end.

Definition request_options (req : CreateTaskRequest) : result Options GuestError :=
  match cr_options req with
  | None => Ok default_options
  | Some (Some o) => Ok o
  | Some None => Err EOptions
  end.

(** [Stdio::default] *)
Definition no_stdio : Stdio := mkStdio "" "" "" false.

Definition container_of (id bundle : string) (opts : Options) (runc : Runc) (init : InitProcess)
  (adopted : option string) : TaskContainer :=
  mkContainer id bundle init
    (mkExecFactory runc bundle (opt_io_uid opts) (opt_io_gid opts) adopted) ∅.

Definition adopt (id bundle : string) (opts : Options) (runc : Runc) (info : AdoptionInfo) : G TaskContainer :=
  try _ := verify_orphan_alive (orphan_pid info) in
  let init := mkInit id no_stdio (orphan_pid info) RUNNING None
                (new_adopted runc opts bundle (orphan_container_id info)) in
  mret (Ok (container_of id bundle opts runc init (Some (orphan_container_id info)))).

Definition spawn_container (req : CreateTaskRequest) (bundle : string) (opts : Options) (runc : Runc) : G TaskContainer :=
  let id := cr_id req in
  rio ← read_io bundle id None (cr_io_file req);
  let io := match rio with Ok io => io | Err _ => cr_stdio req end in
  try io := convert_stdio io in
  let init := mkInit id io 0 CREATED None (new_lifecycle runc opts bundle) in
  try init := do_create init in
  mret (Ok (container_of id bundle opts runc init None)).

Context `{ProcMounts}.

Definition factory_create (ns : string) (req : CreateTaskRequest) : G TaskContainer :=
  let id := cr_id req in
  let bundle := GUEST_STATE_DIR +:+ "/" +:+ id in
  _ ← query GRescan;
  try storages := requested_storages bundle req in
  try _ := add_storages id storages in
  match request_options req with
  | Err e => mret (Err e)
  | Ok opts =>
      try runc := create_runc ns bundle opts in
      adoption ← take_pending id;
      match adoption with
      | Some info => adopt id bundle opts runc info
      | None => spawn_container req bundle opts runc
      end
  end.

Definition factory_cleanup (c : TaskContainer) : G unit := defer_storages (kc_id c).

(** ** The init process *)
Definition set_state (p : InitProcess) (s : Status) : InitProcess :=
  mkInit (ip_id p) (ip_stdio p) (ip_pid p) s (ip_exit p) (ip_lifecycle p).

Definition runc_id (p : InitProcess) : string := default (ip_id p) (il_adopted (ip_lifecycle p)).

Definition init_start (p : InitProcess) : G InitProcess :=
  match il_adopted (ip_lifecycle p) with
  | Some _ => mret (Ok (set_state p RUNNING))
  | None =>
      a ← query (GRunc (RcStart (ip_id p)));
      if ga_ok a then mret (Ok (set_state p RUNNING)) else
      text ← explain (ip_lifecycle p) a "OCI runtime start failed";
      mret (Err (ERuntime text))
  end.

Definition init_kill (p : InitProcess) (signal : N) (all : bool) : G unit :=
  a ← query (GRunc (RcKill (runc_id p) signal all));
  if ga_ok a then mret (Ok tt) else
  text ← explain (ip_lifecycle p) a "OCI runtime kill failed";
  mret (Err (check_kill_error text)).

Definition init_delete (p : InitProcess) : G unit :=
  a ← query (GRunc (RcDelete (runc_id p)));
  if ga_ok a || contains (to_ascii_lowercase (ga_text a)) "does not exist" then mret (Ok tt) else
  text ← explain (ip_lifecycle p) a "OCI runtime delete failed";
  mret (Err (ERuntime text)).

(** [update] and [stats] reach the cgroup through the pid. *)
Definition init_cgroup (p : InitProcess) : G unit :=
  if bool_decide (ip_pid p ≤ 0)%Z then mret (Err EPrecondition) else attempt (GCgroup (ip_pid p)) ECgroup.

Definition init_ps (p : InitProcess) : G unit := attempt (GRunc (RcPs (runc_id p))) EPs.

(** ** Processes of [exec] *)
Record ExecProcessRequest := mkExecRequest {
  er_id : string;
  er_exec_id : string;
  er_spec : option bool;
  er_io_file : option Stdio;
  er_stdio : Stdio
}.

(** The spec is absent, not valid JSON, or valid. *)
Definition get_spec_from_request (req : ExecProcessRequest) : result unit GuestError :=
  match er_spec req with None => Err ENoSpec | Some false => Err EBadJson | Some true => Ok tt end.

Definition exec_create (f : KuasarExecFactory) (req : ExecProcessRequest) : G ExecProcess :=
  match get_spec_from_request req with
  | Err e => mret (Err e)
  | Ok _ =>
      rio ← read_io (ef_bundle f) (er_id req) (Some (er_exec_id req)) (er_io_file req);
      let io := match rio with
                | Ok io => mkStdio (io_stdin io) (io_stdout io) (io_stderr io) (io_terminal (er_stdio req))
                | Err _ => er_stdio req
                end in
      try io := convert_stdio io in
      mret (Ok (mkExec (er_exec_id req) io 0 CREATED None (ef_bundle f)
                  (default (er_id req) (ef_adopted f))))
  end.

Definition exec_pid_path (p : ExecProcess) : string := path_join (ep_bundle p) (ep_id p +:+ ".pid").

Definition exec_start (lc : KuasarInitLifecycle) (p : ExecProcess) : G ExecProcess :=
  _ ← query GRescan;
  let terminal := io_terminal (ep_stdio p) in
  try _ := open_io terminal (ep_id p) in
  a ← query (GRunc (RcExec (ep_container_id p) (exec_pid_path p) terminal));
  if negb (ga_ok a) then
    clean_socket terminal;;
    text ← explain lc a "OCI runtime exec failed";
    mret (Err (ERuntime text))
  else
  try _ := copy_io_or_console terminal (ep_id p) in
  try pid := read_pid (exec_pid_path p) in
  mret (Ok (mkExec (ep_id p) (ep_stdio p) pid RUNNING (ep_exit p) (ep_bundle p) (ep_container_id p))).

(** A signal number that does not exist is unwrapped. *)
Definition exec_kill (p : ExecProcess) (signal : N) : G unit :=
  if bool_decide (ep_pid p ≤ 0)%Z then mret (Err EPrecondition)
  else match ep_exit p with
       | Some _ => mret (Err (ENotFound "process already finished"))
       | None =>
           if bool_decide (1 ≤ signal ≤ 31)%N then attempt (GSignal (ep_pid p) signal) ESignal else panic
       end.

Definition exec_delete (p : ExecProcess) : G unit :=
  _ ← query (GRemoveFile (exec_pid_path p)); mret (Ok tt).
End runtime.
