(* ===== verification/GuestContainerProps.v ===== *)
(** * Guest agent: what containers promise

    Which container of the OCI runtime the operations on a container reach,
    and what a failed creation leaves. *)
From S2P Require Import Prelude Strs Storage Mount Fs Frame Inject GuestDevice GuestStorage GuestText GuestStorageProps GuestHistory GuestLog GuestContainer.

(** ** Calls of a computation *)
Definition only {A} (P : GuestCall → Prop) (m : M Guest A) : Prop :=
  ∀ g a g', m g = Some (a, g') → ∃ t, g_trace g' = g_trace g ++ t ∧ Forall P t.

Section only.
Context (P : GuestCall → Prop).

Lemma only_ret {A} (a : A) : only P (mret a).
Proof. intros g a' g' [= <- <-]. exists []. by rewrite app_nil_r. Qed.
Lemma only_gets {A} (f : Guest → A) : only P (gets f).
Proof. intros g a' g' [= <- <-]. exists []. by rewrite app_nil_r. Qed.
Lemma only_panic {A} : only P (panic (A := A)).
Proof. by intros g a g'. Qed.
Lemma only_modify f : (∀ g, g_trace (f g) = g_trace g) → only P (modify f).
Proof. intros Hf g a g' [= <- <-]. exists []. by rewrite app_nil_r, Hf. Qed.
Lemma only_ask c : P c → only P (query c).
Proof.
  intros Hc g a g'. unfold query. destruct (g_answers g); intros [= <- <-]; exists [c]; split; try done;
    by apply Forall_singleton.
Qed.
Lemma only_bind {A B} (m : M Guest A) (k : A → M Guest B) :
  only P m → (∀ a, only P (k a)) → only P (m ≫= k).
Proof.
  intros Hm Hk g b g' E. apply bind_inv in E as (a & g1 & E1 & E).
  destruct (Hm _ _ _ E1) as (t1 & T1 & F1), (Hk _ _ _ _ E) as (t2 & T2 & F2).
  exists (t1 ++ t2). rewrite T2, T1, app_assoc. split; [done|]. by apply Forall_app.
Qed.
End only.

Create HintDb calls.
#[export] Hint Resolve only_ret only_gets only_panic : calls.

(** Walk over a program; goals are left for the calls that are in question. *)
Ltac calls :=
  repeat first
    [ done
    | solve [eauto 2 with calls nocore]
    | apply only_bind; [|intros ?]
    | apply only_ask; (solve [simpl; auto] || idtac)
    | apply only_modify; by intros ?
    | progress (repeat case_match; try discriminate) ].

Definition not_runc (c : GuestCall) : Prop := match c with GRunc _ => False | _ => True end.

Definition rc_id (c : RuncCall) : string :=
  match c with
  | RcCreate id _ | RcStart id | RcKill id _ _ | RcDelete id | RcPs id | RcExec id _ _ => id
  end.

(** Only calls of the runtime for one container. *)
Definition runc_for (id : string) (c : GuestCall) : Prop := match c with GRunc c => rc_id c = id | _ => True end.

Lemma only_weaken {A} (P Q : GuestCall → Prop) (m : M Guest A) : (∀ c, P c → Q c) → only P m → only Q m.
Proof.
  intros HPQ Hm g a g' E. destruct (Hm _ _ _ E) as (t & ? & Hf). exists t. split; [done|].
  by eapply Forall_impl.
Qed.

Lemma only_find_port P n l : only P (find_port n l).
Proof. induction l as [|p l IH]; cbn [find_port]; calls. Qed.
#[export] Hint Resolve only_find_port : calls.

Section quiet.
Context `{ProcMounts}.

Lemma mount_storage_quiet s : only not_runc (mount_storage s).
Proof.
  unfold mount_storage, mounts_on_file, is_dir, prepare_mount_point, ensure_destination_file_exists,
    guest_mount, verify_storage_mount, attempt. calls.
Qed.
#[local] Hint Resolve mount_storage_quiet : calls.

Lemma add_storages_quiet c l : only not_runc (add_storages c l).
Proof.
  induction l as [|s l IH]; cbn [add_storages]; [calls|].
  apply only_bind; [|intros r; calls].
  unfold add_storage, handle_scsi_storage, handle_blk_storage, scan_scsi_bus, get_device. calls.
Qed.
End quiet.

(** ** Adoptions are taken by [create] alone *)
Definition pending (ad : gmap string AdoptionInfo) (g : Guest) : Prop := g_adoptions g = ad.

Section pending.
Context `{ProcMounts} (ad : gmap string AdoptionInfo).

Lemma pending_ask c : preserves (pending ad) (query c).
Proof. intros g a g' <-. unfold query. destruct (g_answers g); by intros [= <- <-]. Qed.
#[local] Hint Resolve pending_ask : preserve.

Lemma pending_mount_storage s : preserves (pending ad) (mount_storage s).
Proof.
  unfold mount_storage, mounts_on_file, is_dir, prepare_mount_point, ensure_destination_file_exists,
    guest_mount, verify_storage_mount, attempt. preserve.
Qed.
#[local] Hint Resolve pending_mount_storage : preserve.

Lemma pending_add_storages c l : preserves (pending ad) (add_storages c l).
Proof.
  induction l as [|s l IH]; cbn [add_storages]; [preserve|].
  apply preserves_bind; [|intros r; preserve].
  unfold add_storage, handle_scsi_storage, handle_blk_storage, scan_scsi_bus, get_device. preserve.
Qed.

Lemma pending_requested bundle req : preserves (pending ad) (requested_storages bundle req).
Proof. unfold requested_storages. preserve. Qed.
Lemma pending_runc ns bundle opts : preserves (pending ad) (create_runc ns bundle opts).
Proof. unfold create_runc. preserve. Qed.
Lemma pending_adopt id bundle opts runc info : preserves (pending ad) (adopt id bundle opts runc info).
Proof. unfold adopt, verify_orphan_alive, attempt. preserve. Qed.
Lemma pending_find_port n l : preserves (pending ad) (find_port n l).
Proof. induction l as [|p l IH]; cbn [find_port]; preserve. Qed.
#[local] Hint Resolve pending_find_port : preserve.
Lemma pending_spawn `{LogReader} le req bundle opts runc : preserves (pending ad) (spawn_container le req bundle opts runc).
Proof.
  unfold spawn_container, read_io, convert_stdio, get_io_file_name, find_serial_dev, do_create, no_pivot, open_io, attempt, clean_socket, explain,
    copy_io_or_console, read_pid. preserve.
Qed.
End pending.

Section reach.
Context `{LogReader} (log_err : LogError → string) `{ProcMounts}.

(** The operations on a container that call the runtime. *)
Inductive ContainerOp :=
  | OStart
  | OKill (signal : N) (all : bool)
  | ODelete
  | OPs
  | OExec (req : ExecProcessRequest).

Definition container_op (c : TaskContainer) (o : ContainerOp) : M Guest unit :=
  match o with
  | OStart => _ ← init_start log_err (kc_init c); mret tt
  | OKill signal all => _ ← init_kill log_err (kc_init c) signal all; mret tt
  | ODelete => _ ← init_delete log_err (kc_init c); mret tt
  | OPs => _ ← init_ps (kc_init c); mret tt
  | OExec req =>
      r ← exec_create (kc_factory c) req;
      match r with
      | Ok p => _ ← exec_start log_err (ip_lifecycle (kc_init c)) p; mret tt
      | Err _ => mret tt
      end
  end.

(** A request for a container names the container. *)
Definition op_for (id : string) (o : ContainerOp) : Prop :=
  match o with OExec req => er_id req = id | _ => True end.

(** Everything up to the adoption or the spawn. *)
Lemma factory_create_inv ns req g r g' :
  factory_create log_err ns req g = Some (Ok r, g') →
  ∃ g1 t opts runc, g_trace g1 = g_trace g ++ t ∧ Forall not_runc t
    ∧ g_adoptions g1 = delete (cr_id req) (g_adoptions g)
    ∧ (match g_adoptions g !! cr_id req with
       | Some info => adopt (cr_id req) (GUEST_STATE_DIR +:+ "/" +:+ cr_id req) opts runc info
       | None => spawn_container log_err req (GUEST_STATE_DIR +:+ "/" +:+ cr_id req) opts runc
       end) g1 = Some (Ok r, g').
Proof.
  unfold factory_create. intros E.
  apply bind_inv in E as (a & ga & Ea & E).
  pose proof (pending_ask (g_adoptions g) _ _ _ _ eq_refl Ea) as Pa.
  destruct (only_ask not_runc GRescan I _ _ _ Ea) as (ta & Ta & Fa).
  apply bind_inv in E as (rs & gs & Es & E).
  pose proof (pending_requested _ _ _ _ _ _ Pa Es) as Ps.
  assert (only not_runc (requested_storages (GUEST_STATE_DIR +:+ "/" +:+ cr_id req) req)) as Oq
    by (unfold requested_storages; calls).
  destruct (Oq _ _ _ Es) as (ts & Ts & Fs). destruct rs as [l|]; [|done].
  apply bind_inv in E as (rd & gd & Ed & E).
  pose proof (pending_add_storages _ _ _ _ _ _ Ps Ed) as Pd.
  destruct (add_storages_quiet _ _ _ _ _ Ed) as (td & Td & Fd). destruct rd as [[]|]; [|done].
  destruct (request_options req) as [opts|]; [|done].
  apply bind_inv in E as (rr & gr & Er & E).
  pose proof (pending_runc _ _ _ _ _ _ _ Pd Er) as Pr.
  assert (only not_runc (create_runc ns (GUEST_STATE_DIR +:+ "/" +:+ cr_id req) opts)) as Or
    by (unfold create_runc; calls).
  destruct (Or _ _ _ Er) as (tr & Tr & Fr). destruct rr as [runc|]; [|done].
  apply bind_inv in E as (ad & g1 & E1 & E). unfold take_pending in E1. minv E1.
  unfold pending in Pr. rewrite Pr in *.
  eexists _, (ta ++ ts ++ td ++ tr), opts, runc. split; [|split; [|split; [|exact E]]]; [| |done].
  - simpl. rewrite Tr, Td, Ts, Ta. by rewrite <- !app_assoc.
  - by rewrite !Forall_app.
Qed.

(** *** Which container the operations reach *)
Lemma exec_create_target f req g p g' :
  exec_create f req g = Some (Ok p, g') → ep_container_id p = default (er_id req) (ef_adopted f).
Proof.
  unfold exec_create. destruct (get_spec_from_request req); [|done]. intros E.
  apply bind_inv in E as (rio & g1 & E1 & E). apply bind_inv in E as (ro & g2 & E2 & E).
  destruct ro; [|done]. by injection E as <- <-.
Qed.

Lemma exec_create_quiet f req : only not_runc (exec_create f req).
Proof. unfold exec_create, read_io, convert_stdio, get_io_file_name, find_serial_dev. calls. Qed.

Lemma container_op_target c o target :
  runc_id (kc_init c) = target → default (kc_id c) (ef_adopted (kc_factory c)) = target → ip_id (kc_init c) = kc_id c →
  il_adopted (ip_lifecycle (kc_init c)) = ef_adopted (kc_factory c) →
  op_for (kc_id c) o → only (runc_for target) (container_op c o).
Proof.
  intros Ht Hf Hid Had Ho. destruct o as [|signal all| | |req]; cbn [container_op].
  - unfold init_start, explain. destruct (il_adopted _) eqn:E; [calls|].
    unfold runc_id in Ht. rewrite E in Ht. calls.
  - unfold init_kill, explain. calls.
  - unfold init_delete, explain. calls.
  - unfold init_ps, attempt. calls.
  - intros g a g' E. apply bind_inv in E as (r & g1 & E1 & E).
    destruct (exec_create_quiet _ _ _ _ _ E1) as (t1 & T1 & F1).
    destruct r as [p|e].
    + apply exec_create_target in E1. simpl in Ho. rewrite Ho, Hf in E1.
      assert (only (runc_for target) (exec_start log_err (ip_lifecycle (kc_init c)) p)) as Os.
      { unfold exec_start, open_io, attempt, clean_socket, explain, copy_io_or_console, read_pid. calls. }
      apply bind_inv in E as (rs & g2 & E2 & [= <- <-]). destruct (Os _ _ _ E2) as (t2 & T2 & F2).
      exists (t1 ++ t2). rewrite T2, T1, app_assoc. split; [done|]. apply Forall_app. split; [|done].
      eapply Forall_impl; [exact F1|]. by intros [].
    + injection E as <- <-. exists t1. split; [done|]. eapply Forall_impl; [exact F1|]. by intros [].
Qed.

(** *** The two ways a container comes to be *)
Lemma adopt_run id bundle opts runc info g c g' :
  adopt id bundle opts runc info g = Some (Ok c, g') →
  g_trace g' = g_trace g ++ [GAlive (orphan_pid info)]
  ∧ kc_id c = id ∧ ip_id (kc_init c) = id
  ∧ ip_pid (kc_init c) = orphan_pid info ∧ ip_state (kc_init c) = RUNNING
  ∧ il_adopted (ip_lifecycle (kc_init c)) = Some (orphan_container_id info)
  ∧ ef_adopted (kc_factory c) = Some (orphan_container_id info).
Proof.
  unfold adopt, verify_orphan_alive, attempt. intros E. apply bind_inv in E as (r & g1 & E1 & E).
  apply bind_inv in E1 as (a & g2 & E2 & [= <- <-]). destruct (ga_ok a); [|done]. injection E as <- <-.
  split; [|done]. unfold query in E2. by destruct (g_answers g); injection E2 as _ <-.
Qed.

Lemma do_create_spec init g init' g' :
  do_create log_err init g = Some (Ok init', g') →
  ip_id init' = ip_id init ∧ ip_lifecycle init' = ip_lifecycle init ∧ ip_state init' = ip_state init
  ∧ ∃ t1 o t2, g_trace g' = g_trace g ++ t1 ++ GRunc (RcCreate (ip_id init) o) :: t2
      ∧ Forall not_runc t1 ∧ Forall not_runc t2.
Proof.
  unfold do_create. intros E. apply bind_inv in E as (np & g1 & E1 & E).
  assert (only not_runc (no_pivot (il_opts (ip_lifecycle init)))) as O1 by (unfold no_pivot; calls).
  destruct (O1 _ _ _ E1) as (t1 & T1 & F1).
  apply bind_inv in E as (ro & g2 & E2 & E).
  assert (only not_runc (open_io (io_terminal (ip_stdio init)) (ip_id init))) as O2
    by (unfold open_io, attempt; calls).
  destruct (O2 _ _ _ E2) as (t2 & T2 & F2). destruct ro; [|done].
  apply bind_inv in E as (ra & g3 & E3 & E).
  match type of E3 with query ?call _ = _ => destruct (only_ask (λ x, x = call) call eq_refl _ _ _ E3) as (t3 & T3 & F3) end.
  assert (t3 = [GRunc (RcCreate (ip_id init) (mkCreateOpts (path_join (il_bundle (ip_lifecycle init)) INIT_PID_FILE) np
            (opt_no_new_keyring (il_opts (ip_lifecycle init))) false (io_terminal (ip_stdio init))))]) as ->.
  { unfold query in E3. destruct (g_answers g2); injection E3 as _ <-; by apply app_inv_head in T3. }
  clear F3. destruct (ga_ok ra); cbn [negb] in E.
  2: { apply bind_inv in E as (u & g4 & E4 & E). by apply bind_inv in E as (text & g5 & E5 & [= ]). }
  apply bind_inv in E as (rc & g4 & E4 & E).
  assert (only not_runc (copy_io_or_console (io_terminal (ip_stdio init)) (ip_id init))) as O4
    by (unfold copy_io_or_console, clean_socket; calls).
  destruct (O4 _ _ _ E4) as (t4 & T4 & F4). destruct rc; [|done].
  apply bind_inv in E as (rp & g5 & E5 & E).
  assert (∀ p, only not_runc (read_pid p)) as O5 by (intros; unfold read_pid; calls).
  destruct (O5 _ _ _ _ E5) as (t5 & T5 & F5). destruct rp; [|done]. injection E as <- <-.
  do 3 (split; [done|]). exists (t1 ++ t2). eexists. exists (t4 ++ t5).
  rewrite T5, T4, T3, T2, T1. split; [by rewrite <- !app_assoc|]. by rewrite !Forall_app.
Qed.

Lemma spawn_spec req bundle opts runc g c g' :
  spawn_container log_err req bundle opts runc g = Some (Ok c, g') →
  kc_id c = cr_id req ∧ ip_id (kc_init c) = cr_id req ∧ ip_state (kc_init c) = CREATED
  ∧ il_adopted (ip_lifecycle (kc_init c)) = None ∧ ef_adopted (kc_factory c) = None
  ∧ ∃ t1 o t2, g_trace g' = g_trace g ++ t1 ++ GRunc (RcCreate (cr_id req) o) :: t2
      ∧ Forall not_runc t1 ∧ Forall not_runc t2.
Proof.
  unfold spawn_container. intros E. apply bind_inv in E as (rio & g1 & E1 & E).
  assert (only not_runc (read_io bundle (cr_id req) None (cr_io_file req))) as O1 by (unfold read_io; calls).
  destruct (O1 _ _ _ E1) as (t1 & T1 & F1).
  apply bind_inv in E as (rc & g2 & E2 & E).
  assert (∀ io, only not_runc (convert_stdio io)) as O2 by (intros; unfold convert_stdio, get_io_file_name, find_serial_dev; calls).
  destruct (O2 _ _ _ _ E2) as (t2 & T2 & F2). destruct rc as [io|]; [|done].
  apply bind_inv in E as (ri & g3 & E3 & E). destruct ri as [init|]; [|done]. injection E as <- <-.
  apply do_create_spec in E3 as (Hid & Hlc & Hst & t3 & o & t4 & T3 & F3 & F4). simpl in *.
  do 2 (split; [done|]). split; [done|]. split; [by rewrite Hlc|]. split; [done|].
  exists (t1 ++ t2 ++ t3), o, t4. rewrite T3, T2, T1. split; [by rewrite <- !app_assoc|]. by rewrite !Forall_app.
Qed.

(** C34: adopted and spawned containers. A container for which an orphan is
    registered is created without any command to the OCI runtime: it has the
    pid of the orphan, which was checked to be alive, and runs; starting it
    runs no command either, and kill, delete, ps and exec reach the orphan's
    container. Without an orphan exactly one create runs, for the container's
    own id, and all commands are for that id. The registration is used up. *)
Theorem container_reaches_its_own ns req g c g' :
  factory_create log_err ns req g = Some (Ok c, g') →
  g_adoptions g' = delete (cr_id req) (g_adoptions g) ∧
  ∃ t, g_trace g' = g_trace g ++ t ∧
  match g_adoptions g !! cr_id req with
  | Some info =>
      Forall not_runc t ∧ GAlive (orphan_pid info) ∈ t
      ∧ ip_pid (kc_init c) = orphan_pid info ∧ ip_state (kc_init c) = RUNNING
      ∧ only not_runc (container_op c OStart)
      ∧ ∀ o, op_for (cr_id req) o → only (runc_for (orphan_container_id info)) (container_op c o)
  | None =>
      (∃ t1 co t2, t = t1 ++ GRunc (RcCreate (cr_id req) co) :: t2 ∧ Forall not_runc t1 ∧ Forall not_runc t2)
      ∧ ip_state (kc_init c) = CREATED
      ∧ ∀ o, op_for (cr_id req) o → only (runc_for (cr_id req)) (container_op c o)
  end.
Proof.
  intros (g1 & t & opts & runc & Ht & Hf & Had & E)%factory_create_inv.
  destruct (g_adoptions g !! cr_id req) as [info|].
  - pose proof (pending_adopt _ _ _ _ _ _ _ _ _ Had E) as Hp.
    apply adopt_run in E as (T & Hid & Hip & Hpid & Hst & Hil & Hef). split; [done|].
    exists (t ++ [GAlive (orphan_pid info)]). split; [by rewrite T, Ht, app_assoc|].
    split; [apply Forall_app; split; [done|]; by constructor|].
    split; [apply elem_of_app; right; by left|]. do 2 (split; [done|]). split.
    + cbn [container_op]. unfold init_start. rewrite Hil. calls.
    + intros o Ho. apply container_op_target; [unfold runc_id; rewrite Hil; simpl; congruence|rewrite Hef; simpl; congruence|congruence|congruence|by rewrite Hid].
  - pose proof (pending_spawn _ _ _ _ _ _ _ _ _ Had E) as Hp.
    apply spawn_spec in E as (Hid & Hip & Hst & Hil & Hef & t1 & co & t2 & T & F1 & F2). split; [done|].
    exists (t ++ t1 ++ GRunc (RcCreate (cr_id req) co) :: t2). split; [by rewrite T, Ht, <- app_assoc|].
    split; [exists (t ++ t1), co, t2; rewrite <- app_assoc, Forall_app; auto|]. split; [done|].
    intros o Ho. apply container_op_target; [unfold runc_id; rewrite Hil; simpl; congruence|rewrite Hef; simpl; congruence|congruence|congruence|by rewrite Hid].
Qed.
End reach.

(** ** Cases *)
Section sample.
#[local] Existing Instances plain_proc_mounts sample_reader.

Definition show_log_error (e : LogError) : string := match e with LogOpen => "open" | LogParse l => l end.

Definition sample_request (id : string) (l : list Storage) : CreateTaskRequest :=
  mkCreateRequest id (Some (Some (Some l))) None None None no_stdio.

(** Orphan [old] waits for the container [new]. *)
Definition orphaned : Guest := mkGuestOs [] {["new" := mkAdoption 42 "old"]} [] [] [].

Definition adopted_new : TaskContainer :=
  match factory_create show_log_error "k8s.io" (sample_request "new" []) orphaned with
  | Some (Ok c, _) => c
  | _ => container_of "" "" default_options (mkRunc "" "" "" false)
           (mkInit "" no_stdio 0 CREATED None (new_lifecycle (mkRunc "" "" "" false) default_options "")) None
  end.
Definition after_adoption : Guest :=
  match factory_create show_log_error "k8s.io" (sample_request "new" []) orphaned with
  | Some (_, g) => g
  | None => orphaned
  end.

Lemma container_reaches_its_own_witness :
  g_adoptions after_adoption = ∅ ∧
  ∃ t, g_trace after_adoption = t ∧ Forall not_runc t ∧ GAlive 42 ∈ t
    ∧ ip_pid (kc_init adopted_new) = 42%Z ∧ ip_state (kc_init adopted_new) = RUNNING
    ∧ only not_runc (container_op show_log_error adopted_new OStart)
    ∧ ∀ o, op_for "new" o → only (runc_for "old") (container_op show_log_error adopted_new o).
Proof.
  assert (factory_create show_log_error "k8s.io" (sample_request "new" []) orphaned = Some (Ok adopted_new, after_adoption))
    as E by (vm_compute; reflexivity).
  destruct (container_reaches_its_own show_log_error "k8s.io" (sample_request "new" []) orphaned adopted_new after_adoption E)
    as (Had & t & Ht & H).
  split; [vm_compute; reflexivity|]. exists t. split; [exact Ht|]. exact H.
Defined.

(** The runtime fails to create a container whose storage was mounted: the
    storage stays on record for a container that does not exist. *)
Definition bad_answer : Answer :=
  mkAnswer false KMissing [] "none" (mkMountRecord "ext4" ["rw"]) ["ro"] None None "exit status 1" None (Some []).
Definition ok_answers (n : nat) : list Answer := replicate n good_answer.

Definition failed_create : option (result TaskContainer GuestError * Guest) :=
  factory_create show_log_error "k8s.io" (sample_request "c1" [blk_storage {["c1" := 1%N]}])
    (with_answers (ok_answers 2 ++ [disk_answer] ++ ok_answers 7 ++ [bad_answer]) agent0).

Example failed_create_keeps_storage :
  match failed_create with
  | Some (Err (ERuntime _), g) =>
      (λ s, (mount_point s, ref_container s)) <$> g_storages g = [("/run/kuasar/storage/1", {["c1" := 1%N]})]
      ∧ is_Some (top_mount "/run/kuasar/storage/1" (g_table g))
  | _ => False
  end.
Proof. vm_compute. split; [reflexivity|eauto]. Qed.
End sample.
