(* ===== verification/GuestPod.v ===== *)
(** * Guest agent: the pod's namespaces

    [setup_sandbox] of [vmm/task/src/sandbox.rs], here [setup_pod]: kernel parameters, and the
    namespaces the containers of the pod share. A child process unshares them
    and binds them to files under [/run/sandbox-ns]; the agent only waits until
    the child closes its pipe. *)
From S2P Require Import Prelude Strs Storage Mount Fs Frame Inject GuestDevice GuestStorage GuestText GuestStorageProps GuestHistory GuestContainer GuestContainerProps.

Definition GUEST_NS_PATH : string := "/run/sandbox-ns".
Definition GUEST_IPC : string := "ipc".
Definition GUEST_UTS : string := "uts".
Definition GUEST_PID : string := "pid".

(** [CLONE_NEWUTS], [CLONE_NEWIPC], [CLONE_NEWPID] *)
Definition CLONE_FLAG_TABLE : gmap string N :=
  list_to_map [(GUEST_IPC, 134217728%N); (GUEST_UTS, 67108864%N); (GUEST_PID, 536870912%N)].

Definition convert_sysctl_to_proc_path (sysctl : string) : string :=
  "/proc/sys/" +:+ replace_char "."%char "/" sysctl.

Fixpoint write_sysctl (sysctls : list (string * string)) : G unit :=
  match sysctls with
  | [] => mret (Ok tt)
  | (k, v) :: l =>
      try _ := attempt (GSysctl (convert_sysctl_to_proc_path k) v) ESysctl in
      write_sysctl l
  end.

Definition ns_file (ns_type : string) : string := GUEST_NS_PATH +:+ "/" +:+ ns_type.

(** The bind mounts of [mount_ns]; a mount that fails is unwrapped and ends the
    child. *)
Fixpoint mount_ns_files (pid : string) (ns_types : list string) : M Guest unit :=
  match ns_types with
  | [] => mret tt
  | n :: l =>
      r ← guest_mount (Some "none") (Some ("/proc/" +:+ pid +:+ "/ns/" +:+ n)) ["bind"] (ns_file n);
      match r with Ok _ => mount_ns_files pid l | Err _ => mret tt end
  end.

Definition mount_ns (pid : string) (ns_types : list string) : M Guest unit :=
  if bool_decide (GUEST_UTS ∈ ns_types) then
    f ← query (GRead (path_join GUEST_STATE_DIR "hostname"));
    let hostname := if ga_ok f then trim (ga_text f) else "" in
    if bool_decide (hostname = "") then mount_ns_files pid ns_types
    else
      a ← query (GHostname hostname);
      if ga_ok a then mount_ns_files pid ns_types else mret tt
  else mount_ns_files pid ns_types.

(** The child; for a shared pid namespace the mounts are of a second child that
    stays as its first process. [GUnshare] and the second fork are unwrapped.
    The answers carry the pids. *)
Definition sandbox_child (ns_types : list string) : M Guest unit :=
  a ← query GUnshare;
  if negb (ga_ok a) then mret tt else
  if bool_decide (GUEST_PID ∈ ns_types) then
    f ← query GFork;
    if ga_ok f then mount_ns (ga_text f) ns_types else mret tt
  else mount_ns (ga_text a) ns_types.

(** What became of the child is not looked at. *)
Definition fork_sandbox (ns_types : list string) : G unit :=
  a ← query GFork;
  if negb (ga_ok a) then mret (Err EFork) else
  sandbox_child ns_types;;
  mret (Ok tt).

(** The loop over the namespaces: a file that is there, or that may not be
    looked at, counts as a namespace. *)
Fixpoint ns_to_setup (ns_types : list string) (acc : list string) : G (list string) :=
  match ns_types with
  | [] => mret (Ok acc)
  | n :: l =>
      a ← query (GStat (ns_file n));
      if negb (ga_ok a) then mret (Err ENsStat) else
      match ga_kind a with
      | KFile | KDir | KOther | KDenied => ns_to_setup l acc
      | KMissing =>
          try _ := attempt (GCreate (ns_file n)) ECreate in
          match CLONE_FLAG_TABLE !! n with
          | None => mret (Err ENsType)
          | Some _ => ns_to_setup l (acc ++ [n])
          end
      end
  end.

Definition setup_persistent_ns (ns_types : list string) : G unit :=
  if bool_decide (ns_types = []) then mret (Ok tt) else
  try _ := attempt (GMkdirAll GUEST_NS_PATH) EMkdir in
  try todo := ns_to_setup ns_types [] in
  if bool_decide (todo = []) then mret (Ok tt) else fork_sandbox todo.

(** [NamespaceMode]: whether the pod shares its pid namespace, if the
    configuration says. *)
Definition setup_sandbox_ns (pid_mode_pod : option bool) : G unit :=
  setup_persistent_ns ([GUEST_IPC; GUEST_UTS] ++
    match pid_mode_pod with Some true => [GUEST_PID] | _ => [] end).

Definition setup_pod (sysctls : option (list (string * string))) (pid_mode_pod : option bool) : G unit :=
  try _ := match sysctls with Some l => write_sysctl l | None => mret (Ok tt) end in
  setup_sandbox_ns pid_mode_pod.

(** ** Existing namespaces are left alone *)

(** Calls that mount a namespace outside a list. *)
Definition mounts_only (l : list string) (c : GuestCall) : Prop :=
  match c with GMount p => ∃ n, n ∈ l ∧ p = ns_file n | _ => True end.

Lemma mount_ns_files_only pid l l' : (∀ n, n ∈ l → n ∈ l') → only (mounts_only l') (mount_ns_files pid l).
Proof.
  induction l as [|n l IH]; intros Hl; cbn [mount_ns_files]; [calls|].
  apply only_bind.
  - unfold guest_mount. calls. exists n. split; [|done]. apply Hl. by left.
  - intros [|]; [|calls]. apply IH. intros m Hm. apply Hl. by right.
Qed.

Lemma fork_sandbox_only l : only (mounts_only l) (fork_sandbox l).
Proof.
  assert (∀ pid, only (mounts_only l) (mount_ns_files pid l)) as Hm by (intros; by apply mount_ns_files_only).
  unfold fork_sandbox, sandbox_child, mount_ns. calls; apply Hm.
Qed.

(** The stat of a namespace that is there or may not be looked at, and of one
    that is missing. *)
Definition stat_answer (k : PathKind) : Answer :=
  mkAnswer true k [] "none" (mkMountRecord "nsfs" ["rw"]) ["ro"] None None "7" None (Some []).

Lemma ns_to_setup_present ns_types acc ks rest g :
  length ks = length ns_types → Forall (λ k, k ≠ KMissing) ks →
  ∃ g', ns_to_setup ns_types acc (with_answers ((stat_answer <$> ks) ++ rest) g) = Some (Ok acc, g')
        ∧ g_answers g' = rest ∧ g_table g' = g_table g.
Proof.
  revert ks g. induction ns_types as [|n l IH]; intros ks g Hlen Hk.
  { destruct ks; [|done]. by eexists. }
  destruct ks as [|k ks]; [done|]. apply Forall_cons in Hk as [Hk Hks]. injection Hlen as Hlen.
  destruct (IH ks (mkGuestOs (g_storages g) (g_adoptions g) (g_table g) (g_trace g ++ [GStat (ns_file n)]) []) Hlen Hks)
    as (g' & E & Ha & Ht).
  exists g'. split; [|done]. cbn [ns_to_setup]. rewrite bind_run. simpl.
  destruct k; try done; exact E.
Qed.

(** After a restore all namespaces are there: the set-up makes no process and
    no mount. *)
Lemma setup_after_restore ns_types ks g :
  ns_types ≠ [] → length ks = length ns_types → Forall (λ k, k ≠ KMissing) ks →
  ∃ g', setup_persistent_ns ns_types (with_answers (good_answer :: (stat_answer <$> ks)) g) = Some (Ok tt, g')
        ∧ g_table g' = g_table g.
Proof.
  intros Hne Hlen Hk. unfold setup_persistent_ns. rewrite bool_decide_false by done.
  destruct (ns_to_setup_present ns_types [] ks []
    (mkGuestOs (g_storages g) (g_adoptions g) (g_table g) (g_trace g ++ [GMkdirAll GUEST_NS_PATH]) []) Hlen Hk)
    as (g' & E & _ & Ht).
  exists g'. split; [|done]. rewrite !bind_run. simpl. rewrite bind_run.
  rewrite app_nil_r in E. unfold with_answers in E. simpl in E. rewrite E. by simpl.
Qed.

(** ** Cases *)

(** The child fails to unshare: the set-up succeeds without a mount, and the
    next one takes the empty files for namespaces. *)
Definition unshare_fails : list Answer :=
  [good_answer; stat_answer KMissing; good_answer; stat_answer KMissing; good_answer; good_answer; bad_answer].
Definition pod_setup (ans : list Answer) (g : Guest) : option (result unit GuestError * Guest) :=
  setup_pod None None (with_answers ans g).

Example lost_namespaces :
  match pod_setup unshare_fails agent0 with
  | Some (Ok _, g) =>
      g_table g = [] ∧ GCreate (ns_file "ipc") ∈ g_trace g
      ∧ match pod_setup [good_answer; stat_answer KFile; stat_answer KFile] g with
        | Some (Ok _, g') => g_table g' = []
        | _ => False
        end
  | _ => False
  end.
Proof. vm_compute. split; [reflexivity|]. split; [|reflexivity]. do 2 right. left. Qed.

(** A set-up in which nothing fails mounts both. *)
Example namespaces_mounted :
  match pod_setup [good_answer; stat_answer KMissing; good_answer; stat_answer KMissing] agent0 with
  | Some (Ok _, g) => me_target <$> g_table g = [ns_file "ipc"; ns_file "uts"]
  | _ => False
  end.
Proof. vm_compute. reflexivity. Qed.
