(* ===== verification/GuestExit.v ===== *)
(** * Guest agent: how processes end

    [handle_signals] of [vmm/task/src/main.rs] collects the children that
    ended and publishes an exit code per pid; [ShimExecutor::execute] of
    [container.rs] waits for the code of a command and turns it back into an
    [ExitStatus]; [process_exits] of [task.rs] records it with the process of
    the container. *)
From S2P Require Import Prelude Strs Storage Mount Fs Frame Inject GuestDevice GuestStorage GuestText GuestStorageProps GuestHistory GuestLog GuestContainer GuestContainerProps.

Open Scope Z_scope.

(** ** Collecting children *)

(** What [waitpid(-1, WNOHANG)] returns. *)
Inductive WaitStatus :=
  | Exited (pid code : Z)
  | Signaled (pid signal : Z)
  | StillAlive
  | NoChild
  | WaitError
  | OtherStatus (pid : Z).

(** The loop of one [SIGCHLD]: the events published. It goes on until no child
    is left; the list is what the calls answer. *)
Fixpoint reap (answers : list WaitStatus) : list (Z * Z) :=
  match answers with
  | [] => []
  | Exited pid code :: l => (pid, code) :: reap l
  | Signaled pid signal :: l => (pid, 128 + signal) :: reap l
  | StillAlive :: _ | NoChild :: _ => []
  | WaitError :: l | OtherStatus _ :: l => reap l
  end.

(** [wait_pid]: the code of the first event of the pid. *)
Fixpoint wait_pid (pid : Z) (events : list (Z * Z)) : option Z :=
  match events with
  | [] => None
  | (epid, code) :: l => if bool_decide (pid = epid) then Some code else wait_pid pid l
  end.

(** ** [ExitStatus] *)

(** [i32 << 8] drops the bits that are shifted out. *)
Definition shl8 (n : Z) : Z := let m := (n * 256) mod 2 ^ 32 in if bool_decide (m < 2 ^ 31) then m else m - 2 ^ 32.

Definition raw_status (exit_code : Z) : Z :=
  if bool_decide (128 ≤ exit_code) then
    let sig := exit_code - 128 in
    if bool_decide (1 ≤ sig < 128) then sig else shl8 exit_code
  else shl8 exit_code.

(** [WIFEXITED] and [WEXITSTATUS], [WIFSIGNALED] and [WTERMSIG] *)
Definition status_code (raw : Z) : option Z :=
  if bool_decide (Z.land raw 127 = 0) then Some (Z.land (Z.shiftr raw 8) 255) else None.
Definition status_signal (raw : Z) : option Z :=
  let s := Z.land raw 127 in
  if bool_decide (s ≠ 0 ∧ s ≠ 127) then Some s else None.
Definition status_success (raw : Z) : bool := bool_decide (status_code raw = Some 0).

(** A child the kernel reports. *)
Definition code_of (s : WaitStatus) : option (Z * Z) :=
  match s with
  | Exited pid code => Some (pid, code)
  | Signaled pid signal => Some (pid, 128 + signal)
  | _ => None
  end.

(** Codes and signals as Linux has them. *)
Definition real_status (s : WaitStatus) : Prop :=
  match s with
  | Exited _ code => 0 ≤ code ≤ 255
  | Signaled _ signal => 1 ≤ signal ≤ 64
  | _ => True
  end.

Lemma shl8_code c : 0 ≤ c ≤ 255 → status_code (shl8 c) = Some c ∧ status_signal (shl8 c) = None.
Proof.
  intros Hc. unfold shl8. rewrite Z.mod_small, bool_decide_true by lia.
  assert (Z.land (c * 256) 127 = 0) as E.
  { rewrite (Z.land_ones _ 7) by lia. replace (c * 256) with (c * 2 * 2 ^ 7) by lia. by rewrite Z.mod_mul. }
  unfold status_code, status_signal. rewrite E, bool_decide_true by done. split; [|by rewrite bool_decide_false by naive_solver].
  f_equal. rewrite Z.shiftr_div_pow2, Z.div_mul by lia. rewrite (Z.land_ones _ 8) by lia. apply Z.mod_small. lia.
Qed.

Lemma raw_signal s : 1 ≤ s < 127 → status_code s = None ∧ status_signal s = Some s.
Proof.
  intros Hs. assert (Z.land s 127 = s) as E by (rewrite (Z.land_ones _ 7) by lia; apply Z.mod_small; lia).
  unfold status_code, status_signal. rewrite E. split.
  - rewrite bool_decide_false by lia. done.
  - rewrite bool_decide_true by lia. done.
Qed.

(** The status of a command. An exit code of 129 to 254 reads as a signal. *)
Lemma raw_status_exit c :
  0 ≤ c ≤ 255 →
  (c ≤ 128 → status_code (raw_status c) = Some c ∧ status_signal (raw_status c) = None)
  ∧ (128 < c < 255 → status_code (raw_status c) = None ∧ status_signal (raw_status c) = Some (c - 128))
  ∧ (c = 255 → status_code (raw_status c) = None ∧ status_signal (raw_status c) = None).
Proof.
  intros Hc. unfold raw_status. split_and!; intros Hr.
  - case_bool_decide; [rewrite bool_decide_false by lia|]; by apply shl8_code.
  - rewrite bool_decide_true, bool_decide_true by lia. apply raw_signal. lia.
  - subst. by vm_compute.
Qed.

(** The events a reap publishes are of children that were reported. *)
Lemma reap_reported l pid code : (pid, code) ∈ reap l → ∃ s, s ∈ l ∧ code_of s = Some (pid, code).
Proof.
  induction l as [|s l IH]; simpl; [by intros []%elem_of_nil|].
  destruct s as [p c|p s| | | |p]; try (intros []%elem_of_nil).
  - intros [[= -> ->]|Hin]%elem_of_cons; [exists (Exited p c); split; [by left|done]|].
    destruct (IH Hin) as (x & ? & ?). exists x. split; [by right|done].
  - intros [[= -> ->]|Hin]%elem_of_cons; [exists (Signaled p s); split; [by left|done]|].
    destruct (IH Hin) as (x & ? & ?). exists x. split; [by right|done].
  - intros Hin. destruct (IH Hin) as (x & ? & ?). exists x. split; [by right|done].
  - intros Hin. destruct (IH Hin) as (x & ? & ?). exists x. split; [by right|done].
Qed.

Lemma wait_pid_in pid events code : wait_pid pid events = Some code → (pid, code) ∈ events.
Proof.
  induction events as [|[p c] l IH]; simpl; [done|]. case_bool_decide as E.
  - intros [= ->]. subst. by left.
  - intros H. right. auto.
Qed.

(** The outcome of a command. The status the runtime library gets for a
    command that the agent ran is a success exactly when the kernel reported
    the process of the command as exited with code 0; when the kernel reported
    a signal the status is that signal. *)
Theorem command_status_faithful answers pid code :
  Forall real_status answers → wait_pid pid (reap answers) = Some code →
  ∃ s, s ∈ answers ∧ code_of s = Some (pid, code)
    ∧ (status_success (raw_status code) = true ↔ s = Exited pid 0)
    ∧ (∀ sig, s = Signaled pid sig → status_signal (raw_status code) = Some sig).
Proof.
  intros Hreal (s & Hs & Hc)%wait_pid_in%reap_reported. exists s. split; [done|]. split; [done|].
  eapply Forall_forall in Hreal; [|exact Hs].
  destruct s as [p c|p sg| | | |]; try done; injection Hc as -> <-; simpl in Hreal.
  - split; [|done]. destruct (raw_status_exit c Hreal) as (H1 & H2 & H3).
    unfold status_success. rewrite bool_decide_eq_true.
    destruct (decide (c ≤ 128)) as [Hle|].
    { destruct (H1 Hle) as [-> _]. split; [by intros [= ->]|by intros [= ->]]. }
    destruct (decide (c = 255)) as [->|].
    { destruct (H3 eq_refl) as [-> _]. split; [done|by intros [= ?]]. }
    destruct H2 as [-> _]; [lia|]. split; [done|]. intros [= ->]. lia.
  - destruct (raw_status_exit (128 + sg)) as (_ & H2 & _); [lia|].
    destruct H2 as [E1 E2]; [lia|]. split.
    + unfold status_success. rewrite E1. done.
    + intros sig [= <-]. rewrite E2. f_equal. lia.
Qed.

Lemma command_status_faithful_witness :
  ∃ s, s ∈ [Exited 7 0; Signaled 8 9; StillAlive] ∧ code_of s = Some (8, 137)
    ∧ (status_success (raw_status 137) = true ↔ s = Exited 8 0)
    ∧ (∀ sig, s = Signaled 8 sig → status_signal (raw_status 137) = Some sig).
Proof.
  apply (command_status_faithful [Exited 7 0; Signaled 8 9; StillAlive] 8 137).
  - repeat constructor; simpl; lia.
  - vm_compute. reflexivity.
Defined.

(** A command that exits with 137 looks killed. *)
Example exit_137_is_a_signal : status_signal (raw_status 137) = Some 9.
Proof. reflexivity. Qed.

(** ** Recording the end of a process *)

(** [guest_shared_pid_namespace] on the namespaces of a spec: whether each is a
    pid namespace, and its path. *)
Definition guest_shared_pid_namespace (linux : option (option (list (bool * option string)))) : bool :=
  match linux with
  | Some (Some namespaces) =>
      negb (existsb (λ ns, ns.1 && bool_decide (ns.2 = None)) namespaces)
  | _ => true
  end.

(** A spec that cannot be read counts as shared. *)
Definition should_kill_all_on_exit (spec : option (option (option (list (bool * option string))))) : bool :=
  match spec with Some linux => guest_shared_pid_namespace linux | None => true end.

(** [set_exited] *)
Definition exit_init (code : Z) (p : InitProcess) : InitProcess :=
  mkInit (ip_id p) (ip_stdio p) (ip_pid p) STOPPED (Some code) (ip_lifecycle p).
Definition exit_exec (code : Z) (p : ExecProcess) : ExecProcess :=
  mkExec (ep_id p) (ep_stdio p) (ep_pid p) STOPPED (Some code) (ep_bundle p) (ep_container_id p).

Definition set_init (f : InitProcess → InitProcess) (c : TaskContainer) : TaskContainer :=
  mkContainer (kc_id c) (kc_bundle c) (f (kc_init c)) (kc_factory c) (kc_processes c).
Definition set_execs (f : gmap string ExecProcess → gmap string ExecProcess) (c : TaskContainer) : TaskContainer :=
  mkContainer (kc_id c) (kc_bundle c) (kc_init c) (kc_factory c) (f (kc_processes c)).

(** The first process of a container, in the order they are walked, with the
    pid. *)
Fixpoint exit_processes (order : list string) (pid code : Z) (ps : gmap string ExecProcess)
  : gmap string ExecProcess :=
  match order with
  | [] => ps
  | e :: l =>
      match ps !! e with
      | Some p => if bool_decide (ep_pid p = pid) then <[e := exit_exec code p]> ps
                  else exit_processes l pid code ps
      | None => exit_processes l pid code ps
      end
  end.

Section exits.
Context `{LogReader} (log_err : LogError → string).

(** One event, over the containers in the order they are walked. The init
    process of a container ends the walk; a process of [exec] does not.
    [kill_all] reads the spec of a bundle. *)
Fixpoint process_exit (order : list string) (execs : string → list string) (kill_all : string → bool)
  (pid code : Z) (cs : gmap string TaskContainer) : M Guest (gmap string TaskContainer) :=
  match order with
  | [] => mret cs
  | k :: l =>
      match cs !! k with
      | None => process_exit l execs kill_all pid code cs
      | Some c =>
          if bool_decide (ip_pid (kc_init c) = pid) then
            (if kill_all (kc_bundle c) then _ ← init_kill log_err (kc_init c) 9 true; mret tt else mret tt);;
            mret (<[k := set_init (exit_init code) c]> cs)
          else
            process_exit l execs kill_all pid code
              (<[k := set_execs (exit_processes (execs k) pid code) c]> cs)
      end
  end.

(** A container after an event, as far as it may have changed. *)
Definition spares (pid : Z) (c c' : TaskContainer) : Prop :=
  (ip_pid (kc_init c) ≠ pid → kc_init c' = kc_init c)
  ∧ ∀ e p, kc_processes c !! e = Some p → ep_pid p ≠ pid → kc_processes c' !! e = Some p.

Lemma exit_processes_spares order pid code ps e p :
  ps !! e = Some p → ep_pid p ≠ pid → exit_processes order pid code ps !! e = Some p.
Proof.
  intros He Hp. induction order as [|x l IH]; [done|]. cbn [exit_processes].
  destruct (ps !! x) as [q|] eqn:Ex; [|done]. case_bool_decide; [|done].
  rewrite lookup_insert_ne; [done|]. intros ->. congruence.
Qed.

Lemma process_exit_spares order execs kill_all pid code cs g cs' g' :
  process_exit order execs kill_all pid code cs g = Some (cs', g') →
  ∀ k c, cs !! k = Some c → ∃ c', cs' !! k = Some c' ∧ spares pid c c'.
Proof.
  revert cs. induction order as [|x l IH]; intros cs E k c Hk; cbn [process_exit] in E.
  { injection E as <- <-. exists c. by split_and!. }
  destruct (cs !! x) as [cx|] eqn:Ex; [|eauto]. case_bool_decide as Hp.
  - apply bind_inv in E as (u & g1 & _ & [= <- <-]).
    destruct (decide (x = k)) as [->|Hne].
    + rewrite lookup_insert_eq. eexists. split; [done|]. rewrite Hk in Ex. injection Ex as <-. by split.
    + rewrite lookup_insert_ne by done. exists c. by split_and!.
  - destruct (decide (x = k)) as [->|Hne].
    + rewrite Hk in Ex. injection Ex as <-.
      destruct (IH _ E k (set_execs (exit_processes (execs k) pid code) c)) as (c' & Hc' & H1 & H2).
      { by rewrite lookup_insert_eq. }
      exists c'. split; [done|]. split; [exact H1|]. intros e p He Hep. apply H2; [|done]. simpl.
      by apply exit_processes_spares.
    + apply (IH _ E k c). by rewrite lookup_insert_ne.
Qed.

(** The init process with the pid is recorded as ended, when no other container
    has one of that pid. *)
Lemma process_exit_records order execs kill_all pid code cs g cs' g' k c :
  process_exit order execs kill_all pid code cs g = Some (cs', g') →
  k ∈ order → cs !! k = Some c → ip_pid (kc_init c) = pid →
  (∀ k' c', cs !! k' = Some c' → ip_pid (kc_init c') = pid → k' = k) →
  ∃ c', cs' !! k = Some c' ∧ ip_exit (kc_init c') = Some code ∧ ip_state (kc_init c') = STOPPED.
Proof.
  revert cs c. induction order as [|x l IH]; intros cs c E Hin Hk Hp Hu; [by apply elem_of_nil in Hin|].
  cbn [process_exit] in E. destruct (cs !! x) as [cx|] eqn:Ex.
  - case_bool_decide as Hpx.
    + pose proof (Hu x cx Ex Hpx) as ->. apply bind_inv in E as (u & g1 & _ & [= <- <-]).
      rewrite lookup_insert_eq. eexists. split; [done|]. done.
    + assert (x ≠ k) as Hne by (intros ->; congruence).
      apply elem_of_cons in Hin as [->|Hin]; [done|].
      eapply (IH _ c E Hin); [by rewrite lookup_insert_ne|done|].
      intros k' c' Hk' Hp'. destruct (decide (x = k')) as [<-|].
      * rewrite lookup_insert_eq in Hk'. injection Hk' as <-. done.
      * rewrite lookup_insert_ne in Hk' by done. by eapply Hu.
  - apply elem_of_cons in Hin as [->|Hin]; [congruence|]. eauto.
Qed.
End exits.
