(* ===== verification/GuestStream.v ===== *)
(** * Guest agent: streams

    [vmm/task/src/streaming.rs]: the standard streams of containers over
    streaming connections. A channel of up to 128 chunks leads from the writer
    of a stream to its reader; an output stream may be taken over by a later
    connection, which preempts the one that reads. Connections run
    concurrently; a lock scope, a transfer on a channel and a call of the
    connection are one step each. Chunks are lists of bytes ([N] below 256);
    marshalling them for the wire is not modelled. *)
From S2P Require Import Prelude Strs.

Definition WINDOW_SIZE : Z := 32 * 1024.
Definition CHANNEL_CAPACITY : nat := 128.
Abbreviation Chunk := (list N).

(** ** State *)

(** An [mpsc] channel: what is in it, and whether its sender and its receiver
    are alive; with the history of what was put in and of what connections
    have sent on. *)
Record Queue := mkQueue {
  qu_items : list Chunk; qu_tx : bool; qu_rx : bool; qu_written : list Chunk; qu_sent : list Chunk
}.
Definition empty_queue : Queue := mkQueue [] true true [] [].

(** [Notify]: a stored permit, or the tasks that wait, the longest first *)
Record Notify := mkNotify { nt_permit : bool; nt_waiters : list nat }.

(** Channels, preemption channels and notifiers are named by numbers. *)
Record IOChannel := mkIOChannel {
  io_sender : option nat; io_receiver : option nat; io_remaining : option Chunk; io_preempt : option nat; io_notifier : nat
}.

Inductive StreamError := SPreempted | SBusy | SNotFound | SConnection | SBroken | SFormat | SGaveUp.

(** Where a connection is. It holds the receiver of a channel from [OGot] to
    [OReturn], and the sender from [IUpdate] to [IPush]. *)
Inductive StreamPc :=
  | OFind (tries : nat)
  | OPark (tries notifier : nat)
  | OWait (tries notifier : nat)
  | OGot (q p : nat)
  | OResend (q p : nat) (d : Chunk)
  | ORecv (q p : nat)
  | OSend (q p : nat) (d : Chunk)
  | OReturn (q : nat) (rest : option Chunk)
  | IStart
  | IUpdate (q : nat) (window : Z)
  | IRecv (q : nat) (window : Z)
  | IPush (q : nat) (window : Z) (d : Chunk)
  | Ended (r : result unit StreamError).
Record Thread := mkThread { th_id : string; th_pc : StreamPc }.

(** [preempted]: the preemption channels that have a message or whose sender is
    gone; either ends the wait of its receiver. [stdins]: the channels whose
    receiver a process has. *)
Record Streams := mkStreams {
  ios : gmap string IOChannel;
  queues : gmap nat Queue;
  preempted : gset nat;
  notifies : gmap nat Notify;
  fresh : nat;
  threads : list Thread;
  stdins : gset nat
}.
Definition no_streams : Streams := mkStreams ∅ ∅ ∅ ∅ 0 [] ∅.

Definition set_ios (f : gmap string IOChannel → gmap string IOChannel) (s : Streams) : Streams :=
  mkStreams (f (ios s)) (queues s) (preempted s) (notifies s) (fresh s) (threads s) (stdins s).
Definition set_chan (q : nat) (f : Queue → Queue) (s : Streams) : Streams :=
  mkStreams (ios s) (alter f q (queues s)) (preempted s) (notifies s) (fresh s) (threads s) (stdins s).
Definition preempt (p : option nat) (s : Streams) : Streams :=
  mkStreams (ios s) (queues s) (match p with Some p => {[p]} ∪ preempted s | None => preempted s end) (notifies s) (fresh s)
    (threads s) (stdins s).
Definition set_notify (n : nat) (x : Notify) (s : Streams) : Streams :=
  mkStreams (ios s) (queues s) (preempted s) (<[n := x]> (notifies s)) (fresh s) (threads s) (stdins s).
Definition next_fresh (s : Streams) : Streams :=
  mkStreams (ios s) (queues s) (preempted s) (notifies s) (S (fresh s)) (threads s) (stdins s).
Definition set_pc (t : nat) (pc : StreamPc) (s : Streams) : Streams :=
  mkStreams (ios s) (queues s) (preempted s) (notifies s) (fresh s)
    (alter (λ x, mkThread (th_id x) pc) t (threads s)) (stdins s).

Definition add_stdin (q : nat) (s : Streams) : Streams :=
  mkStreams (ios s) (queues s) (preempted s) (notifies s) (fresh s) (threads s) ({[q]} ∪ stdins s).

(** A sender or a receiver that is dropped. *)
Definition drop_tx (q : option nat) (s : Streams) : Streams :=
  match q with
  | Some q => set_chan q (λ x, mkQueue (qu_items x) false (qu_rx x) (qu_written x) (qu_sent x)) s
  | None => s
  end.
Definition drop_rx (q : option nat) (s : Streams) : Streams :=
  match q with
  | Some q => set_chan q (λ x, mkQueue (qu_items x) (qu_tx x) false (qu_written x) (qu_sent x)) s
  | None => s
  end.

(** ** The table of channels *)

(** [IOChannel::new] *)
Definition IOChannel_new (s : Streams) : IOChannel * Streams :=
  let n := fresh s in
  (mkIOChannel (Some n) (Some n) None None n,
   mkStreams (ios s) (<[n := empty_queue]> (queues s)) (preempted s) (<[n := mkNotify false []]> (notifies s)) (S n) (threads s) (stdins s)).
(** [ios.entry(id).or_insert(IOChannel::new())] *)
Definition entry_or_insert (id : string) (s : Streams) : IOChannel * Streams :=
  match ios s !! id with
  | Some ch => (ch, s)
  | None => let '(ch, s) := IOChannel_new s in (ch, set_ios (<[id := ch]>) s)
  end.

Definition get_or_insert_sender (id : string) (s : Streams) : result nat StreamError * Streams :=
  let '(ch, s) := entry_or_insert id s in
  match io_sender ch with
  | Some q => (Ok q, set_ios (<[id := mkIOChannel None (io_receiver ch) (io_remaining ch) (io_preempt ch) (io_notifier ch)]>) s)
  | None => (Err SBusy, s)
  end.

(** The receiver and the preemption channel of the one that takes it; or the
    connection that has it is told to give it back. *)
Definition get_or_preempt_receiver (id : string) (ch : IOChannel) (s : Streams) : option (nat * nat) * Streams :=
  match io_receiver ch with
  | Some q =>
      let p := fresh s in
      (Some (q, p),
       next_fresh (preempt (io_preempt ch)
         (set_ios (<[id := mkIOChannel (io_sender ch) None (io_remaining ch) (Some p) (io_notifier ch)]>) s)))
  | None =>
      (None, preempt (io_preempt ch)
               (set_ios (<[id := mkIOChannel (io_sender ch) None (io_remaining ch) None (io_notifier ch)]>) s))
  end.

(** [notify_one]: the task that waits longest goes on, or a permit is stored. *)
Definition wake (t : nat) (s : Streams) : Streams :=
  match threads s !! t with
  | Some (mkThread _ (OWait k _)) => set_pc t (OFind k) s
  | _ => s
  end.
Definition notify_one (n : nat) (s : Streams) : Streams :=
  match notifies s !! n with
  | Some (mkNotify p (t :: ts)) => wake t (set_notify n (mkNotify p ts) s)
  | Some (mkNotify _ []) => set_notify n (mkNotify true []) s
  | None => s
  end.

Definition return_preempted_receiver (id : string) (q : nat) (rest : option Chunk) (s : Streams) : Streams :=
  match ios s !! id with
  | Some ch =>
      notify_one (io_notifier ch)
        (set_ios (<[id := mkIOChannel (io_sender ch) (Some q) rest (io_preempt ch) (io_notifier ch)]>)
           (drop_rx (io_receiver ch) s))
  | None => drop_rx (Some q) s
  end.
Definition get_remaining_data (id : string) (s : Streams) : option Chunk * Streams :=
  match ios s !! id with
  | Some ch =>
      (io_remaining ch, set_ios (<[id := mkIOChannel (io_sender ch) (io_receiver ch) None (io_preempt ch) (io_notifier ch)]>) s)
  | None => (None, s)
  end.
(** [get_stdin], [get_output]: the process side takes its end. *)
Definition get_stdin (id : string) (s : Streams) : result nat StreamError * Streams :=
  match ios s !! id with
  | None => (Err SNotFound, s)
  | Some ch =>
      match io_receiver ch with
      | Some q =>
          (Ok q, add_stdin q
                   (set_ios (<[id := mkIOChannel (io_sender ch) None (io_remaining ch) (io_preempt ch) (io_notifier ch)]>) s))
      | None => (Err SBusy, s)
      end
  end.
Definition get_output (id : string) (s : Streams) : result nat StreamError * Streams :=
  match ios s !! id with
  | None => (Err SNotFound, s)
  | Some ch =>
      match io_sender ch with
      | Some q => (Ok q, set_ios (<[id := mkIOChannel None (io_receiver ch) (io_remaining ch) (io_preempt ch) (io_notifier ch)]>) s)
      | None => (Err SBusy, s)
      end
  end.
(** [remove_io_channel]; what the entry holds is dropped. *)
Definition remove_io_channel (id : string) (s : Streams) : Streams :=
  match ios s !! id with
  | Some ch => set_ios (delete id) (preempt (io_preempt ch) (drop_rx (io_receiver ch) (drop_tx (io_sender ch) s)))
  | None => s
  end.

(** ** Output connections: [handle_stdout]

    What the outside decides at a step: a call of the connection succeeds or
    fails; of two branches of [select!] that are ready one is taken; what
    arrives on the connection. *)
Inductive Choice := CGo | CFail | CPreempt | CMessage (d : Chunk) | CEnd.

Definition send_on (t q p : nat) (d : Chunk) (c : Choice) (s : Streams) : option Streams :=
  match c with
  | CGo => Some (set_pc t (ORecv q p)
             (set_chan q (λ x, mkQueue (qu_items x) (qu_tx x) (qu_rx x) (qu_written x) (qu_sent x ++ [d])) s))
  | CFail => Some (set_pc t (OReturn q (Some d)) s)
  | _ => None
  end.

(** [PreemptableReceiver::recv] in the loop: a chunk, the end of the channel,
    or the preemption. [None] is a step that is not possible. *)
Definition receive (t q p : nat) (c : Choice) (s : Streams) : option Streams :=
  match c with
  | CGo =>
      x ← queues s !! q;
      match qu_items x with
      | d :: l => Some (set_pc t (OSend q p d)
                    (set_chan q (λ x, mkQueue l (qu_tx x) (qu_rx x) (qu_written x) (qu_sent x)) s))
      | [] => if qu_tx x then None else Some (set_pc t (Ended (Ok tt)) (drop_rx (Some q) s))
      end
  | CPreempt => if bool_decide (p ∈ preempted s) then Some (set_pc t (OReturn q None) s) else None
  | _ => None
  end.

(** The receiver is given back with the chunk that could not be sent, or on a
    preemption. *)
Definition return_error (rest : option Chunk) : StreamError :=
  match rest with Some _ => SConnection | None => SPreempted end.
(** One turn of the loop of [preempt_receiver]. *)
Definition preempt_receiver (t : nat) (id : string) (tries : nat) (s : Streams) : Streams :=
  match tries with
  | 0 => set_pc t (Ended (Err SGaveUp)) s
  | S k =>
      let '(ch, s) := entry_or_insert id s in
      let '(r, s) := get_or_preempt_receiver id ch s in
      set_pc t (match r with Some (q, p) => OGot q p | None => OPark k (io_notifier ch) end) s
  end.
Definition stdout_step (t : nat) (id : string) (pc : StreamPc) (c : Choice) (s : Streams) : option Streams :=
  match pc with
  | OFind tries => Some (preempt_receiver t id tries s)
  | OPark k n =>
      x ← notifies s !! n;
      Some (if nt_permit x then set_pc t (OFind k) (set_notify n (mkNotify false (nt_waiters x)) s)
            else set_pc t (OWait k n) (set_notify n (mkNotify false (nt_waiters x ++ [t])) s))
  | OGot q p =>
      let '(r, s) := get_remaining_data id s in
      Some (set_pc t (match r with Some d => OResend q p d | None => ORecv q p end) s)
  | OResend q p d => send_on t q p d c s
  | ORecv q p => receive t q p c s
  | OSend q p [] => Some (set_pc t (Ended (Ok tt)) (drop_rx (Some q) s))
  | OSend q p d => send_on t q p d c s
  | OReturn q rest => Some (set_pc t (Ended (Err (return_error rest))) (return_preempted_receiver id q rest s))
  | _ => None
  end.

(** ** Input connections: [handle_stdin] *)

(** [len.try_into::<i32>().unwrap_or_default()] *)
Definition i32_len (d : Chunk) : Z := if (Z.of_nat (length d) <? 2 ^ 31)%Z then Z.of_nat (length d) else 0%Z.
(** [window -= len] in an [i32], which wraps around in a release build. A client
    that keeps to the window never gets there. *)
Definition window_sub (w : Z) (d : Chunk) : Z := ((w - i32_len d + 2 ^ 31) `mod` 2 ^ 32 - 2 ^ 31)%Z.
Definition return_sender (id : string) (q : nat) (s : Streams) : Streams :=
  match ios s !! id with
  | Some ch => set_ios (<[id := mkIOChannel (Some q) (io_receiver ch) (io_remaining ch) (io_preempt ch) (io_notifier ch)]>)
                 (drop_tx (io_sender ch) s)
  | None => drop_tx (Some q) s
  end.
Definition push (q : nat) (d : Chunk) : Streams → Streams :=
  set_chan q (λ x, mkQueue (qu_items x ++ [d]) (qu_tx x) (qu_rx x) (qu_written x ++ [d]) (qu_sent x)).

Definition stdin_step (t : nat) (id : string) (pc : StreamPc) (c : Choice) (s : Streams) : option Streams :=
  match pc with
  | IStart =>
      let '(r, s) := get_or_insert_sender id s in
      Some (set_pc t (match r with Ok q => IUpdate q 0 | Err e => Ended (Err e) end) s)
  | IUpdate q w =>
      if (w <? WINDOW_SIZE)%Z then
        match c with
        | CGo => Some (set_pc t (IRecv q (w + WINDOW_SIZE)) s)
        | CFail => Some (set_pc t (Ended (Err SConnection)) (return_sender id q s))
        | _ => None
        end
      else Some (set_pc t (IRecv q w) s)
  | IRecv q w =>
      match c with
      | CMessage d => Some (set_pc t (IPush q w d) s)
      | CEnd => Some (set_pc t (Ended (Ok tt)) (drop_tx (Some q) (remove_io_channel id s)))
      | CFail => Some (set_pc t (Ended (Err SConnection)) (drop_tx (Some q) s))
      | _ => None
      end
  | IPush q w d =>
      x ← queues s !! q;
      if negb (qu_rx x) then Some (set_pc t (Ended (Err SBroken)) (drop_tx (Some q) s))
      else if bool_decide (length (qu_items x) < CHANNEL_CAPACITY)
      then Some (set_pc t (IUpdate q (window_sub w d)) (push q d s))
      else None
  | _ => None
  end.

(** ** The process side *)

(** [StreamingOutput::poll_write] when there is room; the writer gets an error
    when the receiver is gone. *)
Definition poll_write (q : nat) (d : Chunk) (s : Streams) : option (result nat StreamError * Streams) :=
  x ← queues s !! q;
  if negb (qu_rx x) then Some (Err SBroken, s)
  else if bool_decide (length (qu_items x) < CHANNEL_CAPACITY) then Some (Ok (length d), push q d s) else None.

(** [StreamingStdin::poll_read] into a buffer of [n] bytes: what was left of a
    chunk, or the next chunk that is not empty; nothing at the end. *)
Record StreamingStdin := mkStdin { si_queue : list Chunk; si_closed : bool; si_remaining : option (Chunk * nat) }.
Fixpoint next_chunk (l : list Chunk) : option (Chunk * list Chunk) :=
  match l with [] => None | [] :: l => next_chunk l | a :: l => Some (a, l) end.
Definition poll_read (n : nat) (r : StreamingStdin) : option (Chunk * StreamingStdin) :=
  match si_remaining r with
  | Some (data, offset) =>
      let len := Nat.min (length data - offset) n in
      Some (take len (drop offset data),
            mkStdin (si_queue r) (si_closed r) (if bool_decide (offset + len < length data) then Some (data, offset + len) else None))
  | None =>
      match next_chunk (si_queue r) with
      | Some (a, l) =>
          let len := Nat.min (length a) n in
          Some (take len a, mkStdin l (si_closed r) (if bool_decide (len < length a) then Some (a, len) else None))
      | None => if si_closed r then Some ([], mkStdin [] true None) else None
      end
  end.

(** [get_id] of a URL *)
Fixpoint split_str (fuel : nat) (pat s : string) : list string :=
  match fuel with
  | 0 => [s]
  | S fuel =>
      match strip_prefix pat s with
      | Some rest => "" :: split_str fuel pat rest
      | None =>
          match s with
          | "" => [""]
          | String a s => match split_str fuel pat s with w :: l => String a w :: l | [] => [String a ""] end
          end
      end
  end.
Fixpoint trim_start_of (c : ascii) (s : string) : string :=
  match s with String a s' => if decide (a = c) then trim_start_of c s' else s | "" => "" end.
Definition get_id (url : string) : result string StreamError :=
  match split_str (S (String.length url)) "id=" url with
  | [_; x] => Ok (trim_end_char "&"%char (trim_start_of "&"%char x))
  | _ => Err SFormat
  end.

(** ** Histories *)
Definition ends_with (s suffix : string) : bool :=
  bool_decide (String.length suffix ≤ String.length s) &&
  bool_decide (String.substring (String.length s - String.length suffix) (String.length suffix) s = suffix).
(** [stream]: the first step of a connection *)
Definition first_pc (id : string) : option StreamPc :=
  if ends_with id "stdin" then Some IStart
  else if ends_with id "stdout" || ends_with id "stderr" then Some (OFind 10)
  else None.

Inductive Label :=
  | LConnect (id : string)
  | LThread (t : nat) (c : Choice)
  | LStdin (id : string)
  | LOutput (id : string)
  | LWrite (q : nat) (d : Chunk)
  | LRead (q : nat)
  | LClose (q : nat)
  | LRemove (id : string).

(** The reader of an input channel takes a chunk; the writer of an output
    channel drops its sender. *)
Definition take_chunk (q : nat) (s : Streams) : option Streams :=
  if negb (bool_decide (q ∈ stdins s)) then None else
  x ← queues s !! q;
  match qu_items x with
  | d :: l => Some (set_chan q (λ x, mkQueue l (qu_tx x) (qu_rx x) (qu_written x) (qu_sent x ++ [d])) s)
  | [] => None
  end.
Definition stream_step (l : Label) (s : Streams) : option Streams :=
  match l with
  | LConnect id => pc ← first_pc id; Some (mkStreams (ios s) (queues s) (preempted s) (notifies s) (fresh s)
                     (threads s ++ [mkThread id pc]) (stdins s))
  | LThread t c =>
      x ← threads s !! t;
      match th_pc x with
      | IStart | IUpdate _ _ | IRecv _ _ | IPush _ _ _ => stdin_step t (th_id x) (th_pc x) c s
      | pc => stdout_step t (th_id x) pc c s
      end
  | LStdin id => Some (get_stdin id s).2
  | LOutput id => Some (get_output id s).2
  | LWrite q d => x ← queues s !! q; if qu_tx x then '(_, s) ← poll_write q d s; Some s else None
  | LRead q => take_chunk q s
  | LClose q => Some (drop_tx (Some q) s)
  | LRemove id => Some (remove_io_channel id s)
  end.
