(* ===== verification/GuestStreamProps.v ===== *)
(** * Guest agent: what the streams promise

    Output arrives once and in order over all connections that take a stream
    over; input is read as it arrived; the window stays within its bounds; and
    runs in which a connection or a channel ends at a bad moment. *)
From S2P Require Import Prelude Strs GuestStream.

(** ** Output arrives in order

    The channel of the stream [id] from its first connection on. *)
Definition holds (pc : StreamPc) : option nat :=
  match pc with OGot q _ | OResend q _ _ | ORecv q _ | OSend q _ _ | OReturn q _ => Some q | _ => None end.
Definition output_pc (pc : StreamPc) : bool :=
  match pc with IStart | IUpdate _ _ | IRecv _ _ | IPush _ _ _ => false | _ => true end.
(** The chunk a connection has in hand; before it has asked, it is still in the
    entry. *)
Definition hand (pc : StreamPc) (rest : option Chunk) : list Chunk :=
  match pc with
  | OGot _ _ => option_list rest
  | OResend _ _ d | OSend _ _ d => [d]
  | OReturn _ r => option_list r
  | _ => []
  end.
Definition holder (s : Streams) (q t : nat) (th : Thread) : Prop :=
  threads s !! t = Some th ∧ holds (th_pc th) = Some q.
Definition finished (s : Streams) (id : string) : Prop :=
  ∃ t th, threads s !! t = Some th ∧ th_id th = id ∧ th_pc th = Ended (Ok tt).

Inductive owner (id : string) (s : Streams) (ch : IOChannel) (x : Queue) : Prop :=
  | own_entry :
      io_receiver ch = Some (io_notifier ch) → (∀ t th, ¬ holder s (io_notifier ch) t th) → ¬ finished s id →
      qu_written x = qu_sent x ++ option_list (io_remaining ch) ++ qu_items x → owner id s ch x
  | own_thread t th :
      io_receiver ch = None → holder s (io_notifier ch) t th → (∀ t' th', holder s (io_notifier ch) t' th' → t' = t) →
      ¬ finished s id → qu_written x = qu_sent x ++ hand (th_pc th) (io_remaining ch) ++ qu_items x →
      (match th_pc th with OGot _ _ => True | _ => io_remaining ch = None end) → owner id s ch x
  | own_gone :
      io_receiver ch = None → io_remaining ch = None → (∀ t th, ¬ holder s (io_notifier ch) t th) → qu_rx x = false →
      (qu_sent x = qu_written x ∧ qu_tx x = false ∨ [] ∈ qu_written x ∧ qu_sent x `prefix_of` qu_written x) → owner id s ch x.

(** The number of the channel of [id] belongs to nothing else. *)
Definition foreign (id : string) (s : Streams) (q : nat) : Prop := ∀ ch, ios s !! id = Some ch → io_notifier ch ≠ q.
Record stream_inv (id : string) (s : Streams) : Prop := mkStreamInv {
  sv_entry : ∀ ch, ios s !! id = Some ch → io_notifier ch < fresh s ∧ ∃ x, queues s !! io_notifier ch = Some x ∧ owner id s ch x;
  sv_none : ios s !! id = None → ¬ finished s id;
  sv_others : ∀ i ch q, ios s !! i = Some ch → i ≠ id → io_receiver ch = Some q → q < fresh s ∧ foreign id s q;
  sv_stdins : ∀ q, q ∈ stdins s → q < fresh s ∧ foreign id s q;
  sv_threads : ∀ t th, threads s !! t = Some th →
    if decide (th_id th = id)
    then output_pc (th_pc th) = true ∧ ∀ q, holds (th_pc th) = Some q → ∃ ch, ios s !! id = Some ch ∧ q = io_notifier ch
    else ∀ q, holds (th_pc th) = Some q → q < fresh s ∧ foreign id s q
}.

(** *** Changes that do not touch the channel of [id] *)
Section untouched.
Context (id : string).

Lemma owner_threads s s' ch x : threads s' = threads s → owner id s ch x → owner id s' ch x.
Proof.
  intros E Ho. assert (∀ q t th, holder s' q t th ↔ holder s q t th) as Hh by (intros; unfold holder; by rewrite E).
  assert (finished s' id ↔ finished s id) as Hf by (unfold finished; by rewrite E).
  destruct Ho as [? Hn ? ?|t th ? Ht Hu ? ? ?|? ? Hn ? ?].
  - apply own_entry; try done; [|by rewrite Hf]. intros t th. rewrite Hh. apply Hn.
  - apply (own_thread _ _ _ _ t th); try done; [by rewrite Hh| |by rewrite Hf]. intros t' th'. rewrite Hh. apply Hu.
  - apply own_gone; try done. intros t th. rewrite Hh. apply Hn.
Qed.

(** Only the named parts matter. *)
Lemma inv_ext s s' :
  ios s' = ios s → queues s' = queues s → threads s' = threads s → stdins s' = stdins s → fresh s ≤ fresh s' →
  stream_inv id s → stream_inv id s'.
Proof.
  intros Ei Eq Et Es Hf [H1 H2 H3 H4 H5]. assert (∀ q, foreign id s' q ↔ foreign id s q) as Hfor by (intros; unfold foreign; by rewrite Ei).
  split.
  - intros ch Hch. rewrite Ei in Hch. destruct (H1 ch Hch) as (? & x & ? & ?). split; [lia|]. exists x. rewrite Eq.
    split; [done|]. by apply (owner_threads s).
  - rewrite Ei. unfold finished. by rewrite Et.
  - intros i ch q. rewrite Ei, Hfor. intros A B C. destruct (H3 i ch q A B C). split; [lia|done].
  - intros q. rewrite Es, Hfor. intros A. destruct (H4 q A). split; [lia|done].
  - intros t th. rewrite Et. intros A. specialize (H5 t th A). destruct (decide _); [by rewrite Ei|].
    intros q Hq. rewrite Hfor. destruct (H5 q Hq). split; [lia|done].
Qed.
Lemma inv_preempt p s : stream_inv id s → stream_inv id (preempt p s).
Proof. by apply inv_ext. Qed.
Lemma inv_set_notify n x s : stream_inv id s → stream_inv id (set_notify n x s).
Proof. by apply inv_ext. Qed.
Lemma inv_next_fresh s : stream_inv id s → stream_inv id (next_fresh s).
Proof. apply inv_ext; try done. simpl. lia. Qed.

(** The history of a channel and what is in it. *)
Definition extended (x x' : Queue) : Prop :=
  qu_sent x' = qu_sent x ∧ qu_rx x' = qu_rx x ∧ (qu_tx x = false → qu_tx x' = false) ∧
  ∃ more, qu_items x' = qu_items x ++ more ∧ qu_written x' = qu_written x ++ more ∧ (qu_rx x = false → more = []).

Lemma owner_extended s ch x x' : extended x x' → owner id s ch x → owner id s ch x'.
Proof.
  intros (Es & Er & Etx & more & Ei & Ew & Hm) [? ? ? E|t th ? ? ? ? E ?|? ? ? Hr Hd].
  - apply own_entry; try done. rewrite Ew, E, Es, Ei. by rewrite !(assoc_L (++)).
  - apply (own_thread _ _ _ _ t th); try done. rewrite Ew, E, Es, Ei. by rewrite !(assoc_L (++)).
  - specialize (Hm Hr). subst more. rewrite app_nil_r in *. apply own_gone; try done; [congruence|]. rewrite Es, Ew.
    destruct Hd as [[? ?]|?]; [left|by right]. split; [done|by apply Etx].
Qed.

Lemma inv_set_chan q f s :
  (foreign id s q ∨ ∀ x, queues s !! q = Some x → extended x (f x)) → stream_inv id s → stream_inv id (set_chan q f s).
Proof.
  intros Hq [H1 H2 H3 H4 H5]. split; [|done..]. intros ch Hch. destruct (H1 ch Hch) as (? & x & Ex & Ho). split; [done|]. simpl.
  destruct (decide (io_notifier ch = q)) as [E|Hne].
  - destruct Hq as [Hq|Hq]; [by apply Hq in Hch|]. subst q. rewrite lookup_alter_eq, Ex. exists (f x). split; [done|].
    eapply owner_extended; [by apply Hq|]. by apply (owner_threads s).
  - rewrite lookup_alter_ne by congruence. exists x. split; [done|]. by apply (owner_threads s).
Qed.
Lemma inv_drop_tx q s : stream_inv id s → stream_inv id (drop_tx q s).
Proof.
  destruct q as [q|]; [|done]. apply inv_set_chan. right. intros x _. split; [done|]. split; [done|]. split; [done|].
  exists []. by rewrite !app_nil_r.
Qed.
Lemma inv_push q d s x : queues s !! q = Some x → qu_rx x = true → stream_inv id s → stream_inv id (push q d s).
Proof.
  intros Ex Hr. apply inv_set_chan. right. intros y Ey. simplify_eq. split; [done|]. split; [done|]. split; [done|].
  exists [d]. split; [done|]. split; [done|]. congruence.
Qed.
Lemma inv_drop_rx q s : (∀ q', q = Some q' → foreign id s q') → stream_inv id s → stream_inv id (drop_rx q s).
Proof. destruct q as [q|]; [|done]. intros Hq. apply inv_set_chan. left. by apply Hq. Qed.

Lemma foreign_ios i c s q : i ≠ id → foreign id (set_ios (<[i := c]>) s) q ↔ foreign id s q.
Proof. intros Hi. unfold foreign. simpl. by rewrite lookup_insert_ne. Qed.
Lemma inv_set_ios i c s :
  i ≠ id → (∀ q, io_receiver c = Some q → q < fresh s ∧ foreign id s q) → stream_inv id s → stream_inv id (set_ios (<[i := c]>) s).
Proof.
  intros Hi Hc [H1 H2 H3 H4 H5]. split.
  - intros ch Hch. simpl in Hch. rewrite lookup_insert_ne in Hch by done. destruct (H1 ch Hch) as (? & x & ? & ?).
    split; [done|]. exists x. split; [done|]. by apply (owner_threads s).
  - simpl. rewrite lookup_insert_ne by done. exact H2.
  - intros j ch q. rewrite foreign_ios by done. simpl. destruct (decide (j = i)) as [->|Hj].
    + rewrite lookup_insert_eq. intros [= <-] _. apply Hc.
    + rewrite lookup_insert_ne by done. apply H3.
  - intros q. rewrite foreign_ios by done. apply H4.
  - intros t th A. specialize (H5 t th A). destruct (decide _).
    + simpl. rewrite lookup_insert_ne by done. exact H5.
    + intros q. rewrite foreign_ios by done. apply H5.
Qed.
Lemma inv_delete_ios i s : i ≠ id → stream_inv id s → stream_inv id (set_ios (delete i) s).
Proof.
  intros Hi [H1 H2 H3 H4 H5].
  assert (∀ q, foreign id (set_ios (delete i) s) q ↔ foreign id s q) as Hf by (intros; unfold foreign; simpl; by rewrite lookup_delete_ne).
  split.
  - intros ch Hch. simpl in Hch. rewrite lookup_delete_ne in Hch by done. destruct (H1 ch Hch) as (? & x & ? & ?).
    split; [done|]. exists x. split; [done|]. by apply (owner_threads s).
  - simpl. rewrite lookup_delete_ne by done. exact H2.
  - intros j ch q Hj Hne Hr. rewrite Hf. simpl in Hj. apply lookup_delete_Some in Hj as [_ Hj]. by eapply H3.
  - intros q. rewrite Hf. apply H4.
  - intros t th A. specialize (H5 t th A). destruct (decide _).
    + simpl. rewrite lookup_delete_ne by done. exact H5.
    + intros q. rewrite Hf. apply H5.
Qed.
End untouched.

Lemma lookup_set_pc t pc s t' :
  threads (set_pc t pc s) !! t' = if decide (t' = t) then (λ x, mkThread (th_id x) pc) <$> threads s !! t else threads s !! t'.
Proof. simpl. case_decide; [subst; by rewrite list_lookup_alter_eq|by rewrite list_lookup_alter_ne]. Qed.

Lemma owner_iff id s s' ch x :
  (∀ t th, holder s' (io_notifier ch) t th ↔ holder s (io_notifier ch) t th) → (finished s' id → finished s id) →
  owner id s ch x → owner id s' ch x.
Proof.
  intros Hh Hf [? Hn ? ?|t th ? Ht Hu ? ? ?|? ? Hn ? ?].
  - apply own_entry; try done; [|auto]. intros t th. rewrite Hh. apply Hn.
  - apply (own_thread _ _ _ _ t th); try done; [by rewrite Hh| |auto]. intros t' th'. rewrite Hh. apply Hu.
  - apply own_gone; try done. intros t th. rewrite Hh. apply Hn.
Qed.

Section steps.
Context (id : string).

(** A connection that has nothing to do with the channel moves on. *)
Lemma inv_set_pc t pc s th :
  threads s !! t = Some th →
  (th_id th = id → holds (th_pc th) = None ∧ output_pc pc = true ∧ holds pc = None ∧ pc ≠ Ended (Ok tt)) →
  (th_id th ≠ id → ∀ q, holds pc = Some q → q < fresh s ∧ foreign id s q) →
  stream_inv id s → stream_inv id (set_pc t pc s).
Proof.
  intros Et Hid Hne [H1 H2 H3 H4 H5].
  assert (finished (set_pc t pc s) id → finished s id) as Hfin.
  { intros (t' & th' & Et' & Eid & Epc). rewrite lookup_set_pc in Et'. case_decide; [|by exists t', th'].
    rewrite Et in Et'. simplify_eq/=. by destruct (Hid eq_refl) as (_ & _ & _ & []). }
  split; [|naive_solver|done|done|].
  - intros ch Hch. destruct (H1 ch Hch) as (? & x & ? & Ho). split; [done|]. exists x. split; [done|].
    eapply owner_iff; [|exact Hfin|exact Ho]. intros t' th'. unfold holder. rewrite lookup_set_pc.
    case_decide as Htt; [|done]. subst t'. rewrite Et. simpl. specialize (H5 t th Et).
    destruct (decide (th_id th = id)) as [E|E].
    + destruct (Hid E) as (Hold & _ & Hnew & _). split; intros [? ?]; simplify_eq/=; congruence.
    + split; intros [? Hq]; simplify_eq/=.
      * destruct (Hne E _ Hq) as [_ Hf]. by destruct (Hf ch Hch).
      * destruct (H5 _ Hq) as [_ Hf]. by destruct (Hf ch Hch).
  - intros t' th'. rewrite lookup_set_pc. case_decide; [|by apply H5]. subst t'. rewrite Et. intros [= <-]. simpl.
    destruct (decide (th_id th = id)) as [E|E].
    + destruct (Hid E) as (_ & ? & Hnew & _). split; [done|]. intros q Hq. congruence.
    + by apply Hne.
Qed.

Lemma inv_wake t s : stream_inv id s → stream_inv id (wake t s).
Proof.
  unfold wake. destruct (threads s !! t) as [[i []]|] eqn:Et; try done. apply (inv_set_pc _ _ _ _ Et); [|done].
  intros _. done.
Qed.
Lemma inv_notify_one n s : stream_inv id s → stream_inv id (notify_one n s).
Proof.
  unfold notify_one. destruct (notifies s !! n) as [[p [|t ts]]|]; [| |done]; intros.
  - by apply inv_set_notify.
  - by apply inv_wake, inv_set_notify.
Qed.

Lemma inv_new_channel s : stream_inv id s → stream_inv id (IOChannel_new s).2.
Proof.
  intros [H1 H2 H3 H4 H5]. split; simpl.
  - intros ch Hch. destruct (H1 ch Hch) as (? & x & ? & ?). split; [lia|]. exists x.
    rewrite lookup_insert_ne by lia. split; [done|]. by apply (owner_threads _ s).
  - exact H2.
  - intros i ch q A B C. destruct (H3 i ch q A B C). split; [lia|done].
  - intros q A. destruct (H4 q A). split; [lia|done].
  - intros t th A. specialize (H5 t th A). case_decide; [done|]. intros q Hq. destruct (H5 q Hq). split; [lia|done].
Qed.

Lemma fresh_foreign s : stream_inv id s → foreign id s (fresh s).
Proof. intros Hs ch Hch E. destruct (sv_entry _ _ Hs ch Hch) as [? _]. lia. Qed.

(** Looking up or making the entry of another stream. *)
Lemma inv_entry i s : i ≠ id → stream_inv id s → stream_inv id (entry_or_insert i s).2.
Proof.
  intros Hi Hs. unfold entry_or_insert. destruct (ios s !! i); [done|]. cbn [IOChannel_new snd].
  apply (inv_set_ios id i _ (IOChannel_new s).2); [done| |by apply inv_new_channel]. simpl. intros q [= <-].
  split; [lia|]. exact (fresh_foreign s Hs).
Qed.
Lemma entry_lookup i s : ios (entry_or_insert i s).2 !! i = Some (entry_or_insert i s).1.
Proof. unfold entry_or_insert. destruct (ios s !! i) eqn:E; [done|]. simpl. by rewrite lookup_insert_eq. Qed.
Lemma entry_threads i s : threads (entry_or_insert i s).2 = threads s.
Proof. unfold entry_or_insert. by destruct (ios s !! i). Qed.

Lemma other_receiver i ch s q :
  stream_inv id s → ios s !! i = Some ch → i ≠ id → io_receiver ch = Some q → q < fresh s ∧ foreign id s q.
Proof. intros Hs. apply (sv_others _ _ Hs). Qed.

Lemma notify_thread n s t th :
  threads s !! t = Some th → (∀ k m, th_pc th ≠ OWait k m) → threads (notify_one n s) !! t = Some th.
Proof.
  intros Et Hw. unfold notify_one. destruct (notifies s !! n) as [[p [|t' ts]]|]; [done| |done].
  unfold wake. simpl. destruct (threads s !! t') as [[i pc]|] eqn:Et'; [|done]. destruct pc; try done.
  rewrite lookup_set_pc. case_decide; [|done]. subst t'. simplify_eq. by destruct (Hw tries notifier).
Qed.

(** *** Connections of other streams *)
Section other.
Context (i : string) (t : nat) (Hi : i ≠ id).
Implicit Type s : Streams.

Lemma other_pc s pc' th : threads s !! t = Some th → th_id th = i → (∀ q, holds pc' = Some q → q < fresh s ∧ foreign id s q) →
  stream_inv id s → stream_inv id (set_pc t pc' s).
Proof. intros Et Eid Hq. apply (inv_set_pc _ _ _ _ Et); [intros; congruence|by intros _]. Qed.

Lemma other_held s pc q : threads s !! t = Some (mkThread i pc) → stream_inv id s → holds pc = Some q → q < fresh s ∧ foreign id s q.
Proof. intros Et Hs. pose proof (sv_threads _ _ Hs _ _ Et) as H. simpl in H. rewrite decide_False in H by done. exact (H q). Qed.

Lemma other_send s pc q p d c s' :
  threads s !! t = Some (mkThread i pc) → holds pc = Some q → stream_inv id s → send_on t q p d c s = Some s' → stream_inv id s'.
Proof.
  intros Et Hh Hs. destruct (other_held s pc q Et Hs Hh) as [? Hf]. destruct c; simpl; intros [= <-].
  - eapply other_pc; [exact Et|done| |apply inv_set_chan; [by left|done]]. simpl. intros q' [= <-]. done.
  - eapply other_pc; [exact Et|done| |done]. simpl. intros q' [= <-]. done.
Qed.

Lemma other_stdout s pc c s' :
  threads s !! t = Some (mkThread i pc) → stream_inv id s → stdout_step t i pc c s = Some s' → stream_inv id s'.
Proof.
  intros Et Hs E. pose proof (λ q, other_held s pc q Et Hs) as Hh. destruct pc as [[|k]|k n|k n|q p|q p d|q p|q p d|q rest| | | | |]; simpl in E; try done.
  - injection E as <-. by eapply other_pc; [exact Et|..].
  - pose proof (inv_entry i s Hi Hs) as Hs1. pose proof (entry_lookup i s) as El. pose proof (entry_threads i s) as Eth.
    destruct (entry_or_insert i s) as [ch s1]. simpl in *. unfold get_or_preempt_receiver in E.
    destruct (io_receiver ch) as [q|] eqn:Er; injection E as <-.
    + destruct (other_receiver i ch s1 q Hs1 El Hi Er) as [? Hf].
      eapply other_pc; [simpl; rewrite Eth; exact Et|done| |by apply inv_next_fresh, inv_preempt, inv_set_ios].
      simpl. intros q' [= <-]. split; [lia|]. intros c0 Hc0. simpl in Hc0. rewrite lookup_insert_ne in Hc0 by done. by apply Hf.
    + eapply other_pc; [simpl; rewrite Eth; exact Et|done|done|by apply inv_preempt, inv_set_ios].
  - apply bind_Some in E as (x & _ & [= <-]). destruct (nt_permit x); (eapply other_pc; [exact Et|done|done|by apply inv_set_notify]).
  - destruct (Hh q eq_refl) as [? Hf]. unfold get_remaining_data in E. destruct (ios s !! i) as [ch|] eqn:Ech; injection E as <-.
    + eapply other_pc; [exact Et|done| |apply inv_set_ios; [done| |done]].
      * intros q' Hq'. assert (q' = q) as -> by (destruct (io_remaining ch); simpl in Hq'; congruence).
        split; [done|]. by apply foreign_ios.
      * simpl. intros q' Hq'. by apply (other_receiver i ch).
    + eapply other_pc; [exact Et|done| |done]. simpl. intros q' [= <-]. done.
  - by eapply other_send.
  - destruct (Hh q eq_refl) as [? Hf]. destruct c; simpl in E; try done.
    + apply bind_Some in E as (x & Ex & E). destruct (qu_items x); [destruct (qu_tx x); [done|]|]; injection E as <-.
      * eapply other_pc; [exact Et|done|done|]. apply inv_set_chan; [by left|done].
      * eapply other_pc; [exact Et|done| |apply inv_set_chan; [by left|done]]. simpl. intros q' [= <-]. done.
    + case_bool_decide; [|done]. injection E as <-. eapply other_pc; [exact Et|done| |done]. simpl. intros q' [= <-]. done.
  - destruct (Hh q eq_refl) as [? Hf]. destruct d; [|by eapply other_send]. injection E as <-.
    eapply other_pc; [exact Et|done|done|]. apply inv_set_chan; [by left|done].
  - destruct (Hh q eq_refl) as [? Hf]. injection E as <-. unfold return_preempted_receiver. destruct (ios s !! i) as [ch|] eqn:Ech.
    + set (s1 := set_ios _ _).
      assert (stream_inv id s1) as Hs1.
      { apply inv_set_ios; [done| |apply inv_drop_rx; [|done]].
        - simpl. intros q' [= <-]. by destruct (io_receiver ch).
        - intros q' Hq'. by destruct (other_receiver i ch s q' Hs Ech Hi Hq'). }
      assert (threads s1 !! t = Some (mkThread i (OReturn q rest))) as Et1 by (unfold s1; simpl; destruct (io_receiver ch); exact Et).
      eapply other_pc; [apply notify_thread; [exact Et1|done]|done|done|]. by apply inv_notify_one.
    + eapply other_pc; [exact Et|done|done|]. apply inv_set_chan; [by left|done].
Qed.

Lemma drop_tx_threads q s : threads (drop_tx q s) = threads s.
Proof. by destruct q. Qed.
Lemma drop_rx_threads q s : threads (drop_rx q s) = threads s.
Proof. by destruct q. Qed.
Lemma remove_threads j s : threads (remove_io_channel j s) = threads s.
Proof. unfold remove_io_channel. destruct (ios s !! j) as [ch|]; [|done]. by destruct (io_receiver ch), (io_sender ch). Qed.
Lemma inv_remove j s : j ≠ id → stream_inv id s → stream_inv id (remove_io_channel j s).
Proof.
  intros Hj Hs. unfold remove_io_channel. destruct (ios s !! j) as [ch|] eqn:Ech; [|done].
  apply inv_delete_ios, inv_preempt, inv_drop_rx, inv_drop_tx; [done| |done]. intros q Hq.
  destruct (other_receiver j ch s q Hs Ech Hj Hq) as [_ Hf]. by destruct (io_sender ch).
Qed.

Lemma other_stdin s pc c s' :
  threads s !! t = Some (mkThread i pc) → stream_inv id s → stdin_step t i pc c s = Some s' → stream_inv id s'.
Proof.
  intros Et Hs E. destruct pc as [| | | | | | | | |q w|q w|q w d|]; simpl in E; try done.
  - pose proof (inv_entry i s Hi Hs) as Hs1. pose proof (entry_lookup i s) as El. pose proof (entry_threads i s) as Eth.
    unfold get_or_insert_sender in E. destruct (entry_or_insert i s) as [ch s1]. simpl in *.
    destruct (io_sender ch); injection E as <-; (eapply other_pc; [simpl; rewrite Eth; exact Et|done|done|]); [|done].
    apply inv_set_ios; [done| |done]. simpl. intros q Hq. by apply (other_receiver i ch).
  - destruct (w <? WINDOW_SIZE)%Z; [destruct c|]; simplify_eq; try (by eapply other_pc; [exact Et|..]).
    unfold return_sender. destruct (ios s !! i) as [ch|] eqn:Ech.
    + eapply other_pc; [simpl; rewrite drop_tx_threads; exact Et|done|done|]. apply inv_set_ios; [done| |by apply inv_drop_tx].
      simpl. intros q' Hq'. destruct (other_receiver i ch s q' Hs Ech Hi Hq'). by destruct (io_sender ch).
    + eapply other_pc; [exact Et|done|done|]. by apply (inv_drop_tx id (Some q)).
  - destruct c; simplify_eq; try (by eapply other_pc; [exact Et|..]).
    + eapply other_pc; [exact Et|done|done|]. by apply (inv_drop_tx id (Some q)).
    + eapply other_pc; [simpl; rewrite remove_threads; exact Et|done|done|]. by apply (inv_drop_tx id (Some q)), inv_remove.
  - apply bind_Some in E as (x & Ex & E). destruct (qu_rx x) eqn:Er; simpl in E.
    + case_bool_decide; [|done]. injection E as <-. eapply other_pc; [exact Et|done|done|]. by eapply inv_push.
    + injection E as <-. eapply other_pc; [exact Et|done|done|]. by apply (inv_drop_tx id (Some q)).
Qed.
End other.
End steps.

(** *** Connections of the stream itself *)
Section own.
Context (id : string).
Implicit Types (s : Streams) (ch : IOChannel) (x : Queue).

(** A step of connection [t] that leaves the channel with an owner. *)
Lemma inv_rebuild t pc pc' s s' ch ch' x' :
  stream_inv id s → threads s !! t = Some (mkThread id pc) → ios s !! id = Some ch → io_notifier ch' = io_notifier ch →
  ios s' = <[id := ch']> (ios s) → threads s' = threads (set_pc t pc' s) → stdins s' = stdins s → fresh s ≤ fresh s' →
  queues s' !! io_notifier ch = Some x' → output_pc pc' = true → (∀ q, holds pc' = Some q → q = io_notifier ch) →
  owner id s' ch' x' → stream_inv id s'.
Proof.
  intros [H1 H2 H3 H4 H5] Et Ech En Ei Eth Es Hf Eq Ho Hq Hown.
  assert (∀ q, foreign id s q → foreign id s' q) as Hfor.
  { intros q Hfq c Hc. rewrite Ei, lookup_insert_eq in Hc. injection Hc as <-. rewrite En. by apply Hfq. }
  split.
  - intros c Hc. rewrite Ei, lookup_insert_eq in Hc. injection Hc as <-. rewrite En. destruct (H1 ch Ech). split; [lia|]. by exists x'.
  - rewrite Ei, lookup_insert_eq. done.
  - intros i c q Hi Hne Hr. rewrite Ei, lookup_insert_ne in Hi by done. destruct (H3 i c q Hi Hne Hr). split; [lia|auto].
  - intros q. rewrite Es. intros Hin. destruct (H4 q Hin). split; [lia|auto].
  - intros t' th'. rewrite Eth, lookup_set_pc. case_decide.
    + subst t'. rewrite Et. intros [= <-]. simpl. rewrite decide_True by done. split; [done|]. intros q Hqq.
      exists ch'. rewrite Ei, lookup_insert_eq. split; [done|]. rewrite En. by apply Hq.
    + intros Et'. specialize (H5 t' th' Et'). destruct (decide _).
      * destruct H5 as [? H5]. split; [done|]. intros q Hqq. destruct (H5 q Hqq) as (c & Hc & ->). simplify_eq.
        exists ch'. by rewrite Ei, lookup_insert_eq.
      * intros q Hqq. destruct (H5 q Hqq). split; [lia|auto].
Qed.

(** The connection that holds the receiver is its only owner. *)
Lemma holder_owner t pc q s :
  stream_inv id s → threads s !! t = Some (mkThread id pc) → holds pc = Some q →
  ∃ ch x, ios s !! id = Some ch ∧ io_notifier ch = q ∧ queues s !! q = Some x ∧ io_receiver ch = None
    ∧ (∀ t' th', holder s q t' th' → t' = t) ∧ ¬ finished s id
    ∧ qu_written x = qu_sent x ++ hand pc (io_remaining ch) ++ qu_items x
    ∧ match pc with OGot _ _ => True | _ => io_remaining ch = None end.
Proof.
  intros Hs Et Hq. pose proof (sv_threads _ _ Hs _ _ Et) as H. simpl in H. rewrite decide_True in H by done.
  destruct H as [_ H]. destruct (H q Hq) as (ch & Ech & ->). destruct (sv_entry _ _ Hs ch Ech) as (_ & x & Ex & Ho).
  assert (holder s (io_notifier ch) t (mkThread id pc)) as Hold by done. exists ch, x.
  destruct Ho as [? Hn ? ?|t0 th0 ? [Et0 Hq0] Hu ? Ew Hrem|? ? Hn ? ?]; [by destruct (Hn _ _ Hold)| |by destruct (Hn _ _ Hold)].
  assert (t = t0) as -> by (by eapply Hu). simplify_eq. done.
Qed.

Lemma not_finished t pc pc' s : threads s !! t = Some (mkThread id pc) → pc' ≠ Ended (Ok tt) → ¬ finished s id → ∀ s', threads s' = threads (set_pc t pc' s) → ¬ finished s' id.
Proof.
  intros Et Hpc Hn s' Es (t' & th' & Et' & Eid & Epc). rewrite Es, lookup_set_pc in Et'. case_decide.
  - rewrite Et in Et'. injection Et' as <-. by apply Hpc.
  - apply Hn. by exists t', th'.
Qed.
Lemma holder_set_pc t pc pc' q s s' :
  threads s !! t = Some (mkThread id pc) → threads s' = threads (set_pc t pc' s) → (∀ t' th', holder s q t' th' → t' = t) →
  ∀ t' th', holder s' q t' th' → t' = t ∧ th' = mkThread id pc' ∧ holds pc' = Some q.
Proof.
  intros Et Es Hu t' th' [Et' Hq]. rewrite Es, lookup_set_pc in Et'. case_decide.
  - rewrite Et in Et'. injection Et' as <-. done.
  - assert (t' = t) as -> by (apply (Hu t' th'); done). done.
Qed.

(** The holder goes on and still holds it. *)
Lemma keep_holding t pc pc' q s s' ch x x' ch' :
  stream_inv id s → threads s !! t = Some (mkThread id pc) → holds pc = Some q → holds pc' = Some q →
  ios s !! id = Some ch → io_notifier ch = q → io_notifier ch' = q → io_receiver ch' = None →
  (∀ t' th', holder s q t' th' → t' = t) → ¬ finished s id →
  ios s' = <[id := ch']> (ios s) → threads s' = threads (set_pc t pc' s) → stdins s' = stdins s → fresh s ≤ fresh s' →
  queues s' !! q = Some x' → qu_written x' = qu_sent x' ++ hand pc' (io_remaining ch') ++ qu_items x' →
  (match pc' with OGot _ _ => True | _ => io_remaining ch' = None end) → stream_inv id s'.
Proof.
  intros Hs Et Hq Hq' Ech En En' Hr Hu Hn Ei Eth Es Hf Eq Ew Hrem.
  assert (threads s' !! t = Some (mkThread id pc')) as Et' by (rewrite Eth, lookup_set_pc, decide_True, Et by done; done).
  eapply (inv_rebuild t pc pc' s s' ch ch' x'); try done.
  - congruence.
  - by rewrite En.
  - by destruct pc'.
  - intros q0 Hq0. congruence.
  - apply (own_thread _ _ _ _ t (mkThread id pc')); try done.
    + by rewrite En'.
    + rewrite En'. intros t' th' Hh. by destruct (holder_set_pc _ _ _ _ _ _ Et Eth Hu _ _ Hh).
    + eapply not_finished; [exact Et| |exact Hn|exact Eth]. by intros ->.
Qed.

Lemma self_insert s ch : ios s !! id = Some ch → ios s = <[id := ch]> (ios s).
Proof. intros E. by rewrite insert_id. Qed.

Lemma inv_entry_own s : stream_inv id s → stream_inv id (entry_or_insert id s).2.
Proof.
  intros Hs. unfold entry_or_insert. destruct (ios s !! id) as [ch|] eqn:E; [done|]. pose proof Hs as [_ H2 H3 H4 H5].
  assert (∀ t th q, threads s !! t = Some th → holds (th_pc th) = Some q → th_id th ≠ id ∧ q < fresh s) as Hheld.
  { intros t th q Et Hq. specialize (H5 t th Et). destruct (decide _).
    - destruct H5 as [_ H5]. destruct (H5 q Hq) as (c & Hc & _). congruence.
    - split; [done|]. by apply H5. }
  cbn [IOChannel_new snd]. set (ch := mkIOChannel _ _ _ _ _). set (s1 := mkStreams _ _ _ _ _ _ _).
  assert (∀ q, q < fresh s → foreign id (set_ios (<[id := ch]>) s1) q) as Hfor.
  { intros q Hq c Hc. simpl in Hc. rewrite lookup_insert_eq in Hc. injection Hc as <-. simpl. lia. }
  split.
  - intros c Hc. simpl in Hc. rewrite lookup_insert_eq in Hc. injection Hc as <-. simpl. split; [lia|].
    exists empty_queue. rewrite lookup_insert_eq. split; [done|]. apply own_entry; try done.
    + intros t th [Et Hq]. destruct (Hheld _ _ _ Et Hq). simpl in *. lia.
    + exact (H2 E).
  - simpl. by rewrite lookup_insert_eq.
  - intros i c q Hc Hi Hr. simpl in Hc. rewrite lookup_insert_ne in Hc by done. destruct (H3 i c q Hc Hi Hr). simpl.
    split; [lia|auto].
  - intros q Hq. destruct (H4 q Hq). simpl. split; [lia|auto].
  - intros t th Et. specialize (H5 t th Et). destruct (decide _).
    + split; [apply H5|]. intros q Hq. destruct (Hheld _ _ _ Et Hq). done.
    + intros q Hq. destruct (H5 q Hq). simpl. split; [lia|auto].
Qed.

(** Only the receiver and what remains matter to the owner. *)
Lemma owner_entry s ch ch' x :
  io_receiver ch' = io_receiver ch → io_remaining ch' = io_remaining ch → io_notifier ch' = io_notifier ch →
  owner id s ch x → owner id s ch' x.
Proof.
  intros E1 E2 E3 [? ? ? ?|t th ? ? ? ? ? ?|? ? ? ? ?].
  - apply own_entry; rewrite ?E1, ?E2, ?E3; done.
  - apply (own_thread _ _ _ _ t th); rewrite ?E1, ?E2, ?E3; done.
  - apply own_gone; rewrite ?E1, ?E2, ?E3; done.
Qed.

Lemma inv_same_entry s ch ch' :
  ios s !! id = Some ch → io_receiver ch' = io_receiver ch → io_remaining ch' = io_remaining ch → io_notifier ch' = io_notifier ch →
  stream_inv id s → stream_inv id (set_ios (<[id := ch']>) s).
Proof.
  intros Ech E1 E2 E3 [H1 H2 H3 H4 H5].
  assert (∀ q, foreign id s q → foreign id (set_ios (<[id := ch']>) s) q) as Hfor.
  { intros q Hq c Hc. simpl in Hc. rewrite lookup_insert_eq in Hc. injection Hc as <-. rewrite E3. by apply Hq. }
  split.
  - intros c Hc. simpl in Hc. rewrite lookup_insert_eq in Hc. injection Hc as <-. rewrite E3.
    destruct (H1 ch Ech) as (? & x & ? & Ho). split; [done|]. exists x. split; [done|].
    apply (owner_threads id s); [done|]. by eapply owner_entry.
  - simpl. by rewrite lookup_insert_eq.
  - intros i c q Hc Hi Hr. simpl in Hc. rewrite lookup_insert_ne in Hc by done. destruct (H3 i c q Hc Hi Hr). auto.
  - intros q Hq. destruct (H4 q Hq). auto.
  - intros t th Et. specialize (H5 t th Et). destruct (decide _).
    + destruct H5 as [? H5]. split; [done|]. intros q Hq. destruct (H5 q Hq) as (c & Hc & ->). simplify_eq.
      exists ch'. simpl. by rewrite lookup_insert_eq.
    + intros q Hq. destruct (H5 q Hq). auto.
Qed.

Lemma own_find t k s s' :
  stream_inv id s → threads s !! t = Some (mkThread id (OFind (S k))) → stdout_step t id (OFind (S k)) CGo s = Some s' → stream_inv id s'.
Proof.
  intros Hs Et E. pose proof (inv_entry_own s Hs) as Hs1. pose proof (entry_lookup id s) as El. pose proof (entry_threads id s) as Eth.
  simpl in E. destruct (entry_or_insert id s) as [ch s1]. simpl in *. rewrite <- Eth in Et. clear Eth Hs s.
  unfold get_or_preempt_receiver in E. destruct (sv_entry _ _ Hs1 ch El) as (Hf & x & Ex & Ho).
  destruct (io_receiver ch) as [q|] eqn:Er; injection E as <-.
  - destruct Ho as [Er' Hn Hfin Ew|? ? Hr'|Hr']; [|congruence..]. rewrite Er in Er'. injection Er' as ->.
    set (q := io_notifier ch) in *. set (ch' := mkIOChannel _ _ _ _ _). set (s2 := set_pc t _ _).
    assert (∀ t' th', holder s1 q t' th' → t' = t) as Hu by (intros t' th' Hh; by destruct (Hn _ _ Hh)).
    apply (inv_rebuild t (OFind (S k)) (OGot q (fresh s1)) s1 s2 ch ch' x); try done.
    + unfold s2. simpl. lia.
    + intros q' [= <-]. done.
    + apply (own_thread _ _ _ _ t (mkThread id (OGot q (fresh s1)))); try done.
      * split; [|done]. unfold s2. rewrite lookup_set_pc, decide_True by done. simpl. by rewrite Et.
      * intros t' th' Hh. by destruct (holder_set_pc t (OFind (S k)) (OGot q (fresh s1)) q s1 s2 Et eq_refl Hu t' th' Hh).
      * by eapply (not_finished t (OFind (S k)) (OGot q (fresh s1)) s1 Et).
  - eapply (inv_set_pc id t); [exact Et|by intros _|by intros []|]. apply inv_preempt. by apply (inv_same_entry s1 ch).
Qed.

Lemma own_send t pc q p d c s s' :
  stream_inv id s → threads s !! t = Some (mkThread id pc) → holds pc = Some q → (∀ r, hand pc r = [d]) →
  (match pc with OGot _ _ => False | _ => True end) → send_on t q p d c s = Some s' → stream_inv id s'.
Proof.
  intros Hs Et Hq Hd Hpc E. destruct (holder_owner t pc q s Hs Et Hq) as (ch & x & Ech & En & Ex & Hr & Hu & Hfin & Ew & Hrem).
  rewrite Hd in Ew. assert (io_remaining ch = None) as Hrem' by (by destruct pc). destruct c; simpl in E; try done; injection E as <-.
  - eapply (keep_holding t pc (ORecv q p) q s _ ch x _ ch); try done.
    + simpl. by apply self_insert.
    + simpl. rewrite lookup_alter_eq, Ex. reflexivity.
    + simpl. rewrite Ew. by rewrite <- (assoc_L (++)).
  - eapply (keep_holding t pc (OReturn q (Some d)) q s _ ch x _ ch); try done. simpl. by apply self_insert.
Qed.

(** The receiver is dropped at the end of the channel, or after an empty
    chunk. *)
Lemma own_drop t pc q s ch x :
  stream_inv id s → threads s !! t = Some (mkThread id pc) → holds pc = Some q → ios s !! id = Some ch → io_notifier ch = q →
  queues s !! q = Some x → io_receiver ch = None → io_remaining ch = None → (∀ t' th', holder s q t' th' → t' = t) →
  (qu_sent x = qu_written x ∧ qu_tx x = false ∨ [] ∈ qu_written x ∧ qu_sent x `prefix_of` qu_written x) →
  stream_inv id (set_pc t (Ended (Ok tt)) (drop_rx (Some q) s)).
Proof.
  intros Hs Et Hq Ech En Ex Hr Hrem Hu Hd. set (s' := set_pc _ _ _).
  apply (inv_rebuild t pc (Ended (Ok tt)) s s' ch ch (mkQueue (qu_items x) (qu_tx x) false (qu_written x) (qu_sent x))); try done.
  - unfold s'. simpl. by apply self_insert.
  - unfold s'. simpl. rewrite En, lookup_alter_eq, Ex. done.
  - apply own_gone; try done. rewrite En. intros t' th' Hh.
    by destruct (holder_set_pc t pc (Ended (Ok tt)) q s s' Et eq_refl Hu t' th' Hh) as (_ & _ & ?).
Qed.

Lemma wake_commute t pc th n s :
  threads s !! t = Some th → (∀ k m, th_pc th ≠ OWait k m) → (∀ k m, pc ≠ OWait k m) →
  set_pc t pc (notify_one n s) = notify_one n (set_pc t pc s).
Proof.
  intros Et Hw Hpc. unfold notify_one. simpl. destruct (notifies s !! n) as [[p [|t' ts]]|]; [done| |done].
  unfold wake.
  assert (threads (set_notify n (mkNotify p ts) (set_pc t pc s)) !! t' =
    if decide (t' = t) then (λ y, mkThread (th_id y) pc) <$> threads s !! t else threads s !! t') as -> by exact (lookup_set_pc t pc s t').
  change (threads (set_notify n (mkNotify p ts) s)) with (threads s). case_decide.
  - subst t'. rewrite Et. simpl. destruct th as [i []]; simpl; destruct pc; try done; naive_solver.
  - destruct (threads s !! t') as [[i []]|]; try done. unfold set_pc. simpl. f_equal. by apply list_alter_alter_ne.
Qed.

Lemma own_return t q rest s s' :
  stream_inv id s → threads s !! t = Some (mkThread id (OReturn q rest)) → stdout_step t id (OReturn q rest) CGo s = Some s' →
  stream_inv id s'.
Proof.
  intros Hs Et E. destruct (holder_owner t _ q s Hs Et eq_refl) as (ch & x & Ech & En & Ex & Hr & Hu & Hfin & Ew & Hrem).
  simpl in E. injection E as <-. unfold return_preempted_receiver. rewrite Ech, Hr. simpl.
  set (ch' := mkIOChannel _ _ _ _ _). set (s1 := set_ios _ _).
  rewrite (wake_commute t _ (mkThread id (OReturn q rest))); [|exact Et|done|done]. apply inv_notify_one.
  set (s2 := set_pc _ _ _). apply (inv_rebuild t (OReturn q rest) (Ended (Err (return_error rest))) s s2 ch ch' x); try done.
  - by rewrite En.
  - apply own_entry; simpl.
    + by rewrite En.
    + intros t' th' Hh. rewrite En in Hh.
      by destruct (holder_set_pc t (OReturn q rest) (Ended (Err (return_error rest))) q s s2 Et eq_refl Hu t' th' Hh) as (_ & _ & ?).
    + by eapply (not_finished t (OReturn q rest) (Ended (Err (return_error rest))) s Et).
    + exact Ew.
Qed.

Lemma own_stdout t pc c s s' :
  stream_inv id s → threads s !! t = Some (mkThread id pc) → stdout_step t id pc c s = Some s' → stream_inv id s'.
Proof.
  intros Hs Et E. destruct pc as [[|k]|k n|k n|q p|q p d|q p|q p d|q rest| | | | |]; simpl in E; try done.
  - injection E as <-. by apply (inv_set_pc id t _ _ _ Et); [intros _|intros []|].
  - by eapply own_find.
  - apply bind_Some in E as (x & _ & [= <-]).
    destruct (nt_permit x); (eapply (inv_set_pc id t); [exact Et|by intros _|by intros []|by apply inv_set_notify]).
  - destruct (holder_owner t _ q s Hs Et eq_refl) as (ch & x & Ech & En & Ex & Hr & Hu & Hfin & Ew & _).
    unfold get_remaining_data in E. rewrite Ech in E. injection E as <-. set (ch' := mkIOChannel _ _ _ _ _).
    set (pc' := match io_remaining ch with Some d => OResend q p d | None => ORecv q p end).
    assert (holds pc' = Some q) as Hq' by (unfold pc'; by destruct (io_remaining ch)).
    eapply (keep_holding t (OGot q p) pc' q s _ ch x x ch'); try done.
    + simpl in Ew |- *. rewrite Ew. unfold pc'. by destruct (io_remaining ch).
    + unfold pc'. by destruct (io_remaining ch).
  - by eapply own_send.
  - destruct (holder_owner t _ q s Hs Et eq_refl) as (ch & x & Ech & En & Ex & Hr & Hu & Hfin & Ew & Hrem). simpl in Ew, Hrem.
    destruct c; simpl in E; try done.
    + rewrite Ex in E. simpl in E. destruct (qu_items x) as [|d l] eqn:El.
      * destruct (qu_tx x) eqn:Etx; [done|]. injection E as <-. eapply own_drop; try done. left. rewrite Ew. by rewrite app_nil_r.
      * injection E as <-. eapply (keep_holding t (ORecv q p) (OSend q p d) q s _ ch x _ ch); try done.
        -- simpl. by apply self_insert.
        -- simpl. rewrite lookup_alter_eq, Ex. reflexivity.
        -- exact Ew.
    + case_bool_decide; [|done]. injection E as <-.
      eapply (keep_holding t (ORecv q p) (OReturn q None) q s _ ch x x ch); try done. simpl. by apply self_insert.
  - destruct d as [|b d]; [|by eapply own_send].
    destruct (holder_owner t _ q s Hs Et eq_refl) as (ch & x & Ech & En & Ex & Hr & Hu & Hfin & Ew & Hrem). simpl in Ew, Hrem.
    injection E as <-. eapply own_drop; try done. right. rewrite Ew. split; [|by apply prefix_app_r].
    apply elem_of_app. right. by left.
  - by eapply own_return.
Qed.
End own.

(** *** Histories *)
Section history.
Context (id : string) (Hout : first_pc id = Some (OFind 10)).

Lemma inv_connect i pc s :
  holds pc = None → pc ≠ Ended (Ok tt) → (i = id → output_pc pc = true) → stream_inv id s →
  stream_inv id (mkStreams (ios s) (queues s) (preempted s) (notifies s) (fresh s) (threads s ++ [mkThread i pc]) (stdins s)).
Proof.
  intros Hh He Ho [H1 H2 H3 H4 H5]. set (s' := mkStreams _ _ _ _ _ _ _).
  assert (∀ t th, threads s' !! t = Some th → threads s !! t = Some th ∨ th = mkThread i pc) as Hth.
  { intros t th. unfold s'. simpl. rewrite lookup_app_Some. intros [?|[_ Hl]]; [by left|]. right.
    apply list_elem_of_lookup_2, list_elem_of_singleton in Hl. done. }
  assert (finished s' id → finished s id) as Hfin.
  { intros (t & th & Et & Eid & Epc). destruct (Hth t th Et) as [Et'| ->]; [by exists t, th|done]. }
  split; [|naive_solver|done|done|].
  - intros ch Hch. destruct (H1 ch Hch) as (? & x & ? & Hown). split; [done|]. exists x. split; [done|].
    eapply owner_iff; [|exact Hfin|exact Hown]. intros t th. unfold holder. split; intros [Et Hq]; (split; [|done]).
    + destruct (Hth t th Et) as [?| ->]; [done|]. simpl in Hq. congruence.
    + unfold s'. simpl. by apply lookup_app_l_Some.
  - intros t th Et. destruct (Hth t th Et) as [Et'| ->]; [exact (H5 t th Et')|]. simpl.
    case_decide; [split; [by apply Ho|]|]; intros q Hq; congruence.
Qed.

Lemma inv_add_stdin q s : q < fresh s → foreign id s q → stream_inv id s → stream_inv id (add_stdin q s).
Proof.
  intros Hq Hf [H1 H2 H3 H4 H5]. split; [|done|done| |done].
  - intros ch Hch. destruct (H1 ch Hch) as (? & x & ? & ?). split; [done|]. exists x. split; [done|]. by apply (owner_threads id s).
  - intros q' [->%elem_of_singleton|?]%elem_of_union; [done|by apply H4].
Qed.

Definition keeps_channel (l : Label) : Prop := l ≠ LRemove id ∧ l ≠ LStdin id.

Lemma stream_step_inv l s s' : keeps_channel l → stream_inv id s → stream_step l s = Some s' → stream_inv id s'.
Proof.
  intros [Hl1 Hl2] Hs E. destruct l as [i|t c|i|i|q d|q|q|i]; simpl in E.
  - apply bind_Some in E as (pc & Epc & [= <-]).
    assert (holds pc = None ∧ pc ≠ Ended (Ok tt)) as [Hh He].
    { unfold first_pc in Epc. repeat case_match; simplify_eq; done. }
    apply inv_connect; [done|done| |done]. intros ->. rewrite Hout in Epc. by injection Epc as <-.
  - apply bind_Some in E as ([i pc] & Et & E). simpl in E. destruct (decide (i = id)) as [->|Hi].
    + pose proof (sv_threads _ _ Hs _ _ Et) as H. simpl in H. rewrite decide_True in H by done. destruct H as [Hp _].
      destruct pc; try done; exact (own_stdout id t _ c s s' Hs Et E).
    + destruct pc; first [exact (other_stdin id i t Hi s _ c s' Et Hs E) | exact (other_stdout id i t Hi s _ c s' Et Hs E)].
  - injection E as <-. unfold get_stdin. destruct (ios s !! i) as [ch|] eqn:Ech; [|done].
    destruct (io_receiver ch) as [q|] eqn:Er; [|done]. simpl. assert (i ≠ id) as Hi by congruence.
    destruct (other_receiver id i ch s q Hs Ech Hi Er). apply inv_add_stdin; [done| |by apply inv_set_ios]. by apply foreign_ios.
  - injection E as <-. unfold get_output. destruct (ios s !! i) as [ch|] eqn:Ech; [|done].
    destruct (io_sender ch) as [q|]; [|done]. simpl. destruct (decide (i = id)) as [->|Hi]; [by apply (inv_same_entry id s ch)|].
    apply inv_set_ios; [done| |done]. simpl. intros q' Hq'. by apply (other_receiver id i ch).
  - apply bind_Some in E as (x & Ex & E). destruct (qu_tx x); [|done]. apply bind_Some in E as ([r s1] & E & [= <-]).
    unfold poll_write in E. rewrite Ex in E. simpl in E. destruct (qu_rx x) eqn:Er; simpl in E; [|by injection E as <- <-].
    case_bool_decide; [|done]. injection E as <- <-. by eapply inv_push.
  - unfold take_chunk in E. case_bool_decide as Hq; [|done]. simpl in E. apply bind_Some in E as (x & Ex & E).
    destruct (qu_items x); [done|]. injection E as <-. apply inv_set_chan; [left|done]. by apply (sv_stdins _ _ Hs).
  - injection E as <-. by apply (inv_drop_tx id (Some q)).
  - injection E as <-. apply inv_remove; [congruence|done].
Qed.

Fixpoint stream_run (h : list Label) (s : Streams) : option Streams :=
  match h with [] => Some s | l :: h => s ← stream_step l s; stream_run h s end.

Lemma stream_run_inv h s s' : Forall keeps_channel h → stream_inv id s → stream_run h s = Some s' → stream_inv id s'.
Proof.
  intros Hh. revert s. induction Hh as [|l h Hl _ IH]; intros s Hs; simpl; [by intros [= <-]|].
  intros (s1 & E1 & E2)%bind_Some. eapply IH; [|exact E2]. by eapply stream_step_inv.
Qed.

Lemma no_streams_inv : stream_inv id no_streams.
Proof. split; try done. intros _ (t & th & E & _). done. Qed.

(** C36: as long as its channel is not removed, an output stream loses, repeats
    and reorders nothing, whatever connections come, preempt each other and
    fail at whatever moment: what the connections have sent is an initial part
    of what the container wrote, at most one connection reads the channel, and
    a connection that ended without an error has sent all of it and the writer
    is gone, unless the container's side wrote an empty chunk. *)
Theorem output_in_order h s ch :
  Forall keeps_channel h → stream_run h no_streams = Some s → ios s !! id = Some ch →
  ∃ x, queues s !! io_notifier ch = Some x ∧ qu_sent x `prefix_of` qu_written x
    ∧ (∀ t1 t2 th1 th2, holder s (io_notifier ch) t1 th1 → holder s (io_notifier ch) t2 th2 → t1 = t2)
    ∧ (finished s id → [] ∉ qu_written x → qu_sent x = qu_written x ∧ qu_tx x = false).
Proof.
  intros Hh E Hch. pose proof (stream_run_inv h _ _ Hh no_streams_inv E) as Hs.
  destruct (sv_entry _ _ Hs ch Hch) as (_ & x & Ex & Ho). exists x. split; [done|].
  destruct Ho as [? Hn ? ->|t th ? ? Hu ? -> ?|? ? Hn ? Hd].
  - split; [by apply prefix_app_r|]. split; [|done]. intros t1 t2 th1 th2 Ha. by destruct (Hn _ _ Ha).
  - split; [by apply prefix_app_r|]. split; [|done]. intros t1 t2 th1 th2 Ha Hb. rewrite (Hu _ _ Ha). by rewrite (Hu _ _ Hb).
  - split; [destruct Hd as [[-> _]|[_ ?]]; done|]. split; [intros t1 t2 th1 th2 Ha; by destruct (Hn _ _ Ha)|].
    intros _ Hne. destruct Hd as [?|[? _]]; done.
Qed.
End history.

(** ** Input *)

(** What a reader has still to give out. *)
Definition pending (r : StreamingStdin) : Chunk :=
  from_option (λ x : Chunk * nat, drop x.2 x.1) [] (si_remaining r) ++ mjoin (si_queue r).
Definition stdin_ok (r : StreamingStdin) : Prop := ∀ d k, si_remaining r = Some (d, k) → k < length d.

Lemma next_chunk_spec l :
  match next_chunk l with Some (a, l') => a ≠ [] ∧ mjoin l = a ++ mjoin l' | None => mjoin l = [] end.
Proof. induction l as [|[|b a] l IH]; [done| |done]. simpl. destruct (next_chunk l) as [[a l']|]; done. Qed.

(** Each read gives the next bytes, at most as many as fit, and none only when
    there is no room or everything has been read and the sender is gone. *)
Lemma poll_read_spec n r out r' :
  stdin_ok r → poll_read n r = Some (out, r') →
  pending r = out ++ pending r' ∧ length out ≤ n ∧ stdin_ok r' ∧ (out = [] → n = 0 ∨ pending r = [] ∧ si_closed r = true).
Proof.
  intros Hok. unfold poll_read, pending. destruct (si_remaining r) as [[d k]|] eqn:Er.
  - specialize (Hok d k Er). intros [= <- <-]. simpl. rewrite length_take, length_drop.
    set (len := Nat.min (length d - k) n). split; [|split; [lia|split]].
    + case_bool_decide as Hl; simpl.
      * rewrite <- (take_drop len (drop k d)) at 1. rewrite drop_drop, <- (assoc_L (++)). done.
      * rewrite take_ge by (rewrite length_drop; lia). done.
    + intros d' k' E. simpl in E. case_bool_decide; [|done]. injection E as <- <-. done.
    + intros E. apply (f_equal length) in E. rewrite length_take, length_drop in E. cbn [length] in E. left. unfold len in E. lia.
  - pose proof (next_chunk_spec (si_queue r)) as Hn. destruct (next_chunk (si_queue r)) as [[a l]|].
    + destruct Hn as [Ha Hn]. intros [= <- <-]. simpl. rewrite length_take. split; [|split; [lia|split]].
      * rewrite Hn. case_bool_decide as Hl; simpl; [by rewrite (assoc_L (++)), take_drop|]. by rewrite take_ge by lia.
      * intros d k E. simpl in E. case_bool_decide; [|done]. injection E as <- <-. done.
      * intros E. apply (f_equal length) in E. rewrite length_take in E. destruct a; [done|]. cbn [length] in E. left. lia.
    + destruct (si_closed r) eqn:Ec; [|done]. intros [= <- <-]. simpl. rewrite Hn. split; [done|]. split; [lia|]. split; [done|auto].
Qed.

(** Chunks arrive and buffers are filled in any order: the bytes read and those
    pending are the bytes that arrived. *)
Inductive StdinEvent := Arrive (d : Chunk) | Read (n : nat) | Close.
Fixpoint stdin_run (h : list StdinEvent) (r : StreamingStdin) : option (Chunk * StreamingStdin) :=
  match h with
  | [] => Some ([], r)
  | Arrive d :: h => stdin_run h (mkStdin (si_queue r ++ [d]) (si_closed r) (si_remaining r))
  | Read n :: h => '(out, r) ← poll_read n r; '(rest, r) ← stdin_run h r; Some (out ++ rest, r)
  | Close :: h => stdin_run h (mkStdin (si_queue r) true (si_remaining r))
  end.
Definition arrived (h : list StdinEvent) : Chunk := h ≫= λ e, match e with Arrive d => d | _ => [] end.

Theorem stdin_reads_in_order h r out r' :
  stdin_ok r → stdin_run h r = Some (out, r') → pending r ++ arrived h = out ++ pending r'.
Proof.
  revert r out. induction h as [|[d|n|] h IH]; intros r out Hok; simpl.
  - intros [= <- <-]. by rewrite app_nil_r.
  - intros E. apply IH in E; [|done]. rewrite <- E. unfold pending. simpl. rewrite join_app. simpl.
    by rewrite app_nil_r, !(assoc_L (++)).
  - intros ([o r1] & E1 & ([o2 r2] & E2 & [= <- <-])%bind_Some)%bind_Some. destruct (poll_read_spec n r o r1 Hok E1) as (Ep & _ & Hok1 & _).
    apply IH in E2; [|done]. rewrite Ep, <- !(assoc_L (++)). by rewrite E2.
  - intros E. by apply IH in E.
Qed.

(** A client that sends at most what it was granted may always send
    [WINDOW_SIZE] bytes more, and never has twice as much granted; so the
    counter stays far from the bounds of an [i32]. *)
Definition window_ok (pc : StreamPc) : Prop :=
  match pc with
  | IUpdate _ w => (0 ≤ w < 2 * WINDOW_SIZE)%Z
  | IRecv _ w => (WINDOW_SIZE ≤ w < 2 * WINDOW_SIZE)%Z
  | IPush _ w d => (WINDOW_SIZE ≤ w < 2 * WINDOW_SIZE ∧ Z.of_nat (length d) ≤ w)%Z
  | _ => True
  end.
Lemma window_sub_small w d :
  (0 ≤ w < 2 ^ 31)%Z → (Z.of_nat (length d) ≤ w)%Z → window_sub w d = (w - i32_len d)%Z.
Proof.
  intros Hw Hd. unfold window_sub. rewrite Z.mod_small; [lia|]. unfold i32_len.
  destruct (Z.ltb_spec (Z.of_nat (length d)) (2 ^ 31)); lia.
Qed.
Theorem window_bounded t id pc c s s' :
  threads s !! t = Some (mkThread id pc) → window_ok pc →
  (∀ q w d, pc = IRecv q w → c = CMessage d → (Z.of_nat (length d) ≤ w)%Z) →
  stdin_step t id pc c s = Some s' → ∃ pc', threads s' !! t = Some (mkThread id pc') ∧ window_ok pc'.
Proof.
  intros Et Hw Hc E.
  assert (∀ s0 pc', threads s0 = threads s → threads (set_pc t pc' s0) !! t = Some (mkThread id pc')) as Hset.
  { intros s0 pc' E0. rewrite lookup_set_pc, decide_True, E0, Et by done. done. }
  destruct pc as [| | | | | | | | |q w|q w|q w d|]; simpl in E; try done.
  - pose proof (entry_threads id s) as Eth. unfold get_or_insert_sender in E. destruct (entry_or_insert id s) as [ch s1]. simpl in Eth.
    destruct (io_sender ch); injection E as <-; (eexists; split; [by apply Hset|]); [|done]. unfold window_ok, WINDOW_SIZE. lia.
  - simpl in Hw. destruct (Z.ltb_spec w WINDOW_SIZE); [destruct c|]; simplify_eq.
    + eexists. split; [by apply Hset|]. unfold window_ok, WINDOW_SIZE in *. lia.
    + eexists. split; [apply Hset|done]. unfold return_sender. destruct (ios s !! id); [|done]. simpl. by destruct (io_sender _).
    + eexists. split; [by apply Hset|]. simpl. lia.
  - destruct c; simplify_eq; (eexists; split; [apply Hset|]); try done.
    + simpl in *. split; [done|]. by apply (Hc q w d).
    + simpl. by rewrite remove_threads.
  - destruct Hw as [Hw Hd]. apply bind_Some in E as (x & Ex & E). destruct (qu_rx x); simpl in E.
    + case_bool_decide; [|done]. injection E as <-. eexists. split; [by apply Hset|]. simpl. rewrite window_sub_small; [|unfold WINDOW_SIZE in *; lia..].
      unfold i32_len. destruct (Z.ltb_spec (Z.of_nat (length d)) (2 ^ 31)); unfold WINDOW_SIZE in *; lia.
    + injection E as <-. eexists. split; [by apply Hset|done].
Qed.

(** ** Runs *)
Definition stream_state (h : list Label) : Streams := default no_streams (stream_run h no_streams).

(** A first connection has sent one chunk and holds the next when its client
    goes away; a second one takes over. *)
Definition takeover : list Label :=
  [LConnect "c-stdout"; LThread 0 CGo; LThread 0 CGo; LOutput "c-stdout"; LWrite 0 [1%N]; LWrite 0 [2%N];
   LThread 0 CGo; LThread 0 CGo; LThread 0 CGo; LWrite 0 [3%N]; LConnect "c-stdout"; LThread 1 CGo; LThread 1 CGo;
   LThread 0 CFail; LThread 0 CGo; LThread 1 CGo; LThread 1 CGo; LThread 1 CGo; LThread 1 CGo; LThread 1 CGo; LClose 0; LThread 1 CGo].
Example takeover_complete :
  (λ x, (qu_sent x, qu_written x)) <$> queues (stream_state takeover) !! 0 = Some ([[1%N]; [2%N]; [3%N]], [[1%N]; [2%N]; [3%N]])
  ∧ th_pc <$> threads (stream_state takeover) = [Ended (Err SConnection); Ended (Ok tt)].
Proof. vm_compute. auto. Qed.

Lemma output_in_order_witness :
  ∃ ch x, ios (stream_state takeover) !! "c-stdout" = Some ch ∧ queues (stream_state takeover) !! io_notifier ch = Some x
    ∧ qu_sent x `prefix_of` qu_written x.
Proof.
  destruct (ios (stream_state takeover) !! "c-stdout") as [ch|] eqn:E; [|vm_compute in E; discriminate].
  destruct (output_in_order "c-stdout" ltac:(vm_compute; reflexivity) takeover (stream_state takeover) ch
              ltac:(repeat (constructor; [split; discriminate|]); constructor) ltac:(vm_compute; reflexivity) E) as (x & Hx & Hp & _).
  exists ch, x. split; [reflexivity|]. split; [exact Hx|exact Hp].
Defined.

(** When the container's side has finished, it removes the channel; the end of
    the preemption channel is taken for a preemption, and the chunks that were
    still in the channel are lost. *)
Definition removed_early : list Label :=
  [LConnect "c-stdout"; LThread 0 CGo; LThread 0 CGo; LOutput "c-stdout"; LWrite 0 [1%N]; LWrite 0 [2%N]; LThread 0 CGo;
   LThread 0 CGo; LClose 0; LRemove "c-stdout"; LThread 0 CPreempt; LThread 0 CGo].
Example removal_loses_output :
  (λ x, (qu_sent x, qu_items x, qu_rx x)) <$> queues (stream_state removed_early) !! 0 = Some ([[1%N]], [[2%N]], false)
  ∧ th_pc <$> threads (stream_state removed_early) = [Ended (Err SPreempted)].
Proof. vm_compute. auto. Qed.

(** An input connection that breaks while it waits for data takes its sender
    with it: the process reads the end of its input, and the next connection is
    refused. One that breaks at a window update gives the sender back. *)
Definition broken_input : list Label :=
  [LConnect "c-stdin"; LThread 0 CGo; LThread 0 CGo; LThread 0 CFail; LConnect "c-stdin"; LThread 1 CGo].
Example broken_input_not_resumed :
  qu_tx <$> queues (stream_state broken_input) !! 0 = Some false
  ∧ th_pc <$> threads (stream_state broken_input) = [Ended (Err SConnection); Ended (Err SBusy)].
Proof. vm_compute. auto. Qed.
Example broken_update_resumed :
  th_pc <$> threads (stream_state [LConnect "c-stdin"; LThread 0 CGo; LThread 0 CFail; LConnect "c-stdin"; LThread 1 CGo]) =
  [Ended (Err SConnection); IUpdate 0 0].
Proof. vm_compute. reflexivity. Qed.

(** Of two connections that wait for one stream the older one gets it; the
    newer one has no way left to preempt it and waits for as long as it
    lasts. *)
Definition three_connections : list Label :=
  [LConnect "c-stdout"; LThread 0 CGo; LThread 0 CGo; LConnect "c-stdout"; LThread 1 CGo; LThread 1 CGo; LConnect "c-stdout";
   LThread 2 CGo; LThread 2 CGo; LThread 0 CPreempt; LThread 0 CGo; LThread 1 CGo; LThread 1 CGo].
Example newest_connection_waits :
  th_pc <$> threads (stream_state three_connections) = [Ended (Err SPreempted); ORecv 0 2; OWait 9 0]
  ∧ 2 ∉ preempted (stream_state three_connections).
Proof. vm_compute. split; [reflexivity|discriminate]. Qed.

Example get_id_ok : get_id "ttrpc+hvsock://aaa/bbb?id=c1-stdin" = Ok "c1-stdin".
Proof. vm_compute. reflexivity. Qed.
