(* ===== verification/QemuConfig.v ===== *)
(** * QEMU: buses, devices, configuration and command line

    [vmm/sandbox/src/device.rs] (buses and slots) and
    [vmm/sandbox/src/qemu/{config,factory,hooks}.rs] with its [devices/], for
    the default features on x86_64. *)
From S2P Require Import Prelude Strs Storage Types Metrics Disk Pool Continuation GuestScan Mount Frame Inject Annotations Box BlockImage StorageOps Handlers Sandboxer ChConfig Net.

(** ** Buses and transports: [device.rs] *)
#[global] Instance BusType_eq_dec : EqDecision BusType.
Proof. solve_decision. Defined.

Inductive SlotStatus := SlotEmpty | SlotOccupied (id : string).
#[global] Instance SlotStatus_eq_dec : EqDecision SlotStatus.
Proof. solve_decision. Defined.

Record Bus := mkBus { bus_type : BusType; bus_id : string; bus_addr : string; bus_slots : list SlotStatus }.

(** [Bus::empty_slot]: the first empty slot but the one of index 0. *)
Definition bus_empty_slot (b : Bus) : option nat :=
  match bus_slots b with
  | [] => None
  | _ :: slots => (λ x, S x.1) <$> list_find (λ s, s = SlotEmpty) slots
  end.

Inductive Transport := TPci | TCcw | TMmio.
Definition to_driver (t : Transport) (ty : string) : string :=
  ty +:+ "-" +:+ match t with TPci => "pci" | TCcw => "ccw" | TMmio => "device" end.
Definition transport_disable_modern (t : Transport) (dis : bool) : option bool :=
  match t with TPci => Some dis | _ => None end.

(** ** Rendering

    A struct with two parameters renders them in the order the macro iterates
    over a hash map with: an input of the model, per struct. *)
Class ParamOrder := params_swapped : string → bool.
Definition pair_params `{ParamOrder} (struct : string) (p q : Param) : list Param :=
  if params_swapped struct then [q; p] else [p; q].

(** [ignore_key] *)
Definition bare (key value : string) : list Property := [mkProperty key value true].
Definition bare_opt (key : string) (o : option string) : list Property :=
  match o with Some v => bare key v | None => [] end.

(** [{:x}] *)
Fixpoint hex_digits (fuel : nat) (n : N) : string :=
  match fuel with
  | 0 => ""
  | S fuel =>
      if (n <? 16)%N then String (hex_digit n) ""
      else hex_digits fuel (n / 16) +:+ String (hex_digit (n `mod` 16)) ""
  end.
Definition lower_hex (n : N) : string := hex_digits (S (N.size_nat n)) n.
(** [{:02x}] *)
Definition lower_hex2 (n : N) : string :=
  if (n <? 16)%N then "0" +:+ lower_hex n else lower_hex n.

(** ** Devices with a bus *)
Definition PCI_BRIDGE_CAPACITY : nat := 30.
Definition BRIDGE_PCI_START_ADDRESS : N := 2.
Definition SCSI_BUS_CAPACITY : nat := 64.
Definition SERIAL_BUS_CAPACITY : nat := 31.

Record Bridge := mkBridge {
  br_driver : string; br_bus_name : string; br_id : string; br_chassis : N; br_shpc : bool;
  br_addr : option string; br_romfile : option string; br_bus : Bus
}.
Definition Bridge_params (d : Bridge) : list Param := [mkParam "device"
  (bare "driver" (br_driver d) ++ prop "bus" (br_bus_name d) ++ prop "id" (br_id d) ++
   prop_if (bool_decide (br_driver d = "pci-bridge")) "chassis_nr" (pretty (br_chassis d)) ++
   prop_if (bool_decide (br_driver d = "pci-bridge")) "shpc" (bool_to_on_off (br_shpc d)) ++
   prop_opt "addr" id (br_addr d) ++ prop_opt "romfile" id (br_romfile d))].

Definition create_bridge (ty driver bus : string) (i : N) : Bridge :=
  let addr := (BRIDGE_PCI_START_ADDRESS + i)%N in
  let id := ty +:+ "-bridge-" +:+ pretty i in
  mkBridge driver bus id (i + 1) true (Some (lower_hex addr)) None
    (mkBus PCI id (lower_hex2 addr) (replicate PCI_BRIDGE_CAPACITY SlotEmpty)).
Definition create_bridges (count : N) (machine_type : string) : list Bridge :=
  let '(ty, driver, bus) := if bool_decide (machine_type = "virt") then ("pcie", "pcie-pci-bridge", "pcie.0")
                            else ("pci", "pci-bridge", "pci.0") in
  create_bridge ty driver bus <$> (N.of_nat <$> seq 0 (N.to_nat count)).

Record ScsiController := mkScsi {
  sc_driver : string; sc_id : string; sc_bus_addr : option string; sc_addr : option string;
  sc_disable_modern : option bool; sc_iothread : option string; sc_romfile : option string; sc_bus : Bus
}.
Definition ScsiController_new (id : string) (t : Transport) : ScsiController :=
  mkScsi (to_driver t "virtio-scsi") id None None (transport_disable_modern t false) None None
    (mkBus SCSI id "0:0" (replicate SCSI_BUS_CAPACITY SlotEmpty)).
Definition ScsiController_params (d : ScsiController) : list Param := [mkParam "device"
  (bare "driver" (sc_driver d) ++ prop "id" (sc_id d) ++ prop_opt "bus" id (sc_bus_addr d) ++
   prop_opt "addr" id (sc_addr d) ++ prop_opt "disable-modern" show (sc_disable_modern d) ++
   prop_opt "iothread" id (sc_iothread d) ++ prop_opt "romfile" id (sc_romfile d))].

Record SerialBridge := mkSerial {
  se_driver : string; se_id : string; se_disable_modern : option bool; se_romfile : option string;
  se_max_ports : option N; se_bus : Bus
}.
Definition SerialBridge_new (id : string) (t : Transport) : SerialBridge :=
  mkSerial (to_driver t "virtio-serial") id (transport_disable_modern t false) None None
    (mkBus SERIAL id (id +:+ ".0") (replicate SERIAL_BUS_CAPACITY SlotEmpty)).
Definition SerialBridge_params (d : SerialBridge) : list Param := [mkParam "device"
  (bare "driver" (se_driver d) ++ prop "id" (se_id d) ++ prop_opt "disable-modern" show (se_disable_modern d) ++
   prop_opt "romfile" id (se_romfile d) ++ prop_opt "max_ports" pretty (se_max_ports d))].

(** ** Devices without a bus *)
Record VirtioBlockDevice := mkBlock {
  bd_driver : string; bd_id : string; bd_file : option string; bd_if : option string; bd_aio : option string;
  bd_format : option string; bd_scsi : option bool; bd_wce : option bool; bd_disable_modern : option bool;
  bd_romfile : option string; bd_share_rw : bool; bd_readonly : bool
}.
Definition VIRTIO_BLK_DRIVER : string := "virtio-blk".
Definition VirtioBlockDevice_new (driver id : string) (file : option string) (read_only : bool) : VirtioBlockDevice :=
  mkBlock driver id file None None None (Some false) (Some false) None None false read_only.

Definition VIRT_CONSOLE_DRIVER : string := "virtconsole".
Definition VIRT_SERIAL_PORT_DRIVER : string := "virtserialport".
Definition CHARBACKEND_SOCKET : string := "socket".
Definition CHARBACKEND_PIPE : string := "pipe".
Inductive CharBackendType := CharPipe (p : string) | CharSocket (p : string).
Record CharDevice := mkCharDev {
  cd_backend : string; cd_driver : string; cd_bus_addr : option string; cd_id : string; cd_chardev_id : string;
  cd_path : string; cd_name : option string; cd_disable_modern : option bool; cd_romfile : option string;
  cd_server : bool; cd_wait : bool
}.
Definition CharDevice_new (backend id chardev_id path driver : string) (name : option string) : CharDevice :=
  mkCharDev backend driver None id chardev_id path name None None true false.
Definition new_socket : string → string → string → string → option string → CharDevice := CharDevice_new CHARBACKEND_SOCKET.
Definition new_pipe : string → string → string → string → option string → CharDevice := CharDevice_new CHARBACKEND_PIPE.
Definition new_with_backend_type (b : CharBackendType) (id chardev_id driver : string) (name : option string) : CharDevice :=
  match b with
  | CharPipe p => new_pipe id chardev_id p driver name
  | CharSocket p => new_socket id chardev_id p driver name
  end.

Inductive NetType := NetTap | NetMacVtap | NetIpVtap | NetVethTap | NetVhostUser.
Definition NetType_fmt (t : NetType) : string := match t with NetVhostUser => "vhost-user" | _ => "tap" end.
Record QemuNetDevice := mkQemuNet {
  qn_type : NetType; qn_transport : Transport; qn_driver : string; qn_id : string; qn_vhost : bool;
  qn_vhostfds : list N; qn_fds : list N; qn_ifname : option string; qn_pci_bus : option string;
  qn_pci_addr : option string; qn_script : option string; qn_down_script : option string; qn_mac : string;
  qn_multi_queue : bool; qn_disable_modern : option bool; qn_romfile : option string; qn_queues : option N
}.
Definition QemuNetDevice_new (id : string) (name : option string) (mac : string) (t : Transport) (fds vhostfds : list N)
  : QemuNetDevice :=
  mkQemuNet NetTap t (to_driver t "virtio-net") id false vhostfds fds name None None None None mac
    (bool_decide (fds ≠ [])) None None None.

Record QemuVfioDevice := mkQemuVfio { qv_id : string; qv_driver : string; qv_bdf : string; qv_romfile : option string }.
Definition QemuVfioDevice_new (id bdf : string) : QemuVfioDevice := mkQemuVfio id (to_driver TPci "vfio") bdf None.

Inductive VhostUserType := VhostUserNet (ty : string) | VhostUserChar (ty : string).
Definition VhostUserType_fmt (t : VhostUserType) : string := match t with VhostUserNet s | VhostUserChar s => s end.
Record VhostNetDevice := mkVhostNet {
  hn_driver : VhostUserType; hn_id : string; hn_netdev_type : string; hn_netdev_param : string;
  hn_char_dev_id : string; hn_net_dev_id : string; hn_address : option string; hn_tag : option string;
  hn_cache_size : option N; hn_shared_versions : option bool; hn_romfile : option string
}.
(** The path of the socket is not used. *)
Definition VhostNetDevice_new (id : string) (t : VhostUserType) (socket_path address : string) : VhostNetDevice :=
  mkVhostNet t id "vhost-user" "vhostforce" ("char-" +:+ id) ("net-" +:+ id) (Some address) None None None (Some "").
Record VhostCharDevice := mkVhostChar {
  hd_driver : VhostUserType; hd_chardev_type : string; hd_id : string; hd_socket_path : string;
  hd_char_dev_id : string; hd_net_dev_id : string; hd_tag : option string; hd_cache_size : option N;
  hd_shared_versions : option bool; hd_romfile : option string
}.
Definition VhostCharDevice_new (id : string) (t : VhostUserType) (socket_path address : string) : VhostCharDevice :=
  mkVhostChar t "socket" id socket_path ("char-" +:+ id) ("char-" +:+ id) (Some "kuasar") None None (Some "").

Record VSockDevice := mkVSock {
  vs_driver : string; vs_id : string; vs_context_id : N; vs_vhost_fd_index : option N;
  vs_romfile : option string; vs_disable_modern : option bool
}.
Definition VSockDevice_new (cid : N) (fd_index : option N) (t : Transport) : VSockDevice :=
  mkVSock (to_driver t "vhost-vsock") ("vsock-" +:+ pretty cid) cid fd_index None None.

Record Virtio9PDevice := mkVirtio9P {
  np_driver : string; np_fs_driver : string; np_id : string; np_path : string; np_mount_tag : string;
  np_security_model : string; np_disable_modern : option bool; np_romfile : option string;
  np_multidevs : option string; np_direct_io : bool
}.
Definition Virtio9PDevice_new (id path mount_tag : string) (direct_io : bool) (multidevs : option string) (t : Transport)
  : Virtio9PDevice :=
  mkVirtio9P (to_driver t "virtio-9p") "local" id path mount_tag "none" None None multidevs direct_io.
Definition writeout (direct : bool) : string := if direct then "immediate" else "".

Record VirtioRngDevice := mkVirtioRng {
  rg_object_type : string; rg_driver : string; rg_id : string; rg_filename : string; rg_romfile : option string;
  rg_max_bytes : option N; rg_period : option N
}.
Definition VirtioRngDevice_new (id filename : string) (t : Transport) : VirtioRngDevice :=
  mkVirtioRng "rng-random" (to_driver t "virtio-rng") id filename None None None.

(** [Box<dyn QemuDevice>] *)
Inductive QemuDevice :=
  | QBridge (d : Bridge) | QScsi (d : ScsiController) | QSerial (d : SerialBridge) | QBlock (d : VirtioBlockDevice)
  | QChar (d : CharDevice) | QNet (d : QemuNetDevice) | QVfio (d : QemuVfioDevice) | QVhostNet (d : VhostNetDevice)
  | QVhostChar (d : VhostCharDevice) | QVSock (d : VSockDevice) | Q9P (d : Virtio9PDevice) | QRng (d : VirtioRngDevice).

(** [Device::bus] *)
Definition device_bus (d : QemuDevice) : option Bus :=
  match d with
  | QBridge d => Some (br_bus d) | QScsi d => Some (sc_bus d) | QSerial d => Some (se_bus d) | _ => None
  end.
Definition set_device_bus (b : Bus) (d : QemuDevice) : QemuDevice :=
  match d with
  | QBridge d => QBridge (mkBridge (br_driver d) (br_bus_name d) (br_id d) (br_chassis d) (br_shpc d) (br_addr d)
                            (br_romfile d) b)
  | QScsi d => QScsi (mkScsi (sc_driver d) (sc_id d) (sc_bus_addr d) (sc_addr d) (sc_disable_modern d)
                        (sc_iothread d) (sc_romfile d) b)
  | QSerial d => QSerial (mkSerial (se_driver d) (se_id d) (se_disable_modern d) (se_romfile d) (se_max_ports d) b)
  | d => d
  end.

Section rendering.
Context `{ParamOrder}.

Definition VirtioBlockDevice_params (d : VirtioBlockDevice) : list Param := pair_params "VirtioBlockDevice"
  (mkParam "device"
    (bare "driver" (bd_driver d) ++ prop "drive" (bd_id d) ++ prop_opt "scsi" bool_to_on_off (bd_scsi d) ++
     prop_opt "config-wce" bool_to_on_off (bd_wce d) ++ prop_opt "disable-modern" show (bd_disable_modern d) ++
     prop_opt "romfile" id (bd_romfile d) ++ prop_if (bd_share_rw d) "share-rw" (bool_to_on_off (bd_share_rw d))))
  (mkParam "drive"
    (prop "id" (bd_id d) ++ prop_opt "file" id (bd_file d) ++ prop_opt "if" id (bd_if d) ++
     prop_opt "aio" id (bd_aio d) ++ prop_opt "format" id (bd_format d) ++
     prop "readonly" (bool_to_on_off (bd_readonly d)))).

Definition CharDevice_params (d : CharDevice) : list Param :=
  let socket := bool_decide (cd_backend d = "socket") in
  pair_params "CharDevice"
  (mkParam "device"
    (bare "driver" (cd_driver d) ++ prop_opt "bus" id (cd_bus_addr d) ++ prop "id" (cd_id d) ++
     prop "chardev" (cd_chardev_id d) ++ prop_opt "name" id (cd_name d) ++
     prop_opt "disable-modern" show (cd_disable_modern d) ++ prop_opt "romfile" id (cd_romfile d)))
  (mkParam "chardev"
    (bare "backend" (cd_backend d) ++ prop "id" (cd_chardev_id d) ++ prop "path" (cd_path d) ++
     prop_if socket "server" (bool_to_on_off (cd_server d)) ++ prop_if socket "wait" (bool_to_on_off (cd_wait d)))).

(** The predicate of [ifname] replaces the test that it is [Some], and the
    generated code unwraps it: [None] is a panic. *)
Definition fds_to_vectors (fds : list N) : string := pretty (2 * length fds + 2).
Definition QemuNetDevice_params (d : QemuNetDevice) : option (list Param) :=
  let has_fds := bool_decide (qn_fds d ≠ []) in
  let is_pci := match qn_transport d with TPci => true | _ => false end in
  ifname ← (if has_fds then Some [] else prop "ifname" <$> qn_ifname d);
  Some (pair_params "VirtioNetDevice"
  (mkParam "netdev"
    (bare "type" (NetType_fmt (qn_type d)) ++ prop "id" (qn_id d) ++
     prop_if (qn_vhost d) "vhost" (bool_to_on_off (qn_vhost d)) ++
     prop_if (qn_vhost d) "vhostfds" (vec_to_string (pretty <$> qn_vhostfds d)) ++
     prop_if has_fds "fds" (vec_to_string (pretty <$> qn_fds d)) ++ ifname ++
     prop_opt "script" id (qn_script d) ++ prop_opt "downscript" id (qn_down_script d) ++
     prop_opt "queues" pretty (qn_queues d)))
  (mkParam "device"
    (bare "driver" (qn_driver d) ++ prop "netdev" (qn_id d) ++
     prop_if (has_fds && is_pci) "vectors" (fds_to_vectors (qn_fds d)) ++ prop_opt "bus" id (qn_pci_bus d) ++
     prop_opt "addr" id (qn_pci_addr d) ++ prop "mac" (qn_mac d) ++ prop "mq" (bool_to_on_off (qn_multi_queue d)) ++
     prop_opt "disable-modern" show (qn_disable_modern d) ++ prop_opt "romfile" id (qn_romfile d)))).

Definition QemuVfioDevice_params (d : QemuVfioDevice) : list Param := [mkParam "device"
  (bare "driver" (qv_driver d) ++ prop "host" (qv_bdf d) ++ prop_opt "romfile" id (qv_romfile d))].

Definition VhostNetDevice_params (d : VhostNetDevice) : list Param := pair_params "VhostNetDevice"
  (mkParam "device"
    (bare "driver" (VhostUserType_fmt (hn_driver d)) ++ prop "netdev" (hn_net_dev_id d) ++
     prop_opt "mac" id (hn_address d) ++ prop_opt "tag" id (hn_tag d) ++
     prop_opt "cache-size" pretty (hn_cache_size d) ++ prop_opt "shared-versions" show (hn_shared_versions d) ++
     prop_opt "romfile" id (hn_romfile d)))
  (mkParam "netdev"
    (prop "type" (hn_netdev_type d) ++ bare "netdev-param" (hn_netdev_param d) ++
     prop "chardev" (hn_char_dev_id d) ++ prop "id" (hn_net_dev_id d))).

Definition VhostCharDevice_params (d : VhostCharDevice) : list Param := pair_params "VhostCharDevice"
  (mkParam "device"
    (bare "driver" (VhostUserType_fmt (hd_driver d)) ++ prop "chardev" (hd_net_dev_id d) ++
     prop_opt "tag" id (hd_tag d) ++ prop_opt "cache-size" pretty (hd_cache_size d) ++
     prop_opt "shared-versions" show (hd_shared_versions d) ++ prop_opt "romfile" id (hd_romfile d)))
  (mkParam "chardev"
    (bare "chardev-type" (hd_chardev_type d) ++ prop "path" (hd_socket_path d) ++ prop "id" (hd_char_dev_id d))).

Definition VSockDevice_params (d : VSockDevice) : list Param := [mkParam "device"
  (bare "driver" (vs_driver d) ++ prop "id" (vs_id d) ++ prop "guest-cid" (pretty (vs_context_id d)) ++
   prop_opt "vhostfd" pretty (vs_vhost_fd_index d) ++ prop_opt "romfile" id (vs_romfile d) ++
   prop_opt "disable-modern" show (vs_disable_modern d))].

Definition Virtio9PDevice_params (d : Virtio9PDevice) : list Param := pair_params "Virtio9PDevice"
  (mkParam "device"
    (bare "driver" (np_driver d) ++ prop "fsdev" (np_id d) ++ prop "mount_tag" (np_mount_tag d) ++
     prop_opt "disable-modern" show (np_disable_modern d) ++ prop_opt "romfile" id (np_romfile d) ++
     prop_if (np_direct_io d) "writeout" (writeout (np_direct_io d))))
  (mkParam "fsdev"
    (bare "fs-driver" (np_fs_driver d) ++ prop "id" (np_id d) ++ prop "path" (np_path d) ++
     prop "security_model" (np_security_model d) ++ prop_opt "multidevs" id (np_multidevs d))).

Definition VirtioRngDevice_params (d : VirtioRngDevice) : list Param := pair_params "VirtioRngDevice"
  (mkParam "object"
    (bare "object-type" (rg_object_type d) ++ prop "id" (rg_id d) ++ prop "filename" (rg_filename d)))
  (mkParam "device"
    (bare "driver" (rg_driver d) ++ prop "rng" (rg_id d) ++ prop_opt "romfile" id (rg_romfile d) ++
     prop_opt "max-bytes" pretty (rg_max_bytes d) ++ prop_opt "period" pretty (rg_period d))).

Definition qemu_device_params (d : QemuDevice) : option (list Param) :=
  match d with
  | QBridge d => Some (Bridge_params d) | QScsi d => Some (ScsiController_params d)
  | QSerial d => Some (SerialBridge_params d) | QBlock d => Some (VirtioBlockDevice_params d)
  | QChar d => Some (CharDevice_params d) | QNet d => QemuNetDevice_params d
  | QVfio d => Some (QemuVfioDevice_params d) | QVhostNet d => Some (VhostNetDevice_params d)
  | QVhostChar d => Some (VhostCharDevice_params d) | QVSock d => Some (VSockDevice_params d)
  | Q9P d => Some (Virtio9PDevice_params d) | QRng d => Some (VirtioRngDevice_params d)
  end.
End rendering.

(** ** Configuration: [config.rs] *)
Inductive ShareFsType := ShareVirtio9P | ShareVirtioFS.
Inductive MemoryBackend := MemRam | MemFile (path : string).

Record QemuVMConfig := mkQemuVmConfig {
  qc_common : HypervisorCommonConfig; qc_machine_accelerators : string; qc_firmware_path : string;
  qc_cpu_features : string; qc_cpu_model : string; qc_qemu_path : string; qc_machine_type : string;
  qc_default_bridges : N; qc_default_max_vcpus : N; qc_entropy_source : string; qc_mem_slots : N;
  qc_mem_offset : N; qc_memory_path : string; qc_file_backend_mem_path : string; qc_mem_prealloc : bool;
  qc_hugepages : bool; qc_enable_vhost_user_store : bool; qc_enable_swap : bool; qc_msize_9p : N;
  qc_virtio_9p_direct_io : bool; qc_virtio_9p_multidevs : string; qc_enable_iothreads : bool;
  qc_block_device_driver : BlockDriver; qc_disable_nvdimm : bool; qc_share_fs : ShareFsType;
  qc_use_vsock : bool; qc_virtiofsd : option VirtiofsdConfig
}.
Definition QemuVMConfig_default : QemuVMConfig :=
  mkQemuVmConfig HypervisorCommonConfig_default "" "" "" "host" "/usr/bin/qemu-kvm" "pc" 1 0 "/dev/urandom" 1 0
    "" "" false false false false 8192 false "" false VirtioScsi false ShareVirtio9P false None.

Record Machine := mkMachine { mc_type : string; mc_options : option string }.
Record QmpSocket := mkQmpSocket { qs_param_key : string; qs_type : string; qs_name : string; qs_server : bool; qs_no_wait : bool }.
Record RTC := mkRTC { rtc_base : string; rtc_clock : string; rtc_drift_fix : string }.
Record QemuKernel := mkKernel { kn_path : string; kn_initrd : option string; kn_params : option string }.
Record QemuMemory := mkQemuMemory {
  qm_size : string; qm_slots : N; qm_max_mem : string; qm_backend_type : MemoryBackend; qm_pre_alloc : bool;
  qm_shared : bool; qm_enable_numa : bool
}.
Record SMP := mkSMP { smp_cpus : N; smp_cores : N; smp_threads : N; smp_sockets : N; smp_max_cpus : N }.
Record CpuModel := mkCpuModel { cm_cpu_model : string; cm_cpu_features : option string }.
Record MemLock := mkMemLock { ml_mem_lock : bool }.
Record Knobs := mkKnobs {
  kb_no_user_config : bool; kb_no_defaults : bool; kb_no_graphic : bool; kb_daemonize : bool; kb_mlock : MemLock;
  kb_stopped : bool; kb_no_reboot : bool
}.
Inductive MigrationType := MigFD (fd : Z) | MigExec (cmd : string) | MigTcp (endpoint : string) | MigDefer.
Definition MigrationType_fmt (t : MigrationType) : string :=
  match t with
  | MigFD fd => "fd:" +:+ pretty fd | MigExec c => "exec:" +:+ c | MigTcp e => "tcp:" +:+ e | MigDefer => "defer"
  end.
(** [Object] of an [IOThread]: driver and id *)
Record QemuConfig := mkQemuConfig {
  qf_name : string; qf_uuid : string; qf_path : string; qf_machine : Machine; qf_qmp_socket : option QmpSocket;
  qf_cpu_model : CpuModel; qf_rtc : RTC; qf_vga : string; qf_kernel : QemuKernel; qf_smp : SMP; qf_memory : QemuMemory;
  qf_global_params : list string; qf_knobs : Knobs; qf_bios : option string; qf_pflash : option string;
  qf_incoming : option MigrationType; qf_io_threads : list (string * string); qf_pid_file : string;
  qf_log_file : option string
}.

(** [SUPPORTED_MACHINES] on x86_64 *)
Definition supported_machine (ty : string) : option Machine :=
  if bool_decide (ty = "pc") then Some (mkMachine "pc" (Some "accel=kvm,kernel_irqchip=on")) else None.

Inductive QemuError :=
  | QInvalidArgument | QNoMeminfo | QUnimplemented | QNoVsock | QMkdirFailed | QExhausted | QNoClient | QCommand
  | QNoBus | QUnsupportedBackend | QSpawn | QTimeout | QNoPid | QKill.

(** [to_qemu_config]; [host_mb] is the memory of the host, when it can be read. *)
Definition DEFAULT_QEMU_PATH : string := "/usr/bin/qemu-system-x86_64".
Definition some_if_nonempty (s : string) : option string := if bool_decide (s = "") then None else Some s.
Definition memory_backend (c : QemuVMConfig) : MemoryBackend :=
  if bool_decide (qc_memory_path c ≠ "") then MemFile (qc_memory_path c)
  else if qc_hugepages c then MemFile "/dev/hugepages" else MemRam.
Definition to_qemu_config (host_mb : option N) (c : QemuVMConfig) : result QemuConfig QemuError :=
  let k := qc_common c in
  if bool_decide (qc_cpu_model c = "") then Err QInvalidArgument else
  match supported_machine (qc_machine_type c) with
  | None => Err QInvalidArgument
  | Some machine =>
      if qc_enable_vhost_user_store c && negb (qc_hugepages c) then Err QInvalidArgument else
      match host_mb with
      | None => Err QNoMeminfo
      | Some mb =>
          Ok (mkQemuConfig "" "" (if bool_decide (qc_qemu_path c ≠ "") then qc_qemu_path c else DEFAULT_QEMU_PATH)
                machine None (mkCpuModel (qc_cpu_model c) (some_if_nonempty (qc_cpu_features c)))
                (mkRTC "utc" "host" "slew") "none"
                (mkKernel (hc_kernel_path k) (some_if_nonempty (hc_initrd_path k)) (some_if_nonempty (hc_kernel_params k)))
                (mkSMP (hc_vcpus k) 1 1 (qc_default_max_vcpus c) (qc_default_max_vcpus c))
                (mkQemuMemory (pretty (hc_memory_in_mb k) +:+ "M") (qc_mem_slots c) (pretty mb +:+ "M")
                   (memory_backend c) (qc_mem_prealloc c) (qc_enable_vhost_user_store c)
                   (bool_decide (qc_machine_type c ≠ "microvm-pci")))
                ["kvm-pit.lost_tick_policy=discard"]
                (mkKnobs true true true true (mkMemLock (negb (qc_enable_swap c))) false true)
                (some_if_nonempty (qc_firmware_path c)) None None [] "" None)
      end
  end.

(** ** The command line of the configuration *)
Definition Machine_params (m : Machine) : Param := mkParam "machine" (bare "type" (mc_type m) ++ bare_opt "options" (mc_options m)).
Definition QmpSocket_params (hyphen : string) (s : QmpSocket) : list string :=
  [hyphen +:+ qs_param_key s;
   qs_type s +:+ ":" +:+ qs_name s +:+ ",server=" +:+ bool_to_on_off (qs_server s) +:+ ",wait=" +:+
     bool_to_on_off (negb (qs_no_wait s))].
Definition CpuModel_params (m : CpuModel) : Param :=
  mkParam "cpu" (bare "cpu-model" (cm_cpu_model m) ++ bare_opt "cpu-features" (cm_cpu_features m)).
Definition RTC_params (r : RTC) : Param :=
  mkParam "rtc" (prop "base" (rtc_base r) ++ prop "clock" (rtc_clock r) ++ prop "driftfix" (rtc_drift_fix r)).
Definition Kernel_params (hyphen : string) (k : QemuKernel) : list string :=
  StringParam hyphen "kernel" (kn_path k) ++ OptionParam hyphen "initrd" (kn_initrd k) ++
  OptionParam hyphen "append" (kn_params k).
Definition SMP_params (s : SMP) : Param := mkParam "smp"
  (prop "cpus" (pretty (smp_cpus s)) ++ prop_if (bool_decide (smp_cores s ≠ 0%N)) "cores" (pretty (smp_cores s)) ++
   prop_if (bool_decide (smp_threads s ≠ 0%N)) "threads" (pretty (smp_threads s)) ++
   prop_if (bool_decide (smp_sockets s ≠ 0%N)) "sockets" (pretty (smp_sockets s)) ++
   prop_if (bool_decide (smp_max_cpus s ≠ 0%N)) "maxcpus" (pretty (smp_max_cpus s))).
Definition QemuMemory_params (hyphen : string) (m : QemuMemory) : list string :=
  let tail := "prealloc=" +:+ bool_to_on_off (qm_pre_alloc m) +:+ ",share=" +:+ bool_to_on_off (qm_shared m) in
  (if bool_decide (qm_size m = "") then []
   else [hyphen +:+ "m"; qm_size m +:+ ",slots=" +:+ pretty (qm_slots m) +:+ ",maxmem=" +:+ qm_max_mem m]) ++
  (if negb (qm_enable_numa m) then []
   else [hyphen +:+ "object";
         match qm_backend_type m with
         | MemRam => "memory-backend-ram,id=dimm1,size=" +:+ qm_size m +:+ "," +:+ tail
         | MemFile f => "memory-backend-file,id=dimm1,size=" +:+ qm_size m +:+ ",mem-path=" +:+ f +:+ "," +:+ tail
         end;
         hyphen +:+ "numa"; "node,memdev=dimm1"]).
(** [mlock] is ignored. *)
Definition Knobs_params (hyphen : string) (k : Knobs) : list string :=
  BoolParam hyphen "no-user-config" (kb_no_user_config k) ++ BoolParam hyphen "nodefaults" (kb_no_defaults k) ++
  BoolParam hyphen "nographic" (kb_no_graphic k) ++ BoolParam hyphen "daemonize" (kb_daemonize k) ++
  BoolParam hyphen "S" (kb_stopped k) ++ BoolParam hyphen "no-reboot" (kb_no_reboot k).
Definition QemuConfig_params (hyphen : string) (c : QemuConfig) : list string :=
  StringParam hyphen "name" (qf_name c) ++ StringParam hyphen "uuid" (qf_uuid c) ++
  to_cmdline_params hyphen [Machine_params (qf_machine c)] ++
  from_option (QmpSocket_params hyphen) [] (qf_qmp_socket c) ++
  to_cmdline_params hyphen [CpuModel_params (qf_cpu_model c)] ++ to_cmdline_params hyphen [RTC_params (qf_rtc c)] ++
  StringParam hyphen "vga" (qf_vga c) ++ Kernel_params hyphen (qf_kernel c) ++
  to_cmdline_params hyphen [SMP_params (qf_smp c)] ++ QemuMemory_params hyphen (qf_memory c) ++
  to_cmdline_params hyphen ((λ g, mkParam "global" (bare "param" g)) <$> qf_global_params c) ++
  Knobs_params hyphen (qf_knobs c) ++ OptionParam hyphen "bios" (qf_bios c) ++ OptionParam hyphen "pflash" (qf_pflash c) ++
  from_option (λ t, to_cmdline_params hyphen [mkParam "incoming" (bare "migration-type" (MigrationType_fmt t))]) []
    (qf_incoming c) ++
  to_cmdline_params hyphen ((λ o : string * string, mkParam "object" (bare "driver" o.1 ++ prop "id" o.2)) <$> qf_io_threads c) ++
  StringParam hyphen "pidfile" (qf_pid_file c) ++ OptionParam hyphen "D" (qf_log_file c).
