(* ===== verification/QemuDriver.v ===== *)
(** * QEMU: the driver

    [vmm/sandbox/src/qemu/{mod,factory,hooks,qmp_client,utils}.rs]: creating
    the VM value, attaching before the start, starting and stopping, and
    plugging devices into the running machine over QMP. *)
From S2P Require Import Prelude Strs Storage Types Metrics Disk Pool Continuation GuestScan Mount Frame Inject Annotations Box BlockImage StorageOps Handlers Sandboxer ChConfig Net QemuConfig.

(** ** The VM value *)

(** [Box<dyn QemuHotAttachable>] *)
Inductive HotDevice := HBlock (d : VirtioBlockDevice) | HChar (d : CharDevice).
Definition hot_id (d : HotDevice) : string := match d with HBlock d => bd_id d | HChar d => cd_id d end.

Record QemuVM := mkQemuVM {
  qv_name : string;
  qv_config : QemuConfig;
  qv_devices : list QemuDevice;
  qv_hot : list HotDevice;
  qv_fds : list N;
  qv_console_socket : string;
  qv_agent_socket : string;
  qv_netns : string;
  qv_pids : Pids;
  qv_block_driver : BlockDriver;
  qv_wait_chan : bool;
  qv_client : bool;
  qv_virtiofsd : option VirtiofsdConfig
}.

Definition set_devices_of (l : list QemuDevice) (v : QemuVM) : QemuVM :=
  mkQemuVM (qv_name v) (qv_config v) l (qv_hot v) (qv_fds v) (qv_console_socket v) (qv_agent_socket v) (qv_netns v)
    (qv_pids v) (qv_block_driver v) (qv_wait_chan v) (qv_client v) (qv_virtiofsd v).
Definition set_hot (l : list HotDevice) (v : QemuVM) : QemuVM :=
  mkQemuVM (qv_name v) (qv_config v) (qv_devices v) l (qv_fds v) (qv_console_socket v) (qv_agent_socket v) (qv_netns v)
    (qv_pids v) (qv_block_driver v) (qv_wait_chan v) (qv_client v) (qv_virtiofsd v).
Definition set_qemu_fds (l : list N) (v : QemuVM) : QemuVM :=
  mkQemuVM (qv_name v) (qv_config v) (qv_devices v) (qv_hot v) l (qv_console_socket v) (qv_agent_socket v) (qv_netns v)
    (qv_pids v) (qv_block_driver v) (qv_wait_chan v) (qv_client v) (qv_virtiofsd v).
Definition set_qemu_agent (s : string) (v : QemuVM) : QemuVM :=
  mkQemuVM (qv_name v) (qv_config v) (qv_devices v) (qv_hot v) (qv_fds v) (qv_console_socket v) s (qv_netns v)
    (qv_pids v) (qv_block_driver v) (qv_wait_chan v) (qv_client v) (qv_virtiofsd v).
Definition set_qemu_config (c : QemuConfig) (v : QemuVM) : QemuVM :=
  mkQemuVM (qv_name v) c (qv_devices v) (qv_hot v) (qv_fds v) (qv_console_socket v) (qv_agent_socket v) (qv_netns v)
    (qv_pids v) (qv_block_driver v) (qv_wait_chan v) (qv_client v) (qv_virtiofsd v).
Definition set_run (p : Pids) (wait client : bool) (v : QemuVM) : QemuVM :=
  mkQemuVM (qv_name v) (qv_config v) (qv_devices v) (qv_hot v) (qv_fds v) (qv_console_socket v) (qv_agent_socket v)
    (qv_netns v) p (qv_block_driver v) wait client (qv_virtiofsd v).
Definition set_qemu_virtiofsd (c : VirtiofsdConfig) (v : QemuVM) : QemuVM :=
  mkQemuVM (qv_name v) (qv_config v) (qv_devices v) (qv_hot v) (qv_fds v) (qv_console_socket v) (qv_agent_socket v)
    (qv_netns v) (qv_pids v) (qv_block_driver v) (qv_wait_chan v) (qv_client v) (Some c).

Definition QemuVM_new (id netns base_dir : string) (config : QemuConfig) (driver : BlockDriver) : QemuVM :=
  mkQemuVM id config [] [] [] (base_dir +:+ "/console.sock") "" netns (mkPids None []) driver false false None.
Definition attach_device (d : QemuDevice) (v : QemuVM) : QemuVM := set_devices_of (qv_devices v ++ [d]) v.
Definition attach_if (b : bool) (d : QemuDevice) (v : QemuVM) : QemuVM := if b then attach_device d v else v.

(** The number a descriptor gets in the child. *)
Definition qemu_append_fd (fd : N) (v : QemuVM) : N * QemuVM :=
  (N.of_nat (length (qv_fds v) + 3), set_qemu_fds (qv_fds v ++ [fd]) v).
Fixpoint qemu_append_fds (fds : list N) (v : QemuVM) : list N * QemuVM :=
  match fds with
  | [] => ([], v)
  | fd :: fds =>
      let '(i, v) := qemu_append_fd fd v in
      let '(l, v) := qemu_append_fds fds v in
      (i :: l, v)
  end.

(** ** Creating: [factory.rs]

    [vsock] is the descriptor and the context id [find_context_id] got, [mkdir]
    whether the directory of the shared file system could be created. *)
Definition qmp_socket_of (c : QemuVMConfig) (id : string) : QmpSocket :=
  mkQmpSocket (if bool_decide (qc_machine_type c = "microvm-pci") then "microvm-qmp" else "qmp") "unix"
    ("/run/" +:+ id +:+ "-qmp.sock") true true.
Definition named_config (q : QemuConfig) (c : QemuVMConfig) (uuid id base_dir : string) : QemuConfig :=
  mkQemuConfig ("sandbox-" +:+ id) uuid (qf_path q) (qf_machine q) (Some (qmp_socket_of c id)) (qf_cpu_model q)
    (qf_rtc q) (qf_vga q) (qf_kernel q) (qf_smp q) (qf_memory q) (qf_global_params q) (qf_knobs q) (qf_bios q)
    (qf_pflash q) (qf_incoming q) (qf_io_threads q) (base_dir +:+ "/sandbox-" +:+ id +:+ ".pid") (qf_log_file q).

Definition attach_channel (c : QemuVMConfig) (base_dir : string) (vsock : option (N * N)) (vm : QemuVM)
  : result QemuVM QemuError :=
  if qc_use_vsock c then
    match vsock with
    | None => Err QNoVsock
    | Some (fd, cid) =>
        let '(idx, vm) := qemu_append_fd fd vm in
        let vm := attach_device (QVSock (VSockDevice_new cid (Some idx) TPci)) vm in
        Ok (set_qemu_agent ("vsock://" +:+ pretty cid +:+ ":1024") vm)
    end
  else
    let socket := base_dir +:+ "/agent.sock" in
    let vm := attach_device (QChar (new_socket "channel0" "charch0" socket VIRT_SERIAL_PORT_DRIVER
                                      (Some "agent.channel.0"))) vm in
    Ok (set_qemu_agent socket vm).

Definition attach_share_fs (c : QemuVMConfig) (base_dir : string) (vm : QemuVM) : result QemuVM QemuError :=
  match qc_share_fs c with
  | ShareVirtio9P =>
      Ok (attach_device (Q9P (Virtio9PDevice_new "extra-9p-kuasar" (base_dir +:+ "/" +:+ SHARED_DIR_SUFFIX) "kuasar"
            (qc_virtio_9p_direct_io c) (some_if_nonempty (qc_virtio_9p_multidevs c)) TPci)) vm)
  | ShareVirtioFS =>
      match qc_virtiofsd c with
      | None => Err QUnimplemented
      | Some vd =>
          let socket := base_dir +:+ "/virtiofs.sock" in
          let vd := mkVirtiofsd (vd_path vd) (vd_log_level vd) (vd_cache vd) (vd_thread_pool_size vd) socket
                      (base_dir +:+ "/" +:+ SHARED_DIR_SUFFIX) (vd_syslog vd) in
          let vm := set_qemu_virtiofsd vd vm in
          Ok (attach_if (bool_decide (socket ≠ ""))
                (QVhostChar (VhostCharDevice_new "extra-fs-kuasar" (VhostUserChar "vhost-user-fs-pci") socket "")) vm)
      end
  end.

Definition attach_guest_image (c : QemuVMConfig) (vm : QemuVM) : result QemuVM QemuError :=
  let image := hc_image_path (qc_common c) in
  if bool_decide (image = "") then Ok vm
  else if qc_disable_nvdimm c then
    let d := VirtioBlockDevice_new (to_driver TPci VIRTIO_BLK_DRIVER) "image1" (Some image) true in
    Ok (attach_device (QBlock (mkBlock (bd_driver d) (bd_id d) (bd_file d) (Some "none") (Some "threads") (Some "raw")
          (bd_scsi d) (bd_wce d) (bd_disable_modern d) (bd_romfile d) (bd_share_rw d) (bd_readonly d))) vm)
  else Err QUnimplemented.

Definition qemu_create_vm (c : QemuVMConfig) (host_mb : option N) (vsock : option (N * N)) (mkdir : bool)
  (uuid id netns base_dir : string) : result QemuVM QemuError :=
  match to_qemu_config host_mb c with
  | Err e => Err e
  | Ok q =>
      let vm := QemuVM_new id netns base_dir (named_config q c uuid id base_dir) (qc_block_device_driver c) in
      let vm := foldl (λ v b, attach_device (QBridge b) v) vm
                  (create_bridges (qc_default_bridges c) (qc_machine_type c)) in
      let vm := match qc_block_device_driver c with
                | VirtioScsi => attach_device (QScsi (ScsiController_new "scsi0" TPci)) vm
                | _ => vm
                end in
      let vm := attach_device (QSerial (SerialBridge_new "serial0" TPci)) vm in
      let vm := attach_device (QChar (new_socket "console0" "charconsole0" (qv_console_socket vm)
                                        VIRT_CONSOLE_DRIVER None)) vm in
      let vm := attach_if (bool_decide (qc_entropy_source c ≠ ""))
                  (QRng (VirtioRngDevice_new "rng0" (qc_entropy_source c) TPci)) vm in
      match attach_channel c base_dir vsock vm with
      | Err e => Err e
      | Ok vm =>
          if negb mkdir then Err QMkdirFailed else
          match attach_share_fs c base_dir vm with Err e => Err e | Ok vm => attach_guest_image c vm end
      end
  end.

Definition qemu_with_resources (vcpus memory_mb : N) (c : QemuVMConfig) : QemuVMConfig :=
  let k := qc_common c in
  mkQemuVmConfig (mkCommon (hc_debug k) vcpus memory_mb (hc_kernel_path k) (hc_image_path k) (hc_initrd_path k)
                    (hc_kernel_params k) (hc_firmware k) (hc_enable_mem_prealloc k))
    (qc_machine_accelerators c) (qc_firmware_path c) (qc_cpu_features c) (qc_cpu_model c) (qc_qemu_path c)
    (qc_machine_type c) (qc_default_bridges c) (qc_default_max_vcpus c) (qc_entropy_source c) (qc_mem_slots c)
    (qc_mem_offset c) (qc_memory_path c) (qc_file_backend_mem_path c) (qc_mem_prealloc c) (qc_hugepages c)
    (qc_enable_vhost_user_store c) (qc_enable_swap c) (qc_msize_9p c) (qc_virtio_9p_direct_io c)
    (qc_virtio_9p_multidevs c) (qc_enable_iothreads c) (qc_block_device_driver c) (qc_disable_nvdimm c)
    (qc_share_fs c) (qc_use_vsock c) (qc_virtiofsd c).

(** [process_config] of [hooks.rs]: the ceiling of [quota / period] and the
    memory limit in MiB; [as u32] of the [f64] saturates, of the [u64] wraps. *)
Definition qemu_process_config (cpu_period cpu_quota memory_limit : Z) (c : QemuConfig) : QemuConfig :=
  let s := qf_smp c in
  let s := if (0 <? cpu_period)%Z && (0 <? cpu_quota)%Z
           then let base := N.min (Z.to_N ((cpu_quota + cpu_period - 1) / cpu_period)) u32_max in
                mkSMP base (smp_cores s) (smp_threads s) (smp_sockets s) base
           else s in
  let m := qf_memory c in
  let m := if (0 <? memory_limit)%Z
           then mkQemuMemory (pretty (uwrap 32 (Z.to_N memory_limit / (1024 * 1024))) +:+ "M") (qm_slots m) (qm_max_mem m)
                  (qm_backend_type m) (qm_pre_alloc m) (qm_shared m) (qm_enable_numa m)
           else m in
  mkQemuConfig (qf_name c) (qf_uuid c) (qf_path c) (qf_machine c) (qf_qmp_socket c) (qf_cpu_model c) (qf_rtc c)
    (qf_vga c) (qf_kernel c) s m (qf_global_params c) (qf_knobs c) (qf_bios c) (qf_pflash c) (qf_incoming c)
    (qf_io_threads c) (qf_pid_file c) (qf_log_file c).

(** ** Attaching before the start *)
Inductive QemuDeviceInfo :=
  | QBlockInfo (id path : string) (read_only : bool)
  | QTapInfo (id : string) (name mac : string) (fds : list N)
  | QPhysicalInfo (id bdf : string)
  | QVhostUserInfo (id socket_path mac ty : string)
  | QCharInfo (id chardev_id name : string) (backend : CharBackendType).

Definition qemu_attach (info : QemuDeviceInfo) (v : QemuVM) : QemuVM :=
  match info with
  | QBlockInfo i p ro =>
      attach_device (QBlock (VirtioBlockDevice_new (to_driver TPci VIRTIO_BLK_DRIVER) i (Some p) ro)) v
  | QTapInfo i name mac fds =>
      let '(idx, v) := qemu_append_fds fds v in
      attach_device (QNet (QemuNetDevice_new i (Some name) mac TPci idx [])) v
  | QPhysicalInfo i bdf => attach_device (QVfio (QemuVfioDevice_new i bdf)) v
  | QVhostUserInfo i sock mac ty => attach_device (QVhostNet (VhostNetDevice_new i (VhostUserNet ty) sock mac)) v
  | QCharInfo i ch name backend =>
      attach_device (QChar (new_with_backend_type backend i ch VIRT_SERIAL_PORT_DRIVER (Some name))) v
  end.

(** ** QMP: [qmp_client.rs]

    Commands with the arguments the devices build. *)
Inductive QValue := QStr (s : string) | QInt (n : N) | QBool (b : bool).
#[global] Instance QValue_eq_dec : EqDecision QValue.
Proof. solve_decision. Defined.

Record DeviceAdd := mkDeviceAdd {
  da_driver : string; da_bus : option string; da_id : string; da_args : list (string * QValue)
}.
#[global] Instance DeviceAdd_eq_dec : EqDecision DeviceAdd.
Proof. solve_decision. Defined.

Inductive QmpCommand :=
  | BlockdevAdd (node file : string) (read_only : bool)
  | BlockdevDel (node : string)
  | ChardevAdd (id path : string)
  | ChardevRemove (id : string)
  | CmdDeviceAdd (d : DeviceAdd)
  | DeviceDel (id : string)
  | Quit
  | QueryStatus.

(** What the machine has got over QMP. *)
Record QMachine := mkQMachine {
  qm_open : bool;
  qm_nodes : list string;
  qm_chardevs : list string;
  qm_plugged : list DeviceAdd
}.

(** The answer to a command: done; refused, without effect; lost, the
    connection ended before the answer came, and the flag says whether the
    command took effect; done and then the connection ended, and the flag says
    whether the event the command waits for came first; or no answer ever. *)
Inductive Reply := Done | Refused | Lost (effect : bool) | Dropped (event : bool) | Hang.

Definition qmp_effect (c : QmpCommand) (m : QMachine) : QMachine :=
  match c with
  | BlockdevAdd n _ _ => mkQMachine (qm_open m) (qm_nodes m ++ [n]) (qm_chardevs m) (qm_plugged m)
  | BlockdevDel n => mkQMachine (qm_open m) (filter (λ x, x ≠ n) (qm_nodes m)) (qm_chardevs m) (qm_plugged m)
  | ChardevAdd i _ => mkQMachine (qm_open m) (qm_nodes m) (qm_chardevs m ++ [i]) (qm_plugged m)
  | ChardevRemove i => mkQMachine (qm_open m) (qm_nodes m) (filter (λ x, x ≠ i) (qm_chardevs m)) (qm_plugged m)
  | CmdDeviceAdd d => mkQMachine (qm_open m) (qm_nodes m) (qm_chardevs m) (qm_plugged m ++ [d])
  | DeviceDel i => mkQMachine (qm_open m) (qm_nodes m) (qm_chardevs m) (filter (λ d, da_id d ≠ i) (qm_plugged m))
  | Quit | QueryStatus => m
  end.
Definition hang_up (m : QMachine) : QMachine := mkQMachine false (qm_nodes m) (qm_chardevs m) (qm_plugged m).

(** A driver's VM value with the machine behind its connection. *)
Record QmpState (V : Type) := mkQState { q_vm : V; q_mach : QMachine; q_replies : list Reply; q_sent : list QmpCommand }.
Arguments mkQState {V}.
Arguments q_vm {V}.
Arguments q_mach {V}.
Arguments q_replies {V}.
Arguments q_sent {V}.
Definition set_mach {V} (f : QMachine → QMachine) (s : QmpState V) : QmpState V :=
  mkQState (q_vm s) (f (q_mach s)) (q_replies s) (q_sent s).
Definition set_qvm {V} (f : V → V) (s : QmpState V) : QmpState V :=
  mkQState (f (q_vm s)) (q_mach s) (q_replies s) (q_sent s).

Declare Scope qemu_scope.
Delimit Scope qemu_scope with qemu.
Notation "'try' x ':=' m 'in' k" :=
  (r ← m; match r with Ok x => k | Err e => mret (Err e) end)
  (at level 10, x pattern, m at level 100, k at level 200) : qemu_scope.
Open Scope qemu_scope.

Section client.
Context {V : Type}.
Abbreviation C A := (M (QmpState V) (result A QemuError)).

Definition next_reply : M (QmpState V) Reply := λ s,
  Some (match q_replies s with [] => Done | r :: _ => r end,
        mkQState (q_vm s) (q_mach s) (match q_replies s with [] => [] | _ :: l => l end) (q_sent s)).
Definition log_sent (c : QmpCommand) : M (QmpState V) unit :=
  modify (λ s, mkQState (q_vm s) (q_mach s) (q_replies s) (q_sent s ++ [c])).

(** [execute]; on a connection that has ended every command is an error. *)
Definition execute (c : QmpCommand) : C unit :=
  up ← gets (λ s, qm_open (q_mach s));
  if negb up then mret (Err QCommand) else
  log_sent c;;
  r ← next_reply;
  match r with
  | Done => modify (set_mach (qmp_effect c));; mret (Ok tt)
  | Refused => mret (Err QCommand)
  | Lost e => modify (set_mach (λ m, hang_up (if e then qmp_effect c m else m)));; mret (Err QCommand)
  | Dropped _ => modify (set_mach (λ m, hang_up (qmp_effect c m)));; mret (Ok tt)
  | Hang => panic
  end.

(** [delete_device]: [execute_and_wait_event] for [DEVICE_DELETED]. There is no
    timeout, and the watcher with its sender stays in [watchers] when the event
    stream ends: a connection that ends before the event leaves the caller
    waiting. *)
Definition delete_device (id : string) : C unit :=
  up ← gets (λ s, qm_open (q_mach s));
  if negb up then mret (Err QCommand) else
  log_sent (DeviceDel id);;
  r ← next_reply;
  match r with
  | Done => modify (set_mach (qmp_effect (DeviceDel id)));; mret (Ok tt)
  | Refused => mret (Err QCommand)
  | Lost e => modify (set_mach (λ m, hang_up (if e then qmp_effect (DeviceDel id) m else m)));; mret (Err QCommand)
  | Dropped true => modify (set_mach (λ m, hang_up (qmp_effect (DeviceDel id) m)));; mret (Ok tt)
  | Dropped false | Hang => panic
  end.
End client.

Abbreviation QState := (QmpState QemuVM).
Abbreviation Qm A := (M QState (result A QemuError)).

(** ** Plugging: [devices/block.rs], [devices/char.rs] *)
Definition block_qmp_id (d : VirtioBlockDevice) : string := "virtio-" +:+ bd_id d.
Definition block_device_add (d : VirtioBlockDevice) (ty : BusType) (bus : string) (index : nat) : DeviceAdd :=
  let n := N.of_nat index in
  mkDeviceAdd
    (match ty with CCW => to_driver TCcw VIRTIO_BLK_DRIVER | SCSI => "scsi-hd" | _ => to_driver TPci VIRTIO_BLK_DRIVER end)
    (Some (match ty with SCSI => bus +:+ ".0" | _ => bus end))
    (block_qmp_id d)
    ((if bd_share_rw d then [("share-rw", QStr (bool_to_on_off (bd_share_rw d)))] else []) ++
     [("drive", QStr (bd_id d))] ++
     match ty with
     | SCSI => [("scsi-id", QInt (n / 256)); ("lun", QInt (n `mod` 256))]
     | _ => [("addr", QStr (lower_hex2 n))]
     end ++
     from_option (λ x, [("disable-modern", QBool x)]) [] (bd_disable_modern d) ++
     from_option (λ x, [("romfile", QStr x)]) [] (bd_romfile d)).

(** [to_blockdev_add] unwraps the file. *)
Definition block_hot_attach (d : VirtioBlockDevice) (ty : BusType) (bus : string) (index : nat) : Qm unit :=
  match bd_file d with
  | None => panic
  | Some file =>
      try _ := execute (BlockdevAdd (bd_id d) file (bd_readonly d)) in
      r ← execute (CmdDeviceAdd (block_device_add d ty bus index));
      match r with
      | Ok _ => mret (Ok tt)
      | Err e => _ ← execute (BlockdevDel (bd_id d)); mret (Err e)
      end
  end.
Definition block_hot_detach (d : VirtioBlockDevice) : Qm unit :=
  try _ := delete_device (block_qmp_id d) in execute (BlockdevDel (bd_id d)).

Definition char_device_add (d : CharDevice) : DeviceAdd :=
  mkDeviceAdd (cd_driver d) None (cd_id d)
    (from_option (λ x, [("name", QStr x)]) [] (cd_name d) ++ [("chardev", QStr (cd_chardev_id d))]).
Definition char_hot_attach (d : CharDevice) : Qm unit :=
  if negb (bool_decide (cd_backend d = CHARBACKEND_PIPE)) then mret (Err QUnsupportedBackend) else
  try _ := execute (ChardevAdd (cd_chardev_id d) (cd_path d)) in
  r ← execute (CmdDeviceAdd (char_device_add d));
  match r with
  | Ok _ => mret (Ok tt)
  | Err e => _ ← execute (ChardevRemove (cd_chardev_id d)); mret (Err e)
  end.
Definition char_hot_detach (d : CharDevice) : Qm unit :=
  try _ := delete_device (cd_id d) in execute (ChardevRemove (cd_chardev_id d)).

(** [HotAttachable] *)
Definition execute_hot_attach (d : HotDevice) (ty : BusType) (bus : string) (index : nat) : Qm unit :=
  match d with HBlock d => block_hot_attach d ty bus index | HChar d => char_hot_attach d end.
Definition execute_hot_detach (d : HotDevice) : Qm unit :=
  match d with HBlock d => block_hot_detach d | HChar d => char_hot_detach d end.

(** ** Slots of the VM value *)
Definition buses (l : list QemuDevice) : list Bus := omap device_bus l.
(** [QemuVM::empty_slot]: the first bus of the type with an empty slot *)
Fixpoint first_empty (ty : BusType) (l : list Bus) : option (string * nat) :=
  match l with
  | [] => None
  | b :: l =>
      match (if bool_decide (bus_type b = ty) then bus_empty_slot b else None) with
      | Some i => Some (bus_id b, i)
      | None => first_empty ty l
      end
  end.
(** The first device whose bus has the id. *)
Fixpoint update_bus (id : string) (f : Bus → Bus) (l : list QemuDevice) : list QemuDevice :=
  match l with
  | [] => []
  | d :: l =>
      match device_bus d with
      | Some b => if bool_decide (bus_id b = id) then set_device_bus (f b) d :: l else d :: update_bus id f l
      | None => d :: update_bus id f l
      end
  end.
Definition occupy (index : nat) (id : string) (b : Bus) : Bus :=
  mkBus (bus_type b) (bus_id b) (bus_addr b) (<[index := SlotOccupied id]> (bus_slots b)).
Definition attach_to_bus (bus : string) (index : nat) (id : string) : Qm (string * nat) :=
  v ← gets q_vm;
  match list_find (λ b, bus_id b = bus) (buses (qv_devices v)) with
  | None => mret (Err QNoBus)
  | Some (_, b) =>
      modify (set_qvm (λ v, set_devices_of (update_bus bus (occupy index id) (qv_devices v)) v));;
      mret (Ok (bus_addr b, index))
  end.
(** The first slot that holds the id. *)
Fixpoint release_slot (id : string) (l : list SlotStatus) : list SlotStatus :=
  match l with
  | [] => []
  | s :: l => if bool_decide (s = SlotOccupied id) then SlotEmpty :: l else s :: release_slot id l
  end.
Definition release_bus (id : string) (b : Bus) : Bus :=
  mkBus (bus_type b) (bus_id b) (bus_addr b) (release_slot id (bus_slots b)).
Definition release_device (id : string) (d : QemuDevice) : QemuDevice :=
  match device_bus d with Some b => set_device_bus (release_bus id b) d | None => d end.
Definition detach_from_bus (id : string) : M QState unit :=
  modify (set_qvm (λ v, set_devices_of (release_device id <$> qv_devices v) v)).

(** ** [hot_attach] and [hot_detach] *)
Definition get_qmp_client : Qm unit :=
  v ← gets q_vm; mret (if qv_client v then Ok tt else Err QNoClient).

Fixpoint take_hot (id : string) (l : list HotDevice) : option (HotDevice * list HotDevice) :=
  match l with
  | [] => None
  | d :: l =>
      if bool_decide (hot_id d = id) then Some (d, l)
      else match take_hot id l with Some (x, l) => Some (x, d :: l) | None => None end
  end.
Definition push_hot (d : HotDevice) : M QState unit := modify (set_qvm (λ v, set_hot (qv_hot v ++ [d]) v)).

Definition qemu_hot_detach (id : string) : Qm unit :=
  v ← gets q_vm;
  match take_hot id (qv_hot v) with
  | None => mret (Ok tt)
  | Some (d, rest) =>
      modify (set_qvm (set_hot rest));;
      c ← get_qmp_client;
      match c with
      | Err e => push_hot d;; mret (Err e)
      | Ok _ =>
          r ← execute_hot_detach d;
          match r with
          | Err e => push_hot d;; mret (Err e)
          | Ok _ => detach_from_bus id;; mret (Ok tt)
          end
      end
  end.

Definition hot_attach_device (d : HotDevice) (ty : BusType) : Qm (string * nat) :=
  v ← gets q_vm;
  match first_empty ty (buses (qv_devices v)) with
  | None => mret (Err QExhausted)
  | Some (bus, index) =>
      try _ := get_qmp_client in
      try _ := execute_hot_attach d ty bus index in
      r ← attach_to_bus bus index (hot_id d);
      match r with
      | Ok a => push_hot d;; mret (Ok a)
      | Err e => try _ := qemu_hot_detach (hot_id d) in mret (Err e)
      end
  end.

Definition qemu_hot_attach (info : QemuDeviceInfo) : Qm (BusType * string) :=
  v ← gets q_vm;
  match info with
  | QBlockInfo i p ro =>
      try (addr, index) := hot_attach_device (HBlock (VirtioBlockDevice_new "" i (Some p) ro)) (to_bus_type (qv_block_driver v)) in
      let n := N.of_nat index in
      mret (match qv_block_driver v with
            | BlockImage.VirtioBlk => Ok (to_bus_type (qv_block_driver v), "0000:" +:+ addr +:+ ":" +:+ lower_hex2 n +:+ ".0")
            | VirtioMmio => Err QUnimplemented
            | VirtioScsi => Ok (to_bus_type (qv_block_driver v), pretty (n / 256)%N +:+ ":" +:+ pretty (n `mod` 256)%N)
            end)
  | QTapInfo _ _ _ _ | QPhysicalInfo _ _ | QVhostUserInfo _ _ _ _ => mret (Err QUnimplemented)
  | QCharInfo i ch name backend =>
      try _ := hot_attach_device (HChar (new_with_backend_type backend i ch VIRT_SERIAL_PORT_DRIVER (Some name))) SERIAL in
      mret (Ok (PCI, name))
  end.

Definition qemu_ping : Qm unit := try _ := get_qmp_client in execute QueryStatus.

(** ** Starting and stopping *)

(** [detect_pid]: up to 1000 reads of the pid file; the command line of the
    process it names must have the binary in one of its words. *)
Fixpoint detect_pid_in (tries : nat) (reads : list (option N)) (cmdline : N → option (list string)) (bin : string)
  : result N QemuError :=
  match tries with
  | 0 => Err QTimeout
  | S tries =>
      match reads with
      | Some pid :: _ =>
          match cmdline pid with
          | None => Err QNoPid
          | Some cmd => if existsb (λ s, contains s bin) cmd then Ok pid else Err QNoPid
          end
      | None :: reads => detect_pid_in tries reads cmdline bin
      | [] => detect_pid_in tries [] cmdline bin
      end
  end.
Definition detect_pid : list (option N) → (N → option (list string)) → string → result N QemuError := detect_pid_in 1000.

(** The connection is tried until it succeeds or 10 seconds have passed; an
    attempt is its success and whether it came too late. *)
Fixpoint connect_qmp (attempts : list (bool * bool)) : result unit QemuError :=
  match attempts with
  | [] => Err QTimeout
  | (true, _) :: _ => Ok tt
  | (false, true) :: _ => Err QTimeout
  | (false, false) :: l => connect_qmp l
  end.

Record StartOutcome := mkStart {
  so_virtiofsd : option N;
  so_launch : bool;
  so_connects : list (bool * bool);
  so_reads : list (option N);
  so_cmdline : N → option (list string)
}.

Section start.
Context `{ParamOrder}.

(** The arguments of the command, [None] when rendering panics. *)
Definition launch_params (v : QemuVM) : option (list string) :=
  l ← mapM qemu_device_params (qv_devices v);
  Some (QemuConfig_params "-" (qv_config v) ++ mjoin (to_cmdline_params "-" <$> l)).

(** The result, the VM value, and the arguments and descriptors of the QEMU
    that was launched, if one was. *)
Definition qemu_start (o : StartOutcome) (v : QemuVM)
  : option (result N QemuError * QemuVM * option (list string * list N)) :=
  let spawned := match qv_virtiofsd v with
                 | None => Some v
                 | Some _ =>
                     pid ← so_virtiofsd o;
                     Some (set_run (mkPids (pid_vmm (qv_pids v)) (pid_affiliated (qv_pids v) ++ [pid]))
                             (qv_wait_chan v) (qv_client v) v)
                 end in
  match spawned with
  | None => Some (Err QSpawn, v, None)
  | Some v =>
      params ← launch_params v;
      let fds := qv_fds v in
      let v := set_qemu_fds [] v in
      if negb (so_launch o) then Some (Err QSpawn, v, None) else
      let v := set_run (qv_pids v) true (qv_client v) v in
      Some (match connect_qmp (so_connects o) with
            | Err e => (Err e, v, Some (params, fds))
            | Ok _ =>
                let v := set_run (qv_pids v) true true v in
                match detect_pid (so_reads o) (so_cmdline o) (qf_path (qv_config v)) with
                | Err e => (Err e, v, Some (params, fds))
                | Ok pid => (Ok 0%N, set_run (mkPids (Some pid) (pid_affiliated (qv_pids v))) true true v, Some (params, fds))
                end
            end)
  end.
End start.

(** [stop]; [ended] is whether the wait channel reported the end within 10
    seconds. The value is the process that was killed. *)
Definition qemu_wait_stop (ended : bool) : Qm unit :=
  v ← gets q_vm; mret (if qv_wait_chan v && negb ended then Err QTimeout else Ok tt).
Definition quit_qemu (force : bool) : Qm unit :=
  c ← get_qmp_client;
  match c, force with
  | Ok _, false => execute Quit
  | Err e, false => mret (Err e)
  | Ok _, true => _ ← execute Quit; mret (Ok tt)
  | Err _, true => mret (Ok tt)
  end.
Definition qemu_stop (force ended : bool) : Qm (option N) :=
  try _ := quit_qemu force in
  w ← qemu_wait_stop ended;
  match w with
  | Ok _ => mret (Ok None)
  | Err e =>
      if force then v ← gets q_vm; mret (Ok (pid_vmm (qv_pids v))) else mret (Err e)
  end.
