(* ===== verification/QemuSlots.v ===== *)
(** * QEMU: slots

    What the slot operations do to the ids the buses of a VM hold. *)
From S2P Require Import Prelude Strs Storage Types Metrics Disk Pool Continuation GuestScan Mount Frame Inject Annotations Box BlockImage StorageOps Handlers Sandboxer ChConfig Net QemuConfig QemuDriver.

Lemma filter_keep {A} (P : A → Prop) `{∀ x, Decision (P x)} l : Forall P l → filter P l = l.
Proof. induction 1 as [|x l Hx _ IH]; [done|]. by rewrite filter_cons_True, IH. Qed.

(** ** Ids in slots *)
Definition slot_id (s : SlotStatus) : option string := match s with SlotOccupied i => Some i | SlotEmpty => None end.
Definition slot_ids : list SlotStatus → list string := omap slot_id.
Definition held_ids (l : list Bus) : list (BusType * string) :=
  l ≫= λ b, (bus_type b,.) <$> slot_ids (bus_slots b).

Lemma slot_ids_cons s l :
  slot_ids (s :: l) = match slot_id s with Some x => x :: slot_ids l | None => slot_ids l end.
Proof. done. Qed.

Lemma slot_ids_insert (l : list SlotStatus) i id :
  l !! i = Some SlotEmpty → slot_ids (<[i := SlotOccupied id]> l) ≡ₚ id :: slot_ids l.
Proof.
  revert i. induction l as [|s l IH]; intros [|i] E; [done..| |].
  - by injection E as ->.
  - change (<[S i := SlotOccupied id]> (s :: l)) with (s :: <[i := SlotOccupied id]> l).
    rewrite !slot_ids_cons. specialize (IH i E). destruct (slot_id s); rewrite IH; [|done]. apply Permutation_swap.
Qed.

Lemma release_slot_cons id s l :
  release_slot id (s :: l) = if decide (slot_id s = Some id) then SlotEmpty :: l else s :: release_slot id l.
Proof.
  cbn [release_slot]. destruct (decide (slot_id s = Some id)) as [E|E].
  - destruct s; simplify_eq/=. by rewrite bool_decide_true.
  - rewrite bool_decide_false; [done|]. by intros ->.
Qed.

Lemma slot_ids_release id l : NoDup (slot_ids l) → slot_ids (release_slot id l) = filter (λ x, x ≠ id) (slot_ids l).
Proof.
  induction l as [|s l IH]; [done|]. rewrite release_slot_cons, slot_ids_cons.
  destruct (slot_id s) as [x|] eqn:Es.
  - intros [Hx N]%NoDup_cons. rewrite filter_cons. destruct (decide (x = id)) as [->|Hne].
    + rewrite decide_True, decide_False by naive_solver. rewrite slot_ids_cons. simpl. symmetry.
      apply filter_keep. apply Forall_forall. intros y Hy ->. done.
    + rewrite decide_False, decide_True by congruence. by rewrite slot_ids_cons, Es, IH.
  - intros N. rewrite decide_False by done. by rewrite slot_ids_cons, Es, IH.
Qed.

Lemma release_slot_other id l : id ∉ slot_ids l → release_slot id l = l.
Proof.
  induction l as [|s l IH]; [done|]. rewrite release_slot_cons, slot_ids_cons.
  destruct (slot_id s) as [x|] eqn:Es.
  - intros [Hx N]%not_elem_of_cons. rewrite decide_False by congruence. by rewrite IH.
  - intros N. rewrite decide_False by done. by rewrite IH.
Qed.

Lemma release_insert id l i :
  l !! i = Some SlotEmpty → id ∉ slot_ids l → release_slot id (<[i := SlotOccupied id]> l) = l.
Proof.
  revert i. induction l as [|s l IH]; intros [|i] E; [done..| |].
  - injection E as ->. intros _. change (<[0 := SlotOccupied id]> (SlotEmpty :: l)) with (SlotOccupied id :: l).
    rewrite release_slot_cons. by rewrite decide_True.
  - change (<[S i := SlotOccupied id]> (s :: l)) with (s :: <[i := SlotOccupied id]> l).
    rewrite slot_ids_cons, release_slot_cons. destruct (slot_id s) as [x|] eqn:Es.
    + intros [Hx N]%not_elem_of_cons. rewrite decide_False by congruence. by rewrite (IH i E).
    + intros N. rewrite decide_False by done. by rewrite (IH i E).
Qed.

Lemma release_slot_length id l : length (release_slot id l) = length l.
Proof. induction l as [|s l IH]; [done|]. rewrite release_slot_cons. case_decide; simpl; congruence. Qed.

Lemma release_slot_lookup id l i x :
  l !! i = Some (SlotOccupied x) → x ≠ id → release_slot id l !! i = Some (SlotOccupied x).
Proof.
  revert i. induction l as [|s l IH]; intros [|i] E Hx; [done..| |]; rewrite release_slot_cons.
  - injection E as ->. by rewrite decide_False by (simpl; congruence).
  - case_decide; [done|]. by apply IH.
Qed.

Lemma release_slot_empty id l i : l !! i = Some SlotEmpty → release_slot id l !! i = Some SlotEmpty.
Proof.
  revert i. induction l as [|s l IH]; intros [|i] E; [done..| |]; rewrite release_slot_cons.
  - injection E as ->. by rewrite decide_False.
  - case_decide; [done|]. by apply IH.
Qed.

Lemma elem_of_slot_ids (l : list SlotStatus) x : x ∈ slot_ids l ↔ ∃ i, l !! i = Some (SlotOccupied x).
Proof.
  unfold slot_ids. rewrite list_elem_of_omap. split.
  - intros (s & [i E]%list_elem_of_lookup & Hs). destruct s; simplify_eq/=. by exists i.
  - intros [i E]. exists (SlotOccupied x). split; [by eapply list_elem_of_lookup_2|done].
Qed.

Lemma elem_of_held l ty x :
  (ty, x) ∈ held_ids l ↔ ∃ b i, b ∈ l ∧ bus_type b = ty ∧ bus_slots b !! i = Some (SlotOccupied x).
Proof.
  unfold held_ids. rewrite list_elem_of_bind. split.
  - intros (b & (y & [= -> ->] & Hy)%list_elem_of_fmap & Hb). apply elem_of_slot_ids in Hy as [i E]. eauto.
  - intros (b & i & Hb & <- & E). exists b. split; [|done]. apply list_elem_of_fmap. exists x.
    split; [done|]. apply elem_of_slot_ids. by exists i.
Qed.

(** ** Updating the bus of one id *)
Definition on_bus (id : string) (f : Bus → Bus) (b : Bus) : Bus := if decide (bus_id b = id) then f b else b.

Lemma device_bus_set d b b' : device_bus d = Some b → device_bus (set_device_bus b' d) = Some b'.
Proof. by destruct d. Qed.
Lemma set_device_bus_id d b b' : device_bus d = Some b → set_device_bus b (set_device_bus b' d) = d.
Proof. destruct d as [[]|[]|[]| | | | | | | | |]; simpl; by intros [= <-]. Qed.

Lemma on_bus_same f b : on_bus (bus_id b) f b = f b.
Proof. unfold on_bus. by rewrite decide_True. Qed.
Lemma on_bus_ne id f b : bus_id b ≠ id → on_bus id f b = b.
Proof. intros. unfold on_bus. by rewrite decide_False. Qed.

Lemma on_bus_other id f (l : list Bus) : id ∉ bus_id <$> l → on_bus id f <$> l = l.
Proof.
  induction l as [|b l IH]; [done|]. rewrite !fmap_cons. intros [Hb Hl]%not_elem_of_cons.
  rewrite IH by done. unfold on_bus. by rewrite decide_False by congruence.
Qed.

Lemma buses_cons d l : buses (d :: l) = match device_bus d with Some b => b :: buses l | None => buses l end.
Proof. done. Qed.

Lemma buses_update id f l : NoDup (bus_id <$> buses l) → buses (update_bus id f l) = on_bus id f <$> buses l.
Proof.
  induction l as [|d l IH]; [done|]. rewrite buses_cons. cbn [update_bus].
  destruct (device_bus d) as [b|] eqn:Eb.
  - intros [Hb N]%NoDup_cons. rewrite fmap_cons. case_bool_decide as Hid.
    + rewrite buses_cons, (device_bus_set _ _ _ Eb), on_bus_other by (by subst). f_equal.
      unfold on_bus. by rewrite decide_True.
    + rewrite buses_cons, Eb, IH by done. f_equal. unfold on_bus. by rewrite decide_False.
  - intros N. by rewrite buses_cons, Eb, IH.
Qed.

Lemma buses_release id l : buses (release_device id <$> l) = release_bus id <$> buses l.
Proof.
  induction l as [|d l IH]; [done|]. rewrite fmap_cons, !buses_cons. unfold release_device at 1.
  destruct (device_bus d) as [b|] eqn:Eb; [by rewrite (device_bus_set _ _ _ Eb), fmap_cons, IH|].
  by rewrite Eb, IH.
Qed.

Lemma buses_app l k : buses (l ++ k) = buses l ++ buses k.
Proof. apply omap_app. Qed.

(** ** What occupying and releasing do to the ids *)
Lemma held_ids_cons b l : held_ids (b :: l) = ((bus_type b,.) <$> slot_ids (bus_slots b)) ++ held_ids l.
Proof. done. Qed.

Lemma held_occupy (l : list Bus) b i id :
  NoDup (bus_id <$> l) → b ∈ l → bus_slots b !! i = Some SlotEmpty →
  held_ids (on_bus (bus_id b) (occupy i id) <$> l) ≡ₚ (bus_type b, id) :: held_ids l.
Proof.
  intros N Hb E. induction l as [|c l IH]; [by apply elem_of_nil in Hb|].
  rewrite fmap_cons in N. apply NoDup_cons in N as [Hc N]. rewrite fmap_cons, !held_ids_cons.
  apply elem_of_cons in Hb as [->|Hb].
  - rewrite on_bus_other, on_bus_same by done. cbn [occupy bus_type bus_slots]. by rewrite (slot_ids_insert _ _ id E).
  - assert (bus_id c ≠ bus_id b) as Hne by (intros Heq; apply Hc; rewrite Heq; by apply list_elem_of_fmap_2).
    rewrite on_bus_ne, IH by done.
    by rewrite <- Permutation_middle.
Qed.

Lemma held_release (l : list Bus) id :
  NoDup (snd <$> held_ids l) → held_ids (release_bus id <$> l) = filter (λ x, x.2 ≠ id) (held_ids l).
Proof.
  induction l as [|b l IH]; [done|]. rewrite fmap_cons, !held_ids_cons.
  rewrite fmap_app, <- list_fmap_compose, NoDup_app. intros (N1 & _ & N2).
  assert (slot_ids (bus_slots b) = snd ∘ (bus_type b,.) <$> slot_ids (bus_slots b)) as Es
    by (symmetry; apply list_fmap_id).
  rewrite <- Es in N1. rewrite filter_app, IH by done. f_equal.
  cbn [release_bus bus_type bus_slots]. rewrite slot_ids_release by done. clear. induction (slot_ids (bus_slots b)) as [|x l IH]; [done|].
  rewrite fmap_cons, !filter_cons. cbn [snd]. destruct (decide (x ≠ id)); rewrite ?fmap_cons; by rewrite IH.
Qed.

(** ** Empty slots *)
Lemma bus_empty_slot_spec b i :
  bus_empty_slot b = Some i → 0 < i ∧ bus_slots b !! i = Some SlotEmpty.
Proof.
  unfold bus_empty_slot. destruct (bus_slots b) as [|s l]; [done|].
  intros ([j s'] & (? & ? & ?)%list_find_Some & ->)%fmap_Some. subst. split; [lia|done].
Qed.

Lemma first_empty_spec ty l bid i :
  first_empty ty l = Some (bid, i) →
  ∃ b, b ∈ l ∧ bus_id b = bid ∧ bus_type b = ty ∧ 0 < i ∧ bus_slots b !! i = Some SlotEmpty.
Proof.
  induction l as [|b l IH]; [done|]. simpl.
  destruct (if bool_decide _ then _ else _) as [j|] eqn:Ej.
  - intros [= <- <-]. case_bool_decide; [|done]. apply bus_empty_slot_spec in Ej as [? ?].
    exists b. repeat split; try done. by left.
  - intros (b' & ? & ?)%IH. exists b'. split; [by right|done].
Qed.

(** Slots of a type that can be used, and those in use. *)
Definition room (ty : BusType) (l : list Bus) : nat :=
  sum_list ((λ b, length (bus_slots b) - 1) <$> filter (λ b, bus_type b = ty) l).
Definition in_use (ty : BusType) (l : list Bus) : nat := length (filter (λ x, x.1 = ty) (held_ids l)).

Lemma slot_ids_length l : length (slot_ids l) ≤ length l.
Proof. induction l as [|s l IH]; [done|]. rewrite slot_ids_cons. destruct (slot_id s); simpl; lia. Qed.

Lemma slot_ids_full l :
  (∀ i s, l !! i = Some s → s ≠ SlotEmpty) → length (slot_ids l) = length l.
Proof.
  induction l as [|s l IH]; intros Hf; [done|]. destruct s as [|x]; [by destruct (Hf 0 SlotEmpty)|].
  rewrite slot_ids_cons. simpl. f_equal. apply IH. intros i. apply (Hf (S i)).
Qed.
Lemma slot_ids_not_full l i : l !! i = Some SlotEmpty → length (slot_ids l) < length l.
Proof.
  revert i. induction l as [|s l IH]; intros [|i] E; [done..| |]; rewrite slot_ids_cons.
  - injection E as ->. simpl. pose proof (slot_ids_length l). lia.
  - apply IH in E. destruct (slot_id s); simpl; lia.
Qed.

Lemma bus_room b :
  bus_slots b !! 0 = Some SlotEmpty →
  length (slot_ids (bus_slots b)) ≤ length (bus_slots b) - 1
  ∧ (bus_empty_slot b = None ↔ length (slot_ids (bus_slots b)) = length (bus_slots b) - 1).
Proof.
  unfold bus_empty_slot. destruct (bus_slots b) as [|s l]; [done|]. intros [= ->]. rewrite slot_ids_cons. cbn [slot_id length].
  replace (S (length l) - 1) with (length l) by lia. split; [apply slot_ids_length|]. rewrite fmap_None, list_find_None. split.
  - intros F. apply slot_ids_full. intros i s E. rewrite Forall_lookup in F. by apply (F i).
  - intros El. apply Forall_lookup. intros i s E ->. apply slot_ids_not_full in E. lia.
Qed.

Lemma in_use_cons ty b l :
  in_use ty (b :: l) = (if decide (bus_type b = ty) then length (slot_ids (bus_slots b)) else 0) + in_use ty l.
Proof.
  unfold in_use. rewrite held_ids_cons, filter_app, length_app. f_equal.
  induction (slot_ids (bus_slots b)) as [|x k IH]; [by destruct (decide _)|].
  rewrite fmap_cons, filter_cons. cbn [fst]. destruct (decide (bus_type b = ty)); cbn [length]; by rewrite IH.
Qed.
Lemma room_cons ty b l :
  room ty (b :: l) = (if decide (bus_type b = ty) then length (bus_slots b) - 1 else 0) + room ty l.
Proof. unfold room. rewrite filter_cons. by destruct (decide (bus_type b = ty)). Qed.

Lemma first_empty_room ty l :
  Forall (λ b, bus_slots b !! 0 = Some SlotEmpty) l →
  in_use ty l ≤ room ty l ∧ (first_empty ty l = None ↔ in_use ty l = room ty l).
Proof.
  induction 1 as [|b l Hb Hl [IH1 IH2]]; [done|]. rewrite in_use_cons, room_cons. cbn [first_empty].
  destruct (bus_room b Hb) as [H1 H2]. case_bool_decide as Ht.
  - rewrite !decide_True by done. destruct (bus_empty_slot b) as [i|].
    + assert (length (slot_ids (bus_slots b)) ≠ length (bus_slots b) - 1) by (intros E; by apply H2 in E).
      split; [lia|]. split; [done|]. intros. exfalso. lia.
    + destruct H2 as [H2 _]. specialize (H2 eq_refl). rewrite IH2. lia.
  - rewrite !decide_False by done. rewrite IH2. lia.
Qed.

Lemma in_use_perm ty l k : held_ids l ≡ₚ k → in_use ty l = length (filter (λ x, x.1 = ty) k).
Proof. intros E. unfold in_use. by rewrite E. Qed.
