(* ===== verification/QemuProps.v ===== *)
(** * QEMU: what hot plugging promises

    Over the life of a VM: created by the factory, given devices, started, and
    then any sequence of [hot_attach] and [hot_detach] with any answers of
    QEMU, a connection that ends included. *)
From S2P Require Import Prelude Strs Storage Types Metrics Disk Pool Continuation GuestScan Mount Frame Inject Annotations Box BlockImage StorageOps Handlers Sandboxer ChConfig Net QemuConfig QemuDriver QemuSlots.

(** ** Commands *)
Definition plugged {V} (s : QmpState V) : list DeviceAdd := qm_plugged (q_mach s).
Definition up {V} (s : QmpState V) : Prop := qm_open (q_mach s) = true.
Definition answering {V} (l : list Reply) (s : QmpState V) : QmpState V := mkQState (q_vm s) (q_mach s) l (q_sent s).

Inductive command_step (c : QmpCommand) (m : QMachine) : result unit QemuError → QMachine → Prop :=
  | cs_closed : qm_open m = false → command_step c m (Err QCommand) m
  | cs_done : qm_open m = true → command_step c m (Ok tt) (qmp_effect c m)
  | cs_refused : qm_open m = true → command_step c m (Err QCommand) m
  | cs_lost (e : bool) : qm_open m = true → command_step c m (Err QCommand) (hang_up (if e then qmp_effect c m else m))
  | cs_dropped : qm_open m = true → command_step c m (Ok tt) (hang_up (qmp_effect c m)).

Ltac run_replies s :=
  destruct s as [v m l sent]; unfold execute, delete_device, log_sent, next_reply, gets, modify, panic;
  unfold mbind, M_bind, mret, M_ret; simpl;
  destruct (qm_open m) eqn:Ho; simpl; [destruct l as [|[| |[]|[]|] l]; simpl|]; intros [= <- <-]; (split; [done|]).

Lemma execute_step {V} c (s : QmpState V) r s' :
  execute c s = Some (r, s') → q_vm s' = q_vm s ∧ command_step c (q_mach s) r (q_mach s').
Proof.
  run_replies s; simpl;
    first [by apply cs_closed | by apply cs_done | by apply cs_refused | by apply (cs_lost _ _ true)
          | by apply (cs_lost _ _ false) | by apply cs_dropped].
Qed.

Lemma effect_open c m : qm_open (qmp_effect c m) = qm_open m.
Proof. by destruct c. Qed.

Lemma step_plugged c m r m' :
  command_step c m r m' →
  (qm_open m' = true → qm_open m = true) ∧
  match r with
  | Ok _ => qm_open m = true ∧ qm_plugged m' = qm_plugged (qmp_effect c m)
  | Err _ => qm_plugged m' = qm_plugged m
      ∨ (qm_open m = true ∧ qm_open m' = false ∧ qm_plugged m' = qm_plugged (qmp_effect c m))
  end.
Proof. intros [Ho|Ho|Ho|[] Ho|Ho]; rewrite ?effect_open; naive_solver. Qed.

Inductive deletion_step (id : string) (m : QMachine) : result unit QemuError → QMachine → Prop :=
  | ds_command r m' : command_step (DeviceDel id) m r m' → deletion_step id m r m'
  | ds_dropped : qm_open m = true → deletion_step id m (Ok tt) (hang_up m).

Lemma delete_step {V} id (s : QmpState V) r s' :
  delete_device id s = Some (r, s') → q_vm s' = q_vm s ∧ deletion_step id (q_mach s) r (q_mach s').
Proof.
  run_replies s; simpl;
    first [by apply ds_dropped | apply ds_command;
     first [by apply cs_closed | by apply cs_done | by apply cs_refused | by apply (cs_lost _ _ true)
          | by apply (cs_lost _ _ false) | by apply cs_dropped | exact (cs_lost (DeviceDel id) m true Ho)]].
Qed.

(** ** Plugging one device *)
Definition qmp_add (d : HotDevice) (ty : BusType) (bus : string) (i : nat) : DeviceAdd :=
  match d with HBlock d => block_device_add d ty bus i | HChar d => char_device_add d end.
Definition qmp_id (d : HotDevice) : string := match d with HBlock d => block_qmp_id d | HChar d => cd_id d end.

(** A backend is added, the device, and on failure the backend is removed. *)
Lemma add_device_outcome {V} add cmd remove a (s : QmpState V) r s' :
  (∀ m, qm_plugged (qmp_effect add m) = qm_plugged m) →
  (∀ m, qm_plugged (qmp_effect remove m) = qm_plugged m) →
  cmd = CmdDeviceAdd a →
  (x ← execute add;
   match x with
   | Ok _ =>
       y ← execute cmd;
       match y with Ok _ => mret (Ok tt) | Err e => _ ← execute remove; mret (Err e) end
   | Err e => mret (Err e)
   end) s = Some (r, s') →
  q_vm s' = q_vm s ∧ (up s' → up s) ∧
  match r with
  | Ok _ => up s ∧ plugged s' = plugged s ++ [a]
  | Err _ => plugged s' = plugged s ∨ (up s ∧ ¬ up s' ∧ plugged s' = plugged s ++ [a])
  end.
Proof.
  intros Hadd Hrem -> E. unfold plugged, up.
  apply bind_inv in E as (x & s1 & E1 & E). apply execute_step in E1 as [Hv1 S1].
  apply step_plugged in S1 as [U1 S1]. rewrite Hadd in S1. destruct x as [[]|e1]; [|injection E as <- <-; naive_solver].
  destruct S1 as [Ho1 P1].
  apply bind_inv in E as (y & s2 & E2 & E). apply execute_step in E2 as [Hv2 S2].
  apply step_plugged in S2 as [U2 S2]. simpl in S2. rewrite P1 in S2.
  destruct y as [[]|e2]; [injection E as <- <-; naive_solver congruence|].
  apply bind_inv in E as (z & s3 & E3 & E). injection E as <- <-. apply execute_step in E3 as [Hv3 S3].
  apply step_plugged in S3 as [U3 S3]. rewrite Hrem in S3. rewrite Hv3, Hv2, Hv1. split; [done|]. split; [naive_solver|].
  assert (qm_plugged (q_mach s3) = qm_plugged (q_mach s2)) as -> by (destruct z; naive_solver).
  destruct S2 as [S2|(? & ? & S2)]; [naive_solver|]. right. split; [done|]. split; [|done].
  intros Hu. apply U3 in Hu. congruence.
Qed.

Lemma hot_attach_outcome d ty bus i s r s' :
  execute_hot_attach d ty bus i s = Some (r, s') →
  q_vm s' = q_vm s ∧ (up s' → up s) ∧
  match r with
  | Ok _ => up s ∧ plugged s' = plugged s ++ [qmp_add d ty bus i]
  | Err _ => plugged s' = plugged s ∨ (up s ∧ ¬ up s' ∧ plugged s' = plugged s ++ [qmp_add d ty bus i])
  end.
Proof.
  destruct d as [d|d]; cbn [execute_hot_attach qmp_add].
  - unfold block_hot_attach. destruct (bd_file d); [|done]. by apply add_device_outcome.
  - unfold char_hot_attach. destruct (negb _); [intros [= <- <-]; naive_solver|]. by apply add_device_outcome.
Qed.

(** A device is deleted, then its backend. *)
Lemma remove_device_outcome {V} c qid (s : QmpState V) r s' :
  (∀ m, qm_plugged (qmp_effect c m) = qm_plugged m) →
  (x ← delete_device qid; match x with Ok _ => execute c | Err e => mret (Err e) end) s = Some (r, s') →
  q_vm s' = q_vm s ∧ (up s' → up s) ∧
  let rest := filter (λ a, da_id a ≠ qid) (plugged s) in
  match r with
  | Ok _ => up s ∧ plugged s' = rest
  | Err _ => plugged s' = plugged s ∨ plugged s' = rest
  end.
Proof.
  intros Hc E. unfold plugged, up. apply bind_inv in E as (x & s1 & E1 & E).
  apply delete_step in E1 as [Hv1 D1].
  destruct x as [[]|e1]; [|injection E as <- <-; inversion D1 as [r0 m0 S1|]; subst; apply step_plugged in S1; naive_solver].
  apply execute_step in E as [Hv2 S2]. apply step_plugged in S2 as [U2 S2]. rewrite Hc in S2. rewrite Hv2, Hv1.
  split; [done|]. inversion D1 as [r0 m0 S1|Ho Er Em]; subst.
  - apply step_plugged in S1 as [U1 [Ho1 P1]]. simpl in P1. split; [naive_solver|].
    destruct r; [split; [done|]; rewrite <- P1; naive_solver|]. right. rewrite <- P1. naive_solver.
  - rewrite <- Em in S2, U2. simpl in *. split; [naive_solver|].
    destruct r; [naive_solver|]. left. destruct S2 as [S2|(? & _)]; [done|done].
Qed.

Lemma hot_detach_outcome d s r s' :
  execute_hot_detach d s = Some (r, s') →
  q_vm s' = q_vm s ∧ (up s' → up s) ∧
  let rest := filter (λ a, da_id a ≠ qmp_id d) (plugged s) in
  match r with
  | Ok _ => up s ∧ plugged s' = rest
  | Err _ => plugged s' = plugged s ∨ plugged s' = rest
  end.
Proof. destruct d as [d|d]; cbn [execute_hot_detach qmp_id]; by apply remove_device_outcome. Qed.

(** ** Addresses

    Where QEMU is asked to put a device: its bus and the arguments that name
    the place on it. *)
Definition place_arg (x : string * QValue) : bool :=
  bool_decide (x.1 = "addr") || bool_decide (x.1 = "scsi-id") || bool_decide (x.1 = "lun").
Definition qmp_address (a : DeviceAdd) : option (string * list (string * QValue)) :=
  bus ← da_bus a; Some (bus, filter (λ x, place_arg x = true) (da_args a)).

Lemma qmp_address_block d ty bus i :
  qmp_address (block_device_add d ty bus i) =
  Some (match ty with
        | SCSI => (bus +:+ ".0", [("scsi-id", QInt (N.of_nat i / 256)); ("lun", QInt (N.of_nat i `mod` 256))])
        | _ => (bus, [("addr", QStr (lower_hex2 (N.of_nat i)))])
        end).
Proof. destruct d as [? ? ? ? ? ? ? ? [] [] [] ?], ty; reflexivity. Qed.
Lemma qmp_address_char d : qmp_address (char_device_add d) = None.
Proof. done. Qed.

Lemma lower_hex2_byte n : (n < 256)%N → byte_of_hex (lower_hex2 n) = n.
Proof.
  intros Hn. assert (forallb (λ k, (byte_of_hex (lower_hex2 (N.of_nat k)) =? N.of_nat k)%N) (seq 0 256) = true) as F
    by (vm_compute; reflexivity).
  rewrite forallb_forall in F. apply N.eqb_eq. rewrite <- (N2Nat.id n). apply F. apply in_seq. lia.
Qed.

Lemma length_append (x y : string) : String.length (x +:+ y) = String.length x + String.length y.
Proof. induction x as [|a x IH]; [done|]. change (S (String.length (x +:+ y)) = S (String.length x) + String.length y). lia. Qed.

Lemma suffix_inj (x y z : string) : x +:+ z = y +:+ z → x = y.
Proof.
  revert y. induction x as [|a x IH]; intros [|b y] E; [done| | |].
  - apply (f_equal String.length) in E. rewrite !length_append in E. simpl in E. lia.
  - apply (f_equal String.length) in E. rewrite !length_append in E. simpl in E. lia.
  - injection E as -> E. by rewrite (IH y).
Qed.

Lemma block_place_inj d d' ty bus bus' i i' :
  i < 256 → i' < 256 →
  qmp_address (block_device_add d ty bus i) = qmp_address (block_device_add d' ty bus' i') → bus = bus' ∧ i = i'.
Proof.
  intros Hi Hi'. rewrite !qmp_address_block. intros [= E].
  assert (∀ a b, lower_hex2 (N.of_nat a) = lower_hex2 (N.of_nat b) → a < 256 → b < 256 → a = b) as Hinj.
  { intros a b Eab Ha Hb. apply (f_equal byte_of_hex) in Eab. rewrite !lower_hex2_byte in Eab by lia. lia. }
  destruct ty; simplify_eq; split; eauto.
  - by eapply suffix_inj.
  - match goal with H1 : (_ / 256)%N = _, H2 : (_ `mod` 256)%N = _ |- _ =>
      pose proof (N.div_mod (N.of_nat i) 256); pose proof (N.div_mod (N.of_nat i') 256); lia end.
Qed.

(** ** The invariant *)
Definition shape (b : Bus) : BusType * string * nat := (bus_type b, bus_id b, length (bus_slots b)).
Definition fair_shape (sh : list (BusType * string * nat)) : Prop :=
  NoDup ((λ x, x.1.2) <$> sh) ∧ Forall (λ x, x.2 ≤ 256) sh.
Abbreviation vm_buses v := (buses (qv_devices v)).
Definition hot_type (v : QemuVM) (d : HotDevice) : BusType :=
  match d with HBlock _ => to_bus_type (qv_block_driver v) | HChar _ => SERIAL end.
Abbreviation hot_ids v := (hot_id <$> qv_hot v).

Record slots_inv (sh : list (BusType * string * nat)) (v : QemuVM) : Prop := mkSlotsInv {
  si_shape : shape <$> vm_buses v = sh;
  si_first : Forall (λ b, bus_slots b !! 0 = Some SlotEmpty) (vm_buses v);
  si_held : held_ids (vm_buses v) ≡ₚ (λ d, (hot_type v d, hot_id d)) <$> qv_hot v;
  si_hot : NoDup (hot_ids v)
}.

(** A device QEMU has sits in the slot that records it. *)
Definition placed (v : QemuVM) (a : DeviceAdd) : Prop :=
  (∃ d, a = char_device_add d) ∨
  ∃ d b i, b ∈ vm_buses v ∧ bus_type b = to_bus_type (qv_block_driver v)
    ∧ bus_slots b !! i = Some (SlotOccupied (bd_id d)) ∧ a = block_device_add d (bus_type b) (bus_id b) i.

Record qemu_inv (sh : list (BusType * string * nat)) (s : QState) : Prop := mkQemuInv {
  qi_slots : slots_inv sh (q_vm s);
  qi_places : NoDup (omap qmp_address (plugged s));
  qi_placed : up s → Forall (placed (q_vm s)) (plugged s)
}.

Section inv.
Context (sh : list (BusType * string * nat)) (Hsh : fair_shape sh).

Lemma inv_ids v : slots_inv sh v → NoDup (bus_id <$> vm_buses v).
Proof. intros [E _ _ _]. destruct Hsh as [N _]. rewrite <- E, <- list_fmap_compose in N. done. Qed.

Lemma same_bus v b b' : slots_inv sh v → b ∈ vm_buses v → b' ∈ vm_buses v → bus_id b = bus_id b' → b = b'.
Proof.
  intros Hv Hb Hb' E. apply inv_ids in Hv.
  apply list_elem_of_lookup in Hb as [j Ej], Hb' as [j' Ej'].
  assert (j = j') as -> by (eapply NoDup_lookup; [done|..]; rewrite list_lookup_fmap, ?Ej, ?Ej'; simpl; by rewrite ?E).
  congruence.
Qed.

Lemma bus_index v b i s : slots_inv sh v → b ∈ vm_buses v → bus_slots b !! i = Some s → i < 256.
Proof.
  intros [E _ _ _] Hb Hi. destruct Hsh as [_ L]. rewrite Forall_forall in L.
  assert (length (bus_slots b) ≤ 256) by (apply (L (shape b)); rewrite <- E; by apply list_elem_of_fmap_2).
  apply lookup_lt_Some in Hi. lia.
Qed.

(** A free slot is a free place in QEMU. *)
Lemma place_free s d b i :
  qemu_inv sh s → up s → b ∈ vm_buses (q_vm s) → bus_type b = to_bus_type (qv_block_driver (q_vm s)) →
  bus_slots b !! i = Some SlotEmpty →
  ∀ x, qmp_address (block_device_add d (bus_type b) (bus_id b) i) = Some x → x ∉ omap qmp_address (plugged s).
Proof.
  intros [Hv _ Hp] Hu Hb Ht Hi x Ex (a & Ha & Ea)%list_elem_of_omap.
  specialize (Hp Hu). rewrite Forall_forall in Hp.
  destruct (Hp a Ha) as [[d' ->]|(d' & b' & i' & Hb' & Ht' & Hi' & ->)]; [done|].
  rewrite <- Ea in Ex. rewrite Ht' in Ex. rewrite Ht in Ex.
  apply block_place_inj in Ex as [Eb ->]; [|exact (bus_index _ _ _ _ Hv Hb Hi)|exact (bus_index _ _ _ _ Hv Hb' Hi')].
  rewrite (same_bus _ _ _ Hv Hb Hb' Eb) in Hi. congruence.
Qed.

Lemma new_place a (s : QState) :
  (∀ x, qmp_address a = Some x → x ∉ omap qmp_address (plugged s)) → NoDup (omap qmp_address (plugged s)) →
  NoDup (omap qmp_address (plugged s ++ [a])).
Proof.
  intros Hx N. rewrite omap_app. simpl. destruct (qmp_address a) as [x|] eqn:E; [|by rewrite app_nil_r].
  apply NoDup_app. split; [done|]. split; [|apply NoDup_singleton].
  intros y Hy ->%list_elem_of_singleton. by apply (Hx x).
Qed.

Lemma fewer_places (P : DeviceAdd → Prop) `{∀ a, Decision (P a)} l :
  NoDup (omap qmp_address l) → NoDup (omap qmp_address (filter P l)).
Proof.
  intros N. eapply sublist_NoDup; [done|]. clear N. induction l as [|a l IH]; [done|].
  rewrite filter_cons. destruct (decide (P a)); simpl; destruct (qmp_address a); solve [done|by constructor].
Qed.

(** ** Attaching *)
Definition add_hot (b : Bus) (i : nat) (d : HotDevice) (v : QemuVM) : QemuVM :=
  set_hot (qv_hot v ++ [d]) (set_devices_of (update_bus (bus_id b) (occupy i (hot_id d)) (qv_devices v)) v).

Lemma add_hot_slots v b i d :
  slots_inv sh v → b ∈ vm_buses v → bus_type b = hot_type v d → 0 < i → bus_slots b !! i = Some SlotEmpty →
  hot_id d ∉ hot_ids v → slots_inv sh (add_hot b i d v).
Proof.
  intros Hv Hb Ht Hpos Hi Hid. pose proof (inv_ids v Hv) as N. destruct Hv as [Es Ef Eh En].
  unfold add_hot. split; simpl; rewrite ?buses_update by done.
  - rewrite <- Es, <- list_fmap_compose. apply list_fmap_ext. intros k b' _. simpl. unfold on_bus.
    destruct (decide _); [|done]. unfold shape, occupy. simpl. by rewrite length_insert.
  - apply Forall_fmap. eapply Forall_impl; [done|]. intros b' Hf. simpl. unfold on_bus. destruct (decide _); [|done].
    simpl. by rewrite list_lookup_insert_ne by lia.
  - rewrite held_occupy by done. rewrite Eh, Ht, fmap_app. simpl.
    rewrite Permutation_app_comm. done.
  - rewrite fmap_app. apply NoDup_app. split; [done|]. split; [|apply NoDup_singleton].
    intros x Hx ->%list_elem_of_singleton. done.
Qed.

(** What is placed stays placed when its slot stays. *)
Definition keeps_slot (v v' : QemuVM) (x : string) : Prop :=
  ∀ b i, b ∈ vm_buses v → bus_slots b !! i = Some (SlotOccupied x) →
    ∃ b', b' ∈ vm_buses v' ∧ bus_type b' = bus_type b ∧ bus_id b' = bus_id b ∧ bus_slots b' !! i = Some (SlotOccupied x).

Lemma add_hot_keeps v b i d x : slots_inv sh v → b ∈ vm_buses v → bus_slots b !! i = Some SlotEmpty → keeps_slot v (add_hot b i d v) x.
Proof.
  intros Hv Hb Hi b1 i1 Hb1 Hi1. pose proof (inv_ids v Hv) as N.
  exists (on_bus (bus_id b) (occupy i (hot_id d)) b1). unfold add_hot. simpl. rewrite buses_update by done.
  split; [by apply list_elem_of_fmap_2|]. unfold on_bus. destruct (decide _) as [E|]; [|done]. simpl.
  do 2 (split; [done|]). rewrite (same_bus v b1 b Hv Hb1 Hb E) in Hi1 |- *.
  rewrite list_lookup_insert_ne; [done|]. intros ->. congruence.
Qed.

(** The driver decides the type of bus; no bus has another one's id. *)
Lemma attach_device_spec d s r s' :
  qemu_inv sh s → hot_id d ∉ hot_ids (q_vm s) →
  hot_attach_device d (hot_type (q_vm s) d) s = Some (r, s') →
  match r with
  | Ok (addr, i) => ∃ b, b ∈ vm_buses (q_vm s) ∧ bus_type b = hot_type (q_vm s) d ∧ 0 < i
      ∧ bus_slots b !! i = Some SlotEmpty ∧ addr = bus_addr b ∧ q_vm s' = add_hot b i d (q_vm s) ∧ up s
      ∧ plugged s' = plugged s ++ [qmp_add d (bus_type b) (bus_id b) i]
  | Err _ => q_vm s' = q_vm s
      ∧ (plugged s' = plugged s ∨ ∃ b i, up s ∧ ¬ up s' ∧ b ∈ vm_buses (q_vm s) ∧ bus_type b = hot_type (q_vm s) d
           ∧ bus_slots b !! i = Some SlotEmpty ∧ plugged s' = plugged s ++ [qmp_add d (bus_type b) (bus_id b) i])
  end ∧ (up s' → up s).
Proof.
  intros [Hv Hn Hp] Hid. unfold hot_attach_device. intros E. apply bind_inv in E as (v & s0 & [= <- <-] & E).
  destruct (first_empty _ _) as [[bid i]|] eqn:Ef; [|injection E as <- <-; naive_solver].
  apply first_empty_spec in Ef as (b & Hb & <- & Ht & Hpos & Hi).
  apply bind_inv in E as (c & s1 & Ec & E). unfold get_qmp_client in Ec. apply bind_inv in Ec as (? & ? & [= <- <-] & Ec).
  injection Ec as <- <-. destruct (qv_client _); [|injection E as <- <-; naive_solver].
  apply bind_inv in E as (x & s2 & E2 & E). apply hot_attach_outcome in E2 as (Hv2 & Hu2 & P2). rewrite <- Ht in P2.
  destruct x as [[]|]; [|injection E as <- <-; split; [|done]; split; [done|];
    destruct P2 as [?|(? & ? & ?)]; [by left|right; exists b, i; done]].
  apply bind_inv in E as (y & s3 & E3 & E). unfold attach_to_bus in E3.
  apply bind_inv in E3 as (? & ? & [= <- <-] & E3). rewrite Hv2 in E3.
  destruct (list_find _ _) as [[j b']|] eqn:Ej.
  - apply list_find_Some in Ej as (Hj & Eb & _). apply list_elem_of_lookup_2 in Hj.
    assert (b' = b) as -> by (by apply (same_bus (q_vm s))).
    apply bind_inv in E3 as (? & s4 & [= <- <-] & E3). injection E3 as <- <-.
    apply bind_inv in E as (? & s5 & [= <- <-] & E). injection E as <- <-. split; [|done].
    exists b. unfold add_hot. simpl. rewrite Hv2. naive_solver.
  - apply list_find_None in Ej. rewrite Forall_forall in Ej. by destruct (Ej b Hb).
Qed.

Lemma attach_device_inv d s r s' :
  qemu_inv sh s → hot_id d ∉ hot_ids (q_vm s) →
  hot_attach_device d (hot_type (q_vm s) d) s = Some (r, s') → qemu_inv sh s'.
Proof.
  intros Hs Hid E. pose proof (attach_device_spec d s r s' Hs Hid E) as [Hr Hu]. pose proof Hs as [Hv Hn Hp].
  assert (∀ b i, up s → b ∈ vm_buses (q_vm s) → bus_type b = hot_type (q_vm s) d → bus_slots b !! i = Some SlotEmpty →
    NoDup (omap qmp_address (plugged s ++ [qmp_add d (bus_type b) (bus_id b) i]))) as Hnew.
  { intros b i Hs_up Hb Ht Hi. apply new_place; [|done]. destruct d as [d|d]; [|by intros x Hx].
    apply place_free; try done. }
  destruct r as [[addr i]|e].
  - destruct Hr as (b & Hb & Ht & Hpos & Hi & _ & Ev & Hsu & Ep). split.
    + rewrite Ev. by apply add_hot_slots.
    + rewrite Ep. by apply Hnew.
    + intros _. rewrite Ep, Ev. apply Forall_app. split.
      * specialize (Hp Hsu). eapply Forall_impl; [exact Hp|]. intros a [[d' ->]|(d' & b1 & i1 & Hb1 & Ht1 & Hi1 & ->)]; [left; eauto|].
        destruct (add_hot_keeps (q_vm s) b i d _ Hv Hb Hi b1 i1 Hb1 Hi1) as (b2 & Hb2 & Et & Eb & Hi2).
        right. exists d', b2, i1. rewrite Et, Eb. done.
      * apply Forall_singleton. destruct d as [d|d]; [|left; by exists d]. right.
        exists d, (on_bus (bus_id b) (occupy i (bd_id d)) b), i. unfold add_hot. simpl.
        rewrite buses_update by (by apply inv_ids). split; [by apply list_elem_of_fmap_2|].
        rewrite on_bus_same. simpl. split; [done|]. split; [|done].
        apply list_lookup_insert_eq. by eapply lookup_lt_Some.
  - destruct Hr as [Ev [Ep|(b & i & Hsu & Hdown & Hb & Ht & Hi & Ep)]].
    + split; rewrite ?Ev, ?Ep; try done. intros Hup. apply Hp. by apply Hu.
    + split; rewrite ?Ev, ?Ep; try done. by apply Hnew.
Qed.

(** ** Detaching *)
Lemma take_hot_split id l d rest :
  take_hot id l = Some (d, rest) → ∃ l1 l2, l = l1 ++ d :: l2 ∧ rest = l1 ++ l2 ∧ hot_id d = id.
Proof.
  revert d rest. induction l as [|x l IH]; intros d rest; simpl; [done|]. case_bool_decide.
  - intros [= <- <-]. by exists [], l.
  - destruct (take_hot id l) as [[y k]|]; [|done]. intros [= <- <-].
    destruct (IH _ _ eq_refl) as (l1 & l2 & -> & -> & ?). by exists (x :: l1), l2.
Qed.
Lemma take_hot_none id l : take_hot id l = None → id ∉ hot_id <$> l.
Proof.
  induction l as [|x l IH]; simpl; [intros _; apply not_elem_of_nil|]. case_bool_decide; [done|].
  destruct (take_hot id l) as [[y k]|]; [done|]. intros _. apply not_elem_of_cons. split; [congruence|by apply IH].
Qed.

(** A device that was moved to the end of the list. *)
Lemma moved_perm {A} (l1 l2 : list A) x : (l1 ++ l2) ++ [x] ≡ₚ l1 ++ x :: l2.
Proof. rewrite <- (Permutation_middle l1 l2 x). symmetry. apply Permutation_cons_append. Qed.

Lemma slots_inv_moved v d l1 l2 :
  qv_hot v = l1 ++ d :: l2 → slots_inv sh v → slots_inv sh (set_hot ((l1 ++ l2) ++ [d]) v).
Proof.
  intros Eh [Es Ef Ehd En].
  assert ((l1 ++ l2) ++ [d] ≡ₚ qv_hot v) as P by (rewrite Eh; apply moved_perm).
  split; simpl; [done..| |]; rewrite P; done.
Qed.

Definition drop_hot (id : string) (rest : list HotDevice) (v : QemuVM) : QemuVM :=
  set_devices_of (release_device id <$> qv_devices v) (set_hot rest v).

Lemma drop_hot_slots v d l1 l2 :
  qv_hot v = l1 ++ d :: l2 → slots_inv sh v → slots_inv sh (drop_hot (hot_id d) (l1 ++ l2) v).
Proof.
  intros Eh [Es Ef Ehd En].
  assert (NoDup (snd <$> held_ids (vm_buses v))) as Nd
    by (rewrite Ehd, <- list_fmap_compose; done).
  rewrite Eh, fmap_app, fmap_cons in En. apply NoDup_app in En as (N1 & N12 & [Hd N2]%NoDup_cons).
  assert (∀ l : list HotDevice, hot_id d ∉ hot_id <$> l →
    filter (λ x, x.2 ≠ hot_id d) ((λ d, (hot_type v d, hot_id d)) <$> l) = (λ d, (hot_type v d, hot_id d)) <$> l) as Hkeep.
  { intros l Hl. apply filter_keep, Forall_fmap, Forall_forall. intros x Hx E. apply Hl. simpl in E. rewrite <- E.
    by apply list_elem_of_fmap_2. }
  unfold drop_hot. split; simpl; rewrite ?buses_release.
  - rewrite <- Es, <- list_fmap_compose. apply list_fmap_ext. intros k b _. unfold shape. simpl.
    by rewrite release_slot_length.
  - apply Forall_fmap. eapply Forall_impl; [done|]. intros b Hf. simpl. by apply release_slot_empty.
  - rewrite held_release by done. rewrite Ehd, Eh, !fmap_app, filter_app, fmap_cons, filter_cons.
    cbn [snd]. rewrite decide_False by naive_solver. rewrite !Hkeep; [done|done|].
    intros Hx. apply (N12 (hot_id d)); [done|by left].
  - rewrite fmap_app. apply NoDup_app. split; [done|]. split; [|done]. intros x Hx Hx2. apply (N12 x Hx). by right.
Qed.

Lemma drop_hot_keeps v rest id x : x ≠ id → keeps_slot v (drop_hot id rest v) x.
Proof.
  intros Hx b i Hb Hi. exists (release_bus id b). unfold drop_hot. simpl. rewrite buses_release.
  split; [by apply list_elem_of_fmap_2|]. do 2 (split; [done|]). simpl. by apply release_slot_lookup.
Qed.

(** A block device that QEMU has is not the detached one. *)
Lemma detached_slot v d a d' b i :
  slots_inv sh v → d ∈ qv_hot v → b ∈ vm_buses v → bus_type b = to_bus_type (qv_block_driver v) →
  bus_slots b !! i = Some (SlotOccupied (bd_id d')) → a = block_device_add d' (bus_type b) (bus_id b) i →
  da_id a ≠ qmp_id d → bd_id d' ≠ hot_id d.
Proof.
  intros [Es Ef Ehd En] Hd Hb Ht Hi -> Hq E.
  assert ((bus_type b, bd_id d') ∈ held_ids (vm_buses v)) as Hh by (apply elem_of_held; eauto).
  rewrite Ehd in Hh. apply list_elem_of_fmap in Hh as (x & [= Ex1 Ex2] & Hx).
  assert (x = d) as ->.
  { apply list_elem_of_lookup in Hx as [j Ej], Hd as [j' Ej'].
    assert (j = j') as -> by (apply (NoDup_lookup (hot_ids v) j j' (hot_id d)); [done|rewrite list_lookup_fmap, Ej; simpl; congruence|by rewrite list_lookup_fmap, Ej']).
    congruence. }
  destruct d as [d|d]; [|rewrite Ht in Ex1; by destruct (qv_block_driver v)].
  apply Hq. simpl in *. unfold block_qmp_id. by rewrite E.
Qed.

Lemma detach_spec id s r s' :
  qemu_inv sh s → qemu_hot_detach id s = Some (r, s') →
  qemu_inv sh s' ∧ qv_block_driver (q_vm s') = qv_block_driver (q_vm s) ∧ qv_client (q_vm s') = qv_client (q_vm s)
  ∧ match r with
    | Ok _ => id ∉ hot_ids (q_vm s') ∧ Forall (λ x, x ∈ qv_hot (q_vm s)) (qv_hot (q_vm s'))
    | Err _ => qv_hot (q_vm s') ≡ₚ qv_hot (q_vm s)
    end.
Proof.
  intros [Hv Hn Hp]. unfold qemu_hot_detach. intros E. apply bind_inv in E as (v & s0 & [= <- <-] & E).
  destruct (take_hot _ _) as [[d rest]|] eqn:Et;
    [|injection E as <- <-; split; [done|]; do 2 (split; [done|]); split; [by apply take_hot_none|by apply Forall_forall]].
  apply take_hot_split in Et as (l1 & l2 & Eh & -> & Eid).
  assert ((l1 ++ l2) ++ [d] ≡ₚ qv_hot (q_vm s)) as P
    by (rewrite Eh; apply moved_perm).
  assert (d ∈ qv_hot (q_vm s)) as Hd by (rewrite Eh, elem_of_app; right; by left).
  assert (∀ s2, plugged s2 = plugged s ∨ plugged s2 = filter (λ a, da_id a ≠ qmp_id d) (plugged s) → (up s2 → up s) →
    q_vm s2 = set_hot ((l1 ++ l2) ++ [d]) (q_vm s) → qemu_inv sh s2) as Hback.
  { intros s2 Hp2 Hu2 Ev. split; [rewrite Ev; by apply slots_inv_moved| |].
    - destruct Hp2 as [->| ->]; [done|]. by apply fewer_places.
    - intros Hup. specialize (Hp (Hu2 Hup)). rewrite Ev. destruct Hp2 as [->| ->]; [exact Hp|].
      rewrite Forall_forall in Hp. apply Forall_forall. intros a [_ Ha]%list_elem_of_filter. exact (Hp a Ha). }
  apply bind_inv in E as (? & s1 & [= <- <-] & E). apply bind_inv in E as (c & s2 & Ec & E).
  unfold get_qmp_client in Ec. apply bind_inv in Ec as (? & ? & [= <- <-] & Ec). injection Ec as <- <-.
  simpl in E. destruct (qv_client (q_vm s)) eqn:Ecl.
  2:{ apply bind_inv in E as (? & s3 & [= <- <-] & E). injection E as <- <-. split; [apply Hback; [by left|done|done]|done]. }
  apply bind_inv in E as (x & s3 & E3 & E). apply hot_detach_outcome in E3 as (Hv3 & Hu3 & P3). simpl in Hv3.
  destruct x as [[]|].
  - apply bind_inv in E as (? & s4 & [= <- <-] & E). injection E as <- <-.
    destruct P3 as [Hup P3]. change (up s) in Hup. change (plugged s3 = filter (λ a, da_id a ≠ qmp_id d) (plugged s)) in P3.
    assert (q_vm (set_qvm (λ v, set_devices_of (release_device id <$> qv_devices v) v) s3) = drop_hot (hot_id d) (l1 ++ l2) (q_vm s)) as Ev
      by (simpl; by rewrite Hv3, Eid).
    pose proof (drop_hot_slots _ _ _ _ Eh Hv) as Hv'.
    split; [|rewrite Ev; do 2 (split; [done|]); split].
    + split; [by rewrite Ev| |].
      * change (NoDup (omap qmp_address (plugged s3))). rewrite P3. by apply fewer_places.
      * intros _. change (Forall (placed (q_vm (set_qvm (λ v, set_devices_of (release_device id <$> qv_devices v) v) s3))) (plugged s3)).
        rewrite Ev, P3. specialize (Hp Hup). rewrite Forall_forall in Hp. apply Forall_forall.
        intros a [Hq Ha]%list_elem_of_filter.
        destruct (Hp a Ha) as [[d' ->]|(d' & b1 & i1 & Hb1 & Ht1 & Hi1 & Ea)]; [left; eauto|].
        pose proof (detached_slot _ _ _ _ _ _ Hv Hd Hb1 Ht1 Hi1 Ea Hq) as Hne.
        destruct (drop_hot_keeps (q_vm s) (l1 ++ l2) (hot_id d) (bd_id d') Hne b1 i1 Hb1 Hi1) as (b2 & Hb2 & Et & Eb & Hi2).
        right. exists d', b2, i1. rewrite Et, Eb. done.
    + simpl. rewrite <- Eid. pose proof (si_hot _ _ Hv) as En. rewrite Eh, fmap_app, fmap_cons in En.
      apply NoDup_app in En as (_ & N12 & [Hx _]%NoDup_cons). rewrite fmap_app, elem_of_app.
      intros [?|?]; [|done]. apply (N12 (hot_id d)); [done|by left].
    + simpl. rewrite Eh. apply Forall_forall. intros y. rewrite !elem_of_app, elem_of_cons. naive_solver.
  - apply bind_inv in E as (? & s4 & [= <- <-] & E). injection E as <- <-. simpl. rewrite Hv3. simpl.
    split; [|done]. apply Hback; [exact P3|exact Hu3|]. simpl. by rewrite Hv3.
Qed.
End inv.
