(* ===== verification/QemuLife.v ===== *)
(** * QEMU: the life of a VM

    From the factory over the start to any sequence of plugging and
    unplugging; the properties of hot plugging, and how a start that failed
    and a detach that failed are left. *)
From S2P Require Import Prelude Strs Storage Types Metrics Disk Pool Continuation GuestScan Mount Frame Inject Annotations Box BlockImage StorageOps Handlers Sandboxer ChConfig Net QemuConfig QemuDriver QemuSlots QemuProps.

(** ** The buses of a VM *)
Definition created_buses (c : QemuVMConfig) : list Bus :=
  (br_bus <$> create_bridges (qc_default_bridges c) (qc_machine_type c)) ++
  match qc_block_device_driver c with VirtioScsi => [sc_bus (ScsiController_new "scsi0" TPci)] | _ => [] end ++
  [se_bus (SerialBridge_new "serial0" TPci)].

(** What the steps up to the start leave alone. *)
Definition same_plugging (v v' : QemuVM) : Prop :=
  vm_buses v' = vm_buses v ∧ qv_hot v' = qv_hot v ∧ qv_block_driver v' = qv_block_driver v.

Lemma same_refl v : same_plugging v v.
Proof. done. Qed.
Lemma same_trans v1 v2 v3 : same_plugging v1 v2 → same_plugging v2 v3 → same_plugging v1 v3.
Proof. intros (? & ? & ?) (? & ? & ?). repeat split; congruence. Qed.
Lemma same_attach d v : device_bus d = None → same_plugging v (attach_device d v).
Proof. intros E. split; [|done]. simpl. rewrite buses_app. simpl. rewrite E. by rewrite app_nil_r. Qed.
Lemma same_attach_if b d v : device_bus d = None → same_plugging v (attach_if b d v).
Proof. destruct b; [apply same_attach|done]. Qed.

Create HintDb plugging.
#[export] Hint Resolve same_refl same_attach same_attach_if : plugging.

Lemma attach_bus v d b : device_bus d = Some b →
  vm_buses (attach_device d v) = vm_buses v ++ [b] ∧ qv_hot (attach_device d v) = qv_hot v
  ∧ qv_block_driver (attach_device d v) = qv_block_driver v.
Proof. intros E. split; [|done]. simpl. rewrite buses_app. simpl. by rewrite E. Qed.

Lemma attach_bridges l v :
  let v' := foldl (λ v b, attach_device (QBridge b) v) v l in
  vm_buses v' = vm_buses v ++ (br_bus <$> l) ∧ qv_hot v' = qv_hot v ∧ qv_block_driver v' = qv_block_driver v.
Proof.
  revert v. induction l as [|b l IH]; intros v; simpl; [by rewrite app_nil_r|].
  destruct (IH (attach_device (QBridge b) v)) as (E & ? & ?). split; [|done].
  rewrite E. simpl. rewrite buses_app. simpl. by rewrite <- app_assoc.
Qed.

Lemma append_fds_same fds v : same_plugging v (qemu_append_fds fds v).2.
Proof.
  revert v. induction fds as [|fd fds IH]; intros v; [done|]. cbn [qemu_append_fds qemu_append_fd].
  specialize (IH (set_qemu_fds (qv_fds v ++ [fd]) v)). by destruct (qemu_append_fds _ _).
Qed.

Lemma channel_same c base vs v v' : attach_channel c base vs v = Ok v' → same_plugging v v'.
Proof.
  unfold attach_channel. destruct (qc_use_vsock c); [destruct vs as [[fd cid]|]; [|done]|]; intros [= <-];
    (split; [|done]); simpl; rewrite buses_app; simpl; by rewrite app_nil_r.
Qed.
Lemma share_fs_same c base v v' : attach_share_fs c base v = Ok v' → same_plugging v v'.
Proof.
  unfold attach_share_fs. destruct (qc_share_fs c); [intros [= <-]; by apply same_attach|].
  destruct (qc_virtiofsd c); [|done]. intros [= <-].
  by apply (same_attach_if _ _ (set_qemu_virtiofsd _ v)).
Qed.
Lemma image_same c v v' : attach_guest_image c v = Ok v' → same_plugging v v'.
Proof.
  unfold attach_guest_image. case_bool_decide; [by intros [= <-]|]. destruct (qc_disable_nvdimm c); [|done].
  intros [= <-]. by apply same_attach.
Qed.

Lemma create_vm_buses c host vs mk uuid id netns base v :
  qemu_create_vm c host vs mk uuid id netns base = Ok v →
  vm_buses v = created_buses c ∧ qv_hot v = [] ∧ qv_block_driver v = qc_block_device_driver c.
Proof.
  unfold qemu_create_vm. destruct (to_qemu_config host c) as [q|]; [|done].
  set (v0 := QemuVM_new _ _ _ _ _). destruct (attach_bridges (create_bridges (qc_default_bridges c) (qc_machine_type c)) v0) as (B1 & H1 & D1).
  set (v1 := foldl _ _ _) in *.
  set (v2 := match qc_block_device_driver c with VirtioScsi => _ | _ => _ end).
  assert (vm_buses v2 = (br_bus <$> create_bridges (qc_default_bridges c) (qc_machine_type c)) ++
    match qc_block_device_driver c with VirtioScsi => [sc_bus (ScsiController_new "scsi0" TPci)] | _ => [] end
    ∧ qv_hot v2 = [] ∧ qv_block_driver v2 = qc_block_device_driver c) as (B2 & H2 & D2).
  { unfold v2. destruct (qc_block_device_driver c) eqn:Ed; try (rewrite B1, H1, D1; simpl; by rewrite app_nil_r).
    destruct (attach_bus v1 (QScsi (ScsiController_new "scsi0" TPci)) _ eq_refl) as (-> & -> & ->).
    by rewrite B1, H1, D1. }
  destruct (attach_bus v2 (QSerial (SerialBridge_new "serial0" TPci)) _ eq_refl) as (B3 & H3 & D3).
  set (v3 := attach_device (QSerial _) v2) in *.
  destruct (attach_channel _ _ _ _) as [v4|] eqn:E4; [|done]. destruct mk; [|done]. simpl.
  destruct (attach_share_fs _ _ _) as [v5|] eqn:E5; [|done]. intros E6.
  apply channel_same in E4. apply share_fs_same in E5. apply image_same in E6.
  assert (same_plugging v3 v) as (B & Hh & D).
  { eapply same_trans; [|eapply same_trans; [exact E5|exact E6]]. eapply same_trans; [|exact E4].
    eapply same_trans; [|by apply same_attach_if]. by apply same_attach. }
  rewrite B, Hh, D, B3, H3, D3, B2, H2, D2. unfold created_buses. by rewrite <- app_assoc.
Qed.

Lemma attach_same info v : same_plugging v (qemu_attach info v).
Proof.
  destruct info; cbn [qemu_attach]; try by apply same_attach.
  pose proof (append_fds_same fds v) as S. destruct (qemu_append_fds fds v) as [idx v'].
  eapply same_trans; [exact S|]. by apply same_attach.
Qed.
Lemma attach_all_same l v : same_plugging v (foldl (λ v i, qemu_attach i v) v l).
Proof.
  revert v. induction l as [|i l IH]; intros v; [done|]. simpl. eapply same_trans; [apply attach_same|apply IH].
Qed.

Lemma start_same `{ParamOrder} o v n v' l : qemu_start o v = Some (Ok n, v', l) → same_plugging v v' ∧ qv_client v' = true.
Proof.
  unfold qemu_start. destruct (match qv_virtiofsd v with None => _ | Some _ => _ end) as [v1|] eqn:E1; [|done].
  assert (same_plugging v v1) as S1.
  { destruct (qv_virtiofsd v); [|by injection E1 as <-]. apply bind_Some in E1 as (pid & _ & [= <-]). done. }
  destruct (launch_params v1); [|done]. simpl. destruct (so_launch o); [|done]. simpl.
  destruct (connect_qmp _); [|done]. destruct (detect_pid _ _ _); [|done]. intros [= <- <- <-].
  split; [|done]. eapply same_trans; [exact S1|]. done.
Qed.

(** The buses of the factory: distinct ids, empty, at most 64 slots. *)
Lemma created_fair c : fair_shape (shape <$> created_buses c) ∧ held_ids (created_buses c) = []
  ∧ Forall (λ b, bus_slots b !! 0 = Some SlotEmpty) (created_buses c).
Proof.
  unfold created_buses. set (drv := match qc_block_device_driver c with VirtioScsi => _ | _ => _ end).
  set (l := N.of_nat <$> seq 0 (N.to_nat (qc_default_bridges c))).
  assert (∃ ty d bus, br_bus <$> create_bridges (qc_default_bridges c) (qc_machine_type c) = (λ i, br_bus (create_bridge ty d bus i)) <$> l
    ∧ (ty = "pci" ∨ ty = "pcie")) as (ty & d & bus & -> & Hty).
  { unfold create_bridges. case_bool_decide; do 3 eexists; (split; [by rewrite <- list_fmap_compose|naive_solver]). }
  assert (NoDup l) as Nl by (apply NoDup_fmap; [intros ? ? ?; by apply Nat2N.inj|apply NoDup_seq]).
  assert (∀ b, b ∈ drv ++ [se_bus (SerialBridge_new "serial0" TPci)] →
    (bus_id b = "scsi0" ∨ bus_id b = "serial0") ∧ length (bus_slots b) ≤ 256 ∧ bus_slots b !! 0 = Some SlotEmpty
      ∧ slot_ids (bus_slots b) = []) as Htail.
  { intros b. unfold drv. destruct (qc_block_device_driver c); simpl; rewrite ?elem_of_cons, elem_of_nil;
      intros; destruct_or?; subst; try done; simpl; repeat split; try lia; tauto. }
  assert (NoDup (bus_id <$> drv ++ [se_bus (SerialBridge_new "serial0" TPci)])) as Nt.
  { unfold drv. destruct (qc_block_device_driver c); simpl; repeat (apply NoDup_cons; split; [set_solver|]); apply NoDup_nil_2. }
  repeat split.
  - rewrite <- list_fmap_compose. rewrite fmap_app. apply NoDup_app. split; [|split; [|exact Nt]].
    + rewrite <- list_fmap_compose. apply NoDup_fmap; [|done]. intros x y E. simpl in E. simplify_eq. done.
    + intros x (b & -> & (i & -> & _)%list_elem_of_fmap)%list_elem_of_fmap (b' & E & Hb')%list_elem_of_fmap.
      destruct (Htail b' Hb') as [[Eb|Eb] _]; simpl in E; rewrite Eb in E; destruct Hty as [-> | ->]; simpl in E; done.
  - apply Forall_fmap, Forall_app. split; [|apply Forall_forall; intros b Hb; simpl; by apply Htail].
    apply Forall_fmap, Forall_forall. intros i _. simpl. lia.
  - assert (∀ bs, (∀ b, b ∈ bs → slot_ids (bus_slots b) = []) → held_ids bs = []) as Hh.
    { induction bs as [|b bs IH]; [done|]. intros Hb. rewrite held_ids_cons, (Hb b), IH; [done| |by left].
      intros b' ?. apply Hb. by right. }
    apply Hh. intros b [(i & -> & _)%list_elem_of_fmap|Hb]%elem_of_app; [done|]. by apply Htail.
  - apply Forall_app. split; [|apply Forall_forall; intros b Hb; by apply Htail].
    apply Forall_fmap, Forall_forall. by intros i _.
Qed.

(** ** Runs *)
Definition info_id (info : QemuDeviceInfo) : string :=
  match info with
  | QBlockInfo i _ _ | QTapInfo i _ _ _ | QPhysicalInfo i _ | QVhostUserInfo i _ _ _ | QCharInfo i _ _ _ => i
  end.
Definition sized (cpu_period cpu_quota memory_limit : Z) (v : QemuVM) : QemuVM :=
  set_qemu_config (qemu_process_config cpu_period cpu_quota memory_limit (qv_config v)) v.

Inductive qemu_run `{ParamOrder} (c : QemuVMConfig) : QState → Prop :=
  | run_started host vs uuid id netns base v0 infos p q m o n v l :
      qemu_create_vm c host vs true uuid id netns base = Ok v0 →
      qemu_start o (sized p q m (foldl (λ v i, qemu_attach i v) v0 infos)) = Some (Ok n, v, l) →
      qemu_run c (mkQState v (mkQMachine true [] [] []) [] [])
  | run_attach s info replies r s' :
      qemu_run c s → info_id info ∉ hot_ids (q_vm s) →
      qemu_hot_attach info (answering replies s) = Some (r, s') → qemu_run c s'
  | run_detach s id replies r s' :
      qemu_run c s → qemu_hot_detach id (answering replies s) = Some (r, s') → qemu_run c s'.

Record run_inv (c : QemuVMConfig) (s : QState) : Prop := mkRunInv {
  ri_inv : qemu_inv (shape <$> created_buses c) s;
  ri_driver : qv_block_driver (q_vm s) = qc_block_device_driver c;
  ri_client : qv_client (q_vm s) = true
}.

Lemma answering_inv sh l s : qemu_inv sh s → qemu_inv sh (answering l s).
Proof. by intros [? ? ?]. Qed.

(** A hot attach is one of a device, or an error without a command. *)
Lemma hot_attach_inv info s r s' :
  qemu_hot_attach info s = Some (r, s') →
  (∃ e, r = Err e ∧ s' = s) ∨
  ∃ d x, hot_id d = info_id info ∧ hot_attach_device d (hot_type (q_vm s) d) s = Some (x, s').
Proof.
  unfold qemu_hot_attach. intros E. apply bind_inv in E as (v & s0 & [= <- <-] & E).
  destruct info as [i p ro| | | |i ch name be]; try (injection E as <- <-; left; eauto; fail); right.
  - apply bind_inv in E as (x & s1 & E1 & E). destruct x as [[addr n]|e].
    + injection E as <- <-. exists (HBlock (VirtioBlockDevice_new "" i (Some p) ro)), (Ok (addr, n)). done.
    + injection E as <- <-. exists (HBlock (VirtioBlockDevice_new "" i (Some p) ro)), (Err e). done.
  - apply bind_inv in E as (x & s1 & E1 & E). exists (HChar (new_with_backend_type be i ch VIRT_SERIAL_PORT_DRIVER (Some name))), x.
    split; [by destruct be|]. destruct x; injection E as <- <-; exact E1.
Qed.

Lemma attach_keeps_driver d s r s' sh :
  fair_shape sh → qemu_inv sh s → hot_id d ∉ hot_ids (q_vm s) → hot_attach_device d (hot_type (q_vm s) d) s = Some (r, s') →
  qv_block_driver (q_vm s') = qv_block_driver (q_vm s) ∧ qv_client (q_vm s') = qv_client (q_vm s).
Proof.
  intros Hsh Hs Hid E. destruct (attach_device_spec _ Hsh _ _ _ _ Hs Hid E) as [Hr _].
  destruct r as [[addr i]|]; [destruct Hr as (b & _ & _ & _ & _ & _ & -> & _)|destruct Hr as [-> _]]; done.
Qed.

Lemma run_invariant `{ParamOrder} c s : qemu_run c s → run_inv c s.
Proof.
  destruct (created_fair c) as (Hsh & Hheld & Hfirst).
  induction 1 as [host vs uuid id netns base v0 infos p q m o n v l E1 E2|s info replies r s' _ [IH Hd Hc] Hid E|s id replies r s' _ [IH Hd Hc] E].
  - apply create_vm_buses in E1 as (B1 & H1 & D1). apply start_same in E2 as [S2 Hc].
    pose proof (attach_all_same infos v0) as S1.
    assert (same_plugging v0 v) as (B & Hh & D) by (eapply same_trans; [exact S1|exact S2]).
    split; [|simpl; congruence|done]. split; simpl; [|apply NoDup_nil_2|by intros _].
    split; simpl; rewrite ?B, ?Hh, ?B1, ?H1; try done; [by rewrite Hheld|apply NoDup_nil_2].
  - apply (answering_inv _ replies) in IH. apply hot_attach_inv in E as [(e & -> & ->)|(d & x & Ed & E)]; [done|].
    rewrite <- Ed in Hid. destruct (attach_keeps_driver _ _ _ _ _ Hsh IH Hid E) as [Hd' Hc'].
    split; [by eapply attach_device_inv|by rewrite Hd'|by rewrite Hc'].
  - apply (answering_inv _ replies) in IH. destruct (detach_spec (shape <$> created_buses c) id _ r s' IH E) as (Hs' & Hd' & Hc' & _).
    split; [done|by rewrite Hd'|by rewrite Hc'].
Qed.

(** No bus takes devices of the driver [VirtioMmio]. *)
Lemma run_bus_type `{ParamOrder} c s b : qemu_run c s → b ∈ vm_buses (q_vm s) → bus_type b ≠ NULL.
Proof.
  intros Hrun Hb Ht. destruct (run_invariant _ _ Hrun) as [[[Es _ _ _] _ _] _ _].
  apply (list_elem_of_fmap_2 shape) in Hb. rewrite Es in Hb. apply list_elem_of_fmap in Hb as (b' & [= Et _ _] & Hb').
  rewrite Ht in Et. unfold created_buses, create_bridges in Hb'. rewrite !elem_of_app in Hb'.
  destruct Hb' as [Hb'|[Hb'|Hb']].
  - destruct (if bool_decide _ then _ else _) as [[ty d] bus].
    apply list_elem_of_fmap in Hb' as (x & -> & (y & -> & _)%list_elem_of_fmap). done.
  - destruct (qc_block_device_driver c); [by apply elem_of_nil in Hb'|apply list_elem_of_singleton in Hb' as ->; done|by apply elem_of_nil in Hb'].
  - by apply list_elem_of_singleton in Hb' as ->.
Qed.

(** ** Exclusive places *)

(** The address the guest is told. *)
Definition guest_address (driver : BlockDriver) (b : Bus) (i : nat) : string :=
  let n := N.of_nat i in
  match driver with
  | VirtioScsi => pretty (n / 256)%N +:+ ":" +:+ pretty (n `mod` 256)%N
  | _ => "0000:" +:+ bus_addr b +:+ ":" +:+ lower_hex2 n +:+ ".0"
  end.

(** C25: a disk that is plugged in gets a slot that was empty, is told to QEMU
    with the place of that slot, and the address returned for the guest is that
    place; no two devices QEMU has got over QMP are at one place, after any
    history with any answers of QEMU. A failed attach leaves the VM value as it
    was and, while the connection is up, QEMU's devices. *)
Theorem hot_attach_exclusive `{ParamOrder} c s i p ro replies r s' :
  qemu_run c s → i ∉ hot_ids (q_vm s) →
  qemu_hot_attach (QBlockInfo i p ro) (answering replies s) = Some (r, s') →
  NoDup (omap qmp_address (qm_plugged (q_mach s'))) ∧
  let d := VirtioBlockDevice_new "" i (Some p) ro in
  match r with
  | Ok (ty, addr) =>
      ty = to_bus_type (qc_block_device_driver c) ∧ ∃ b n,
        b ∈ vm_buses (q_vm s) ∧ bus_type b = ty ∧ bus_slots b !! n = Some SlotEmpty
        ∧ qm_plugged (q_mach s') = qm_plugged (q_mach s) ++ [block_device_add d ty (bus_id b) n]
        ∧ addr = guest_address (qc_block_device_driver c) b n
        ∧ qv_hot (q_vm s') = qv_hot (q_vm s) ++ [HBlock d]
  | Err _ => q_vm s' = q_vm s ∧ (qm_open (q_mach s') = true → qm_plugged (q_mach s') = qm_plugged (q_mach s))
  end.
Proof.
  intros Hrun Hid E. split.
  { destruct (run_invariant c s') as [Hs' _ _]; [by eapply (run_attach c s (QBlockInfo i p ro))|]. apply Hs'. }
  destruct (created_fair c) as (Hsh & _ & _). destruct (run_invariant _ _ Hrun) as [Hs Hd _].
  apply (answering_inv _ replies) in Hs. unfold qemu_hot_attach in E. apply bind_inv in E as (v & s0 & [= <- <-] & E).
  apply bind_inv in E as (x & s1 & E1 & E).
  destruct (attach_device_spec _ Hsh (HBlock (VirtioBlockDevice_new "" i (Some p) ro)) _ _ _ Hs Hid E1) as [Hx _]. simpl in Hx, E. rewrite Hd in Hx, E. simpl.
  destruct x as [[addr n]|e].
  - destruct Hx as (b & Hb & Ht & Hpos & Hi & -> & Ev & _ & Ep).
    assert (qc_block_device_driver c ≠ VirtioMmio) as Hm.
    { intros Em. rewrite Em in Ht. simpl in Ht.
      by eapply (run_bus_type c s). }
    injection E as <- <-. destruct (qc_block_device_driver c); [| |done]; (split; [done|]); exists b, n; rewrite Ev;
      (split; [done|]); (split; [done|]); (split; [done|]); (split; [by rewrite <- Ht|done]).
  - destruct Hx as [Ev Hx]. injection E as <- <-. split; [done|]. intros Hup.
    destruct Hx as [?|(? & ? & _ & Hdown & _)]; [done|by destruct Hdown].
Qed.

(** ** Answers that are all good *)
Lemma execute_good {V} c (v : V) m sent :
  qm_open m = true → execute c (mkQState v m [] sent) = Some (Ok tt, mkQState v (qmp_effect c m) [] (sent ++ [c])).
Proof.
  intros Ho. unfold execute, log_sent, next_reply, gets, modify. unfold mbind, M_bind, mret, M_ret. simpl. by rewrite Ho.
Qed.
Lemma delete_good {V} id (v : V) m sent :
  qm_open m = true →
  delete_device id (mkQState v m [] sent) = Some (Ok tt, mkQState v (qmp_effect (DeviceDel id) m) [] (sent ++ [DeviceDel id])).
Proof.
  destruct m as [o ns cs ps]. intros [= ->]. done.
Qed.
Lemma block_attach_good d file ty bus n v m sent :
  bd_file d = Some file → qm_open m = true → ∃ sent',
  execute_hot_attach (HBlock d) ty bus n (mkQState v m [] sent) =
  Some (Ok tt, mkQState v (mkQMachine true (qm_nodes m ++ [bd_id d]) (qm_chardevs m)
                             (qm_plugged m ++ [block_device_add d ty bus n])) [] sent').
Proof.
  intros Ef Ho. eexists. cbn [execute_hot_attach]. unfold block_hot_attach. rewrite Ef.
  unfold mbind, M_bind. rewrite execute_good by done. rewrite execute_good by done. simpl. by rewrite Ho.
Qed.
Lemma block_detach_good d v m sent :
  qm_open m = true → ∃ sent',
  execute_hot_detach (HBlock d) (mkQState v m [] sent) =
  Some (Ok tt, mkQState v (mkQMachine true (filter (λ x, x ≠ bd_id d) (qm_nodes m)) (qm_chardevs m)
                             (filter (λ a, da_id a ≠ block_qmp_id d) (qm_plugged m))) [] sent').
Proof.
  intros Ho. eexists. cbn [execute_hot_detach]. unfold block_hot_detach. unfold mbind, M_bind.
  rewrite delete_good by done. rewrite execute_good by done. simpl. by rewrite <- Ho.
Qed.

Lemma client_good s : qv_client (q_vm s) = true → get_qmp_client s = Some (Ok tt, s).
Proof. intros Hc. unfold get_qmp_client. rewrite bind_run. simpl. by rewrite Hc. Qed.

Lemma find_bus v b sh :
  fair_shape sh → slots_inv sh v → b ∈ vm_buses v → ∃ j, list_find (λ x, bus_id x = bus_id b) (vm_buses v) = Some (j, b).
Proof.
  intros Hsh Hv Hb. destruct (list_find _ _) as [[j b']|] eqn:Ej.
  - exists j. apply list_find_Some in Ej as (Hj & Eb & _). apply list_elem_of_lookup_2 in Hj.
    by rewrite (same_bus sh Hsh v b' b).
  - apply list_find_None in Ej. rewrite Forall_forall in Ej. by destruct (Ej b Hb).
Qed.

(** The state after a disk was plugged in. *)
Lemma attach_good sh d file v m sent bid n :
  fair_shape sh → slots_inv sh v → qv_client v = true → qm_open m = true → bd_file d = Some file →
  first_empty (to_bus_type (qv_block_driver v)) (vm_buses v) = Some (bid, n) →
  ∃ b sent', b ∈ vm_buses v ∧ bus_slots b !! n = Some SlotEmpty ∧
  hot_attach_device (HBlock d) (to_bus_type (qv_block_driver v)) (mkQState v m [] sent) =
  Some (Ok (bus_addr b, n),
        mkQState (add_hot b n (HBlock d) v)
          (mkQMachine true (qm_nodes m ++ [bd_id d]) (qm_chardevs m)
             (qm_plugged m ++ [block_device_add d (to_bus_type (qv_block_driver v)) (bus_id b) n])) [] sent').
Proof.
  intros Hsh Hv Hc Ho Ef E. pose proof (first_empty_spec _ _ _ _ E) as (b & Hb & <- & _ & _ & Hi).
  destruct (block_attach_good d file (to_bus_type (qv_block_driver v)) (bus_id b) n v m sent Ef Ho) as [sent' Ea].
  exists b, sent'. split; [done|]. split; [done|].
  unfold hot_attach_device. rewrite bind_run. unfold gets at 1. cbn [q_vm]. rewrite E. rewrite bind_run, client_good by done.
  rewrite bind_run, Ea. cbn beta iota. rewrite bind_run. unfold attach_to_bus. rewrite bind_run. unfold gets. cbn [q_vm].
  destruct (find_bus v b sh Hsh Hv Hb) as [j ->]. done.
Qed.

(** ** Capacity *)
Definition capacity (c : QemuVMConfig) : nat :=
  match qc_block_device_driver c with
  | BlockImage.VirtioBlk => N.to_nat (qc_default_bridges c) * (PCI_BRIDGE_CAPACITY - 1)
  | VirtioScsi => SCSI_BUS_CAPACITY - 1
  | VirtioMmio => 0
  end.
Definition is_disk (d : HotDevice) : bool := match d with HBlock _ => true | HChar _ => false end.
Definition disks (v : QemuVM) : nat := length (filter (λ d, is_disk d = true) (qv_hot v)).

Lemma room_shape ty l l' : shape <$> l = shape <$> l' → room ty l = room ty l'.
Proof.
  revert l'. induction l as [|b l IH]; intros [|b' l']; [done..|]. rewrite !fmap_cons. intros [= Et _ El E].
  by rewrite !room_cons, Et, El, (IH l' E).
Qed.
Lemma room_app ty l k : room ty (l ++ k) = room ty l + room ty k.
Proof. induction l as [|b l IH]; [done|]. simpl. rewrite !room_cons, IH. lia. Qed.

Lemma created_room c : room (to_bus_type (qc_block_device_driver c)) (created_buses c) = capacity c.
Proof.
  unfold created_buses, capacity. rewrite !room_app.
  assert (∀ ty, room ty (br_bus <$> create_bridges (qc_default_bridges c) (qc_machine_type c)) =
    if decide (ty = PCI) then N.to_nat (qc_default_bridges c) * 29 else 0) as Hb.
  { intros ty. unfold create_bridges. destruct (if bool_decide _ then _ else _) as [[t d] bus].
    assert (∀ l, room ty (br_bus <$> (create_bridge t d bus <$> (N.of_nat <$> l))) = if decide (ty = PCI) then length l * 29 else 0) as Hl.
    { induction l as [|x l IH]; [by destruct (decide _)|]. rewrite !fmap_cons, room_cons, IH. simpl.
      destruct (decide (PCI = ty)), (decide (ty = PCI)); try congruence; lia. }
    by rewrite Hl, length_seq. }
  rewrite Hb. generalize (N.to_nat (qc_default_bridges c)) as k. intros k.
  destruct (qc_block_device_driver c); [|reflexivity..].
  change (k * 29 + (0 + 0) = k * 29). lia.
Qed.

Lemma disks_in_use sh v : slots_inv sh v → in_use (to_bus_type (qv_block_driver v)) (vm_buses v) = disks v.
Proof.
  intros [_ _ Eh _]. rewrite (in_use_perm _ _ _ Eh). unfold disks. clear Eh.
  induction (qv_hot v) as [|d l IH]; [done|]. rewrite fmap_cons, !filter_cons. cbn [fst].
  destruct d as [d|d]; simpl.
  - rewrite decide_True by done. simpl. by rewrite IH.
  - rewrite decide_False by (by destruct (qv_block_driver v)). exact IH.
Qed.

(** C27: how many disks fit. In every state of a run whose connection is up,
    plugging in one more disk succeeds when QEMU refuses nothing exactly if
    fewer disks are plugged in than the VM has slots for: 63 on the SCSI
    controller, 29 on each PCI bridge; a detach that failed keeps its slot. *)
Theorem hotplug_capacity `{ParamOrder} c s i p ro :
  qemu_run c s → qm_open (q_mach s) = true →
  (∃ a s', qemu_hot_attach (QBlockInfo i p ro) (answering [] s) = Some (Ok a, s')) ↔ disks (q_vm s) < capacity c.
Proof.
  intros Hrun Ho. destruct (run_invariant _ _ Hrun) as [[Hv _ _] Hd Hc]. destruct (created_fair c) as (Hsh & _ & _).
  assert (room (to_bus_type (qv_block_driver (q_vm s))) (vm_buses (q_vm s)) = capacity c) as Er.
  { rewrite Hd, <- created_room. apply room_shape, Hv. }
  destruct (first_empty_room (to_bus_type (qv_block_driver (q_vm s))) _ (si_first _ _ Hv)) as [Hle Hfull].
  rewrite Er, (disks_in_use _ _ Hv) in Hle, Hfull.
  destruct (first_empty _ _) as [[bid n]|] eqn:Ef.
  - assert (disks (q_vm s) ≠ capacity c) by (intros E; by apply Hfull in E). split; [lia|intros _].
    destruct (attach_good _ (VirtioBlockDevice_new "" i (Some p) ro) p _ (q_mach s) (q_sent s) _ _ Hsh Hv Hc Ho eq_refl Ef)
      as (b & sent' & Hb & _ & Ea).
    assert (qv_block_driver (q_vm s) ≠ VirtioMmio) as Hm.
    { intros Em. rewrite Em in Ef. apply first_empty_spec in Ef as (b' & Hb' & _ & Ht & _).
      by apply (run_bus_type c s b'). }
    unfold qemu_hot_attach, answering. rewrite bind_run. unfold gets. cbn [q_vm]. rewrite bind_run, Ea.
    cbn beta iota. destruct (qv_block_driver (q_vm s)); [| |done]; unfold mret, M_ret; eauto.
  - destruct Hfull as [Hfull _]. specialize (Hfull eq_refl). split; [|lia].
    unfold qemu_hot_attach, answering. rewrite bind_run. unfold gets. cbn [q_vm]. rewrite bind_run.
    unfold hot_attach_device. rewrite bind_run. unfold gets. cbn [q_vm]. rewrite Ef. by intros (a & s' & [=]).
Qed.

(** ** Unplugging undoes plugging *)
Lemma release_untouched id l :
  (∀ b, b ∈ buses l → id ∉ slot_ids (bus_slots b)) → release_device id <$> l = l.
Proof.
  induction l as [|d l IH]; [done|]. rewrite buses_cons. intros Hf. rewrite fmap_cons.
  unfold release_device at 1. destruct (device_bus d) as [b|] eqn:Eb.
  - rewrite IH by (intros; apply Hf; by right). f_equal. unfold release_bus.
    rewrite release_slot_other by (apply Hf; by left). destruct b; simpl.
    destruct d as [[]|[]|[]| | | | | | | | |]; simplify_eq/=; done.
  - by rewrite IH.
Qed.

Lemma release_update id bid n l :
  (∀ b, b ∈ buses l → id ∉ slot_ids (bus_slots b)) →
  (∀ b, b ∈ buses l → bus_id b = bid → bus_slots b !! n = Some SlotEmpty) →
  release_device id <$> update_bus bid (occupy n id) l = l.
Proof.
  induction l as [|d l IH]; [done|]. rewrite buses_cons. intros Hf He. cbn [update_bus].
  destruct (device_bus d) as [b|] eqn:Eb.
  - case_bool_decide as Hid.
    + rewrite fmap_cons, release_untouched by (intros; apply Hf; by right). f_equal.
      unfold release_device. rewrite (device_bus_set _ _ _ Eb).
      assert (release_bus id (occupy n id b) = b) as ->.
      { unfold release_bus, occupy. simpl. rewrite release_insert; [by destruct b| |apply Hf; by left].
        apply He; [by left|done]. }
      by apply set_device_bus_id.
    + rewrite fmap_cons, IH; [|intros; apply Hf; by right|intros ? ?; apply He; by right]. f_equal.
      pose proof (release_untouched id [d]) as R. rewrite buses_cons, Eb in R.
      assert ([release_device id d] = [d]) as [= ->]; [|done]. apply R. intros b' Hb'.
      apply list_elem_of_singleton in Hb' as ->. apply Hf. by left.
  - rewrite fmap_cons, IH; [|done..]. f_equal. unfold release_device. by rewrite Eb.
Qed.

Lemma drop_add sh v b n d :
  fair_shape sh → slots_inv sh v → b ∈ vm_buses v → bus_slots b !! n = Some SlotEmpty → hot_id d ∉ hot_ids v →
  drop_hot (hot_id d) (qv_hot v) (add_hot b n d v) = v.
Proof.
  intros Hsh Hv Hb Hi Hid. unfold drop_hot, add_hot. simpl. rewrite release_update; [by destruct v| |].
  - intros b' Hb' Hin. apply Hid. apply elem_of_slot_ids in Hin as [j Ej].
    assert ((bus_type b', hot_id d) ∈ held_ids (vm_buses v)) as Hh by (apply elem_of_held; eauto).
    rewrite (si_held _ _ Hv) in Hh. apply list_elem_of_fmap in Hh as (x & [= _ ->] & Hx). by apply list_elem_of_fmap_2.
  - intros b' Hb' E. by rewrite (same_bus sh Hsh v b' b).
Qed.

Lemma take_hot_last d l : hot_id d ∉ hot_id <$> l → take_hot (hot_id d) (l ++ [d]) = Some (d, l).
Proof.
  induction l as [|x l IH]; simpl; [by rewrite bool_decide_true|]. intros [Hx Hl]%not_elem_of_cons.
  rewrite bool_decide_false by done. by rewrite IH.
Qed.

(** C26: unplugging undoes plugging. A disk that was plugged in can be unplugged
    while QEMU refuses nothing, and then the VM value, every slot and the
    devices and backends QEMU has are what they were before. *)
Theorem hot_detach_undoes `{ParamOrder} c s i p ro a s' :
  qemu_run c s → i ∉ hot_ids (q_vm s) → i ∉ qm_nodes (q_mach s) →
  Forall (λ x, da_id x ≠ "virtio-" +:+ i) (qm_plugged (q_mach s)) →
  qemu_hot_attach (QBlockInfo i p ro) (answering [] s) = Some (Ok a, s') →
  ∃ s'', qemu_hot_detach i s' = Some (Ok tt, s'') ∧ q_vm s'' = q_vm s ∧ q_mach s'' = q_mach s.
Proof.
  intros Hrun Hid Hnode Hdev E. destruct (run_invariant _ _ Hrun) as [Hinv Hd Hc]. destruct (created_fair c) as (Hsh & _ & _).
  pose proof Hinv as [Hv _ _]. set (d := VirtioBlockDevice_new "" i (Some p) ro).
  unfold qemu_hot_attach, answering in E. rewrite bind_run in E. unfold gets in E. cbn [q_vm] in E.
  apply bind_inv in E as (x & s1 & E1 & E). fold d in E1.
  destruct (qm_open (q_mach s)) eqn:Ho.
  2:{ destruct x as [[addr n]|]; [|done].
      destruct (attach_device_spec _ Hsh (HBlock d) _ _ _ (answering_inv _ [] _ Hinv) Hid E1) as [(b & _ & _ & _ & _ & _ & _ & Hu & _) _].
      unfold up in Hu. simpl in Hu. congruence. }
  destruct (first_empty (to_bus_type (qv_block_driver (q_vm s))) (vm_buses (q_vm s))) as [[bid n]|] eqn:Ef.
  2:{ unfold hot_attach_device in E1. rewrite bind_run in E1. unfold gets in E1. cbn [q_vm] in E1. rewrite Ef in E1.
      injection E1 as <- <-. done. }
  destruct (attach_good _ d p _ (q_mach s) (q_sent s) _ _ Hsh Hv Hc Ho eq_refl Ef) as (b & sent' & Hb & Hi & Ea).
  rewrite Ea in E1. injection E1 as <- <-. injection E as _ <-.
  unfold qemu_hot_detach. rewrite bind_run. unfold gets. cbn [q_vm].
  change (qv_hot (add_hot b n (HBlock d) (q_vm s))) with (qv_hot (q_vm s) ++ [HBlock d]).
  change i with (hot_id (HBlock d)) at 1. rewrite take_hot_last by done.
  rewrite bind_run. unfold modify, set_qvm. cbn [q_vm q_mach q_replies q_sent].
  rewrite bind_run, client_good by done. cbn beta iota. rewrite bind_run.
  edestruct (block_detach_good d) as [sent'' ->]; [done|]. cbn beta iota. unfold detach_from_bus. rewrite bind_run.
  unfold modify, set_qvm, mret, M_ret. cbn [q_vm q_mach q_replies q_sent]. eexists. split; [done|]. cbn [q_vm q_mach]. split.
  - exact (drop_add _ _ _ _ (HBlock d) Hsh Hv Hb Hi Hid).
  - simpl. rewrite !filter_app, !filter_cons_False, !app_nil_r by (simpl; naive_solver).
    rewrite !filter_keep; [|exact Hdev|apply Forall_forall; intros y Hy ->; done].
    destruct (q_mach s); simpl in *. by rewrite Ho.
Qed.

(** ** Starting and stopping *)

(** After a start that succeeded a forced stop never fails, and kills the
    process whose command line was checked unless its end was reported. *)
Lemma forced_stop_kills `{ParamOrder} o v n v' l ended s r s' :
  qemu_start o v = Some (Ok n, v', l) → q_vm s = v' → qemu_stop true ended s = Some (r, s') →
  ∃ pid cmd, so_cmdline o pid = Some cmd ∧ existsb (λ x, contains x (qf_path (qv_config v'))) cmd = true
    ∧ r = Ok (if ended then None else Some pid).
Proof.
  intros E Hv Es. unfold qemu_start in E.
  destruct (match qv_virtiofsd v with None => _ | Some _ => _ end) as [v1|]; [|done].
  destruct (launch_params v1); [|done]. simpl in E. destruct (so_launch o); [|done]. simpl in E.
  destruct (connect_qmp _); [|done]. destruct (detect_pid _ _ _) as [pid|] eqn:Ep; [|done]. injection E as <- <- <-.
  assert (∀ k reads, detect_pid_in k reads (so_cmdline o) (qf_path (qv_config v1)) = Ok pid →
    ∃ cmd, so_cmdline o pid = Some cmd ∧ existsb (λ x, contains x (qf_path (qv_config v1))) cmd = true) as Hdet.
  { induction k as [|k IH]; [done|]. intros [|[q|] reads]; cbn [detect_pid_in]; [by intros ?%IH| |by intros ?%IH].
    destruct (so_cmdline o q) as [cmd|] eqn:Ec; [|done]. destruct (existsb _ cmd) eqn:Ex; [|done]. intros [= <-]. eauto. }
  apply Hdet in Ep as (cmd & Ec & Ex). exists pid, cmd. do 2 (split; [done|]).
  unfold qemu_stop in Es. apply bind_inv in Es as (x & s1 & Eq & Es).
  assert (x = Ok tt ∧ q_vm s1 = q_vm s) as [-> Hv1].
  { unfold quit_qemu in Eq. rewrite bind_run, client_good in Eq by (by rewrite Hv). cbn beta iota in Eq.
    apply bind_inv in Eq as (y & s2 & Ey & Eq). injection Eq as <- <-. by apply execute_step in Ey as [? _]. }
  apply bind_inv in Es as (w & s2 & Ew & Es). unfold qemu_wait_stop in Ew. apply bind_inv in Ew as (? & ? & [= <- <-] & Ew).
  injection Ew as <- <-. rewrite Hv1, Hv in Es. simpl in Es. destruct ended; simpl in Es; [by injection Es as <- <-|].
  apply bind_inv in Es as (? & ? & [= <- <-] & Es). injection Es as <- <-. by rewrite Hv1, Hv.
Qed.

(** ** A sample *)
Section sample.
#[local] Instance sample_order : ParamOrder := λ _, false.

Definition blank_vm : QemuVM :=
  QemuVM_new "" "" "" (mkQemuConfig "" "" "" (mkMachine "" None) None (mkCpuModel "" None) (mkRTC "" "" "") ""
    (mkKernel "" None None) (mkSMP 0 0 0 0 0) (mkQemuMemory "" 0 "" MemRam false false false) []
    (mkKnobs false false false false (mkMemLock false) false false) None None None [] "" None) VirtioScsi.
Definition vm_of (c : QemuVMConfig) : QemuVM :=
  match qemu_create_vm c (Some 8192%N) None true "u" "sb1" "/run/netns/n1" "/run/sb1" with Ok v => v | Err _ => blank_vm end.
Definition good_start : StartOutcome := mkStart None true [(false, false); (true, false)] [None; Some 77%N] (λ _, Some ["/usr/bin/qemu-kvm"]).
Definition started (o : StartOutcome) (v : QemuVM) : QemuVM :=
  match qemu_start o v with Some (_, v, _) => v | None => blank_vm end.
Definition state0 : QState :=
  mkQState (started good_start (sized 0 0 0 (vm_of QemuVMConfig_default))) (mkQMachine true [] [] []) [] [].
Definition after_op {A} (m : Qm A) (s : QState) : QState := match m s with Some (_, s) => s | None => s end.
Definition disk1 : QemuDeviceInfo := QBlockInfo "disk1" "/h/disk1.img" false.
Definition state1 : QState := after_op (qemu_hot_attach disk1) state0.

Lemma state0_run : qemu_run QemuVMConfig_default state0.
Proof.
  eapply (run_started _ (Some 8192%N) None "u" "sb1" "/run/netns/n1" "/run/sb1" (vm_of QemuVMConfig_default) [] 0 0 0 good_start 0%N);
    [vm_compute; reflexivity|].
  instantiate (1 := match qemu_start good_start (sized 0 0 0 (vm_of QemuVMConfig_default)) with Some (_, _, l) => l | None => None end).
  vm_compute. reflexivity.
Qed.

Lemma hot_attach_exclusive_witness :
  NoDup (omap qmp_address (qm_plugged (q_mach state1))) ∧ SCSI = to_bus_type VirtioScsi.
Proof.
  assert (qemu_hot_attach disk1 (answering [] state0) = Some (Ok (SCSI, "0:1"), state1)) as E by (vm_compute; reflexivity).
  destruct (hot_attach_exclusive QemuVMConfig_default state0 "disk1" "/h/disk1.img" false [] (Ok (SCSI, "0:1")) state1
              state0_run ltac:(vm_compute; apply not_elem_of_nil) E) as [N [Et _]].
  split; [exact N|exact Et].
Defined.

Lemma hotplug_capacity_witness :
  (∃ a s', qemu_hot_attach (QBlockInfo "disk1" "/h/disk1.img" false) (answering [] state0) = Some (Ok a, s')) ↔ 0 < 63.
Proof. exact (hotplug_capacity QemuVMConfig_default state0 "disk1" "/h/disk1.img" false state0_run eq_refl). Defined.

Lemma hot_detach_undoes_witness :
  ∃ s'', qemu_hot_detach "disk1" state1 = Some (Ok tt, s'') ∧ q_vm s'' = q_vm state0 ∧ q_mach s'' = q_mach state0.
Proof.
  apply (hot_detach_undoes QemuVMConfig_default state0 "disk1" "/h/disk1.img" false (SCSI, "0:1") state1 state0_run);
    [vm_compute; apply not_elem_of_nil|vm_compute; apply not_elem_of_nil|constructor|vm_compute; reflexivity].
Defined.

(** A detach whose [blockdev_del] is refused puts the device back on the list;
    QEMU has it no more and refuses every further [device_del]: the device is
    on record and holds its slot for good. *)
Definition state2 : QState := after_op (qemu_hot_detach "disk1") (answering [Done; Refused] state1).
Example failed_detach_is_final :
  qm_plugged (q_mach state2) = [] ∧ hot_ids (q_vm state2) = ["disk1"]
  ∧ qemu_hot_detach "disk1" (answering [Refused] state2) =
    Some (Err QCommand, mkQState (q_vm state2) (q_mach state2) [] (q_sent state2 ++ [DeviceDel "virtio-disk1"])).
Proof. vm_compute. auto. Qed.

(** A start whose QMP connection does not come up returns before the pid is
    known; a forced stop then succeeds without killing the QEMU that runs. *)
Definition no_connection : StartOutcome := mkStart None true [(false, true)] [Some 77%N] (λ _, Some ["/usr/bin/qemu-kvm"]).
Example failed_start_leaves_qemu :
  match qemu_start no_connection (vm_of QemuVMConfig_default) with
  | Some (Err QTimeout, v, Some _) =>
      qemu_stop true false (mkQState v (mkQMachine true [] [] []) [] []) = Some (Ok None, mkQState v (mkQMachine true [] [] []) [] [])
  | _ => False
  end.
Proof. vm_compute. reflexivity. Qed.

(** The parameters of a vhost-user interface name a character device that none
    of them defines; the path of the socket is in none. *)
Example vhost_user_without_chardev :
  to_cmdline_params "-" (VhostNetDevice_params (VhostNetDevice_new "v1" (VhostUserNet "virtio-net-pci") "/run/vhost.sock" "02:00:00:00:00:01")) =
  ["-device"; "virtio-net-pci,netdev=net-v1,mac=02:00:00:00:00:01,romfile=";
   "-netdev"; "type=vhost-user,vhostforce,chardev=char-v1,id=net-v1"].
Proof. vm_compute. reflexivity. Qed.

(** The pod's CPU limit changes [cpus] and [maxcpus] and not [sockets]. *)
Example topology_mismatch :
  let smp := mkSMP 1 1 1 4 4 in
  let c := qv_config blank_vm in
  let c := mkQemuConfig (qf_name c) (qf_uuid c) (qf_path c) (qf_machine c) (qf_qmp_socket c) (qf_cpu_model c) (qf_rtc c)
             (qf_vga c) (qf_kernel c) smp (qf_memory c) (qf_global_params c) (qf_knobs c) (qf_bios c) (qf_pflash c)
             (qf_incoming c) (qf_io_threads c) (qf_pid_file c) (qf_log_file c) in
  to_cmdline_params "-" [SMP_params (qf_smp (qemu_process_config 100000 200000 0 c))] =
  ["-smp"; "cpus=2,cores=1,threads=1,sockets=4,maxcpus=2"].
Proof. vm_compute. reflexivity. Qed.
End sample.

(** [enable_swap] only sets [mlock], which no parameter shows. *)
Lemma mlock_never_set hyphen k b :
  Knobs_params hyphen (mkKnobs (kb_no_user_config k) (kb_no_defaults k) (kb_no_graphic k) (kb_daemonize k) (mkMemLock b)
    (kb_stopped k) (kb_no_reboot k)) = Knobs_params hyphen k.
Proof. done. Qed.
