(* ===== verification/Strato.v ===== *)
(** * StratoVirt: devices, configuration and driver

    [vmm/sandbox/src/stratovirt/{config,factory,mod,virtiofs,hooks}.rs] with its
    [devices/]; its QMP client is QEMU's. *)
From S2P Require Import Prelude Strs Storage Types Metrics Disk Pool Continuation GuestScan Mount Frame Inject Annotations Box BlockImage StorageOps Handlers Sandboxer ChConfig Net QemuConfig QemuDriver.

(** ** Devices: [devices/] *)
Definition PCIE_ROOTPORT_CAPACITY : nat := 10.
Definition PCIE_ROOTBUS_CAPACITY : nat := 32.
Definition DEFAULT_PCIE_BUS : string := "pcie.0".

(** [set_device_addr]: [{:#02x}], where the width counts the prefix *)
Definition addr_text (n : nat) : string := "0x" +:+ lower_hex (N.of_nat n).

Record StratoRng := mkStratoRng {
  srg_object_type : string; srg_driver : string; srg_id : string; srg_filename : string; srg_device_id : string;
  srg_max_bytes : option N; srg_period : option N; srg_bus : string; srg_addr : string
}.
Definition StratoRng_new (id filename : string) (t : Transport) (bus : string) : StratoRng :=
  mkStratoRng "rng-random" (to_driver t "virtio-rng") id filename ("virtio-" +:+ id) None None bus "".

Record StratoSerial := mkStratoSerial { ssr_driver : string; ssr_id : string; ssr_bus : string; ssr_addr : string }.
Definition StratoSerial_new (id : string) (t : Transport) (bus : string) : StratoSerial :=
  mkStratoSerial (to_driver t "virtio-serial") id bus "".

Record StratoChar := mkStratoChar {
  sch_backend : string; sch_id : string; sch_path : string; sch_server : bool; sch_nowait : bool; sch_addr : string
}.
Definition StratoChar_new (backend chardev_id path : string) : StratoChar :=
  mkStratoChar backend chardev_id path true true "".

Record VirtConsole := mkConsole { scn_driver : string; scn_id : string; scn_chardev : string; scn_addr : string }.
Definition VirtConsole_new (id chardev_id : string) : VirtConsole := mkConsole "virtconsole" id chardev_id "".

Record StratoBlock := mkStratoBlock {
  sbd_driver : string; sbd_id : string; sbd_deviceid : string; sbd_file : option string; sbd_if : option string;
  sbd_readonly : option bool; sbd_direct : option bool; sbd_bus : option string; sbd_addr : string
}.
Definition StratoBlock_new (driver id deviceid : string) (file : option string) (read_only : option bool) : StratoBlock :=
  mkStratoBlock driver id deviceid file None read_only None None "".

Record StratoVSock := mkStratoVSock {
  svs_driver : string; svs_id : string; svs_context_id : N; svs_bus : string; svs_addr : string; svs_vhostfd : N
}.
Definition StratoVSock_new (cid : N) (t : Transport) (bus : string) (vhost_fd : N) : StratoVSock :=
  mkStratoVSock (to_driver t "vhost-vsock") ("vsock-" +:+ pretty cid) cid bus "" vhost_fd.

Record VhostUserFs := mkVhostUserFs {
  vfs_driver : string; vfs_id : string; vfs_chardev_id : string; vfs_tag : string; vfs_bus : string; vfs_addr : string
}.
Definition VhostUserFs_new (id : string) (t : Transport) (chardev tag bus : string) : VhostUserFs :=
  mkVhostUserFs (to_driver t "vhost-user-fs") id chardev tag bus "".

Record StratoNet := mkStratoNet {
  sn_type : NetType; sn_transport : Transport; sn_driver : string; sn_id : string; sn_device_id : string;
  sn_vhost : bool; sn_vhostfds : list N; sn_fds : list N; sn_ifname : option string; sn_pci_bus : option string;
  sn_addr : string; sn_script : option string; sn_down_script : option string; sn_mac : string;
  sn_multi_queue : bool; sn_disable_modern : option bool; sn_romfile : option string; sn_queues : option N
}.
(** The builder as [attach] calls it. *)
Definition StratoNet_new (id name mac : string) (t : Transport) (fds : list N) : StratoNet :=
  mkStratoNet NetTap t (to_driver t "virtio-net") id ("virtio-net-" +:+ id) false [] fds (Some name)
    (Some DEFAULT_PCIE_BUS) "" None None mac (bool_decide (fds ≠ [])) None None None.

Record RootPort := mkRootPort {
  rp_device_type : string; rp_id : string; rp_port : string; rp_bus_name : string; rp_addr : string;
  rp_multi_function : option bool; rp_device_id : string; rp_index : nat
}.
Definition RootPort_new (id : string) (port index : nat) (bus : string) (multi : option bool) : RootPort :=
  mkRootPort "pcie-root-port" id (addr_text port) bus "" multi "" index.

(** [PCIERootPorts] with the bus it keeps, and the ports of the pool *)
Record PCIERootPorts := mkRootPorts { rps_id : string; rps_bus : Bus; rps_ports : list RootPort }.

(** [Box<dyn StratoVirtDevice>]; none of them has a bus. *)
Inductive StratoDevice :=
  | SRng (d : StratoRng) | SSerial (d : StratoSerial) | SChar (d : StratoChar) | SConsole (d : VirtConsole)
  | SBlock (d : StratoBlock) | SVSock (d : StratoVSock) | SFs (d : VhostUserFs) | SNet (d : StratoNet)
  | SRootPort (d : RootPort).

Definition sdev_id (d : StratoDevice) : string :=
  match d with
  | SRng d => srg_id d | SSerial d => ssr_id d | SChar d => sch_id d | SConsole d => scn_id d | SBlock d => sbd_id d
  | SVSock d => svs_id d | SFs d => vfs_id d | SNet d => sn_id d | SRootPort d => rp_id d
  end.
Definition sdev_bus (d : StratoDevice) : option Bus := None.
Definition sdev_addr (d : StratoDevice) : string :=
  match d with
  | SRng d => srg_addr d | SSerial d => ssr_addr d | SChar d => sch_addr d | SConsole d => scn_addr d
  | SBlock d => sbd_addr d | SVSock d => svs_addr d | SFs d => vfs_addr d | SNet d => sn_addr d
  | SRootPort d => rp_addr d
  end.
Definition set_device_addr (n : nat) (d : StratoDevice) : StratoDevice :=
  let a := addr_text n in
  match d with
  | SRng d => SRng (mkStratoRng (srg_object_type d) (srg_driver d) (srg_id d) (srg_filename d) (srg_device_id d)
                      (srg_max_bytes d) (srg_period d) (srg_bus d) a)
  | SSerial d => SSerial (mkStratoSerial (ssr_driver d) (ssr_id d) (ssr_bus d) a)
  | SChar d => SChar (mkStratoChar (sch_backend d) (sch_id d) (sch_path d) (sch_server d) (sch_nowait d) a)
  | SConsole d => SConsole (mkConsole (scn_driver d) (scn_id d) (scn_chardev d) a)
  | SBlock d => SBlock (mkStratoBlock (sbd_driver d) (sbd_id d) (sbd_deviceid d) (sbd_file d) (sbd_if d)
                          (sbd_readonly d) (sbd_direct d) (sbd_bus d) a)
  | SVSock d => SVSock (mkStratoVSock (svs_driver d) (svs_id d) (svs_context_id d) (svs_bus d) a (svs_vhostfd d))
  | SFs d => SFs (mkVhostUserFs (vfs_driver d) (vfs_id d) (vfs_chardev_id d) (vfs_tag d) (vfs_bus d) a)
  | SNet d => SNet (mkStratoNet (sn_type d) (sn_transport d) (sn_driver d) (sn_id d) (sn_device_id d) (sn_vhost d)
                      (sn_vhostfds d) (sn_fds d) (sn_ifname d) (sn_pci_bus d) a (sn_script d) (sn_down_script d)
                      (sn_mac d) (sn_multi_queue d) (sn_disable_modern d) (sn_romfile d) (sn_queues d))
  | SRootPort d => SRootPort (mkRootPort (rp_device_type d) (rp_id d) (rp_port d) (rp_bus_name d) a
                                (rp_multi_function d) (rp_device_id d) (rp_index d))
  end.

(** *** Rendering *)
Definition bool_to_socket_server (b : bool) : string := if b then "server" else "".
Definition bool_to_socket_nowait (b : bool) : string := if b then "nowait" else "".
Definition bare_if (b : bool) (key value : string) : list Property := if b then bare key value else [].
Definition has_addr (a : string) : bool := bool_decide (a ≠ "").
(** A field with a predicate is unwrapped when the predicate holds. *)
Definition prop_unwrap (b : bool) (key : string) (o : option string) : option (list Property) :=
  if b then prop key <$> o else Some [].

Definition StratoSerial_params (d : StratoSerial) : list Param := [mkParam "device"
  (bare "driver" (ssr_driver d) ++ prop "id" (ssr_id d) ++ prop_if (has_addr (ssr_addr d)) "bus" (ssr_bus d) ++
   prop_if (has_addr (ssr_addr d)) "addr" (ssr_addr d))].
Definition StratoChar_params (d : StratoChar) : list Param :=
  let socket := bool_decide (sch_backend d = "socket") in
  [mkParam "chardev"
    (bare "backend" (sch_backend d) ++ prop "id" (sch_id d) ++ prop "path" (sch_path d) ++
     bare_if socket "server" (bool_to_socket_server (sch_server d)) ++
     bare_if socket "nowait" (bool_to_socket_nowait (sch_nowait d)))].
Definition VirtConsole_params (d : VirtConsole) : list Param := [mkParam "device"
  (bare "driver" (scn_driver d) ++ prop "id" (scn_id d) ++ prop "chardev" (scn_chardev d))].
Definition StratoVSock_params (d : StratoVSock) : list Param := [mkParam "device"
  (bare "driver" (svs_driver d) ++ prop "id" (svs_id d) ++ prop "guest-cid" (pretty (svs_context_id d)) ++
   prop_if (has_addr (svs_addr d)) "bus" (svs_bus d) ++ prop_if (has_addr (svs_addr d)) "addr" (svs_addr d) ++
   prop "vhostfd" (pretty (svs_vhostfd d)))].
Definition VhostUserFs_params (d : VhostUserFs) : list Param := [mkParam "device"
  (bare "driver" (vfs_driver d) ++ prop "id" (vfs_id d) ++ prop "chardev" (vfs_chardev_id d) ++ prop "tag" (vfs_tag d) ++
   prop_if (has_addr (vfs_addr d)) "bus" (vfs_bus d) ++ prop_if (has_addr (vfs_addr d)) "addr" (vfs_addr d))].
Definition RootPort_params (d : RootPort) : list Param := [mkParam "device"
  (bare "device-type" (rp_device_type d) ++ prop "id" (rp_id d) ++ prop "port" (rp_port d) ++
   prop "bus" (rp_bus_name d) ++ prop "addr" (rp_addr d) ++ prop_opt "multifunction" show (rp_multi_function d))].

Section rendering.
Context `{ParamOrder}.

Definition StratoRng_params (d : StratoRng) : list Param := pair_params "stratovirt::VirtioRngDevice"
  (mkParam "object"
    (bare "object-type" (srg_object_type d) ++ prop "id" (srg_id d) ++ prop "filename" (srg_filename d)))
  (mkParam "device"
    (bare "driver" (srg_driver d) ++ prop "rng" (srg_id d) ++ prop "id" (srg_device_id d) ++
     prop_opt "max-bytes" pretty (srg_max_bytes d) ++ prop_opt "period" pretty (srg_period d) ++
     prop_if (has_addr (srg_addr d)) "bus" (srg_bus d) ++ prop_if (has_addr (srg_addr d)) "addr" (srg_addr d))).

Definition StratoBlock_params (d : StratoBlock) : option (list Param) :=
  bus ← prop_unwrap (has_addr (sbd_addr d)) "bus" (sbd_bus d);
  Some (pair_params "stratovirt::VirtioBlockDevice"
  (mkParam "device"
    (bare "driver" (sbd_driver d) ++ prop "drive" (sbd_id d) ++ prop "id" (sbd_deviceid d) ++ bus ++
     prop_if (has_addr (sbd_addr d)) "addr" (sbd_addr d)))
  (mkParam "drive"
    (prop "id" (sbd_id d) ++ prop_opt "file" id (sbd_file d) ++ prop_opt "if" id (sbd_if d) ++
     prop_opt "readonly" bool_to_on_off (sbd_readonly d) ++ prop_opt "direct" bool_to_on_off (sbd_direct d)))).

Definition StratoNet_params (d : StratoNet) : option (list Param) :=
  let has_fds := bool_decide (sn_fds d ≠ []) in
  let is_pci := match sn_transport d with TPci => true | _ => false end in
  ifname ← prop_unwrap (negb has_fds) "ifname" (sn_ifname d);
  bus ← prop_unwrap (has_addr (sn_addr d)) "bus" (sn_pci_bus d);
  Some (pair_params "stratovirt::VirtioNetDevice"
  (mkParam "netdev"
    (bare "type" (NetType_fmt (sn_type d)) ++ prop "id" (sn_id d) ++
     prop_if (sn_vhost d) "vhost" (bool_to_on_off (sn_vhost d)) ++
     prop_if (sn_vhost d) "vhostfds" (vec_to_string (pretty <$> sn_vhostfds d)) ++
     prop_if has_fds "fds" (vec_to_string (pretty <$> sn_fds d)) ++ ifname ++
     prop_opt "script" id (sn_script d) ++ prop_opt "downscript" id (sn_down_script d) ++
     prop_opt "queues" pretty (sn_queues d)))
  (mkParam "device"
    (bare "driver" (sn_driver d) ++ prop "netdev" (sn_id d) ++ prop "id" (sn_device_id d) ++
     prop_if (has_fds && is_pci) "vectors" (fds_to_vectors (sn_fds d)) ++ bus ++
     prop_if (has_addr (sn_addr d)) "addr" (sn_addr d) ++ prop "mac" (sn_mac d) ++
     prop "mq" (bool_to_on_off (sn_multi_queue d)) ++ prop_opt "disable-modern" show (sn_disable_modern d) ++
     prop_opt "romfile" id (sn_romfile d)))).

Definition strato_device_params (d : StratoDevice) : option (list Param) :=
  match d with
  | SRng d => Some (StratoRng_params d) | SSerial d => Some (StratoSerial_params d)
  | SChar d => Some (StratoChar_params d) | SConsole d => Some (VirtConsole_params d)
  | SBlock d => StratoBlock_params d | SVSock d => Some (StratoVSock_params d)
  | SFs d => Some (VhostUserFs_params d) | SNet d => StratoNet_params d | SRootPort d => Some (RootPort_params d)
  end.
End rendering.

(** ** Configuration: [config.rs] *)
Definition MACHINE_TYPE_VIRT : string := "virt".
Definition MACHINE_TYPE_MICROVM : string := "microvm".
Definition DEFAULT_STRATOVIRT_PATH : string := "/usr/bin/stratovirt".
Definition STRATO_KERNEL_PARAMS : string := "console=hvc0 console=hvc1 iommu=off panic=1 pcie_ports=native".
Definition ROOTFS_KERNEL_PARAMS : string := " root=/dev/vda ro rootfstype=ext4".

Record StratoVirtVMConfig := mkStratoVmConfig {
  sc_path : string; sc_machine_type : string; sc_block_device_driver : string; sc_common : HypervisorCommonConfig;
  sc_virtiofsd_path : string
}.
Definition StratoVirtVMConfig_default : StratoVirtVMConfig :=
  mkStratoVmConfig DEFAULT_STRATOVIRT_PATH MACHINE_TYPE_VIRT "virtio-blk" HypervisorCommonConfig_default
    "/usr/bin/vhost_user_fs".

Record StratoKernel := mkStratoKernel {
  skn_path : string; skn_initrd : option string; skn_image : option string; skn_params : string
}.
Record StratoKnobs := mkStratoKnobs { skb_daemonize : bool; skb_disable_seccomp : bool; skb_prealloc : bool }.
Record Firmware := mkFirmware { fw_param_key : string; fw_file : string }.
Record StratoVirtConfig := mkStratoConfig {
  sf_name : string; sf_uuid : string; sf_path : string; sf_machine : Machine; sf_qmp_socket : option QmpSocket;
  sf_kernel : StratoKernel; sf_cpus : N; sf_memory : string; sf_pid_file : string; sf_log_file : option string;
  sf_global_params : list string; sf_knobs : StratoKnobs; sf_firmware : option Firmware
}.
Definition StratoVirtConfig_default : StratoVirtConfig :=
  mkStratoConfig "" "" "" (mkMachine "" None) None (mkStratoKernel "" None None "") 0 "" "" None []
    (mkStratoKnobs false false false) None.

(** The machine type may carry options: [split(',')[0]] *)
Definition is_microvm (machine_type : string) : bool :=
  match split ","%char machine_type with t :: _ => bool_decide (t = MACHINE_TYPE_MICROVM) | [] => false end.
Definition machine_transport (m : Machine) : Transport := if is_microvm (mc_type m) then TMmio else TPci.

Definition strato_kernel_params (k : HypervisorCommonConfig) : string :=
  (if bool_decide (hc_kernel_params k = "") then STRATO_KERNEL_PARAMS
   else STRATO_KERNEL_PARAMS +:+ " " +:+ hc_kernel_params k) +:+
  (if bool_decide (hc_image_path k ≠ "") then ROOTFS_KERNEL_PARAMS else "") +:+
  (if hc_debug k then " debug task.debug" else "").

(** Exactly one of image and initrd. *)
Definition to_stratovirt_config (c : StratoVirtVMConfig) : result StratoVirtConfig QemuError :=
  let k := sc_common c in
  let image := some_if_nonempty (hc_image_path k) in
  let initrd := some_if_nonempty (hc_initrd_path k) in
  match image, initrd with
  | Some _, Some _ | None, None => Err QInvalidArgument
  | _, _ =>
      Ok (mkStratoConfig "" "" (if bool_decide (sc_path c ≠ "") then sc_path c else DEFAULT_STRATOVIRT_PATH)
            (mkMachine (sc_machine_type c) None) None
            (mkStratoKernel (hc_kernel_path k) initrd image (strato_kernel_params k))
            (hc_vcpus k) (pretty (hc_memory_in_mb k) +:+ "M") "" None
            (if is_microvm (sc_machine_type c) then [] else ["pcie-root-port.fast-unplug=1"])
            (mkStratoKnobs true true (hc_enable_mem_prealloc k))
            (mkFirmware "drive" <$> some_if_nonempty (hc_firmware k)))
  end.

Definition strato_qmp_params (hyphen : string) (s : QmpSocket) : list string :=
  [hyphen +:+ qs_param_key s; qs_type s +:+ ":" +:+ qs_name s +:+ ",server,nowait"].
Definition StratoKernel_params (hyphen : string) (k : StratoKernel) : list string :=
  StringParam hyphen "kernel" (skn_path k) ++ OptionParam hyphen "initrd" (skn_initrd k) ++
  StringParam hyphen "append" (skn_params k).
Definition StratoKnobs_params (hyphen : string) (k : StratoKnobs) : list string :=
  BoolParam hyphen "daemonize" (skb_daemonize k) ++ BoolParam hyphen "disable-seccomp" (skb_disable_seccomp k) ++
  BoolParam hyphen "mem-prealloc" (skb_prealloc k).
Definition Firmware_params (hyphen : string) (f : Firmware) : list string :=
  [hyphen +:+ fw_param_key f; "file=" +:+ fw_file f +:+ ",if=pflash,format=raw,unit=0,readonly=on"].
Definition StratoVirtConfig_params (hyphen : string) (c : StratoVirtConfig) : list string :=
  StringParam hyphen "name" (sf_name c) ++ StringParam hyphen "uuid" (sf_uuid c) ++
  to_cmdline_params hyphen [Machine_params (sf_machine c)] ++
  from_option (strato_qmp_params hyphen) [] (sf_qmp_socket c) ++ StratoKernel_params hyphen (sf_kernel c) ++
  to_cmdline_params hyphen [mkParam "smp" (prop "cpus" (pretty (sf_cpus c)))] ++
  to_cmdline_params hyphen [mkParam "m" (bare "size" (sf_memory c))] ++
  StringParam hyphen "pidfile" (sf_pid_file c) ++ OptionParam hyphen "D" (sf_log_file c) ++
  to_cmdline_params hyphen ((λ g, mkParam "global" (bare "param" g)) <$> sf_global_params c) ++
  StratoKnobs_params hyphen (sf_knobs c) ++ from_option (Firmware_params hyphen) [] (sf_firmware c).

(** ** The virtio-fs daemon: [virtiofs.rs] *)
Record VirtiofsDaemon := mkDaemon {
  vdm_path : string; vdm_log_path : string; vdm_socket_path : string; vdm_shared_dir : string; vdm_pid : option N
}.
Definition VirtiofsDaemon_params (hyphen : string) (d : VirtiofsDaemon) : list string :=
  StringParam hyphen "D" (vdm_log_path d) ++ StringParam hyphen "socket-path" (vdm_socket_path d) ++
  StringParam hyphen "source" (vdm_shared_dir d).
(** [pid] is the child, when it could be spawned. *)
Definition daemon_start (pid : option N) (d : VirtiofsDaemon) : result VirtiofsDaemon QemuError :=
  match pid with
  | None => Err QSpawn
  | Some p => Ok (mkDaemon (vdm_path d) (vdm_log_path d) (vdm_socket_path d) (vdm_shared_dir d) (Some p))
  end.
(** The process that is killed; [kill] is whether the system call succeeds. *)
Definition daemon_stop (kill : bool) (d : VirtiofsDaemon) : result (option N) QemuError :=
  match vdm_pid d with
  | None => Ok None
  | Some p => if (1 <? p)%N then (if kill then Ok (Some p) else Err QKill) else Err QKill
  end.

(** ** The VM value: [mod.rs] *)
Record StratoVM := mkStratoVM {
  st_id : string;
  st_config : StratoVirtConfig;
  st_devices : list StratoDevice;
  st_hot : list StratoBlock;
  st_fds : list N;
  st_console_socket : string;
  st_agent_socket : string;
  st_netns : string;
  st_pids : Pids;
  st_block_driver : BlockDriver;
  st_wait_chan : bool;
  st_client : bool;
  st_daemon : option VirtiofsDaemon;
  st_root_bus : option Bus;
  st_pool : option PCIERootPorts
}.

Definition StratoVM_new (id netns base_dir : string) : StratoVM :=
  mkStratoVM id StratoVirtConfig_default [] [] [] (base_dir +:+ "/console.sock") "" netns (mkPids None []) BlockImage.VirtioBlk
    false false None None None.

Section setters.
Context (v : StratoVM).
Definition set_st_config (c : StratoVirtConfig) (b : BlockDriver) : StratoVM :=
  mkStratoVM (st_id v) c (st_devices v) (st_hot v) (st_fds v) (st_console_socket v) (st_agent_socket v) (st_netns v)
    (st_pids v) b (st_wait_chan v) (st_client v) (st_daemon v) (st_root_bus v) (st_pool v).
Definition set_st_devices (l : list StratoDevice) : StratoVM :=
  mkStratoVM (st_id v) (st_config v) l (st_hot v) (st_fds v) (st_console_socket v) (st_agent_socket v) (st_netns v)
    (st_pids v) (st_block_driver v) (st_wait_chan v) (st_client v) (st_daemon v) (st_root_bus v) (st_pool v).
Definition set_st_hot (l : list StratoBlock) : StratoVM :=
  mkStratoVM (st_id v) (st_config v) (st_devices v) l (st_fds v) (st_console_socket v) (st_agent_socket v) (st_netns v)
    (st_pids v) (st_block_driver v) (st_wait_chan v) (st_client v) (st_daemon v) (st_root_bus v) (st_pool v).
Definition set_st_fds (l : list N) : StratoVM :=
  mkStratoVM (st_id v) (st_config v) (st_devices v) (st_hot v) l (st_console_socket v) (st_agent_socket v) (st_netns v)
    (st_pids v) (st_block_driver v) (st_wait_chan v) (st_client v) (st_daemon v) (st_root_bus v) (st_pool v).
Definition set_st_agent (a : string) : StratoVM :=
  mkStratoVM (st_id v) (st_config v) (st_devices v) (st_hot v) (st_fds v) (st_console_socket v) a (st_netns v)
    (st_pids v) (st_block_driver v) (st_wait_chan v) (st_client v) (st_daemon v) (st_root_bus v) (st_pool v).
Definition set_st_run (p : Pids) (wait client : bool) : StratoVM :=
  mkStratoVM (st_id v) (st_config v) (st_devices v) (st_hot v) (st_fds v) (st_console_socket v) (st_agent_socket v)
    (st_netns v) p (st_block_driver v) wait client (st_daemon v) (st_root_bus v) (st_pool v).
Definition set_st_daemon (d : VirtiofsDaemon) : StratoVM :=
  mkStratoVM (st_id v) (st_config v) (st_devices v) (st_hot v) (st_fds v) (st_console_socket v) (st_agent_socket v)
    (st_netns v) (st_pids v) (st_block_driver v) (st_wait_chan v) (st_client v) (Some d) (st_root_bus v) (st_pool v).
Definition set_st_root_bus (b : Bus) : StratoVM :=
  mkStratoVM (st_id v) (st_config v) (st_devices v) (st_hot v) (st_fds v) (st_console_socket v) (st_agent_socket v)
    (st_netns v) (st_pids v) (st_block_driver v) (st_wait_chan v) (st_client v) (st_daemon v) (Some b) (st_pool v).
Definition set_st_pool (p : PCIERootPorts) : StratoVM :=
  mkStratoVM (st_id v) (st_config v) (st_devices v) (st_hot v) (st_fds v) (st_console_socket v) (st_agent_socket v)
    (st_netns v) (st_pids v) (st_block_driver v) (st_wait_chan v) (st_client v) (st_daemon v) (st_root_bus v) (Some p).
End setters.

Abbreviation SOutcome A := (result A QemuError).

(** *** The slots of [pcie.0] *)
Definition create_pcie_root_bus : Bus :=
  mkBus PCIE "pcie.0" "" (<[0 := SlotOccupied "reserved"]> (replicate PCIE_ROOTBUS_CAPACITY SlotEmpty)).

(** Unwraps the bus. *)
Definition get_empty_pcie_slot_index (v : StratoVM) : option (SOutcome nat) :=
  b ← st_root_bus v;
  Some (match list_find (λ s, s = SlotEmpty) (bus_slots b) with Some (i, _) => Ok i | None => Err QExhausted end).

Definition strato_attach_device (d : StratoDevice) (v : StratoVM) : StratoVM := set_st_devices v (st_devices v ++ [d]).

Definition strato_attach_to_bus (d : StratoDevice) (v : StratoVM) : SOutcome StratoVM :=
  match st_root_bus v with
  | None => Ok (strato_attach_device d v)
  | Some b =>
      match list_find (λ s, s = SlotEmpty) (bus_slots b) with
      | None => Err QExhausted
      | Some (i, _) =>
          Ok (strato_attach_device (set_device_addr i d) (set_st_root_bus v (occupy i (sdev_id d) b)))
      end
  end.

(** The loop of [create_pcie_root_ports], from port [i]. *)
Fixpoint attach_ports (first : nat) (l : list nat) (v : StratoVM) : SOutcome (list RootPort * StratoVM) :=
  match l with
  | [] => Ok ([], v)
  | i :: l =>
      let slot := first + i - 1 in
      let port := RootPort_new ("pcie." +:+ pretty i) slot slot DEFAULT_PCIE_BUS None in
      match strato_attach_to_bus (SRootPort port) v with
      | Err e => Err e
      | Ok v => match attach_ports first l v with Ok (ports, v) => Ok (port :: ports, v) | Err e => Err e end
      end
  end.
Definition create_pcie_root_ports (cap : nat) (v : StratoVM) : option (SOutcome StratoVM) :=
  x ← get_empty_pcie_slot_index v;
  Some (match x with
        | Err e => Err e
        | Ok first =>
            if bool_decide (PCIE_ROOTBUS_CAPACITY - first < cap) then Err QExhausted else
            match attach_ports first (seq 1 cap) v with
            | Err e => Err e
            | Ok (ports, v) =>
                Ok (set_st_pool v (mkRootPorts "root-ports-pool"
                      (mkBus PCIE "pcie-root-ports" (pretty first) (replicate cap SlotEmpty)) ports))
            end
        end).

(** The number a descriptor gets in the child. *)
Definition strato_append_fd (fd : N) (v : StratoVM) : N * StratoVM :=
  (N.of_nat (length (st_fds v) + 3), set_st_fds v (st_fds v ++ [fd])).
Fixpoint strato_append_fds (fds : list N) (v : StratoVM) : list N * StratoVM :=
  match fds with
  | [] => ([], v)
  | fd :: fds =>
      let '(i, v) := strato_append_fd fd v in
      let '(l, v) := strato_append_fds fds v in
      (i :: l, v)
  end.

(** *** Creating: [factory.rs]

    [vsock] is the descriptor and the context id [find_context_id] got, [mkdir]
    whether the shared directory could be created. *)
Definition strato_named_config (c : StratoVirtVMConfig) (q : StratoVirtConfig) (uuid id base_dir : string) : StratoVirtConfig :=
  mkStratoConfig ("sandbox-" +:+ id) uuid (sf_path q) (sf_machine q)
    (Some (mkQmpSocket "qmp" "unix" ("/run/" +:+ id +:+ "-qmp.sock") true true)) (sf_kernel q) (sf_cpus q) (sf_memory q)
    (base_dir +:+ "/sandbox-" +:+ id +:+ ".pid")
    (if hc_debug (sc_common c) then Some (base_dir +:+ "/sandbox-" +:+ id +:+ ".log") else sf_log_file q)
    (sf_global_params q) (sf_knobs q) (sf_firmware q).

Notation "'let?' x ':=' m 'in' k" := (match m with Ok x => k | Err e => Err e end)
  (at level 200, x pattern, m at level 100, k at level 200) : qemu_scope.

Definition strato_fixed_devices (t : Transport) (v : StratoVM) : SOutcome StratoVM :=
  let? v := strato_attach_to_bus (SRng (StratoRng_new "rng0" "/dev/urandom" t DEFAULT_PCIE_BUS)) v in
  let? v := strato_attach_to_bus (SSerial (StratoSerial_new "virtio-serial0" t DEFAULT_PCIE_BUS)) v in
  let v := strato_attach_device (SChar (StratoChar_new "socket" "charconsole0" (st_console_socket v))) v in
  let v := strato_attach_device (SConsole (VirtConsole_new "virtio-console0" "charconsole0")) v in
  match skn_image (sf_kernel (st_config v)) with
  | None => Ok v
  | Some image =>
      let d := StratoBlock_new (to_driver t VIRTIO_BLK_DRIVER) "rootfs" "blk-0" (Some image) (Some true) in
      strato_attach_to_bus (SBlock (mkStratoBlock (sbd_driver d) (sbd_id d) (sbd_deviceid d) (sbd_file d) (sbd_if d)
                               (sbd_readonly d) (sbd_direct d) (Some DEFAULT_PCIE_BUS) (sbd_addr d))) v
  end.
Definition strato_vsock (t : Transport) (vsock : option (N * N)) (v : StratoVM) : SOutcome StratoVM :=
  match vsock with
  | None => Err QNoVsock
  | Some (fd, cid) =>
      let '(idx, v) := strato_append_fd fd v in
      let? v := strato_attach_to_bus (SVSock (StratoVSock_new cid t DEFAULT_PCIE_BUS idx)) v in
      Ok (set_st_agent v ("vsock://" +:+ pretty cid +:+ ":1024"))
  end.
Definition strato_share_fs (c : StratoVirtVMConfig) (t : Transport) (mkdir : bool) (id base_dir : string) (v : StratoVM)
  : SOutcome StratoVM :=
  let share := base_dir +:+ "/" +:+ SHARED_DIR_SUFFIX in
  if negb mkdir then Err QMkdirFailed else
  let chardev := "virtio-fs-" +:+ id in
  let v := strato_attach_device (SChar (StratoChar_new "socket" chardev (base_dir +:+ "/virtiofs.sock"))) v in
  let? v := strato_attach_to_bus (SFs (VhostUserFs_new ("vhost-user-fs-" +:+ id) t chardev "kuasar" DEFAULT_PCIE_BUS)) v in
  Ok (set_st_daemon v (mkDaemon (sc_virtiofsd_path c) (base_dir +:+ "/virtiofs.log") (base_dir +:+ "/virtiofs.sock") share None)).

(** Panics where [create_pcie_root_ports] would unwrap a bus that is not
    there. *)
Definition strato_create_vm (c : StratoVirtVMConfig) (vsock : option (N * N)) (mkdir : bool) (uuid id netns base_dir : string)
  : option (SOutcome StratoVM) :=
  match to_stratovirt_config c with
  | Err e => Some (Err e)
  | Ok q =>
      let v := set_st_config (StratoVM_new id netns base_dir) (strato_named_config c q uuid id base_dir)
                 (BlockDriver_from (sc_block_device_driver c)) in
      let micro := is_microvm (mc_type (sf_machine q)) in
      let v := if micro then v else set_st_root_bus v create_pcie_root_bus in
      let t := machine_transport (sf_machine q) in
      match (let? v := strato_fixed_devices t v in
             let? v := strato_vsock t vsock v in
             strato_share_fs c t mkdir id base_dir v) with
      | Err e => Some (Err e)
      | Ok v => if micro then Some (Ok v) else create_pcie_root_ports PCIE_ROOTPORT_CAPACITY v
      end
  end.

Definition strato_with_resources (vcpus memory_mb : N) (c : StratoVirtVMConfig) : StratoVirtVMConfig :=
  let k := sc_common c in
  mkStratoVmConfig (sc_path c) (sc_machine_type c) (sc_block_device_driver c)
    (mkCommon (hc_debug k) vcpus memory_mb (hc_kernel_path k) (hc_image_path k) (hc_initrd_path k) (hc_kernel_params k)
       (hc_firmware k) (hc_enable_mem_prealloc k)) (sc_virtiofsd_path c).

(** *** Attaching before the start: only taps; the rest is [todo!]. On an
    error the descriptors have been taken over already. *)
Definition strato_attach (info : QemuDeviceInfo) (v : StratoVM) : option (SOutcome unit * StratoVM) :=
  match info with
  | QTapInfo i name mac fds =>
      let '(idx, v) := strato_append_fds fds v in
      Some (match strato_attach_to_bus (SNet (StratoNet_new i name mac (machine_transport (sf_machine (st_config v))) idx)) v with
            | Ok v => (Ok tt, v)
            | Err e => (Err e, v)
            end)
  | _ => None
  end.

(** *** Plugging over QMP: [devices/block.rs] *)
Abbreviation StratoState := (QmpState StratoVM).
Abbreviation St A := (M StratoState (result A QemuError)).

Definition strato_device_add (d : StratoBlock) (rp_id : string) : DeviceAdd :=
  mkDeviceAdd "virtio-blk-pci" (Some rp_id) ("virtio-" +:+ sbd_id d) [("drive", QStr (sbd_id d)); ("addr", QStr "0x0")].

(** [to_blockdev_add] unwraps the file; an absent [read_only] is not sent. *)
Definition strato_execute_hot_attach (d : StratoBlock) (rp_id : string) : St unit :=
  match sbd_file d with
  | None => panic
  | Some file =>
      try _ := execute (BlockdevAdd (sbd_id d) file (default false (sbd_readonly d))) in
      r ← execute (CmdDeviceAdd (strato_device_add d rp_id));
      match r with
      | Ok _ => mret (Ok tt)
      | Err e => _ ← execute (BlockdevDel (sbd_id d)); mret (Err e)
      end
  end.
Definition strato_execute_hot_detach (d : StratoBlock) : St unit :=
  try _ := delete_device ("virtio-" +:+ sbd_id d) in execute (BlockdevDel (sbd_id d)).

(** The first port without a device takes this one. *)
Definition claim_port (id : string) (p : RootPort) : RootPort :=
  mkRootPort (rp_device_type p) (rp_id p) (rp_port p) (rp_bus_name p) (rp_addr p) (rp_multi_function p) id (rp_index p).
Fixpoint claim_first (id : string) (l : list RootPort) : option (RootPort * list RootPort) :=
  match l with
  | [] => None
  | p :: l =>
      if bool_decide (rp_device_id p = "") then Some (p, claim_port id p :: l)
      else match claim_first id l with Some (q, l) => Some (q, p :: l) | None => None end
  end.
Definition get_empty_rootport_slot (id : string) : St (string * nat) :=
  v ← gets q_vm;
  match st_pool v with
  | None => panic
  | Some pool =>
      match claim_first id (rps_ports pool) with
      | None => mret (Err QExhausted)
      | Some (p, ports) =>
          modify (set_qvm (λ v, set_st_pool v (mkRootPorts (rps_id pool) (rps_bus pool) ports)));;
          mret (Ok (rp_id p, rp_index p))
      end
  end.

Definition strato_get_client : St unit :=
  v ← gets q_vm; mret (if st_client v then Ok tt else Err QNoClient).

Definition strato_push_hot (d : StratoBlock) : M StratoState unit := modify (set_qvm (λ v, set_st_hot v (st_hot v ++ [d]))).

Definition strato_hot_attach_device (d : StratoBlock) : St nat :=
  try (rp, index) := get_empty_rootport_slot (sbd_id d) in
  try _ := strato_get_client in
  try _ := strato_execute_hot_attach d rp in
  strato_push_hot d;;
  mret (Ok index).

Definition strato_hot_attach (info : QemuDeviceInfo) : St (BusType * string) :=
  match info with
  | QBlockInfo i p ro =>
      try index := strato_hot_attach_device (StratoBlock_new "" i "" (Some p) (Some ro)) in
      v ← gets q_vm;
      mret (Ok (to_bus_type (st_block_driver v), "0000:00:" +:+ lower_hex2 (N.of_nat index) +:+ ".0"))
  | _ => mret (Err QUnimplemented)
  end.

(** [detach_from_bus] frees slots of the buses of [devices]; no device has
    one. *)
Definition strato_release (id : string) (d : StratoDevice) : StratoDevice :=
  match sdev_bus d with Some _ => d | None => d end.
Definition strato_detach_from_bus (id : string) : M StratoState unit :=
  modify (set_qvm (λ v, set_st_devices v (strato_release id <$> st_devices v))).

Fixpoint take_block (id : string) (l : list StratoBlock) : option (StratoBlock * list StratoBlock) :=
  match l with
  | [] => None
  | d :: l =>
      if bool_decide (sbd_id d = id) then Some (d, l)
      else match take_block id l with Some (x, l) => Some (x, d :: l) | None => None end
  end.

Definition strato_hot_detach (id : string) : St unit :=
  v ← gets q_vm;
  match take_block id (st_hot v) with
  | None => mret (Ok tt)
  | Some (d, rest) =>
      modify (set_qvm (λ v, set_st_hot v rest));;
      c ← strato_get_client;
      match c with
      | Err e => strato_push_hot d;; mret (Err e)
      | Ok _ =>
          r ← strato_execute_hot_detach d;
          match r with
          | Err e => strato_push_hot d;; mret (Err e)
          | Ok _ => strato_detach_from_bus id;; mret (Ok tt)
          end
      end
  end.

Definition strato_ping : St unit := try _ := strato_get_client in execute QueryStatus.

(** *** Starting and stopping *)
Section start.
Context `{ParamOrder}.

Definition strato_launch_params (v : StratoVM) : option (list string) :=
  l ← mapM strato_device_params (st_devices v);
  Some (StratoVirtConfig_params "-" (st_config v) ++ mjoin (to_cmdline_params "-" <$> l)).

(** The result, the VM value, and the arguments and descriptors of the
    StratoVirt that was launched, if one was; the daemon is unwrapped. *)
Definition strato_start (o : StartOutcome) (v : StratoVM)
  : option (SOutcome N * StratoVM * option (list string * list N)) :=
  d ← st_daemon v;
  match daemon_start (so_virtiofsd o) d with
  | Err e => Some (Err e, v, None)
  | Ok d =>
      let v := set_st_daemon v d in
      params ← strato_launch_params v;
      let fds := st_fds v in
      let v := set_st_fds v [] in
      if negb (so_launch o) then Some (Err QSpawn, v, None) else
      let v := set_st_run v (st_pids v) true (st_client v) in
      Some (match connect_qmp (so_connects o) with
            | Err e => (Err e, v, Some (params, fds))
            | Ok _ =>
                let v := set_st_run v (st_pids v) true true in
                match detect_pid (so_reads o) (so_cmdline o) (sf_path (st_config v)) with
                | Err e => (Err e, v, Some (params, fds))
                | Ok pid =>
                    (Ok pid, set_st_run v (mkPids (Some pid) (pid_affiliated (st_pids v) ++ option_list (vdm_pid d))) true true,
                     Some (params, fds))
                end
            end)
  end.
End start.

(** [stop]; [kill] is whether the daemon could be killed, [ended] whether the
    wait channel reported the end within 10 seconds. The processes that were
    killed, and the result. *)
Definition stop_daemon (kill : bool) (v : StratoVM) : SOutcome (option N) :=
  match st_daemon v with Some d => daemon_stop kill d | None => Ok None end.
Definition strato_quit (force : bool) : St unit :=
  c ← strato_get_client;
  match c, force with
  | Ok _, false => execute Quit
  | Err e, false => mret (Err e)
  | Ok _, true => _ ← execute Quit; mret (Ok tt)
  | Err _, true => mret (Ok tt)
  end.
Definition strato_wait_stop (ended : bool) : St unit :=
  v ← gets q_vm; mret (if st_wait_chan v && negb ended then Err QTimeout else Ok tt).
Definition killed_vmm (v : StratoVM) : list N :=
  match pid_vmm (st_pids v) with Some p => if (p =? 0)%N then [] else [p] | None => [] end.
Definition strato_stop (force kill ended : bool) : M StratoState (list N * SOutcome unit) :=
  v ← gets q_vm;
  let daemon := stop_daemon kill v in
  let gone := match daemon with Ok o => option_list o | Err _ => [] end in
  match daemon, force with
  | Err e, false => mret ([], Err e)
  | _, _ =>
      q ← strato_quit force;
      match q with
      | Err e => mret (gone, Err e)
      | Ok _ =>
          w ← strato_wait_stop ended;
          mret (match w with
                | Ok _ => (gone, Ok tt)
                | Err e => if force then (gone ++ killed_vmm v, Ok tt) else (gone, Err e)
                end)
      end
  end.

(** [hooks.rs] *)
Definition strato_task_address (v : StratoVM) : string := "ttrpc+" +:+ st_agent_socket v.
