(* ===== verification/StratoProps.v ===== *)
(** * StratoVirt: slots, root ports and hot plugging

    The devices of a VM have slots of their own on [pcie.0]; a disk that is
    plugged in gets a root port no other disk is behind, and the address the
    guest is told is the slot of that port. Ports are never given back. *)
From S2P Require Import Prelude Strs Storage Types Metrics Disk Pool Continuation GuestScan Mount Frame Inject Annotations Box BlockImage StorageOps Handlers Sandboxer ChConfig Net GuestDevice QemuConfig QemuDriver QemuSlots QemuProps Strato.

(** ** Slots of the root bus *)
Definition addrs (v : StratoVM) : list string := filter (λ a, a ≠ "") (sdev_addr <$> st_devices v).

Lemma sdev_addr_set n d : sdev_addr (set_device_addr n d) = addr_text n.
Proof. by destruct d. Qed.
Lemma addr_text_nonempty n : addr_text n ≠ "".
Proof. done. Qed.
Lemma addr_text_inj i j : i < 32 → j < 32 → addr_text i = addr_text j → i = j.
Proof.
  intros Hi Hj E.
  assert (forallb (λ a, forallb (λ b, bool_decide (addr_text a = addr_text b → a = b)) (seq 0 32)) (seq 0 32) = true) as F
    by (vm_compute; reflexivity).
  rewrite forallb_forall in F. assert (In i (seq 0 32)) as Hi' by (apply in_seq; lia).
  specialize (F _ Hi'). rewrite forallb_forall in F. assert (In j (seq 0 32)) as Hj' by (apply in_seq; lia).
  specialize (F _ Hj'). apply bool_decide_eq_true in F. auto.
Qed.

Lemma addrs_add v d : addrs (strato_attach_device d v) = addrs v ++ filter (λ a, a ≠ "") [sdev_addr d].
Proof. unfold addrs. simpl. by rewrite fmap_app, filter_app. Qed.

(** The slots from [n] on are empty, and the devices have the addresses from 1
    to [n - 1], in order. *)
Record bus_inv (n : nat) (v : StratoVM) : Prop := mkBusInv {
  bi_pos : 1 ≤ n ≤ 32;
  bi_bus : ∃ b, st_root_bus v = Some b ∧ length (bus_slots b) = 32 ∧ ∀ i, bus_slots b !! i = Some SlotEmpty ↔ n ≤ i < 32;
  bi_addrs : addrs v = addr_text <$> seq 1 (n - 1)
}.

Lemma first_slot b n :
  length (bus_slots b) = 32 → (∀ i, bus_slots b !! i = Some SlotEmpty ↔ n ≤ i < 32) →
  list_find (λ s, s = SlotEmpty) (bus_slots b) = if decide (n < 32) then Some (n, SlotEmpty) else None.
Proof.
  intros Hl He. destruct (decide (n < 32)) as [Hn|Hn].
  - apply list_find_Some. split; [apply He; lia|]. split; [done|].
    intros j y Hy Hj ->. apply He in Hy. lia.
  - apply list_find_None, Forall_lookup. intros i s Hi ->. apply He in Hi. lia.
Qed.

(** What attaching devices leaves alone. *)
Definition same_rest (v v' : StratoVM) : Prop := st_pool v' = st_pool v ∧ st_hot v' = st_hot v.

Lemma attach_to_bus_spec d n v v' :
  bus_inv n v → strato_attach_to_bus d v = Ok v' →
  n < 32 ∧ bus_inv (S n) v' ∧ st_devices v' = st_devices v ++ [set_device_addr n d] ∧ same_rest v v'.
Proof.
  intros [Hp (b & Eb & Hl & He) Ha]. unfold strato_attach_to_bus. rewrite Eb, (first_slot b n Hl He).
  destruct (decide (n < 32)) as [Hn|]; [|done]. intros [= <-]. split; [done|]. split; [|done]. split.
  - lia.
  - exists (occupy n (sdev_id d) b). split; [done|]. simpl. rewrite length_insert. split; [done|]. intros i.
    destruct (decide (i = n)) as [->|Hne].
    + rewrite list_lookup_insert_eq by lia. split; [done|lia].
    + rewrite list_lookup_insert_ne by done. rewrite He. lia.
  - rewrite addrs_add, sdev_addr_set. change (addrs _) with (addrs v). rewrite Ha.
    rewrite filter_cons_True by apply addr_text_nonempty. rewrite filter_nil.
    replace (S n - 1) with (S (n - 1)) by lia. rewrite seq_S, fmap_app. simpl. by replace (S (n - 1)) with n by lia.
Qed.

Lemma unplaced_inv n d v : sdev_addr d = "" → bus_inv n v → bus_inv n (strato_attach_device d v).
Proof.
  intros Ed [Hp Hb Ha]. split; [done|done|]. rewrite addrs_add, Ed, Ha. by rewrite filter_cons_False, filter_nil, app_nil_r by naive_solver.
Qed.

Lemma bus_inv_nodup n v : bus_inv n v → NoDup (addrs v).
Proof.
  intros [Hp _ ->]. apply NoDup_fmap_2_strong; [|apply NoDup_seq].
  intros x y Hx%elem_of_seq Hy%elem_of_seq E. apply addr_text_inj; [lia..|done].
Qed.

(** Two devices at one address are one. *)
Lemma same_address n v d d' :
  bus_inv n v → d ∈ st_devices v → d' ∈ st_devices v → sdev_addr d ≠ "" → sdev_addr d' = sdev_addr d → d' = d.
Proof.
  intros Hn Hd Hd' Ha E. apply bus_inv_nodup in Hn. unfold addrs in Hn.
  induction (st_devices v) as [|x l IH]; [by apply elem_of_nil in Hd|].
  rewrite fmap_cons, filter_cons in Hn. apply elem_of_cons in Hd as [->|Hd], Hd' as [->|Hd']; [done|..].
  - rewrite decide_True in Hn by done.
    exfalso. apply NoDup_cons in Hn as [Hx _]. apply Hx. apply list_elem_of_filter. split; [done|].
    rewrite <- E. by apply list_elem_of_fmap_2.
  - exfalso. rewrite decide_True in Hn by congruence. apply NoDup_cons in Hn as [Hx _]. apply Hx.
    apply list_elem_of_filter. split; [congruence|]. rewrite E. by apply list_elem_of_fmap_2.
  - apply IH; [|done|done]. destruct (decide _); [by apply NoDup_cons in Hn as [_ ?]|done].
Qed.

(** ** Root ports *)
Definition port_at (first i : nat) : RootPort :=
  RootPort_new ("pcie." +:+ pretty i) (first + i - 1) (first + i - 1) DEFAULT_PCIE_BUS None.

Lemma attach_ports_spec first k i v ports v' :
  1 ≤ i → bus_inv (first + i - 1) v → attach_ports first (seq i k) v = Ok (ports, v') →
  ports = port_at first <$> seq i k
  ∧ st_devices v' = st_devices v ++ ((λ j, set_device_addr (first + j - 1) (SRootPort (port_at first j))) <$> seq i k)
  ∧ bus_inv (first + i - 1 + k) v' ∧ first + i - 1 + k ≤ 32 ∧ same_rest v v'.
Proof.
  revert i v ports v'. induction k as [|k IH]; intros i v ports v' Hi Hv; cbn [seq attach_ports].
  - intros [= <- <-]. rewrite app_nil_r, Nat.add_0_r. pose proof (bi_pos _ _ Hv). do 3 (split; [done|]). split; [lia|done].
  - destruct (strato_attach_to_bus _ v) as [v1|] eqn:E1; [|done].
    apply (attach_to_bus_spec _ _ _ _ Hv) in E1 as (Hn & Hv1 & Ed1 & [Ep1 Eh1]).
    destruct (attach_ports first (seq (S i) k) v1) as [[ports2 v2]|] eqn:E2; [|done]. intros [= <- <-].
    replace (S (first + i - 1)) with (first + S i - 1) in Hv1 by lia.
    destruct (IH (S i) v1 _ _ ltac:(lia) Hv1 E2) as (-> & Ed2 & Hv2 & Hle & [Ep2 Eh2]).
    split; [done|]. split; [by rewrite Ed2, Ed1, <- app_assoc|].
    replace (first + i - 1 + S k) with (first + S i - 1 + k) by lia. do 2 (split; [done|]). split; congruence.
Qed.

(** A port of the pool is a device on the command line, at the address that is
    its index. *)
Definition port_placed (v : StratoVM) (p : RootPort) : Prop :=
  ∃ q, SRootPort q ∈ st_devices v ∧ rp_id q = rp_id p ∧ rp_addr q = addr_text (rp_index p) ∧ rp_index p < 32.
Record pool_inv (v : StratoVM) (ports : list RootPort) : Prop := mkPoolInv {
  pi_slots : ∃ n, bus_inv n v;
  pi_ids : NoDup (rp_id <$> ports);
  pi_placed : Forall (port_placed v) ports
}.
Definition ports_of (v : StratoVM) : list RootPort := from_option rps_ports [] (st_pool v).

Lemma port_at_id first i : rp_id (port_at first i) = "pcie." +:+ pretty i.
Proof. done. Qed.

Lemma create_ports_spec cap n v v' :
  bus_inv n v → create_pcie_root_ports cap v = Some (Ok v') →
  pool_inv v' (ports_of v') ∧ is_Some (st_pool v') ∧ length (ports_of v') = cap
  ∧ Forall (λ p, rp_device_id p = "") (ports_of v') ∧ st_hot v' = st_hot v.
Proof.
  intros Hv. pose proof Hv as [Hp (b & Eb & Hl & He) Ha]. unfold create_pcie_root_ports, get_empty_pcie_slot_index.
  rewrite Eb. simpl. rewrite (first_slot b n Hl He). destruct (decide (n < 32)) as [Hn|]; [|done].
  case_bool_decide; [done|]. destruct (attach_ports n (seq 1 cap) v) as [[ports v1]|] eqn:E; [|done]. intros [= <-].
  replace n with (n + 1 - 1) in Hv by lia.
  destruct (attach_ports_spec _ _ _ _ _ _ (le_n 1) Hv E) as (-> & Ed & Hv1 & Hle & [_ Eh]).
  unfold ports_of. simpl. rewrite length_fmap, length_seq. split; [|repeat split; try done; by apply Forall_fmap, Forall_true].
  split.
  - exists (n + 1 - 1 + cap). destruct Hv1 as [H1 H2 H3]. by split.
  - rewrite <- list_fmap_compose. apply NoDup_fmap_2_strong; [|apply NoDup_seq]. intros x y _ _ Exy. simpl in Exy. by simplify_eq.
  - apply Forall_forall. intros p (j & -> & Hj)%list_elem_of_fmap.
    exists (mkRootPort "pcie-root-port" (rp_id (port_at n j)) (rp_port (port_at n j)) DEFAULT_PCIE_BUS (addr_text (n + j - 1)) None "" (n + j - 1)).
    split; [|repeat split; simpl; apply elem_of_seq in Hj; lia].
    simpl. rewrite Ed. apply elem_of_app. right. by apply (list_elem_of_fmap_2' _ _ j).
Qed.

(** ** Creating *)
Lemma fixed_devices_spec t n v v' :
  bus_inv n v → strato_fixed_devices t v = Ok v' → ∃ m, bus_inv m v' ∧ same_rest v v'.
Proof.
  intros Hv. unfold strato_fixed_devices.
  destruct (strato_attach_to_bus _ v) as [v1|] eqn:E1; [|done]. apply (attach_to_bus_spec _ _ _ _ Hv) in E1 as (_ & Hv1 & _ & [P1 H1]).
  destruct (strato_attach_to_bus _ v1) as [v2|] eqn:E2; [|done]. apply (attach_to_bus_spec _ _ _ _ Hv1) in E2 as (_ & Hv2 & _ & [P2 H2]).
  set (v3 := strato_attach_device _ (strato_attach_device _ v2)).
  assert (bus_inv (S (S n)) v3) as Hv3 by (by repeat (apply unplaced_inv; [done|])).
  destruct (skn_image _).
  - intros E4. apply (attach_to_bus_spec _ _ _ _ Hv3) in E4 as (_ & Hv4 & _ & [P4 H4]). simpl in *.
    exists (S (S (S n))). split; [done|]. split; congruence.
  - intros [= <-]. exists (S (S n)). split; [done|]. split; simpl; congruence.
Qed.

Lemma vsock_spec t vs n v v' : bus_inv n v → strato_vsock t vs v = Ok v' → ∃ m, bus_inv m v' ∧ same_rest v v'.
Proof.
  intros Hv. unfold strato_vsock. destruct vs as [[fd cid]|]; [|done]. simpl.
  assert (bus_inv n (set_st_fds v (st_fds v ++ [fd]))) as Hv0 by (by destruct Hv).
  destruct (strato_attach_to_bus _ _) as [v1|] eqn:E1; [|done]. intros [= <-].
  apply (attach_to_bus_spec _ _ _ _ Hv0) in E1 as (_ & [? ? ?] & _ & [P1 H1]). by exists (S n).
Qed.

Lemma share_fs_spec c t mk id base n v v' :
  bus_inv n v → strato_share_fs c t mk id base v = Ok v' → ∃ m, bus_inv m v' ∧ same_rest v v'.
Proof.
  intros Hv. unfold strato_share_fs. destruct mk; [|done]. simpl. set (v0 := strato_attach_device _ v).
  assert (bus_inv n v0) as Hv0 by (by apply unplaced_inv).
  destruct (strato_attach_to_bus _ _) as [v1|] eqn:E1; [|done]. intros [= <-].
  apply (attach_to_bus_spec _ _ _ _ Hv0) in E1 as (_ & [? ? ?] & _ & [P1 H1]). by exists (S n).
Qed.

(** Only [create_pcie_root_ports] makes a pool. *)
Lemma attach_to_bus_rest d v v' : strato_attach_to_bus d v = Ok v' → same_rest v v'.
Proof.
  unfold strato_attach_to_bus. destruct (st_root_bus v) as [b|]; [|by intros [= <-]].
  destruct (list_find _ _) as [[i s]|]; [|done]. by intros [= <-].
Qed.
Lemma rest_trans v1 v2 v3 : same_rest v1 v2 → same_rest v2 v3 → same_rest v1 v3.
Proof. intros [? ?] [? ?]. split; congruence. Qed.
Ltac attach_rest :=
  repeat match goal with
  | |- context [match strato_attach_to_bus ?d ?v with Ok _ => _ | Err _ => _ end] =>
      let E := fresh in destruct (strato_attach_to_bus d v) eqn:E; [|done]; apply attach_to_bus_rest in E
  end.

Lemma base_rest c t vs mk id base v v' :
  (let? v := strato_fixed_devices t v in let? v := strato_vsock t vs v in strato_share_fs c t mk id base v) = Ok v' →
  same_rest v v'.
Proof.
  destruct (strato_fixed_devices t v) as [v1|] eqn:E1; [|done].
  assert (same_rest v v1) as S1.
  { revert E1. unfold strato_fixed_devices. attach_rest.
    destruct (skn_image _); [intros E%attach_to_bus_rest|intros [= <-]];
      (eapply rest_trans; [eassumption|eapply rest_trans; [eassumption|]]; done). }
  destruct (strato_vsock t vs v1) as [v2|] eqn:E2; [|done]. intros E3. eapply rest_trans; [exact S1|]. apply (rest_trans _ v2).
  - revert E2. unfold strato_vsock. destruct vs as [[fd cid]|]; [|done]. simpl. attach_rest. by intros [= <-].
  - revert E3. unfold strato_share_fs. destruct mk; [|done]. simpl. attach_rest. by intros [= <-].
Qed.

Lemma base_slots c t vs mk id base n v v' :
  bus_inv n v →
  (let? v := strato_fixed_devices t v in let? v := strato_vsock t vs v in strato_share_fs c t mk id base v) = Ok v' →
  ∃ m, bus_inv m v'.
Proof.
  intros Hv. destruct (strato_fixed_devices t v) as [v1|] eqn:E1; [|done]. destruct (fixed_devices_spec _ _ _ _ Hv E1) as (m1 & H1 & _).
  destruct (strato_vsock t vs v1) as [v2|] eqn:E2; [|done]. destruct (vsock_spec _ _ _ _ _ H1 E2) as (m2 & H2 & _). intros E3.
  destruct (share_fs_spec _ _ _ _ _ _ _ _ H2 E3) as (m3 & H3 & _). eauto.
Qed.

(** The ports of the pool, once there is one. *)
Definition ports_ok (v : StratoVM) : Prop := ∀ pool, st_pool v = Some pool → pool_inv v (rps_ports pool).

Lemma create_vm_spec c vs mk uuid id netns base v :
  strato_create_vm c vs mk uuid id netns base = Some (Ok v) →
  ports_ok v ∧ st_hot v = [] ∧ Forall (λ p, rp_device_id p = "") (ports_of v)
  ∧ length (ports_of v) = if is_microvm (sc_machine_type c) then 0 else PCIE_ROOTPORT_CAPACITY.
Proof.
  unfold strato_create_vm. destruct (to_stratovirt_config c) as [q|] eqn:Eq; [|done].
  assert (mc_type (sf_machine q) = sc_machine_type c) as -> by (unfold to_stratovirt_config in Eq; by repeat case_match; simplify_eq).
  set (v0 := set_st_config _ _ _).
  destruct (match strato_fixed_devices _ _ with Ok _ => _ | Err _ => _ end) as [v1|] eqn:E1; [|done].
  pose proof (base_rest _ _ _ _ _ _ _ _ E1) as [P1 H1]. destruct (is_microvm _) eqn:Em.
  - intros [= <-]. unfold ports_ok, ports_of. rewrite P1, H1. done.
  - assert (bus_inv 1 (set_st_root_bus v0 create_pcie_root_bus)) as Hv0.
    { split; [lia| |done]. exists create_pcie_root_bus. do 2 (split; [done|]). intros i. unfold create_pcie_root_bus. simpl.
      destruct i as [|i]; simpl; [split; [done|lia]|].
      change (replicate 31 SlotEmpty !! i = Some SlotEmpty ↔ 1 ≤ S i < 32).
      rewrite lookup_replicate. split; [intros [_ ?]; lia|split; [done|lia]]. }
    destruct (base_slots _ _ _ _ _ _ _ _ _ Hv0 E1) as [m Hm]. intros E2.
    destruct (create_ports_spec _ _ _ _ Hm E2) as (Hpool & [pool Ep] & Hlen & Hfree & Hh).
    split; [|split; [by rewrite Hh, H1|done]]. intros pool' Ep'. unfold ports_of in Hpool. rewrite Ep' in Hpool. exact Hpool.
Qed.

(** ** Up to the start *)
Lemma pool_inv_ext v v' ports :
  st_devices v' = st_devices v → st_root_bus v' = st_root_bus v → pool_inv v ports → pool_inv v' ports.
Proof.
  intros Ed Eb [[n [H1 H2 H3]] Hi Hp]. split; [|done|].
  - exists n. split; [done|by rewrite Eb|]. unfold addrs in *. by rewrite Ed.
  - eapply Forall_impl; [exact Hp|]. intros p (q & ? & ?). exists q. by rewrite Ed.
Qed.

Lemma pool_inv_attach d v v' ports : strato_attach_to_bus d v = Ok v' → pool_inv v ports → pool_inv v' ports.
Proof.
  intros E [[n Hn] Hi Hp]. destruct (attach_to_bus_spec _ _ _ _ Hn E) as (_ & Hn' & Ed & _). split; [by exists (S n)|done|].
  eapply Forall_impl; [exact Hp|]. intros p (q & ? & ?). exists q. rewrite Ed, elem_of_app. auto.
Qed.

(** The same pool and disks, and the ports in their places. *)
Definition carries (v v' : StratoVM) : Prop := same_rest v v' ∧ ∀ ports, pool_inv v ports → pool_inv v' ports.
Lemma carries_trans v1 v2 v3 : carries v1 v2 → carries v2 v3 → carries v1 v3.
Proof. intros [R1 I1] [R2 I2]. split; [by eapply rest_trans|auto]. Qed.

Lemma append_fds_carries fds v : carries v (strato_append_fds fds v).2.
Proof.
  revert v. induction fds as [|fd fds IH]; intros v; [by split|]. cbn [strato_append_fds strato_append_fd].
  specialize (IH (set_st_fds v (st_fds v ++ [fd]))). destruct (strato_append_fds fds _) as [l v']. simpl in *.
  eapply carries_trans; [|exact IH]. split; [done|]. intros ports. by apply pool_inv_ext.
Qed.

Lemma tap_carries info v r v' : strato_attach info v = Some (r, v') → carries v v'.
Proof.
  destruct info as [|i name mac fds| | |]; try done. unfold strato_attach. pose proof (append_fds_carries fds v) as C.
  destruct (strato_append_fds fds v) as [idx v1]. simpl in C. destruct (strato_attach_to_bus _ v1) as [v2|] eqn:E; intros [= <- <-]; [|done].
  eapply carries_trans; [exact C|]. split; [by eapply attach_to_bus_rest|]. intros ports. by eapply pool_inv_attach.
Qed.

Fixpoint attach_taps (l : list QemuDeviceInfo) (v : StratoVM) : option StratoVM :=
  match l with [] => Some v | i :: l => x ← strato_attach i v; attach_taps l x.2 end.
Lemma taps_carry l v v' : attach_taps l v = Some v' → carries v v'.
Proof.
  revert v. induction l as [|i l IH]; intros v; simpl; [intros [= <-]; by split|].
  intros ([r v1] & E1 & E2)%bind_Some. eapply carries_trans; [by eapply tap_carries|by apply IH].
Qed.

Lemma start_carries `{ParamOrder} o v n v' l : strato_start o v = Some (Ok n, v', l) → carries v v' ∧ st_client v' = true.
Proof.
  unfold strato_start. intros (d & Ed & E)%bind_Some. destruct (daemon_start _ d) as [d'|]; [|done].
  apply bind_Some in E as (ps & _ & E). destruct (so_launch o); [|done]. simpl in E.
  destruct (connect_qmp _); [|done]. destruct (detect_pid _ _ _); [|done]. injection E as <- <- <-.
  split; [|done]. split; [done|]. intros ports. by apply pool_inv_ext.
Qed.

(** ** Runs *)
Inductive strato_run `{ParamOrder} (c : StratoVirtVMConfig) : StratoState → Prop :=
  | srun_started vs mk uuid id netns base v0 taps v1 o n v l :
      strato_create_vm c vs mk uuid id netns base = Some (Ok v0) → attach_taps taps v0 = Some v1 →
      strato_start o v1 = Some (Ok n, v, l) → strato_run c (mkQState v (mkQMachine true [] [] []) [] [])
  | srun_attach s i p ro replies r s' :
      strato_run c s → i ≠ "" → strato_hot_attach (QBlockInfo i p ro) (answering replies s) = Some (r, s') → strato_run c s'
  | srun_detach s id replies r s' :
      strato_run c s → strato_hot_detach id (answering replies s) = Some (r, s') → strato_run c s'.

(** A device StratoVirt has got is behind a port that is taken. *)
Definition behind (ports : list RootPort) (a : DeviceAdd) : Prop :=
  ∃ p, p ∈ ports ∧ rp_device_id p ≠ "" ∧ da_bus a = Some (rp_id p).
Record strato_inv (s : StratoState) : Prop := mkStratoInv {
  vi_pool : ports_ok (q_vm s);
  vi_buses : NoDup (da_bus <$> plugged s);
  vi_behind : Forall (behind (ports_of (q_vm s))) (plugged s)
}.

Lemma claim_first_spec id l p l' :
  claim_first id l = Some (p, l') → ∃ l1 l2, l = l1 ++ p :: l2 ∧ l' = l1 ++ claim_port id p :: l2 ∧ rp_device_id p = ""
    ∧ Forall (λ q, rp_device_id q ≠ "") l1.
Proof.
  revert l'. induction l as [|q l IH]; intros l'; simpl; [done|]. case_bool_decide.
  - intros [= <- <-]. by exists [], l.
  - destruct (claim_first id l) as [[x k]|]; [|done]. intros [= <- <-].
    destruct (IH _ eq_refl) as (l1 & l2 & -> & -> & ? & ?). exists (q :: l1), l2. repeat split; try done. by constructor.
Qed.
Lemma claim_first_none id l : claim_first id l = None ↔ Forall (λ q, rp_device_id q ≠ "") l.
Proof.
  induction l as [|q l IH]; simpl; [by split|]. rewrite Forall_cons, <- IH. case_bool_decide; [naive_solver|].
  destruct (claim_first id l) as [[x k]|]; naive_solver.
Qed.

(** The VM value with a port taken for [id]. *)
Definition with_ports (l : list RootPort) (v : StratoVM) : StratoVM :=
  match st_pool v with Some pool => set_st_pool v (mkRootPorts (rps_id pool) (rps_bus pool) l) | None => v end.

Lemma execute_attach_outcome d rp s r s' :
  strato_execute_hot_attach d rp s = Some (r, s') →
  q_vm s' = q_vm s ∧ (up s' → up s) ∧
  match r with
  | Ok _ => up s ∧ plugged s' = plugged s ++ [strato_device_add d rp]
  | Err _ => plugged s' = plugged s ∨ (up s ∧ ¬ up s' ∧ plugged s' = plugged s ++ [strato_device_add d rp])
  end.
Proof. unfold strato_execute_hot_attach. destruct (sbd_file d); [|done]. by apply add_device_outcome. Qed.

(** Every outcome of an attach: no port is left, or the first free port is
    taken and the device is behind it, or not. *)
Lemma attach_cases d s r s' :
  strato_hot_attach_device d s = Some (r, s') →
  is_Some (st_pool (q_vm s)) ∧
  ((r = Err QExhausted ∧ s' = s ∧ Forall (λ q, rp_device_id q ≠ "") (ports_of (q_vm s))) ∨
   ∃ p l, claim_first (sbd_id d) (ports_of (q_vm s)) = Some (p, l)
     ∧ match r with
       | Ok n => n = rp_index p ∧ q_vm s' = set_st_hot (with_ports l (q_vm s)) (st_hot (q_vm s) ++ [d])
           ∧ plugged s' = plugged s ++ [strato_device_add d (rp_id p)]
       | Err _ => q_vm s' = with_ports l (q_vm s)
           ∧ (plugged s' = plugged s ∨ (¬ up s' ∧ plugged s' = plugged s ++ [strato_device_add d (rp_id p)]))
       end).
Proof.
  unfold strato_hot_attach_device. intros E. apply bind_inv in E as (x & s1 & E1 & E).
  unfold get_empty_rootport_slot in E1. apply bind_inv in E1 as (v & s0 & [= <- <-] & E1).
  unfold ports_of, with_ports. destruct (st_pool (q_vm s)) as [pool|] eqn:Ep; [|done]. simpl. split; [done|].
  destruct (claim_first _ _) as [[p l]|] eqn:Ec.
  2:{ injection E1 as <- <-. injection E as <- <-. left. split; [done|]. split; [done|]. by eapply claim_first_none. }
  right. exists p, l. split; [done|]. apply bind_inv in E1 as (? & s2 & [= <- <-] & E1). injection E1 as <- <-.
  apply bind_inv in E as (c & s3 & Ecl & E). unfold strato_get_client in Ecl. apply bind_inv in Ecl as (? & ? & [= <- <-] & Ecl).
  injection Ecl as <- <-. simpl in E. destruct (st_client (q_vm s)).
  2:{ injection E as <- <-. simpl. split; [done|by left]. }
  apply bind_inv in E as (y & s4 & E4 & E). apply execute_attach_outcome in E4 as (Hv4 & Hu4 & P4). simpl in Hv4.
  destruct y as [[]|].
  - apply bind_inv in E as (? & s5 & [= <- <-] & E). injection E as <- <-. simpl. rewrite Hv4. split; [done|]. split; [done|].
    exact (proj2 P4).
  - injection E as <- <-. split; [done|]. destruct P4 as [?|(_ & ? & ?)]; auto.
Qed.

(** ** Taking a port *)
Lemma claim_pool_inv id v ports p l : claim_first id ports = Some (p, l) → pool_inv v ports → pool_inv v l.
Proof.
  intros (l1 & l2 & -> & -> & _ & _)%claim_first_spec [Hn Hi Hp]. split; [done| |].
  - rewrite fmap_app, fmap_cons in *. exact Hi.
  - rewrite Forall_app, Forall_cons in *. naive_solver.
Qed.

(** No device is behind a port that is free. *)
Lemma free_port_unused v ports p l id (pl : list DeviceAdd) :
  claim_first id ports = Some (p, l) → pool_inv v ports → Forall (behind ports) pl → Some (rp_id p) ∉ da_bus <$> pl.
Proof.
  intros (l1 & l2 & -> & _ & Hp & _)%claim_first_spec [_ Hi _] Hb (a & Ea & Ha)%list_elem_of_fmap.
  rewrite Forall_forall in Hb. destruct (Hb a Ha) as (q & Hq & Hqid & Eq). rewrite Eq in Ea. injection Ea as Ea.
  rewrite fmap_app, fmap_cons in Hi. apply NoDup_app in Hi as (_ & H12 & [Hx _]%NoDup_cons).
  apply elem_of_app in Hq as [Hq|[->|Hq]%elem_of_cons]; [|done|].
  - apply (H12 (rp_id q)); [by apply list_elem_of_fmap_2|]. rewrite <- Ea. by left.
  - apply Hx. rewrite Ea. by apply list_elem_of_fmap_2.
Qed.

Lemma claim_behind id ports p l a : claim_first id ports = Some (p, l) → behind ports a → behind l a.
Proof.
  intros (l1 & l2 & -> & -> & Hp & _)%claim_first_spec (q & Hq & Hid & Ea). exists q. split; [|done].
  rewrite elem_of_app, elem_of_cons in *. naive_solver.
Qed.
Lemma claimed_behind id ports p l d :
  id ≠ "" → claim_first id ports = Some (p, l) → behind l (strato_device_add d (rp_id p)).
Proof.
  intros Hid (l1 & l2 & -> & -> & Hp & _)%claim_first_spec. exists (claim_port id p). split; [|done].
  apply elem_of_app. right. by left.
Qed.

Lemma ports_ok_inv v : ports_ok v → is_Some (st_pool v) → pool_inv v (ports_of v).
Proof. intros H [pool E]. unfold ports_of. rewrite E. by apply H. Qed.
Lemma ports_with l v : is_Some (st_pool v) → ports_of (with_ports l v) = l.
Proof. intros [pool E]. unfold ports_of, with_ports. by rewrite E. Qed.

(** Whether the device arrived or not, its port is taken. *)
Lemma attach_keeps_inv d s r s' :
  strato_inv s → sbd_id d ≠ "" → strato_hot_attach_device d s = Some (r, s') → strato_inv s'.
Proof.
  intros [Hok Hn Hb] Hid E. apply attach_cases in E as (Hs & [(_ & -> & _)|(p & l & Ec & Hr)]); [done|].
  pose proof (ports_ok_inv _ Hok Hs) as Hpool. pose proof (free_port_unused _ _ _ _ _ _ Ec Hpool Hb) as Hfree.
  assert (∀ h, ports_ok (set_st_hot (with_ports l (q_vm s)) h)) as Hok'.
  { intros h pool. unfold with_ports. destruct Hs as [pl Epl]. rewrite Epl. intros [= <-]. simpl.
    apply (pool_inv_ext (q_vm s)); [done..|]. by eapply claim_pool_inv. }
  assert (NoDup (da_bus <$> plugged s') ∧ Forall (behind l) (plugged s')) as [Hn' Hb'].
  { assert (plugged s' = plugged s ∨ plugged s' = plugged s ++ [strato_device_add d (rp_id p)]) as [-> | ->] by (destruct r; naive_solver).
    - split; [done|]. eapply Forall_impl; [exact Hb|]. intros a. by eapply claim_behind.
    - rewrite fmap_app, Forall_app, Forall_singleton. split; [|split; [|by eapply claimed_behind]].
      + apply NoDup_app. split; [done|]. split; [|apply NoDup_singleton]. intros x Hx ->%list_elem_of_singleton. done.
      + eapply Forall_impl; [exact Hb|]. intros a. by eapply claim_behind. }
  assert (∃ h, q_vm s' = set_st_hot (with_ports l (q_vm s)) h) as [h Ev].
  { destruct r; [destruct Hr as (_ & -> & _); by eexists|]. destruct Hr as [-> _]. exists (st_hot (with_ports l (q_vm s))). by destruct (with_ports _ _). }
  split; rewrite ?Ev; [apply Hok'|done|]. change (ports_of _) with (ports_of (with_ports l (q_vm s))). by rewrite ports_with.
Qed.

(** ** Detaching *)
Lemma release_none id (l : list StratoDevice) : strato_release id <$> l = l.
Proof. induction l as [|d l IH]; [done|]. by rewrite fmap_cons, IH. Qed.
Lemma strato_detach_outcome id s r s' :
  strato_hot_detach id s = Some (r, s') →
  (∃ l, q_vm s' = set_st_hot (q_vm s) l) ∧
  (plugged s' = plugged s ∨ ∃ qid, plugged s' = filter (λ a, da_id a ≠ qid) (plugged s)).
Proof.
  unfold strato_hot_detach. intros E. apply bind_inv in E as (v & s0 & [= <- <-] & E).
  destruct (take_block _ _) as [[d rest]|].
  2:{ injection E as <- <-. split; [|by left]. exists (st_hot (q_vm s)). by destruct (q_vm s). }
  apply bind_inv in E as (? & s1 & [= <- <-] & E). apply bind_inv in E as (c & s2 & Ec & E).
  unfold strato_get_client in Ec. apply bind_inv in Ec as (? & ? & [= <- <-] & Ec). injection Ec as <- <-.
  simpl in E. destruct (st_client (q_vm s)).
  2:{ apply bind_inv in E as (? & s3 & [= <- <-] & E). injection E as <- <-. split; [by eexists|by left]. }
  apply bind_inv in E as (x & s3 & E3 & E). unfold strato_execute_hot_detach in E3.
  apply remove_device_outcome in E3 as (Hv3 & _ & P3); [|done]. simpl in Hv3.
  destruct x as [[]|].
  - apply bind_inv in E as (? & s4 & [= <- <-] & E). injection E as <- <-. simpl. rewrite Hv3. simpl.
    split; [|right; eexists; exact (proj2 P3)]. exists rest. by rewrite release_none.
  - apply bind_inv in E as (? & s4 & [= <- <-] & E). injection E as <- <-. simpl. rewrite Hv3. split; [by eexists|].
    destruct P3 as [P3|P3]; [by left|right; eexists; exact P3].
Qed.

Lemma detach_keeps_inv id s r s' : strato_inv s → strato_hot_detach id s = Some (r, s') → strato_inv s'.
Proof.
  intros [Hok Hn Hb] ([h Ev] & Hp)%strato_detach_outcome.
  assert (ports_ok (q_vm s')) as Hok' by (rewrite Ev; intros pool Ep; apply (pool_inv_ext (q_vm s)); [done..|]; by apply Hok).
  assert (sublist (plugged s') (plugged s)) as Hsub by (destruct Hp as [-> |[qid ->]]; [done|apply sublist_filter]).
  assert (Forall (behind (ports_of (q_vm s))) (plugged s')) as Hb'.
  { destruct Hp as [-> |[qid ->]]; [done|]. apply Forall_forall. intros a [_ Ha]%list_elem_of_filter.
    rewrite Forall_forall in Hb. by apply Hb. }
  split; [done| |rewrite Ev; exact Hb'].
  eapply sublist_NoDup; [exact Hn|]. by apply (fmap_sublist da_bus).
Qed.

(** ** The life of a VM *)
Lemma hot_attach_device_of i p ro s r s' :
  strato_hot_attach (QBlockInfo i p ro) s = Some (r, s') →
  ∃ x, strato_hot_attach_device (StratoBlock_new "" i "" (Some p) (Some ro)) s = Some (x, s')
    ∧ r = match x with
          | Ok n => Ok (to_bus_type (st_block_driver (q_vm s')), "0000:00:" +:+ lower_hex2 (N.of_nat n) +:+ ".0")
          | Err e => Err e
          end.
Proof.
  unfold strato_hot_attach. intros E. apply bind_inv in E as (x & s1 & E1 & E). exists x.
  destruct x as [n|e]; [|injection E as <- <-; done].
  apply bind_inv in E as (v & s2 & [= <- <-] & E). injection E as <- <-. done.
Qed.

Lemma answering_strato l s : strato_inv s → strato_inv (answering l s).
Proof. by intros [? ? ?]. Qed.

Lemma strato_run_inv `{ParamOrder} c s : strato_run c s → strato_inv s.
Proof.
  induction 1 as [vs mk uuid id netns base v0 taps v1 o n v l E1 E2 E3|s i p ro replies r s' _ IH Hi E|s id replies r s' _ IH E].
  - apply create_vm_spec in E1 as (Hok & _ & _ & _). apply taps_carry in E2. apply start_carries in E3 as [E3 _].
    destruct (carries_trans _ _ _ E2 E3) as [[Ep _] Hc]. split; simpl; [|apply NoDup_nil_2|by constructor].
    intros pool Epool. apply Hc, Hok. congruence.
  - apply hot_attach_device_of in E as (x & E & _). apply (attach_keeps_inv (StratoBlock_new "" i "" (Some p) (Some ro)) (answering replies s) x s'); [by apply answering_strato|exact Hi|exact E].
  - by eapply detach_keeps_inv; [apply answering_strato|].
Qed.

(** C28: over the life of a StratoVirt VM, with any answers over QMP, no two
    disks are behind one root port. A disk that is plugged in is behind a port
    that was free and that no disk is behind; that port is a device of the
    command line, the only one at its address on [pcie.0], and the address the
    guest is told is that of this port. A failed attach leaves the list of
    disks as it was and, while the connection is up, StratoVirt's devices. *)
Theorem root_port_exclusive `{ParamOrder} c s i p ro replies r s' :
  strato_run c s → i ≠ "" → strato_hot_attach (QBlockInfo i p ro) (answering replies s) = Some (r, s') →
  NoDup (da_bus <$> qm_plugged (q_mach s')) ∧
  let d := StratoBlock_new "" i "" (Some p) (Some ro) in
  match r with
  | Ok (ty, addr) =>
      ∃ port n, SRootPort port ∈ st_devices (q_vm s) ∧ rp_addr port = addr_text n
        ∧ (∀ d', d' ∈ st_devices (q_vm s) → sdev_addr d' = addr_text n → d' = SRootPort port)
        ∧ addr = "0000:00:" +:+ lower_hex2 (N.of_nat n) +:+ ".0"
        ∧ qm_plugged (q_mach s') = qm_plugged (q_mach s) ++ [strato_device_add d (rp_id port)]
        ∧ Some (rp_id port) ∉ da_bus <$> qm_plugged (q_mach s) ∧ st_hot (q_vm s') = st_hot (q_vm s) ++ [d]
  | Err _ => st_hot (q_vm s') = st_hot (q_vm s) ∧ (up s' → qm_plugged (q_mach s') = qm_plugged (q_mach s))
  end.
Proof.
  intros Hrun Hi E. apply strato_run_inv in Hrun. apply (answering_strato replies) in Hrun.
  apply hot_attach_device_of in E as (x & E & ->). set (d := StratoBlock_new "" i "" (Some p) (Some ro)) in *.
  pose proof (attach_keeps_inv d _ _ _ Hrun Hi E) as [_ Hn _]. split; [exact Hn|]. clear Hn.
  apply attach_cases in E as (Hs & [(-> & -> & _)|(q & l & Ec & Hr)]); [done|].
  change (q_vm (answering replies s)) with (q_vm s) in *. destruct Hrun as [Hok _ Hb]. pose proof (ports_ok_inv _ Hok Hs) as Hpool.
  assert (st_hot (with_ports l (q_vm s)) = st_hot (q_vm s)) as Ehot by (unfold with_ports; by destruct (st_pool (q_vm s))).
  destruct x as [n|e].
  - destruct Hr as (-> & Ev & Ep). pose proof (free_port_unused _ _ _ _ _ _ Ec Hpool Hb) as Hfree.
    destruct Hpool as [[m Hm] _ Hpl]. rewrite Forall_forall in Hpl.
    assert (q ∈ ports_of (q_vm s)) as Hq by (apply claim_first_spec in Ec as (l1 & l2 & -> & _); apply elem_of_app; right; by left).
    destruct (Hpl q Hq) as (port & Hport & Eid & Ea & Hlt). exists port, (rp_index q). do 2 (split; [done|]). split.
    { intros d' Hd' Ed'. apply (same_address m (q_vm s)); [done..| |]; simpl; rewrite Ea; [apply addr_text_nonempty|done]. }
    split; [done|]. rewrite Eid. split; [exact Ep|]. split; [exact Hfree|]. rewrite Ev. done.
  - destruct Hr as [Ev Hr]. rewrite Ev. split; [exact Ehot|]. intros Hup. destruct Hr as [Hr|[Hdown _]]; [exact Hr|done].
Qed.

(** ** The guest's side

    The event of a disk behind the port in slot [n]: the kernel's path goes over
    the port, the function behind it and the virtio device. *)
Definition port_address (n : nat) : string := "0000:00:" +:+ lower_hex2 (N.of_nat n) +:+ ".0".
Definition disk_event (n : nat) (fn vio name : string) : Uevent :=
  mkUevent "add" ("/devices/pci0000:00/" +:+ port_address n +:+ "/" +:+ fn +:+ "/" +:+ vio +:+ "/block/" +:+ name) name "block" "" "".
Definition one_part (s : string) : Prop := contains_char s "/" = false.

Lemma port_address_plain n : n < 256 → one_part (port_address n).
Proof.
  intros Hn. assert (forallb (λ k, negb (contains_char (port_address k) "/")) (seq 0 256) = true) as F by (vm_compute; reflexivity).
  rewrite forallb_forall in F. apply negb_true_iff, F, in_seq. lia.
Qed.
Lemma port_address_inj n m : n < 256 → m < 256 → port_address n = port_address m → n = m.
Proof.
  unfold port_address. intros Hn Hm [= E%suffix_inj]. apply (f_equal byte_of_hex) in E.
  rewrite !lower_hex2_byte in E by lia. lia.
Qed.

Lemma disk_event_parts n fn vio name :
  n < 256 → one_part fn → one_part vio → one_part name →
  rev (split "/" (ue_devpath (disk_event n fn vio name))) =
  [name; "block"; vio; fn; port_address n; "pci0000:00"; "devices"; ""].
Proof.
  intros Hn%port_address_plain Hf Hv Hna. unfold disk_event. cbn [ue_devpath].
  change ("/devices/pci0000:00/" +:+ ?x) with (("/devices/pci0000:00" +:+ String "/" x)). rewrite split_app.
  change ("/" +:+ fn +:+ ?x) with (String "/" (fn +:+ x)). rewrite split_app, (split_no_char _ _ Hn).
  change ("/" +:+ vio +:+ ?x) with (String "/" (vio +:+ x)). rewrite split_app, (split_no_char _ _ Hf).
  change ("/block/" +:+ name) with (String "/" ("block" +:+ String "/" name)). rewrite split_app, (split_no_char _ _ Hv).
  rewrite split_app, (split_no_char _ _ Hna). reflexivity.
Qed.

Lemma guest_converts n fn vio name :
  n < 256 → one_part fn → one_part vio → one_part name → name ≠ "" → starts_with fn "0000:" = true → starts_with vio "virtio" = true →
  convert DEVICE_CONVERTORS (disk_event n fn vio name) = Some (mkGuestDevice ("/dev/" +:+ name) (port_address n) DevBlk).
Proof.
  intros Hn Hf Hv Hna Hne Sf Sv. unfold DEVICE_CONVERTORS. cbn [convert].
  unfold convert_to_scsi_device, convert_to_blk_device. rewrite (disk_event_parts _ _ _ _ Hn Hf Hv Hna).
  assert (starts_with vio "0:0:" = false) as ->.
  { apply starts_with_spec in Sv as [t ->]. reflexivity. }
  simpl. rewrite Sf, Sv. rewrite bool_decide_false by done. done.
Qed.

(** C29: the disk plugged into StratoVirt is the one the guest's agent finds by
    the address it is told, asked for as a virtio-blk disk: of all disks behind slots of the root bus, the
    kernel's event of the disk behind the port that was used matches the
    request, and no other does. *)
Theorem guest_finds_disk `{ParamOrder} c s i p ro replies ty addr s' :
  strato_run c s → i ≠ "" → strato_hot_attach (QBlockInfo i p ro) (answering replies s) = Some (Ok (ty, addr), s') →
  ∃ port n, SRootPort port ∈ st_devices (q_vm s) ∧ rp_addr port = addr_text n
    ∧ strato_device_add (StratoBlock_new "" i "" (Some p) (Some ro)) (rp_id port) ∈ qm_plugged (q_mach s')
    ∧ ∀ m fn vio name, m < 256 → one_part fn → one_part vio → one_part name → name ≠ "" →
        starts_with fn "0000:" = true → starts_with vio "virtio" = true →
        ∃ d, convert DEVICE_CONVERTORS (disk_event m fn vio name) = Some d ∧ gd_path d = "/dev/" +:+ name
          ∧ is_match (mkMatcher DevBlk addr) d = bool_decide (m = n).
Proof.
  intros Hrun Hi E. apply strato_run_inv in Hrun. apply (answering_strato replies) in Hrun.
  apply hot_attach_device_of in E as (x & E & Er). destruct x as [k|]; [|done]. injection Er as -> ->.
  apply attach_cases in E as (Hs & [(? & _)|(q & l & Ec & -> & Ev & Ep)]); [done|].
  destruct Hrun as [Hok _ _]. destruct (ports_ok_inv _ Hok Hs) as [_ _ Hpl]. rewrite Forall_forall in Hpl.
  assert (q ∈ ports_of (q_vm (answering replies s))) as Hq
    by (apply claim_first_spec in Ec as (l1 & l2 & -> & _); apply elem_of_app; right; by left).
  destruct (Hpl q Hq) as (port & Hport & Eid & Ea & Hlt). exists port, (rp_index q). do 2 (split; [done|]). split.
  { change (qm_plugged (q_mach s')) with (plugged s'). rewrite Ep, Eid. apply elem_of_app. right. by left. }
  intros m fn vio name Hm Hf Hv Hna Hne Sf Sv. eexists. split; [by apply guest_converts|]. split; [done|].
  unfold is_match. cbn [dm_addr dm_type gd_addr gd_type]. rewrite (bool_decide_true (DevBlk = DevBlk)), andb_true_r by done.
  apply bool_decide_ext. split; [|by intros ->]. intros Eaddr. symmetry. apply port_address_inj; [lia|done|exact Eaddr].
Qed.

(** ** A VM to try it on *)
Section sample.
#[local] Instance in_order : ParamOrder := λ _, false.

Definition strato_config (machine driver : string) : StratoVirtVMConfig :=
  mkStratoVmConfig DEFAULT_STRATOVIRT_PATH machine driver
    (mkCommon false 1 1024 "/var/lib/kuasar/vmlinux.bin" "/var/lib/kuasar/image" "" "" "" false) "/usr/bin/vhost_user_fs".
Definition virt : StratoVirtVMConfig := strato_config "virt" "virtio-blk".
Definition made_vm (c : StratoVirtVMConfig) : StratoVM :=
  match strato_create_vm c (Some (9, 42)%N) true "u" "sb1" "/run/netns/n1" "/run/sb1" with
  | Some (Ok v) => v | _ => StratoVM_new "" "" "" end.
Definition tap : QemuDeviceInfo := QTapInfo "tap1" "eth0" "02:00:00:00:00:01" [11; 12]%N.
Definition with_tap (c : StratoVirtVMConfig) : StratoVM := match strato_attach tap (made_vm c) with Some (_, v) => v | None => made_vm c end.
Definition starts : StartOutcome := mkStart (Some 70%N) true [(false, false); (true, false)] [None; Some 77%N] (λ _, Some [DEFAULT_STRATOVIRT_PATH]).
Definition running (c : StratoVirtVMConfig) : StratoState :=
  mkQState (match strato_start starts (with_tap c) with Some (_, v, _) => v | None => made_vm c end) (mkQMachine true [] [] []) [] [].
Definition after_step {A} (m : M StratoState A) (s : StratoState) : StratoState := match m s with Some (_, s) => s | None => s end.
Definition plug_disk (i : string) : St (BusType * string) := strato_hot_attach (QBlockInfo i "/h/disk.img" false).

Lemma running_run : strato_run virt (running virt).
Proof.
  eapply (srun_started _ (Some (9, 42)%N) true "u" "sb1" "/run/netns/n1" "/run/sb1" (made_vm virt) [tap] (with_tap virt) starts 77%N);
    [vm_compute; reflexivity|vm_compute; reflexivity|].
  instantiate (1 := match strato_start starts (with_tap virt) with Some (_, _, l) => l | None => None end).
  vm_compute. reflexivity.
Qed.

Lemma root_port_exclusive_witness :
  NoDup (da_bus <$> qm_plugged (q_mach (after_step (plug_disk "disk1") (running virt)))).
Proof.
  refine (proj1 (root_port_exclusive virt (running virt) "disk1" "/h/disk.img" false [] (Ok (PCI, "0000:00:06.0")) _ running_run ltac:(done) _)).
  vm_compute. reflexivity.
Defined.

Lemma guest_finds_disk_witness :
  ∃ port n, SRootPort port ∈ st_devices (q_vm (running virt)) ∧ rp_addr port = addr_text n.
Proof.
  destruct (guest_finds_disk virt (running virt) "disk1" "/h/disk.img" false [] PCI "0000:00:06.0"
              (after_step (plug_disk "disk1") (running virt)) running_run ltac:(done) ltac:(vm_compute; reflexivity))
    as (port & n & H1 & H2 & _).
  exists port, n. split; [exact H1|exact H2].
Defined.

(** The command line of the VM, as the unit tests have it for each device. *)
Example strato_command_line :
  drop 21 <$> strato_launch_params (with_tap virt) =
  Some (["-disable-seccomp"; "-object"; "rng-random,id=rng0,filename=/dev/urandom";
     "-device"; "virtio-rng-pci,rng=rng0,id=virtio-rng0,bus=pcie.0,addr=0x1";
     "-device"; "virtio-serial-pci,id=virtio-serial0,bus=pcie.0,addr=0x2";
     "-chardev"; "socket,id=charconsole0,path=/run/sb1/console.sock,server,nowait";
     "-device"; "virtconsole,id=virtio-console0,chardev=charconsole0";
     "-device"; "virtio-blk-pci,drive=rootfs,id=blk-0,bus=pcie.0,addr=0x3";
     "-drive"; "id=rootfs,file=/var/lib/kuasar/image,readonly=on";
     "-device"; "vhost-vsock-pci,id=vsock-42,guest-cid=42,bus=pcie.0,addr=0x4,vhostfd=3";
     "-chardev"; "socket,id=virtio-fs-sb1,path=/run/sb1/virtiofs.sock,server,nowait";
     "-device"; "vhost-user-fs-pci,id=vhost-user-fs-sb1,chardev=virtio-fs-sb1,tag=kuasar,bus=pcie.0,addr=0x5"] ++
    mjoin ((λ i, ["-device"; "pcie-root-port,id=pcie." +:+ pretty i +:+ ",port=" +:+ addr_text (5 + i) +:+
                              ",bus=pcie.0,addr=" +:+ addr_text (5 + i)]) <$> seq 1 10) ++
    ["-netdev"; "tap,id=tap1,fds=4:5";
     "-device"; "virtio-net-pci,netdev=tap1,id=virtio-net-tap1,vectors=6,bus=pcie.0,addr=0x10,mac=02:00:00:00:00:01,mq=on"])%list.
Proof. vm_compute. reflexivity. Qed.

(** ** Cases worth knowing *)

(** A port is taken for good: after ten disks that were plugged in and out
    again no port is left, although nothing is plugged in. *)
Definition cycle (s : StratoState) (i : string) : StratoState := after_step (strato_hot_detach i) (after_step (plug_disk i) s).
Definition worn : StratoState := foldl cycle (running virt) ((λ i, "disk" +:+ pretty i) <$> seq 1 10).
Example ports_are_never_freed :
  qm_plugged (q_mach worn) = [] ∧ st_hot (q_vm worn) = [] ∧ plug_disk "disk11" worn = Some (Err QExhausted, worn).
Proof. vm_compute. auto. Qed.

(** Also an attach that StratoVirt refuses keeps its port. *)
Example refused_attach_takes_port :
  let s := after_step (plug_disk "disk1") (answering [Refused] (running virt)) in
  qm_plugged (q_mach s) = [] ∧ head (rp_device_id <$> ports_of (q_vm s)) = Some "disk1".
Proof. vm_compute. auto. Qed.

(** On a microvm there is no pool of ports to unwrap. *)
Example microvm_hot_attach_panics : plug_disk "disk1" (running (strato_config "microvm" "virtio-blk")) = None.
Proof. vm_compute. reflexivity. Qed.

(** Before the start only taps are handled; a physical interface or a disk is
    [todo!]. *)
Example attach_physical_panics v i bdf : strato_attach (QPhysicalInfo i bdf) v = None.
Proof. reflexivity. Qed.

(** With the driver virtio-scsi the bus type is SCSI and the address a PCI one,
    which no SCSI disk of the guest has. *)
Example scsi_with_pci_address :
  ∃ s, plug_disk "disk1" (running (strato_config "virt" "virtio-scsi")) = Some (Ok (SCSI, "0000:00:06.0"), s).
Proof. eexists. vm_compute. reflexivity. Qed.

(** A graceful stop kills the daemon first. When StratoVirt does not answer
    [quit] the stop fails; repeated, it fails on the daemon that is gone and
    does not ask StratoVirt any more. *)
Example graceful_stop_not_repeatable :
  let s := running virt in
  strato_stop false true true (answering [Refused] s) =
    Some (([70%N], Err QCommand), mkQState (q_vm s) (q_mach s) [] [Quit])
  ∧ strato_stop false false true s = Some (([], Err QKill), s).
Proof. vm_compute. auto. Qed.

(** A start whose connection does not come up leaves StratoVirt running, and a
    forced stop then does not know its pid. *)
Definition unreachable : StartOutcome := mkStart (Some 70%N) true [(false, true)] [Some 77%N] (λ _, Some [DEFAULT_STRATOVIRT_PATH]).
Example failed_start_leaves_stratovirt :
  match strato_start unreachable (made_vm virt) with
  | Some (Err QTimeout, v, Some _) =>
      fst <$> strato_stop true true false (mkQState v (mkQMachine true [] [] []) [] []) = Some ([70%N], Ok tt)
  | _ => False
  end.
Proof. vm_compute. reflexivity. Qed.
End sample.

(** QEMU's disks are behind a bridge: the guest announces the address of the
    bridge, and waits for the address the driver told it, of the slot on the
    bridge's bus. *)
Example bridged_disk_not_found :
  let e := mkUevent "add" "/devices/pci0000:00/0000:00:02.0/0000:01:01.0/virtio4/block/vda" "vda" "block" "" "" in
  let b := br_bus (create_bridge "pci" "pci-bridge" "pci.0" 0) in
  let told := "0000:" +:+ bus_addr b +:+ ":" +:+ lower_hex2 1 +:+ ".0" in
  convert DEVICE_CONVERTORS e = Some (mkGuestDevice "/dev/vda" "0000:00:02.0" DevBlk) ∧ told = "0000:02:01.0".
Proof. vm_compute. auto. Qed.
